(* ===== verification/_CoqProject ===== *)
-Q . S2P
Prelude.v
Crypto.v
Serialize.v
Storage.v
BigNum.v
BigArith.v
Script.v
Interpreter.v
Standard.v
Base58.v
Mmr.v
MwModels.v
Transactions.v
Merkle.v
Dandelion.v
Money.v
Sighash.v
MwState.v
Secp.v
Points.v
MwCrypto.v
Bulletproofs.v
MwValidation.v
TxInputs.v
Peg.v
MwWallet.v
MwSpend.v
TxChecks.v
MemPool.v
Extension.v
Targets.v
Blocks.v
Supply.v
Chain.v
Kernel.v
Index.v
Orphans.v
Database.v
MwStore.v
Containers.v
Bloom.v
Keys.v
Stealth.v
KeyStore.v
Passphrase.v
Signing.v
Translation.v
CatalogueZhCN.v
CatalogueJa.v
CatalogueKa.v
Catalogues.v
