(* ===== verification/Prelude.v ===== *)
(** * MaryJaneCoin: verification library

    MaryJaneCoin is a proof-of-stake coin in C++ with a MimbleWimble extension
    chain next to its transparent chain, and a wallet window in Qt.  The paths in
    this header are relative to [src/] of the repository: [src/mw/] is the
    extension chain, [src/] the node, [src/qt/] the wallet.  The TypeScript-like
    files of the repository ([src/qt/locale/*.ts]) are Qt translation catalogues;
    they are data of the program and are modelled as such.

    ** The parts and how they interact

    A block of the extension chain carries inputs, outputs and kernels
    ([MwModels]).  A node that connects a block validates its extension block
    against the state ([MwValidation]), which calls the commitment sum check and
    the signatures ([MwCrypto]) and the range proofs ([Bulletproofs]), both on the
    curve library ([Secp]); then it applies the block to the state ([MwState]).
    The state keeps the unspent outputs and a Merkle mountain range over all
    outputs ever made ([Mmr]), and a window of undo records to disconnect blocks
    with when the chain reorganises; it is saved to the database ([MwStore]).
    Blocks travel and are stored in the encoding of [src/serialize.h]
    ([Serialize]); wallet data can be carried in chunks of the transparent chain
    ([Storage]).

    A transaction of the transparent chain ([Transactions]) spends outputs whose
    scripts ([Script]) are evaluated ([Interpreter], with the numbers of [BigNum])
    against the standard forms ([Standard]); signatures cover a hash of the
    transaction ([Sighash]).  The node checks a transaction on its own
    ([TxChecks]), keeps it in its pool ([MemPool]) and, in a block, connects its
    inputs to the index of outputs ([TxInputs]).  A transaction may carry a part
    of the extension chain and peg amounts in or out ([Peg]); the end of the
    connection of a block hands its extension block to validation and to the
    state ([Extension]).

    A block arrives in [ProcessBlock] ([Orphans]), which keeps it while the block
    it follows is unknown.  [AcceptBlock] ([Index]) applies the rules on its place
    in the chain, with the targets of [Targets], the kernel of a stake ([Kernel])
    and the checkpoints, and adds it to the index; [SetBestChain] ([Chain]) makes
    the chain with the most trust the best one, disconnecting and connecting
    blocks ([Blocks]) on the way.  The tree of a block's transactions is in
    [Merkle]; the index of transactions lives in a database ([Database]).  Peers
    are served through Bloom filters ([Bloom]), what is known of them in bounded
    containers ([Containers]); transactions are relayed in two phases
    ([Dandelion]).

    The wallet of the extension chain ([MwWallet]) finds the outputs addressed to it
    in a block and makes transactions ([MwSpend]); payments of the transparent chain
    can hide their receiver in the same way ([Stealth]).

    On the user's side a store of keys ([KeyStore], of the keys of [Keys]) is
    encrypted under a passphrase ([Passphrase]) and signs the inputs that spend its
    own outputs ([Signing]).  Addresses and amounts are read and written as text
    ([Base58] with [BigArith], [Money]); messages go through the catalogues
    ([Translation], [CatalogueZhCN], [CatalogueJa], [CatalogueKa]).

    ** The files

    - [Prelude]: machine integers, bytes, list and bit lemmas, the tactics
      [bool_prop], [guard_in] and [inv_guard] for code with early returns.
    - [Crypto], [Secp], [Points]: what the program uses of SHA-256, of libsecp256k1
      and of the points of OpenSSL, as classes of operations with classes of laws,
      and concrete instances to evaluate the definitions with.
    - [Serialize]: [src/serialize.h].  A codec is the triple of overloads of a
      type; the classes [Laws] (what is written is read back) and [Canonical]
      (what is read is what would be written) are what the models rely on.
      [CDataStream] is a record with the read position.
    - [Storage]: [src/storage.h], the chunk codec with its checksum.
    - [Mmr]: [src/mw/state/mmr.h], [mmr.cpp].  [CMMR] is the node vector and the
      leaf count; [Append], [Rewind], [GetRoot], [GetProof], [VerifyProof] are the
      methods of those names.
    - [MwModels]: [src/mw/mw_common.h], [src/mw/models/].
    - [MwState]: [src/mw/state/mw_state.h], [mw_state.cpp].  [ApplyBlock] and
      [DisconnectBlock] return the new state and the result.  [MwStore]:
      [SaveToDB] and [LoadFromDB] of the same file.
    - [MwCrypto]: [src/mw/crypto/pedersen.cpp], [schnorr.cpp];
      [Bulletproofs]: [src/mw/crypto/bulletproofs.cpp].
    - [MwValidation]: [src/mw/validation.h], [validation.cpp].
    - [MwWallet]: [src/mw/mw_wallet.h], [mw_wallet.cpp]; [MwSpend]: what the
      transactions it creates add up to and how they are answered.  [Stealth]:
      [src/stealth.cpp], [src/ephemeral-guard.h].
    - [BigNum], [BigArith]: [src/bignum.h] over classes of OpenSSL operations with
      laws.
    - [Script]: opcodes, reading and building of scripts ([src/script.h],
      [src/script.cpp]); [Interpreter]: [EvalScript]; [Standard]: [Solver],
      destinations and [VerifyScript].  The hash functions and the signature check
      of the evaluation are classes.
    - [Transactions]: [CTransaction] and its parts ([src/main.h]); [Sighash]:
      [SignatureHash], [CheckSig] and its cache ([src/script.cpp]).
    - [TxInputs]: [CTxIndex], [FetchInputs], [ConnectInputs], [DisconnectInputs]
      and the transaction loops of [ConnectBlock] and [DisconnectBlock]
      ([src/main.cpp]).  [outcome] is the result of a check: accepted, refused with
      a misbehaviour score, or ended by an exception.
    - [Peg]: [src/mw/peg.cpp]; [TxChecks]: [CheckTransaction], [IsStandard] and the
      rules of [ConnectBlock] on markers; [MemPool]: [CTxMemPool], whose pointers
      into [mapTx] are the keys they point at; [Extension]: the MimbleWimble parts
      of [ConnectBlock] and [DisconnectBlock] (all [src/main.cpp]).
    - [Merkle]: the tree and the branches of a block and [CPartialMerkleTree].
    - [Targets]: rewards, targets and block times; [Blocks]: [CBlock], [CheckBlock],
      [ConnectBlock], [DisconnectBlock]; [Supply]: what the outputs of an index are
      worth; [Chain]: [Reorganize] and [SetBestChain]; [Kernel]: [src/kernel.cpp];
      [Index]: [AddToBlockIndex], [AcceptBlock] and [src/checkpoints.cpp];
      [Orphans]: [ProcessBlock] (all others [src/main.h], [src/main.cpp]).  The
      state grows from file to file: the index of transactions, the chain state
      around it, the node with the index of blocks, the node with its orphans.
    - [Database]: [src/txdb-leveldb.h], [src/txdb-leveldb.cpp] over the class
      [LevelDB] with its laws.
    - [Dandelion]: [src/dandelion.h], [src/dandelion.cpp] and its calls;
      [Containers]: [src/limitedmap.h], [src/mruset.h]; [Bloom]: [src/bloom.cpp].
    - [Keys]: [src/key.cpp]; [KeyStore]: [src/keystore.cpp], [src/crypter.cpp];
      [Passphrase]: the encryption of a wallet ([src/wallet.cpp]); [Signing]:
      [SignSignature], [IsMine], [CombineSignatures] ([src/script.cpp]).  The class
      [CKeyStore] is what signing asks of a store.
    - [Base58]: [src/base58.h]; [Money]: amounts as text ([src/util.cpp]).
    - [Translation]: [src/qt/bitcoin.cpp] and what its formats are used for; the
      catalogue files are [src/qt/locale/bitcoin_zh_CN.ts], [bitcoin_ja.ts] and
      [bitcoin_ka.ts]; [Catalogues] has the theorems about them.

    ** What the theorems show

    - No block creates coins beyond the reward of its height, so the coins of a
      chain are bounded; the cut of the fund is never payable, which stops
      transactions in blocks of stake ([Supply], [Chain]).
    - A switch of the best chain that succeeds leaves the state a replay of the new
      chain would; one that fails leaves the database and the pool as they were,
      but not the extension state ([Chain]).
    - Whatever arrives, the index of blocks stays a tree, blocks are accepted only
      under their rules, the synchronised checkpoint locks the chain below it, and
      the receipt of a block with its orphans ends ([Index], [Orphans]).  Stake
      modifiers are well defined and what the search for a kernel finds passes its
      check ([Kernel]); targets stay within their limits ([Targets]).
    - The mountain range is a function of the list of leaves: appending, rewinding
      and the root agree with the list ([Mmr]).  Membership proofs verify for the
      last two mountains and are rejected for every other leaf, which is a defect
      of [GetProof].
    - Connecting a block whose outputs are new keeps the invariant of the state, and
      disconnecting a run of such blocks restores the state member for member, but
      for the undo records the run pushed out of the window; an output created again
      after it was spent breaks the invariant ([MwState]).  A saved state is loaded
      as it was, unless an earlier save left entries behind ([MwStore]).
    - Validation accepts exactly the blocks that meet its conditions, a valid block
      balances and spends each of its inputs once ([MwValidation]).  It also
      carries no amount at all: fees and pegs are committed to with a blinding
      factor of zero, which is not a key.
    - The sum check is the equation between sums of points; signatures by the
      excess verify ([MwCrypto]).  Range proofs establish an equation that does not
      involve the range, and disclose the amount ([Bulletproofs]).
    - The wallet of the extension chain finds the payments made with a nonce both
      sides can derive, and selects as few outputs as possible.  What it sends adds
      up and takes the amount and the fee from the balance, but is accepted by no
      node, because its fee is an amount ([MwWallet], [MwSpend]).  A stealth payment
      is received, and its ephemeral key is never taken again ([Stealth]).
    - Evaluating a script terminates, keeps the limits on elements and operations,
      and a multi-signature check finds exactly the signatures that match the keys
      in order ([Interpreter]).  An output that pays to a key hash or a script hash
      is spent exactly as it should be ([Standard]).  The signature cache does not
      change what is accepted, and a signature of everything binds the transaction
      ([Sighash]).
    - A block connects only if no output is spent twice across its transactions,
      and disconnecting it restores the index where its transactions were new to
      it; a transaction that connects pays for its outputs and its fee
      ([TxInputs]).  The pool never holds two spends of
      an output and never points at a transaction it dropped; recursive removal
      terminates and leaves no orphan ([MemPool]).  [CheckTransaction] accepts
      exactly the well-formed transactions ([TxChecks]).
    - Pegs do not work: what the wallet creates for one never balances, no peg-in
      is standard, and connecting a block never moves an amount between the chains
      ([Peg], [TxChecks], [Extension]).
    - The database is atomic and implements the map of spent outputs the other
      files use ([Database]).  Branches and partial trees prove membership
      ([Merkle]), a filter forgets nothing ([Bloom]), the containers keep their
      bounds ([Containers]), and a transaction that stays in the pool is flooded in
      the end ([Dandelion]).
    - The encrypted store of keys implements a machine that is plain, locked or
      open, and the last passphrase opens it; what a store calls its own it signs
      for, and signers complete each other's work ([KeyStore], [Passphrase],
      [Signing]).
    - Encodings are read back, are unique where the format has one encoding per
      value, and detect altered chunks ([Serialize], [MwModels], [Storage]); byte
      strings and base-58 texts are in bijection ([Base58]).
    - Three catalogues hold the same messages, and their formats read the arguments
      of the formats they replace; the texts with broken markers or markup are
      listed exactly ([Catalogues]).

    ** Conventions

    A C++ integer of width [w] is a [Z] with the wrap of its type written out
    where an operation can leave the range; where C++ leaves the overflow of a signed
    type undefined, the model wraps, as two's complement hardware does.  A method that changes an object takes
    and returns it.  A function that returns [bool] and fills an out-parameter
    returns an [option]; an exception is [None].  Locks are not modelled: every
    method of a locked object runs under its lock, so a call is one step.  Log
    output and the cleansing of memory are left out.  Random draws, the clock and
    the places blocks get on disk are arguments.

    Loops whose length is not that of a list have fuel.  [Mmr]: 64 for loops over
    the bits of a 64-bit position, shown to be enough below 2^59 leaves.
    [Serialize]: the number of blocks of 5,000,000 bytes up to the size limit.
    [Bulletproofs]: 256 candidates, as in the code.  [Script], [Interpreter],
    [Standard]: the length of the script, of which each turn reads at least a byte.
    [Sighash]: the size of the cache, of which each turn removes an element.
    [MemPool]: the size of the pool, which bounds the depth of a removal when no
    transaction depends on itself.  [Merkle]: 32 levels, which the limit on the
    number of transactions does not reach.  [Base58]: two digits for a byte.
    [Money]: 20 digits.  [Targets]: a turn for a day of the time that passed.
    [Kernel]: an entry of the index for a turn.  [Orphans]: the number of orphans,
    of which each turn takes one.  [Containers]: the size of the container.
    [Signing]: the depth of script hashes, given by the caller.

    ** Not modelled

    Third-party code is an interface with laws (OpenSSL, libsecp256k1, LevelDB, Qt)
    or is left out (Berkeley DB, Boost, sphlib, scrypt).  Of the chain:
    [LoadBlockIndex], which reads the index back at start-up, the entries of the
    index on disk with [hashNext], the [nMint] of an entry whose connection failed,
    and [SignBlock].  Of the user's side: the history and the file of a wallet, the
    choice of coins and the creation of transactions.  The network but for the
    relay and the filters, the commands, the window but for its messages, and the
    start of the program are input and output around these parts. *)

From Stdlib Require Export ZArith Lia.
From stdpp Require Export base tactics numbers list gmap option sorting.

#[export] Set Default Goal Selector "!".

Open Scope Z_scope.

(** ** Machine integers

    A C++ integer of width [w] is a [Z]; every arithmetic operation of the
    source that can leave the range is followed by the wrap of its type. *)

Definition u8 (z : Z) : Z := z mod 2 ^ 8.
Definition u16 (z : Z) : Z := z mod 2 ^ 16.
Definition u32 (z : Z) : Z := z mod 2 ^ 32.
Definition u64 (z : Z) : Z := z mod 2 ^ 64.
Definition i32 (z : Z) : Z := (z + 2 ^ 31) mod 2 ^ 32 - 2 ^ 31.
Definition i64 (z : Z) : Z := (z + 2 ^ 63) mod 2 ^ 64 - 2 ^ 63.

Ltac word_unfold := unfold u8, u16, u32, u64, i32, i64 in *.

Lemma u8_range z : 0 <= u8 z < 256.
Proof. unfold u8. apply Z.mod_pos_bound. lia. Qed.
Lemma u16_range z : 0 <= u16 z < 65536.
Proof. unfold u16. apply Z.mod_pos_bound. lia. Qed.
Lemma u32_range z : 0 <= u32 z < 2 ^ 32.
Proof. unfold u32. apply Z.mod_pos_bound. lia. Qed.
Lemma u64_range z : 0 <= u64 z < 2 ^ 64.
Proof. unfold u64. apply Z.mod_pos_bound. lia. Qed.
Lemma i64_range z : - 2 ^ 63 <= i64 z < 2 ^ 63.
Proof. unfold i64. pose proof (Z.mod_pos_bound (z + 2 ^ 63) (2 ^ 64)). lia. Qed.
Lemma i32_range z : - 2 ^ 31 <= i32 z < 2 ^ 31.
Proof. unfold i32. pose proof (Z.mod_pos_bound (z + 2 ^ 31) (2 ^ 32)). lia. Qed.

Lemma u8_id z : 0 <= z < 256 -> u8 z = z.
Proof. intros H. unfold u8. apply Z.mod_small. lia. Qed.
Lemma u16_id z : 0 <= z < 65536 -> u16 z = z.
Proof. intros H. unfold u16. apply Z.mod_small. lia. Qed.
Lemma u32_id z : 0 <= z < 2 ^ 32 -> u32 z = z.
Proof. intros H. unfold u32. apply Z.mod_small. lia. Qed.
Lemma u64_id z : 0 <= z < 2 ^ 64 -> u64 z = z.
Proof. intros H. unfold u64. apply Z.mod_small. lia. Qed.
Lemma i64_id z : - 2 ^ 63 <= z < 2 ^ 63 -> i64 z = z.
Proof. intros H. unfold i64. rewrite Z.mod_small; lia. Qed.
Lemma i32_id z : - 2 ^ 31 <= z < 2 ^ 31 -> i32 z = z.
Proof. intros H. unfold i32. rewrite Z.mod_small; lia. Qed.

Create HintDb words.
Create Rewrite HintDb words_id.
#[export] Hint Resolve u8_range u16_range u32_range u64_range i32_range i64_range : words.
#[export] Hint Rewrite u8_id u16_id u32_id u64_id i32_id i64_id using lia : words_id.

(** ** Boolean conditions

    The guards of the code are boolean expressions; [bool_prop] turns the
    hypotheses and the goal into propositions. *)

Ltac bool_prop :=
  repeat match goal with
  | H : _ && _ = true |- _ => apply andb_true_iff in H; destruct H
  | H : _ || _ = false |- _ => apply orb_false_iff in H; destruct H
  | H : negb _ = true |- _ => apply negb_true_iff in H
  | H : negb _ = false |- _ => apply negb_false_iff in H
  | H : (_ <? _) = true |- _ => apply Z.ltb_lt in H
  | H : (_ <? _) = false |- _ => apply Z.ltb_ge in H
  | H : (_ <=? _) = true |- _ => apply Z.leb_le in H
  | H : (_ <=? _) = false |- _ => apply Z.leb_gt in H
  | H : (_ =? _) = true |- _ => apply Z.eqb_eq in H
  | H : (_ =? _) = false |- _ => apply Z.eqb_neq in H
  | H : bool_decide _ = true |- _ => apply bool_decide_eq_true in H
  | H : bool_decide _ = false |- _ => apply bool_decide_eq_false in H
  | H : is_true _ |- _ => unfold is_true in H
  end.

(** [split_guard] splits on the first condition of the goal. *)
Ltac split_guard :=
  match goal with
  | |- context [if ?b then _ else _] =>
      let E := fresh "E" in destruct b eqn:E; bool_prop
  end.

(** [guard_in H as E] splits on the first condition of [H], closing the branch
    whose result contradicts it. *)
Tactic Notation "guard_in" hyp(H) "as" ident(E) :=
  match type of H with
  | context [if ?b then _ else _] => destruct b eqn:E; try discriminate H
  end; bool_prop.

(** [inv_guard H] splits on the conditions and options that [H : _ = Some _]
    went through, discarding the branches that returned early. *)
Ltac inv_guard H :=
  repeat (match type of H with
  | context [if ?b then _ else _] =>
      let E := fresh "E" in destruct b eqn:E; try discriminate H
  | context [match ?o with Some _ => _ | None => _ end] =>
      let E := fresh "E" in destruct o eqn:E; try discriminate H
  | context [let '(_, _) := ?p in _] =>
      let E := fresh "E" in destruct p eqn:E
  end; simpl in H); bool_prop.

(** ** Bytes *)

Abbreviation bytes := (list Z) (only parsing).

Definition byte_ok (b : Z) : Prop := 0 <= b < 256.
Definition bytes_ok (l : bytes) : Prop := Forall byte_ok l.

#[export] Instance byte_ok_dec b : Decision (byte_ok b).
Proof. unfold byte_ok. apply _. Defined.
#[export] Instance bytes_ok_dec l : Decision (bytes_ok l).
Proof. unfold bytes_ok. apply _. Defined.

(** A property of bytes is checked on all of them. *)
Lemma byte_cases (f : Z -> bool) :
  forallb f (seqZ 0 256) = true -> forall b, byte_ok b -> f b = true.
Proof.
  intros Hf b Hb. rewrite forallb_forall in Hf. apply Hf, list_elem_of_In, elem_of_seqZ.
  unfold byte_ok in Hb. lia.
Qed.

(** The [n] low-order bytes of [z], least significant first, and back. *)
Fixpoint le_bytes (n : nat) (z : Z) : bytes :=
  match n with
  | O => []
  | S n' => z mod 256 :: le_bytes n' (z / 256)
  end.

Fixpoint le_value (l : bytes) : Z :=
  match l with
  | [] => 0
  | b :: l' => b + 256 * le_value l'
  end.

Lemma le_bytes_length n z : length (le_bytes n z) = n.
Proof. revert z. induction n; simpl; auto. Qed.

Lemma le_bytes_ok n z : bytes_ok (le_bytes n z).
Proof.
  revert z. induction n; intros z; simpl; constructor.
  - apply Z.mod_pos_bound. lia.
  - apply IHn.
Qed.

Lemma le_value_bytes n z : le_value (le_bytes n z) = z mod 2 ^ (8 * Z.of_nat n).
Proof.
  revert z. induction n as [|n IH]; intros z.
  - simpl. by rewrite Z.mod_1_r.
  - simpl le_bytes. simpl le_value. rewrite IH.
    replace (8 * Z.of_nat (S n)) with (8 + 8 * Z.of_nat n) by lia.
    rewrite Z.pow_add_r by lia. change (2 ^ 8) with 256.
    rewrite Z.rem_mul_r by lia. lia.
Qed.

Lemma le_value_bytes_id n z : 0 <= z < 2 ^ (8 * Z.of_nat n) -> le_value (le_bytes n z) = z.
Proof. intros Hz. rewrite le_value_bytes. by apply Z.mod_small. Qed.

Lemma le_value_range l : bytes_ok l -> 0 <= le_value l < 2 ^ (8 * Z.of_nat (length l)).
Proof.
  induction 1 as [|b l Hb Hl IH]; simpl length; simpl le_value; [simpl; lia|].
  replace (8 * Z.of_nat (S (length l))) with (8 + 8 * Z.of_nat (length l)) by lia.
  rewrite Z.pow_add_r by lia. change (2 ^ 8) with 256. unfold byte_ok in Hb. lia.
Qed.

Lemma le_bytes_value l : bytes_ok l -> le_bytes (length l) (le_value l) = l.
Proof.
  induction 1 as [|b l Hb Hl IH]; [done|]. simpl. unfold byte_ok in Hb.
  rewrite (Z.mul_comm 256), Z_mod_plus_full, Z.mod_small by lia.
  rewrite Z.div_add by lia. rewrite Z.div_small by lia. by rewrite Z.add_0_l, IH.
Qed.

Lemma bytes_ok_app l1 l2 : bytes_ok (l1 ++ l2) <-> bytes_ok l1 /\ bytes_ok l2.
Proof. apply Forall_app. Qed.

Lemma bytes_ok_take n l : bytes_ok l -> bytes_ok (take n l).
Proof. apply Forall_take. Qed.
Lemma bytes_ok_drop n l : bytes_ok l -> bytes_ok (drop n l).
Proof. apply Forall_drop. Qed.
Lemma bytes_ok_zeros n : bytes_ok (replicate n 0).
Proof. apply Forall_replicate. unfold byte_ok. lia. Qed.

Lemma bytes_ok_insert l i x : bytes_ok l -> byte_ok x -> bytes_ok (<[i := x]> l).
Proof. intros Hl Hx. by apply Forall_insert. Qed.

Lemma le_value_app l1 l2 :
  le_value (l1 ++ l2) = le_value l1 + 2 ^ (8 * Z.of_nat (length l1)) * le_value l2.
Proof.
  induction l1 as [|b l IH]; simpl app; cbn [le_value length]; [simpl Z.of_nat; rewrite Z.mul_0_r; lia|].
  rewrite IH. replace (8 * Z.of_nat (S (length l))) with (8 + 8 * Z.of_nat (length l)) by lia.
  rewrite Z.pow_add_r by lia. change (2 ^ 8) with 256. ring.
Qed.

Lemma le_value_inj l1 l2 :
  bytes_ok l1 -> bytes_ok l2 -> length l1 = length l2 -> le_value l1 = le_value l2 -> l1 = l2.
Proof.
  intros H1 H2 Hl E. rewrite <-(le_bytes_value l1), <-(le_bytes_value l2) by done.
  by rewrite E, Hl.
Qed.

Create HintDb bytes_db.
Create Rewrite HintDb bytes_len.
#[export] Hint Resolve le_bytes_ok bytes_ok_take bytes_ok_drop bytes_ok_zeros : bytes_db.
#[export] Hint Rewrite le_bytes_length le_value_bytes : bytes_len.

(** ** Bits *)

(** Bytes masked out of a word are its base-256 digits. *)
Lemma land_ff z : Z.land z 255 = z mod 256.
Proof. change 255 with (Z.ones 8). rewrite Z.land_ones by lia. done. Qed.

Lemma testbit_high a n i : 0 <= a < 2 ^ n -> n <= i -> 0 <= n -> Z.testbit a i = false.
Proof.
  intros Ha Hi Hn. destruct (Z.eq_dec a 0) as [->|]; [apply Z.testbit_0_l|].
  apply Z.bits_above_log2; [lia|].
  apply Z.log2_lt_pow2; [lia|]. eapply Z.lt_le_trans; [apply Ha|].
  apply Z.pow_le_mono_r; lia.
Qed.

Lemma lt_pow2_of_bits a n :
  0 <= a -> 0 <= n -> (forall i, n <= i -> Z.testbit a i = false) -> a < 2 ^ n.
Proof.
  intros Ha Hn Hb. destruct (Z.eq_dec a 0) as [->|]; [apply Z.pow_pos_nonneg; lia|].
  apply Z.log2_lt_pow2; [lia|]. destruct (Z.lt_ge_cases (Z.log2 a) n) as [|Hge]; [done|].
  specialize (Hb _ Hge). rewrite Z.bit_log2 in Hb by lia. done.
Qed.

Lemma lxor_range a b n : 0 <= n -> 0 <= a < 2 ^ n -> 0 <= b < 2 ^ n -> 0 <= Z.lxor a b < 2 ^ n.
Proof.
  intros Hn Ha Hb. assert (0 <= Z.lxor a b) by (apply Z.lxor_nonneg; lia).
  split; [done|]. apply lt_pow2_of_bits; [done|lia|]. intros i Hi.
  rewrite Z.lxor_spec, !(testbit_high _ n) by lia. done.
Qed.

Lemma lor_range a b n : 0 <= n -> 0 <= a < 2 ^ n -> 0 <= b < 2 ^ n -> 0 <= Z.lor a b < 2 ^ n.
Proof.
  intros Hn Ha Hb. assert (0 <= Z.lor a b) by (apply Z.lor_nonneg; lia).
  split; [done|]. apply lt_pow2_of_bits; [done|lia|]. intros i Hi.
  rewrite Z.lor_spec, !(testbit_high _ n) by lia. done.
Qed.

(** ** Lists *)

(** [size()] *)
Definition len {A} (l : list A) : Z := Z.of_nat (length l).

Lemma rev_replicate {A} n (x : A) : rev (replicate n x) = replicate n x.
Proof. rewrite rev_alt. apply (reverse_replicate n x). Qed.

Lemma len_app {A} (l1 l2 : list A) : len (l1 ++ l2) = len l1 + len l2.
Proof. unfold len. rewrite length_app. lia. Qed.

Lemma len_pos {A} (l : list A) : 0 <= len l.
Proof. unfold len. lia. Qed.

Lemma len_take {A} n (l : list A) : (n <= length l)%nat -> len (take n l) = Z.of_nat n.
Proof. intros. unfold len. rewrite length_take. lia. Qed.
Lemma len_drop {A} n (l : list A) : (n <= length l)%nat -> len (drop n l) = len l - Z.of_nat n.
Proof. intros. unfold len. rewrite length_drop. lia. Qed.

Lemma len_zero {A} (l : list A) : len l = 0 -> l = [].
Proof. destruct l; [done|]. unfold len. simpl. lia. Qed.

Lemma len_cons {A} (x : A) l : len (x :: l) = 1 + len l.
Proof. unfold len. simpl length. lia. Qed.

Lemma len_nil {A} : len (@nil A) = 0.
Proof. done. Qed.

(** The length of an explicit list. *)
Ltac lens := repeat first [rewrite len_app in * | rewrite len_cons in * | rewrite len_nil in *].

(** [vector::operator[]] on an index the surrounding code has checked. *)
Definition at_ {A} (d : A) (l : list A) (i : Z) : A :=
  if i <? 0 then d else nth (Z.to_nat i) l d.

Lemma at_lookup {A} (d : A) l i x : 0 <= i -> l !! Z.to_nat i = Some x -> at_ d l i = x.
Proof.
  intros Hi Hl. unfold at_. destruct (Z.ltb_spec i 0); [lia|].
  by rewrite nth_lookup, Hl.
Qed.

Lemma at_lookup_lt {A} (d : A) l i :
  0 <= i < Z.of_nat (length l) -> l !! Z.to_nat i = Some (at_ d l i).
Proof.
  intros Hi. destruct (lookup_lt_is_Some_2 l (Z.to_nat i)) as [x Hx]; [lia|].
  rewrite Hx. f_equal. symmetry. apply at_lookup; [lia|done].
Qed.

Lemma at_drop {A} (d : A) l n i : 0 <= i -> at_ d (drop n l) i = at_ d l (Z.of_nat n + i).
Proof.
  intros Hi. unfold at_. destruct (Z.ltb_spec i 0), (Z.ltb_spec (Z.of_nat n + i) 0); try lia.
  rewrite !nth_lookup, lookup_drop. do 2 f_equal. lia.
Qed.

Lemma at_insert_ne {A} (d : A) l j x i : 0 <= i -> Z.to_nat i <> j -> at_ d (<[j := x]> l) i = at_ d l i.
Proof.
  intros Hi Hne. unfold at_. destruct (Z.ltb_spec i 0); [lia|].
  by rewrite !nth_lookup, list_lookup_insert_ne by done.
Qed.

Lemma at_byte_ok l i : bytes_ok l -> byte_ok (at_ 0 l i).
Proof.
  intros Hl. unfold at_. destruct (i <? 0); [done|]. rewrite nth_lookup.
  destruct (l !! Z.to_nat i) eqn:E; [|done]. by eapply Forall_lookup_1 in E.
Qed.

Lemma at_beyond {A} (d : A) l i : len l <= i -> at_ d l i = d.
Proof.
  intros Hi. unfold at_. destruct (i <? 0); [done|]. apply nth_overflow. unfold len in Hi. lia.
Qed.

Lemma at_app_l {A} (d : A) (l1 l2 : list A) i : 0 <= i < len l1 -> at_ d (l1 ++ l2) i = at_ d l1 i.
Proof. intros Hi. unfold at_. destruct (Z.ltb_spec i 0); [lia|]. apply app_nth1. unfold len in Hi. lia. Qed.
Lemma at_app_r {A} (d : A) (l1 l2 : list A) i : 0 <= i -> at_ d (l1 ++ l2) (len l1 + i) = at_ d l2 i.
Proof.
  intros Hi. unfold at_. pose proof (len_pos l1). destruct (Z.ltb_spec i 0), (Z.ltb_spec (len l1 + i) 0); try lia.
  unfold len. rewrite app_nth2 by lia. f_equal. lia.
Qed.

(** Reads at literal indices compute. *)
Ltac nat_literals :=
  repeat match goal with
  | |- context [Z.to_nat ?c] =>
    lazymatch c with Z0 => idtac | Zpos _ => idtac end;
    let n := eval vm_compute in (Z.to_nat c) in change (Z.to_nat c) with n
  | H : context [Z.to_nat ?c] |- _ =>
    lazymatch c with Z0 => idtac | Zpos _ => idtac end;
    let n := eval vm_compute in (Z.to_nat c) in change (Z.to_nat c) with n in H
  end.
Ltac at_eval :=
  unfold at_ in *; nat_literals;
  cbn [Z.ltb Z.compare nth app le_bytes le_value map] in *.

(** Reads and writes of a two-part word. *)
Lemma lor_shiftl a b n : 0 <= n -> 0 <= a < 2 ^ n -> Z.lor a (Z.shiftl b n) = a + b * 2 ^ n.
Proof.
  intros Hn Ha. rewrite <-Z.shiftl_mul_pow2 by lia. symmetry. apply Z.add_nocarry_lor.
  apply Z.bits_inj'. intros i Hi. rewrite Z.land_spec, Z.bits_0.
  destruct (Z.lt_ge_cases i n) as [Hl|Hl].
  - rewrite Z.shiftl_spec_low by lia. apply andb_false_r.
  - rewrite (testbit_high a n) by lia. done.
Qed.

(** A vector filled by writes at distinct positions. *)
Lemma fold_insert_length {A} (f : nat -> A) (ks : list nat) (l : list A) :
  length (fold_left (fun l i => <[i := f i]> l) ks l) = length l.
Proof. revert l. induction ks; intros l; simpl; [done|]. by rewrite IHks, length_insert. Qed.

Lemma fold_insert_notin {A} (f : nat -> A) (ks : list nat) (l : list A) j :
  j ∉ ks -> fold_left (fun l i => <[i := f i]> l) ks l !! j = l !! j.
Proof.
  revert l. induction ks as [|i ks IH]; intros l Hj; cbn [fold_left]; [done|].
  rewrite IH by set_solver. rewrite list_lookup_insert_ne; [done|set_solver].
Qed.

Lemma fold_insert_in {A} (f : nat -> A) (ks : list nat) (l : list A) j :
  j ∈ ks -> (j < length l)%nat ->
  fold_left (fun l i => <[i := f i]> l) ks l !! j = Some (f j).
Proof.
  revert l. induction ks as [|i ks IH]; intros l Hj Hlt; cbn [fold_left]; [set_solver|].
  destruct (decide (j ∈ ks)) as [Hin|Hin]; [apply IH; [done|by rewrite length_insert]|].
  rewrite fold_insert_notin by done. assert (i = j) as -> by set_solver.
  by apply list_lookup_insert_eq.
Qed.

(** Writing every position, in any order, overwrites the whole vector. *)
Lemma fold_insert_all {A} (f : nat -> A) (ks : list nat) (l : list A) n :
  length l = n -> ks ≡ₚ seq 0 n ->
  fold_left (fun l i => <[i := f i]> l) ks l = map f (seq 0 n).
Proof.
  intros Hl Hp. apply list_eq. intros j.
  change (map f (seq 0 n)) with (f <$> seq 0 n). rewrite list_lookup_fmap.
  destruct (decide (j < n)%nat) as [Hj|Hj].
  - rewrite fold_insert_in; [|rewrite Hp, elem_of_seq; lia|lia].
    by rewrite lookup_seq_lt by lia.
  - rewrite !lookup_ge_None_2; [done| |]; rewrite ?fold_insert_length, ?length_seq; lia.
Qed.

Lemma seqZ_nat n : 0 <= n -> seqZ 0 n = map Z.of_nat (seq 0 (Z.to_nat n)).
Proof.
  intros Hn. unfold seqZ. apply map_ext. intros. lia.
Qed.

(** ** Registers fed with bytes

    A register updated by a step that can be undone never forgets a byte. *)
Section register.
Context {S B : Type} (sok : S -> Prop) (bok : B -> Prop) (step : S -> B -> S).
Hypothesis step_ok : forall s b, sok s -> bok b -> sok (step s b).
Hypothesis step_inj_state :
    forall s t b, sok s -> sok t -> bok b -> step s b = step t b -> s = t.
Hypothesis step_inj_byte :
    forall s a b, sok s -> bok a -> bok b -> step s a = step s b -> a = b.

Lemma register_ok l s : sok s -> Forall bok l -> sok (fold_left step l s).
  Proof. intros Hs Hl. revert s Hs. induction Hl; simpl; auto. Qed.

Lemma register_inj l s t :
    sok s -> sok t -> Forall bok l -> fold_left step l s = fold_left step l t -> s = t.
  Proof.
    intros Hs Ht Hl. revert s t Hs Ht.
    induction Hl as [|b l Hb Hl IH]; simpl; intros s t Hs Ht E; [done|].
    eapply step_inj_state; eauto.
  Qed.

Lemma register_one_byte s p x y q :
    sok s -> Forall bok p -> Forall bok q -> bok x -> bok y ->
    fold_left step (p ++ x :: q) s = fold_left step (p ++ y :: q) s -> x = y.
  Proof.
    intros Hs Hp Hq Hx Hy. rewrite !fold_left_app. cbn [fold_left]. intros E.
    pose proof (register_ok p s Hs Hp) as Hr.
    apply register_inj in E; auto. eapply step_inj_byte; eauto.
  Qed.
End register.

(** ** Numbers in a radix *)

Section radix.
Context (B : Z) (HB : 1 < B).

Fixpoint radix (l : list Z) : Z := match l with [] => 0 | d :: l' => d + B * radix l' end.
Definition digits (l : list Z) : Prop := Forall (fun d => 0 <= d < B) l.

Lemma radix_pos l : digits l -> 0 <= radix l.
Proof. induction 1; cbn [radix]; lia. Qed.

Lemma radix_top l : digits l -> l <> [] -> last l <> Some 0 -> 0 < radix l.
Proof.
  induction 1 as [|d l Hd Hl IH]; [done|]. intros _ Hlast. cbn [radix]. destruct l as [|e l].
  - cbn in *. assert (d <> 0) by congruence. lia.
  - assert (0 < radix (e :: l)) by (apply IH; done). lia.
Qed.

(** A number has one representation without leading zeroes. *)
Lemma radix_unique l1 l2 :
  digits l1 -> digits l2 -> last l1 <> Some 0 -> last l2 <> Some 0 -> radix l1 = radix l2 -> l1 = l2.
Proof.
  intros H1. revert l2. induction H1 as [|d l1 Hd Hl1 IH]; intros l2 H2 T1 T2 E.
  - destruct l2 as [|e l2]; [done|]. pose proof (radix_top _ H2 ltac:(done) T2). cbn [radix] in *. lia.
  - destruct H2 as [|e l2 He Hl2].
    { pose proof (radix_top (d :: l1) ltac:(by constructor) ltac:(done) T1). cbn in *. lia. }
    cbn [radix] in E. assert (d = e /\ radix l1 = radix l2) as [<- E'].
    { assert (d = (d + B * radix l1) mod B) as E1 by (rewrite Z.mul_comm, Z_mod_plus_full; symmetry; by apply Z.mod_small).
      assert (e = (e + B * radix l2) mod B) as E2 by (rewrite Z.mul_comm, Z_mod_plus_full; symmetry; by apply Z.mod_small).
      assert (d = e) by congruence. nia. }
    f_equal. apply IH; [done| | |done].
    + destruct l1; [done|exact T1].
    + destruct l2; [done|exact T2].
Qed.

Lemma radix_app l1 l2 : radix (l1 ++ l2) = radix l1 + B ^ len l1 * radix l2.
Proof.
  induction l1 as [|d l1 IH]; cbn [app radix]; [change (@len Z []) with 0; rewrite Z.pow_0_r; lia|]. rewrite IH, len_cons.
  rewrite Z.pow_add_r by (pose proof (len_pos l1); lia). ring.
Qed.
Lemma radix_zeros n : radix (replicate n 0) = 0.
Proof. induction n; cbn [replicate radix]; lia. Qed.
Lemma radix_bound l : digits l -> radix l < B ^ len l.
Proof.
  induction 1 as [|d l Hd Hl IH]; cbn [radix]; [done|]. rewrite len_cons, Z.pow_add_r by (pose proof (len_pos l); lia). rewrite Z.pow_1_r. nia.
Qed.
End radix.

Lemma radix_le l : radix 256 l = le_value l.
Proof. induction l as [|b l IH]; cbn [radix le_value]; lia. Qed.
