(* ===== verification/Crypto.v ===== *)
(** * Third-party primitives

    The hash functions, curve operations and random source the program links
    against (OpenSSL, libsecp256k1) are the operations of type classes: every
    definition that uses one takes it as an argument.  What a theorem relies on
    is a named hypothesis of that theorem or section.  [toy_sha256] is a
    concrete function of the right type, for evaluating the definitions. *)

From S2P Require Import Prelude.

(** [SHA256(data, len, out)]: the 32 bytes written at [out]. *)
Class Sha256 := sha256 : bytes -> bytes.

(** A [uint256] is stored least significant byte first; hashing into one reads
    the digest in that order. *)
Abbreviation uint256 := Z (only parsing).
Definition uint256_bytes (h : uint256) : bytes := le_bytes 32 h.
Definition uint256_of (digest : bytes) : uint256 := le_value digest.

(** [SHA256_Init; SHA256_Update ...; SHA256_Final] into a [uint256]. *)
Definition sha256_once `{Sha256} (data : bytes) : uint256 := uint256_of (sha256 data).

(** The second pass over the 32 bytes of the first result. *)
Definition sha256_twice `{Sha256} (data : bytes) : uint256 :=
  sha256_once (uint256_bytes (sha256_once data)).

Lemma uint256_bytes_length h : length (uint256_bytes h) = 32%nat.
Proof. apply le_bytes_length. Qed.

Lemma uint256_bytes_inj a b :
  0 <= a < 2 ^ 256 -> 0 <= b < 2 ^ 256 -> uint256_bytes a = uint256_bytes b -> a = b.
Proof.
  intros Ha Hb E. apply (f_equal le_value) in E. unfold uint256_bytes in E.
  by rewrite !le_value_bytes_id in E by done.
Qed.

(** A mixing function standing for SHA-256 in evaluated examples. *)
Definition toy_sha256 (l : bytes) : bytes :=
  le_bytes 32 (fold_left (fun acc b => (acc * 6364136223846793005 + b * 40503 + 1442695040888963407) mod 2 ^ 64)
                 l 14695981039346656037).
