(* ===== verification/Serialize.v ===== *)
(** * Serialisation ([src/serialize.h])

    The three overloads the source gives every type ([GetSerializeSize],
    [Serialize], [Unserialize]) are one [codec]; the templates on vectors, pairs
    and maps, and the [IMPLEMENT_SERIALIZE] macro, are combinators on codecs.
    Reading throws at the end of the data and on a bad size: a [reader] returns
    [None].  [Laws] and [Canonical] are the interfaces the other components use. *)

From S2P Require Import Prelude.

Module Stream.

Definition MAX_SIZE : Z := 33554432.

(** ** Readers *)

Definition reader (A : Type) : Type := bytes -> option (A * bytes).

Definition ret {A} (x : A) : reader A := fun s => Some (x, s).
Definition bind {A B} (m : reader A) (f : A -> reader B) : reader B := fun s =>
  match m s with None => None | Some (x, s') => f x s' end.

Declare Scope reader_scope.
Notation "x ← m ; k" := (bind m (fun x => k)) (at level 20, m at level 100, k at level 200,
  only parsing) : reader_scope.
Open Scope reader_scope.

Definition fail {A} : reader A := fun _ => None.

(** [read(pch, nSize)] on a stream whose exception mask is set. *)
Definition read (nSize : nat) : reader bytes := fun s =>
  if (length s <? nSize)%nat then None else Some (take nSize s, drop nSize s).

(** ** Compact sizes *)

Definition GetSizeOfCompactSize (nSize : Z) : Z :=
  if nSize <? 253 then 1
  else if nSize <=? 65535 then 1 + 2
  else if nSize <=? 4294967295 then 1 + 4
  else 1 + 8.

Definition WriteCompactSize (nSize : Z) : bytes :=
  if nSize <? 253 then [u8 nSize]
  else if nSize <=? 65535 then 253 :: le_bytes 2 (u16 nSize)
  else if nSize <=? 4294967295 then 254 :: le_bytes 4 (u32 nSize)
  else 255 :: le_bytes 8 nSize.

Definition ReadCompactSize (fCanonicalCheck : bool) : reader Z :=
  ch ← read 1;
  let chSize := at_ 0 ch 0 in
  nSizeRet ←
    (if chSize <? 253 then ret chSize
     else if chSize =? 253 then
       x ← read 2;
       let xSize := le_value x in
       if fCanonicalCheck && (xSize <? 253) then fail else ret xSize
     else if chSize =? 254 then
       x ← read 4;
       let xSize := le_value x in
       if fCanonicalCheck && (xSize <? 65536) then fail else ret xSize
     else
       x ← read 8;
       let xSize := le_value x in
       if fCanonicalCheck && (xSize <=? 4294967295) then fail else ret xSize);
  if MAX_SIZE <? nSizeRet then fail else ret nSizeRet.

(** ** Variable-length integers, for [I] = [uint64_t] *)

(** Turns of the [while (true)] loop; a 64-bit value takes at most ten. *)
Fixpoint GetSizeOfVarInt_loop (fuel : nat) (n nRet : Z) : Z :=
  let nRet := nRet + 1 in
  match fuel with
  | O => nRet
  | S f => if n <=? 127 then nRet else GetSizeOfVarInt_loop f (Z.shiftr n 7 - 1) nRet
  end.
Definition GetSizeOfVarInt (n : Z) : Z := GetSizeOfVarInt_loop 10 n 0.

(** [tmp], most significant group first: the order in which the second loop
    writes it; [cont] is [len ? 0x80 : 0x00]. *)
Fixpoint WriteVarInt_loop (fuel : nat) (n cont : Z) (written : bytes) : bytes :=
  match fuel with
  | O => written
  | S f =>
    let tmp := Z.lor (Z.land n 127) cont :: written in
    if n <=? 127 then tmp else WriteVarInt_loop f (Z.shiftr n 7 - 1) 128 tmp
  end.
Definition WriteVarInt (n : Z) : bytes := WriteVarInt_loop 10 n 0 [].

(** The loop reads one byte a turn: it ends, or throws, within the data. *)
Fixpoint ReadVarInt_loop (fuel : nat) (n : Z) : reader Z :=
  match fuel with
  | O => fail
  | S f =>
    ch ← read 1;
    let chData := at_ 0 ch 0 in
    let n := Z.lor (u64 (Z.shiftl n 7)) (Z.land chData 127) in
    if negb (Z.land chData 128 =? 0) then ReadVarInt_loop f (u64 (n + 1)) else ret n
  end.
Definition ReadVarInt : reader Z := fun s => ReadVarInt_loop (S (length s)) 0 s.

(** ** Codecs *)

(** [wf] says which values the source can hold in the type. *)
Record codec (A : Type) := {
  Serialize : A -> bytes;
  Unserialize : reader A;
  GetSerializeSize : A -> Z;
  wf : A -> Prop
}.
Arguments Serialize {A}.
Arguments Unserialize {A}.
Arguments GetSerializeSize {A}.
Arguments wf {A}.

(** [WRITEDATA] and [READDATA] of an integer of [w] bytes, unsigned and signed. *)
Definition c_uint (w : nat) : codec Z := {|
  Serialize := le_bytes w;
  Unserialize := b ← read w; ret (le_value b);
  GetSerializeSize := fun _ => Z.of_nat w;
  wf := fun z => 0 <= z < 2 ^ (8 * Z.of_nat w) |}.

Definition c_sint (w : nat) : codec Z := {|
  Serialize := le_bytes w;
  Unserialize := b ← read w;
    ret (let z := le_value b in
          if z <? 2 ^ (8 * Z.of_nat w - 1) then z else z - 2 ^ (8 * Z.of_nat w));
  GetSerializeSize := fun _ => Z.of_nat w;
  wf := fun z => - 2 ^ (8 * Z.of_nat w - 1) <= z < 2 ^ (8 * Z.of_nat w - 1) |}.

Definition c_bool : codec bool := {|
  Serialize := fun a : bool => [if a then 1 else 0];
  Unserialize := f ← read 1; ret (negb (at_ 0 f 0 =? 0));
  GetSerializeSize := fun _ => 1;
  wf := fun _ => True |}.

(** [FLATDATA] of an array of [n] bytes. *)
Definition c_flat (n : nat) : codec bytes := {|
  Serialize := fun l => l;
  Unserialize := read n;
  GetSerializeSize := fun _ => Z.of_nat n;
  wf := fun l => length l = n /\ bytes_ok l |}.

(** Strings, and vectors of bytes written in one piece. *)
Definition c_string : codec bytes := {|
  Serialize := fun str => WriteCompactSize (len str) ++ str;
  Unserialize := nSize ← ReadCompactSize true; read (Z.to_nat nSize);
  GetSerializeSize := fun str => u32 (GetSizeOfCompactSize (len str) + len str);
  wf := fun str => len str <= MAX_SIZE /\ bytes_ok str |}.

(** [Unserialize_impl] for a fundamental element type of one byte: blocks of at
    most five million; [v] is what was read so far. *)
Definition BLOCK : Z := 1 + 4999999.
Fixpoint read_blocks (fuel : nat) (nSize : Z) (v : bytes) : reader bytes :=
  match fuel with
  | O => fail
  | S f =>
    if len v <? nSize then
      let blk := Z.min (nSize - len v) BLOCK in
      b ← read (Z.to_nat blk);
      read_blocks f nSize (v ++ b)
    else ret v
  end.

Definition c_bytes : codec bytes := {|
  Serialize := fun v => WriteCompactSize (len v) ++ v;
  Unserialize := nSize ← ReadCompactSize true; read_blocks 8 nSize [];
  GetSerializeSize := fun v => u32 (GetSizeOfCompactSize (len v) + len v);
  wf := fun v => len v <= MAX_SIZE /\ bytes_ok v |}.

(** [Unserialize_impl] for other element types: the batches only decide how far
    the vector is resized ahead of the element that is read. *)
Fixpoint read_elements {A} (get : reader A) (n : nat) : reader (list A) :=
  match n with
  | O => ret []
  | S n' => x ← get; l ← read_elements get n'; ret (x :: l)
  end.

Definition c_vector {A} (c : codec A) : codec (list A) := {|
  Serialize := fun v => WriteCompactSize (len v) ++ concat (map (Serialize c) v);
  Unserialize := nSize ← ReadCompactSize true; read_elements (Unserialize c) (Z.to_nat nSize);
  GetSerializeSize := fun v =>
    fold_left (fun nSize x => u32 (nSize + GetSerializeSize c x)) v (GetSizeOfCompactSize (len v));
  wf := fun v => len v <= MAX_SIZE /\ Forall (wf c) v |}.

Definition c_pair {A B} (a : codec A) (b : codec B) : codec (A * B) := {|
  Serialize := fun item : A * B => Serialize a item.1 ++ Serialize b item.2;
  Unserialize := x ← Unserialize a; y ← Unserialize b; ret (x, y);
  GetSerializeSize := fun item => u32 (GetSerializeSize a item.1 + GetSerializeSize b item.2);
  wf := fun item : A * B => wf a item.1 /\ wf b item.2 |}.

(** [boost::tuple] of three and four; a [CScript] is its vector of bytes. *)
Definition c_tuple3 {A B C} (a : codec A) (b : codec B) (c : codec C) : codec (A * B * C) :=
  c_pair (c_pair a b) c.
Definition c_tuple4 {A B C D} (a : codec A) (b : codec B) (c : codec C) (d : codec D) : codec (A * B * C * D) :=
  c_pair (c_pair (c_pair a b) c) d.
Definition c_script : codec bytes := c_bytes.

(** ** [IMPLEMENT_SERIALIZE]

    The statements of the macro run in order; a later one can depend on what an
    earlier one has read.  [READWRITE] of a field under a condition leaves the
    default of a fresh object when the condition fails. *)

Definition c_dep {A B} (a : codec A) (b : A -> codec B) : codec (A * B) := {|
  Serialize := fun p : A * B => Serialize a p.1 ++ Serialize (b p.1) p.2;
  Unserialize := x ← Unserialize a; y ← Unserialize (b x); ret (x, y);
  GetSerializeSize := fun p : A * B => u32 (GetSerializeSize a p.1 + GetSerializeSize (b p.1) p.2);
  wf := fun p : A * B => wf a p.1 /\ wf (b p.1) p.2 |}.

Definition c_when {A} (cond : bool) (c : codec A) (fresh : A) : codec A := {|
  Serialize := fun x => if cond then Serialize c x else [];
  Unserialize := if cond then Unserialize c else ret fresh;
  GetSerializeSize := fun x => if cond then GetSerializeSize c x else 0;
  wf := fun x => if cond then wf c x else x = fresh |}.

(** A record through the tuple of its fields. *)
Definition c_record {A B} (c : codec A) (fields : B -> A) (build : A -> B) : codec B := {|
  Serialize := fun x => Serialize c (fields x);
  Unserialize := x ← Unserialize c; ret (build x);
  GetSerializeSize := fun x => GetSerializeSize c (fields x);
  wf := fun x => wf c (fields x) |}.

Notation "a ⊗ b" := (c_pair a b) (at level 40, left associativity).

(** ** Ordered maps and sets

    A [std::map] is the list of its items in key order; [insert] keeps the item
    already there. *)
Section containers.
Context {K T : Type} (klt : K -> K -> bool).

Fixpoint map_insert (k : K) (v : T) (m : list (K * T)) : list (K * T) :=
  match m with
  | [] => [(k, v)]
  | (k', v') :: m' =>
    if klt k k' then (k, v) :: m
    else if klt k' k then (k', v') :: map_insert k v m'
    else m
  end.

Fixpoint read_items (get : reader (K * T)) (n : nat) (m : list (K * T)) : reader (list (K * T)) :=
  match n with
  | O => ret m
  | S n' => item ← get; read_items get n' (map_insert item.1 item.2 m)
  end.

Definition c_map (ck : codec K) (ct : codec T) : codec (list (K * T)) := {|
  Serialize := fun m => WriteCompactSize (len m) ++ concat (map (Serialize (ck ⊗ ct)) m);
  Unserialize := nSize ← ReadCompactSize true;
    read_items (Unserialize (ck ⊗ ct)) (Z.to_nat nSize) [];
  GetSerializeSize := fun m =>
    fold_left (fun nSize x => u32 (nSize + GetSerializeSize (ck ⊗ ct) x)) m (GetSizeOfCompactSize (len m));
  wf := fun m => len m <= MAX_SIZE /\ StronglySorted (fun x y => klt x.1 y.1 = true) m /\
    Forall (wf (ck ⊗ ct)) m |}.

End containers.

(** ** [CDataStream]

    A buffer and the position of the next read; a read that reaches the end
    exactly empties the buffer.  [None]: [setstate] threw. *)

Record CDataStream := { vch : bytes; nReadPos : Z }.

Definition unread (ss : CDataStream) : bytes := drop (Z.to_nat (nReadPos ss)) (vch ss).
Definition size (ss : CDataStream) : Z := len (vch ss) - nReadPos ss.
Definition eof (ss : CDataStream) : bool := size ss =? 0.
Definition clear (ss : CDataStream) : CDataStream := {| vch := []; nReadPos := 0 |}.

Definition stream_read (nSize : Z) (ss : CDataStream) : option (bytes * CDataStream) :=
  let nReadPosNext := u32 (nReadPos ss + nSize) in
  let pch := take (Z.to_nat nSize) (drop (Z.to_nat (nReadPos ss)) (vch ss)) in
  if len (vch ss) <=? nReadPosNext then
    if len (vch ss) <? nReadPosNext then None
    else Some (pch, {| vch := []; nReadPos := 0 |})
  else Some (pch, {| vch := vch ss; nReadPos := nReadPosNext |}).

Definition stream_ignore (nSize : Z) (ss : CDataStream) : option CDataStream :=
  let nReadPosNext := u32 (nReadPos ss + nSize) in
  if len (vch ss) <=? nReadPosNext then
    if len (vch ss) <? nReadPosNext then None
    else Some {| vch := []; nReadPos := 0 |}
  else Some {| vch := vch ss; nReadPos := nReadPosNext |}.

Definition stream_write (pch : bytes) (ss : CDataStream) : CDataStream :=
  {| vch := vch ss ++ pch; nReadPos := nReadPos ss |}.

(** [insert(it, first, last)] with [it] at index [it] of the buffer. *)
Definition stream_insert (it : Z) (data : bytes) (ss : CDataStream) : CDataStream :=
  if (it =? nReadPos ss) && (len data <=? nReadPos ss) then
    let pos := nReadPos ss - len data in
    {| vch := take (Z.to_nat pos) (vch ss) ++ data ++ drop (Z.to_nat (nReadPos ss)) (vch ss);
       nReadPos := pos |}
  else
    {| vch := take (Z.to_nat it) (vch ss) ++ data ++ drop (Z.to_nat it) (vch ss);
       nReadPos := nReadPos ss |}.

Definition stream_erase1 (it : Z) (ss : CDataStream) : CDataStream :=
  if it =? nReadPos ss then
    let pos := u32 (nReadPos ss + 1) in
    if len (vch ss) <=? pos then {| vch := []; nReadPos := 0 |}
    else {| vch := vch ss; nReadPos := pos |}
  else {| vch := take (Z.to_nat it) (vch ss) ++ drop (Z.to_nat (it + 1)) (vch ss); nReadPos := nReadPos ss |}.

Definition stream_erase (first last : Z) (ss : CDataStream) : CDataStream :=
  if first =? nReadPos ss then
    if last =? len (vch ss) then {| vch := []; nReadPos := 0 |}
    else {| vch := vch ss; nReadPos := last |}
  else {| vch := take (Z.to_nat first) (vch ss) ++ drop (Z.to_nat last) (vch ss); nReadPos := nReadPos ss |}.

Definition Compact (ss : CDataStream) : CDataStream :=
  {| vch := drop (Z.to_nat (nReadPos ss)) (vch ss); nReadPos := 0 |}.

(** [None]: the method returned false. *)
Definition Rewind (n : Z) (ss : CDataStream) : option CDataStream :=
  if nReadPos ss <? n then None else Some {| vch := vch ss; nReadPos := nReadPos ss - n |}.

(** * Laws *)

(** Round trip and size, on the values the type can hold. *)
Class Laws {A} (c : codec A) : Prop := {
  unserialize_serialize x s : wf c x -> Unserialize c (Serialize c x ++ s) = Some (x, s);
  serialize_size x : wf c x -> len (Serialize c x) < 2 ^ 32 -> GetSerializeSize c x = len (Serialize c x);
  serialize_bytes x : wf c x -> bytes_ok (Serialize c x)
}.

(** A value has one encoding: whatever is accepted is what would be written. *)
Class Canonical {A} (c : codec A) : Prop :=
  canonical s x s' : bytes_ok s -> Unserialize c s = Some (x, s') -> s = Serialize c x ++ s' /\ wf c x.

(** ** Reading *)

Lemma read_spec n s b s' : read n s = Some (b, s') <-> s = b ++ s' /\ length b = n.
Proof.
  unfold read. destruct (Nat.ltb_spec (length s) n).
  - split; [done|]. intros [-> <-]. rewrite length_app in H. lia.
  - split.
    + intros [= <- <-]. rewrite take_drop, length_take. split; [done|lia].
    + intros [-> <-]. by rewrite take_app_length, drop_app_length.
Qed.

Lemma read_app n b s : length b = n -> read n (b ++ s) = Some (b, s).
Proof. intros Hb. by apply read_spec. Qed.

Lemma bind_Some {A B} (m : reader A) (f : A -> reader B) s y s' :
  (x ← m; f x) s = Some (y, s') <-> exists x s1, m s = Some (x, s1) /\ f x s1 = Some (y, s').
Proof.
  unfold bind. destruct (m s) as [[x s1]|]; [|split; [done|by intros (?&?&?&?)]].
  split; [eauto|]. by intros (? & ? & [= <- <-] & E).
Qed.

Lemma bind_ret {A B} (m : reader A) (f : A -> reader B) s x s1 :
  m s = Some (x, s1) -> (x ← m; f x) s = f x s1.
Proof. unfold bind. by intros ->. Qed.

(** [get_step] runs the next read of the goal on data of known length;
    [got H] takes apart a successful sequence of reads. *)
Ltac get_step := erewrite bind_ret by (apply read_app; by rewrite ?le_bytes_length).
Ltac got H :=
  repeat match type of H with
  | bind _ _ _ = Some _ =>
    let x := fresh "x" in let s := fresh "s" in let E := fresh "E" in
    apply bind_Some in H as (x & s & E & H)
  | ret _ _ = Some _ => injection H as <- <-
  | (let _ := _ in _) _ = Some _ => cbv zeta in H
  | (if ?b then fail else _) _ = Some _ =>
    let G := fresh "G" in destruct b eqn:G; [discriminate H|bool_prop]
  end.

Lemma read_one s b s' : read 1 s = Some (b, s') -> exists x, b = [x] /\ s = x :: s'.
Proof. intros [-> Hb]%read_spec. destruct b as [|x [|]]; [done| |done]. by exists x. Qed.

Lemma length_pow w l : bytes_ok l -> length l = w -> 0 <= le_value l < 2 ^ (8 * Z.of_nat w).
Proof. intros Hl <-. by apply le_value_range. Qed.

(** ** Integers *)

#[export] Instance c_uint_laws w : Laws (c_uint w).
Proof.
  split; cbn; intros x; [intros s Hx|intros Hx _|intros _; apply le_bytes_ok].
  - get_step. unfold ret. by rewrite le_value_bytes_id.
  - unfold len. by rewrite le_bytes_length.
Qed.

#[export] Instance c_uint_canonical w : Canonical (c_uint w).
Proof.
  intros s x s' Hs H. cbn in *. got H. apply read_spec in E as [-> Hl].
  apply bytes_ok_app in Hs as [Hb _]. rewrite <-Hl at 1. rewrite le_bytes_value by done.
  split; [done|]. by apply length_pow.
Qed.

Lemma pow_half w : (0 < w)%nat -> 2 ^ (8 * Z.of_nat w) = 2 * 2 ^ (8 * Z.of_nat w - 1).
Proof. intros Hw. rewrite <-Z.pow_succ_r by lia. f_equal. lia. Qed.

#[export] Instance c_sint_laws w : Laws (c_sint (S w)).
Proof.
  split; intros x; [intros s Hx|intros Hx _|intros _; apply le_bytes_ok].
  - cbn -[Z.mul Z.of_nat Z.pow le_bytes] in *. get_step. unfold ret. do 2 f_equal. cbv zeta.
    rewrite le_value_bytes, pow_half by lia. pose proof (pow_half (S w) ltac:(lia)).
    set (h := 2 ^ (8 * Z.of_nat (S w) - 1)) in *. clearbody h.
    destruct (Z.lt_ge_cases x 0).
    + rewrite <-(Z.mod_unique x (2 * h) (-1) (x + 2 * h)) by lia.
      destruct (Z.ltb_spec (x + 2 * h) h); lia.
    + rewrite Z.mod_small by lia. destruct (Z.ltb_spec x h); lia.
  - cbn -[Z.of_nat le_bytes]. unfold len. by rewrite le_bytes_length.
Qed.

#[export] Instance c_sint_canonical w : Canonical (c_sint (S w)).
Proof.
  intros s x s' Hs H. cbn -[Z.mul Z.of_nat Z.pow le_bytes read] in *. got H.
  apply read_spec in E as [-> Hl]. apply bytes_ok_app in Hs as [Hb _]. cbv zeta.
  pose proof (length_pow (S w) x0 Hb Hl) as Hr. rewrite pow_half in * by lia.
  set (h := 2 ^ (8 * Z.of_nat (S w) - 1)) in *.
  assert (le_bytes (S w) (if le_value x0 <? h then le_value x0 else le_value x0 - 2 * h) = x0) as ->.
  { apply le_value_inj; [apply le_bytes_ok|done|by rewrite le_bytes_length|].
    rewrite le_value_bytes, pow_half by lia. fold h.
    destruct (Z.ltb_spec (le_value x0) h); [by apply Z.mod_small|].
    symmetry. apply (Z.mod_unique _ _ (-1)); lia. }
  split; [done|]. destruct (Z.ltb_spec (le_value x0) h); lia.
Qed.

#[export] Instance c_bool_laws : Laws c_bool.
Proof.
  split; cbn; [|done|].
  - intros [] s _; done.
  - intros [] _; repeat constructor; unfold byte_ok; lia.
Qed.

#[export] Instance c_flat_laws n : Laws (c_flat n).
Proof.
  split; cbn; intros x.
  - intros s [Hl _]. by apply read_app.
  - intros [Hl _] _. unfold len. by rewrite Hl.
  - by intros [_ H].
Qed.

#[export] Instance c_flat_canonical n : Canonical (c_flat n).
Proof. intros s x s' Hs [-> Hl]%read_spec. apply bytes_ok_app in Hs as [Hb _]. done. Qed.

(** ** Compact sizes *)

Lemma WriteCompactSize_ok n : bytes_ok (WriteCompactSize n).
Proof.
  unfold WriteCompactSize. repeat split_guard; apply Forall_cons; split;
    solve [apply u8_range | apply le_bytes_ok | apply Forall_nil_2 | unfold byte_ok; lia].
Qed.

Lemma WriteCompactSize_size n : len (WriteCompactSize n) = GetSizeOfCompactSize n.
Proof.
  unfold WriteCompactSize, GetSizeOfCompactSize. repeat split_guard; unfold len;
    cbn [length]; rewrite ?le_bytes_length; lia.
Qed.

Lemma read_1 b s : read 1 (b :: s) = Some ([b], s).
Proof. done. Qed.

Lemma at_one {A} (d b : A) : at_ d [b] 0 = b.
Proof. done. Qed.

Lemma bind_assoc {A B C} (m : reader A) (f : A -> reader B) (g : B -> reader C) s :
  (y ← (x ← m; f x); g y) s = (x ← m; (y ← f x; g y)) s.
Proof. unfold bind. by destruct (m s) as [[]|]. Qed.

Lemma ReadCompactSize_write n s :
  0 <= n <= MAX_SIZE -> ReadCompactSize true (WriteCompactSize n ++ s) = Some (n, s).
Proof.
  intros Hn. assert (MAX_SIZE = 33554432) as HM by done.
  unfold ReadCompactSize, WriteCompactSize. generalize dependent MAX_SIZE. intros M Hn HM.
  assert (forall s, (if M <? n then fail else ret n) s = Some (n, s)) as Hend
    by (intros s'; destruct (Z.ltb_spec M n); [lia|done]).
  destruct (Z.ltb_spec n 253); [|destruct (Z.leb_spec n 65535); [|destruct (Z.leb_spec n 4294967295)]].
  - rewrite u8_id by lia. erewrite bind_ret by (by apply read_1). rewrite at_one. cbv zeta.
    destruct (Z.ltb_spec n 253); [|lia]. by erewrite bind_ret.
  - rewrite u16_id by lia. cbn [app]. erewrite bind_ret by (by apply read_1). rewrite at_one. cbv zeta.
    cbn [Z.ltb Z.eqb Z.compare Pos.compare Pos.compare_cont Pos.eqb]. rewrite bind_assoc. get_step.
    rewrite le_value_bytes_id by (simpl; lia).
    destruct (Z.ltb_spec n 253); [lia|]. by erewrite bind_ret.
  - rewrite u32_id by lia. cbn [app]. erewrite bind_ret by (by apply read_1). rewrite at_one. cbv zeta.
    cbn [Z.ltb Z.eqb Z.compare Pos.compare Pos.compare_cont Pos.eqb]. rewrite bind_assoc. get_step.
    rewrite le_value_bytes_id by (simpl; lia).
    destruct (Z.ltb_spec n 65536); [lia|]. by erewrite bind_ret.
  - lia.
Qed.

(** What a canonical reader accepts, it would write. *)
Lemma ReadCompactSize_canonical n s s' :
  bytes_ok s -> ReadCompactSize true s = Some (n, s') ->
  s = WriteCompactSize n ++ s' /\ 0 <= n <= MAX_SIZE.
Proof.
  intros Hs H. unfold ReadCompactSize in H. got H. apply read_one in E as (b & -> & ->).
  apply Forall_cons in Hs as [Hb Hs]. unfold byte_ok in Hb. rewrite at_one in *.
  unfold WriteCompactSize. destruct (Z.ltb_spec b 253) as [H1|H1].
  - got E0. rewrite u8_id by lia. destruct (Z.ltb_spec b 253); [|lia]. split; [done|lia].
  - destruct (Z.eqb_spec b 253) as [->|]; [|destruct (Z.eqb_spec b 254) as [->|]]; got E0;
      cbn [andb] in *; bool_prop; match goal with E : read _ _ = _ |- _ => apply read_spec in E as [-> Hl] end;
      apply bytes_ok_app in Hs as [Hx _]; pose proof (length_pow _ _ Hx Hl) as Hr; cbn in Hr;
      repeat match goal with |- context [if ?c then _ else _] => destruct c eqn:?; bool_prop; try lia end;
      autorewrite with words_id; cbn [app]; rewrite <-Hl, le_bytes_value by done; (split; [try done|lia]).
    do 2 f_equal. lia.
Qed.

(** ** Strings and vectors *)

#[export] Hint Unfold c_tuple3 c_tuple4 c_script : typeclass_instances.

Ltac size_read := erewrite bind_ret by (apply ReadCompactSize_write; split; [apply len_pos|done]).
Ltac got_size E Hs :=
  apply ReadCompactSize_canonical in E as [-> ?]; [|exact Hs]; apply bytes_ok_app in Hs as [_ Hs].

Lemma to_nat_len {A} (l : list A) : Z.to_nat (len l) = length l.
Proof. unfold len. lia. Qed.

Lemma app_size_bytes n l : bytes_ok l -> bytes_ok (WriteCompactSize n ++ l).
Proof. intros Hl. apply bytes_ok_app. split; [apply WriteCompactSize_ok|done]. Qed.

Lemma GetSizeOfCompactSize_range n : 1 <= GetSizeOfCompactSize n <= 9.
Proof. unfold GetSizeOfCompactSize. repeat split_guard; lia. Qed.

Lemma plain_size (v : bytes) :
  len (WriteCompactSize (len v) ++ v) < 2 ^ 32 ->
  u32 (GetSizeOfCompactSize (len v) + len v) = len (WriteCompactSize (len v) ++ v).
Proof.
  rewrite len_app, WriteCompactSize_size. intros Hl. apply u32_id.
  pose proof (GetSizeOfCompactSize_range (len v)). pose proof (len_pos v). lia.
Qed.

#[export] Instance c_string_laws : Laws c_string.
Proof.
  split; intros x; [intros s [Hl Hx]|intros _; apply plain_size|intros [_ Hx]; by apply app_size_bytes].
  cbn [c_string Serialize Unserialize]. rewrite <-app_assoc. size_read.
  apply read_app. by rewrite to_nat_len.
Qed.

#[export] Instance c_string_canonical : Canonical c_string.
Proof.
  intros s x s' Hs H. cbn [c_string Serialize Unserialize wf] in *. got H. got_size E Hs.
  apply read_spec in H as [-> Hl]. apply bytes_ok_app in Hs as [Hx _].
  assert (len x = x0) as <- by (unfold len; lia). rewrite <-app_assoc. repeat split; [lia|done].
Qed.

(** Reading in blocks is reading in one piece. *)
Lemma read_blocks_spec fuel nSize v s :
  len v <= nSize -> nSize - len v <= BLOCK * (Z.of_nat fuel - 1) ->
  read_blocks fuel nSize v s = (b ← read (Z.to_nat (nSize - len v)); ret (v ++ b)) s.
Proof.
  revert v s. induction fuel as [|f IH]; intros v s Hv Hf; [unfold BLOCK in Hf; lia|]. cbn [read_blocks].
  destruct (Z.ltb_spec (len v) nSize) as [Hlt|Hge].
  - cbv zeta. set (blk := Z.min (nSize - len v) BLOCK). unfold bind at 1.
    assert (0 < blk) by (unfold blk, BLOCK; lia).
    destruct (read (Z.to_nat blk) s) as [[b s1]|] eqn:E.
    + apply read_spec in E as [-> Hb].
      rewrite IH by (rewrite len_app; unfold len at 2; rewrite Hb; unfold blk, BLOCK in *; lia).
      rewrite len_app. unfold len at 2. rewrite Hb.
      replace (Z.to_nat (nSize - len v)) with (Z.to_nat blk + Z.to_nat (nSize - (len v + Z.of_nat (Z.to_nat blk))))%nat
        by (unfold blk, BLOCK in *; lia).
      generalize (Z.to_nat (nSize - (len v + Z.of_nat (Z.to_nat blk)))). intros n.
      unfold bind, read. rewrite length_app, Hb.
      destruct (Nat.ltb_spec (length s1) n), (Nat.ltb_spec (Z.to_nat blk + length s1) (Z.to_nat blk + n)); try lia; [done|].
      unfold ret. rewrite take_app_add', drop_app_add' by done. by rewrite app_assoc.
    + unfold bind. unfold read in *. destruct (Nat.ltb_spec (length s) (Z.to_nat blk)); [|done].
      destruct (Nat.ltb_spec (length s) (Z.to_nat (nSize - len v))); [done|unfold blk in *; lia].
  - replace (nSize - len v) with 0 by lia. change (Z.to_nat 0) with O.
    rewrite (bind_ret _ _ _ [] s) by done. by rewrite app_nil_r.
Qed.

Lemma read_blocks_all nSize s :
  0 <= nSize <= MAX_SIZE -> read_blocks 8 nSize [] s = read (Z.to_nat nSize) s.
Proof.
  intros Hn. rewrite read_blocks_spec by (change (len (@nil Z)) with 0; unfold MAX_SIZE, BLOCK in *; lia).
  change (len []) with 0. rewrite Z.sub_0_r. unfold bind. by destruct (read _ s) as [[]|].
Qed.

#[export] Instance c_bytes_laws : Laws c_bytes.
Proof.
  split; intros x; [intros s [Hl Hx]|intros _; apply plain_size|intros [_ Hx]; by apply app_size_bytes].
  cbn [c_bytes Serialize Unserialize]. rewrite <-app_assoc. size_read.
  rewrite read_blocks_all by (pose proof (len_pos x); lia). apply read_app. by rewrite to_nat_len.
Qed.

#[export] Instance c_bytes_canonical : Canonical c_bytes.
Proof.
  intros s x s' Hs H. cbn [c_bytes Serialize Unserialize wf] in *. got H. got_size E Hs.
  rewrite read_blocks_all in H by done.
  apply read_spec in H as [-> Hl]. apply bytes_ok_app in Hs as [Hx _].
  assert (len x = x0) as <- by (unfold len; lia). rewrite <-app_assoc. repeat split; [lia|done].
Qed.

Lemma read_elements_write {A} (c : codec A) `{Laws A c} (v : list A) s :
  Forall (wf c) v -> read_elements (Unserialize c) (length v) (concat (map (Serialize c) v) ++ s) = Some (v, s).
Proof.
  intros Hv. induction Hv as [|x v Hx Hv IH]; [done|]. cbn [map concat length read_elements].
  rewrite <-app_assoc. erewrite bind_ret by (by apply unserialize_serialize).
  by erewrite bind_ret by exact IH.
Qed.

Lemma read_elements_canonical {A} (c : codec A) `{Canonical A c} n v s s' :
  bytes_ok s -> read_elements (Unserialize c) n s = Some (v, s') ->
  s = concat (map (Serialize c) v) ++ s' /\ Forall (wf c) v /\ length v = n.
Proof.
  revert v s. induction n as [|n IH]; intros v s Hs E; [by injection E as <- <-|].
  cbn [read_elements] in E. got E. apply canonical in E0 as [-> Hx]; [|done].
  apply bytes_ok_app in Hs as [_ Hs]. apply IH in E1 as (-> & Hv & <-); [|done].
  cbn. rewrite app_assoc. auto.
Qed.

Lemma elements_size {A} (c : codec A) `{Laws A c} (v : list A) n :
  Forall (wf c) v -> 0 <= n -> n + len (concat (map (Serialize c) v)) < 2 ^ 32 ->
  fold_left (fun nSize x => u32 (nSize + GetSerializeSize c x)) v n = n + len (concat (map (Serialize c) v)).
Proof.
  intros Hv. revert n. induction Hv as [|x v Hx Hv IH]; intros n Hn Hl; [cbn; unfold len; simpl; lia|].
  cbn [map concat fold_left] in *. rewrite len_app in *.
  pose proof (len_pos (Serialize c x)). pose proof (len_pos (concat (map (Serialize c) v))).
  rewrite serialize_size by (done || lia). rewrite u32_id by lia. rewrite IH by lia. lia.
Qed.

Lemma elements_bytes {A} (c : codec A) `{Laws A c} (v : list A) :
  Forall (wf c) v -> bytes_ok (concat (map (Serialize c) v)).
Proof.
  induction 1 as [|x v Hx Hv IH]; [constructor|]. cbn. apply bytes_ok_app. split; [|done].
  by apply serialize_bytes.
Qed.

#[export] Instance c_vector_laws {A} (c : codec A) `{Laws A c} : Laws (c_vector c).
Proof.
  split; intros v; cbn [c_vector Serialize Unserialize GetSerializeSize wf].
  - intros s [Hl Hv]. rewrite <-app_assoc. size_read. rewrite to_nat_len. by apply read_elements_write.
  - intros [Hl Hv]. rewrite len_app, WriteCompactSize_size. pose proof (GetSizeOfCompactSize_range (len v)).
    intros. by rewrite (elements_size c v) by (done || lia).
  - intros [_ Hv]. by apply app_size_bytes, elements_bytes.
Qed.

#[export] Instance c_vector_canonical {A} (c : codec A) `{Canonical A c} : Canonical (c_vector c).
Proof.
  intros s v s' Hs E. cbn [c_vector Serialize Unserialize wf] in *. got E. got_size E0 Hs.
  apply read_elements_canonical in E as (-> & Hv & Hl); [|done|done].
  assert (len v = x) as <- by (unfold len; lia). rewrite <-app_assoc. repeat split; [lia|done].
Qed.

(** ** Structures *)

#[export] Instance c_dep_laws {A B} (a : codec A) (b : A -> codec B) `{Laws A a} `{forall x, Laws (b x)} :
  Laws (c_dep a b).
Proof.
  split; intros [x y]; cbn [c_dep Serialize Unserialize GetSerializeSize wf fst snd].
  - intros s [Hx Hy]. rewrite <-app_assoc. erewrite bind_ret by (by apply unserialize_serialize).
    by erewrite bind_ret by (by apply unserialize_serialize).
  - intros [Hx Hy]. rewrite len_app. pose proof (len_pos (Serialize a x)). pose proof (len_pos (Serialize (b x) y)).
    intros Hl. rewrite !serialize_size by (done || lia). by apply u32_id; lia.
  - intros [Hx Hy]. apply bytes_ok_app. split; by apply serialize_bytes.
Qed.

#[export] Instance c_dep_canonical {A B} (a : codec A) (b : A -> codec B)
  `{Canonical A a} `{forall x, Canonical (b x)} : Canonical (c_dep a b).
Proof.
  intros s [x y] s' Hs E. cbn [c_dep Serialize Unserialize wf fst snd] in *. got E.
  apply canonical in E0 as [-> Hx]; [|done]. apply bytes_ok_app in Hs as [_ Hs].
  apply canonical in E1 as [-> Hy]; [|done]. subst. rewrite app_assoc. auto.
Qed.

#[export] Instance c_pair_laws {A B} (a : codec A) (b : codec B) `{Laws A a} `{Laws B b} : Laws (a ⊗ b).
Proof. apply (c_dep_laws a (fun _ => b)). Qed.

#[export] Instance c_pair_canonical {A B} (a : codec A) (b : codec B) `{Canonical A a} `{Canonical B b} :
  Canonical (a ⊗ b).
Proof. exact (c_dep_canonical a (fun _ => b)). Qed.

#[export] Instance c_when_laws {A} cond (c : codec A) fresh `{Laws A c} : Laws (c_when cond c fresh).
Proof.
  destruct cond; split; cbn; try done.
  - apply unserialize_serialize.
  - apply serialize_size.
  - apply serialize_bytes.
  - by intros x s ->.
  - intros. constructor.
Qed.

#[export] Instance c_when_canonical {A} cond (c : codec A) fresh `{Canonical A c} :
  Canonical (c_when cond c fresh).
Proof. destruct cond; intros s x s' Hs E; cbn in *; [by apply canonical|by injection E as <- <-]. Qed.

(** A record is its tuple of fields, both ways. *)
Class Fields {A B} (fields : B -> A) (build : A -> B) : Prop := {
  build_fields x : build (fields x) = x;
  fields_build y : fields (build y) = y
}.

#[export] Instance c_record_laws {A B} (c : codec A) (fields : B -> A) build
  `{Laws A c} `{Fields A B fields build} : Laws (c_record c fields build).
Proof.
  split; intros x; cbn.
  - intros s Hx. erewrite bind_ret by (by apply unserialize_serialize). unfold ret. do 2 f_equal. apply build_fields.
  - by apply serialize_size.
  - by apply serialize_bytes.
Qed.

#[export] Instance c_record_canonical {A B} (c : codec A) (fields : B -> A) build
  `{Canonical A c} `{Fields A B fields build} : Canonical (c_record c fields build).
Proof.
  intros s x s' Hs E. cbn in *. got E. rewrite (fields_build (fields := fields)). by apply canonical.
Qed.

(** ** Maps *)

Section map_laws.
Context {K T : Type} (klt : K -> K -> bool) (ck : codec K) (ct : codec T).
Hypothesis klt_irrefl : forall k, klt k k = false.
Hypothesis klt_trans : forall a b c, klt a b = true -> klt b c = true -> klt a c = true.

Abbreviation sorted := (StronglySorted (fun x y : K * T => klt x.1 y.1 = true)).

Lemma map_insert_last k (v : T) m :
  Forall (fun x => klt x.1 k = true) m -> map_insert klt k v m = m ++ [(k, v)].
Proof.
  induction 1 as [|[k' v'] m Hk Hm IH]; [done|]. cbn in *. rewrite Hk.
  destruct (klt k k') eqn:E; [|by rewrite IH].
  exfalso. pose proof (klt_trans _ _ _ E Hk) as Hkk. by rewrite klt_irrefl in Hkk.
Qed.

Lemma map_insert_above k0 k (v : T) m :
  klt k0 k = true -> Forall (fun x => klt k0 x.1 = true) m ->
  Forall (fun x => klt k0 x.1 = true) (map_insert klt k v m).
Proof.
  intros Hk Hm. induction Hm as [|[k' v'] m Hk' Hm IH]; cbn [map_insert]; [by repeat constructor|].
  repeat case_match; repeat (constructor; try done).
Qed.

Lemma map_insert_sorted k v m : sorted m -> sorted (map_insert klt k v m).
Proof.
  induction 1 as [|[k' v'] m Hm IH Hk]; cbn [map_insert]; [by repeat constructor|]. cbn [fst] in Hk.
  destruct (klt k k') eqn:E1; [|destruct (klt k' k) eqn:E2].
  - constructor; [by constructor|]. constructor; [done|].
    eapply Forall_impl; [exact Hk|]. intros x Hx. cbn in *. eauto.
  - constructor; [done|]. by apply map_insert_above.
  - by constructor.
Qed.

Lemma read_items_write v m s `{Laws K ck} `{Laws T ct} :
  sorted (m ++ v) -> Forall (wf (ck ⊗ ct)) v ->
  read_items klt (Unserialize (ck ⊗ ct)) (length v) m (concat (map (Serialize (ck ⊗ ct)) v) ++ s) = Some (m ++ v, s).
Proof.
  revert m. induction v as [|[k t] v IH]; intros m Hs Hv; [by rewrite app_nil_r|].
  apply Forall_cons in Hv as [Hkt Hv]. cbn [map concat length read_items]. rewrite <-app_assoc.
  erewrite bind_ret by (by apply (unserialize_serialize (c := ck ⊗ ct))). cbn [fst snd].
  rewrite map_insert_last.
  - rewrite IH; [by rewrite <-app_assoc| by rewrite <-app_assoc|done].
  - clear IH. induction m as [|x m IH]; [constructor|]. apply StronglySorted_inv in Hs as [Hs Hx].
    constructor; [|by apply IH]. rewrite Forall_app in Hx. destruct Hx as [_ Hx].
    by apply Forall_cons in Hx as [Hx _].
Qed.

Lemma read_items_sorted n m m' s s' :
  sorted m -> read_items klt (Unserialize (ck ⊗ ct)) n m s = Some (m', s') -> sorted m'.
Proof.
  revert m s. induction n as [|n IH]; intros m s Hm E; cbn [read_items] in E; [by injection E as <- <-|].
  got E. eapply IH; [|exact E]. by apply map_insert_sorted.
Qed.

(** A map read from any bytes is strictly ordered by its keys, and an
    ordered map within the size limit is read back as it was written. *)
Theorem map_roundtrip `{Laws K ck} `{Laws T ct} :
  (forall m s, wf (c_map klt ck ct) m ->
     Unserialize (c_map klt ck ct) (Serialize (c_map klt ck ct) m ++ s) = Some (m, s)) /\
  (forall m s s', Unserialize (c_map klt ck ct) s = Some (m, s') -> sorted m).
Proof.
  split; cbn [c_map Serialize Unserialize wf].
  - intros m s (Hl & Hs & Hv). rewrite <-app_assoc. size_read. rewrite to_nat_len.
    by rewrite read_items_write.
  - intros m s s' E. got E. eapply read_items_sorted; [|exact E]. constructor.
Qed.

End map_laws.

(** ** Variable-length integers *)

Lemma WriteVarInt_loop_app fuel n cont l :
  WriteVarInt_loop fuel n cont l = WriteVarInt_loop fuel n cont [] ++ l.
Proof.
  revert n cont l. induction fuel as [|f IH]; intros n cont l; [done|]. cbn [WriteVarInt_loop].
  destruct (n <=? 127); [done|]. rewrite IH, (IH _ _ [_]). by rewrite <-app_assoc.
Qed.

(** One written byte, and the seven bits and the continuation flag in it. *)
Lemma group_bits r cont :
  0 <= r < 128 -> cont = 0 \/ cont = 128 ->
  Z.lor r cont = r + cont /\ Z.land (r + cont) 127 = r /\ Z.land (r + cont) 128 = cont.
Proof.
  intros Hr Hc. assert (forallb (fun r => forallb (fun cont =>
    (Z.lor r cont =? r + cont) && (Z.land (r + cont) 127 =? r) && (Z.land (r + cont) 128 =? cont))
    [0; 128]) (seqZ 0 128) = true) as H by (vm_compute; reflexivity).
  rewrite forallb_forall in H. specialize (H r). rewrite <-list_elem_of_In, elem_of_seqZ in H.
  specialize (H ltac:(lia)). cbn [forallb] in H. destruct Hc as [-> | ->]; bool_prop; auto.
Qed.

Lemma varint_step n :
  127 < n -> n < 2 ^ 64 ->
  Z.shiftr n 7 - 1 = n / 128 - 1 /\ 0 <= n / 128 - 1 /\
  Z.lor (u64 (Z.shiftl (n / 128) 7)) (n mod 128) = n.
Proof.
  intros Hn Hn'. rewrite Z.shiftr_div_pow2 by lia. change (2 ^ 7) with 128.
  pose proof (Z.div_mod n 128 ltac:(lia)). pose proof (Z.mod_pos_bound n 128 ltac:(lia)).
  split; [done|]. split; [lia|].
  rewrite u64_id by (rewrite Z.shiftl_mul_pow2 by lia; change (2 ^ 7) with 128; lia).
  rewrite Z.lor_comm, lor_shiftl by (change (2 ^ 7) with 128; lia). change (2 ^ 7) with 128. lia.
Qed.

Lemma land_127 n : Z.land n 127 = n mod 128.
Proof. change 127 with (Z.ones 7). by rewrite Z.land_ones. Qed.

(** Reading a written number adds one for every byte with the flag. *)
Lemma ReadVarInt_write fuel n cont s more :
  0 <= n < 2 ^ 64 -> n < 2 ^ (7 * Z.of_nat (S fuel)) -> (cont = 128 -> n < 2 ^ 63) -> cont = 0 \/ cont = 128 ->
  let w := WriteVarInt_loop (S fuel) n cont [] in
  ReadVarInt_loop (length w + more) 0 (w ++ s) =
  if cont =? 0 then Some (n, s) else ReadVarInt_loop more (n + 1) s.
Proof.
  assert (forall m acc, 0 <= acc -> forall n cont s, Z.lor (u64 (Z.shiftl acc 7)) (n mod 128) = n ->
    0 <= n < 2 ^ 64 -> (cont = 128 -> n < 2 ^ 63) -> cont = 0 \/ cont = 128 ->
    ReadVarInt_loop (S m) acc (n mod 128 + cont :: s) =
    if cont =? 0 then Some (n, s) else ReadVarInt_loop m (n + 1) s) as Hstep.
  { clear. intros m acc Hacc n cont s En Hn Hn' Hc. cbn [ReadVarInt_loop].
    erewrite bind_ret by (by apply read_1). rewrite at_one. cbv zeta.
    destruct (group_bits (n mod 128) cont ltac:(by apply Z.mod_pos_bound) Hc) as (_ & -> & ->).
    rewrite En. destruct Hc as [-> | ->]; cbn [Z.eqb negb]; [done|]. by rewrite u64_id by lia. }
  revert n cont s more. induction fuel as [|f IH]; intros n cont s more Hn Hf Hn' Hc w.
  - subst w. cbn [WriteVarInt_loop]. change (2 ^ (7 * Z.of_nat 1)) with 128 in Hf.
    destruct (Z.leb_spec n 127); [|lia]. rewrite land_127.
    destruct (group_bits (n mod 128) cont ltac:(by apply Z.mod_pos_bound) Hc) as (-> & _ & _).
    cbn [length app Nat.add]. apply Hstep; auto; [lia|].
    by rewrite Z.mod_small by lia.
  - subst w. cbn [WriteVarInt_loop]. rewrite land_127.
    destruct (group_bits (n mod 128) cont ltac:(by apply Z.mod_pos_bound) Hc) as (-> & _ & _).
    destruct (Z.leb_spec n 127) as [Hs|Hb].
    + cbn [length app Nat.add]. apply Hstep; auto; [lia|]. by rewrite Z.mod_small by lia.
    + destruct (varint_step n ltac:(lia) ltac:(lia)) as (E1 & E2 & E3). rewrite E1.
      change (if n / 128 - 1 <=? 127 then _ else _) with (WriteVarInt_loop (S f) (n / 128 - 1) 128 [n mod 128 + cont]).
      rewrite WriteVarInt_loop_app, <-app_assoc, length_app, <-Nat.add_assoc. cbn [app length Nat.add].
      assert (n / 128 < 2 ^ (7 * Z.of_nat (S f))).
      { apply Z.div_lt_upper_bound; [lia|]. change 128 with (2 ^ 7). rewrite <-Z.pow_add_r by lia.
        replace (7 + 7 * Z.of_nat (S f)) with (7 * Z.of_nat (S (S f))) by lia. lia. }
      assert (n / 128 < 2 ^ 57) by (apply Z.div_lt_upper_bound; lia).
      rewrite IH by (auto; lia). cbn [Z.eqb]. rewrite Z.sub_add. apply Hstep; auto; lia.
Qed.

(** Every 64-bit number written as a variable-length integer is read back,
    leaving what follows it. *)
Theorem varint_roundtrip n s :
  0 <= n < 2 ^ 64 -> ReadVarInt (WriteVarInt n ++ s) = Some (n, s).
Proof.
  intros Hn. unfold ReadVarInt, WriteVarInt. rewrite length_app, <-Nat.add_succ_r.
  rewrite ReadVarInt_write; [done|lia|simpl; lia|lia|by left].
Qed.

Lemma varint_roundtrip_witness : ReadVarInt (WriteVarInt 70000 ++ [7]) = Some (70000, [7]).
Proof. apply (varint_roundtrip 70000 [7]). lia. Defined.

Lemma varint_size_loop fuel n cont nRet :
  0 <= n -> n < 2 ^ (7 * Z.of_nat (S fuel)) ->
  GetSizeOfVarInt_loop (S fuel) n nRet = nRet + len (WriteVarInt_loop (S fuel) n cont []).
Proof.
  revert n cont nRet. induction fuel as [|f IH]; intros n cont nRet Hn Hf.
  - change (2 ^ (7 * Z.of_nat 1)) with 128 in Hf. cbn [GetSizeOfVarInt_loop WriteVarInt_loop].
    destruct (Z.leb_spec n 127); [done|lia].
  - remember (S f) as g. cbn [GetSizeOfVarInt_loop WriteVarInt_loop]. destruct (Z.leb_spec n 127); [done|]. subst g.
    rewrite Z.shiftr_div_pow2 by lia. change (2 ^ 7) with 128. rewrite WriteVarInt_loop_app, len_app.
    rewrite (IH _ 128); [unfold len at 3; simpl length; lia| |].
    + pose proof (Z.div_le_lower_bound n 128 1). lia.
    + assert (n / 128 < 2 ^ (7 * Z.of_nat (S f))); [|lia]. apply Z.div_lt_upper_bound; [lia|].
      change 128 with (2 ^ 7). rewrite <-Z.pow_add_r by lia.
      by replace (7 + 7 * Z.of_nat (S f)) with (7 * Z.of_nat (S (S f))) by lia.
Qed.

(** The size computed ahead of writing is the size written. *)
Lemma varint_size n : 0 <= n < 2 ^ 64 -> GetSizeOfVarInt n = len (WriteVarInt n).
Proof.
  intros Hn. pose proof (varint_size_loop 9 n 0 0 ltac:(lia)) as E. rewrite Z.add_0_l in E.
  apply E. change (7 * Z.of_nat 10) with 70. lia.
Qed.

(** A compact size is accepted exactly when it is the shortest encoding of
    a size within the limit; its encoding has the announced size. *)
Theorem compact_size_canonical s n s' :
  bytes_ok s ->
  (ReadCompactSize true s = Some (n, s') <-> 0 <= n <= MAX_SIZE /\ s = WriteCompactSize n ++ s') /\
  len (WriteCompactSize n) = GetSizeOfCompactSize n.
Proof.
  intros Hs. split; [split|apply WriteCompactSize_size].
  - intros E. by apply ReadCompactSize_canonical in E as [? ?].
  - intros [Hn ->]. by apply ReadCompactSize_write.
Qed.

Lemma compact_size_canonical_witness :
  ReadCompactSize true [253; 44; 1; 9] = Some (300, [9]) /\ len (WriteCompactSize 300) = 3.
Proof.
  destruct (compact_size_canonical [253; 44; 1; 9] 300 [9] ltac:(by repeat constructor)) as [[_ H] Hl].
  split; [apply H; split; [unfold MAX_SIZE; lia|reflexivity]|exact Hl].
Defined.

Lemma map_roundtrip_witness :
  Unserialize (c_map Z.ltb (c_uint 2) (c_uint 1))
    (Serialize (c_map Z.ltb (c_uint 2) (c_uint 1)) [(3, 7); (500, 8)] ++ [1]) = Some ([(3, 7); (500, 8)], [1]).
Proof.
  apply (proj1 (map_roundtrip Z.ltb (c_uint 2) (c_uint 1) Z.ltb_irrefl
    ltac:(intros a b c; rewrite !Z.ltb_lt; lia))).
  cbn. unfold MAX_SIZE, len. cbn. repeat split; repeat constructor; cbn; lia.
Defined.

(** ** [CDataStream] is a list of unread bytes *)

Definition stream_ok (ss : CDataStream) : Prop := 0 <= nReadPos ss <= len (vch ss) /\ len (vch ss) < 2 ^ 31.

Lemma drop_to_nat {A} (l : list A) (p n : Z) :
  0 <= p -> 0 <= n -> drop (Z.to_nat n) (drop (Z.to_nat p) l) = drop (Z.to_nat (p + n)) l.
Proof. intros. rewrite drop_drop. f_equal. lia. Qed.

(** [CDataStream::read] returns the next unread bytes and leaves the rest,
    and throws exactly when there are too few, whatever has been read before;
    [ignore] skips the same bytes. *)
Theorem data_stream_read ss n :
  stream_ok ss -> 0 <= n < 2 ^ 31 ->
  match stream_read n ss with
  | None => read (Z.to_nat n) (unread ss) = None
  | Some (b, ss') => read (Z.to_nat n) (unread ss) = Some (b, unread ss') /\ stream_ok ss'
  end /\ stream_ignore n ss = option_map snd (stream_read n ss).
Proof.
  intros [Hp Hl] Hn. unfold stream_read, stream_ignore, read, unread. rewrite u32_id by lia. rewrite length_drop.
  destruct (Z.leb_spec (len (vch ss)) (nReadPos ss + n)) as [Ha|Ha];
    [destruct (Z.ltb_spec (len (vch ss)) (nReadPos ss + n)) as [Hb|Hb]|]; (split; [|done]); cbv zeta;
    match goal with |- context [(?a <? ?b)%nat] => destruct (Nat.ltb_spec a b) end; try (unfold len in *; lia); [done| |].
  - cbn [nReadPos vch drop]. rewrite drop_to_nat by lia. rewrite (drop_ge (vch ss) (Z.to_nat (nReadPos ss + n))) by (unfold len in *; lia).
    split; [done|]. split; cbn; unfold len; simpl; lia.
  - cbn [nReadPos vch]. rewrite drop_to_nat by lia. split; [done|]. split; cbn; [lia|done].
Qed.

Lemma data_stream_read_witness :
  stream_read 2 {| vch := [1; 2; 3; 4]; nReadPos := 1 |} = Some ([2; 3], {| vch := [1; 2; 3; 4]; nReadPos := 3 |}) /\
  read 2 [2; 3; 4] = Some ([2; 3], [4]).
Proof.
  split; [reflexivity|].
  apply (data_stream_read {| vch := [1; 2; 3; 4]; nReadPos := 1 |} 2); [unfold stream_ok, len; simpl; lia|lia].
Defined.

(** Inserting at the read position puts the data in front of the unread
    bytes, whether or not it fits in the part already read; erasing from the
    read position drops unread bytes. *)
Theorem data_stream_insert ss data last :
  stream_ok ss -> nReadPos ss <= last <= len (vch ss) ->
  unread (stream_insert (nReadPos ss) data ss) = data ++ unread ss /\
  unread (stream_erase (nReadPos ss) last ss) = drop (Z.to_nat (last - nReadPos ss)) (unread ss) /\
  (unread ss <> [] -> unread (stream_erase1 (nReadPos ss) ss) = drop 1 (unread ss)).
Proof.
  intros [Hp Hl] Hlast. unfold unread, stream_insert, stream_erase, stream_erase1. rewrite !Z.eqb_refl. cbn [andb].
  split; [|split].
  - destruct (Z.leb_spec (len data) (nReadPos ss)) as [Hd|Hd]; cbn [vch nReadPos].
    + pose proof (len_pos data). rewrite drop_app_length'; [done|]. rewrite length_take. unfold len in *. lia.
    + rewrite drop_app_length'; [done|]. rewrite length_take. unfold len in *. lia.
  - rewrite drop_to_nat by lia. rewrite Zplus_minus. destruct (Z.eqb_spec last (len (vch ss))) as [->|]; [|done].
    cbn [vch nReadPos drop]. by rewrite (drop_ge (vch ss)) by (unfold len in *; lia).
  - intros _. rewrite u32_id by lia. change 1%nat with (Z.to_nat 1). rewrite drop_to_nat by lia.
    destruct (Z.leb_spec (len (vch ss)) (nReadPos ss + 1)); [|done].
    cbn [vch nReadPos drop]. by rewrite (drop_ge (vch ss)) by (unfold len in *; lia).
Qed.

Lemma data_stream_insert_witness :
  unread (stream_insert 1 [8; 9] {| vch := [1; 2; 3]; nReadPos := 1 |}) = [8; 9; 2; 3].
Proof.
  apply (data_stream_insert {| vch := [1; 2; 3]; nReadPos := 1 |} [8; 9] 2);
    [unfold stream_ok, len; simpl; lia|unfold len; simpl; lia].
Defined.

End Stream.
