(* ===== verification/Storage.v ===== *)
(** * On-chain storage codec ([src/storage.h])

    A payload is framed (little-endian length, bytes, checksum), cut into
    24-byte pieces, each carried with a 9-byte header in the 33-byte data push
    of an OP_RETURN output.  A C++ function that returns [bool] and fills an
    out-parameter returns an [option] here. *)

From S2P Require Import Prelude.

Module Storage.

Definition STORAGE_ENVELOPE_LEN : Z := 35.
Definition STORAGE_OP_RETURN : Z := 106.
Definition STORAGE_PUSH33 : Z := 33.
Definition STORAGE_CHUNK_DATA_LEN : Z := 33.
Definition STORAGE_HEADER_LEN : Z := 9.
Definition STORAGE_PAYLOAD_PER_CHUNK : Z := STORAGE_CHUNK_DATA_LEN - STORAGE_HEADER_LEN.
Definition STORAGE_VERSION : Z := 1.
Definition STORAGE_MAX_CHUNKS : Z := 65535.
Definition STORAGE_MAX_PAYLOAD : Z := STORAGE_MAX_CHUNKS * STORAGE_PAYLOAD_PER_CHUNK - 8.

(** ** Checksum *)

(** One turn of the inner loop of [StorageCrc32]. *)
Definition crc_bit (crc : Z) : Z :=
  Z.lxor (Z.shiftr crc 1) (Z.land 3988293408 (u32 (u32 (Z.lnot (Z.land crc 1)) + 1))).

(** One turn of the outer loop: the byte is xored in, then eight bit steps. *)
Definition crc_byte (crc b : Z) : Z := Nat.iter 8 crc_bit (Z.lxor crc b).

Definition StorageCrc32 (p : bytes) : Z :=
  Z.lxor (fold_left crc_byte p 4294967295) 4294967295.

Definition StorageDeriveStreamId (payload : bytes) : Z :=
  Z.lxor (StorageCrc32 payload) (u32 (u64 (Z.of_nat (length payload) * 2654435761))).

(** ** Little-endian fields *)

Definition StoragePutLE16 (o : bytes) (v : Z) : bytes :=
  o ++ [Z.land v 255; Z.land (Z.shiftr v 8) 255].
Definition StoragePutLE32 (o : bytes) (v : Z) : bytes :=
  o ++ map (fun i => Z.land (Z.shiftr v (8 * i)) 255) [0; 1; 2; 3].
Definition StorageGetLE16 (p : bytes) : Z :=
  u16 (Z.lor (at_ 0 p 0) (Z.shiftl (at_ 0 p 1) 8)).
Definition StorageGetLE32 (p : bytes) : Z :=
  Z.lor (Z.lor (Z.lor (at_ 0 p 0) (Z.shiftl (at_ 0 p 1) 8)) (Z.shiftl (at_ 0 p 2) 16))
    (Z.shiftl (at_ 0 p 3) 24).

(** ** Encoding *)

(** The body pushed by the turn [idx] of the loop of [StorageEncode]. *)
Definition chunk_body (vf streamId total : Z) (stream : bytes) (idx : Z) : bytes :=
  let body := StoragePutLE32 [vf] streamId in
  let body := StoragePutLE16 body (u16 idx) in
  let body := StoragePutLE16 body (u16 total) in
  let off := idx * STORAGE_PAYLOAD_PER_CHUNK in
  body ++ map (fun b => if off + b <? Z.of_nat (length stream)
                        then at_ 0 stream (off + b) else 0)
              (seqZ 0 STORAGE_PAYLOAD_PER_CHUNK).

Definition StorageEncode (payload : bytes) (flags streamId : Z) : option (list bytes) :=
  if STORAGE_MAX_PAYLOAD <? Z.of_nat (length payload) then None
  else
    let stream := StoragePutLE32 [] (u32 (Z.of_nat (length payload))) in
    let stream := stream ++ payload in
    let crc := StorageCrc32 stream in
    let stream := StoragePutLE32 stream crc in
    let total := (Z.of_nat (length stream) + STORAGE_PAYLOAD_PER_CHUNK - 1)
                   / STORAGE_PAYLOAD_PER_CHUNK in
    let total := if total =? 0 then 1 else total in
    if STORAGE_MAX_CHUNKS <? total then None
    else
      let vf := u8 (Z.lor (Z.shiftl STORAGE_VERSION 4) (Z.land flags 15)) in
      Some (map (chunk_body vf streamId total stream) (seqZ 0 total)).

(** The overload that derives the stream identifier. *)
Definition StorageEncode_derived (payload : bytes) (flags : Z) : option (list bytes) :=
  StorageEncode payload flags (StorageDeriveStreamId payload).

(** ** Script envelope *)

Definition StorageChunkToScript (body : bytes) : bytes :=
  [STORAGE_OP_RETURN; STORAGE_PUSH33] ++
  map (fun i => if i <? Z.of_nat (length body) then at_ 0 body i else 0)
      (seqZ 0 STORAGE_CHUNK_DATA_LEN).

Definition StorageScriptToChunk (spk : bytes) : option bytes :=
  if negb (Z.of_nat (length spk) =? STORAGE_ENVELOPE_LEN) then None
  else if negb (at_ 0 spk 0 =? STORAGE_OP_RETURN) || negb (at_ 0 spk 1 =? STORAGE_PUSH33)
  then None
  else
    let outBody := drop 2 spk in
    if Z.of_nat (length outBody) =? STORAGE_CHUNK_DATA_LEN then Some outBody else None.

(** ** Decoding *)

Record header := { hFlags : Z; hStreamId : Z; hIndex : Z; hTotal : Z }.

Definition StorageParseHeader (body : bytes) : option header :=
  if negb (Z.of_nat (length body) =? STORAGE_CHUNK_DATA_LEN) then None
  else if negb (Z.shiftr (at_ 0 body 0) 4 =? STORAGE_VERSION) then None
  else
    let h := {| hFlags := Z.land (at_ 0 body 0) 15;
                hStreamId := StorageGetLE32 (drop 1 body);
                hIndex := StorageGetLE16 (drop 5 body);
                hTotal := StorageGetLE16 (drop 7 body) |} in
    if (1 <=? hTotal h) && (hIndex h <? hTotal h) then Some h else None.

(** The loop over the chunks: [seen] and [ordered] indexed by chunk number. *)
Fixpoint collect (h0 : header) (chunks : list bytes)
    (seen : list bool) (ordered : list bytes) : option (list bool * list bytes) :=
  match chunks with
  | [] => Some (seen, ordered)
  | c :: cs =>
    match StorageParseHeader c with
    | None => None
    | Some h =>
      if negb (hStreamId h =? hStreamId h0) || negb (hTotal h =? hTotal h0)
         || negb (hFlags h =? hFlags h0) then None
      else if (hTotal h0 <=? hIndex h) || at_ false seen (hIndex h) then None
      else collect h0 cs (<[Z.to_nat (hIndex h) := true]> seen)
             (<[Z.to_nat (hIndex h) := drop (Z.to_nat STORAGE_HEADER_LEN) c]> ordered)
    end
  end.

(** The part of [StorageDecode] after reassembly. *)
Definition unframe (stream : bytes) (flags0 : Z) : option (bytes * Z) :=
  if Z.of_nat (length stream) <? 8 then None
  else
    let declaredLen := StorageGetLE32 stream in
    let framedLen := 4 + declaredLen + 4 in
    if Z.of_nat (length stream) <? framedLen then None
    else
      let wantCrc := StorageGetLE32 (drop (Z.to_nat (4 + declaredLen)) stream) in
      let gotCrc := StorageCrc32 (take (Z.to_nat (4 + declaredLen)) stream) in
      if negb (wantCrc =? gotCrc) then None
      else Some (take (Z.to_nat declaredLen) (drop 4 stream), flags0).

Definition StorageDecode (chunks : list bytes) : option (bytes * Z) :=
  match chunks with
  | [] => None
  | c0 :: _ =>
    match StorageParseHeader c0 with
    | None => None
    | Some h0 =>
      let n := Z.to_nat (hTotal h0) in
      match collect h0 chunks (replicate n false) (replicate n []) with
      | None => None
      | Some (seen, ordered) =>
        if negb (forallb (fun b => b) seen) then None
        else unframe (concat ordered) (hFlags h0)
      end
    end
  end.

(** ** The checksum separates streams that differ in one byte

    The top bit of the feedback constant is set, so a bit step can be undone;
    hence two different registers never meet again on a common suffix. *)

Lemma crc_bit_eq c :
  0 <= c < 2 ^ 32 ->
  crc_bit c = Z.lxor (c / 2) (if Z.odd c then 3988293408 else 0).
Proof.
  intros Hc. unfold crc_bit. rewrite Z.shiftr_div_pow2 by lia. change (2 ^ 1) with 2.
  f_equal. change 1 with (Z.ones 1) at 1. rewrite Z.land_ones by lia. change (2 ^ 1) with 2.
  rewrite Zmod_odd. destruct (Z.odd c); reflexivity.
Qed.

Lemma crc_bit_range c : 0 <= c < 2 ^ 32 -> 0 <= crc_bit c < 2 ^ 32.
Proof.
  intros Hc. rewrite crc_bit_eq by done. apply lxor_range; [lia| |destruct (Z.odd c); lia].
  split; [apply Z.div_pos; lia|apply Z.div_lt_upper_bound; lia].
Qed.

Lemma crc_bit_top c : 0 <= c < 2 ^ 32 -> Z.testbit (crc_bit c) 31 = Z.odd c.
Proof.
  intros Hc. rewrite crc_bit_eq, Z.lxor_spec by done. rewrite (testbit_high (c / 2) 31).
  - destruct (Z.odd c); reflexivity.
  - split; [apply Z.div_pos; lia|apply Z.div_lt_upper_bound; lia].
  - lia.
  - lia.
Qed.

Lemma crc_bit_inj a b :
  0 <= a < 2 ^ 32 -> 0 <= b < 2 ^ 32 -> crc_bit a = crc_bit b -> a = b.
Proof.
  intros Ha Hb E. assert (Z.odd a = Z.odd b) as Ho by (rewrite <-!crc_bit_top, E by done; done).
  rewrite !crc_bit_eq, Ho in E by done.
  apply (f_equal (fun z => Z.lxor z (if Z.odd b then 3988293408 else 0))) in E.
  rewrite !Z.lxor_assoc, Z.lxor_nilpotent, !Z.lxor_0_r in E.
  rewrite (Z.div_mod a 2), (Z.div_mod b 2), E, !Zmod_odd, Ho by lia. done.
Qed.

Lemma crc_iter_range n c : 0 <= c < 2 ^ 32 -> 0 <= Nat.iter n crc_bit c < 2 ^ 32.
Proof. intros Hc. induction n; simpl; [done|by apply crc_bit_range]. Qed.

Lemma crc_iter_inj n a b :
  0 <= a < 2 ^ 32 -> 0 <= b < 2 ^ 32 -> Nat.iter n crc_bit a = Nat.iter n crc_bit b -> a = b.
Proof.
  intros Ha Hb. induction n as [|n IH]; simpl; [done|]. intros E.
  apply IH, crc_bit_inj, E; by apply crc_iter_range.
Qed.

Definition crc_ok (c : Z) : Prop := 0 <= c < 2 ^ 32.

Lemma crc_seed_range c b : crc_ok c -> byte_ok b -> crc_ok (Z.lxor c b).
Proof. intros Hc Hb. unfold crc_ok, byte_ok in *. apply lxor_range; lia. Qed.

#[local] Opaque crc_bit Nat.iter.

Lemma crc_byte_range c b : crc_ok c -> byte_ok b -> crc_ok (crc_byte c b).
Proof. intros Hc Hb. exact (crc_iter_range 8 _ (crc_seed_range c b Hc Hb)). Qed.

Lemma crc_byte_inj c d a b :
  crc_ok c -> crc_ok d -> byte_ok a -> byte_ok b ->
  crc_byte c a = crc_byte d b -> Z.lxor c a = Z.lxor d b.
Proof.
  intros Hc Hd Ha Hb E. unfold crc_byte in E.
  exact (crc_iter_inj 8 _ _ (crc_seed_range c a Hc Ha) (crc_seed_range d b Hd Hb) E).
Qed.

Lemma lxor_inj_l c a b : Z.lxor c a = Z.lxor c b -> a = b.
Proof.
  intros E. apply (f_equal (Z.lxor c)) in E.
  by rewrite <-!Z.lxor_assoc, Z.lxor_nilpotent, !Z.lxor_0_l in E.
Qed.

Lemma crc_byte_inj_state c d b :
  crc_ok c -> crc_ok d -> byte_ok b -> crc_byte c b = crc_byte d b -> c = d.
Proof.
  intros Hc Hd Hb E. apply (lxor_inj_l b). rewrite !(Z.lxor_comm b).
  exact (crc_byte_inj c d b b Hc Hd Hb Hb E).
Qed.

Lemma crc_byte_inj_byte c a b :
  crc_ok c -> byte_ok a -> byte_ok b -> crc_byte c a = crc_byte c b -> a = b.
Proof. intros Hc Ha Hb E. apply (lxor_inj_l c). exact (crc_byte_inj c c a b Hc Hc Ha Hb E). Qed.

Lemma StorageCrc32_range p : bytes_ok p -> 0 <= StorageCrc32 p < 2 ^ 32.
Proof.
  intros Hp. apply lxor_range; [lia| |lia].
  apply (register_ok crc_ok byte_ok crc_byte crc_byte_range); [|done]. unfold crc_ok. lia.
Qed.

Lemma crc32_one_byte p x y q :
  bytes_ok p -> bytes_ok q -> byte_ok x -> byte_ok y ->
  StorageCrc32 (p ++ x :: q) = StorageCrc32 (p ++ y :: q) -> x = y.
Proof.
  intros Hp Hq Hx Hy E. unfold StorageCrc32 in E.
  rewrite !(Z.lxor_comm (fold_left _ _ _)) in E. apply lxor_inj_l in E.
  refine (register_one_byte crc_ok byte_ok crc_byte crc_byte_range crc_byte_inj_state
            crc_byte_inj_byte _ p x y q _ Hp Hq Hx Hy E).
  unfold crc_ok. lia.
Qed.

(** ** Fields: what is put is what is read *)

Lemma StorageGetLE16_app v r : 0 <= v < 65536 -> StorageGetLE16 (le_bytes 2 v ++ r) = v.
Proof.
  intros Hv. pose proof (le_value_bytes_id 2 v Hv) as E. unfold StorageGetLE16. at_eval.
  rewrite lor_shiftl by (try lia; apply Z.mod_pos_bound; lia). rewrite u16_id; lia.
Qed.

Lemma StorageGetLE32_app v r : 0 <= v < 2 ^ 32 -> StorageGetLE32 (le_bytes 4 v ++ r) = v.
Proof.
  intros Hv. pose proof (le_value_bytes_id 4 v Hv) as E. unfold StorageGetLE32. at_eval.
  pose proof (Z.mod_pos_bound v 256). pose proof (Z.mod_pos_bound (v / 256) 256).
  pose proof (Z.mod_pos_bound (v / 256 / 256) 256).
  rewrite (lor_shiftl _ _ 8), (lor_shiftl _ _ 16), (lor_shiftl _ _ 24); lia.
Qed.
Lemma StoragePutLE16_eq o v : StoragePutLE16 o v = o ++ le_bytes 2 v.
Proof. unfold StoragePutLE16. at_eval. rewrite !land_ff, Z.shiftr_div_pow2 by lia. done. Qed.

Lemma StoragePutLE32_eq o v : StoragePutLE32 o v = o ++ le_bytes 4 v.
Proof.
  unfold StoragePutLE32. at_eval. rewrite !land_ff, !Z.shiftr_div_pow2 by lia.
  rewrite !Z.div_div by lia. simpl (2 ^ _). rewrite Z.div_1_r. done.
Qed.

(** The version and flags byte. *)
Lemma vf_byte flags :
  let vf := u8 (Z.lor (Z.shiftl STORAGE_VERSION 4) (Z.land flags 15)) in
  Z.shiftr vf 4 = STORAGE_VERSION /\ Z.land vf 15 = Z.land flags 15.
Proof.
  change 15 with (Z.ones 4). rewrite !Z.land_ones by lia. cbv zeta.
  pose proof (Z.mod_pos_bound flags (2 ^ 4)) as Hm.
  rewrite Z.lor_comm, lor_shiftl by lia. unfold STORAGE_VERSION. rewrite u8_id by lia.
  rewrite Z.shiftr_div_pow2, Z.land_ones by lia. split.
  - rewrite Z.div_add, Z.div_small by lia. done.
  - rewrite Z_mod_plus_full, Z.mod_mod by lia. done.
Qed.

(** ** Chunks *)

(** The bytes of the stream, padded with zeros to a whole number of chunks. *)
Definition padded (stream : bytes) (total : Z) : bytes :=
  stream ++ replicate (Z.to_nat (24 * total) - length stream) 0.

Definition piece (stream : bytes) (total idx : Z) : bytes :=
  take 24 (drop (Z.to_nat (24 * idx)) (padded stream total)).

Lemma padded_lookup stream total k :
  Z.of_nat (length stream) <= 24 * total -> 0 <= k < 24 * total ->
  padded stream total !! Z.to_nat k =
  Some (if k <? Z.of_nat (length stream) then at_ 0 stream k else 0).
Proof.
  intros Hlen Hk. unfold padded. destruct (Z.ltb_spec k (Z.of_nat (length stream))).
  - rewrite lookup_app_l by lia. apply at_lookup_lt. lia.
  - rewrite lookup_app_r by lia. apply lookup_replicate_2. lia.
Qed.

Lemma chunk_body_eq vf sid total stream idx :
  Z.of_nat (length stream) <= 24 * total -> 0 <= idx < total -> total < 65536 ->
  chunk_body vf sid total stream idx =
  [vf] ++ le_bytes 4 sid ++ le_bytes 2 idx ++ le_bytes 2 total ++ piece stream total idx.
Proof.
  intros Hlen Hidx Htot. unfold chunk_body. rewrite StoragePutLE32_eq, !StoragePutLE16_eq.
  rewrite !u16_id by lia. rewrite <-!app_assoc. do 4 f_equal.
  unfold STORAGE_PAYLOAD_PER_CHUNK, STORAGE_CHUNK_DATA_LEN, STORAGE_HEADER_LEN, piece.
  change (33 - 9) with 24. apply list_eq. intros j.
  change (map ?f ?l) with (f <$> l). rewrite list_lookup_fmap.
  destruct (decide (j < 24)%nat) as [Hj|Hj].
  - rewrite lookup_seqZ_lt by lia. simpl. rewrite lookup_take_lt by lia.
    rewrite lookup_drop. replace (Z.to_nat (24 * idx) + j)%nat
      with (Z.to_nat (idx * 24 + (0 + Z.of_nat j))) by lia.
    rewrite padded_lookup by lia. done.
  - rewrite lookup_seqZ_ge by lia. rewrite lookup_take_ge by lia. done.
Qed.

Lemma piece_length stream total idx :
  Z.of_nat (length stream) <= 24 * total -> 0 <= idx < total ->
  length (piece stream total idx) = 24%nat.
Proof.
  intros. unfold piece, padded. rewrite length_take, length_drop, length_app, length_replicate. lia.
Qed.

Lemma parse_chunk_body flags sid total stream idx :
  0 <= sid < 2 ^ 32 -> Z.of_nat (length stream) <= 24 * total -> 0 <= idx < total ->
  total < 65536 ->
  StorageParseHeader
    (chunk_body (u8 (Z.lor (Z.shiftl STORAGE_VERSION 4) (Z.land flags 15))) sid total stream idx) =
  Some {| hFlags := Z.land flags 15; hStreamId := sid; hIndex := idx; hTotal := total |}.
Proof.
  intros Hsid Hlen Hidx Htot. rewrite chunk_body_eq by lia.
  unfold StorageParseHeader. rewrite !length_app, !le_bytes_length, piece_length by lia.
  change (Z.of_nat _ =? STORAGE_CHUNK_DATA_LEN) with true. cbn [negb].
  destruct (vf_byte flags) as [Hver Hfl]. cbv zeta in *.
  change (at_ 0 ([?a] ++ _) 0) with a. rewrite Hver, Hfl. cbn [negb Z.eqb].
  change (drop 1 ([?a] ++ ?l)) with l.
  change (drop 5 ([?a] ++ le_bytes 4 ?b ++ ?l)) with l.
  change (drop 7 ([?a] ++ le_bytes 4 ?b ++ le_bytes 2 ?c ++ ?l)) with l.
  rewrite StorageGetLE32_app by lia. rewrite !StorageGetLE16_app by lia.
  cbn [hTotal hIndex]. change (Z.eqb STORAGE_VERSION STORAGE_VERSION) with true. cbn [negb].
  destruct (Z.leb_spec 1 total); [|lia]. by destruct (Z.ltb_spec idx total); [|lia].
Qed.

(** ** Reassembly *)

(** The chunks of one stream, in any order: the loop fills both vectors. *)
Lemma collect_chunks (h0 : header) (body : Z -> bytes) (ks : list nat) seen ordered :
  (forall i, i ∈ ks -> StorageParseHeader (body (Z.of_nat i)) =
     Some {| hFlags := hFlags h0; hStreamId := hStreamId h0;
             hIndex := Z.of_nat i; hTotal := hTotal h0 |}) ->
  NoDup ks -> (forall i, i ∈ ks -> Z.of_nat i < hTotal h0) ->
  (forall i, i ∈ ks -> seen !! i = Some false) ->
  collect h0 (map (fun i => body (Z.of_nat i)) ks) seen ordered =
  Some (fold_left (fun s i => <[i := true]> s) ks seen,
        fold_left (fun o i => <[i := drop 9 (body (Z.of_nat i))]> o) ks ordered).
Proof.
  revert seen ordered. induction ks as [|i ks IH]; intros seen ordered Hp Hnd Hlt Hseen; [done|].
  cbn [map collect fold_left]. rewrite Hp by set_solver.
  cbn [hStreamId hTotal hFlags hIndex]. rewrite !Z.eqb_refl. cbn [negb orb].
  rewrite (at_lookup false seen (Z.of_nat i) false) by (rewrite ?Nat2Z.id; first [lia|set_solver]).
  assert (Z.of_nat i < hTotal h0) by set_solver.
  destruct (Z.leb_spec (hTotal h0) (Z.of_nat i)); [lia|].
  cbn [orb]. rewrite Nat2Z.id. apply NoDup_cons in Hnd as [Hni Hnd].
  apply IH; [set_solver|done|set_solver|].
  intros j Hj. rewrite list_lookup_insert_ne by set_solver. set_solver.
Qed.

Lemma pieces_concat (l : bytes) n :
  length l = (24 * n)%nat ->
  concat (map (fun i => take 24 (drop (24 * i) l)) (seq 0 n)) = l.
Proof.
  revert l. induction n as [|n IH]; intros l Hl.
  - simpl. destruct l; [done|simpl in Hl; lia].
  - cbn [seq map concat]. rewrite drop_0, <-seq_shift, map_map.
    rewrite (map_ext _ (fun i => take 24 (drop (24 * i) (drop 24 l)))).
    + rewrite IH by (rewrite length_drop; lia). apply take_drop.
    + intros i. rewrite drop_drop. do 2 f_equal. lia.
Qed.

(** The framed payload: what [StorageEncode] cuts into chunks. *)
Definition framed (payload : bytes) : bytes :=
  let head := le_bytes 4 (Z.of_nat (length payload)) ++ payload in
  head ++ le_bytes 4 (StorageCrc32 head).

Lemma framed_length payload : length (framed payload) = (length payload + 8)%nat.
Proof. unfold framed. rewrite !length_app, !le_bytes_length. lia. Qed.

Lemma unframe_framed payload pad flags :
  bytes_ok payload -> Z.of_nat (length payload) <= STORAGE_MAX_PAYLOAD ->
  unframe (framed payload ++ pad) flags = Some (payload, flags).
Proof.
  intros Hok Hmax. assert (Z.of_nat (length payload) < 2 ^ 32) by (change STORAGE_MAX_PAYLOAD with 1572832 in *; lia).
  unfold unframe. rewrite length_app, framed_length.
  destruct (Z.ltb_spec (Z.of_nat (length payload + 8 + length pad)) 8); [lia|].
  unfold framed. rewrite <-!app_assoc. rewrite StorageGetLE32_app by lia.
  destruct (Z.ltb_spec (Z.of_nat (length payload + 8 + length pad)) (4 + Z.of_nat (length payload) + 4)); [lia|].
  rewrite app_assoc. replace (Z.to_nat (4 + Z.of_nat (length payload)))
    with (length (le_bytes 4 (Z.of_nat (length payload)) ++ payload))
    by (rewrite length_app, le_bytes_length; lia).
  rewrite drop_app_length, take_app_length.
  rewrite StorageGetLE32_app
    by (apply StorageCrc32_range, bytes_ok_app; auto with bytes_db).
  rewrite Z.eqb_refl. cbn [negb]. rewrite <-app_assoc, Nat2Z.id.
  rewrite (drop_app_length' (le_bytes 4 _)) by (by rewrite le_bytes_length).
  by rewrite take_app_length.
Qed.

(** Number of chunks of a payload. *)
Definition chunk_count (payload : bytes) : Z := (Z.of_nat (length payload) + 31) / 24.

Lemma chunk_count_bounds payload :
  Z.of_nat (length payload) <= STORAGE_MAX_PAYLOAD ->
  1 <= chunk_count payload <= STORAGE_MAX_CHUNKS /\
  Z.of_nat (length (framed payload)) <= 24 * chunk_count payload.
Proof.
  intros Hmax. change STORAGE_MAX_PAYLOAD with 1572832 in Hmax.
  rewrite framed_length. unfold chunk_count, STORAGE_MAX_CHUNKS.
  pose proof (Z.div_mod (Z.of_nat (length payload) + 31) 24).
  pose proof (Z.mod_pos_bound (Z.of_nat (length payload) + 31) 24). lia.
Qed.

Lemma StorageEncode_eq payload flags sid :
  Z.of_nat (length payload) <= STORAGE_MAX_PAYLOAD ->
  StorageEncode payload flags sid =
  Some (map (fun i => chunk_body (u8 (Z.lor (Z.shiftl STORAGE_VERSION 4) (Z.land flags 15)))
               sid (chunk_count payload) (framed payload) (Z.of_nat i))
            (seq 0 (Z.to_nat (chunk_count payload)))).
Proof.
  intros Hmax. destruct (chunk_count_bounds payload Hmax) as [Hc Hl].
  assert (Z.of_nat (length payload) < 2 ^ 32)
    by (change STORAGE_MAX_PAYLOAD with 1572832 in *; lia).
  unfold StorageEncode. destruct (Z.ltb_spec STORAGE_MAX_PAYLOAD (Z.of_nat (length payload))); [lia|].
  cbv zeta. rewrite u32_id, !StoragePutLE32_eq, app_nil_l by lia.
  change ((_ ++ payload) ++ le_bytes 4 _) with (framed payload).
  replace ((_ + STORAGE_PAYLOAD_PER_CHUNK - 1) / STORAGE_PAYLOAD_PER_CHUNK)
    with (chunk_count payload).
  - destruct (Z.eqb_spec (chunk_count payload) 0); [lia|].
    destruct (Z.ltb_spec STORAGE_MAX_CHUNKS (chunk_count payload)); [lia|].
    rewrite seqZ_nat, map_map by lia. done.
  - unfold chunk_count. rewrite framed_length. f_equal.
    change STORAGE_PAYLOAD_PER_CHUNK with 24. lia.
Qed.

(** Cutting the chunks' payloads back together gives the padded stream. *)
Lemma bodies_concat vf sid total stream :
  Z.of_nat (length stream) <= 24 * total -> 0 <= total < 65536 ->
  concat (map (fun i => drop 9 (chunk_body vf sid total stream (Z.of_nat i)))
            (seq 0 (Z.to_nat total))) = padded stream total.
Proof.
  intros Hlen Htot. rewrite <-(pieces_concat (padded stream total) (Z.to_nat total)).
  - f_equal. apply map_ext_in. intros i Hi%in_seq. rewrite chunk_body_eq by lia.
    change (drop 9 ([?a] ++ le_bytes 4 ?b ++ le_bytes 2 ?c ++ le_bytes 2 ?d ++ ?l)) with l.
    unfold piece. do 2 f_equal. lia.
  - unfold padded. rewrite length_app, length_replicate. lia.
Qed.

Lemma forallb_true_map {A} (l : list A) : forallb (fun b => b) (map (fun _ => true) l) = true.
Proof. induction l; done. Qed.


(** ** What an accepted set of chunks looks like *)

Lemma parse_header_bounds c h :
  StorageParseHeader c = Some h -> 0 <= hIndex h < hTotal h /\ hTotal h < 65536.
Proof.
  unfold StorageParseHeader. intros H.
  destruct (negb _); [done|]. destruct (negb _); [done|]. cbv zeta in H.
  destruct (_ && _) eqn:E; [|done]. bool_prop. injection H as <-. cbn [hIndex hTotal] in *.
  unfold StorageGetLE16 in *.
  match goal with |- _ <= u16 ?a < u16 ?b /\ _ =>
    pose proof (u16_range a); pose proof (u16_range b); lia end.
Qed.

(** The chunk headers [collect] went through, in order. *)
Definition same_stream (h0 h : header) : Prop :=
  hStreamId h = hStreamId h0 /\ hTotal h = hTotal h0 /\ hFlags h = hFlags h0.

Lemma collect_inv h0 chunks seen ordered seen' ordered' :
  collect h0 chunks seen ordered = Some (seen', ordered') ->
  length seen = Z.to_nat (hTotal h0) ->
  exists hs,
    Forall2 (fun c h => StorageParseHeader c = Some h) chunks hs /\
    Forall (same_stream h0) hs /\
    NoDup (map hIndex hs) /\
    (forall h, h ∈ hs -> seen !! Z.to_nat (hIndex h) = Some false) /\
    seen' = fold_left (fun s i => <[i := true]> s) (map (fun h => Z.to_nat (hIndex h)) hs) seen.
Proof.
  revert seen ordered. induction chunks as [|c cs IH]; intros seen ordered H Hlen; simpl in H.
  - injection H as <- <-. exists []. split_and!; try constructor. set_solver.
  - destruct (StorageParseHeader c) as [h|] eqn:Eh; [|done].
    guard_in H as E1. guard_in H as E2.
    destruct (parse_header_bounds _ _ Eh) as [Hi Ht].
    apply IH in H; [|by rewrite length_insert].
    destruct H as (hs & Hf & Hs & Hnd & Hseen & ->).
    assert (seen !! Z.to_nat (hIndex h) = Some false) as Hfree.
    { match goal with E : at_ _ _ _ = false |- _ => rewrite <-E end. apply at_lookup_lt. lia. }
    exists (h :: hs). split_and!; [by constructor| | | |done].
    + constructor; [|done]. unfold same_stream. lia.
    + cbn [map]. apply NoDup_cons. split; [|done]. intros (h' & Heq & Hin)%list_elem_of_fmap.
      specialize (Hseen _ Hin). rewrite <-Heq, list_lookup_insert_eq in Hseen; [done|lia].
    + intros h' [->|Hin]%elem_of_cons; [done|].
      specialize (Hseen _ Hin). destruct (decide (Z.to_nat (hIndex h) = Z.to_nat (hIndex h'))) as [He|He].
      * rewrite He in Hfree. done.
      * by rewrite list_lookup_insert_ne in Hseen.
Qed.


(** ** Tampering *)

(** The header is read from the first nine bytes only. *)
Lemma parse_header_insert c j x :
  (9 <= j)%nat -> StorageParseHeader (<[j := x]> c) = StorageParseHeader c.
Proof.
  intros Hj. unfold StorageParseHeader, StorageGetLE32, StorageGetLE16.
  rewrite !length_insert, !at_drop by lia. by rewrite !at_insert_ne by lia.
Qed.

Lemma unframe_bad_crc stream flags :
  StorageGetLE32 (drop (Z.to_nat (4 + StorageGetLE32 stream)) stream) <>
  StorageCrc32 (take (Z.to_nat (4 + StorageGetLE32 stream)) stream) ->
  unframe stream flags = None.
Proof.
  intros Hne. unfold unframe. destruct (_ <? _); [done|]. cbv zeta. destruct (_ <? _); [done|].
  destruct (Z.eqb_spec (StorageGetLE32 (drop (Z.to_nat (4 + StorageGetLE32 stream)) stream))
     (StorageCrc32 (take (Z.to_nat (4 + StorageGetLE32 stream)) stream))); done.
Qed.

Lemma StorageGetLE32_take l r : bytes_ok l -> length l = 4%nat -> StorageGetLE32 (l ++ r) = le_value l.
Proof.
  intros Hok Hlen. pose proof (le_value_range l Hok) as Hr. rewrite Hlen in Hr.
  rewrite <-(le_bytes_value l Hok) at 1. rewrite Hlen. by apply StorageGetLE32_app.
Qed.

(** Altering one byte of the payload or of the checksum. *)
Lemma unframe_tamper payload pad flags k x y :
  bytes_ok payload -> Z.of_nat (length payload) <= STORAGE_MAX_PAYLOAD ->
  (4 <= k < length payload + 8)%nat -> framed payload !! k = Some y -> byte_ok x -> x <> y ->
  unframe (<[k := x]> (framed payload) ++ pad) flags = None.
Proof.
  intros Hok Hmax Hk Hy Hx Hne.
  assert (Z.of_nat (length payload) < 2 ^ 32) by (change STORAGE_MAX_PAYLOAD with 1572832 in *; lia).
  unfold framed in *. set (lenb := le_bytes 4 (Z.of_nat (length payload))) in *.
  assert (length lenb = 4%nat) as Hlenb by apply le_bytes_length.
  assert (bytes_ok lenb) as Hlok by apply le_bytes_ok.
  assert (bytes_ok (lenb ++ payload)) as Hhead by (by apply bytes_ok_app).
  assert (forall r, StorageGetLE32 (lenb ++ r) = Z.of_nat (length payload)) as Hget
    by (intros r; apply StorageGetLE32_app; lia).
  clearbody lenb. set (crc := StorageCrc32 (lenb ++ payload)) in *.
  assert (0 <= crc < 2 ^ 32) as Hcrc by by apply StorageCrc32_range.
  apply unframe_bad_crc. destruct (decide (k < 4 + length payload)%nat) as [Hp|Hp].
  - rewrite lookup_app_l in Hy by (rewrite length_app; lia).
    rewrite insert_app_l by (rewrite length_app; lia).
    rewrite lookup_app_r in Hy by lia. rewrite insert_app_r_alt by lia.
    rewrite <-!app_assoc, Hget.
    set (pl' := <[_ := x]> payload).
    assert (length (lenb ++ pl') = Z.to_nat (4 + Z.of_nat (length payload))) as Hl
      by (unfold pl'; rewrite length_app, length_insert; lia).
    rewrite app_assoc, (drop_app_length' _ _ _ (eq_sym Hl)), (take_app_length' _ _ _ (eq_sym Hl)).
    rewrite StorageGetLE32_app by lia. unfold crc. intros E.
    rewrite <-(take_drop_middle _ _ _ Hy) in E at 1.
    unfold pl' in E. rewrite insert_take_drop in E by (apply lookup_lt_Some in Hy; done).
    rewrite !app_assoc in E. apply crc32_one_byte in E; [congruence| |by apply bytes_ok_drop|..].
    + apply bytes_ok_app; split; [done|by apply bytes_ok_take].
    + eapply Forall_lookup_1; [exact Hok|exact Hy].
    + done.
  - rewrite lookup_app_r in Hy by (rewrite length_app; lia).
    rewrite insert_app_r_alt by (rewrite length_app; lia).
    rewrite <-!app_assoc, Hget. rewrite app_assoc.
    assert (length (lenb ++ payload) = Z.to_nat (4 + Z.of_nat (length payload))) as Hl
      by (rewrite length_app; lia).
    rewrite (drop_app_length' _ _ _ (eq_sym Hl)), (take_app_length' _ _ _ (eq_sym Hl)).
    rewrite StorageGetLE32_take.
    + fold crc. intros E. apply Hne. symmetry in E.
      rewrite <-(le_value_bytes_id 4 crc Hcrc) in E at 1. apply le_value_inj in E.
      * rewrite E, list_lookup_insert_eq in Hy by (rewrite le_bytes_length; lia). congruence.
      * apply le_bytes_ok.
      * apply bytes_ok_insert; [apply le_bytes_ok|done].
      * by rewrite length_insert.
    + apply bytes_ok_insert; [apply le_bytes_ok|done].
    + by rewrite length_insert, le_bytes_length.
Qed.


(** Decoding the chunks [body 0 .. body (total - 1)] of one stream. *)
Lemma decode_bodies body flags sid total :
  1 <= total < 65536 ->
  (forall i, (i < Z.to_nat total)%nat -> StorageParseHeader (body (Z.of_nat i)) =
     Some {| hFlags := flags; hStreamId := sid; hIndex := Z.of_nat i; hTotal := total |}) ->
  forall ks, ks ≡ₚ seq 0 (Z.to_nat total) ->
  StorageDecode (map (fun i => body (Z.of_nat i)) ks) =
  unframe (concat (map (fun i => drop 9 (body (Z.of_nat i))) (seq 0 (Z.to_nat total)))) flags.
Proof.
  intros Htot Hp ks Hks.
  assert (forall i, i ∈ ks -> (i < Z.to_nat total)%nat) as Hin
    by (intros i; rewrite Hks, elem_of_seq; lia).
  destruct ks as [|k0 ks']; [apply Permutation_length in Hks; rewrite length_seq in Hks; simpl in Hks; lia|].
  unfold StorageDecode. cbn [map]. rewrite Hp by (apply Hin; set_solver). cbn [hTotal hFlags].
  rewrite (collect_chunks _ body (k0 :: ks')); cbn [hFlags hStreamId hTotal].
  - rewrite !(fold_insert_all _ (k0 :: ks') _ (Z.to_nat total)) by (rewrite ?length_replicate; done).
    by rewrite forallb_true_map.
  - intros i Hi%Hin. by apply Hp.
  - rewrite Hks. apply NoDup_seq.
  - intros i Hi%Hin. lia.
  - intros i Hi%Hin. by apply lookup_replicate_2.
Qed.

(** Storage round trip: a payload of at most [STORAGE_MAX_PAYLOAD] bytes is
    always encoded, and decoding its chunks, received in any order, gives back
    the payload and the low four flag bits. *)
Theorem storage_roundtrip payload flags sid :
  bytes_ok payload -> Z.of_nat (length payload) <= STORAGE_MAX_PAYLOAD ->
  0 <= sid < 2 ^ 32 ->
  exists chunks, StorageEncode payload flags sid = Some chunks /\
    forall cs, cs ≡ₚ chunks -> StorageDecode cs = Some (payload, Z.land flags 15).
Proof.
  intros Hok Hmax Hsid. rewrite StorageEncode_eq by done. eexists. split; [done|]. intros cs Hcs.
  destruct (chunk_count_bounds payload Hmax) as [Hc Hl]. unfold STORAGE_MAX_CHUNKS in Hc.
  set (body := chunk_body _ sid _ (framed payload)) in *.
  apply Permutation_map_inv in Hcs as (ks & -> & Hks%Permutation_sym).
  rewrite (decode_bodies body (Z.land flags 15) sid (chunk_count payload)); [|lia| |done].
  - unfold body. rewrite bodies_concat by lia. by apply unframe_framed.
  - intros i Hi. apply parse_chunk_body; lia.
Qed.

(** The payload part of a chunk is a window of the padded stream. *)
Lemma chunk_body_drop vf sid total stream k :
  Z.of_nat (length stream) <= 24 * total -> (k < Z.to_nat total)%nat -> total < 65536 ->
  drop 9 (chunk_body vf sid total stream (Z.of_nat k)) =
  take 24 (drop (24 * k) (padded stream total)).
Proof.
  intros. rewrite chunk_body_eq by lia.
  change (drop 9 ([?a] ++ le_bytes 4 ?b ++ le_bytes 2 ?c ++ le_bytes 2 ?d ++ ?l)) with l.
  unfold piece. do 2 f_equal. lia.
Qed.

Lemma chunk_body_lookup vf sid total stream k j :
  Z.of_nat (length stream) <= 24 * total -> (k < Z.to_nat total)%nat -> total < 65536 ->
  (9 <= j < 33)%nat ->
  chunk_body vf sid total stream (Z.of_nat k) !! j = padded stream total !! (24 * k + (j - 9))%nat.
Proof.
  intros. replace j with (9 + (j - 9))%nat at 1 by lia. rewrite <-lookup_drop.
  rewrite chunk_body_drop, lookup_take_lt, lookup_drop by lia. done.
Qed.

Lemma tampered_concat vf sid total stream i j x :
  Z.of_nat (length stream) <= 24 * total -> (i < Z.to_nat total)%nat -> total < 65536 ->
  (9 <= j < 33)%nat ->
  concat (map (fun k => drop 9 (if Z.of_nat k =? Z.of_nat i
                                then <[j := x]> (chunk_body vf sid total stream (Z.of_nat k))
                                else chunk_body vf sid total stream (Z.of_nat k)))
            (seq 0 (Z.to_nat total))) =
  <[(24 * i + (j - 9))%nat := x]> (padded stream total).
Proof.
  intros Hlen Hi Htot Hj.
  rewrite <-(pieces_concat (<[_ := x]> (padded stream total)) (Z.to_nat total)).
  2:{ rewrite length_insert. unfold padded. rewrite length_app, length_replicate. lia. }
  f_equal. apply map_ext_in. intros k Hk%in_seq.
  destruct (Z.eqb_spec (Z.of_nat k) (Z.of_nat i)) as [Hki|Hki].
  - assert (k = i) as -> by lia. rewrite !drop_insert_ge, chunk_body_drop by lia.
    rewrite <-take_insert_lt by lia. do 2 f_equal. lia.
  - rewrite chunk_body_drop by lia. destruct (decide (i < k)%nat).
    + by rewrite drop_insert_lt by lia.
    + rewrite drop_insert_ge by lia. by rewrite take_insert_ge by lia.
Qed.

(** Tampering is detected: altering one payload or checksum byte of one
    chunk of an encoded payload makes [StorageDecode] fail. *)
Theorem storage_tamper payload flags sid chunks i c j x y :
  bytes_ok payload -> Z.of_nat (length payload) <= STORAGE_MAX_PAYLOAD -> 0 <= sid < 2 ^ 32 ->
  StorageEncode payload flags sid = Some chunks ->
  chunks !! i = Some c -> (9 <= j < 33)%nat -> (4 <= 24 * i + (j - 9) < length payload + 8)%nat ->
  c !! j = Some y -> byte_ok x -> x <> y ->
  StorageDecode (<[i := <[j := x]> c]> chunks) = None.
Proof.
  intros Hok Hmax Hsid Henc Hc Hj Hpos Hy Hx Hne.
  rewrite StorageEncode_eq in Henc by done. injection Henc as <-.
  destruct (chunk_count_bounds payload Hmax) as [Hcnt Hl]. unfold STORAGE_MAX_CHUNKS in Hcnt.
  set (n := chunk_count payload) in *. set (body := chunk_body _ sid n (framed payload)) in *.
  change (map ?f ?l) with (f <$> l) in Hc. rewrite list_lookup_fmap in Hc.
  assert (i < Z.to_nat n)%nat as Hi.
  { destruct (seq 0 (Z.to_nat n) !! i) eqn:E; [|done].
    apply lookup_lt_Some in E. by rewrite length_seq in E. }
  rewrite lookup_seq_lt in Hc by done. injection Hc as <-. cbn [Nat.add] in *.
  set (body' k := if k =? Z.of_nat i then <[j := x]> (body k) else body k).
  assert (<[i := <[j := x]> (body (Z.of_nat i))]> (map (fun i => body (Z.of_nat i)) (seq 0 (Z.to_nat n)))
    = map (fun i => body' (Z.of_nat i)) (seq 0 (Z.to_nat n))) as ->.
  { apply list_eq. intros k. change (map ?f ?l) with (f <$> l).
    destruct (decide (i = k)) as [<-|Hik].
    - rewrite list_lookup_insert_eq by (rewrite length_fmap, length_seq; done).
      rewrite list_lookup_fmap, lookup_seq_lt by done. simpl. unfold body'. by rewrite Z.eqb_refl.
    - rewrite list_lookup_insert_ne, !list_lookup_fmap by done.
      destruct (seq 0 (Z.to_nat n) !! k) as [v|] eqn:E; [|done]. simpl. f_equal.
      apply lookup_seq in E as [-> _]. unfold body'. by destruct (Z.eqb_spec (Z.of_nat (0 + k)) (Z.of_nat i)); [lia|]. }
  rewrite (decode_bodies body' (Z.land flags 15) sid n); [|lia| |done].
  2:{ intros k Hk. unfold body'. destruct (_ =? _); [rewrite parse_header_insert by lia|];
      apply parse_chunk_body; lia. }
  unfold body', body. rewrite tampered_concat by lia. unfold padded.
  rewrite insert_app_l by (rewrite framed_length; lia).
  apply (unframe_tamper payload _ _ _ x y); [done|done|lia| |done|done].
  unfold body in Hy. rewrite chunk_body_lookup in Hy by lia. unfold padded in Hy.
  by rewrite lookup_app_l in Hy by (rewrite framed_length; lia).
Qed.

Lemma storage_roundtrip_witness :
  exists chunks, StorageEncode [77; 65; 82; 89; 74] 3 7 = Some chunks /\
    forall cs, cs ≡ₚ chunks -> StorageDecode cs = Some ([77; 65; 82; 89; 74], Z.land 3 15).
Proof.
  apply (storage_roundtrip [77; 65; 82; 89; 74] 3 7); [|vm_compute; discriminate|lia].
  repeat constructor; lia.
Defined.

Lemma storage_tamper_witness :
  exists chunks c, StorageEncode [77; 65; 82; 89; 74] 3 7 = Some chunks /\ chunks !! 0%nat = Some c /\
    StorageDecode (<[0%nat := <[13%nat := 0]> c]> chunks) = None.
Proof.
  eexists _, _. split; [vm_compute; reflexivity|]. split; [reflexivity|].
  eapply (storage_tamper [77; 65; 82; 89; 74] 3 7 _ 0 _ 13 0 77);
    [repeat constructor; lia|vm_compute; discriminate|lia|vm_compute; reflexivity|reflexivity
    |lia|simpl; lia|reflexivity|split; lia|lia].
Defined.

(** Acceptance is complete: a set of chunks that decodes consists of chunks
    that all parse, share stream identifier, total and flags, and carry every
    number below the total exactly once; missing, duplicate and foreign chunks
    are rejected. *)
Theorem storage_decode_complete chunks payload flags :
  StorageDecode chunks = Some (payload, flags) ->
  exists h0 hs,
    Forall2 (fun c h => StorageParseHeader c = Some h) chunks hs /\
    Forall (same_stream h0) hs /\ flags = hFlags h0 /\
    map hIndex hs ≡ₚ seqZ 0 (hTotal h0).
Proof.
  destruct chunks as [|c0 cs]; [done|]. cbn [StorageDecode].
  destruct (StorageParseHeader c0) as [h0|] eqn:E0; [|done]. intros H.
  destruct (collect _ _ _ _) as [[seen ordered]|] eqn:Ec; [|done].
  destruct (negb (forallb _ seen)) eqn:Es; [done|]. bool_prop.
  apply collect_inv in Ec; [|by rewrite length_replicate].
  destruct Ec as (hs & Hf & Hs & Hnd & Hfree & ->).
  exists h0, hs. split_and!; [done|done| |].
  - unfold unframe in H. repeat (destruct (_ : bool) in H; [done|]). by injection H as _ <-.
  - apply NoDup_Permutation; [done|apply NoDup_seqZ|]. intros i. rewrite elem_of_seqZ.
    split.
    + intros (h & -> & Hin)%list_elem_of_fmap. 
      rewrite Forall_forall in Hs. destruct (Hs _ Hin) as (_ & Ht & _).
      apply list_elem_of_lookup in Hin as [k Hk].
      destruct (Forall2_lookup_r _ _ _ _ _ Hf Hk) as (c & _ & Hc).
      apply parse_header_bounds in Hc. lia.
    + intros Hi. destruct (decide (i ∈ map hIndex hs)) as [|Hni]; [done|exfalso].
      rewrite forallb_forall in Es.
      assert (fold_left (fun s i => <[i := true]> s) (map (fun h => Z.to_nat (hIndex h)) hs)
        (replicate (Z.to_nat (hTotal h0)) false) !! Z.to_nat i = Some false) as Hl.
      { rewrite (fold_insert_notin (fun _ => true)); [apply lookup_replicate_2; lia|].
        intros (h & Heq & Hin)%list_elem_of_fmap. apply Hni.
        apply list_elem_of_fmap. exists h. split; [|done].
        apply list_elem_of_lookup in Hin as [k Hk].
        destruct (Forall2_lookup_r _ _ _ _ _ Hf Hk) as (c & _ & Hc).
        apply parse_header_bounds in Hc. lia. }
      apply list_elem_of_lookup_2, list_elem_of_In, Es in Hl. done.
Qed.


Lemma storage_decode_complete_witness :
  exists chunks h0 hs, StorageDecode chunks = Some ([9; 8], 1) /\
    Forall2 (fun c h => StorageParseHeader c = Some h) chunks hs /\
    Forall (same_stream h0) hs /\ 1 = hFlags h0 /\ map hIndex hs ≡ₚ seqZ 0 (hTotal h0).
Proof.
  destruct (StorageEncode [9; 8] 1 5) as [chunks|] eqn:E; [|discriminate E].
  assert (StorageDecode chunks = Some ([9; 8], 1)) as H
    by (injection E as <-; vm_compute; reflexivity).
  destruct (storage_decode_complete _ _ _ H) as (h0 & hs & ?). by exists chunks, h0, hs.
Defined.

(** ** Script envelope *)

Lemma copy_33 body :
  length body = 33%nat ->
  map (fun i => if i <? Z.of_nat (length body) then at_ 0 body i else 0)
    (seqZ 0 STORAGE_CHUNK_DATA_LEN) = body.
Proof.
  intros Hl. apply list_eq. intros j. change (map ?f ?l) with (f <$> l). rewrite list_lookup_fmap.
  unfold STORAGE_CHUNK_DATA_LEN. destruct (decide (j < 33)%nat).
  - rewrite lookup_seqZ_lt by lia. cbn [option_map fmap option_fmap]. rewrite Z.add_0_l.
    pose proof (at_lookup_lt 0 body (Z.of_nat j)) as E. rewrite Nat2Z.id in E. rewrite E by lia.
    by destruct (Z.ltb_spec (Z.of_nat j) (Z.of_nat (length body))); [|lia].
  - rewrite lookup_seqZ_ge, lookup_ge_None_2 by lia. done.
Qed.

(** The OP_RETURN envelope: exactly the scripts built by
    [StorageChunkToScript] from a 33-byte body unwrap, and to that body. *)
Theorem storage_script_roundtrip spk body :
  StorageScriptToChunk spk = Some body <->
  length body = 33%nat /\ spk = StorageChunkToScript body.
Proof.
  unfold StorageScriptToChunk, StorageChunkToScript, STORAGE_ENVELOPE_LEN. split.
  - intros H. guard_in H as E1. guard_in H as E2. guard_in H as E3. injection H as <-.
    unfold STORAGE_CHUNK_DATA_LEN in *. split; [lia|]. rewrite copy_33 by lia.
    destruct spk as [|a [|b spk]]; simpl in E1; try lia.
    at_eval. subst. done.
  - intros [Hl ->]. rewrite copy_33 by done. rewrite length_app, Hl. at_eval.
    cbn. rewrite drop_0. by rewrite Hl.
Qed.

End Storage.
