(* ===== verification/BigNum.v ===== *)
(** * Big numbers ([src/bignum.h])

    [CBigNum] wraps a BIGNUM of OpenSSL.  A BIGNUM is a [Z]; the library is the
    class [OpenSSLBN] of the functions [CBigNum] calls, [BNLaws] is what its manual
    says of them, and [z_bn] is an instance to evaluate with.  The file has the
    conversions of [CBigNum]: machine integers, the byte vectors of the script
    language and the compact form of difficulty targets. *)

From S2P Require Import Prelude.

Module BigNum.

(** ** Signed numbers as bytes

    [num_value] reads bytes, least significant first, whose topmost bit is the
    sign; [num_bytes] is the shortest such vector. *)

Definition num_value (l : bytes) : Z :=
  let v := le_value l in
  let h := 2 ^ (8 * len l - 1) in
  if Z.testbit v (8 * len l - 1) then - (v - h) else v.

Definition num_length (z : Z) : nat :=
  if z =? 0 then O else Z.to_nat ((Z.log2 (Z.abs z) + 1) / 8 + 1).

Definition num_bytes (z : Z) : bytes :=
  le_bytes (num_length z) (Z.abs z + if z <? 0 then 2 ^ (8 * Z.of_nat (num_length z) - 1) else 0).

(** Most significant first. *)
Definition be_bytes (n : nat) (z : Z) : bytes := rev (le_bytes n z).
Definition be_value (l : bytes) : Z := le_value (rev l).

(** ** The library *)

Class OpenSSLBN := {
  BN_mpi2bn : bytes -> Z;
  BN_bn2mpi : Z -> bytes;
  BN_set_word : Z -> Z;
  BN_get_word : Z -> Z;
  BN_is_negative : Z -> bool;
  BN_set_negative : Z -> bool -> Z;
  BN_add : Z -> Z -> Z;
  BN_sub : Z -> Z -> Z;
  BN_cmp : Z -> Z -> Z
}.

(** The MPI format is the length in four bytes, most significant first, and the
    number, most significant byte first, its top bit the sign.  [BN_get_word] is
    the magnitude, or the largest word if that does not fit. *)
Class BNLaws `{OpenSSLBN} : Prop := {
  mpi2bn_format l : bytes_ok l -> len l < 2 ^ 31 -> BN_mpi2bn (be_bytes 4 (len l) ++ l) = num_value (rev l);
  bn2mpi_format z : len (num_bytes z) < 2 ^ 31 ->
    BN_bn2mpi z = be_bytes 4 (len (num_bytes z)) ++ rev (num_bytes z);
  set_word_eq n : 0 <= n < 2 ^ 64 -> BN_set_word n = n;
  get_word_abs z : BN_get_word z = Z.min (Z.abs z) (2 ^ 64 - 1);
  is_negative_eq z : BN_is_negative z = (z <? 0);
  set_negative_eq z b : BN_set_negative z b = if b then - Z.abs z else Z.abs z;
  bn_add_eq a b : BN_add a b = a + b;
  bn_sub_eq a b : BN_sub a b = a - b;
  bn_cmp_lt a b : BN_cmp a b < 0 <-> a < b;
  bn_cmp_eq a b : BN_cmp a b = 0 <-> a = b
}.

(** An instance to evaluate the definitions with. *)
Definition z_bn : OpenSSLBN := {|
  BN_mpi2bn m := num_value (rev (drop 4 m));
  BN_bn2mpi z := be_bytes 4 (len (num_bytes z)) ++ rev (num_bytes z);
  BN_set_word n := n;
  BN_get_word z := Z.min (Z.abs z) (2 ^ 64 - 1);
  BN_is_negative z := z <? 0;
  BN_set_negative z b := if b then - Z.abs z else Z.abs z;
  BN_add := Z.add;
  BN_sub := Z.sub;
  BN_cmp a b := match a ?= b with Lt => -1 | Eq => 0 | Gt => 1 end
|}.

Lemma be_bytes_length n z : length (be_bytes n z) = n.
Proof. unfold be_bytes. by rewrite length_rev, le_bytes_length. Qed.

Lemma z_bn_laws : BNLaws (H := z_bn).
Proof.
  split; intros; cbn [BN_mpi2bn BN_bn2mpi BN_set_word BN_get_word BN_is_negative BN_set_negative BN_add BN_sub BN_cmp z_bn]; try done.
  - destruct (Z.compare_spec a b); split; intros; lia.
  - destruct (Z.compare_spec a b); split; intros; lia.
Qed.

(** ** The conversions of [CBigNum] *)
Section cbignum.
Context `{OpenSSLBN}.

(** The loop of [setint64] and [setuint64]: the bytes of [n] from the top, leading
    zeroes left out, a sign byte or bit on the first one written. *)
Fixpoint emit (i : nat) (n : Z) (fLeadingZeroes fNegative : bool) : bytes :=
  match i with
  | O => []
  | S i' =>
      let c := Z.land (Z.shiftr n 56) 255 in
      let n := u64 (Z.shiftl n 8) in
      if fLeadingZeroes then
        if c =? 0 then emit i' n true fNegative
        else if negb (Z.land c 128 =? 0)
        then (if fNegative then 128 else 0) :: c :: emit i' n false fNegative
        else (if fNegative then Z.lor c 128 else c) :: emit i' n false fNegative
      else c :: emit i' n false fNegative
  end.

Definition mpi (p : bytes) : bytes :=
  let nSize := len p in
  [Z.land (Z.shiftr nSize 24) 255; Z.land (Z.shiftr nSize 16) 255;
   Z.land (Z.shiftr nSize 8) 255; Z.land nSize 255] ++ p.

Definition setint64 (sn : Z) : Z :=
  let fNegative := sn <? 0 in
  let n := if fNegative then u64 (u64 (- (sn + 1)) + 1) else u64 sn in
  BN_mpi2bn (mpi (emit 8 n true fNegative)).

Definition setulong (n : Z) : Z := BN_set_word n.

(** The constructor from a [long] (or a shorter signed type), and the constructor
    from an [unsigned long]. *)
Definition CBigNum_long (n : Z) : Z := if 0 <=? n then setulong n else setint64 n.
Definition CBigNum_ulong (n : Z) : Z := setulong n.

Definition getulong (bn : Z) : Z := BN_get_word bn.

Definition setuint64 (n : Z) : Z := BN_mpi2bn (mpi (emit 8 n true false)).

(** The comparisons and the negation. *)
Definition bn_eq (a b : Z) : bool := BN_cmp a b =? 0.
Definition bn_ne (a b : Z) : bool := negb (BN_cmp a b =? 0).
Definition bn_le (a b : Z) : bool := BN_cmp a b <=? 0.
Definition bn_ge (a b : Z) : bool := 0 <=? BN_cmp a b.
Definition bn_lt (a b : Z) : bool := BN_cmp a b <? 0.
Definition bn_gt (a b : Z) : bool := 0 <? BN_cmp a b.
Definition bn_neg (a : Z) : Z := BN_set_negative a (negb (BN_is_negative a)).

(** [BN_get_word] into an [int], saturated. *)
Definition getint (bn : Z) : Z :=
  let n := BN_get_word bn in
  if negb (BN_is_negative bn) then (if 2147483647 <? n then 2147483647 else n)
  else (if 2147483647 <? n then -2147483648 else - i32 n).

Definition setvch (vch : bytes) : Z := BN_mpi2bn (mpi (rev vch)).

Definition getvch (bn : Z) : bytes :=
  let m := BN_bn2mpi bn in
  if len m <=? 4 then [] else rev (drop 4 m).

(** The vector has four bytes of length and [nSize] of number; only the lowest
    byte of the length is written. *)
Definition SetCompact (nCompact : Z) : Z :=
  let nSize := Z.shiftr nCompact 24 in
  let vch := replicate (4 + Z.to_nat nSize) 0 in
  let vch := <[3%nat := u8 nSize]> vch in
  let vch := if 1 <=? nSize then <[4%nat := Z.land (Z.shiftr nCompact 16) 255]> vch else vch in
  let vch := if 2 <=? nSize then <[5%nat := Z.land (Z.shiftr nCompact 8) 255]> vch else vch in
  let vch := if 3 <=? nSize then <[6%nat := Z.land nCompact 255]> vch else vch in
  BN_mpi2bn vch.

Definition GetCompact (bn : Z) : Z :=
  let vch := BN_bn2mpi bn in
  let nSize := u32 (len vch - 4) in
  let nCompact := u32 (Z.shiftl nSize 24) in
  let nCompact := if 1 <=? nSize then Z.lor nCompact (Z.shiftl (at_ 0 vch 4) 16) else nCompact in
  let nCompact := if 2 <=? nSize then Z.lor nCompact (Z.shiftl (at_ 0 vch 5) 8) else nCompact in
  if 3 <=? nSize then Z.lor nCompact (at_ 0 vch 6) else nCompact.
End cbignum.

(** ** Values *)

Lemma num_value_snoc l b :
  bytes_ok l -> byte_ok b ->
  num_value (l ++ [b]) =
    if 128 <=? b then - (le_value l + (b - 128) * 256 ^ len l) else le_value l + b * 256 ^ len l.
Proof.
  intros Hl Hb. unfold num_value, byte_ok in *.
  replace (8 * len (l ++ [b]) - 1) with (8 * len l + 7) by (rewrite len_app, len_cons; unfold len at 3; simpl; lia).
  assert (le_value (l ++ [b]) = le_value l + b * 2 ^ (8 * len l)) as ->.
  { rewrite le_value_app. unfold len. cbn [le_value]. ring. }
  pose proof (le_value_range l Hl) as Hr. fold (len l) in Hr. pose proof (len_pos l).
  rewrite <-(lor_shiftl (le_value l) b (8 * len l)) by lia.
  rewrite Z.lor_spec, Z.shiftl_spec, (testbit_high _ (8 * len l)) by lia. cbn [orb].
  replace (8 * len l + 7 - 8 * len l) with 7 by lia.
  rewrite lor_shiftl by lia. replace (256 ^ len l) with (2 ^ (8 * len l)) by
    (rewrite Z.pow_mul_r by lia; done).
  rewrite Z.pow_add_r by lia. change (2 ^ 7) with 128.
  rewrite Z.testbit_odd, Z.shiftr_div_pow2 by lia. change (2 ^ 7) with 128.
  destruct (Z.leb_spec 128 b).
  - replace (b / 128) with 1 by (apply (Z.div_unique b 128 1 (b - 128)); lia). simpl. ring.
  - rewrite Z.div_small by lia. simpl. done.
Qed.

Lemma num_length_bound z : z <> 0 -> Z.abs z < 2 ^ (8 * Z.of_nat (num_length z) - 1).
Proof.
  intros Hz. unfold num_length. destruct (Z.eqb_spec z 0); [done|].
  pose proof (Z.log2_nonneg (Z.abs z)). rewrite Z2Nat.id by (apply Z.add_nonneg_nonneg; [apply Z.div_pos|]; lia).
  pose proof (Z.div_mod (Z.log2 (Z.abs z) + 1) 8). pose proof (Z.mod_pos_bound (Z.log2 (Z.abs z) + 1) 8).
  eapply Z.lt_le_trans; [apply Z.log2_spec; lia|]. apply Z.pow_le_mono_r; lia.
Qed.

Lemma num_length_pos z : z <> 0 -> (0 < num_length z)%nat.
Proof.
  intros Hz. unfold num_length. destruct (Z.eqb_spec z 0); [done|].
  pose proof (Z.log2_nonneg (Z.abs z)). pose proof (Z.div_pos (Z.log2 (Z.abs z) + 1) 8). lia.
Qed.

Lemma num_bytes_length z : length (num_bytes z) = num_length z.
Proof. apply le_bytes_length. Qed.

Lemma num_bytes_ok z : bytes_ok (num_bytes z).
Proof. apply le_bytes_ok. Qed.

Lemma num_value_bytes z : num_value (num_bytes z) = z.
Proof.
  destruct (decide (z = 0)) as [->|Hz]; [done|].
  pose proof (num_length_bound z Hz) as Hb. pose proof (num_length_pos z Hz) as Hp.
  unfold num_value, num_bytes, len. rewrite le_bytes_length. set (n := Z.of_nat (num_length z)) in *.
  assert (1 <= n) by lia.
  assert (2 ^ (8 * n) = 2 * 2 ^ (8 * n - 1)) as E by (rewrite <-Z.pow_succ_r by lia; f_equal; lia).
  rewrite le_value_bytes_id by (fold n; destruct (Z.ltb_spec z 0); lia).
  rewrite Z.testbit_odd, Z.shiftr_div_pow2 by lia.
  destruct (Z.ltb_spec z 0).
  - replace ((Z.abs z + 2 ^ (8 * n - 1)) / 2 ^ (8 * n - 1)) with 1; [cbn [Z.odd]; lia|].
    apply (Z.div_unique_pos _ _ 1 (Z.abs z)); lia.
  - rewrite Z.add_0_r, Z.div_small by lia. cbn [Z.odd]. lia.
Qed.

Lemma num_be_value_bytes n z : 0 <= z < 2 ^ (8 * Z.of_nat n) -> be_value (be_bytes n z) = z.
Proof. intros. unfold be_value, be_bytes. rewrite rev_involutive. by apply le_value_bytes_id. Qed.

Lemma be_bytes_succ n z : be_bytes (S n) z = z / 2 ^ (8 * Z.of_nat n) mod 256 :: be_bytes n z.
Proof.
  unfold be_bytes. assert (forall z, le_bytes (S n) z = le_bytes n z ++ [z / 2 ^ (8 * Z.of_nat n) mod 256]) as ->.
  { clear. induction n as [|n IH]; intros z; [simpl; by rewrite Z.div_1_r|].
    cbn [le_bytes app]. f_equal. change (z / 256 mod 256 :: le_bytes n (z / 256 / 256)) with (le_bytes (S n) (z / 256)).
    rewrite IH. do 3 f_equal. rewrite Z.div_div by lia. f_equal.
    replace (8 * Z.of_nat (S n)) with (8 + 8 * Z.of_nat n) by lia. by rewrite Z.pow_add_r by lia. }
  by rewrite rev_app_distr.
Qed.

Lemma top_bit c :
  byte_ok c -> (Z.land c 128 =? 0) = (c <? 128) /\ (c < 128 -> Z.lor c 128 = c + 128).
Proof.
  intros Hc. pose proof (byte_cases (fun c => eqb (Z.land c 128 =? 0) (c <? 128) &&
    implb (c <? 128) (Z.lor c 128 =? c + 128)) eq_refl c Hc) as E. cbv beta in E. bool_prop.
  apply eqb_prop in H. split; [done|]. intros Hl. apply Z.ltb_lt in Hl. rewrite Hl in H0. cbn in H0. lia.
Qed.

(** A register that holds the [i] bytes of [m] at its top. *)
Lemma emit_register i m :
  (i < 8)%nat -> 0 <= m < 2 ^ (8 * Z.of_nat (S i)) ->
  let n := m * 2 ^ (8 * (7 - Z.of_nat i)) in
  Z.land (Z.shiftr n 56) 255 = m / 2 ^ (8 * Z.of_nat i) /\
  u64 (Z.shiftl n 8) = m mod 2 ^ (8 * Z.of_nat i) * 2 ^ (8 * (8 - Z.of_nat i)).
Proof.
  intros Hi Hm n. set (k := 8 * Z.of_nat i) in *.
  assert (2 ^ 56 = 2 ^ k * 2 ^ (8 * (7 - Z.of_nat i))) as E56 by (rewrite <-Z.pow_add_r by lia; f_equal; lia).
  assert (0 < 2 ^ (8 * (7 - Z.of_nat i))) by (apply Z.pow_pos_nonneg; lia).
  assert (0 < 2 ^ k) by (apply Z.pow_pos_nonneg; lia).
  split.
  - rewrite land_ff, Z.shiftr_div_pow2 by lia. unfold n. rewrite E56, Z.div_mul_cancel_r by lia.
    apply Z.mod_small. split; [apply Z.div_pos; lia|].
    apply Z.div_lt_upper_bound; [done|]. replace (8 * Z.of_nat (S i)) with (8 + k) in Hm by lia.
    rewrite Z.pow_add_r in Hm by lia. lia.
  - unfold u64, n. rewrite Z.shiftl_mul_pow2 by lia.
    rewrite <-Z.mul_assoc, <-Z.pow_add_r by lia.
    replace (8 * (7 - Z.of_nat i) + 8) with (8 * (8 - Z.of_nat i)) by lia.
    replace (2 ^ 64) with (2 ^ k * 2 ^ (8 * (8 - Z.of_nat i))) by
      (rewrite <-Z.pow_add_r by lia; f_equal; lia).
    apply Z.mul_mod_distr_r; apply Z.pow_nonzero; lia.
Qed.

Lemma emit_tail fNegative i m :
  (i <= 8)%nat -> 0 <= m < 2 ^ (8 * Z.of_nat i) ->
  emit i (m * 2 ^ (8 * (8 - Z.of_nat i))) false fNegative = be_bytes i m.
Proof.
  revert m. induction i as [|i IH]; intros m Hi Hm; [done|].
  rewrite be_bytes_succ. cbn [emit].
  replace (8 - Z.of_nat (S i)) with (7 - Z.of_nat i) by lia.
  destruct (emit_register i m ltac:(lia) Hm) as [-> ->].
  rewrite IH; [|lia|apply Z.mod_pos_bound, Z.pow_pos_nonneg; lia].
  assert (m / 2 ^ (8 * Z.of_nat i) mod 256 = m / 2 ^ (8 * Z.of_nat i)) as ->.
  { apply Z.mod_small. split; [apply Z.div_pos; [lia|apply Z.pow_pos_nonneg; lia]|].
       apply Z.div_lt_upper_bound; [apply Z.pow_pos_nonneg; lia|].
       replace (8 * Z.of_nat (S i)) with (8 * Z.of_nat i + 8) in Hm by lia.
       rewrite Z.pow_add_r in Hm by lia. lia. }
  f_equal. unfold be_bytes. f_equal. apply le_value_inj; [apply le_bytes_ok..|by rewrite !le_bytes_length|].
  by rewrite !le_value_bytes, Z.mod_mod by (apply Z.pow_nonzero; lia).
Qed.

Lemma emit_head fNegative i m :
  (i <= 8)%nat -> 0 <= m < 2 ^ (8 * Z.of_nat i) ->
  let p := emit i (m * 2 ^ (8 * (8 - Z.of_nat i))) true fNegative in
  bytes_ok p /\ (length p <= S i)%nat /\ num_value (rev p) = if fNegative then - m else m.
Proof.
  revert m. induction i as [|i IH]; intros m Hi Hm p; subst p.
  { assert (m = 0) as -> by (simpl in Hm; lia). simpl. split_and!; [constructor|lia|by destruct fNegative]. }
  cbn [emit]. replace (8 - Z.of_nat (S i)) with (7 - Z.of_nat i) by lia.
  destruct (emit_register i m ltac:(lia) Hm) as [-> ->].
  assert (0 < 2 ^ (8 * Z.of_nat i)) as Hp by (apply Z.pow_pos_nonneg; lia).
  pose proof (Z.div_mod m (2 ^ (8 * Z.of_nat i)) ltac:(lia)) as Em.
  pose proof (Z.mod_pos_bound m (2 ^ (8 * Z.of_nat i)) Hp) as Hr.
  assert (0 <= m / 2 ^ (8 * Z.of_nat i) < 256) as Hc.
  { split; [apply Z.div_pos; lia|]. apply Z.div_lt_upper_bound; [done|].
    replace (8 * Z.of_nat (S i)) with (8 * Z.of_nat i + 8) in Hm by lia.
    rewrite Z.pow_add_r in Hm by lia. lia. }
  set (c := m / 2 ^ (8 * Z.of_nat i)) in *. set (r := m mod 2 ^ (8 * Z.of_nat i)) in *.
  destruct (Z.eqb_spec c 0) as [E|Hc0].
  { destruct (IH r ltac:(lia) Hr) as (H1 & H2 & H3). split_and!; [done|lia|].
    rewrite H3. rewrite Em, E. by rewrite Z.mul_0_r. }
  rewrite emit_tail by (done || lia).
  assert (bytes_ok (be_bytes i r)) as Hb by (apply Forall_rev, le_bytes_ok).
  assert (rev (be_bytes i r) = le_bytes i r) as Er by apply rev_involutive.
  assert (256 ^ len (le_bytes i r) = 2 ^ (8 * Z.of_nat i)) as E256.
  { unfold len. rewrite le_bytes_length. by rewrite (Z.pow_mul_r 2 8) by lia. }
  assert (le_value (le_bytes i r) = r) as Ev by (by apply le_value_bytes_id).
  destruct (top_bit c Hc) as [-> Hlor]. destruct (Z.ltb_spec c 128) as [Hlt|Hge]; cbn [negb].
  - destruct fNegative.
    + rewrite Hlor by done. split_and!; [constructor; [unfold byte_ok; lia|done]|simpl; rewrite be_bytes_length; lia|].
      cbn [rev]. rewrite Er, num_value_snoc, Ev, E256 by (apply le_bytes_ok || unfold byte_ok; lia).
      destruct (Z.leb_spec 128 (c + 128)); lia.
    + split_and!; [by constructor|simpl; rewrite be_bytes_length; lia|].
      cbn [rev]. rewrite Er, num_value_snoc, Ev, E256 by (apply le_bytes_ok || done).
      destruct (Z.leb_spec 128 c); lia.
  - assert (bytes_ok (le_bytes i r ++ [c])) as Hsn by (apply bytes_ok_app; split; [apply le_bytes_ok|by constructor]).
    assert (le_value (le_bytes i r ++ [c]) = m) as Evm.
    { rewrite le_value_app, Ev, le_bytes_length. cbn [le_value]. lia. }
    split_and!; [constructor; [by destruct fNegative|by constructor]|simpl; rewrite be_bytes_length; lia|].
    cbn [rev]. rewrite Er, num_value_snoc, Evm by (done || by destruct fNegative).
    destruct fNegative; cbn [Z.leb Z.compare Pos.compare Pos.compare_cont]; lia.
Qed.

Section cbignum_lemmas.
Context `{BNLaws}.

Lemma mpi_be p : len p < 2 ^ 32 -> mpi p = be_bytes 4 (len p) ++ p.
Proof.
  intros Hp. unfold mpi. f_equal. pose proof (len_pos p). unfold be_bytes. cbn [le_bytes rev app].
  rewrite !land_ff, !Z.shiftr_div_pow2 by lia. rewrite !Z.div_div by lia. done.
Qed.

Theorem setvch_value l : bytes_ok l -> len l < 2 ^ 31 -> setvch l = num_value l.
Proof.
  intros Hl Hn. unfold setvch. assert (len (rev l) = len l) as E by (unfold len; by rewrite length_rev).
  rewrite mpi_be by lia. rewrite mpi2bn_format; [by rewrite rev_involutive| |lia].
  by apply Forall_rev.
Qed.

Lemma getvch_bytes z : len (num_bytes z) < 2 ^ 31 -> getvch z = num_bytes z.
Proof.
  intros Hn. unfold getvch. rewrite bn2mpi_format by done. rewrite len_app.
  unfold len at 1. rewrite be_bytes_length. unfold len at 1. rewrite length_rev. fold (len (num_bytes z)).
  destruct (Z.leb_spec (Z.of_nat 4 + len (num_bytes z)) 4).
  - symmetry. apply len_zero. pose proof (len_pos (num_bytes z)). lia.
  - by rewrite drop_app_length' by (by rewrite be_bytes_length); rewrite rev_involutive.
Qed.

Lemma num_length_le z n : Z.abs z < 2 ^ (8 * Z.of_nat n - 1) -> (num_length z <= n)%nat.
Proof.
  intros Hz. unfold num_length. destruct (Z.eqb_spec z 0); [lia|].
  assert (Z.log2 (Z.abs z) < 8 * Z.of_nat n - 1) by (apply Z.log2_lt_pow2; lia).
  pose proof (Z.log2_nonneg (Z.abs z)).
  pose proof (Z.div_mod (Z.log2 (Z.abs z) + 1) 8). pose proof (Z.mod_pos_bound (Z.log2 (Z.abs z) + 1) 8). lia.
Qed.

Lemma num_bytes_len z n : Z.abs z < 2 ^ (8 * Z.of_nat n - 1) -> len (num_bytes z) <= Z.of_nat n.
Proof. intros Hz. unfold len. rewrite num_bytes_length. pose proof (num_length_le z n Hz). lia. Qed.

Lemma emit_all fNegative n :
  0 <= n < 2 ^ 64 -> BN_mpi2bn (mpi (emit 8 n true fNegative)) = if fNegative then - n else n.
Proof.
  intros Hn. pose proof (emit_head fNegative 8 n ltac:(lia) Hn) as E.
  change (8 * (8 - Z.of_nat 8)) with 0 in E. rewrite Z.mul_1_r in E. cbv zeta in E.
  destruct E as (Hok & Hlen & <-).
  assert (len (emit 8 n true fNegative) < 2 ^ 31) by (unfold len; lia).
  rewrite mpi_be by lia. by apply mpi2bn_format.
Qed.

Theorem setint64_value sn : - 2 ^ 63 <= sn < 2 ^ 63 -> setint64 sn = sn.
Proof.
  intros Hsn. unfold setint64. destruct (Z.ltb_spec sn 0).
  - rewrite (u64_id (- (sn + 1))), u64_id, emit_all by lia. lia.
  - by rewrite u64_id, emit_all by lia.
Qed.

Theorem setuint64_value n : 0 <= n < 2 ^ 64 -> setuint64 n = n.
Proof. intros Hn. unfold setuint64. by rewrite emit_all. Qed.

Theorem setvch_getvch z : len (num_bytes z) < 2 ^ 31 -> setvch (getvch z) = z.
Proof.
  intros Hz. rewrite getvch_bytes by done. rewrite setvch_value by (done || apply num_bytes_ok).
  apply num_value_bytes.
Qed.

Lemma CBigNum_long_value n : - 2 ^ 63 <= n < 2 ^ 63 -> CBigNum_long n = n.
Proof.
  intros Hn. unfold CBigNum_long, setulong. destruct (Z.leb_spec 0 n).
  - apply set_word_eq. lia.
  - apply setint64_value. lia.
Qed.

Lemma CBigNum_ulong_value n : 0 <= n < 2 ^ 64 -> CBigNum_ulong n = n.
Proof. apply set_word_eq. Qed.

Lemma bn_lt_value a b : bn_lt a b = (a <? b).
Proof.
  unfold bn_lt. pose proof (bn_cmp_lt a b). destruct (Z.ltb_spec a b), (Z.ltb_spec (BN_cmp a b) 0); try done; lia.
Qed.
Lemma bn_eq_value a b : bn_eq a b = (a =? b).
Proof.
  unfold bn_eq. pose proof (bn_cmp_eq a b). destruct (Z.eqb_spec a b), (Z.eqb_spec (BN_cmp a b) 0); try done; lia.
Qed.
Lemma bn_ne_value a b : bn_ne a b = negb (a =? b).
Proof. unfold bn_ne. f_equal. apply bn_eq_value. Qed.
Lemma bn_ge_value a b : bn_ge a b = (b <=? a).
Proof.
  unfold bn_ge. pose proof (bn_cmp_lt a b). destruct (Z.leb_spec b a), (Z.leb_spec 0 (BN_cmp a b)); try done; lia.
Qed.
Lemma bn_le_value a b : bn_le a b = (a <=? b).
Proof.
  unfold bn_le. pose proof (bn_cmp_lt a b). pose proof (bn_cmp_eq a b).
  destruct (Z.leb_spec a b), (Z.leb_spec (BN_cmp a b) 0); try done; lia.
Qed.
Lemma bn_gt_value a b : bn_gt a b = (b <? a).
Proof.
  unfold bn_gt. pose proof (bn_cmp_lt a b). pose proof (bn_cmp_eq a b).
  destruct (Z.ltb_spec b a), (Z.ltb_spec 0 (BN_cmp a b)); try done; lia.
Qed.
Lemma bn_neg_value a : bn_neg a = - a.
Proof.
  unfold bn_neg. rewrite is_negative_eq, set_negative_eq. destruct (Z.ltb_spec a 0); cbn [negb]; lia.
Qed.

(** The saturation of [getint] is that of the integer. *)
Theorem getint_value z : getint z = Z.max (- 2 ^ 31) (Z.min (2 ^ 31 - 1) z).
Proof.
  unfold getint. rewrite get_word_abs, is_negative_eq.
  destruct (Z.ltb_spec z 0), (Z.ltb_spec 2147483647 (Z.min (Z.abs z) (2 ^ 64 - 1))); cbn [negb]; try lia.
  rewrite i32_id by lia. lia.
Qed.

(** ** The compact form *)

Definition compact_word (nSize b1 b2 b3 : Z) : Z := b3 + 2 ^ 8 * b2 + 2 ^ 16 * b1 + 2 ^ 24 * nSize.

Lemma SetCompact_word nSize b1 b2 b3 :
  0 <= nSize < 256 -> byte_ok b1 -> byte_ok b2 -> byte_ok b3 ->
  SetCompact (compact_word nSize b1 b2 b3) =
    num_value (rev (take (Z.to_nat nSize) ([b1; b2; b3] ++ replicate (Z.to_nat nSize - 3) 0))).
Proof.
  intros Hn H1 H2 H3. unfold byte_ok in *. set (w := compact_word nSize b1 b2 b3).
  assert (Z.shiftr w 24 = nSize) as E24.
  { rewrite Z.shiftr_div_pow2 by lia. symmetry.
    apply (Z.div_unique_pos _ _ _ (b3 + 2 ^ 8 * b2 + 2 ^ 16 * b1)); unfold w, compact_word; lia. }
  assert (Z.land (Z.shiftr w 16) 255 = b1) as E16.
  { rewrite land_ff, Z.shiftr_div_pow2 by lia.
    replace (w / 2 ^ 16) with (b1 + 256 * nSize).
    - rewrite Z.mul_comm, Z.mod_add by lia. apply Z.mod_small. lia.
    - apply (Z.div_unique_pos _ _ _ (b3 + 2 ^ 8 * b2)); unfold w, compact_word; lia. }
  assert (Z.land (Z.shiftr w 8) 255 = b2) as E8.
  { rewrite land_ff, Z.shiftr_div_pow2 by lia.
    replace (w / 2 ^ 8) with (b2 + (b1 + 256 * nSize) * 256).
    - rewrite Z.mod_add by lia. apply Z.mod_small. lia.
    - apply (Z.div_unique_pos _ _ _ b3); unfold w, compact_word; lia. }
  assert (Z.land w 255 = b3) as E0.
  { rewrite land_ff. replace w with (b3 + (b2 + (b1 + 256 * nSize) * 256) * 256) by (unfold w, compact_word; lia).
    rewrite Z.mod_add by lia. apply Z.mod_small. lia. }
  unfold SetCompact. rewrite E24, E16, E8, E0, u8_id by lia.
  set (v := take (Z.to_nat nSize) _).
  assert (len v = nSize) as Hlv.
  { unfold len, v. rewrite length_take, length_app, length_replicate. simpl. lia. }
  assert (bytes_ok v) as Hv.
  { apply bytes_ok_take, bytes_ok_app. split; [by repeat (constructor; [done|])|apply bytes_ok_zeros]. }
  rewrite <-mpi2bn_format by (done || lia). f_equal. rewrite Hlv.
  assert (be_bytes 4 nSize = [0; 0; 0; nSize]) as ->.
  { unfold be_bytes. cbn [le_bytes rev app]. rewrite !(Z.div_small nSize) by lia.
    by rewrite (Z.mod_small nSize) by lia. }
  unfold v. clear - Hn. destruct (Z.leb_spec 3 nSize).
  - destruct (Z.leb_spec 1 nSize), (Z.leb_spec 2 nSize); try lia.
    replace (Z.to_nat nSize) with (3 + (Z.to_nat nSize - 3))%nat by lia.
    replace (3 + (Z.to_nat nSize - 3) - 3)%nat with (Z.to_nat nSize - 3)%nat by lia.
    simpl. by rewrite take_ge by (rewrite length_replicate; lia).
  - destruct (decide (nSize <= 0)).
    + assert (nSize = 0) as -> by lia. reflexivity.
    + assert (nSize = 1 \/ nSize = 2) as [->| ->] by lia; reflexivity.
Qed.

(** The three most significant bytes, as [GetCompact] packs them. *)
Lemma GetCompact_word z :
  (num_length z < 256)%nat ->
  let b i := at_ 0 (rev (num_bytes z)) i in
  GetCompact z = compact_word (len (num_bytes z)) (b 0) (b 1) (b 2).
Proof.
  intros Hz b. assert (len (num_bytes z) < 256) as Hl by (unfold len; rewrite num_bytes_length; lia).
  pose proof (len_pos (num_bytes z)) as Hp.
  unfold GetCompact. rewrite bn2mpi_format by lia. rewrite len_app.
  set (r := rev (num_bytes z)) in *.
  assert (len r = len (num_bytes z)) as Er by (unfold len, r; by rewrite length_rev).
  assert (bytes_ok r) as Hr by (apply Forall_rev, num_bytes_ok).
  rewrite Er. replace (len (be_bytes 4 (len (num_bytes z)))) with 4 by (unfold len; by rewrite be_bytes_length).
  replace (4 + len (num_bytes z) - 4) with (len (num_bytes z)) by lia.
  set (n := len (num_bytes z)) in *.
  assert (forall i, 0 <= i -> at_ 0 (be_bytes 4 n ++ r) (4 + i) = b i) as Eb.
  { intros i Hi. unfold b. rewrite <-(drop_app_length' (be_bytes 4 n) r 4) by (by rewrite be_bytes_length).
    by rewrite at_drop by done. }
  assert (at_ 0 (be_bytes 4 n ++ r) 4 = b 0 /\ at_ 0 (be_bytes 4 n ++ r) 5 = b 1 /\
          at_ 0 (be_bytes 4 n ++ r) 6 = b 2) as (-> & -> & ->) by (split_and!; [apply (Eb 0)|apply (Eb 1)|apply (Eb 2)]; lia).
  assert (forall i, 0 <= i -> byte_ok (b i) /\ (n <= i -> b i = 0)) as Hb.
  { intros i Hi. split; [by apply at_byte_ok|]. intros Hle. apply at_beyond. lia. }
  clearbody b n. clear Eb Er Hr r Hz z. unfold byte_ok in Hb.
  pose proof (Hb 0 ltac:(lia)). pose proof (Hb 1 ltac:(lia)). pose proof (Hb 2 ltac:(lia)). clear Hb.
  rewrite (u32_id n), Z.shiftl_mul_pow2, u32_id by lia. unfold compact_word.
  assert ((if 1 <=? n then Z.lor (n * 2 ^ 24) (Z.shiftl (b 0) 16) else n * 2 ^ 24) = (b 0 + n * 2 ^ 8) * 2 ^ 16) as ->.
  { destruct (Z.leb_spec 1 n); [|lia]. rewrite <-Z.shiftl_mul_pow2, Z.lor_comm by lia.
    rewrite (Z.shiftl_mul_pow2 (b 0)), lor_shiftl by lia. lia. }
  assert ((if 2 <=? n then Z.lor ((b 0 + n * 2 ^ 8) * 2 ^ 16) (Z.shiftl (b 1) 8) else (b 0 + n * 2 ^ 8) * 2 ^ 16)
    = (b 1 + b 0 * 2 ^ 8 + n * 2 ^ 16) * 2 ^ 8) as ->.
  { destruct (Z.leb_spec 2 n); [|lia]. rewrite <-Z.shiftl_mul_pow2, Z.lor_comm by lia.
    rewrite (Z.shiftl_mul_pow2 (b 1)), lor_shiftl by lia. lia. }
  destruct (Z.leb_spec 3 n); [|lia]. rewrite <-Z.shiftl_mul_pow2, Z.lor_comm by lia.
  rewrite lor_shiftl by lia. lia.
Qed.

Lemma compact_bytes z :
  (num_length z < 256)%nat ->
  SetCompact (GetCompact z) =
    num_value (replicate (num_length z - 3) 0 ++ drop (num_length z - 3) (num_bytes z)).
Proof.
  intros Hz. rewrite GetCompact_word by done. set (r := rev (num_bytes z)).
  assert (length r = num_length z) as Hl by (unfold r; by rewrite length_rev, num_bytes_length).
  assert (len (num_bytes z) = Z.of_nat (num_length z)) as -> by (unfold len; by rewrite num_bytes_length).
  assert (bytes_ok r) as Hr by (apply Forall_rev, num_bytes_ok).
  assert (forall i, byte_ok (at_ 0 r i)) as Hb.
  { intros i. by apply at_byte_ok. }
  rewrite SetCompact_word by (lia || apply Hb). rewrite Nat2Z.id. f_equal.
  rewrite <-(rev_involutive (_ ++ drop _ _)). f_equal. rewrite rev_app_distr, (rev_alt (replicate _ _)), (reverse_replicate _ 0 : rev_append _ [] = _).
  assert (rev (drop (num_length z - 3) (num_bytes z)) = take 3 r) as ->.
  { unfold r. rewrite firstn_rev. by rewrite num_bytes_length. }
  rewrite <-Hl. clearbody r. clear. destruct r as [|x [|y [|w r]]]; [done..|].
  cbn [at_ length]. replace (S (S (S (length r))) - 3)%nat with (length r) by lia.
  cbn. by rewrite take_ge by (rewrite length_replicate; lia).
Qed.

(** A target that goes through its compact form and back is rounded down: its
    three leading bytes stay, and the bytes below them are cleared. *)
Theorem compact_rounds z :
  0 <= z -> (num_length z < 256)%nat ->
  let k := 8 * (Z.of_nat (num_length z) - 3) `max` 0 in
  SetCompact (GetCompact z) = z / 2 ^ k * 2 ^ k.
Proof.
  intros Hz Hl k. rewrite compact_bytes by done. set (m := (num_length z - 3)%nat).
  assert (k = 8 * Z.of_nat m) as -> by (unfold m, k; lia).
  assert (le_value (num_bytes z) = z) as Ez.
  { unfold num_bytes. destruct (Z.ltb_spec z 0); [lia|]. rewrite Z.add_0_r, Z.abs_eq by lia.
    apply le_value_bytes_id. destruct (decide (z = 0)) as [->|]; [done|].
    pose proof (num_length_bound z ltac:(done)) as Hb. rewrite Z.abs_eq in Hb by lia.
    split; [done|]. eapply Z.lt_le_trans; [apply Hb|]. apply Z.pow_le_mono_r; lia. }
  assert (m <= length (num_bytes z))%nat as Hm by (rewrite num_bytes_length; unfold m; lia).
  assert (0 < 2 ^ (8 * Z.of_nat m)) as Hp by (apply Z.pow_pos_nonneg; lia).
  assert (le_value (drop m (num_bytes z)) = z / 2 ^ (8 * Z.of_nat m)) as Ed.
  { pose proof (le_value_app (take m (num_bytes z)) (drop m (num_bytes z))) as E.
    rewrite take_drop, Ez, length_take, Nat.min_l in E by done.
    pose proof (le_value_range (take m (num_bytes z)) (bytes_ok_take _ _ (num_bytes_ok z))) as Hr.
    rewrite length_take, Nat.min_l in Hr by done.
    apply (Z.div_unique_pos _ _ _ (le_value (take m (num_bytes z)))); lia. }
  unfold num_value. rewrite le_value_app, Ed, length_replicate.
  assert (le_value (replicate m 0) = 0) as -> by (clear; induction m; simpl; lia).
  rewrite Z.add_0_l, (Z.mul_comm (2 ^ _)).
  replace (len (replicate m 0 ++ drop m (num_bytes z))) with (Z.of_nat (num_length z))
    by (unfold len; rewrite length_app, length_replicate, length_drop, num_bytes_length in *; lia).
  destruct (decide (z = 0)) as [->|Hnz]; [done|].
  pose proof (num_length_bound z Hnz) as Hb. pose proof (num_length_pos z Hnz). rewrite Z.abs_eq in Hb by lia.
  rewrite (testbit_high _ (8 * Z.of_nat (num_length z) - 1)); [done| |lia..].
  pose proof (Z.mul_div_le z (2 ^ (8 * Z.of_nat m)) Hp). pose proof (Z.div_pos z (2 ^ (8 * Z.of_nat m))). nia.
Qed.
End cbignum_lemmas.

Lemma compact_rounds_witness :
  @SetCompact z_bn (@GetCompact z_bn (2 ^ 235 - 1)) = 0x07ffff * 2 ^ 216.
Proof.
  rewrite (@compact_rounds z_bn z_bn_laws (2 ^ 235 - 1)); [vm_compute; reflexivity|lia|].
  vm_compute. repeat constructor.
Defined.

End BigNum.
