(* ===== verification/BigArith.v ===== *)
(** * Arithmetic of big numbers ([src/bignum.h])

    The products, quotients and shifts of [CBigNum] and its conversions from and to
    [uint256].  The library's functions are a class of their own next to
    [OpenSSLBN]; [z_arith] is an instance to evaluate with. *)

From S2P Require Import Prelude Crypto BigNum.
Import BigNum.

Module BigArith.

(** [BN_div] is the quotient and the remainder, the quotient towards zero. *)
Class OpenSSLBNArith := {
  BN_mul : Z -> Z -> Z;
  BN_div : Z -> Z -> Z * Z;
  BN_lshift : Z -> Z -> Z
}.

Class BNArithLaws `{OpenSSLBNArith} : Prop := {
  bn_mul_eq a b : BN_mul a b = a * b;
  bn_div_eq a b : b <> 0 -> BN_div a b = (Z.quot a b, Z.rem a b);
  bn_lshift_eq a n : 0 <= n -> BN_lshift a n = a * 2 ^ n
}.

Definition z_arith : OpenSSLBNArith := {| BN_mul := Z.mul; BN_div a b := (Z.quot a b, Z.rem a b); BN_lshift := Z.shiftl |}.
Lemma z_arith_laws : BNArithLaws (H := z_arith).
Proof. split; intros; cbn; [done|done|by rewrite Z.shiftl_mul_pow2]. Qed.

Section cbignum.
Context `{OpenSSLBN} `{OpenSSLBNArith}.

Definition bn_mul (a b : Z) : Z := BN_mul a b.
Definition bn_div (a b : Z) : Z := (BN_div a b).1.
Definition bn_add (a b : Z) : Z := BN_add a b.
Definition bn_shl (a : Z) (shift : Z) : Z := BN_lshift a shift.

(** The loop of [setuint256] over the bytes from the top. *)
Fixpoint emit256 (l : bytes) : bytes :=
  match l with
  | [] => []
  | c :: l' => if c =? 0 then emit256 l' else if negb (Z.land c 128 =? 0) then 0 :: c :: l' else c :: l'
  end.
Definition setuint256 (n : uint256) : Z := BN_mpi2bn (mpi (emit256 (rev (uint256_bytes n)))).

(** The bytes from the end of the vector, into the 32 of a number that was zero. *)
Definition getuint256 (bn : Z) : uint256 :=
  let vch := BN_bn2mpi bn in
  if len vch <? 4 then 0
  else
    let vch := if 4 <? len vch then <[4%nat := Z.land (at_ 0 vch 4) 127]> vch else vch in
    le_value (take 32 (rev (drop 4 vch))).
Definition getuint64 (bn : Z) : Z :=
  let vch := BN_bn2mpi bn in
  if len vch <? 4 then 0
  else
    let vch := if 4 <? len vch then <[4%nat := Z.land (at_ 0 vch 4) 127]> vch else vch in
    le_value (take 8 (rev (drop 4 vch))).
End cbignum.

Section laws.
Context `{OpenSSLBN} `{OpenSSLBNArith} `{!BNLaws} `{!BNArithLaws}.

Lemma emit256_value l :
  bytes_ok l -> bytes_ok (emit256 l) /\ (length (emit256 l) <= S (length l))%nat /\ num_value (rev (emit256 l)) = be_value l.
Proof.
  induction 1 as [|c l Hc Hl IH]; [split_and!; [constructor|simpl; lia|done]|]. cbn [emit256].
  assert (be_value (c :: l) = be_value l + c * 256 ^ len l) as Ev.
  { unfold be_value. cbn [rev]. rewrite le_value_app, length_rev. cbn [le_value]. unfold len.
    rewrite Z.pow_mul_r by lia. change (2 ^ 8) with 256. ring. }
  destruct (Z.eqb_spec c 0) as [->|Hc0].
  { destruct IH as (I1 & I2 & I3). split_and!; [done|simpl; lia|]. rewrite I3, Ev. lia. }
  destruct (top_bit c Hc) as [-> _]. unfold byte_ok in Hc. destruct (Z.ltb_spec c 128); cbn [negb].
  - split_and!; [by constructor|simpl; lia|]. cbn [rev]. rewrite num_value_snoc by (unfold byte_ok; first [lia|by apply Forall_rev]).
    destruct (Z.leb_spec 128 c); [lia|]. rewrite Ev. unfold be_value, len. by rewrite length_rev.
  - split_and!; [constructor; [unfold byte_ok; lia|by constructor]|simpl; lia|]. cbn [rev].
    rewrite num_value_snoc by (first [done|apply Forall_app; split; [by apply Forall_rev|by constructor]]).
    destruct (Z.leb_spec 128 0); [lia|]. rewrite Z.mul_0_l, Z.add_0_r. done.
Qed.

Lemma setuint256_value n : 0 <= n < 2 ^ 256 -> setuint256 n = n.
Proof.
  intros Hn. unfold setuint256. assert (bytes_ok (rev (uint256_bytes n))) as Hb by (apply Forall_rev, le_bytes_ok).
  destruct (emit256_value _ Hb) as (E1 & E2 & E3). rewrite length_rev, uint256_bytes_length in E2.
  assert (len (emit256 (rev (uint256_bytes n))) < 2 ^ 31) by (unfold len; lia).
  rewrite mpi_be, mpi2bn_format, E3 by (done || lia). unfold be_value. rewrite rev_involutive. by apply le_value_bytes_id.
Qed.

(** The bytes of a number that is not negative are those of its value. *)
Lemma num_bytes_nonneg z : 0 <= z -> num_bytes z = le_bytes (num_length z) z /\ z < 2 ^ (8 * Z.of_nat (num_length z)) /\
  forall b, last (num_bytes z) = Some b -> 0 <= b < 128.
Proof.
  intros Hz. unfold num_bytes. destruct (Z.ltb_spec z 0); [lia|]. rewrite Z.abs_eq, Z.add_0_r by done. split; [done|].
  destruct (decide (z = 0)) as [->|Hnz]; [done|].
  pose proof (num_length_bound z Hnz) as Hb. pose proof (num_length_pos z Hnz) as Hp. rewrite Z.abs_eq in Hb by done.
  destruct (num_length z) as [|k]; [lia|]. split.
  - eapply Z.lt_le_trans; [apply Hb|]. apply Z.pow_le_mono_r; lia.
  - intros b Eb. pose proof (be_bytes_succ k z) as Es. unfold be_bytes in Es.
    apply (f_equal (@rev Z)) in Es. rewrite rev_involutive in Es. rewrite Es in Eb. cbn [rev] in Eb.
    rewrite last_app in Eb. cbn in Eb. injection Eb as <-.
    assert (0 <= z / 2 ^ (8 * Z.of_nat k) < 128).
    { split; [apply Z.div_pos; [done|apply Z.pow_pos_nonneg; lia]|]. apply Z.div_lt_upper_bound; [apply Z.pow_pos_nonneg; lia|].
      replace (8 * Z.of_nat (S k) - 1) with (8 * Z.of_nat k + 7) in Hb by lia. rewrite Z.pow_add_r in Hb by lia. exact Hb. }
    by rewrite Z.mod_small by lia.
Qed.

Lemma le_value_take n l : bytes_ok l -> le_value (take n l) = le_value l mod 2 ^ (8 * Z.of_nat n).
Proof.
  intros Hl. destruct (decide (n <= length l)%nat) as [Hn|Hn].
  - rewrite <-(take_drop n l) at 2. rewrite le_value_app, length_take_le by done.
    rewrite (Z.mul_comm (2 ^ _)), Z_mod_plus_full. symmetry. apply Z.mod_small.
    pose proof (le_value_range (take n l) (bytes_ok_take n l Hl)) as Hr. by rewrite length_take_le in Hr.
  - rewrite take_ge by lia. symmetry. apply Z.mod_small. pose proof (le_value_range l Hl) as Hr.
    split; [lia|]. eapply Z.lt_le_trans; [apply Hr|]. apply Z.pow_le_mono_r; lia.
Qed.

Lemma getuint256_value z : 0 <= z -> len (num_bytes z) < 2 ^ 31 -> getuint256 z = z mod 2 ^ 256.
Proof.
  intros Hz Hn. destruct (num_bytes_nonneg z Hz) as (E & Hlt & Htop). unfold getuint256. rewrite bn2mpi_format by done.
  set (h := be_bytes 4 (len (num_bytes z))). assert (length h = 4%nat) as Hh by (unfold h; apply be_bytes_length).
  assert (len (h ++ rev (num_bytes z)) = 4 + len (num_bytes z)) as El by (unfold len; rewrite length_app, Hh, length_rev; lia).
  rewrite El. pose proof (len_pos (num_bytes z)). destruct (Z.ltb_spec (4 + len (num_bytes z)) 4); [lia|].
  assert ((if 4 <? 4 + len (num_bytes z) then <[4%nat := Z.land (at_ 0 (h ++ rev (num_bytes z)) 4) 127]> (h ++ rev (num_bytes z))
           else h ++ rev (num_bytes z)) = h ++ rev (num_bytes z)) as ->.
  { destruct (Z.ltb_spec 4 (4 + len (num_bytes z))) as [Hl|Hl]; [|done]. apply list_insert_id.
    destruct (num_bytes z) as [|b l'] eqn:En using rev_ind; [unfold len in Hl; simpl in Hl; lia|]. clear IHl'.
    rewrite last_snoc in Htop. specialize (Htop _ eq_refl). rewrite rev_app_distr. cbn [rev app].
    unfold at_. cbn [Z.ltb Z.compare]. rewrite app_nth2 by (rewrite Hh; simpl; lia). rewrite lookup_app_r by (rewrite Hh; lia).
    rewrite Hh. cbn. f_equal. pose proof (byte_cases (fun c => implb (c <? 128) (Z.land c 127 =? c)) eq_refl b ltac:(unfold byte_ok; lia)) as Hc.
    cbv beta in Hc. destruct (Z.ltb_spec b 128); [|lia]. cbn [implb] in Hc. apply Z.eqb_eq in Hc. done. }
  rewrite drop_app_length' by done. rewrite rev_involutive, le_value_take by apply num_bytes_ok.
  rewrite E, le_value_bytes_id by done. done.
Qed.

Lemma bn_mul_value a b : bn_mul a b = a * b.
Proof. apply bn_mul_eq. Qed.
Lemma bn_div_value a b : 0 <= a -> 0 < b -> bn_div a b = a / b.
Proof. intros. unfold bn_div. rewrite bn_div_eq by lia. cbn. by apply Z.quot_div_nonneg. Qed.
Lemma bn_add_value a b : bn_add a b = a + b.
Proof. apply bn_add_eq. Qed.
Lemma bn_shl_value a n : 0 <= n -> bn_shl a n = a * 2 ^ n.
Proof. apply bn_lshift_eq. Qed.
End laws.

End BigArith.
