(* ===== verification/Script.v ===== *)
(** * Scripts ([src/script.h], [src/script.cpp])

    A [CScript] is a vector of bytes.  The file has the enumeration of the
    opcodes, the operators that append to a script, [GetOp] and the methods that
    walk a script with it.  A position [pc] in a script is the list of the bytes
    from it to the end. *)

From S2P Require Import Prelude BigNum.
Import BigNum.

Module Script.

(** ** The opcodes *)

Definition OP_0 : Z := 0.
Definition OP_FALSE : Z := OP_0.
Definition OP_PUSHDATA1 : Z := 76.
Definition OP_PUSHDATA2 : Z := 77.
Definition OP_PUSHDATA4 : Z := 78.
Definition OP_1NEGATE : Z := 79.
Definition OP_RESERVED : Z := 80.
Definition OP_1 : Z := 81.
Definition OP_TRUE : Z := OP_1.
Definition OP_2 : Z := 82.
Definition OP_3 : Z := 83.
Definition OP_4 : Z := 84.
Definition OP_5 : Z := 85.
Definition OP_6 : Z := 86.
Definition OP_7 : Z := 87.
Definition OP_8 : Z := 88.
Definition OP_9 : Z := 89.
Definition OP_10 : Z := 90.
Definition OP_11 : Z := 91.
Definition OP_12 : Z := 92.
Definition OP_13 : Z := 93.
Definition OP_14 : Z := 94.
Definition OP_15 : Z := 95.
Definition OP_16 : Z := 96.
Definition OP_NOP : Z := 97.
Definition OP_VER : Z := 98.
Definition OP_IF : Z := 99.
Definition OP_NOTIF : Z := 100.
Definition OP_VERIF : Z := 101.
Definition OP_VERNOTIF : Z := 102.
Definition OP_ELSE : Z := 103.
Definition OP_ENDIF : Z := 104.
Definition OP_VERIFY : Z := 105.
Definition OP_RETURN : Z := 106.
Definition OP_TOALTSTACK : Z := 107.
Definition OP_FROMALTSTACK : Z := 108.
Definition OP_2DROP : Z := 109.
Definition OP_2DUP : Z := 110.
Definition OP_3DUP : Z := 111.
Definition OP_2OVER : Z := 112.
Definition OP_2ROT : Z := 113.
Definition OP_2SWAP : Z := 114.
Definition OP_IFDUP : Z := 115.
Definition OP_DEPTH : Z := 116.
Definition OP_DROP : Z := 117.
Definition OP_DUP : Z := 118.
Definition OP_NIP : Z := 119.
Definition OP_OVER : Z := 120.
Definition OP_PICK : Z := 121.
Definition OP_ROLL : Z := 122.
Definition OP_ROT : Z := 123.
Definition OP_SWAP : Z := 124.
Definition OP_TUCK : Z := 125.
Definition OP_CAT : Z := 126.
Definition OP_SUBSTR : Z := 127.
Definition OP_LEFT : Z := 128.
Definition OP_RIGHT : Z := 129.
Definition OP_SIZE : Z := 130.
Definition OP_INVERT : Z := 131.
Definition OP_AND : Z := 132.
Definition OP_OR : Z := 133.
Definition OP_XOR : Z := 134.
Definition OP_EQUAL : Z := 135.
Definition OP_EQUALVERIFY : Z := 136.
Definition OP_RESERVED1 : Z := 137.
Definition OP_RESERVED2 : Z := 138.
Definition OP_1ADD : Z := 139.
Definition OP_1SUB : Z := 140.
Definition OP_2MUL : Z := 141.
Definition OP_2DIV : Z := 142.
Definition OP_NEGATE : Z := 143.
Definition OP_ABS : Z := 144.
Definition OP_NOT : Z := 145.
Definition OP_0NOTEQUAL : Z := 146.
Definition OP_ADD : Z := 147.
Definition OP_SUB : Z := 148.
Definition OP_MUL : Z := 149.
Definition OP_DIV : Z := 150.
Definition OP_MOD : Z := 151.
Definition OP_LSHIFT : Z := 152.
Definition OP_RSHIFT : Z := 153.
Definition OP_BOOLAND : Z := 154.
Definition OP_BOOLOR : Z := 155.
Definition OP_NUMEQUAL : Z := 156.
Definition OP_NUMEQUALVERIFY : Z := 157.
Definition OP_NUMNOTEQUAL : Z := 158.
Definition OP_LESSTHAN : Z := 159.
Definition OP_GREATERTHAN : Z := 160.
Definition OP_LESSTHANOREQUAL : Z := 161.
Definition OP_GREATERTHANOREQUAL : Z := 162.
Definition OP_MIN : Z := 163.
Definition OP_MAX : Z := 164.
Definition OP_WITHIN : Z := 165.
Definition OP_RIPEMD160 : Z := 166.
Definition OP_SHA1 : Z := 167.
Definition OP_SHA256 : Z := 168.
Definition OP_HASH160 : Z := 169.
Definition OP_HASH256 : Z := 170.
Definition OP_CODESEPARATOR : Z := 171.
Definition OP_CHECKSIG : Z := 172.
Definition OP_CHECKSIGVERIFY : Z := 173.
Definition OP_CHECKMULTISIG : Z := 174.
Definition OP_CHECKMULTISIGVERIFY : Z := 175.
Definition OP_NOP1 : Z := 176.
Definition OP_NOP2 : Z := 177.
Definition OP_NOP3 : Z := 178.
Definition OP_NOP4 : Z := 179.
Definition OP_NOP5 : Z := 180.
Definition OP_NOP6 : Z := 181.
Definition OP_NOP7 : Z := 182.
Definition OP_NOP8 : Z := 183.
Definition OP_NOP9 : Z := 184.
Definition OP_NOP10 : Z := 185.
Definition OP_SMALLINTEGER : Z := 250.
Definition OP_PUBKEYS : Z := 251.
Definition OP_PUBKEYHASH : Z := 253.
Definition OP_PUBKEY : Z := 254.
Definition OP_INVALIDOPCODE : Z := 255.

(** ** Reading a script *)

(** The opcode, the data it pushes and the position behind it; [None] for [false].
    The number of bytes left is compared as an [unsigned int]. *)
Definition GetOp2 (pc : bytes) : option (Z * bytes * bytes) :=
  match pc with
  | [] => None
  | opcode :: pc =>
      if opcode <=? OP_PUSHDATA4 then
        let take_data nSize pc :=
          if u32 (len pc) <? nSize then None
          else Some (opcode, take (Z.to_nat nSize) pc, drop (Z.to_nat nSize) pc) in
        if opcode <? OP_PUSHDATA1 then take_data opcode pc
        else if opcode =? OP_PUSHDATA1 then
          if len pc <? 1 then None else take_data (le_value (take 1 pc)) (drop 1 pc)
        else if opcode =? OP_PUSHDATA2 then
          if len pc <? 2 then None else take_data (le_value (take 2 pc)) (drop 2 pc)
        else
          if len pc <? 4 then None else take_data (le_value (take 4 pc)) (drop 4 pc)
      else Some (opcode, [], pc)
  end.

Definition GetOp := GetOp2.

(** The loop [while (pc < end()) { if (!GetOp(pc, opcode, vch)) ...; ... }]: [body]
    goes on with a new state or leaves the loop with a result, [fail] is the
    result when [GetOp] fails and [stop] the one at the end.  Every step reads a
    byte, so the length of the script is enough fuel ([scan_fuel]). *)
Fixpoint scan {A R} (fuel : nat) (body : A -> Z -> bytes -> bytes -> A + R) (fail stop : A -> R)
    (a : A) (pc : bytes) : R :=
  match pc, fuel with
  | [], _ | _, O => stop a
  | _, S fuel =>
      match GetOp pc with
      | None => fail a
      | Some (opcode, vch, pc) =>
          match body a opcode vch pc with
          | inl a => scan fuel body fail stop a pc
          | inr r => r
          end
      end
  end.

Definition DecodeOP_N (opcode : Z) : Z :=
  if opcode =? OP_0 then 0 else opcode - (OP_1 - 1).
Definition EncodeOP_N (n : Z) : Z :=
  if n =? 0 then OP_0 else OP_1 + n - 1.

Definition IsPushOnly (s : bytes) : bool :=
  scan (length s) (fun _ opcode _ _ => if OP_16 <? opcode then inr false else inl tt)
    (fun _ => false) (fun _ => true) tt s.

Definition Find (s : bytes) (op : Z) : Z :=
  scan (length s) (fun nFound opcode _ _ => inl (if opcode =? op then nFound + 1 else nFound))
    id id 0 s.

(** Pushes that a shorter opcode would do. *)
Definition push_canonical (opcode : Z) (data : bytes) : bool :=
  negb ((opcode <? OP_PUSHDATA1) && (OP_0 <? opcode) && ((len data =? 1) && (at_ 0 data 0 <=? 16))) &&
  negb ((opcode =? OP_PUSHDATA1) && (len data <? OP_PUSHDATA1)) &&
  negb ((opcode =? OP_PUSHDATA2) && (len data <=? 0xFF)) &&
  negb ((opcode =? OP_PUSHDATA4) && (len data <=? 0xFFFF)).

Definition HasCanonicalPushes (s : bytes) : bool :=
  scan (length s)
    (fun _ opcode data _ =>
       if OP_16 <? opcode then inl tt
       else if push_canonical opcode data then inl tt else inr false)
    (fun _ => false) (fun _ => true) tt s.

Definition IsPayToScriptHash (s : bytes) : bool :=
  (len s =? 23) && (at_ 0 s 0 =? OP_HASH160) && (at_ 0 s 1 =? 0x14) && (at_ 0 s 22 =? OP_EQUAL).

(** ** Counting signature checks *)

(** What an opcode adds, given the opcode before it. *)
Definition sig_ops (fAccurate : bool) (lastOpcode opcode : Z) : Z :=
  if (opcode =? OP_CHECKSIG) || (opcode =? OP_CHECKSIGVERIFY) then 1
  else if (opcode =? OP_CHECKMULTISIG) || (opcode =? OP_CHECKMULTISIGVERIFY) then
    if fAccurate && (OP_1 <=? lastOpcode) && (lastOpcode <=? OP_16) then DecodeOP_N lastOpcode else 20
  else 0.

Definition GetSigOpCount (s : bytes) (fAccurate : bool) : Z :=
  scan (length s)
    (fun st opcode _ _ =>
       let '(n, lastOpcode) := st in inl (u32 (n + sig_ops fAccurate lastOpcode opcode), opcode))
    fst fst (0, OP_INVALIDOPCODE) s.

(** The overload for the script [s] of an output spent with [scriptSig]: the
    script counted for a script hash is the last thing [scriptSig] pushes. *)
Definition GetSigOpCountSig (s scriptSig : bytes) : Z :=
  if negb (IsPayToScriptHash s) then GetSigOpCount s true
  else
    scan (length scriptSig)
      (fun _ opcode data _ => if OP_16 <? opcode then inr 0 else inl data)
      (fun _ => 0) (fun data => GetSigOpCount data true) [] scriptSig.

(** ** Deleting *)

(** [while (end() - pc >= (long)b.size() && memcmp(&pc[0], &b[0], b.size()) == 0)] *)
Fixpoint erase_matches (fuel : nat) (b pc : bytes) (nFound : Z) : bytes * Z :=
  match fuel with
  | O => (pc, nFound)
  | S fuel =>
      if (len b <=? len pc) && bool_decide (take (length b) pc = b)
      then erase_matches fuel b (drop (length b) pc) (nFound + 1)
      else (pc, nFound)
  end.

(** The [do ... while (GetOp(pc, opcode))] loop; the result is the script from
    [pc] on.  The bytes that [GetOp] reads stay. *)
Fixpoint find_and_delete (fuel : nat) (b pc : bytes) (nFound : Z) : bytes * Z :=
  let '(pc, nFound) := erase_matches (length pc) b pc nFound in
  match fuel with
  | O => (pc, nFound)
  | S fuel =>
      match GetOp pc with
      | None => (pc, nFound)
      | Some (_, _, pc') =>
          let '(s, nFound) := find_and_delete fuel b pc' nFound in
          (take (length pc - length pc') pc ++ s, nFound)
      end
  end.

Definition FindAndDelete (s b : bytes) : bytes * Z :=
  match b with
  | [] => (s, 0)
  | _ => find_and_delete (length s) b s 0
  end.

(** ** Writing a script *)

(** The bytes [operator<<] appends for a vector. *)
Definition push_data (b : bytes) : bytes :=
  (if len b <? OP_PUSHDATA1 then [u8 (len b)]
   else if len b <=? 0xff then [OP_PUSHDATA1; u8 (len b)]
   else if len b <=? 0xffff then OP_PUSHDATA2 :: le_bytes 2 (u16 (len b))
   else OP_PUSHDATA4 :: le_bytes 4 (u32 (len b))) ++ b.

(** The bytes it appends for a [uint160] or a [uint256], and for an opcode. *)
Definition push_hash (b : bytes) : bytes := u8 (len b) :: b.
Definition push_opcode (opcode : Z) : option bytes :=
  if (opcode <? 0) || (0xff <? opcode) then None else Some [opcode].

Section numbers.
Context `{OpenSSLBN}.

Definition push_int64 (n : Z) : bytes :=
  if (n =? -1) || ((1 <=? n) && (n <=? 16)) then [u8 (n + (OP_1 - 1))]
  else push_data (getvch (CBigNum_long n)).
Definition push_uint64 (n : Z) : bytes :=
  if (1 <=? n) && (n <=? 16) then [u8 (n + (OP_1 - 1))]
  else push_data (getvch (CBigNum_ulong n)).
Definition push_bignum (bn : Z) : bytes := push_data (getvch bn).
End numbers.

(** [PushAll] *)
Definition PushAll (values : list bytes) : bytes := concat (map push_data values).

(** ** Reading *)

(** An opcode as it stands in a script. *)
Lemma GetOp_suffix pc opcode vch pc' :
  GetOp pc = Some (opcode, vch, pc') -> exists h, pc = (opcode :: h ++ vch) ++ pc'.
Proof.
  unfold GetOp, GetOp2. destruct pc as [|b pc]; [done|]. cbv zeta.
  assert (forall k n, (if u32 (len (drop k pc)) <? n then None
      else Some (b, take (Z.to_nat n) (drop k pc), drop (Z.to_nat n) (drop k pc))) = Some (opcode, vch, pc') ->
    exists h, b :: pc = (opcode :: h ++ vch) ++ pc') as Hk.
  { intros k n E. destruct (u32 _ <? n); [done|]. injection E as -> <- <-.
    exists (take k pc). cbn [app]. by rewrite <-app_assoc, !take_drop. }
  intros E. repeat match type of E with
    | (if u32 _ <? _ then _ else _) = _ => fail 1
    | (if ?c then _ else _) = _ => destruct c eqn:?
    end; try done.
  - apply (Hk O b). rewrite drop_0. exact E.
  - exact (Hk 1%nat (le_value (take 1 pc)) E).
  - exact (Hk 2%nat (le_value (take 2 pc)) E).
  - exact (Hk 4%nat (le_value (take 4 pc)) E).
  - injection E as -> <- <-. by exists [].
Qed.

Lemma GetOp_shorter pc opcode vch pc' :
  GetOp pc = Some (opcode, vch, pc') -> (length pc' < length pc)%nat.
Proof. intros (h & ->)%GetOp_suffix. rewrite length_app. simpl. lia. Qed.

Lemma GetOp_bytes pc opcode vch pc' :
  bytes_ok pc -> GetOp pc = Some (opcode, vch, pc') -> byte_ok opcode /\ bytes_ok vch /\ bytes_ok pc'.
Proof.
  intros Hpc (h & ->)%GetOp_suffix. apply bytes_ok_app in Hpc as [Hb Hr].
  inversion_clear Hb as [|? ? Hc Hd]. by apply bytes_ok_app in Hd as [_ Hd].
Qed.

Section scan.
Context {A R : Type} (body : A -> Z -> bytes -> bytes -> A + R) (fail stop : A -> R).

(** One step of the loop, whatever the fuel. *)
Lemma scan_fuel n m a pc :
  (length pc <= n)%nat -> (length pc <= m)%nat -> scan n body fail stop a pc = scan m body fail stop a pc.
Proof.
  revert m a pc. induction n as [|n IH]; intros m a pc Hn Hm.
  { destruct pc; [|simpl in Hn; lia]. by destruct m. }
  destruct pc as [|b pc]; [by destruct m|]. destruct m as [|m]; [simpl in Hm; lia|].
  cbn [scan]. destruct (GetOp (b :: pc)) as [[[op d] pc']|] eqn:E; [|done].
  apply GetOp_shorter in E. destruct (body a op d pc'); [|done]. apply IH; simpl in *; lia.
Qed.

Lemma scan_step a pc :
  pc <> [] ->
  scan (length pc) body fail stop a pc =
    match GetOp pc with
    | None => fail a
    | Some (opcode, vch, pc') =>
        match body a opcode vch pc' with
        | inl a' => scan (length pc') body fail stop a' pc'
        | inr r => r
        end
    end.
Proof.
  intros Hpc. destruct pc as [|b pc]; [done|]. cbn [scan length].
  destruct (GetOp (b :: pc)) as [[[op d] pc']|] eqn:E; [|done].
  apply GetOp_shorter in E. destruct (body a op d pc'); [|done]. apply scan_fuel; simpl in *; lia.
Qed.

(** An invariant of the loop, and what it gives for each way out. *)
Lemma scan_invariant (P : A -> bytes -> Prop) (Q : R -> Prop) a pc :
  (forall a pc opcode vch pc', P a pc -> GetOp pc = Some (opcode, vch, pc') ->
     match body a opcode vch pc' with inl a' => P a' pc' | inr r => Q r end) ->
  (forall a pc, P a pc -> Q (fail a)) -> (forall a, P a [] -> Q (stop a)) ->
  P a pc -> Q (scan (length pc) body fail stop a pc).
Proof.
  intros Hbody Hfail Hstop. remember (length pc) as n eqn:Hn. revert a pc Hn.
  induction n as [n IH] using lt_wf_ind. intros a pc -> HP.
  destruct pc as [|b pc]; [by apply Hstop|]. rewrite scan_step by done.
  destruct (GetOp (b :: pc)) as [[[op d] pc']|] eqn:E; [|by eapply Hfail].
  pose proof (Hbody _ _ _ _ _ HP E) as Hb. apply GetOp_shorter in E.
  destruct (body a op d pc'); [|done]. by eapply IH.
Qed.
End scan.

(** ** Writing *)

(** The opcode of the push of a vector. *)
Definition push_op (b : bytes) : Z :=
  if len b <? OP_PUSHDATA1 then len b
  else if len b <=? 0xff then OP_PUSHDATA1
  else if len b <=? 0xffff then OP_PUSHDATA2 else OP_PUSHDATA4.

Ltac opcodes := unfold OP_PUSHDATA1, OP_PUSHDATA2, OP_PUSHDATA4, OP_16, OP_0 in *.

Lemma GetOp_push b rest :
  len (b ++ rest) < 2 ^ 32 - 4 -> GetOp (push_data b ++ rest) = Some (push_op b, b, rest).
Proof.
  intros Hl. rewrite len_app in Hl. pose proof (len_pos b). pose proof (len_pos rest).
  assert (forall k, len (le_bytes k (len b) ++ b ++ rest) = Z.of_nat k + len b + len rest) as Hlen.
  { intros k. rewrite !len_app. unfold len at 1. rewrite le_bytes_length. lia. }
  assert (forall op k n, n = len b ->
    (if u32 (len (drop k (le_bytes k (len b) ++ b ++ rest))) <? n then None
     else Some (op, take (Z.to_nat n) (drop k (le_bytes k (len b) ++ b ++ rest)),
       drop (Z.to_nat n) (drop k (le_bytes k (len b) ++ b ++ rest)))) = Some (op : Z, b, rest)) as Htake.
  { intros op k n ->. rewrite drop_app_length' by (by rewrite le_bytes_length).
    rewrite len_app, u32_id by lia. destruct (Z.ltb_spec (len b + len rest) (len b)); [lia|].
    unfold len. rewrite Nat2Z.id, take_app_length, drop_app_length. done. }
  assert (forall k, 0 <= len b < 2 ^ (8 * Z.of_nat k) ->
    le_value (take k (le_bytes k (len b) ++ b ++ rest)) = len b) as Hval.
  { intros k Hk. rewrite take_app_length' by (by rewrite le_bytes_length). by apply le_value_bytes_id. }
  unfold push_data, push_op, GetOp, GetOp2. opcodes.
  repeat split_guard; rewrite ?(u8_id (len b)), ?u16_id, ?u32_id by lia; rewrite <-?app_assoc; cbn [app]; cbv zeta.
  - replace (len b <=? 78) with true by lia. replace (len b <? 76) with true by lia.
    apply (Htake (len b) O). done.
  - pose proof (Hlen 1%nat) as E1. pose proof (Hval 1%nat ltac:(simpl; lia)) as E2.
    pose proof (Htake 76 1%nat _ E2) as E3. cbn [le_bytes app] in *. rewrite Z.mod_small in * by lia.
    cbn [Z.leb Z.ltb Z.eqb Z.compare Pos.compare Pos.compare_cont Pos.eqb].
    destruct (Z.ltb_spec (len (len b :: b ++ rest)) 1); [lia|]. exact E3.
  - destruct (Z.ltb_spec (len (le_bytes 2 (len b) ++ b ++ rest)) 2) as [Hs|_]; [rewrite Hlen in Hs; lia|].
    apply (Htake 77 2%nat). apply Hval. simpl. lia.
  - destruct (Z.ltb_spec (len (le_bytes 4 (len b) ++ b ++ rest)) 4) as [Hs|_]; [rewrite Hlen in Hs; lia|].
    apply (Htake 78 4%nat). apply Hval. simpl. lia.
Qed.

(** ** The operations of a script

    The reference the loops are compared with: the operations with their opcode
    and data, each with the bytes it stands in, and the bytes behind the last
    position that can be read. *)

Record op := mk_op { op_raw : bytes; op_code : Z; op_data : bytes }.

Fixpoint ops_fuel (fuel : nat) (pc : bytes) : list op * bytes :=
  match fuel with
  | O => ([], pc)
  | S fuel =>
      match GetOp pc with
      | None => ([], pc)
      | Some (opcode, vch, pc') =>
          let '(l, tail) := ops_fuel fuel pc' in
          (mk_op (take (length pc - length pc') pc) opcode vch :: l, tail)
      end
  end.

Definition ops (s : bytes) : list op * bytes := ops_fuel (length s) s.

Lemma ops_fuel_enough n m pc :
  (length pc <= n)%nat -> (length pc <= m)%nat -> ops_fuel n pc = ops_fuel m pc.
Proof.
  revert m pc. induction n as [|n IH]; intros m pc Hn Hm.
  { destruct pc; [|simpl in Hn; lia]. by destruct m. }
  destruct m as [|m]; [destruct pc; [done|simpl in Hm; lia]|]. cbn [ops_fuel].
  destruct (GetOp pc) as [[[c d] pc']|] eqn:E; [|done]. apply GetOp_shorter in E.
  by rewrite (IH m pc') by lia.
Qed.

Lemma ops_step pc :
  ops pc = match GetOp pc with
           | None => ([], pc)
           | Some (opcode, vch, pc') =>
               let '(l, tail) := ops pc' in (mk_op (take (length pc - length pc') pc) opcode vch :: l, tail)
           end.
Proof.
  unfold ops. destruct pc as [|b pc]; [done|]. cbn [length ops_fuel].
  destruct (GetOp (b :: pc)) as [[[c d] pc']|] eqn:E; [|done]. apply GetOp_shorter in E.
  rewrite (ops_fuel_enough (length pc) (length pc')) by (simpl in *; lia). done.
Qed.

(** Induction along the positions of a script. *)
Lemma script_ind (P : bytes -> Prop) :
  (forall pc, (forall pc', (length pc' < length pc)%nat -> P pc') -> P pc) -> forall pc, P pc.
Proof. intros HP pc. induction pc as [pc IH] using (induction_ltof1 _ (@length Z)). by apply HP. Qed.

(** A loop over a script is a loop over its operations, when its body does not
    look at the position. *)
Fixpoint run {A R} (body : A -> Z -> bytes -> A + R) (a : A) (l : list op) : A + R :=
  match l with
  | [] => inl a
  | o :: l => match body a (op_code o) (op_data o) with inl a => run body a l | inr r => inr r end
  end.

Lemma scan_run {A R} (body : A -> Z -> bytes -> A + R) (fail stop : A -> R) a pc :
  scan (length pc) (fun a c d _ => body a c d) fail stop a pc =
    match run body a (ops pc).1 with
    | inl a => match (ops pc).2 with [] => stop a | _ => fail a end
    | inr r => r
    end.
Proof.
  revert a. induction pc as [pc IH] using script_ind. intros a. destruct pc as [|b pc]; [done|].
  rewrite scan_step by done. rewrite ops_step.
  destruct (GetOp (b :: pc)) as [[[c d] pc']|] eqn:E; [|done]. apply GetOp_shorter in E.
  specialize (IH pc' E). destruct (ops pc') as [l tail]. cbn [run fst snd op_code op_data] in *.
  by destruct (body a c d).
Qed.

Lemma ops_push b rest :
  len (b ++ rest) < 2 ^ 32 - 4 ->
  ops (push_data b ++ rest) = let '(l, tail) := ops rest in (mk_op (push_data b) (push_op b) b :: l, tail).
Proof.
  intros Hl. rewrite ops_step, GetOp_push by done. destruct (ops rest). do 3 f_equal.
  rewrite length_app. replace (_ + _ - _)%nat with (length (push_data b)) by lia. apply take_app_length.
Qed.

Definition push_of (b : bytes) : op := mk_op (push_data b) (push_op b) b.

Lemma len_push_data b : len b <= len (push_data b).
Proof. unfold push_data. rewrite len_app. pose proof (len_pos (if len b <? OP_PUSHDATA1 then [u8 (len b)] else if len b <=? 0xff then [OP_PUSHDATA1; u8 (len b)] else if len b <=? 0xffff then OP_PUSHDATA2 :: le_bytes 2 (u16 (len b)) else OP_PUSHDATA4 :: le_bytes 4 (u32 (len b)))). lia. Qed.

Lemma len_push_data_le b : len (push_data b) <= len b + 5.
Proof.
  unfold push_data. rewrite len_app.
  assert (forall n z, len (le_bytes n z) = Z.of_nat n) as Hb by (intros; unfold len; by rewrite le_bytes_length).
  repeat split_guard; rewrite ?len_cons, ?Hb, ?len_nil; lia.
Qed.

Lemma ops_PushAll vs :
  len (PushAll vs) < 2 ^ 32 - 4 -> ops (PushAll vs) = (map push_of vs, []).
Proof.
  induction vs as [|v vs IH]; [done|]. unfold PushAll. cbn [map concat]. fold (PushAll vs).
  rewrite len_app. intros Hl. pose proof (len_push_data v). pose proof (len_pos v).
  rewrite ops_push by (rewrite len_app; lia). rewrite IH by lia. done.
Qed.

Lemma push_op_push b : push_op b <= OP_PUSHDATA4.
Proof. unfold push_op. opcodes. repeat split_guard; lia. Qed.

Lemma push_op_canonical b :
  push_canonical (push_op b) b = negb ((len b =? 1) && (at_ 0 b 0 <=? 16)).
Proof.
  pose proof (len_pos b). unfold push_canonical, push_op. opcodes. repeat split_guard; lia.
Qed.

Lemma push_roundtrip_push_only vs : len (PushAll vs) < 2 ^ 32 - 4 -> IsPushOnly (PushAll vs) = true.
Proof.
  intros Hl. unfold IsPushOnly. rewrite (scan_run (fun _ opcode _ => if OP_16 <? opcode then inr false else inl tt)).
  rewrite ops_PushAll by done. cbn [fst snd]. clear Hl. induction vs as [|v vs IH]; [done|]. cbn [map run op_code push_of].
  pose proof (push_op_push v). opcodes. by destruct (Z.ltb_spec 96 (push_op v)); [lia|].
Qed.

(** The pushes of a list of values are read back: the script is push only, its
    operations carry the values in order, and its pushes are canonical unless a
    value is a single byte up to 16, which [operator<<] does not write as a
    small-integer opcode. *)
Theorem push_roundtrip vs :
  len (PushAll vs) < 2 ^ 32 - 4 ->
  map op_data (ops (PushAll vs)).1 = vs /\
  IsPushOnly (PushAll vs) = true /\
  HasCanonicalPushes (PushAll vs) = forallb (fun v => negb ((len v =? 1) && (at_ 0 v 0 <=? 16))) vs.
Proof.
  intros Hl. pose proof (ops_PushAll vs Hl) as E. split_and!.
  - rewrite E. cbn [fst]. rewrite map_map. apply map_id.
  - by apply push_roundtrip_push_only.
  - unfold HasCanonicalPushes.
    rewrite (scan_run (fun _ opcode data => if OP_16 <? opcode then inl tt
       else if push_canonical opcode data then inl tt else inr false)), E.
    cbn [fst snd]. clear E Hl. induction vs as [|v vs IH]; [done|]. cbn [map run op_code op_data push_of forallb].
    pose proof (push_op_push v). rewrite push_op_canonical. opcodes.
    destruct (Z.ltb_spec 96 (push_op v)); [lia|]. by destruct (negb _).
Qed.

Lemma push_roundtrip_witness :
  map op_data (ops (PushAll [[1; 2]; []; [7]])).1 = [[1; 2]; []; [7]] /\
  HasCanonicalPushes (PushAll [[1; 2]; []; [7]]) = false.
Proof.
  destruct (push_roundtrip [[1; 2]; []; [7]]) as (H1 & _ & H3); [vm_compute; reflexivity|].
  split; [exact H1|exact H3].
Defined.

(** ** Deleting *)

Lemma erase_matches_spec fuel b pc n :
  b <> [] -> (length pc <= fuel)%nat ->
  exists k pc', erase_matches fuel b pc n = (pc', n + Z.of_nat k) /\
    pc = concat (replicate k b) ++ pc' /\ (forall r, pc' <> b ++ r).
Proof.
  intros Hb. revert pc n. induction fuel as [|fuel IH]; intros pc n Hf.
  { exists O, pc. cbn. split_and!; [f_equal; lia|done|]. destruct pc; [|simpl in Hf; lia]. by destruct b. }
  cbn [erase_matches]. destruct (_ && _) eqn:E; bool_prop.
  - destruct (IH (drop (length b) pc) (n + 1)) as (k & pc' & -> & Hd & Hno).
    { rewrite length_drop. destruct b; [done|]. simpl in *. lia. }
    exists (S k), pc'. split_and!; [f_equal; lia| |done].
    cbn [replicate concat]. rewrite <-app_assoc, <-Hd. rewrite <-H0 at 1. by rewrite take_drop.
  - exists O, pc. cbn. split_and!; [f_equal; lia|done|]. intros r ->.
    rewrite take_app_length, bool_decide_eq_true_2, len_app in E by done. pose proof (len_pos r). lia.
Qed.

(** An operation is its opcode, a length field and its data; whether it can be read
    does not depend on what follows. *)
Definition header_length (c : Z) : nat :=
  if c =? OP_PUSHDATA1 then 1 else if c =? OP_PUSHDATA2 then 2 else if c =? OP_PUSHDATA4 then 4 else 0.
Definition data_size (c : Z) (h : bytes) : Z :=
  if c <? OP_PUSHDATA1 then c else if c <=? OP_PUSHDATA4 then le_value h else 0.

Lemma take_data_spec c k n (pc : bytes) d r :
  len pc < 2 ^ 32 -> (k <= length pc)%nat ->
  (if u32 (len (drop k pc)) <? n then None
   else Some (c, take (Z.to_nat n) (drop k pc), drop (Z.to_nat n) (drop k pc))) = Some (c : Z, d, r) <->
  drop k pc = d ++ r /\ length d = Z.to_nat n.
Proof.
  intros Hl Hk. rewrite u32_id by (rewrite len_drop by done; unfold len in *; lia). split.
  - destruct (Z.ltb_spec (len (drop k pc)) n); [done|]. intros [= <- <-]. rewrite take_drop.
    split; [done|]. rewrite length_take. unfold len in *. lia.
  - intros [-> Hd]. rewrite len_app. unfold len. pose proof (len_pos r). unfold len in *.
    destruct (Z.ltb_spec (Z.of_nat (length d) + Z.of_nat (length r)) n); [lia|].
    rewrite <-Hd, take_app_length, drop_app_length. done.
Qed.

Lemma GetOp_spec pc c d r :
  len pc < 2 ^ 32 ->
  GetOp pc = Some (c, d, r) <->
  exists h, pc = c :: h ++ d ++ r /\ length h = header_length c /\ length d = Z.to_nat (data_size c h).
Proof.
  intros Hl. unfold GetOp, GetOp2, header_length, data_size. opcodes. destruct pc as [|b pc].
  { split; [done|]. intros (h & E & _). done. }
  rewrite len_cons in Hl. cbv zeta.
  assert (forall k n, (k <= length pc)%nat -> 
    (if u32 (len (drop k pc)) <? n then None
     else Some (b, take (Z.to_nat n) (drop k pc), drop (Z.to_nat n) (drop k pc))) = Some (c, d, r) <->
    b = c /\ exists h, pc = h ++ d ++ r /\ length h = k /\ length d = Z.to_nat n) as Hk.
  { intros k n Hk. split.
    - intros E. assert (b = c) as -> by (destruct (_ <? _); by inversion E). split; [done|].
      apply take_data_spec in E as [E Hd]; [|lia|done]. exists (take k pc).
      rewrite <-E, take_drop, length_take. split_and!; [done|lia|done].
    - intros [-> (h & -> & Hh & Hd)]. apply take_data_spec; [lia|done|]. by rewrite drop_app_length'. }
  assert (forall k, (k <= length pc)%nat ->
    (if u32 (len (drop k pc)) <? le_value (take k pc) then None
     else Some (b, take (Z.to_nat (le_value (take k pc))) (drop k pc), drop (Z.to_nat (le_value (take k pc))) (drop k pc)))
     = Some (c, d, r) <->
    b = c /\ exists h, pc = h ++ d ++ r /\ length h = k /\ length d = Z.to_nat (le_value h)) as Hkv.
  { intros k Hle. rewrite Hk by done. split; intros [-> (h & -> & Hh & Hd)];
      (split; [done|]; exists h; by rewrite take_app_length' in * by done). }
  assert (forall (k : nat) (f : bytes -> Z) (o : option (Z * bytes * bytes)), 
    (k <= length pc -> (o = Some (c, d, r) <-> b = c /\ exists h, pc = h ++ d ++ r /\ length h = k /\ length d = Z.to_nat (f h)))%nat ->
    (length pc < k -> o = None)%nat -> 
    header_length b = k -> (forall h, length h = k -> data_size b h = f h) ->
    o = Some (c, d, r) <->
    exists h, b :: pc = c :: h ++ d ++ r /\ length h = header_length c /\ length d = Z.to_nat (data_size c h)) as Hcase.
  { intros k f o H1 H2 Hh Hd. destruct (decide (k <= length pc)%nat) as [Hle|Hgt].
    - rewrite (H1 Hle). split.
      + intros [-> (h & -> & Hlen & Hdl)]. exists h. by rewrite Hh, (Hd h).
      + intros (h & E & Hlen & Hdl). injection E as -> ->. split; [done|]. exists h.
        rewrite Hh in Hlen. by rewrite <-(Hd h).
    - rewrite H2 by lia. split; [done|]. intros (h & E & Hlen & Hdl). injection E as -> ->.
      rewrite Hh in Hlen. rewrite length_app in Hgt. lia. }
  unfold header_length, data_size in Hcase. opcodes.
  assert (forall k, (k <= length pc)%nat -> (len pc <? Z.of_nat k) = false) as Hge by (unfold len; lia).
  assert (forall k, (length pc < k)%nat -> (len pc <? Z.of_nat k) = true) as Hlt by (unfold len; lia).
  destruct (Z.leb_spec b 78) as [H78|H78]; [destruct (Z.ltb_spec b 76) as [H76|H76];
    [|destruct (Z.eqb_spec b 76) as [->|N76]; [|destruct (Z.eqb_spec b 77) as [->|N77]]]|].
  - apply (Hcase O (fun _ => b)); [|lia| |].
    + intros H0. rewrite <-(Hk O b H0). done.
    + destruct (Z.eqb_spec b 76), (Z.eqb_spec b 77), (Z.eqb_spec b 78); lia.
    + intros h _. by destruct (Z.ltb_spec b 76); [|lia].
  - apply (Hcase 1%nat le_value); [| |done|done].
    + intros H1. rewrite (Hge 1%nat H1 : (len pc <? 1) = false). by apply Hkv.
    + intros H1. by rewrite (Hlt 1%nat H1 : (len pc <? 1) = true).
  - apply (Hcase 2%nat le_value); [| |done|done].
    + intros H1. rewrite (Hge 2%nat H1 : (len pc <? 2) = false). by apply Hkv.
    + intros H1. by rewrite (Hlt 2%nat H1 : (len pc <? 2) = true).
  - assert (b = 78) as -> by lia. apply (Hcase 4%nat le_value); [| |done|done].
    + intros H1. rewrite (Hge 4%nat H1 : (len pc <? 4) = false). by apply Hkv.
    + intros H1. by rewrite (Hlt 4%nat H1 : (len pc <? 4) = true).
  - apply (Hcase O (fun _ => 0)); [|lia| |].
    + intros _. split.
      * intros [= -> <- <-]. split; [done|]. by exists [].
      * intros [-> (h & -> & Hh & Hd)]. destruct h; [|done]. by destruct d.
    + destruct (Z.eqb_spec b 76), (Z.eqb_spec b 77), (Z.eqb_spec b 78); lia.
    + intros h _. destruct (Z.ltb_spec b 76), (Z.leb_spec b 78); lia.
Qed.

Lemma GetOp_frame p r r' c d :
  len (p ++ r) < 2 ^ 32 -> len (p ++ r') < 2 ^ 32 ->
  GetOp (p ++ r) = Some (c, d, r) -> GetOp (p ++ r') = Some (c, d, r').
Proof.
  intros Hl Hl' E. apply GetOp_spec in E as (h & E & Hh & Hd); [|done].
  assert (p = c :: h ++ d) as ->.
  { change (c :: h ++ d ++ r) with ((c :: h) ++ d ++ r) in E. rewrite app_assoc in E. by apply app_inv_tail in E. }
  apply GetOp_spec; [done|]. exists h. cbn [app]. by rewrite <-app_assoc.
Qed.

Definition raw_in (l : list op) : bytes := concat (map op_raw l).

Lemma ops_cons b c d r :
  len (b ++ r) < 2 ^ 32 -> GetOp b = Some (c, d, []) ->
  ops (b ++ r) = (mk_op b c d :: (ops r).1, (ops r).2).
Proof.
  intros Hl Hb. rewrite len_app in Hl. pose proof (len_pos b). pose proof (len_pos r).
  rewrite ops_step, (GetOp_frame b [] r c d) by (rewrite ?app_nil_r, ?len_app; done || lia).
  destruct (ops r). cbn [fst snd]. do 3 f_equal.
  rewrite length_app. replace (_ + _ - _)%nat with (length b) by lia. apply take_app_length.
Qed.

Lemma ops_replicate k b c d r :
  len (concat (replicate k b) ++ r) < 2 ^ 32 -> GetOp b = Some (c, d, []) ->
  ops (concat (replicate k b) ++ r) = (replicate k (mk_op b c d) ++ (ops r).1, (ops r).2).
Proof.
  intros Hl Hb. induction k as [|k IH]; [apply surjective_pairing|].
  cbn [replicate concat] in *. rewrite <-app_assoc in *. rewrite len_app in Hl. pose proof (len_pos b).
  rewrite (ops_cons _ c d), IH by (rewrite ?len_app in *; done || lia). done.
Qed.

Definition is_op (b : bytes) (o : op) : bool := bool_decide (op_raw o = b).
Definition kept (b : bytes) (l : list op) : list op := List.filter (fun o => negb (is_op b o)) l.
Definition found (b : bytes) (l : list op) : Z := len (List.filter (is_op b) l).

Lemma kept_replicate k b c d l : kept b (replicate k (mk_op b c d) ++ l) = kept b l.
Proof.
  induction k; [done|]. cbn [replicate app]. unfold kept in *. cbn [List.filter]. 
  unfold is_op at 1. cbn [op_raw]. by rewrite bool_decide_eq_true_2.
Qed.
Lemma found_replicate k b c d l : found b (replicate k (mk_op b c d) ++ l) = Z.of_nat k + found b l.
Proof.
  induction k; [done|]. cbn [replicate app]. unfold found in *. cbn [List.filter]. 
  unfold is_op at 1. cbn [op_raw]. rewrite bool_decide_eq_true_2, len_cons by done. lia.
Qed.

Lemma find_and_delete_ops fuel b c d pc n :
  GetOp b = Some (c, d, []) -> len pc < 2 ^ 32 -> (length pc <= fuel)%nat ->
  find_and_delete fuel b pc n =
    (raw_in (kept b (ops pc).1) ++ (ops pc).2, n + found b (ops pc).1).
Proof.
  intros Hb. revert pc n. induction fuel as [|fuel IH]; intros pc n Hl Hf.
  { destruct pc; [|simpl in Hf; lia]. unfold found, len; cbn; f_equal; lia. }
  cbn [find_and_delete].
  destruct (erase_matches_spec (length pc) b pc n ltac:(intros ->; discriminate Hb) ltac:(lia)) as (k & pc1 & -> & -> & Hno).
  rewrite (ops_replicate k b c d) by done. cbn [fst snd]. rewrite kept_replicate, found_replicate, ops_step.
  destruct (GetOp pc1) as [[[c' d'] pc']|] eqn:E.
  - pose proof E as (h & ->)%GetOp_suffix. set (p := h ++ d') in *. set (x := c') in *.
    rewrite !length_app, len_app in *. pose proof (len_pos (concat (replicate k b))). rewrite len_app in Hl.
    pose proof (len_pos (x :: p)). simpl length in Hf.
    rewrite (IH pc') by lia. destruct (ops pc') as [l tail]. cbn [fst snd].
    replace (length (x :: p) + length pc' - length pc')%nat with (length (x :: p)) by lia.
    rewrite take_app_length. unfold kept, found. cbn [List.filter]. unfold is_op at 3 6. cbn [op_raw].
    rewrite !bool_decide_eq_false_2 by (intros E'; by apply (Hno pc'); rewrite E'). cbn [negb].
    f_equal; [|unfold found; lia]. unfold raw_in. cbn [map concat op_raw]. by rewrite app_assoc.
  - unfold found, len; cbn; f_equal; lia.
Qed.

(** Deleting one operation from a script removes each occurrence of it among the
    script's operations, and nothing else: bytes that look like it inside pushed
    data stay, and so does what cannot be read at the end. *)
Theorem find_and_delete_filters s b c d :
  len s < 2 ^ 32 -> GetOp b = Some (c, d, []) ->
  FindAndDelete s b = (raw_in (kept b (ops s).1) ++ (ops s).2, found b (ops s).1).
Proof.
  intros Hl Hb. unfold FindAndDelete. destruct b as [|x b]; [done|].
  by rewrite (find_and_delete_ops (length s) (x :: b) c d s 0 Hb).
Qed.

Lemma find_and_delete_filters_witness :
  let sig := push_data [7; 7] in
  FindAndDelete (sig ++ [OP_DUP] ++ push_data sig ++ sig) sig = ([OP_DUP] ++ push_data sig, 2).
Proof.
  cbv zeta. rewrite (find_and_delete_filters _ (push_data [7; 7]) 2 [7; 7]); vm_compute; reflexivity.
Defined.

Lemma ops_raw pc : raw_in (ops pc).1 ++ (ops pc).2 = pc.
Proof.
  induction pc as [pc IH] using script_ind. rewrite ops_step.
  destruct (GetOp pc) as [[[c d] pc']|] eqn:E; [|done]. pose proof (GetOp_shorter _ _ _ _ E) as Hs.
  specialize (IH pc' Hs). apply GetOp_suffix in E as [h ->]. destruct (ops pc') as [l tail]. cbn [fst snd] in *.
  unfold raw_in in *. cbn [map concat op_raw]. rewrite <-app_assoc, IH, length_app.
  replace (length (c :: h ++ d) + length pc' - length pc')%nat with (length (c :: h ++ d)) by lia.
  by rewrite take_app_length.
Qed.

Lemma kept_sublist b l :
  len (raw_in (kept b l)) <= len (raw_in l) /\ (bytes_ok (raw_in l) -> bytes_ok (raw_in (kept b l))).
Proof.
  induction l as [|o l [IHl IHb]]; [done|]. unfold kept, raw_in in *. cbn [List.filter map concat].
  rewrite len_app, bytes_ok_app. pose proof (len_pos (op_raw o)).
  destruct (negb (is_op b o)); cbn [map concat]; rewrite ?len_app, ?bytes_ok_app; [split; [lia|tauto]|split; [lia|tauto]].
Qed.

(** ** Counting *)

Lemma sig_ops_range b last c : byte_ok last -> 0 <= sig_ops b last c <= 20.
Proof.
  intros Hl. unfold byte_ok in Hl. unfold sig_ops, DecodeOP_N.
  unfold OP_0, OP_1, OP_16. repeat split_guard; bool_prop; lia.
Qed.

Lemma sig_ops_accurate last c : sig_ops true last c <= sig_ops false last c.
Proof. unfold sig_ops, DecodeOP_N. unfold OP_0, OP_1, OP_16. repeat split_guard; bool_prop; lia. Qed.

(** The sum the loop computes, without the wrap of [unsigned int]. *)
Fixpoint sig_op_sum (fAccurate : bool) (last : Z) (l : list op) : Z :=
  match l with
  | [] => 0
  | o :: l => sig_ops fAccurate last (op_code o) + sig_op_sum fAccurate (op_code o) l
  end.

Lemma ops_codes pc : bytes_ok pc -> Forall (fun o => byte_ok (op_code o)) (ops pc).1.
Proof.
  induction pc as [pc IH] using script_ind. intros Hpc. rewrite ops_step.
  destruct (GetOp pc) as [[[c d] pc']|] eqn:E; [|constructor].
  pose proof (GetOp_bytes _ _ _ _ Hpc E) as (Hc & _ & Hpc'). apply GetOp_shorter in E.
  specialize (IH pc' E Hpc'). destruct (ops pc'). by constructor.
Qed.

Lemma ops_length pc : (length (ops pc).1 <= length pc)%nat.
Proof.
  induction pc as [pc IH] using script_ind. rewrite ops_step.
  destruct (GetOp pc) as [[[c d] pc']|] eqn:E; [|cbn; lia]. apply GetOp_shorter in E.
  specialize (IH pc' E). destruct (ops pc'). cbn in *. lia.
Qed.

Lemma sig_op_sum_range b last l :
  byte_ok last -> Forall (fun o => byte_ok (op_code o)) l -> 0 <= sig_op_sum b last l <= 20 * len l.
Proof.
  intros Hb Hl. revert last Hb. induction Hl as [|o l Ho Hl IH]; intros last Hb; cbn [sig_op_sum]; [unfold len; cbn; lia|].
  pose proof (sig_ops_range b last (op_code o) Hb). specialize (IH _ Ho). rewrite len_cons. lia.
Qed.

Lemma sig_op_sum_accurate last l : sig_op_sum true last l <= sig_op_sum false last l.
Proof.
  revert last. induction l as [|o l IH]; intros last; cbn [sig_op_sum]; [lia|].
  pose proof (sig_ops_accurate last (op_code o)). specialize (IH (op_code o)). lia.
Qed.

Lemma GetSigOpCount_sum s b :
  bytes_ok s -> 20 * len s < 2 ^ 32 -> GetSigOpCount s b = sig_op_sum b OP_INVALIDOPCODE (ops s).1.
Proof.
  intros Hs Hl. unfold GetSigOpCount.
  rewrite (scan_run (fun st opcode _ => let '(n, last) := st in inl (u32 (n + sig_ops b last opcode), opcode))).
  set (body := fun st opcode (_ : bytes) => let '(n, last) := st in _).
  assert (forall l n last, byte_ok last -> Forall (fun o => byte_ok (op_code o)) l -> 0 <= n -> n + 20 * len l < 2 ^ 32 ->
    exists last', run (R := Z) body (n, last) l = inl (n + sig_op_sum b last l, last')) as Hrun.
  { intros l n last Hlast Hok. revert n last Hlast. induction Hok as [|o l Ho Hok IH]; intros n last Hlast Hn Hb.
    - cbn. exists last. by rewrite Z.add_0_r.
    - cbn [run sig_op_sum]. unfold body at 1. cbv beta iota. rewrite len_cons in Hb. pose proof (len_pos l).
      pose proof (sig_ops_range b last (op_code o) Hlast). rewrite u32_id by lia.
      destruct (IH (n + sig_ops b last (op_code o)) (op_code o) Ho ltac:(lia) ltac:(lia)) as [last' ->].
      exists last'. do 2 f_equal. lia. }
  destruct (Hrun (ops s).1 0 OP_INVALIDOPCODE) as [last' ->]; [done|by apply ops_codes|lia| |].
  { pose proof (ops_length s). unfold len in *. lia. }
  by destruct (ops s).2.
Qed.

(** Counting multi-signature checks by the number of keys in front of them never
    counts more than the flat twenty, and neither counts more than twenty per byte. *)
Theorem sig_op_count_bounds s :
  bytes_ok s -> 20 * len s < 2 ^ 32 ->
  0 <= GetSigOpCount s true <= GetSigOpCount s false /\ GetSigOpCount s false <= 20 * len s.
Proof.
  intros Hs Hl. rewrite !GetSigOpCount_sum by done.
  pose proof (sig_op_sum_accurate OP_INVALIDOPCODE (ops s).1).
  pose proof (sig_op_sum_range true OP_INVALIDOPCODE _ ltac:(done) (ops_codes s Hs)).
  pose proof (sig_op_sum_range false OP_INVALIDOPCODE _ ltac:(done) (ops_codes s Hs)).
  pose proof (ops_length s). unfold len in *. lia.
Qed.

Lemma sig_op_count_bounds_witness :
  0 <= GetSigOpCount [OP_2; OP_CHECKMULTISIG] true <= GetSigOpCount [OP_2; OP_CHECKMULTISIG] false.
Proof.
  apply (sig_op_count_bounds [OP_2; OP_CHECKMULTISIG]);
    [repeat (constructor; [by vm_compute|]); constructor|by vm_compute].
Defined.

End Script.
