(* ===== verification/Interpreter.v ===== *)
(** * The script interpreter ([src/script.cpp], [EvalScript])

    The state of an evaluation is the record [state]; [step] is one turn of the
    loop and [EvalScript] the loop.  The main stack is listed from the top.  A
    step either goes on with a state or ends the evaluation with [return false]
    or an exception, which [EvalScript] turns into [false]; either way the
    caller's stack stays as the step left it, so a failing step carries it.

    The signature check of [OP_CHECKSIG] is the class [SigChecker]: [Sighash]
    implements it. *)

From S2P Require Import Prelude Crypto BigNum Script.
Import BigNum Script.

Module Interpreter.

(** OpenSSL's other hash functions. *)
Class ScriptHashes := {
  RIPEMD160 : bytes -> bytes;
  SHA1 : bytes -> bytes
}.

(** [CheckSig] with the transaction, the input and the hash type it is called with:
    the signature, the public key and the script code. *)
Class SigChecker := CheckSig : bytes -> bytes -> bytes -> bool.

(** ** Values *)

Definition vchFalse : bytes := [].
Definition vchTrue : bytes := [1].
Definition nMaxNumSize : Z := 4.

Fixpoint CastToBool (vch : bytes) : bool :=
  match vch with
  | [] => false
  | b :: rest =>
      if b =? 0 then CastToBool rest
      else match rest with [] => negb (b =? 0x80) | _ => true end
  end.

Definition IsCanonicalPubKey (vchPubKey : bytes) : bool :=
  if len vchPubKey <? 33 then false
  else if at_ 0 vchPubKey 0 =? 0x04 then len vchPubKey =? 65
  else if (at_ 0 vchPubKey 0 =? 0x02) || (at_ 0 vchPubKey 0 =? 0x03) then len vchPubKey =? 33
  else false.

(** The checks of one of the two integers of a signature, [off] its first byte. *)
Definition canonical_integer (vchSig : bytes) (off n : Z) : bool :=
  if negb (at_ 0 vchSig (off - 2) =? 0x02) then false
  else if n =? 0 then false
  else if negb (Z.land (at_ 0 vchSig off) 0x80 =? 0) then false
  else if (1 <? n) && (at_ 0 vchSig off =? 0x00) && (Z.land (at_ 0 vchSig (off + 1)) 0x80 =? 0) then false
  else true.

Definition IsCanonicalSignature (vchSig : bytes) : bool :=
  let v := at_ 0 vchSig in
  if len vchSig <? 9 then false
  else if 73 <? len vchSig then false
  else let nHashType := Z.land (v (len vchSig - 1)) 0x7f in
  if (nHashType <? 1) || (3 <? nHashType) then false
  else if negb (v 0 =? 0x30) then false
  else if negb (v 1 =? len vchSig - 3) then false
  else let nLenR := v 3 in
  if len vchSig <=? 5 + nLenR then false
  else let nLenS := v (5 + nLenR) in
  if negb (nLenR + nLenS + 7 =? len vchSig) then false
  else if negb (canonical_integer vchSig 4 nLenR) then false
  else if negb (canonical_integer vchSig (6 + nLenR) nLenS) then false
  else negb (32 <? nLenS).

(** ** The state *)

Record state := mk_state {
  stack : list bytes;            (** the top first *)
  altstack : list bytes;         (** the top first *)
  vfExec : list bool;            (** the innermost condition first *)
  pbegincodehash : bytes;        (** the script from [pbegincodehash] on *)
  nOpCount : Z
}.

Definition with_stack (s : list bytes) (st : state) : state :=
  mk_state s (altstack st) (vfExec st) (pbegincodehash st) (nOpCount st).
Definition with_altstack (s : list bytes) (st : state) : state :=
  mk_state (stack st) s (vfExec st) (pbegincodehash st) (nOpCount st).
Definition with_vfExec (v : list bool) (st : state) : state :=
  mk_state (stack st) (altstack st) v (pbegincodehash st) (nOpCount st).
Definition with_codehash (pc : bytes) (st : state) : state :=
  mk_state (stack st) (altstack st) (vfExec st) pc (nOpCount st).
Definition with_nOpCount (n : Z) (st : state) : state :=
  mk_state (stack st) (altstack st) (vfExec st) (pbegincodehash st) n.

(** A step goes on with a state, or fails and leaves a stack. *)
Definition result : Type := state + list bytes.

Section eval.
Context `{OpenSSLBN} `{Sha256} `{ScriptHashes} `{SigChecker}.

(** [None] is the exception for a number of more than four bytes. *)
Definition CastToBigNum (vch : bytes) : option Z :=
  if nMaxNumSize <? len vch then None else Some (setvch (getvch (setvch vch))).

Definition Hash160 (vch : bytes) : bytes := RIPEMD160 (uint256_bytes (sha256_once vch)).

Definition CBool (b : bool) : Z := CBigNum_long (if b then 1 else 0).

Definition bnZero : Z := CBigNum_long 0.
Definition bnOne : Z := CBigNum_long 1.

(** The switch of the numeric opcodes with one and with two operands. *)
Definition unary (opcode bn : Z) : Z :=
  if opcode =? OP_1ADD then BN_add bn bnOne
  else if opcode =? OP_1SUB then BN_sub bn bnOne
  else if opcode =? OP_NEGATE then bn_neg bn
  else if opcode =? OP_ABS then (if bn_lt bn bnZero then bn_neg bn else bn)
  else if opcode =? OP_NOT then CBool (bn_eq bn bnZero)
  else CBool (bn_ne bn bnZero).

Definition binary (opcode bn1 bn2 : Z) : Z :=
  if opcode =? OP_ADD then BN_add bn1 bn2
  else if opcode =? OP_SUB then BN_sub bn1 bn2
  else if opcode =? OP_BOOLAND then CBool (bn_ne bn1 bnZero && bn_ne bn2 bnZero)
  else if opcode =? OP_BOOLOR then CBool (bn_ne bn1 bnZero || bn_ne bn2 bnZero)
  else if opcode =? OP_NUMEQUAL then CBool (bn_eq bn1 bn2)
  else if opcode =? OP_NUMEQUALVERIFY then CBool (bn_eq bn1 bn2)
  else if opcode =? OP_NUMNOTEQUAL then CBool (bn_ne bn1 bn2)
  else if opcode =? OP_LESSTHAN then CBool (bn_lt bn1 bn2)
  else if opcode =? OP_GREATERTHAN then CBool (bn_gt bn1 bn2)
  else if opcode =? OP_LESSTHANOREQUAL then CBool (bn_le bn1 bn2)
  else if opcode =? OP_GREATERTHANOREQUAL then CBool (bn_ge bn1 bn2)
  else if opcode =? OP_MIN then (if bn_lt bn1 bn2 then bn1 else bn2)
  else (if bn_gt bn1 bn2 then bn1 else bn2).

(** ** The opcodes *)

Definition disabled (opcode : Z) : bool :=
  (opcode =? OP_CAT) || (opcode =? OP_SUBSTR) || (opcode =? OP_LEFT) || (opcode =? OP_RIGHT) ||
  (opcode =? OP_INVERT) || (opcode =? OP_AND) || (opcode =? OP_OR) || (opcode =? OP_XOR) ||
  (opcode =? OP_2MUL) || (opcode =? OP_2DIV) || (opcode =? OP_MUL) || (opcode =? OP_DIV) ||
  (opcode =? OP_MOD) || (opcode =? OP_LSHIFT) || (opcode =? OP_RSHIFT).

(** A case that only changes the stack: [None] is [return false] with the stack as
    it was found. *)
Definition on_stack (st : state) (o : option (list bytes)) : result :=
  match o with
  | Some s => inl (with_stack s st)
  | None => inr (stack st)
  end.

(** The [VERIFY] form of an opcode: the result that has been pushed on [s] is
    popped again, or ends the evaluation. *)
Definition push_result (st : state) (verify ok : bool) (s : list bytes) : result :=
  let pushed := (if ok then vchTrue else vchFalse) :: s in
  if verify then (if ok then inl (with_stack s st) else inr pushed)
  else inl (with_stack pushed st).

(** The opcodes that move stack items. *)
Definition stack_op (opcode : Z) (s : list bytes) : option (list bytes) :=
  if opcode =? OP_2DROP then match s with _ :: _ :: s => Some s | _ => None end
  else if opcode =? OP_2DUP then match s with b :: a :: s => Some (b :: a :: b :: a :: s) | _ => None end
  else if opcode =? OP_3DUP then
    match s with c :: b :: a :: s => Some (c :: b :: a :: c :: b :: a :: s) | _ => None end
  else if opcode =? OP_2OVER then
    match s with d :: c :: b :: a :: s => Some (b :: a :: d :: c :: b :: a :: s) | _ => None end
  else if opcode =? OP_2ROT then
    match s with
    | f :: e :: d :: c :: b :: a :: s => Some (b :: a :: f :: e :: d :: c :: s)
    | _ => None
    end
  else if opcode =? OP_2SWAP then
    match s with d :: c :: b :: a :: s => Some (b :: a :: d :: c :: s) | _ => None end
  else if opcode =? OP_IFDUP then
    match s with a :: s => Some (if CastToBool a then a :: a :: s else a :: s) | _ => None end
  else if opcode =? OP_DEPTH then Some (getvch (CBigNum_ulong (len s)) :: s)
  else if opcode =? OP_DROP then match s with _ :: s => Some s | _ => None end
  else if opcode =? OP_DUP then match s with a :: s => Some (a :: a :: s) | _ => None end
  else if opcode =? OP_NIP then match s with b :: _ :: s => Some (b :: s) | _ => None end
  else if opcode =? OP_OVER then match s with b :: a :: s => Some (a :: b :: a :: s) | _ => None end
  else if opcode =? OP_ROT then match s with c :: b :: a :: s => Some (a :: c :: b :: s) | _ => None end
  else if opcode =? OP_SWAP then match s with b :: a :: s => Some (a :: b :: s) | _ => None end
  else if opcode =? OP_TUCK then match s with b :: a :: s => Some (b :: a :: b :: s) | _ => None end
  else (* OP_SIZE *)
    match s with a :: s => Some (getvch (CBigNum_ulong (len a)) :: a :: s) | _ => None end.

Definition stack_opcodes : list Z :=
  [OP_2DROP; OP_2DUP; OP_3DUP; OP_2OVER; OP_2ROT; OP_2SWAP; OP_IFDUP; OP_DEPTH; OP_DROP; OP_DUP;
   OP_NIP; OP_OVER; OP_ROT; OP_SWAP; OP_TUCK; OP_SIZE].

(** [OP_PICK] and [OP_ROLL]: the index is popped before it is checked. *)
Definition pick_roll (opcode : Z) (st : state) : result :=
  match stack st with
  | top :: (_ :: _) as s =>
      match CastToBigNum top with
      | None => inr (stack st)
      | Some bn =>
          let n := getint bn in
          if (n <? 0) || (len s <=? n) then inr s
          else
            let vch := at_ [] s n in
            inl (with_stack (vch :: if opcode =? OP_ROLL then delete (Z.to_nat n) s else s) st)
      end
  | _ => inr (stack st)
  end.

Definition vch_eq (a b : bytes) : bool := bool_decide (a = b).

Definition equal_op (opcode : Z) (st : state) : result :=
  match stack st with
  | vch2 :: vch1 :: s => push_result st (opcode =? OP_EQUALVERIFY) (vch_eq vch1 vch2) s
  | _ => inr (stack st)
  end.

Definition unary_op (opcode : Z) (st : state) : result :=
  match stack st with
  | top :: s =>
      match CastToBigNum top with
      | None => inr (stack st)
      | Some bn => inl (with_stack (getvch (unary opcode bn) :: s) st)
      end
  | _ => inr (stack st)
  end.

Definition binary_op (opcode : Z) (st : state) : result :=
  match stack st with
  | top :: next :: s =>
      match CastToBigNum next, CastToBigNum top with
      | Some bn1, Some bn2 =>
          let r := getvch (binary opcode bn1 bn2) in
          if opcode =? OP_NUMEQUALVERIFY then
            (if CastToBool r then inl (with_stack s st) else inr (r :: s))
          else inl (with_stack (r :: s) st)
      | _, _ => inr (stack st)
      end
  | _ => inr (stack st)
  end.

Definition within_op (st : state) : result :=
  match stack st with
  | v3 :: v2 :: v1 :: s =>
      match CastToBigNum v1, CastToBigNum v2, CastToBigNum v3 with
      | Some bn1, Some bn2, Some bn3 =>
          push_result st false (bn_le bn2 bn1 && bn_lt bn1 bn3) s
      | _, _, _ => inr (stack st)
      end
  | _ => inr (stack st)
  end.

Definition hash_op (opcode : Z) (vch : bytes) : bytes :=
  if opcode =? OP_RIPEMD160 then RIPEMD160 vch
  else if opcode =? OP_SHA1 then SHA1 vch
  else if opcode =? OP_SHA256 then sha256 vch
  else if opcode =? OP_HASH160 then Hash160 vch
  else uint256_bytes (sha256_twice vch).

(** ** Signatures *)

(** One signature against one key. *)
Definition check_one (scriptCode vchSig vchPubKey : bytes) : bool :=
  IsCanonicalSignature vchSig && IsCanonicalPubKey vchPubKey && CheckSig vchSig vchPubKey scriptCode.

Definition checksig_op (opcode : Z) (st : state) : result :=
  match stack st with
  | vchPubKey :: vchSig :: s =>
      let scriptCode := (FindAndDelete (pbegincodehash st) (push_data vchSig)).1 in
      push_result st (opcode =? OP_CHECKSIGVERIFY) (check_one scriptCode vchSig vchPubKey) s
  | _ => inr (stack st)
  end.

(** The loop over the keys and signatures: the signatures left must not outnumber
    the keys left. *)
Fixpoint multisig (scriptCode : bytes) (keys sigs : list bytes) : bool :=
  match sigs, keys with
  | [], _ => true
  | _, [] => false
  | vchSig :: sigs', vchPubKey :: keys' =>
      let sigs'' := if check_one scriptCode vchSig vchPubKey then sigs' else sigs in
      if len keys' <? len sigs'' then false else multisig scriptCode keys' sigs''
  end.

Definition checkmultisig_op (opcode : Z) (st : state) : result :=
  let s := stack st in
  if len s <? 1 then inr s
  else match CastToBigNum (at_ [] s 0) with
  | None => inr s
  | Some bn =>
      let nKeysCount := getint bn in
      if (nKeysCount <? 0) || (20 <? nKeysCount) then inr s
      else
        let st := with_nOpCount (nOpCount st + nKeysCount) st in
        if 201 <? nOpCount st then inr s
        else if len s <? 2 + nKeysCount then inr s
        else match CastToBigNum (at_ [] s (1 + nKeysCount)) with
        | None => inr s
        | Some bn =>
            let nSigsCount := getint bn in
            if (nSigsCount <? 0) || (nKeysCount <? nSigsCount) then inr s
            else if len s <? 3 + nKeysCount + nSigsCount then inr s
            else
              let keys := take (Z.to_nat nKeysCount) (drop 1 s) in
              let sigs := take (Z.to_nat nSigsCount) (drop (Z.to_nat (2 + nKeysCount)) s) in
              let scriptCode :=
                fold_left (fun code vchSig => (FindAndDelete code (push_data vchSig)).1) sigs (pbegincodehash st) in
              push_result st (opcode =? OP_CHECKMULTISIGVERIFY) (multisig scriptCode keys sigs)
                (drop (Z.to_nat (3 + nKeysCount + nSigsCount)) s)
        end
  end.

(** ** Control flow *)

Definition if_op (opcode : Z) (fExec : bool) (st : state) : result :=
  if fExec then
    match stack st with
    | vch :: s =>
        let fValue := CastToBool vch in
        let fValue := if opcode =? OP_NOTIF then negb fValue else fValue in
        inl (with_vfExec (fValue :: vfExec st) (with_stack s st))
    | _ => inr (stack st)
    end
  else inl (with_vfExec (false :: vfExec st) st).

Definition else_op (st : state) : result :=
  match vfExec st with
  | b :: v => inl (with_vfExec (negb b :: v) st)
  | [] => inr (stack st)
  end.

Definition endif_op (st : state) : result :=
  match vfExec st with
  | _ :: v => inl (with_vfExec v st)
  | [] => inr (stack st)
  end.

Definition is_nop (opcode : Z) : bool :=
  (opcode =? OP_NOP) || ((OP_NOP1 <=? opcode) && (opcode <=? OP_NOP10)).

Definition unary_opcodes : list Z := [OP_1ADD; OP_1SUB; OP_NEGATE; OP_ABS; OP_NOT; OP_0NOTEQUAL].
Definition binary_opcodes : list Z :=
  [OP_ADD; OP_SUB; OP_BOOLAND; OP_BOOLOR; OP_NUMEQUAL; OP_NUMEQUALVERIFY; OP_NUMNOTEQUAL; OP_LESSTHAN;
   OP_GREATERTHAN; OP_LESSTHANOREQUAL; OP_GREATERTHANOREQUAL; OP_MIN; OP_MAX].
Definition hash_opcodes : list Z := [OP_RIPEMD160; OP_SHA1; OP_SHA256; OP_HASH160; OP_HASH256].
Definition one_of (opcode : Z) (l : list Z) : bool := existsb (Z.eqb opcode) l.

(** The [switch] of [EvalScript]; the cases of the disabled opcodes are not reached. *)
Definition exec (fExec : bool) (opcode : Z) (pc : bytes) (st : state) : result :=
  if (opcode =? OP_1NEGATE) || ((OP_1 <=? opcode) && (opcode <=? OP_16)) then
    inl (with_stack (getvch (CBigNum_long (opcode - (OP_1 - 1))) :: stack st) st)
  else if is_nop opcode then inl st
  else if (opcode =? OP_IF) || (opcode =? OP_NOTIF) then if_op opcode fExec st
  else if opcode =? OP_ELSE then else_op st
  else if opcode =? OP_ENDIF then endif_op st
  else if opcode =? OP_VERIFY then
    on_stack st match stack st with
                | vch :: s => if CastToBool vch then Some s else None
                | _ => None
                end
  else if opcode =? OP_RETURN then inr (stack st)
  else if opcode =? OP_TOALTSTACK then
    match stack st with
    | vch :: s => inl (with_altstack (vch :: altstack st) (with_stack s st))
    | _ => inr (stack st)
    end
  else if opcode =? OP_FROMALTSTACK then
    match altstack st with
    | vch :: s => inl (with_altstack s (with_stack (vch :: stack st) st))
    | _ => inr (stack st)
    end
  else if one_of opcode stack_opcodes then on_stack st (stack_op opcode (stack st))
  else if (opcode =? OP_PICK) || (opcode =? OP_ROLL) then pick_roll opcode st
  else if (opcode =? OP_EQUAL) || (opcode =? OP_EQUALVERIFY) then equal_op opcode st
  else if one_of opcode unary_opcodes then unary_op opcode st
  else if one_of opcode binary_opcodes then binary_op opcode st
  else if opcode =? OP_WITHIN then within_op st
  else if one_of opcode hash_opcodes then
    on_stack st match stack st with vch :: s => Some (hash_op opcode vch :: s) | _ => None end
  else if opcode =? OP_CODESEPARATOR then inl (with_codehash pc st)
  else if (opcode =? OP_CHECKSIG) || (opcode =? OP_CHECKSIGVERIFY) then checksig_op opcode st
  else if (opcode =? OP_CHECKMULTISIG) || (opcode =? OP_CHECKMULTISIGVERIFY) then checkmultisig_op opcode st
  else inr (stack st).

(** ** The loop *)

(** Pushes and opcodes are for executed branches, but for the conditionals. *)
Definition dispatch (fExec : bool) (opcode : Z) (vchPushValue pc : bytes) (st : state) : result :=
  if fExec && (opcode <=? OP_PUSHDATA4) then inl (with_stack (vchPushValue :: stack st) st)
  else if fExec || ((OP_IF <=? opcode) && (opcode <=? OP_ENDIF)) then exec fExec opcode pc st
  else inl st.

(** One turn, after [GetOp] read [opcode] and [vchPushValue] and moved to [pc]. *)
Definition step (st : state) (opcode : Z) (vchPushValue pc : bytes) : result :=
  let fExec := forallb id (vfExec st) in
  if 520 <? len vchPushValue then inr (stack st)
  else
    let counted := OP_16 <? opcode in
    let st := if counted then with_nOpCount (nOpCount st + 1) st else st in
    if counted && (201 <? nOpCount st) then inr (stack st)
    else if disabled opcode then inr (stack st)
    else
      match dispatch fExec opcode vchPushValue pc st with
      | inr s => inr s
      | inl st => if 1000 <? len (stack st) + len (altstack st) then inr (stack st) else inl st
      end.

(** The stack the caller is left with, and the result. *)
Definition eval_fuel (fuel : nat) (stack0 : list bytes) (script : bytes) : list bytes * bool :=
  if 10000 <? len script then (stack0, false)
  else
    scan fuel
      (fun st opcode vch pc =>
         match step st opcode vch pc with inl st => inl st | inr s => inr (s, false) end)
      (fun st => (stack st, false))
      (fun st => (stack st, match vfExec st with [] => true | _ => false end))
      (mk_state stack0 [] [] script 0) script.

Definition EvalScript (stack0 : list bytes) (script : bytes) : list bytes * bool :=
  eval_fuel (length script) stack0 script.
End eval.

(** What the theorems rely on of the hash functions. *)
Class HashLaws `{Sha256} `{ScriptHashes} : Prop := {
  sha256_size v : length (sha256 v) = 32%nat /\ bytes_ok (sha256 v);
  ripemd160_size v : length (RIPEMD160 v) = 20%nat /\ bytes_ok (RIPEMD160 v);
  sha1_size v : length (SHA1 v) = 20%nat /\ bytes_ok (SHA1 v)
}.

(** ** Elements stay within their size *)

(** A stack element: bytes, no more than the largest push. *)
Definition elem_ok (v : bytes) : Prop := bytes_ok v /\ len v <= 520.
Definition stack_ok (s : list bytes) : Prop := Forall elem_ok s.
Definition state_ok (st : state) : Prop := stack_ok (stack st) /\ stack_ok (altstack st).
Definition result_ok (r : result) : Prop :=
  match r with inl st => state_ok st | inr s => stack_ok s end.

Section limits.
Context `{BNLaws} `{HashLaws} `{SigChecker}.

Lemma elem_false : elem_ok vchFalse.
Proof. by split; [constructor|]. Qed.
Lemma elem_true : elem_ok vchTrue.
Proof. by split; [repeat constructor|]. Qed.

Lemma elem_number z : Z.abs z <= 2 ^ 33 -> elem_ok (getvch z).
Proof.
  intros Hz. assert (len (num_bytes z) <= 5) as Hl by (apply (num_bytes_len z 5); lia).
  rewrite getvch_bytes by lia. split; [apply num_bytes_ok|lia].
Qed.

(** A number on the stack has at most 31 bits and a sign. *)
Lemma CastToBigNum_value v z :
  bytes_ok v -> CastToBigNum v = Some z -> z = num_value v /\ Z.abs z < 2 ^ 31.
Proof.
  intros Hv. unfold CastToBigNum, nMaxNumSize. destruct (Z.ltb_spec 4 (len v)) as [|Hl]; [done|].
  intros [= <-]. rewrite (setvch_value v) by (done || lia).
  assert (Z.abs (num_value v) < 2 ^ 31) as Ha.
  { unfold num_value. pose proof (le_value_range v Hv) as Hr. fold (len v) in Hr. pose proof (len_pos v).
    destruct (decide (len v = 0)) as [E|E]; [apply len_zero in E as ->; done|].
    assert (2 ^ (8 * len v - 1) <= 2 ^ 31) by (apply Z.pow_le_mono_r; lia).
    assert (2 ^ (8 * len v) = 2 * 2 ^ (8 * len v - 1)) as E2 by (rewrite <-Z.pow_succ_r by lia; f_equal; lia).
    rewrite Z.testbit_odd, Z.shiftr_div_pow2 by lia.
    destruct (decide (2 ^ (8 * len v - 1) <= le_value v)).
    - replace (le_value v / 2 ^ (8 * len v - 1)) with 1; [cbn [Z.odd]; lia|].
      apply (Z.div_unique_pos _ _ _ (le_value v - 2 ^ (8 * len v - 1))); lia.
    - rewrite Z.div_small by lia. cbn [Z.odd]. lia. }
  rewrite setvch_getvch; [done|]. pose proof (num_bytes_len (num_value v) 4). lia.
Qed.

Lemma bnZero_value : bnZero = 0. Proof. by apply CBigNum_long_value. Qed.
Lemma bnOne_value : bnOne = 1. Proof. by apply CBigNum_long_value. Qed.
Lemma CBool_value b : CBool b = if b then 1 else 0.
Proof. unfold CBool. by destruct b; apply CBigNum_long_value. Qed.

Lemma unary_bound c z : Z.abs z < 2 ^ 31 -> Z.abs (unary c z) <= 2 ^ 33.
Proof.
  intros Hz. unfold unary. rewrite bnOne_value, bnZero_value, !CBool_value, bn_add_eq, bn_sub_eq, bn_neg_value.
  repeat case_match; lia.
Qed.

Lemma binary_bound c a b : Z.abs a < 2 ^ 31 -> Z.abs b < 2 ^ 31 -> Z.abs (binary c a b) <= 2 ^ 33.
Proof.
  intros Ha Hb. unfold binary. rewrite !CBool_value, bn_add_eq, bn_sub_eq.
  repeat match goal with |- context [if ?c then _ else _] => destruct c end; lia.
Qed.

Lemma hash_elem c v : elem_ok (hash_op c v).
Proof.
  assert (forall h : bytes, length h = 20%nat /\ bytes_ok h -> elem_ok h) as H20.
  { intros h [Hl Hb]. split; [done|]. unfold len. lia. }
  unfold hash_op, Hash160. repeat case_match.
  - apply H20, ripemd160_size.
  - apply H20, sha1_size.
  - destruct (sha256_size v). split; [done|]. unfold len. lia.
  - apply H20, ripemd160_size.
  - split; [apply le_bytes_ok|]. unfold len. by rewrite uint256_bytes_length.
Qed.

Ltac stack_inv := unfold stack_ok in *; repeat match goal with H : Forall _ (_ :: _) |- _ => inversion_clear H end.

Create HintDb elems.
Hint Resolve elem_false elem_true hash_elem : elems.
Hint Constructors Forall : elems.

Lemma stack_op_ok c s s' : len s < 2 ^ 31 -> stack_ok s -> stack_op c s = Some s' -> stack_ok s'.
Proof.
  intros Hl Hs. unfold stack_op.
  assert (forall n, 0 <= n < 2 ^ 31 -> elem_ok (getvch (CBigNum_ulong n))) as Hn.
  { intros n Hn. rewrite CBigNum_ulong_value by lia. apply elem_number. lia. }
  pose proof (len_pos s).
  repeat match goal with |- (if ?c then _ else _) = _ -> _ => destruct c end;
    repeat match goal with |- match ?s with [] => _ | _ => _ end = _ -> _ => destruct s; try done end;
    intros [= <-]; stack_inv; try (destruct (CastToBool _)); auto 20 with elems.
  constructor; [|auto with elems]. apply Hn. match goal with H : elem_ok _ |- _ => destruct H end.
  pose proof (len_pos l). lia.
Qed.

Lemma with_stack_ok s st : state_ok st -> stack_ok s -> state_ok (with_stack s st).
Proof. intros [_ Ha] Hs. by split. Qed.

Lemma push_result_ok st verify ok s : state_ok st -> stack_ok s -> result_ok (push_result st verify ok s).
Proof.
  intros Hst Hs. unfold push_result. destruct verify, ok; cbn; try apply with_stack_ok; unfold stack_ok; auto with elems.
Qed.

Lemma on_stack_ok st o :
  state_ok st -> (forall s, o = Some s -> stack_ok s) -> result_ok (on_stack st o).
Proof. intros Hst Ho. destruct o; [by apply with_stack_ok; auto|apply Hst]. Qed.

Lemma stack_at s i : stack_ok s -> elem_ok (at_ [] s i).
Proof.
  intros Hs. unfold at_. destruct (i <? 0); [apply elem_false|]. rewrite nth_lookup.
  destruct (s !! Z.to_nat i) eqn:E; [by eapply Forall_lookup_1 in E|apply elem_false].
Qed.

Ltac open_state Hst Hs :=
  match type of Hst with state_ok ?st => destruct st as [s al vf code nops] end;
  pose proof Hst as [Hs _]; cbn [stack] in *.

Lemma pick_roll_ok c st : state_ok st -> result_ok (pick_roll c st).
Proof.
  intros Hst. open_state Hst Hs. unfold pick_roll; cbn [stack].
  destruct s as [|top [|x s]]; [done..|]. destruct (CastToBigNum top); [|done].
  assert (stack_ok (x :: s)) by (by inversion Hs).
  destruct (_ || _); [done|]. apply with_stack_ok; [done|]. constructor; [by apply stack_at|].
  destruct (c =? OP_ROLL); [by apply Forall_delete|done].
Qed.

Lemma equal_op_ok c st : state_ok st -> result_ok (equal_op c st).
Proof.
  intros Hst. open_state Hst Hs. unfold equal_op; cbn [stack]. destruct s as [|a [|b s]]; [done..|].
  apply push_result_ok; [done|]. by stack_inv.
Qed.

Lemma unary_op_ok c st : state_ok st -> result_ok (unary_op c st).
Proof.
  intros Hst. open_state Hst Hs. unfold unary_op; cbn [stack]. destruct s as [|a s]; [done|].
  destruct (CastToBigNum a) as [z|] eqn:Ez; [|done]. inversion_clear Hs as [|? ? [Ha _] Hs'].
  apply CastToBigNum_value in Ez as [_ Hz]; [|done]. apply with_stack_ok; [done|].
  constructor; [|done]. by apply elem_number, unary_bound.
Qed.

Lemma binary_op_ok c st : state_ok st -> result_ok (binary_op c st).
Proof.
  intros Hst. open_state Hst Hs. unfold binary_op; cbn [stack]. destruct s as [|a [|b s]]; [done..|].
  pose proof Hs as Hs0. inversion_clear Hs0 as [|? ? [Ha _] Hs1]. inversion_clear Hs1 as [|? ? [Hb _] Hs'].
  destruct (CastToBigNum b) as [zb|] eqn:Eb; [|done].
  destruct (CastToBigNum a) as [za|] eqn:Ea; [|done].
  apply CastToBigNum_value in Ea as [_ Hza]; [|done]. apply CastToBigNum_value in Eb as [_ Hzb]; [|done].
  assert (elem_ok (getvch (binary c zb za))) by (by apply elem_number, binary_bound).
  destruct (c =? _); [destruct (CastToBool _)|]; try apply with_stack_ok; cbn; try done; by constructor.
Qed.

Lemma within_op_ok st : state_ok st -> result_ok (within_op st).
Proof.
  intros Hst. open_state Hst Hs. unfold within_op; cbn [stack].
  destruct s as [|a [|b [|c s]]]; [done..|]. repeat case_match; try done.
  apply push_result_ok; [done|]. by stack_inv.
Qed.

Lemma checksig_op_ok c st : state_ok st -> result_ok (checksig_op c st).
Proof.
  intros Hst. open_state Hst Hs. unfold checksig_op; cbn [stack]. destruct s as [|a [|b s]]; [done..|].
  apply push_result_ok; [done|]. by stack_inv.
Qed.

Lemma checkmultisig_op_ok c st : state_ok st -> result_ok (checkmultisig_op c st).
Proof.
  intros Hst. pose proof Hst as [Hs _]. unfold checkmultisig_op. 
  repeat case_match; try done. apply push_result_ok; [done|]. by apply Forall_drop.
Qed.

Lemma if_op_ok c fExec st : state_ok st -> result_ok (if_op c fExec st).
Proof.
  intros Hst. open_state Hst Hs. unfold if_op; cbn [stack]. destruct fExec; [|done].
  destruct s as [|a s]; [done|]. apply (with_stack_ok s) in Hst; [done|]. by stack_inv.
Qed.

Lemma exec_ok fExec c pc st :
  len (stack st) < 2 ^ 31 -> state_ok st -> byte_ok c -> result_ok (exec fExec c pc st).
Proof.
  intros Hl Hst Hc. unfold exec, byte_ok in *.
  repeat match goal with |- result_ok (if ?b then _ else _) => destruct b eqn:? end;
    auto using if_op_ok, pick_roll_ok, equal_op_ok, unary_op_ok, binary_op_ok, within_op_ok, checksig_op_ok, checkmultisig_op_ok.
  all: open_state Hst Hs; pose proof Hst as [_ Ha]; cbn [altstack] in Ha.
  - apply with_stack_ok; [done|]. constructor; [|done]. rewrite CBigNum_long_value by (unfold OP_1; lia).
    apply elem_number. unfold OP_1. lia.
  - unfold else_op. by destruct vf.
  - unfold endif_op. by destruct vf.
  - apply on_stack_ok; [done|]. intros s'. destruct s as [|v s]; [done|]. stack_inv.
    destruct (CastToBool v); [by intros [= <-]|done].
  - done.
  - destruct s as [|v s]; [done|]. stack_inv. repeat split; cbn; [done|by constructor].
  - cbn [altstack]. destruct al as [|v al]; [done|]. stack_inv. repeat split; cbn; [by constructor|done].
  - apply on_stack_ok; [done|]. intros s'. by apply stack_op_ok.
  - apply on_stack_ok; [done|]. intros s'. destruct s as [|v s]; [done|]. intros [= <-]. stack_inv. auto with elems.
  - done.
Qed.

(** ** The loop *)

Definition sizes_ok (st : state) : Prop := len (stack st) + len (altstack st) <= 1000.

Lemma step_ok st c vch pc :
  state_ok st -> sizes_ok st -> byte_ok c -> bytes_ok vch ->
  match step st c vch pc with
  | inl st => state_ok st /\ sizes_ok st
  | inr s => stack_ok s
  end.
Proof.
  intros Hst Hsz Hc Hv. unfold step. destruct (Z.ltb_spec 520 (len vch)); [apply Hst|].
  set (st' := if OP_16 <? c then with_nOpCount (nOpCount st + 1) st else st).
  assert (state_ok st' /\ sizes_ok st') as [Hst' Hsz'] by (unfold st'; by destruct (_ <? _)).
  clearbody st'. destruct (_ && _); [apply Hst'|]. destruct (disabled c); [apply Hst'|].
  assert (result_ok (dispatch (forallb id (vfExec st)) c vch pc st')) as Hr.
  { unfold dispatch. pose proof (len_pos (altstack st')). unfold sizes_ok in Hsz'.
    destruct (_ && _); [|destruct (_ || _)].
    - apply with_stack_ok; [done|]. constructor; [by split|apply Hst'].
    - apply exec_ok; [lia|done|done].
    - apply Hst'. }
  destruct (dispatch _ _ _ _ _) as [st''|s]; [|done]. destruct (Z.ltb_spec 1000 (len (stack st'') + len (altstack st''))); [apply Hr|].
  by split.
Qed.

(** C39. On a stack of at most 1000 elements of at most 520 bytes, whatever the script
    does leaves elements of at most 520 bytes, and a script that succeeds leaves at most
    1000 of them. *)
Theorem eval_limits stack0 script :
  bytes_ok script -> stack_ok stack0 -> len stack0 <= 1000 ->
  stack_ok (EvalScript stack0 script).1 /\
  ((EvalScript stack0 script).2 = true -> len (EvalScript stack0 script).1 <= 1000).
Proof.
  intros Hscript Hs Hl. unfold EvalScript, eval_fuel. destruct (10000 <? len script); [done|].
  pattern (scan (length script)
    (fun st opcode vch pc => match step st opcode vch pc with inl st => inl st | inr s => inr (s, false) end)
    (fun st => (stack st, false)) (fun st => (stack st, match vfExec st with [] => true | _ => false end))
    (mk_state stack0 [] [] script 0) script).
  apply (scan_invariant _ _ _ (fun st pc => state_ok st /\ sizes_ok st /\ bytes_ok pc)).
  - intros st pc c vch pc' (Hst & Hsz & Hpc) E. destruct (GetOp_bytes _ _ _ _ Hpc E) as (Hc & Hv & Hpc').
    pose proof (step_ok st c vch pc' Hst Hsz Hc Hv) as Hstep. destruct (step st c vch pc'); [|done].
    by destruct Hstep.
  - intros st pc (Hst & _). by split; [apply Hst|].
  - intros st (Hst & Hsz & _). split; [apply Hst|]. intros _. unfold sizes_ok in Hsz.
    pose proof (len_pos (altstack st)). cbn. lia.
  - split_and!; [by split; [|constructor]| |done]. unfold sizes_ok. cbn. unfold len in *. cbn. lia.
Qed.
End limits.

(** ** Running *)

(** Tests on known opcodes compute. *)
Ltac closed_test t :=
  let v := eval vm_compute in t in
  first [constr_eq v true | constr_eq v false]; change t with v.
Ltac closed_tests :=
  unfold is_nop, one_of, disabled, stack_opcodes, unary_opcodes, binary_opcodes, hash_opcodes;
  cbn [existsb];
  repeat (match goal with
          | |- context [Z.eqb ?a ?b] => closed_test (Z.eqb a b)
          | |- context [Z.leb ?a ?b] => closed_test (Z.leb a b)
          | |- context [Z.ltb ?a ?b] => closed_test (Z.ltb a b)
          end; cbn [andb orb negb]).

Section running.
Context `{OpenSSLBN} `{Sha256} `{ScriptHashes} `{SigChecker}.

(** The evaluation terminates: the length of the script is enough fuel, and more
    fuel does not change the stack it leaves or its result. *)
Theorem eval_terminates n stack0 script :
  (length script <= n)%nat -> eval_fuel n stack0 script = EvalScript stack0 script.
Proof.
  intros Hn. unfold EvalScript, eval_fuel. destruct (10000 <? len script); [done|]. by apply scan_fuel.
Qed.

(** The evaluation from a state and a position on. *)
Definition eval_from (st : state) (pc : bytes) : list bytes * bool :=
  scan (length pc)
    (fun st opcode vch pc => match step st opcode vch pc with inl st => inl st | inr s => inr (s, false) end)
    (fun st => (stack st, false)) (fun st => (stack st, match vfExec st with [] => true | _ => false end)) st pc.

Lemma EvalScript_from stack0 script :
  len script <= 10000 -> EvalScript stack0 script = eval_from (mk_state stack0 [] [] script 0) script.
Proof. intros Hl. unfold EvalScript, eval_fuel. by destruct (Z.ltb_spec 10000 (len script)); [lia|]. Qed.

Lemma eval_step st pc c vch pc' :
  GetOp pc = Some (c, vch, pc') ->
  eval_from st pc = match step st c vch pc' with inl st' => eval_from st' pc' | inr s => (s, false) end.
Proof.
  intros E. unfold eval_from. rewrite scan_step by by intros ->. rewrite E. by destruct (step st c vch pc').
Qed.

Definition room (st : state) (n : Z) : Prop := len (stack st) + len (altstack st) + n <= 1000.

Lemma step_push st v pc :
  forallb id (vfExec st) = true -> len v <= 520 -> room st 1 ->
  step st (push_op v) v pc = inl (with_stack (v :: stack st) st).
Proof.
  intros Hv Hl Hroom. unfold step, room in *. destruct (Z.ltb_spec 520 (len v)); [lia|].
  assert (0 <= push_op v <= 78) as Hop.
  { unfold push_op. pose proof (len_pos v). unfold OP_PUSHDATA1, OP_PUSHDATA2, OP_PUSHDATA4. repeat split_guard; lia. }
  destruct (Z.ltb_spec OP_16 (push_op v)) as [Hc|_]; [unfold OP_16 in Hc; lia|]. cbn [andb].
  assert (disabled (push_op v) = false) as -> by (unfold disabled, OP_CAT, OP_SUBSTR, OP_LEFT, OP_RIGHT, OP_INVERT,
    OP_AND, OP_OR, OP_XOR, OP_2MUL, OP_2DIV, OP_MUL, OP_DIV, OP_MOD, OP_LSHIFT, OP_RSHIFT; lia).
  unfold dispatch. rewrite Hv. destruct (Z.leb_spec (push_op v) OP_PUSHDATA4) as [_|Hc]; [|unfold OP_PUSHDATA4 in Hc; lia].
  cbn [andb with_stack stack altstack]. rewrite len_cons.
  by destruct (Z.ltb_spec 1000 (1 + len (stack st) + len (altstack st))); [lia|].
Qed.

Lemma eval_pushes vs st rest :
  forallb id (vfExec st) = true -> Forall (fun v => len v <= 520) vs -> room st (len vs) ->
  len (PushAll vs ++ rest) <= 10000 ->
  eval_from st (PushAll vs ++ rest) = eval_from (with_stack (rev vs ++ stack st) st) rest.
Proof.
  intros Hx Hvs. revert st Hx. induction Hvs as [|v vs Hv Hvs IH]; intros st Hx Hroom Hl.
  { by destruct st. }
  unfold PushAll in *. cbn [map concat] in *. fold (PushAll vs) in *. rewrite <-app_assoc in *.
  unfold room in *. rewrite len_cons in Hroom. pose proof (len_pos vs).
  rewrite len_app in Hl. pose proof (len_push_data v). pose proof (len_pos v). pose proof (len_pos (PushAll vs ++ rest)).
  rewrite (eval_step _ _ (push_op v) v (PushAll vs ++ rest)) by (apply GetOp_push; rewrite len_app; lia).
  rewrite step_push by (done || unfold room; lia).
  rewrite IH; [|done|cbn [with_stack stack altstack]; rewrite len_cons; lia|lia].
  cbn [rev with_stack stack altstack vfExec pbegincodehash nOpCount]. by rewrite <-app_assoc.
Qed.

(** A script of pushes succeeds and leaves the values on the stack, the last on top. *)
Theorem eval_push_all vs stack0 :
  Forall (fun v => len v <= 520) vs -> len stack0 + len vs <= 1000 -> len (PushAll vs) <= 10000 ->
  EvalScript stack0 (PushAll vs) = (rev vs ++ stack0, true).
Proof.
  intros Hvs Hroom Hl. rewrite EvalScript_from by done. rewrite <-(app_nil_r (PushAll vs)) at 2.
  rewrite eval_pushes; [done|done|done| |by rewrite app_nil_r].
  unfold room. cbn [stack altstack]. change (len []) with 0. lia.
Qed.

(** Nothing happens in a branch that is not executed, but for nested conditionals. *)
Theorem step_skipped st c vch pc st' :
  forallb id (vfExec st) = false -> step st c vch pc = inl st' ->
  stack st' = stack st /\ altstack st' = altstack st /\ pbegincodehash st' = pbegincodehash st.
Proof.
  intros Hx. unfold step. destruct (520 <? len vch); [done|].
  set (st1 := if OP_16 <? c then with_nOpCount (nOpCount st + 1) st else st).
  assert (stack st1 = stack st /\ altstack st1 = altstack st /\ pbegincodehash st1 = pbegincodehash st) as Hst1
    by (unfold st1; by destruct (_ <? _)).
  clearbody st1. destruct (_ && _); [done|]. destruct (disabled c); [done|]. unfold dispatch. rewrite Hx. cbn [andb orb].
  destruct (_ && _) eqn:Hc; [|by destruct (1000 <? _); intros [= <-]]. bool_prop.
  unfold OP_IF, OP_ENDIF in *.
  assert (c = OP_IF \/ c = OP_NOTIF \/ c = OP_VERIF \/ c = OP_VERNOTIF \/ c = OP_ELSE \/ c = OP_ENDIF) as Hcs
    by (unfold OP_IF, OP_NOTIF, OP_VERIF, OP_VERNOTIF, OP_ELSE, OP_ENDIF; lia).
  destruct Hcs as [->|[->|[->|[->|[->| ->]]]]]; unfold exec, if_op, else_op, endif_op; closed_tests;
    try destruct (vfExec st1); try done; by destruct (1000 <? _); intros [= <-].
Qed.

Lemma step_op st c pc :
  forallb id (vfExec st) = true -> OP_16 < c -> nOpCount st < 201 -> disabled c = false ->
  step st c [] pc =
    match exec true c pc (with_nOpCount (nOpCount st + 1) st) with
    | inr s => inr s
    | inl st => if 1000 <? len (stack st) + len (altstack st) then inr (stack st) else inl st
    end.
Proof.
  intros Hx Hc Hn Hd. unfold step. change (520 <? len []) with false. cbv iota.
  rewrite Hx, Hd. destruct (Z.ltb_spec OP_16 c); [|lia]. cbn [andb with_nOpCount nOpCount].
  destruct (Z.ltb_spec 201 (nOpCount st + 1)); [lia|]. unfold dispatch.
  destruct (Z.leb_spec c OP_PUSHDATA4) as [Hle|_]; [unfold OP_16, OP_PUSHDATA4 in *; lia|]. done.
Qed.

Lemma GetOp_opcode c rest : OP_PUSHDATA4 < c -> GetOp (c :: rest) = Some (c, [], rest).
Proof. intros Hc. unfold GetOp, GetOp2. by destruct (Z.leb_spec c OP_PUSHDATA4); [lia|]. Qed.

End running.

(** Running one opcode that is not a push. *)
Ltac run_op :=
  match goal with |- context [eval_from ?st (?c :: ?r)] =>
    rewrite (eval_step st (c :: r) c [] r) by (apply GetOp_opcode; vm_compute; reflexivity) end;
  rewrite step_op by (done || (cbn; lia));
  unfold exec; closed_tests; cbn [with_nOpCount stack altstack vfExec pbegincodehash nOpCount].
Ltac no_overflow :=
  match goal with |- context [1000 <? ?n] =>
    destruct (Z.ltb_spec 1000 n) as [Hov|_];
      [exfalso; cbn [with_nOpCount with_stack stack altstack] in Hov; lens; lia|] end.

Ltac state_now :=
  unfold with_stack, with_nOpCount; cbn [stack altstack vfExec pbegincodehash nOpCount].

Section outcomes.
Context `{OpenSSLBN} `{Sha256} `{ScriptHashes} `{SigChecker}.

(** The script that pays to the hash of a key. *)
Definition pay_to_key_hash (h : bytes) : bytes :=
  [OP_DUP; OP_HASH160] ++ push_hash h ++ [OP_EQUALVERIFY; OP_CHECKSIG].

Lemma push_hash_data h : len h = 20 -> push_hash h = push_data h.
Proof. intros Hl. unfold push_hash, push_data. by rewrite Hl. Qed.

Lemma eval_pay_to_key_hash_value h vchPubKey vchSig s :
  len h = 20 -> len s <= 900 ->
  EvalScript (vchPubKey :: vchSig :: s) (pay_to_key_hash h) =
    if vch_eq (Hash160 vchPubKey) h then
      ((if check_one (FindAndDelete (pay_to_key_hash h) (push_data vchSig)).1 vchSig vchPubKey
        then vchTrue else vchFalse) :: s, true)
    else (vchFalse :: vchPubKey :: vchSig :: s, false).
Proof.
  intros Hh Hs. assert (len (push_data h) = 21) as Hp by
    (rewrite <-push_hash_data by done; unfold push_hash; rewrite len_cons; lia).
  rewrite EvalScript_from by (unfold pay_to_key_hash; rewrite push_hash_data by done; lens; lia).
  set (script := pay_to_key_hash h) at 1 3. unfold pay_to_key_hash. rewrite push_hash_data by done. cbn [app].
  run_op. unfold stack_op; closed_tests. cbn [on_stack with_stack stack altstack]. no_overflow. 
  run_op. unfold hash_op; closed_tests. cbn [on_stack with_stack stack altstack]. no_overflow.
  state_now.
  rewrite (eval_step _ _ (push_op h) h [OP_EQUALVERIFY; OP_CHECKSIG]) by (apply GetOp_push; lens; lia).
  rewrite step_push by (done || (unfold room; cbn [stack altstack]; lens; lia)). state_now.
  run_op. unfold equal_op; closed_tests. cbn [stack with_nOpCount].
  unfold vch_eq, push_result. destruct (bool_decide_reflect (Hash160 vchPubKey = h)) as [->|Hne]; [|done].
  no_overflow. state_now.
  run_op. unfold checksig_op; closed_tests. cbn [stack with_nOpCount pbegincodehash].
  unfold push_result. no_overflow. state_now. done.
Qed.

(** ** The operation count *)

Definition count_ok (n : Z) (r : result) : Prop :=
  match r with inl st => n <= nOpCount st /\ (n <= 201 -> nOpCount st <= 201) | inr _ => True end.

Lemma push_result_count st verify ok s : count_ok (nOpCount st) (push_result st verify ok s).
Proof. unfold push_result. destruct verify, ok; cbn; lia. Qed.

Lemma on_stack_count st o : count_ok (nOpCount st) (on_stack st o).
Proof. destruct o; cbn; lia. Qed.

Lemma checkmultisig_count c st : count_ok (nOpCount st) (checkmultisig_op c st).
Proof.
  unfold checkmultisig_op. repeat case_match; try done. bool_prop. cbn [with_nOpCount nOpCount] in *.
  match goal with |- count_ok ?n (push_result ?st ?v ?ok ?s) => pose proof (push_result_count st v ok s) as Hc end.
  destruct (push_result _ _ _ _); [|done]. cbn [count_ok with_nOpCount nOpCount] in *. lia.
Qed.

Lemma exec_count fExec c pc st : count_ok (nOpCount st) (exec fExec c pc st).
Proof.
  unfold exec.
  repeat match goal with |- count_ok _ (if ?b then _ else _) => destruct b end;
    auto using on_stack_count, checkmultisig_count; try (cbn; lia).
  all: unfold if_op, else_op, endif_op, pick_roll, equal_op, unary_op, binary_op, within_op, checksig_op;
    repeat case_match; auto using push_result_count; cbn; lia.
Qed.

Definition counted (l : list op) : Z := len (List.filter (fun o => OP_16 <? op_code o) l).

(** What every operation of a script that succeeds meets. *)
Definition op_allowed (o : op) : Prop := len (op_data o) <= 520 /\ disabled (op_code o) = false.

Lemma step_count st c vch pc st' :
  step st c vch pc = inl st' ->
  len vch <= 520 /\ disabled c = false /\
  nOpCount st + (if OP_16 <? c then 1 else 0) <= nOpCount st' /\ (nOpCount st <= 201 -> nOpCount st' <= 201).
Proof.
  unfold step. destruct (Z.ltb_spec 520 (len vch)); [done|].
  assert (forall st1, nOpCount st1 <= 201 \/ nOpCount st1 = nOpCount st ->
    match dispatch (forallb id (vfExec st)) c vch pc st1 with
    | inl st => if 1000 <? len (stack st) + len (altstack st) then inr (stack st) else inl st
    | inr s => inr s end = inl st' ->
    nOpCount st1 <= nOpCount st' /\ (nOpCount st <= 201 -> nOpCount st' <= 201)) as Hd.
  { intros st1 Hst1. assert (count_ok (nOpCount st1) (dispatch (forallb id (vfExec st)) c vch pc st1)) as Hc.
    { unfold dispatch. destruct (_ && _); [cbn; lia|]. destruct (_ || _); [apply exec_count|cbn; lia]. }
    destruct (dispatch _ _ _ _ _) as [st2|]; [|done]. cbn in Hc. destruct (1000 <? _); [done|]. intros [= <-]. lia. }
  destruct (OP_16 <? c); cbn [andb with_nOpCount nOpCount].
  - destruct (Z.ltb_spec 201 (nOpCount st + 1)); [done|]. destruct (disabled c); [done|].
    intros E. apply Hd in E; cbn in *; [|lia]. lia.
  - destruct (disabled c); [done|]. intros E. apply Hd in E; [|by right]. lia.
Qed.

Lemma eval_from_count st pc s :
  nOpCount st <= 201 -> eval_from st pc = (s, true) ->
  (ops pc).2 = [] /\ Forall op_allowed (ops pc).1 /\ nOpCount st + counted (ops pc).1 <= 201.
Proof.
  revert st. induction pc as [pc IH] using script_ind. intros st Hn E.
  destruct (GetOp pc) as [[[c d] pc']|] eqn:Eop.
  - rewrite (eval_step _ _ _ _ _ Eop) in E. destruct (step st c d pc') as [st'|] eqn:Es; [|done].
    apply step_count in Es as (Hd & Hc & Hle & H201). apply IH in E as (Ht & Hall & Hcount); [|by eapply GetOp_shorter|auto].
    rewrite ops_step, Eop. destruct (ops pc') as [l tail]. cbn [fst snd] in *. split_and!; [done|by constructor|].
    unfold counted in *. cbn [List.filter op_code]. destruct (OP_16 <? c); [rewrite len_cons|]; lia.
  - destruct pc; [|by unfold eval_from in E; rewrite scan_step, Eop in E].
    cbn. unfold counted. cbn. rewrite len_nil. split_and!; [done|constructor|lia].
Qed.

(** A script that succeeds is readable to its end, is at most 10,000 bytes long, has
    no disabled opcode and no push of more than 520 bytes in any branch, executed or
    not, and has at most 201 opcodes that are not pushes. *)
Theorem eval_success_within_limits stack0 script s :
  EvalScript stack0 script = (s, true) ->
  len script <= 10000 /\ (ops script).2 = [] /\ Forall op_allowed (ops script).1 /\
  counted (ops script).1 <= 201.
Proof.
  intros E. assert (len script <= 10000) as Hl.
  { unfold EvalScript, eval_fuel in E. by destruct (Z.ltb_spec 10000 (len script)). }
  split; [done|]. rewrite EvalScript_from in E by done. by apply eval_from_count in E; [|cbn; lia].
Qed.
End outcomes.

(** ** Instances to evaluate with *)

Definition toy_hashes : ScriptHashes := {|
  RIPEMD160 v := take 20 (toy_sha256 v);
  SHA1 v := take 20 (toy_sha256 (0 :: v))
|}.
Lemma toy_hash_laws : HashLaws (H := toy_sha256 : Sha256) (H0 := toy_hashes).
Proof.
  split; intros v; unfold sha256; cbn [RIPEMD160 SHA1 toy_hashes]; unfold toy_sha256;
    (split; [rewrite ?length_take, le_bytes_length; done|auto with bytes_db]).
Qed.

(** A signature that verifies is the key followed by a canonical suffix. *)
Definition toy_checker : SigChecker := fun vchSig vchPubKey scriptCode => bool_decide (take 1 vchSig = [0x30]).

#[local] Instance toy_sha : Sha256 := toy_sha256.
Local Existing Instances z_bn toy_hashes toy_checker z_bn_laws toy_hash_laws.

Definition toy_sig : bytes := [0x30; 6; 2; 1; 1; 2; 1; 1; 1].
Definition toy_key : bytes := 2 :: replicate 32 7.

Example toy_sig_canonical : IsCanonicalSignature toy_sig = true /\ IsCanonicalPubKey toy_key = true.
Proof. by vm_compute. Qed.

Lemma eval_limits_witness :
  stack_ok (EvalScript [[3]] [OP_1; OP_ADD; OP_DUP; OP_SHA1]).1 /\
  len (EvalScript [[3]] [OP_1; OP_ADD; OP_DUP; OP_SHA1]).1 <= 1000.
Proof.
  destruct (eval_limits [[3]] [OP_1; OP_ADD; OP_DUP; OP_SHA1]) as [Hs Hl].
  - repeat (constructor; [by vm_compute|]). constructor.
  - constructor; [|constructor]. split; [|by vm_compute]. constructor; [by vm_compute|constructor].
  - by vm_compute.
  - split; [exact Hs|]. apply Hl. vm_compute. reflexivity.
Defined.

Lemma eval_terminates_witness :
  eval_fuel 1000 [] [OP_1; OP_IF; OP_2; OP_ELSE; OP_3; OP_ENDIF] = EvalScript [] [OP_1; OP_IF; OP_2; OP_ELSE; OP_3; OP_ENDIF].
Proof. apply (eval_terminates 1000). vm_compute. repeat constructor. Defined.

Lemma eval_push_all_witness : EvalScript [[9]] (PushAll [toy_sig; toy_key]) = ([toy_key; toy_sig; [9]], true).
Proof.
  apply (eval_push_all [toy_sig; toy_key] [[9]]); [|by vm_compute..].
  repeat (constructor; [by vm_compute|]). constructor.
Defined.

Lemma eval_success_within_limits_witness :
  counted (ops [OP_1; OP_DUP; OP_EQUAL]).1 <= 201.
Proof.
  destruct (eval_success_within_limits [] [OP_1; OP_DUP; OP_EQUAL] [vchTrue]) as (_ & _ & _ & Hc);
    [vm_compute; reflexivity|exact Hc].
Defined.

(** ** Multi-signatures *)

Section multisig.
Context `{SigChecker}.

(** The signatures verify against a selection of the keys, in the order of the keys. *)
Definition signed_by (scriptCode : bytes) (sigs keys : list bytes) : Prop :=
  exists ks, ks `sublist_of` keys /\ Forall2 (fun s k => check_one scriptCode s k = true) sigs ks.

Lemma signed_by_nil code keys : signed_by code [] keys.
Proof. exists []. split; [apply sublist_nil_l|constructor]. Qed.

Lemma signed_by_short code sigs keys : signed_by code sigs keys -> (length sigs <= length keys)%nat.
Proof. intros (ks & Hs & Hf). rewrite (Forall2_length _ _ _ Hf). by apply sublist_length. Qed.

Lemma signed_by_skip code sigs k keys : signed_by code sigs keys -> signed_by code sigs (k :: keys).
Proof. intros (ks & Hs & Hf). exists ks. split; [by constructor|done]. Qed.

(** If the first signature verifies against the first key, nothing is lost by
    matching the two. *)
Lemma signed_by_match code s sigs k keys :
  check_one code s k = true -> signed_by code (s :: sigs) (k :: keys) <-> signed_by code sigs keys.
Proof.
  intros Hk. split; intros (ks & Hs & Hf).
  - inversion Hf as [|? k' ? ks' _ Hf']; subst. exists ks'. split; [|done].
    apply sublist_cons_r in Hs as [Hs|(l & [= _ ->] & Hs)]; [|done].
    etrans; [|exact Hs]. by apply sublist_cons.
  - exists (k :: ks). split; [by apply sublist_skip|by constructor].
Qed.

Lemma signed_by_no_match code s sigs k keys :
  check_one code s k = false -> signed_by code (s :: sigs) (k :: keys) <-> signed_by code (s :: sigs) keys.
Proof.
  intros Hk. split; [|apply signed_by_skip]. intros (ks & Hs & Hf).
  inversion Hf as [|? k' ? ks' Hsk Hf']; subst.
  apply sublist_cons_r in Hs as [Hs|(l & [= -> ->] & Hs)]; [|congruence]. by exists (k' :: ks').
Qed.

(** A multi-signature check succeeds exactly when the signatures verify against a
    selection of the keys in the same order: trying each signature on the next key
    and giving up when signatures outnumber keys misses no selection. *)
Theorem multisig_matches scriptCode keys sigs :
  (length sigs <= length keys)%nat ->
  multisig scriptCode keys sigs = true <-> signed_by scriptCode sigs keys.
Proof.
  revert sigs. induction keys as [|k keys IH]; intros sigs Hl.
  { destruct sigs; [|simpl in Hl; lia]. split; [|done]. intros _. apply signed_by_nil. }
  destruct sigs as [|s sigs]; cbn [multisig]; [split; [|done]; intros _; apply signed_by_nil|].
  simpl in Hl. destruct (check_one scriptCode s k) eqn:Hk.
  - rewrite signed_by_match by done.
    destruct (Z.ltb_spec (len keys) (len sigs)); [unfold len in *; lia|]. apply IH. lia.
  - rewrite signed_by_no_match by done. destruct (Z.ltb_spec (len keys) (len (s :: sigs))) as [Hlt|Hge].
    + split; [done|]. intros Hs%signed_by_short. unfold len in *. simpl in *. lia.
    + apply IH. unfold len in Hge. simpl in *. lia.
Qed.
End multisig.

Lemma multisig_matches_witness :
  @multisig (fun s k _ => bool_decide (last s = last k)) [] [toy_key; 3 :: replicate 32 1; toy_key] [toy_sig] = true.
Proof.
  apply (@multisig_matches (fun s k _ => bool_decide (last s = last k)) [] _ [toy_sig]); [vm_compute; repeat constructor|].
  exists [3 :: replicate 32 1]. split.
  - apply sublist_cons, sublist_skip, sublist_nil_l.
  - constructor; [vm_compute; reflexivity|constructor].
Defined.

End Interpreter.
