(* ===== verification/Standard.v ===== *)
(** * Output scripts and their spending ([src/script.cpp])

    The templates of standard output scripts ([Solver]), the destinations they pay
    to, and the verification of an input against the script it spends
    ([VerifyScript]). *)

From S2P Require Import Prelude Crypto BigNum Script Interpreter.
Import BigNum Script Interpreter.

Module Standard.

Inductive txnouttype :=
  TX_NONSTANDARD | TX_PUBKEY | TX_PUBKEYHASH | TX_SCRIPTHASH | TX_MULTISIG | TX_NULL_DATA.

#[export] Instance txnouttype_eq_dec : EqDecision txnouttype.
Proof. solve_decision. Defined.

(** A [uint160] is its 20 bytes. *)
Inductive CTxDestination :=
  | CNoDestination
  | CKeyID (h : bytes)
  | CScriptID (h : bytes).

(** ** Templates *)

(** [mTemplates], in the order of the map. *)
Definition mTemplates : list (txnouttype * bytes) :=
  [(TX_PUBKEY, [OP_PUBKEY; OP_CHECKSIG]);
   (TX_PUBKEYHASH, [OP_DUP; OP_HASH160; OP_PUBKEYHASH; OP_EQUALVERIFY; OP_CHECKSIG]);
   (TX_MULTISIG, [OP_SMALLINTEGER; OP_PUBKEYS; OP_SMALLINTEGER; OP_CHECKMULTISIG])].

Definition pubkey_size (vch : bytes) : bool := (33 <=? len vch) && (len vch <=? 120).

(** The inner loop for [OP_PUBKEYS]: the keys are collected and the operation behind
    them is read.  Where [GetOp] fails it leaves no data and the invalid opcode; the
    position is not read again. *)
Fixpoint collect_keys (fuel : nat) (pc1 : bytes) (opcode1 : Z) (vch1 : bytes) (vSolutions : list bytes)
    : bytes * Z * bytes * list bytes :=
  match fuel with
  | O => (pc1, opcode1, vch1, vSolutions)
  | S f =>
      if pubkey_size vch1 then
        match GetOp pc1 with
        | None => (pc1, OP_INVALIDOPCODE, [], vSolutions ++ [vch1])
        | Some (opcode1', vch1', pc1') => collect_keys f pc1' opcode1' vch1' (vSolutions ++ [vch1])
        end
      else (pc1, opcode1, vch1, vSolutions)
  end.

(** What an operation of the script contributes for an operation of the template;
    [None] is [break]. *)
Definition match_op (opcode1 : Z) (vch1 : bytes) (opcode2 : Z) (vch2 : bytes) : option (list bytes) :=
  if opcode2 =? OP_PUBKEY then (if pubkey_size vch1 then Some [vch1] else None)
  else if opcode2 =? OP_PUBKEYHASH then (if len vch1 =? 20 then Some [vch1] else None)
  else if opcode2 =? OP_SMALLINTEGER then
    (if (opcode1 =? OP_0) || ((OP_1 <=? opcode1) && (opcode1 <=? OP_16))
     then Some [[u8 (DecodeOP_N opcode1)]] else None)
  else if negb (opcode1 =? opcode2) || negb (vch_eq vch1 vch2) then None else Some [].

(** The loop over the two scripts; a turn reads at least a byte of the template. *)
Fixpoint match_template (fuel : nat) (pc1 pc2 : bytes) (vSolutions : list bytes) : option (list bytes) :=
  match pc1, pc2, fuel with
  | [], [], _ => Some vSolutions
  | _, _, O => None
  | _, _, S f =>
      match GetOp pc1, GetOp pc2 with
      | Some (opcode1, vch1, pc1), Some (opcode2, vch2, pc2) =>
          if opcode2 =? OP_PUBKEYS then
            let '(pc1, opcode1, vch1, vSolutions) := collect_keys (S (length pc1)) pc1 opcode1 vch1 vSolutions in
            match GetOp pc2 with
            | None => None
            | Some (opcode2, vch2, pc2) =>
                match match_op opcode1 vch1 opcode2 vch2 with
                | None => None
                | Some l => match_template f pc1 pc2 (vSolutions ++ l)
                end
            end
          else
            match match_op opcode1 vch1 opcode2 vch2 with
            | None => None
            | Some l => match_template f pc1 pc2 (vSolutions ++ l)
            end
      | _, _ => None
      end
  end.

(** The numbers of a multi-signature script are consistent. *)
Definition multisig_counts (vSolutions : list bytes) : bool :=
  let m := at_ 0 (hd [] vSolutions) 0 in
  let n := at_ 0 (List.last vSolutions []) 0 in
  negb ((m <? 1) || (n <? 1) || (n <? m) || negb (len vSolutions - 2 =? n)).

(** The loop over the templates. *)
Fixpoint solve (script1 : bytes) (l : list (txnouttype * bytes)) : bool * txnouttype * list bytes :=
  match l with
  | [] => (false, TX_NONSTANDARD, [])
  | (t, script2) :: l =>
      match match_template (S (length script2)) script1 script2 [] with
      | None => solve script1 l
      | Some vSolutions =>
          match t with
          | TX_MULTISIG => (multisig_counts vSolutions, t, vSolutions)
          | _ => (true, t, vSolutions)
          end
      end
  end.

(** The result, [typeRet] and [vSolutionsRet], which the callers pass in empty. *)
Definition Solver (scriptPubKey : bytes) : bool * txnouttype * list bytes :=
  if IsPayToScriptHash scriptPubKey then (true, TX_SCRIPTHASH, [take 20 (drop 2 scriptPubKey)])
  else if (1 <=? len scriptPubKey) && (at_ 0 scriptPubKey 0 =? OP_RETURN) then
    (if len scriptPubKey <=? 83 then (true, TX_NULL_DATA, []) else (false, TX_NONSTANDARD, []))
  else solve scriptPubKey mTemplates.

Definition ScriptSigArgsExpected (t : txnouttype) (vSolutions : list bytes) : Z :=
  match t with
  | TX_NONSTANDARD => -1
  | TX_PUBKEY => 1
  | TX_PUBKEYHASH => 2
  | TX_MULTISIG =>
      if (len vSolutions <? 1) || (len (hd [] vSolutions) <? 1) then -1 else at_ 0 (hd [] vSolutions) 0 + 1
  | TX_SCRIPTHASH => 1
  | TX_NULL_DATA => -1
  end.

Definition IsStandard (scriptPubKey : bytes) : bool :=
  let '(ok, whichType, vSolutions) := Solver scriptPubKey in
  if negb ok then false
  else
    match whichType with
    | TX_MULTISIG =>
        let m := at_ 0 (hd [] vSolutions) 0 in
        let n := at_ 0 (List.last vSolutions []) 0 in
        if (n <? 1) || (3 <? n) then false else if (m <? 1) || (n <? m) then false else true
    | TX_NONSTANDARD => false
    | _ => true
    end.

(** ** Destinations *)

Section destinations.
Context `{OpenSSLBN} `{Sha256} `{ScriptHashes}.

(** [CPubKey::GetID] *)
Definition GetID (vchPubKey : bytes) : bytes := Hash160 vchPubKey.

Definition ExtractDestination (scriptPubKey : bytes) : option CTxDestination :=
  let '(ok, whichType, vSolutions) := Solver scriptPubKey in
  if negb ok then None
  else
    match whichType with
    | TX_PUBKEY => Some (CKeyID (GetID (hd [] vSolutions)))
    | TX_PUBKEYHASH => Some (CKeyID (hd [] vSolutions))
    | TX_SCRIPTHASH => Some (CScriptID (hd [] vSolutions))
    | _ => None
    end.

(** The type, the addresses and the number of signatures required. *)
Definition ExtractDestinations (scriptPubKey : bytes) : option (txnouttype * list CTxDestination * Z) :=
  let '(ok, typeRet, vSolutions) := Solver scriptPubKey in
  if negb ok then None
  else
    match typeRet with
    | TX_MULTISIG =>
        Some (typeRet, map (fun k => CKeyID (GetID k)) (take (length vSolutions - 2) (drop 1 vSolutions)),
          at_ 0 (hd [] vSolutions) 0)
    | _ =>
        match ExtractDestination scriptPubKey with
        | None => None
        | Some address => Some (typeRet, [address], 1)
        end
    end.

(** [CScriptVisitor]: the script and whether there is a destination. *)
Definition SetDestination (dest : CTxDestination) : bytes * bool :=
  match dest with
  | CNoDestination => ([], false)
  | CKeyID h => ([OP_DUP; OP_HASH160] ++ push_hash h ++ [OP_EQUALVERIFY; OP_CHECKSIG], true)
  | CScriptID h => ([OP_HASH160] ++ push_hash h ++ [OP_EQUAL], true)
  end.

Definition SetMultisig (nRequired : Z) (keys : list bytes) : bytes :=
  [EncodeOP_N nRequired] ++ concat (map push_data keys) ++ [EncodeOP_N (len keys); OP_CHECKMULTISIG].

End destinations.

(** ** Spending *)

Section spending.
Context `{OpenSSLBN} `{Sha256} `{ScriptHashes} `{SigChecker}.

(** [None] is undefined behaviour: [back()] of an empty vector. *)
Definition VerifyScript (scriptSig scriptPubKey : bytes) : option bool :=
  let '(stack, ok) := EvalScript [] scriptSig in
  if negb ok then Some false
  else
    let stackCopy := stack in
    let '(stack, ok) := EvalScript stack scriptPubKey in
    if negb ok then Some false
    else
      match stack with
      | [] => Some false
      | top :: _ =>
          if negb (CastToBool top) then Some false
          else if IsPayToScriptHash scriptPubKey then
            if negb (IsPushOnly scriptSig) then Some false
            else
              match stackCopy with
              | [] => None
              | pubKeySerialized :: stackCopy =>
                  let '(stackCopy, ok) := EvalScript stackCopy pubKeySerialized in
                  if negb ok then Some false
                  else
                    match stackCopy with
                    | [] => Some false
                    | top :: _ => Some (CastToBool top)
                    end
              end
          else Some true
      end.
End spending.

(** * Properties *)

(** ** Destinations *)

Lemma list_20 (h : bytes) :
  len h = 20 -> exists a0 a1 a2 a3 a4 a5 a6 a7 a8 a9 b0 b1 b2 b3 b4 b5 b6 b7 b8 b9,
    h = [a0; a1; a2; a3; a4; a5; a6; a7; a8; a9; b0; b1; b2; b3; b4; b5; b6; b7; b8; b9].
Proof.
  unfold len. intros Hl. do 20 (destruct h as [|? h]; [done|]). destruct h; [|simpl in Hl; lia].
  by do 20 eexists.
Qed.

Section destinations.
Context `{OpenSSLBN} `{Sha256} `{ScriptHashes}.

(** A destination is recovered from the script that pays to it: the script is of the
    standard type, and what is extracted is the destination. *)
Theorem destination_roundtrip dest :
  match dest with CNoDestination => False | CKeyID h | CScriptID h => len h = 20 end ->
  ExtractDestination (SetDestination dest).1 = Some dest /\ IsStandard (SetDestination dest).1 = true.
Proof.
  destruct dest as [|h|h]; [done|..]; intros Hh.
  - assert (Solver (SetDestination (CKeyID h)).1 = (true, TX_PUBKEYHASH, [h])) as E.
    { unfold SetDestination, push_hash. rewrite Hh. apply list_20 in Hh.
      do 20 destruct Hh as [? Hh]. subst h. reflexivity. }
    unfold ExtractDestination, IsStandard. by rewrite E.
  - assert (Solver (SetDestination (CScriptID h)).1 = (true, TX_SCRIPTHASH, [h])) as E.
    { unfold SetDestination, push_hash. rewrite Hh. apply list_20 in Hh.
      do 20 destruct Hh as [? Hh]. subst h. reflexivity. }
    unfold ExtractDestination, IsStandard. by rewrite E.
Qed.
End destinations.

(** ** Spending *)

Section spending.
Context `{OpenSSLBN} `{Sha256} `{ScriptHashes} `{SigChecker}.

Lemma p2sh_shape s :
  IsPayToScriptHash s = true ->
  exists h, len h = 20 /\ s = OP_HASH160 :: push_data h ++ [OP_EQUAL].
Proof.
  unfold IsPayToScriptHash. intros Hs. bool_prop.
  destruct s as [|a [|b s]]; unfold len in *; [done|done|]. at_eval. subst a b.
  match goal with Hl : Z.of_nat (length (_ :: _ :: s)) = 23 |- _ => cbn [length] in Hl; assert (length s = 21%nat) as Hl21 by lia end.
  exists (take 20 s). split; [rewrite length_take; lia|].
  f_equal. unfold push_data. assert (len (take 20 s) = 20) as -> by (unfold len; rewrite length_take; lia).
  cbn [Z.ltb Z.compare OP_PUSHDATA1]. change (if 20 <? OP_PUSHDATA1 then _ else _) with [20]. cbn [app]. f_equal.
  rewrite <-(take_drop 20 s) at 1. f_equal.
  assert (length (drop 20 s) = 1%nat) as Hd by (rewrite length_drop; lia).
  destruct (drop 20 s) as [|x [|]] eqn:Ed; try done.
  f_equal. match goal with Hx : nth _ s 0 = OP_EQUAL |- _ => rewrite <-Hx end.
  pose proof (nth_lookup s 20 0) as En. rewrite En. rewrite <-(Nat.add_0_r 20), <-lookup_drop, Ed. done.
Qed.

(** The script of a script hash on a stack. *)
Lemma eval_script_hash h s :
  len h = 20 -> len s <= 900 ->
  EvalScript s (OP_HASH160 :: push_data h ++ [OP_EQUAL]) =
    match s with
    | [] => ([], false)
    | redeem :: s => ((if vch_eq (Hash160 redeem) h then vchTrue else vchFalse) :: s, true)
    end.
Proof.
  intros Hh Hs. assert (len (push_data h) = 21) as Hp by
    (rewrite <-push_hash_data by done; unfold push_hash; rewrite len_cons; lia).
  rewrite EvalScript_from by (lens; lia). run_op.
  destruct s as [|redeem s]; [done|]. unfold hash_op; closed_tests.
  cbn [on_stack with_stack stack altstack]. no_overflow. state_now.
  rewrite (eval_step _ _ (push_op h) h [OP_EQUAL]) by (apply GetOp_push; lens; lia).
  rewrite step_push by (done || (unfold room; cbn [stack altstack]; lens; lia)). state_now.
  run_op. unfold equal_op; closed_tests. cbn [stack with_nOpCount]. unfold push_result. no_overflow. done.
Qed.

(** Verifying an input never takes the last element of an empty stack: whatever the
    two scripts are, the result is a verdict. *)
Theorem verify_script_defined scriptSig scriptPubKey : is_Some (VerifyScript scriptSig scriptPubKey).
Proof.
  unfold VerifyScript. destruct (EvalScript [] scriptSig) as [stack1 ok1]. destruct ok1; [|done]. cbn [negb].
  destruct (IsPayToScriptHash scriptPubKey) eqn:Ep.
  - apply p2sh_shape in Ep as (h & Hh & ->). destruct stack1 as [|redeem stack1].
    + rewrite eval_script_hash by (done || (lens; lia)). done.
    + repeat case_match; done.
  - repeat case_match; done.
Qed.

Lemma IsPushOnly_PushAll vs : len (PushAll vs) <= 10000 -> IsPushOnly (PushAll vs) = true.
Proof. intros Hl. apply push_roundtrip_push_only. lia. Qed.

Lemma PushAll_app a b : PushAll (a ++ b) = PushAll a ++ PushAll b.
Proof. unfold PushAll. by rewrite map_app, concat_app. Qed.

(** An output that pays to a key hash is spent by pushing a signature and a key
    exactly when the key has that hash and the signature is a canonical signature of
    the output's script by it. *)
Theorem verify_pay_to_key_hash h vchSig vchPubKey :
  len h = 20 -> len vchSig <= 520 -> len vchPubKey <= 520 ->
  VerifyScript (PushAll [vchSig; vchPubKey]) (SetDestination (CKeyID h)).1 =
    Some (vch_eq (Hash160 vchPubKey) h &&
          check_one (FindAndDelete (SetDestination (CKeyID h)).1 (push_data vchSig)).1 vchSig vchPubKey).
Proof.
  intros Hh Hs Hp. unfold VerifyScript.
  rewrite eval_push_all; [|by repeat constructor|by vm_compute|].
  2: { unfold PushAll. cbn [map concat]. pose proof (len_push_data_le vchSig). pose proof (len_push_data_le vchPubKey). lens. lia. }
  cbn [rev app negb]. change (SetDestination (CKeyID h)).1 with (pay_to_key_hash h).
  rewrite eval_pay_to_key_hash_value by (done || (lens; lia)).
  destruct (vch_eq (Hash160 vchPubKey) h); cbn [negb andb]; [|done].
  assert (IsPayToScriptHash (pay_to_key_hash h) = false) as ->.
  { unfold IsPayToScriptHash, pay_to_key_hash, push_hash. lens. rewrite Hh. done. }
  by destruct (check_one _ _ _).
Qed.

(** An output that pays to a script hash is spent by pushes exactly when the last
    one has that hash and, as a script on the values pushed before it, succeeds with
    a true value on top. *)
Theorem verify_pay_to_script_hash h vs redeem :
  len h = 20 -> Forall (fun v => len v <= 520) (vs ++ [redeem]) -> len vs <= 800 ->
  len (PushAll (vs ++ [redeem])) <= 10000 ->
  VerifyScript (PushAll (vs ++ [redeem])) (SetDestination (CScriptID h)).1 =
    Some (vch_eq (Hash160 redeem) h &&
          (let '(stack, ok) := EvalScript (rev vs) redeem in
           ok && match stack with [] => false | top :: _ => CastToBool top end)).
Proof.
  intros Hh Hvs Hn Hl. unfold VerifyScript.
  rewrite eval_push_all by (done || (lens; lia)). rewrite rev_app_distr, app_nil_r. cbn [rev app negb].
  assert ((SetDestination (CScriptID h)).1 = OP_HASH160 :: push_data h ++ [OP_EQUAL]) as Es
    by (cbn [SetDestination fst]; by rewrite push_hash_data).
  rewrite Es, eval_script_hash by (done || (lens; unfold len in *; rewrite length_rev; lia)).
  assert (IsPayToScriptHash (OP_HASH160 :: push_data h ++ [OP_EQUAL]) = true) as ->.
  { rewrite <-push_hash_data by done. unfold push_hash. rewrite Hh. apply list_20 in Hh.
    do 20 destruct Hh as [? Hh]. by subst h. }
  rewrite IsPushOnly_PushAll by done. cbn [negb].
  destruct (vch_eq (Hash160 redeem) h); cbn [andb]; [|done].
  change (CastToBool vchTrue) with true. cbn [negb].
  destruct (EvalScript (rev vs) redeem) as [s ok]. destruct ok; cbn [negb andb]; [|done]. by destruct s.
Qed.
End spending.

(** ** Multi-signature outputs *)

Lemma collect_keys_pushes keys fuel key opcode rest sols last_op last_vch rest' :
  pubkey_size key = true -> Forall (fun k => pubkey_size k = true) keys ->
  len (PushAll keys ++ rest) < 2 ^ 32 - 4 ->
  GetOp rest = Some (last_op, last_vch, rest') -> pubkey_size last_vch = false -> (length keys < fuel)%nat ->
  collect_keys (S fuel) (PushAll keys ++ rest) opcode key sols = (rest', last_op, last_vch, sols ++ key :: keys).
Proof.
  intros Hkey Hkeys. revert fuel key opcode sols Hkey. induction Hkeys as [|k keys Hk Hkeys IH];
    intros fuel key opcode sols Hkey Hl Hrest Hlast Hf; cbn [collect_keys]; rewrite Hkey.
  - cbn [PushAll map concat app]. rewrite Hrest. destruct fuel; [simpl in Hf; lia|]. cbn [collect_keys]. by rewrite Hlast.
  - unfold PushAll in *. cbn [map concat] in *. fold (PushAll keys) in *. rewrite <-app_assoc in *.
    pose proof (len_push_data k). rewrite GetOp_push by (lens; lia).
    destruct fuel as [|fuel]; [simpl in Hf; lia|].
    rewrite IH; [by rewrite <-app_assoc|done|lens; pose proof (len_pos (push_data k)); lia|done|done|simpl in Hf; lia].
Qed.

Lemma EncodeOP_N_range k : 1 <= k <= 16 -> EncodeOP_N k = 80 + k.
Proof. intros Hk. unfold EncodeOP_N, OP_1, OP_0. destruct (Z.eqb_spec k 0); lia. Qed.

Lemma small_integer_matches k : 1 <= k <= 16 -> match_op (EncodeOP_N k) [] OP_SMALLINTEGER [] = Some [[k]].
Proof.
  intros Hk. rewrite EncodeOP_N_range by done. unfold match_op. closed_tests.
  replace ((80 + k =? OP_0) || ((OP_1 <=? 80 + k) && (80 + k <=? OP_16))) with true by (unfold OP_0, OP_1, OP_16; lia).
  unfold DecodeOP_N. replace (80 + k =? OP_0) with false by (unfold OP_0; lia).
  do 2 f_equal. unfold OP_1. rewrite u8_id by lia. f_equal. lia.
Qed.

Lemma not_p2sh c s : c <> OP_HASH160 -> IsPayToScriptHash (c :: s) = false.
Proof.
  intros Hc. unfold IsPayToScriptHash. change (at_ 0 (c :: s) 0) with c.
  replace (c =? OP_HASH160) with false by lia. by rewrite andb_false_r.
Qed.

Lemma not_return c s : c <> OP_RETURN -> (1 <=? len (c :: s)) && (at_ 0 (c :: s) 0 =? OP_RETURN) = false.
Proof.
  intros Hc. change (at_ 0 (c :: s) 0) with c. replace (c =? OP_RETURN) with false by lia. apply andb_false_r.
Qed.

Lemma push_keys_length keys :
  Forall (fun k => pubkey_size k = true) keys -> len keys <= len (PushAll keys) <= 125 * len keys.
Proof.
  induction 1 as [|k keys Hk Hkeys IH]; [done|]. unfold PushAll in *. cbn [map concat].
  pose proof (len_push_data k). pose proof (len_push_data_le k). unfold pubkey_size in Hk. lens. lia.
Qed.

(** One turn of the template loop. *)
Section turns.
Variables (f : nat) (pc1 pc2 : bytes) (sols : list bytes).
Variables (op1 op2 : Z) (v1 v2 pc1' pc2' : bytes).
Hypothesis E1 : GetOp pc1 = Some (op1, v1, pc1').
Hypothesis E2 : GetOp pc2 = Some (op2, v2, pc2').

Lemma match_template_reject :
  (op2 =? OP_PUBKEYS) = false -> match_op op1 v1 op2 v2 = None -> match_template (S f) pc1 pc2 sols = None.
Proof.
  intros Hk Hm. cbn [match_template]. rewrite E1, E2, Hk, Hm. by destruct pc1, pc2.
Qed.

Lemma match_template_accept l :
  (op2 =? OP_PUBKEYS) = false -> match_op op1 v1 op2 v2 = Some l ->
  match_template (S f) pc1 pc2 sols = match_template f pc1' pc2' (sols ++ l).
Proof.
  intros Hk Hm. cbn [match_template]. rewrite E1, E2, Hk, Hm. by destruct pc1, pc2.
Qed.

Lemma match_template_keys pc1'' op1' v1' sols' op2' v2' pc2'' l :
  (op2 =? OP_PUBKEYS) = true ->
  collect_keys (S (length pc1')) pc1' op1 v1 sols = (pc1'', op1', v1', sols') ->
  GetOp pc2' = Some (op2', v2', pc2'') -> match_op op1' v1' op2' v2' = Some l ->
  match_template (S f) pc1 pc2 sols = match_template f pc1'' pc2'' (sols' ++ l).
Proof.
  intros Hk Hc E2' Hm. cbn [match_template]. rewrite E1, E2, Hk, Hc, E2', Hm. by destruct pc1, pc2.
Qed.
End turns.

Section multisig.
Context `{OpenSSLBN} `{Sha256} `{ScriptHashes}.

(** The script for [nRequired] of the given keys is recognised: the solution is the
    number required, the keys in order and their number. *)
Theorem multisig_solved nRequired keys :
  1 <= nRequired <= len keys -> len keys <= 16 -> Forall (fun k => pubkey_size k = true) keys ->
  Solver (SetMultisig nRequired keys) = (true, TX_MULTISIG, [nRequired] :: keys ++ [[len keys]]).
Proof.
  intros Hn Hk Hkeys. unfold SetMultisig. change (concat (map push_data keys)) with (PushAll keys). cbn [app].
  pose proof (EncodeOP_N_range nRequired ltac:(lia)) as Em.
  pose proof (EncodeOP_N_range (len keys) ltac:(lia)) as En.
  assert (GetOp (EncodeOP_N nRequired :: PushAll keys ++ [EncodeOP_N (len keys); OP_CHECKMULTISIG]) =
    Some (EncodeOP_N nRequired, [], PushAll keys ++ [EncodeOP_N (len keys); OP_CHECKMULTISIG])) as Eop
    by (apply GetOp_opcode; unfold OP_PUSHDATA4; lia).
  unfold Solver. rewrite not_p2sh, not_return by (unfold OP_HASH160, OP_RETURN; lia).
  unfold mTemplates. cbn [solve].
  do 2 (erewrite match_template_reject; [|exact Eop|reflexivity|reflexivity|
    unfold match_op; closed_tests; rewrite ?Em; unfold OP_DUP; by replace (80 + nRequired =? 118) with false by lia]).
  erewrite match_template_accept; [|exact Eop|reflexivity|reflexivity|apply small_integer_matches; lia].
  destruct keys as [|key keys]; [rewrite len_nil in Hn; lia|].
  apply Forall_cons in Hkeys as [Hkey Hkeys].
  pose proof (push_keys_length keys Hkeys) as Hlen. pose proof (len_push_data_le key) as Hlk.
  assert (len key <= 120) as Hkl by (unfold pubkey_size in Hkey; lia). pose proof (len_pos key).
  change (PushAll (key :: keys)) with (push_data key ++ PushAll keys). rewrite <-app_assoc.
  rewrite len_cons in *. pose proof (len_pos keys).
  cbn [length]. erewrite match_template_keys; [|apply GetOp_push; lens; lia|reflexivity|reflexivity|
    apply collect_keys_pushes with (last_op := EncodeOP_N (1 + len keys)) (last_vch := []) (rest' := [OP_CHECKMULTISIG])|
    reflexivity|apply small_integer_matches; lia].
  all: try done.
  - erewrite match_template_accept; [|reflexivity..]. cbn [match_template].
    rewrite app_nil_r. cbn [app].
    assert (multisig_counts ([nRequired] :: key :: keys ++ [[1 + len keys]]) = true) as ->; [|done].
    unfold multisig_counts. cbn [hd]. change (at_ 0 [?x] 0) with x.
    change ([nRequired] :: key :: keys ++ [[1 + len keys]]) with (([nRequired] :: key :: keys) ++ [[1 + len keys]]).
    rewrite List.last_last. change (at_ 0 [1 + len keys] 0) with (1 + len keys). lens. lia.
  - lens. lia.
  - apply GetOp_opcode. unfold OP_PUSHDATA4. lia.
  - unfold len in *. rewrite length_app. simpl. lia.
Qed.
End multisig.

(** ** Instances *)

Local Existing Instances z_bn toy_sha toy_hashes toy_checker.

Definition toy_id : bytes := Hash160 toy_key.

Lemma destination_roundtrip_witness :
  ExtractDestination (SetDestination (CScriptID toy_id)).1 = Some (CScriptID toy_id).
Proof. apply (destination_roundtrip (CScriptID toy_id)). vm_compute. reflexivity. Defined.

Lemma verify_pay_to_key_hash_witness :
  VerifyScript (PushAll [toy_sig; toy_key]) (SetDestination (CKeyID toy_id)).1 = Some true.
Proof.
  rewrite (verify_pay_to_key_hash toy_id toy_sig toy_key) by (vm_compute; congruence). vm_compute. reflexivity.
Defined.

(** A redeem script that adds its two arguments and compares with five. *)
Definition toy_redeem : bytes := [OP_ADD; OP_5; OP_NUMEQUAL].

Lemma verify_pay_to_script_hash_witness :
  VerifyScript (PushAll ([[2]; [3]] ++ [toy_redeem])) (SetDestination (CScriptID (Hash160 toy_redeem))).1 = Some true.
Proof.
  rewrite (verify_pay_to_script_hash (Hash160 toy_redeem) [[2]; [3]] toy_redeem); [vm_compute; reflexivity| | | |].
  - vm_compute. reflexivity.
  - repeat (constructor; [by vm_compute|]). constructor.
  - by vm_compute.
  - by vm_compute.
Defined.

Lemma multisig_solved_witness :
  Solver (SetMultisig 1 [toy_key; toy_key]) = (true, TX_MULTISIG, [[1]; toy_key; toy_key; [2]]).
Proof.
  apply (multisig_solved 1 [toy_key; toy_key]); [by vm_compute|by vm_compute|].
  repeat (constructor; [vm_compute; reflexivity|]). constructor.
Defined.

End Standard.
