(* ===== verification/Base58.v ===== *)
(** * Addresses as text ([src/base58.h])

    The base-58 text of byte strings, its form with a checksum, and the addresses and
    secrets of the two networks.  A text is the list of its character codes; what
    follows a NUL is not looked at, as in the [const char*] overloads. *)

From Stdlib Require Import Strings.String Strings.Ascii.
From S2P Require Import Prelude Crypto BigNum BigArith Script Interpreter Standard.
Import BigNum BigArith Standard.

Module Base58.

(** The codes of a literal. *)
Definition chars (s : string) : bytes := map (fun c => Z.of_N (N_of_ascii c)) (list_ascii_of_string s).

Definition pszBase58 : bytes := Eval vm_compute in chars "123456789ABCDEFGHJKLMNPQRSTUVWXYZabcdefghijkmnopqrstuvwxyz".

Definition isspace (c : Z) : bool := (c =? 32) || ((9 <=? c) && (c <=? 13)).
Fixpoint skip_spaces (s : bytes) : bytes :=
  match s with c :: s' => if isspace c then skip_spaces s' else s | [] => [] end.

(** [strchr(pszBase58, c) - pszBase58] *)
Fixpoint strchr (l : bytes) (c : Z) : option Z :=
  match l with
  | [] => None
  | x :: l' => if x =? c then Some 0 else option_map (Z.add 1) (strchr l' c)
  end.

Fixpoint c_str (s : bytes) : bytes :=
  match s with c :: s' => if c =? 0 then [] else c :: c_str s' | [] => [] end.

Fixpoint leading (x : Z) (l : bytes) : nat :=
  match l with c :: l' => if c =? x then S (leading x l') else O | [] => O end.

Section base58.
Context `{OpenSSLBN} `{OpenSSLBNArith}.

(** The loop over the digits, the lowest first. *)
Fixpoint digit_loop (fuel : nat) (bn : Z) : bytes :=
  match fuel with
  | O => []
  | S fuel =>
      if bn_gt bn 0 then
        let '(dv, rem) := BN_div bn 58 in
        at_ 0 pszBase58 (getulong rem) :: digit_loop fuel dv
      else []
  end.

(** A byte takes less than two digits. *)
Definition EncodeBase58 (vch : bytes) : bytes :=
  let bn := setvch (rev vch ++ [0]) in
  rev (digit_loop (2 * length vch) bn ++ replicate (leading 0 vch) (at_ 0 pszBase58 0)).

Fixpoint value_loop (bn : Z) (p : bytes) : option Z :=
  match p with
  | [] => Some bn
  | c :: p' =>
      match strchr pszBase58 c with
      | Some d => value_loop (bn_add (bn_mul bn 58) (setulong d)) p'
      | None => match skip_spaces p with [] => Some bn | _ => None end
      end
  end.

(** The sign byte of [getvch] is dropped. *)
Definition drop_sign (vchTmp : bytes) : bytes :=
  let n := len vchTmp in
  if (2 <=? n) && (at_ 0 vchTmp (n - 1) =? 0) && (128 <=? at_ 0 vchTmp (n - 2)) then removelast vchTmp else vchTmp.

Definition DecodeBase58 (s : bytes) : option bytes :=
  let psz := skip_spaces (c_str s) in
  match value_loop 0 psz with
  | None => None
  | Some bn => Some (replicate (leading (at_ 0 pszBase58 0) psz) 0 ++ rev (drop_sign (getvch bn)))
  end.

Context `{Sha256}.

Definition checksum (vch : bytes) : bytes := take 4 (uint256_bytes (sha256_twice vch)).
Definition EncodeBase58Check (vchIn : bytes) : bytes := EncodeBase58 (vchIn ++ checksum vchIn).

Definition DecodeBase58Check (s : bytes) : option bytes :=
  match DecodeBase58 s with
  | None => None
  | Some v =>
      if len v <? 4 then None
      else
        let body := take (length v - 4) v in
        if bool_decide (checksum body = drop (length v - 4) v) then Some body else None
  end.

(** ** Addresses *)

Record CBase58Data := { nVersion : Z; vchData : bytes }.
Definition no_data : CBase58Data := {| nVersion := 0; vchData := [] |}.

(** The data and the result; [vchTemp] is empty when the text is refused. *)
Definition SetString (s : bytes) : CBase58Data * bool :=
  match default [] (DecodeBase58Check s) with
  | [] => (no_data, false)
  | v :: data => ({| nVersion := v; vchData := data |}, true)
  end.
Definition ToString (d : CBase58Data) : bytes := EncodeBase58Check (nVersion d :: vchData d).

Definition PUBKEY_ADDRESS : Z := 50.
Definition SCRIPT_ADDRESS : Z := 125.
Definition PUBKEY_ADDRESS_TEST : Z := 65.
Definition SCRIPT_ADDRESS_TEST : Z := 200.

(** [Set] for a destination; without one nothing is set. *)
Definition address_of (fTestNet : bool) (dest : CTxDestination) : CBase58Data :=
  match dest with
  | CKeyID h => {| nVersion := if fTestNet then PUBKEY_ADDRESS_TEST else PUBKEY_ADDRESS; vchData := h |}
  | CScriptID h => {| nVersion := if fTestNet then SCRIPT_ADDRESS_TEST else SCRIPT_ADDRESS; vchData := h |}
  | CNoDestination => no_data
  end.

Definition IsValid (fTestNet : bool) (d : CBase58Data) : bool :=
  let v := nVersion d in
  if (v =? PUBKEY_ADDRESS) || (v =? SCRIPT_ADDRESS) then negb fTestNet && (len (vchData d) =? 20)
  else if (v =? PUBKEY_ADDRESS_TEST) || (v =? SCRIPT_ADDRESS_TEST) then fTestNet && (len (vchData d) =? 20)
  else false.

Definition Get (fTestNet : bool) (d : CBase58Data) : CTxDestination :=
  if negb (IsValid fTestNet d) then CNoDestination
  else if (nVersion d =? PUBKEY_ADDRESS) || (nVersion d =? PUBKEY_ADDRESS_TEST) then CKeyID (vchData d)
  else if (nVersion d =? SCRIPT_ADDRESS) || (nVersion d =? SCRIPT_ADDRESS_TEST) then CScriptID (vchData d)
  else CNoDestination.

(** ** Secrets *)

(** [None] is the failed assertion on the size. *)
Definition SetSecret (fTestNet : bool) (vchSecret : bytes) (fCompressed : bool) : option CBase58Data :=
  if len vchSecret =? 32
  then Some {| nVersion := 128 + (if fTestNet then PUBKEY_ADDRESS_TEST else PUBKEY_ADDRESS);
               vchData := vchSecret ++ (if fCompressed then [1] else []) |}
  else None.
Definition GetSecret (d : CBase58Data) : bytes * bool := (take 32 (vchData d), len (vchData d) =? 33).
Definition secret_IsValid (fTestNet : bool) (d : CBase58Data) : bool :=
  let size := (len (vchData d) =? 32) || ((len (vchData d) =? 33) && (at_ 0 (vchData d) 32 =? 1)) in
  if nVersion d =? 128 + PUBKEY_ADDRESS then negb fTestNet && size
  else if nVersion d =? 128 + PUBKEY_ADDRESS_TEST then fTestNet && size
  else false.

(** ** The development fund ([src/main.h], [src/main.cpp]) *)

Definition MARYJ_DEV_FUND_ADDRESS : bytes := Eval vm_compute in chars "SET_REAL_2OF3_MULTISIG_ADDRESS_BEFORE_ACTIVATION".

Definition GetDevFundScript (fTestNet : bool) : option bytes :=
  let addr := (SetString MARYJ_DEV_FUND_ADDRESS).1 in
  if negb (IsValid fTestNet addr) then None else Some (SetDestination (Get fTestNet addr)).1.
End base58.

(** * Properties *)

Section laws.
Context `{OpenSSLBN} `{OpenSSLBNArith} `{!BNLaws} `{!BNArithLaws}.

(** ** Digits of the text *)

(** The digit of a character, and the character of a digit. *)
Definition char58 (d : Z) : Z := at_ 0 pszBase58 d.

Lemma char58_ok d : 0 <= d < 58 -> strchr pszBase58 (char58 d) = Some d /\ isspace (char58 d) = false /\ char58 d <> 0 /\ byte_ok (char58 d) /\
  (char58 d = char58 0 <-> d = 0).
Proof.
  intros Hd. assert (forallb (fun d => bool_decide (strchr pszBase58 (char58 d) = Some d) && negb (isspace (char58 d)) && negb (char58 d =? 0)
    && (0 <=? char58 d) && (char58 d <? 256) && eqb (char58 d =? char58 0) (d =? 0)) (seqZ 0 58) = true) as Hf by (vm_compute; reflexivity).
  rewrite forallb_forall in Hf. specialize (Hf d ltac:(apply list_elem_of_In, elem_of_seqZ; lia)). cbv beta in Hf.
  rewrite !andb_true_iff in Hf. destruct Hf as (((((E1 & E2) & E3) & E4) & E5) & E6). bool_prop. apply eqb_prop in E6.
  split_and!; [done|done|done|unfold byte_ok; lia|]. rewrite <-!Z.eqb_eq, E6. done.
Qed.

Lemma strchr_char c d : strchr pszBase58 c = Some d -> 0 <= d < 58 /\ c = char58 d.
Proof.
  assert (forall l k, strchr l c = Some k -> 0 <= k < len l /\ c = at_ 0 l k) as Hs.
  { induction l as [|x l IH]; intros k; cbn [strchr]; [done|]. lens. pose proof (len_pos l). destruct (Z.eqb_spec x c) as [->|].
    - intros [= <-]. split; [lia|done].
    - destruct (strchr l c) as [j|] eqn:E; [|done]. cbn. intros [= <-]. destruct (IH j eq_refl) as [Hj ->]. split; [lia|].
      change l with (drop 1 (x :: l)) at 1. by rewrite at_drop by lia. }
  intros E. apply Hs in E. exact E.
Qed.

Definition is_text (s : bytes) : Prop := Forall (fun c => is_Some (strchr pszBase58 c)) s.

Lemma is_text_digits s : is_text s <-> exists ds, digits 58 ds /\ s = map char58 ds.
Proof.
  split.
  - induction 1 as [|c s [d Hc] Hs (ds & Hd & ->)]; [exists []; split; [constructor|done]|]. apply strchr_char in Hc as [Hc ->]. exists (d :: ds). split; [by constructor|done].
  - intros (ds & Hd & ->). induction Hd as [|d ds Hd Hds IH]; constructor; [|done]. destruct (char58_ok d Hd) as [-> _]. by eexists.
Qed.

Lemma value_loop_text ds bn :
  digits 58 ds -> value_loop bn (map char58 ds) = Some (bn * 58 ^ len ds + radix 58 (rev ds)).
Proof.
  intros Hd. revert bn. induction Hd as [|d ds Hd Hds IH]; intros bn.
  - cbn. change (@len Z []) with 0. by rewrite Z.mul_1_r, Z.add_0_r.
  - cbn [map value_loop]. destruct (char58_ok d Hd) as [-> _]. unfold setulong.
    rewrite set_word_eq, bn_add_value, bn_mul_value, IH by lia. cbn [rev]. rewrite radix_app. unfold len at 3. rewrite length_rev. fold (len ds).
    rewrite len_cons, Z.pow_add_r by (pose proof (len_pos ds); lia). cbn [radix]. f_equal. ring.
Qed.

(** The digits the loop writes. *)
Fixpoint digits_of (fuel : nat) (bn : Z) : list Z :=
  match fuel with O => [] | S fuel => if 0 <? bn then bn mod 58 :: digits_of fuel (bn / 58) else [] end.

Lemma digit_loop_digits fuel bn : 0 <= bn -> digit_loop fuel bn = map char58 (digits_of fuel bn).
Proof.
  revert bn. induction fuel as [|fuel IH]; intros bn Hb; cbn [digit_loop digits_of]; [done|].
  rewrite bn_gt_value. destruct (Z.ltb_spec 0 bn); [|done].
  rewrite bn_div_eq by lia. rewrite Z.quot_div_nonneg, Z.rem_mod_nonneg by lia.
  pose proof (Z.mod_pos_bound bn 58 ltac:(lia)). cbn [map]. f_equal; [|apply IH, Z.div_pos; lia].
  unfold getulong. rewrite get_word_abs, Z.abs_eq, Z.min_l by lia. done.
Qed.

Lemma digits_of_spec fuel bn :
  0 <= bn < 58 ^ Z.of_nat fuel ->
  digits 58 (digits_of fuel bn) /\ radix 58 (digits_of fuel bn) = bn /\ last (digits_of fuel bn) <> Some 0.
Proof.
  revert bn. induction fuel as [|fuel IH]; intros bn Hb; cbn [digits_of].
  - change (58 ^ Z.of_nat 0) with 1 in Hb. split_and!; [constructor|cbn; lia|done].
  - destruct (Z.ltb_spec 0 bn); [|split_and!; [constructor|cbn [radix]; lia|done]].
    rewrite Nat2Z.inj_succ, Z.pow_succ_r in Hb by lia. pose proof (Z.mod_pos_bound bn 58 ltac:(lia)).
    pose proof (Z.div_mod bn 58 ltac:(lia)) as Em.
    destruct (IH (bn / 58)) as (I1 & I2 & I3); [split; [apply Z.div_pos; lia|apply Z.div_lt_upper_bound; lia]|].
    split_and!; [constructor; [lia|done]|cbn [radix]; lia|].
    destruct (digits_of fuel (bn / 58)) as [|e l] eqn:E; [|exact I3]. cbn [radix] in I2. cbn. intros [= E0]. lia.
Qed.

(** ** Bytes *)

Definition unsigned_bytes (z : Z) : bytes := drop_sign (num_bytes z).

Lemma unsigned_bytes_spec z :
  0 <= z -> bytes_ok (unsigned_bytes z) /\ le_value (unsigned_bytes z) = z /\ last (unsigned_bytes z) <> Some 0.
Proof.
  intros Hz. destruct (num_bytes_nonneg z Hz) as (E & Hlt & Htop). pose proof (num_bytes_ok z) as Hok.
  assert (le_value (num_bytes z) = z) as Ev by (rewrite E; by apply le_value_bytes_id).
  destruct (decide (z = 0)) as [->|Hnz]; [split_and!; [constructor|done|done]|].
  assert (2 ^ (8 * (len (num_bytes z) - 1)) <= 2 * z) as Hlow.
  { unfold len. rewrite num_bytes_length. unfold num_length. destruct (Z.eqb_spec z 0); [done|].
    pose proof (Z.log2_nonneg (Z.abs z)). rewrite Z.abs_eq in * by done. rewrite Z2Nat.id by (pose proof (Z.div_pos (Z.log2 z + 1) 8); lia).
    pose proof (Z.mul_div_le (Z.log2 z + 1) 8 ltac:(lia)). pose proof (Z.log2_spec z ltac:(lia)) as [Hl _].
    transitivity (2 ^ (Z.log2 z + 1)); [apply Z.pow_le_mono_r; lia|]. rewrite Z.pow_add_r by lia. lia. }
  unfold unsigned_bytes, drop_sign. destruct (num_bytes z) as [|b l _] eqn:En using rev_ind; [cbn in Ev; lia|]. clear E.
  apply bytes_ok_app in Hok as [Hl Hb]. rewrite le_value_app in Ev. cbn [le_value] in Ev.
  replace (len (l ++ [b]) - 1) with (len l) in * by (rewrite len_app, len_cons; change (@len Z []) with 0; lia).
  assert (at_ 0 (l ++ [b]) (len l) = b) as ->.
  { unfold at_, len. destruct (Z.ltb_spec (Z.of_nat (length l)) 0); [lia|]. rewrite Nat2Z.id, app_nth2, Nat.sub_diag by lia. done. }
  destruct (Z.eqb_spec b 0) as [->|Hb0].
  - rewrite Z.mul_0_r, Z.add_0_r in Ev. destruct l as [|c l' _] using rev_ind; [cbn in Ev; lia|].
    assert (at_ 0 ((l' ++ [c]) ++ [0]) (len ((l' ++ [c]) ++ [0]) - 2) = c) as ->.
    { rewrite !len_app, !len_cons; change (@len Z []) with 0. replace (len l' + (1 + 0) + (1 + 0) - 2) with (len l') by lia. rewrite <-app_assoc.
      unfold at_, len. destruct (Z.ltb_spec (Z.of_nat (length l')) 0); [lia|]. rewrite Nat2Z.id, app_nth2, Nat.sub_diag by lia. done. }
    assert (128 <= c) as Hc.
    { apply bytes_ok_app in Hl as [Hl' Hc]. rewrite le_value_app in Ev. cbn [le_value] in Ev. fold (len l') in Ev.
      pose proof (le_value_range l' Hl') as Hr. fold (len l') in Hr. rewrite len_app, len_cons in Hlow; change (@len Z []) with 0 in Hlow.
      replace (8 * (len l' + (1 + 0))) with (8 * len l' + 8) in Hlow by lia. pose proof (len_pos l'). rewrite Z.pow_add_r in Hlow by lia.
      change (2 ^ 8) with 256 in Hlow. nia. }
    assert ((2 <=? len ((l' ++ [c]) ++ [0])) = true) as -> by (apply Z.leb_le; rewrite !len_app, !len_cons; change (@len Z []) with 0; pose proof (len_pos l'); lia).
    destruct (Z.leb_spec 128 c); [|lia]. cbn [andb]. rewrite removelast_last.
    split_and!; [done|done|]. rewrite last_snoc. intros [= ->]. lia.
  - rewrite andb_false_r. cbn [andb]. split_and!; [by apply bytes_ok_app|rewrite le_value_app; cbn [le_value]; done|].
    rewrite last_snoc. congruence.
Qed.

Lemma unsigned_bytes_unique l : bytes_ok l -> last l <> Some 0 -> unsigned_bytes (le_value l) = l.
Proof.
  intros Hl Ht. pose proof (le_value_range l Hl). destruct (unsigned_bytes_spec (le_value l) ltac:(lia)) as (U1 & U2 & U3).
  apply (radix_unique 256); [lia|done|done|done|done|]. by rewrite !radix_le.
Qed.

(** ** Leading zeroes *)

Lemma leading_split x l :
  exists l', l = replicate (leading x l) x ++ l' /\ head l' <> Some x.
Proof.
  induction l as [|c l (l' & E & Hh)]; [by exists []|]. cbn [leading]. destruct (Z.eqb_spec c x) as [->|Hne].
  - exists l'. cbn [replicate app]. split; [by f_equal|done].
  - exists (c :: l). split; [done|]. cbn. congruence.
Qed.
Lemma leading_app x n l : head l <> Some x -> leading x (replicate n x ++ l) = n.
Proof.
  intros Hh. induction n as [|n IH]; cbn [replicate app leading].
  - destruct l as [|c l]; [done|]. cbn [leading]. destruct (Z.eqb_spec c x) as [->|]; done.
  - by rewrite Z.eqb_refl, IH.
Qed.
Lemma head_rev {A} (l : list A) : head (rev l) = last l.
Proof. destruct l as [|a l _] using rev_ind; [done|]. by rewrite rev_app_distr, last_snoc. Qed.
Lemma last_rev {A} (l : list A) : last (rev l) = head l.
Proof. by rewrite <-(rev_involutive l) at 2; rewrite head_rev. Qed.
(** ** Texts and bytes *)

Lemma c_str_text ds : digits 58 ds -> skip_spaces (c_str (map char58 ds)) = map char58 ds.
Proof.
  intros Hd. assert (c_str (map char58 ds) = map char58 ds) as ->.
  { induction Hd as [|d ds Hd Hds IH]; [done|]. cbn [map c_str]. destruct (char58_ok d Hd) as (_ & _ & Hne & _).
    destruct (Z.eqb_spec (char58 d) 0); [done|]. by rewrite IH. }
  destruct Hd as [|d ds Hd Hds]; [done|]. cbn [map skip_spaces]. destruct (char58_ok d Hd) as (_ & -> & _). done.
Qed.

Lemma leading_text ds : digits 58 ds -> leading (at_ 0 pszBase58 0) (map char58 ds) = leading 0 ds.
Proof.
  induction 1 as [|d ds Hd Hds IH]; [done|]. cbn [map leading]. destruct (char58_ok d Hd) as (_ & _ & _ & _ & Hz).
  change (at_ 0 pszBase58 0) with (char58 0) in *. rewrite IH.
  destruct (Z.eqb_spec (char58 d) (char58 0)), (Z.eqb_spec d 0); try done; tauto.
Qed.

Lemma digits_rev ds : digits 58 ds -> digits 58 (rev ds).
Proof. apply Forall_rev. Qed.

Lemma radix_bytes ds : digits 58 ds -> len (num_bytes (radix 58 ds)) <= len ds + 1.
Proof.
  intros Hd. pose proof (radix_pos 58 ltac:(lia) _ Hd). pose proof (radix_bound 58 ltac:(lia) _ Hd) as Hb.
  transitivity (Z.of_nat (S (length ds))); [|unfold len; lia]. apply num_bytes_len.
  rewrite Z.abs_eq by done. eapply Z.lt_le_trans; [apply Hb|]. unfold len. transitivity ((2 ^ 7) ^ Z.of_nat (length ds)).
  - apply Z.pow_le_mono_l. lia.
  - rewrite <-Z.pow_mul_r by lia. apply Z.pow_le_mono_r; lia.
Qed.

Lemma drop_sign_len l : len (drop_sign l) <= len l.
Proof.
  unfold drop_sign. destruct (_ && _); [|lia]. destruct l as [|b l _] using rev_ind; [done|]. rewrite removelast_last. lens.
  change (@len Z []) with 0. lia.
Qed.

Lemma decode_digits ds :
  digits 58 ds -> len ds < 2 ^ 30 ->
  DecodeBase58 (map char58 ds) = Some (replicate (leading 0 ds) 0 ++ rev (unsigned_bytes (radix 58 (rev ds)))).
Proof.
  intros Hd Hl. unfold DecodeBase58. cbv zeta. rewrite c_str_text, leading_text, value_loop_text, Z.mul_0_l, Z.add_0_l by done.
  rewrite getvch_bytes; [done|]. pose proof (radix_bytes _ (digits_rev _ Hd)) as Hb.
  assert (len (rev ds) = len ds) as E by (unfold len; by rewrite length_rev). lia.
Qed.

Lemma be_value_split n l : be_value (replicate n 0 ++ l) = le_value (rev l).
Proof. unfold be_value. by rewrite rev_app_distr, rev_replicate, <-!radix_le, radix_app, radix_zeros, Z.mul_0_r, Z.add_0_r. Qed.

Lemma encode_digits vch :
  bytes_ok vch -> len vch < 2 ^ 29 ->
  exists ds, digits 58 ds /\ radix 58 ds = be_value vch /\ last ds <> Some 0 /\ len ds <= 2 * len vch /\
    EncodeBase58 vch = map char58 (replicate (leading 0 vch) 0 ++ rev ds).
Proof.
  intros Hb Hl. assert (bytes_ok (rev vch)) as Hr by (by apply Forall_rev). pose proof (le_value_range _ Hr) as Hv. rewrite length_rev in Hv.
  assert (setvch (rev vch ++ [0]) = be_value vch) as Es.
  { rewrite setvch_value, num_value_snoc; [cbn; unfold be_value; lia|done|done|apply bytes_ok_app; split; [done|repeat constructor; done]|].
    unfold len in *. rewrite length_app, length_rev. simpl. lia. }
  destruct (digits_of_spec (2 * length vch) (be_value vch)) as (H1' & H2' & H3').
  { split; [apply Hv|]. unfold be_value. eapply Z.lt_le_trans; [apply Hv|]. rewrite Z.pow_mul_r, Nat2Z.inj_mul, (Z.pow_mul_r 58) by lia.
    apply Z.pow_le_mono_l. lia. }
  exists (digits_of (2 * length vch) (be_value vch)). split_and!; [done..| |].
  { assert (forall fuel bn, (length (digits_of fuel bn) <= fuel)%nat) as Hf.
    { induction fuel as [|fuel IH]; intros bn; cbn [digits_of]; [done|]. destruct (0 <? bn); cbn [length]; [specialize (IH (bn / 58))|]; lia. }
    specialize (Hf (2 * length vch)%nat (be_value vch)). unfold len. lia. } unfold EncodeBase58. cbv zeta. rewrite Es, digit_loop_digits by (unfold be_value; lia).
  rewrite rev_app_distr, rev_replicate, <-map_rev, map_app. f_equal. change (at_ 0 pszBase58 0) with (char58 0).
  induction (leading 0 vch) as [|n IH]; [done|]. cbn [replicate map]. by rewrite IH.
Qed.

Lemma digits_zeros n ds : digits 58 ds -> digits 58 (replicate n 0 ++ ds).
Proof. intros Hd. apply Forall_app. split; [|done]. apply Forall_replicate. lia. Qed.

Lemma encode_decode vch :
  bytes_ok vch -> len vch < 2 ^ 28 -> is_text (EncodeBase58 vch) /\ DecodeBase58 (EncodeBase58 vch) = Some vch.
Proof.
  intros Hb Hl.
  destruct (encode_digits vch Hb ltac:(lia)) as (ds & Hd & Hv & Hlast & Hdl & ->). split; [apply is_text_digits; eexists; split; [by apply digits_zeros, digits_rev|done]|].
  destruct (leading_split 0 vch) as (v' & Ev & Hh). set (k := leading 0 vch) in *.
  rewrite decode_digits.
  - rewrite leading_app by (by rewrite head_rev). rewrite rev_app_distr, rev_replicate, rev_involutive, radix_app, radix_zeros, Z.mul_0_r, Z.add_0_r, Hv.
    rewrite Ev, be_value_split. rewrite Ev in Hb. apply bytes_ok_app in Hb as [_ Hb].
    rewrite unsigned_bytes_unique, rev_involutive by (by rewrite ?last_rev || by apply Forall_rev). done.
  - by apply digits_zeros, digits_rev.
  - rewrite Ev in Hl at 1. rewrite len_app in Hl |- *. unfold len in *. rewrite length_replicate, length_rev in *. rewrite Ev, length_app, length_replicate in Hdl. lia.
Qed.

Lemma decode_encode s :
  is_text s -> len s < 2 ^ 28 -> exists v, bytes_ok v /\ DecodeBase58 s = Some v /\ EncodeBase58 v = s.
Proof.
  intros Hs Hsl.
  apply is_text_digits in Hs as (D & HD & ->). assert (len D < 2 ^ 28) as HDl by (unfold len in *; by rewrite length_map in Hsl).
  destruct (leading_split 0 D) as (D' & ED & Hh). set (k := leading 0 D) in *.
  assert (digits 58 D') as HD' by (rewrite ED in HD; apply Forall_app in HD as [_ HD2]; exact HD2).
  assert (radix 58 (rev D) = radix 58 (rev D')) as Erad by (by rewrite ED, rev_app_distr, rev_replicate, radix_app, radix_zeros, Z.mul_0_r, Z.add_0_r).
  set (v := radix 58 (rev D')) in *. assert (0 <= v) as Hv0 by (apply radix_pos; [lia|by apply digits_rev]).
  destruct (unsigned_bytes_spec v Hv0) as (U1 & U2 & U3).
  exists (replicate k 0 ++ rev (unsigned_bytes v)).
  assert (bytes_ok (replicate k 0 ++ rev (unsigned_bytes v))) as Hok by (apply bytes_ok_app; split; [apply bytes_ok_zeros|by apply Forall_rev]).
  split; [done|]. split; [rewrite decode_digits by (done || lia); by rewrite Erad|].
  destruct (encode_digits _ Hok) as (ds & Hd & Hdv & Hdl & _ & ->).
  { rewrite len_app. unfold len at 1 2. rewrite length_replicate, length_rev. fold (len (unsigned_bytes v)).
    pose proof (drop_sign_len (num_bytes v)) as Hn. fold (unsigned_bytes v) in Hn. pose proof (radix_bytes _ (digits_rev _ HD')) as Hr. fold v in Hr.
    unfold len in Hr at 2. rewrite length_rev in Hr. rewrite ED, len_app in HDl. unfold len in HDl. rewrite length_replicate in HDl. lia. }
  rewrite leading_app by (by rewrite head_rev). f_equal. rewrite ED. f_equal.
  rewrite be_value_split, rev_involutive, U2 in Hdv.
  rewrite <-(rev_involutive D'). f_equal. apply (radix_unique 58); [lia|done|by apply digits_rev|done|by rewrite last_rev|done].
Qed.

(** The text of a byte string is read back as that byte string, and every text in the 58
    characters is the text of exactly one byte string: leading zero bytes are leading ones. *)
Theorem base58_roundtrip vch s :
  bytes_ok vch -> len vch < 2 ^ 28 -> is_text s -> len s < 2 ^ 28 ->
  (is_text (EncodeBase58 vch) /\ DecodeBase58 (EncodeBase58 vch) = Some vch) /\
  (exists v, bytes_ok v /\ DecodeBase58 s = Some v /\ EncodeBase58 v = s).
Proof. intros Hb Hl Hs Hsl. split; [by apply encode_decode|by apply decode_encode]. Qed.
End laws.

(** ** Checksums and addresses *)

Lemma dev_fund_script `{OpenSSLBN} `{OpenSSLBNArith} `{Sha256} fTestNet : GetDevFundScript fTestNet = None.
Proof. destruct fTestNet; reflexivity. Qed.

Section addresses.
Context `{OpenSSLBN} `{OpenSSLBNArith} `{!BNLaws} `{!BNArithLaws} `{Sha256}.

Lemma checksum_length v : length (checksum v) = 4%nat.
Proof. unfold checksum. rewrite length_take, uint256_bytes_length. done. Qed.
Lemma checksum_ok v : bytes_ok (checksum v).
Proof. apply bytes_ok_take, le_bytes_ok. Qed.

Lemma check_decode v s :
  bytes_ok v -> len v < 2 ^ 27 -> DecodeBase58 s = Some (v ++ checksum v) -> DecodeBase58Check s = Some v.
Proof.
  intros Hv Hl E. unfold DecodeBase58Check. rewrite E. cbv zeta. rewrite len_app. unfold len at 2. rewrite checksum_length.
  pose proof (len_pos v). destruct (Z.ltb_spec (len v + Z.of_nat 4) 4); [lia|].
  replace (length (v ++ checksum v) - 4)%nat with (length v) by (rewrite length_app, checksum_length; lia).
  rewrite take_app_length, drop_app_length. by rewrite bool_decide_true by done.
Qed.

Lemma check_roundtrip v :
  bytes_ok v -> len v < 2 ^ 27 -> DecodeBase58Check (EncodeBase58Check v) = Some v.
Proof.
  intros Hv Hl. apply check_decode; [done|done|]. unfold EncodeBase58Check.
  apply encode_decode.
  - apply bytes_ok_app. split; [done|apply checksum_ok].
  - rewrite len_app. unfold len at 2. rewrite checksum_length. lia.
Qed.

(** The text of an address gives back the destination, on its own network only; and a text in
    the 58 characters that is read as some data is exactly the text of that data. *)
Theorem address_roundtrip fTestNet dest h s v :
  dest = CKeyID h \/ dest = CScriptID h -> bytes_ok h -> len h = 20 ->
  is_text s -> len s < 2 ^ 28 -> DecodeBase58Check s = Some v ->
  (SetString (ToString (address_of fTestNet dest)) = (address_of fTestNet dest, true) /\
   IsValid fTestNet (address_of fTestNet dest) = true /\ Get fTestNet (address_of fTestNet dest) = dest /\
   IsValid (negb fTestNet) (address_of fTestNet dest) = false) /\
  EncodeBase58Check v = s.
Proof.
  intros Hd Hh Hl Hs Hsl Ev. split.
  - assert ((len h =? 20) = true) as Hl' by (by apply Z.eqb_eq).
    split_and!.
    + unfold SetString, ToString. rewrite check_roundtrip.
      * by destruct Hd as [-> | ->], fTestNet.
      * destruct Hd as [-> | ->], fTestNet; by constructor.
      * rewrite len_cons. destruct Hd as [-> | ->], fTestNet; cbn [address_of vchData]; lia.
    + destruct Hd as [-> | ->], fTestNet; cbn; rewrite Hl'; done.
    + unfold Get. destruct Hd as [-> | ->], fTestNet; cbn; rewrite Hl'; done.
    + by destruct Hd as [-> | ->], fTestNet.
  - destruct (decode_encode s Hs Hsl) as (w & Hw & Ew & Es).
    unfold DecodeBase58Check in Ev. rewrite Ew in Ev. destruct (len w <? 4); [done|].
    destruct (bool_decide_reflect (checksum (take (length w - 4) w) = drop (length w - 4) w)) as [Ec|]; [|done].
    apply Some_inj in Ev as <-. unfold EncodeBase58Check. by rewrite Ec, take_drop.
Qed.
End addresses.

(** ** Instances *)

Section witnesses.
#[local] Existing Instance z_bn.
#[local] Existing Instance z_bn_laws.
#[local] Existing Instance z_arith.
#[local] Existing Instance z_arith_laws.
#[local] Instance toy : Sha256 := toy_sha256.

Example encode_small : EncodeBase58 [0; 0; 1; 2; 3] = chars "11Ldp".
Proof. vm_compute. reflexivity. Qed.
Example decode_spaces : DecodeBase58 (chars "  Ldp  ") = Some [1; 2; 3] /\ DecodeBase58 (chars "Ldp 2") = None.
Proof. vm_compute. split; reflexivity. Qed.

Lemma base58_roundtrip_witness :
  (is_text (EncodeBase58 [0; 0; 255; 7]) /\ DecodeBase58 (EncodeBase58 [0; 0; 255; 7]) = Some [0; 0; 255; 7]) /\
  (exists v, bytes_ok v /\ DecodeBase58 (chars "1LUw") = Some v /\ EncodeBase58 v = chars "1LUw").
Proof.
  apply (base58_roundtrip [0; 0; 255; 7] (chars "1LUw")).
  - apply (bool_decide_unpack _). vm_compute. exact I.
  - vm_compute. reflexivity.
  - apply (bool_decide_unpack _). vm_compute. exact I.
  - vm_compute. reflexivity.
Defined.

Definition sample_id : bytes := replicate 20 7.
Lemma address_roundtrip_witness :
  SetString (ToString (address_of false (CKeyID sample_id))) = (address_of false (CKeyID sample_id), true) /\
  EncodeBase58Check [1; 2; 3] = EncodeBase58 ([1; 2; 3] ++ checksum [1; 2; 3]).
Proof.
  destruct (address_roundtrip false (CKeyID sample_id) sample_id (EncodeBase58Check [1; 2; 3]) [1; 2; 3]) as [[E _] E2].
  - left. reflexivity.
  - apply (bool_decide_unpack _). vm_compute. exact I.
  - reflexivity.
  - apply (bool_decide_unpack _). vm_compute. exact I.
  - vm_compute. reflexivity.
  - vm_compute. reflexivity.
  - split; [exact E|exact E2].
Defined.
End witnesses.

End Base58.
