(* ===== verification/Mmr.v ===== *)
(** * Merkle mountain range ([src/mw/state/mmr.h], [src/mw/state/mmr.cpp])

    The nodes of the range are stored in post-order in one vector; peaks,
    heights and sibling positions are computed from positions alone.  All
    positions are [uint64_t]; vectors hold fewer than 2^63 nodes. *)

From S2P Require Import Prelude Crypto.

Module Mmr.

(** ** Position arithmetic *)

Fixpoint BitLength_loop (fuel : nat) (n len : Z) : Z :=
  match fuel with
  | O => len
  | S f => if 0 <? n then BitLength_loop f (Z.shiftr n 1) (len + 1) else len
  end.
Definition BitLength (n : Z) : Z := BitLength_loop 64 n 0.

Definition AllOnesBelow (n : Z) : Z :=
  if n =? 0 then 0
  else
    let bits := BitLength n in
    let allOnes := u64 (u64 (Z.shiftl 1 bits) - 1) in
    if allOnes <=? n then allOnes else u64 (u64 (Z.shiftl 1 (bits - 1)) - 1).

Fixpoint popcount_loop (fuel : nat) (bits popcount : Z) : Z :=
  match fuel with
  | O => popcount
  | S f => if 0 <? bits then popcount_loop f (Z.shiftr bits 1) (popcount + Z.land bits 1)
           else popcount
  end.

Definition LeafIndexToPos (nLeafIndex : Z) : Z :=
  u64 (2 * nLeafIndex - popcount_loop 64 nLeafIndex 0).

Definition NodeCountForLeaves (nTargetLeaves : Z) : Z :=
  u64 (2 * nTargetLeaves - popcount_loop 64 nTargetLeaves 0).

Fixpoint GetHeight_loop (fuel : nat) (n : Z) : Z :=
  match fuel with
  | O => 0
  | S f =>
    if 0 <? n then
      let peakSize := AllOnesBelow n in
      if n =? peakSize then BitLength n - 1 else GetHeight_loop f (n - peakSize)
    else 0
  end.
Definition GetHeight (nPos : Z) : Z := GetHeight_loop 64 (u64 (nPos + 1)).

Definition IsLeftSibling (nPos : Z) : bool :=
  let h := GetHeight nPos in
  let siblingOffset := u64 (u64 (Z.shiftl 1 (h + 1)) - 1) in
  GetHeight (u64 (nPos + siblingOffset)) =? h.

(** ** Hashes *)

(** "MARYJ_MMR_NODE" and "MARYJ_MMR_LEAF" *)
Definition prefix_node : bytes := [77;65;82;89;74;95;77;77;82;95;78;79;68;69].
Definition prefix_leaf : bytes := [77;65;82;89;74;95;77;77;82;95;76;69;65;70].

Definition HashParent `{Sha256} (left right : uint256) : uint256 :=
  sha256_twice (prefix_node ++ uint256_bytes left ++ uint256_bytes right).
Definition HashLeaf `{Sha256} (leaf : uint256) : uint256 :=
  sha256_twice (prefix_leaf ++ uint256_bytes leaf).

(** ** Proofs *)

Record CMMRProof := { nIndex : Z; vBranch : list uint256; vSide : list bool }.

Definition IsNull (p : CMMRProof) : bool := bool_decide (vBranch p = []).

(** [EncodeSide]: eight sides to a byte, least significant bit first. *)
Definition side_byte (s : list bool) : Z :=
  fold_left (fun byte j =>
    if at_ false s j then Z.lor byte (Z.shiftl 1 j) else byte)
    (seqZ 0 (Z.min 8 (Z.of_nat (length s)))) 0.
Fixpoint EncodeSide_loop (fuel : nat) (s : list bool) : bytes :=
  match fuel, s with
  | S f, _ :: _ => side_byte (take 8 s) :: EncodeSide_loop f (drop 8 s)
  | _, _ => []
  end.
Definition EncodeSide (s : list bool) : bytes := EncodeSide_loop (length s) s.

Definition DecodeSide (bits : bytes) (nBranchSize : nat) : list bool :=
  let v := concat (map (fun b => map (fun j => Z.land (Z.shiftr b j) 1 =? 1)
                                   (seqZ 0 8)) bits) in
  resize nBranchSize false v.

(** ** The range *)

Record CMMR := { vNodes : list uint256; nLeaves : Z }.

Definition empty_mmr : CMMR := {| vNodes := []; nLeaves := 0 |}.

Definition Clear (m : CMMR) : CMMR := {| vNodes := []; nLeaves := 0 |}.
Definition GetSize (m : CMMR) : Z := nLeaves m.
Definition IsEmpty (m : CMMR) : bool := nLeaves m =? 0.

Fixpoint Append_loop `{Sha256} (fuel : nat) (nodes : list uint256) (height idx : Z) : list uint256 :=
  match fuel with
  | O => nodes
  | S f =>
    if Z.land idx 1 =? 1 then
      let subtreeSize := u64 (u64 (Z.shiftl 1 (height + 1)) - 1) in
      let rightIdx := u64 (len nodes - 1) in
      let leftIdx := u64 (rightIdx - subtreeSize) in
      let parent := HashParent (at_ 0 nodes leftIdx) (at_ 0 nodes rightIdx) in
      Append_loop f (nodes ++ [parent]) (height + 1) (Z.shiftr idx 1)
    else nodes
  end.

(** Returns the new range and the index of the leaf. *)
Definition Append `{Sha256} (m : CMMR) (hash : uint256) : CMMR * Z :=
  let leafIndex := nLeaves m in
  let nodes := vNodes m ++ [HashLeaf hash] in
  ({| vNodes := Append_loop 64 nodes 0 leafIndex; nLeaves := u64 (nLeaves m + 1) |}, leafIndex).

(** [None]: the method returned false and left the range as it was. *)
Definition Rewind (m : CMMR) (nTargetLeaves : Z) : option CMMR :=
  if nLeaves m <? nTargetLeaves then None
  else if nTargetLeaves =? nLeaves m then Some m
  else
    let nTargetNodes := NodeCountForLeaves nTargetLeaves in
    if len (vNodes m) <? nTargetNodes then None
    else Some {| vNodes := resize (Z.to_nat nTargetNodes) 0 (vNodes m); nLeaves := nTargetLeaves |}.

(** The loop [for (h = 63; h >= 0; h--)]; [h] counts the turns left. *)
Fixpoint GetPeaks_loop (h : nat) (remaining nodeOffset : Z) : list Z :=
  match h with
  | O => []
  | S h' =>
    let hz := Z.of_nat h' in
    if u64 (Z.shiftl 1 hz) <=? remaining then
      let treeSize := u64 (u64 (Z.shiftl 1 (hz + 1)) - 1) in
      u64 (u64 (nodeOffset + treeSize) - 1)
        :: GetPeaks_loop h' (remaining - u64 (Z.shiftl 1 hz)) (u64 (nodeOffset + treeSize))
    else GetPeaks_loop h' remaining nodeOffset
  end.
Definition GetPeaks (m : CMMR) : list Z :=
  if nLeaves m =? 0 then [] else GetPeaks_loop 64 (nLeaves m) 0.

(** The bagging loop of [GetRoot], over the peaks left of the last one, from
    right to left; [None] is the early [return uint256(0)]. *)
Fixpoint bag_loop `{Sha256} (nodes : list uint256) (rev_peaks : list Z) (bag : uint256) : option uint256 :=
  match rev_peaks with
  | [] => Some bag
  | p :: ps => if p <? len nodes then bag_loop nodes ps (HashParent (at_ 0 nodes p) bag) else None
  end.
Definition GetRoot `{Sha256} (m : CMMR) : uint256 :=
  if nLeaves m =? 0 then 0
  else
    match rev (GetPeaks m) with
    | [] => 0
    | [p] => if p <? len (vNodes m) then at_ 0 (vNodes m) p else 0
    | p :: ps =>
      if p <? len (vNodes m) then default 0 (bag_loop (vNodes m) ps (at_ 0 (vNodes m) p)) else 0
    end.

(** Which peak covers the leaf: the first scan of [GetProof]. *)
Fixpoint myPeakIdx_loop (h : nat) (remaining leafOffset peakCounter nLeafIndex : Z) : Z :=
  match h with
  | O => -1
  | S h' =>
    let treeLeaves := u64 (Z.shiftl 1 (Z.of_nat h')) in
    if treeLeaves <=? remaining then
      if (leafOffset <=? nLeafIndex) && (nLeafIndex <? u64 (leafOffset + treeLeaves)) then peakCounter
      else myPeakIdx_loop h' (remaining - treeLeaves) (u64 (leafOffset + treeLeaves))
             (peakCounter + 1) nLeafIndex
    else myPeakIdx_loop h' remaining leafOffset peakCounter nLeafIndex
  end.

(** The [while (true)] climb of [GetProof]; [None] when the fuel runs out. *)
Fixpoint climb (fuel : nat) (nodes : list uint256) (peaks : list Z) (currentPos : Z)
    (branch : list uint256) (side : list bool) : option (list uint256 * list bool) :=
  match fuel with
  | O => None
  | S f =>
    if bool_decide (currentPos ∈ peaks) then Some (branch, side)
    else
      let h := GetHeight currentPos in
      let isLeft := IsLeftSibling currentPos in
      let siblingOffset := u64 (u64 (Z.shiftl 1 (h + 1)) - 1) in
      let siblingPos := if isLeft then u64 (currentPos + siblingOffset)
                        else u64 (currentPos - siblingOffset) in
      let parentPos := if isLeft then u64 (siblingPos + 1) else u64 (currentPos + 1) in
      if len nodes <=? siblingPos then Some (branch, side)
      else climb f nodes peaks parentPos (branch ++ [at_ 0 nodes siblingPos]) (side ++ [negb isLeft])
  end.

(** The two loops over the other peaks push the peaks still in the vector. *)
Definition push_peaks (nodes : list uint256) (ps : list Z) : list uint256 :=
  map (at_ 0 nodes) (List.filter (fun p => p <? len nodes) ps).

Definition GetProof (m : CMMR) (nLeafIndex : Z) : option CMMRProof :=
  let null := {| nIndex := nLeafIndex; vBranch := []; vSide := [] |} in
  if nLeaves m <=? nLeafIndex then Some null
  else
    let pos := LeafIndexToPos nLeafIndex in
    if len (vNodes m) <=? pos then Some null
    else
      let peaks := GetPeaks m in
      let my := myPeakIdx_loop 64 (nLeaves m) 0 0 nLeafIndex in
      match climb 64 (vNodes m) peaks pos [] [] with
      | None => None
      | Some (branch, side) =>
        if (1 <? len peaks) && (0 <=? my) then
          let right := push_peaks (vNodes m) (rev (drop (Z.to_nat (my + 1)) peaks)) in
          let left := push_peaks (vNodes m) (rev (take (Z.to_nat my) peaks)) in
          Some {| nIndex := nLeafIndex; vBranch := branch ++ right ++ left;
                  vSide := side ++ map (fun _ => false) right ++ map (fun _ => true) left |}
        else Some {| nIndex := nLeafIndex; vBranch := branch; vSide := side |}
      end.

Definition verify_step `{Sha256} (current : uint256) (e : uint256 * bool) : uint256 :=
  if e.2 then HashParent e.1 current else HashParent current e.1.

Definition VerifyProof `{Sha256} (root leafHash : uint256) (proof : CMMRProof) : bool :=
  if negb (len (vBranch proof) =? len (vSide proof)) then false
  else fold_left verify_step (combine (vBranch proof) (vSide proof)) (HashLeaf leafHash) =? root.

Definition GetLeafHash (m : CMMR) (nLeafIndex : Z) : uint256 :=
  if nLeaves m <=? nLeafIndex then 0
  else
    let pos := LeafIndexToPos nLeafIndex in
    if len (vNodes m) <=? pos then 0 else at_ 0 (vNodes m) pos.

(** The turn [h] of the climb of [GetNodeIndex]. *)
Definition GetNodeIndex_step (pos h : Z) : Z :=
  let isLeft := IsLeftSibling pos in
  let siblingOffset := u64 (u64 (Z.shiftl 1 (h + 1)) - 1) in
  if isLeft then u64 (pos + siblingOffset + 1) else u64 (pos + 1).
Definition GetNodeIndex (nLeafIndex nHeight : Z) : Z :=
  if nHeight =? 0 then LeafIndexToPos nLeafIndex
  else fold_left GetNodeIndex_step (seqZ 0 nHeight) (LeafIndexToPos nLeafIndex).

(** * Correctness *)

(** ** Bit lengths and population counts *)

Lemma shiftr_1 n : Z.shiftr n 1 = n / 2.
Proof. by rewrite Z.shiftr_div_pow2 by lia. Qed.

Lemma BitLength_loop_spec fuel n l :
  0 <= n < 2 ^ Z.of_nat fuel ->
  BitLength_loop fuel n l = l + (if n =? 0 then 0 else Z.log2 n + 1).
Proof.
  revert n l. induction fuel as [|f IH]; intros n l Hn; cbn [BitLength_loop].
  - assert (n = 0) as -> by (simpl in Hn; lia). simpl. lia.
  - rewrite Nat2Z.inj_succ, Z.pow_succ_r in Hn by lia.
    destruct (Z.ltb_spec 0 n); [|by assert (n = 0) as -> by lia; simpl; lia].
    rewrite shiftr_1, IH by (split; [apply Z.div_pos|apply Z.div_lt_upper_bound]; lia).
    destruct (Z.eqb_spec n 0); [lia|]. destruct (Z.eqb_spec (n / 2) 0) as [E|E].
    + assert (n = 1) as -> by (pose proof (Z.div_mod n 2); pose proof (Z.mod_pos_bound n 2); lia).
      simpl. lia.
    + replace (Z.log2 n) with (Z.succ (Z.log2 (n / 2))); [lia|].
      pose proof (Z.div_pos n 2). rewrite <-Z.log2_double by lia.
      pose proof (Z.div_mod n 2 ltac:(lia)) as Hdm. rewrite Zmod_odd in Hdm.
      destruct (Z.odd n); [|f_equal; lia].
      rewrite Hdm at 2. rewrite Z.log2_succ_double, Z.log2_double by lia. done.
Qed.

Lemma BitLength_pow2m1 k : 1 <= k <= 63 -> BitLength (2 ^ k - 1) = k.
Proof.
  intros Hk. unfold BitLength.
  assert (2 ^ 1 <= 2 ^ k) by (apply Z.pow_le_mono_r; lia).
  assert (2 ^ k <= 2 ^ 63) by (apply Z.pow_le_mono_r; lia).
  rewrite BitLength_loop_spec by (simpl; lia).
  destruct (Z.eqb_spec (2 ^ k - 1) 0); [lia|].
  rewrite <-Z.pred_succ with (n := 2 ^ k - 1). unfold Z.succ.
  replace (Z.pred (2 ^ k - 1 + 1)) with (Z.pred (2 ^ k)) by lia.
  rewrite Z.log2_pred_pow2 by lia. lia.
Qed.

Lemma pow2_u64 k : 0 <= k <= 63 -> u64 (Z.shiftl 1 k) = 2 ^ k.
Proof.
  intros Hk. rewrite Z.shiftl_1_l. apply u64_id. split; [apply Z.pow_nonneg; lia|].
  apply Z.pow_lt_mono_r; lia.
Qed.

Lemma ones_u64 k : 0 <= k <= 63 -> u64 (u64 (Z.shiftl 1 k) - 1) = 2 ^ k - 1.
Proof.
  intros Hk. rewrite pow2_u64 by lia. apply u64_id.
  assert (0 < 2 ^ k) by (apply Z.pow_pos_nonneg; lia).
  assert (2 ^ k < 2 ^ 64) by (apply Z.pow_lt_mono_r; lia). lia.
Qed.

Lemma AllOnesBelow_spec k n :
  1 <= k <= 62 -> 2 ^ k - 1 <= n < 2 ^ (k + 1) - 1 -> AllOnesBelow n = 2 ^ k - 1.
Proof.
  intros Hk Hn. unfold AllOnesBelow.
  assert (2 ^ 1 <= 2 ^ k) by (apply Z.pow_le_mono_r; lia).
  assert (2 ^ (k + 1) <= 2 ^ 63) by (apply Z.pow_le_mono_r; lia).
  destruct (Z.eqb_spec n 0); [lia|]. cbv zeta.
  destruct (Z.eq_dec n (2 ^ k - 1)) as [->|Hne].
  - rewrite BitLength_pow2m1, ones_u64 by lia. by rewrite Z.leb_refl.
  - assert (BitLength n = k + 1) as ->.
    { unfold BitLength. rewrite BitLength_loop_spec by (simpl; lia).
      destruct (Z.eqb_spec n 0); [lia|]. rewrite (Z.log2_unique n k); unfold Z.succ; lia. }
    rewrite !ones_u64 by lia. destruct (Z.leb_spec (2 ^ (k + 1) - 1) n); [lia|].
    do 2 f_equal. lia.
Qed.

(** ** Positions in a perfect tree

    The nodes of a perfect tree of height [H] are numbered from 1 in post-order;
    [size H] is the number of the root. *)

Definition size (H : nat) : Z := 2 ^ (Z.of_nat H + 1) - 1.

Lemma size_S H : size (S H) = 2 * size H + 1.
Proof.
  unfold size. rewrite Nat2Z.inj_succ. replace (Z.succ (Z.of_nat H) + 1) with (Z.succ (Z.of_nat H + 1)) by lia.
  rewrite Z.pow_succ_r by lia. lia.
Qed.

Lemma size_pos H : 1 <= size H.
Proof. induction H; [done|]. rewrite size_S. lia. Qed.

Lemma size_mono h H : (h <= H)%nat -> size h <= size H.
Proof. induction 1; [lia|]. rewrite size_S. pose proof (size_pos m). lia. Qed.

Lemma size_mono_lt h H : (h < H)%nat -> size h < size H.
Proof. intros Hl. pose proof (size_mono (S h) H). rewrite size_S in *. pose proof (size_pos h). lia. Qed.

Lemma size_bound H : (H <= 61)%nat -> size H < 2 ^ 62.
Proof. intros HH. pose proof (size_mono H 61 HH). change (size 61) with (2 ^ 62 - 1) in *. lia. Qed.

(** The node numbered [n] has height [h]; it is a left or a right child. *)
Inductive node : nat -> Z -> nat -> Prop :=
| node_root H : node H (size H) H
| node_left H n h : node H n h -> node (S H) n h
| node_right H n h : node H n h -> node (S H) (size H + n) h.
Inductive left_child : nat -> Z -> nat -> Prop :=
| lc_here H : left_child (S H) (size H) H
| lc_left H n h : left_child H n h -> left_child (S H) n h
| lc_right H n h : left_child H n h -> left_child (S H) (size H + n) h.
Inductive right_child : nat -> Z -> nat -> Prop :=
| rc_here H : right_child (S H) (2 * size H) H
| rc_left H n h : right_child H n h -> right_child (S H) n h
| rc_right H n h : right_child H n h -> right_child (S H) (size H + n) h.

Create HintDb tree.
#[local] Hint Constructors node left_child right_child : tree.

Lemma node_bounds H n h : node H n h -> size h <= n <= size H /\ (h <= H)%nat.
Proof.
  induction 1 as [H|H n h _ IH|H n h _ IH]; rewrite ?size_S; pose proof (size_pos H); lia.
Qed.

Lemma right_child_node H n h : right_child H n h -> node H n h /\ (h < H)%nat /\ n < size H.
Proof.
  induction 1 as [H|H n h _ IH|H n h _ IH]; rewrite size_S; pose proof (size_pos H).
  - split; [|lia]. replace (2 * size H) with (size H + size H) by lia. auto with tree.
  - split; [|lia]. apply node_left. tauto.
  - split; [|lia]. apply node_right. tauto.
Qed.

Lemma left_child_node H n h : left_child H n h -> node H n h /\ node H (n + size h) h.
Proof.
  induction 1 as [H|H n h _ [IH1 IH2]|H n h _ [IH1 IH2]]; split; auto with tree.
  rewrite <-Z.add_assoc. auto with tree.
Qed.

Lemma node_total H n : 1 <= n <= size H -> exists h, node H n h.
Proof.
  revert n. induction H as [|H IH]; intros n Hn.
  - exists 0%nat. change (size 0) with 1 in Hn. assert (n = 1) as -> by lia. exact (node_root 0).
  - rewrite size_S in Hn. destruct (Z.eq_dec n (2 * size H + 1)) as [->|].
    + exists (S H). rewrite <-size_S. apply node_root.
    + destruct (Z.le_gt_cases n (size H)).
      * destruct (IH n) as [h Hh]; [lia|]. eauto with tree.
      * destruct (IH (n - size H)) as [h Hh]; [lia|]. exists h.
        replace n with (size H + (n - size H)) by lia. auto with tree.
Qed.

(** After a right child, the next node of its height is far away. *)
Lemma right_child_gap H n1 n2 h :
  right_child H n1 h -> node H n2 h -> n1 < n2 -> size h < n2 - n1.
Proof.
  intros Hr. revert n2. induction Hr as [H|H n1 h Hr IH|H n1 h Hr IH]; intros n2 Hn Hlt.
  - exfalso. pose proof (node_bounds _ _ _ Hn) as [[_ Hb] _]. rewrite size_S in Hb.
    inversion Hn; subst; [lia| |].
    + apply node_bounds in H2. pose proof (size_pos H). lia.
    + apply node_bounds in H2. lia.
  - destruct (right_child_node _ _ _ Hr) as (Hnode & Hh & Hs).
    inversion Hn; subst; [lia|by auto|]. apply node_bounds in H2. lia.
  - destruct (right_child_node _ _ _ Hr) as (Hnode & Hh & Hs).
    inversion Hn; subst; [lia| |].
    + apply node_bounds in H2. apply node_bounds in Hnode. pose proof (size_pos h). lia.
    + specialize (IH n). assert (n1 < n) by lia. specialize (IH H2 H0). lia.
Qed.

(** ** [GetHeight] and [IsLeftSibling] compute the height and the side *)

Lemma size_pow H : size H = 2 ^ Z.of_nat (S H) - 1.
Proof. unfold size. by rewrite Nat2Z.inj_succ. Qed.

Lemma GetHeight_loop_node H n h fuel :
  node H n h -> (H < fuel)%nat -> (H <= 60)%nat -> GetHeight_loop fuel n = Z.of_nat h.
Proof.
  intros Hn. revert fuel. induction Hn as [H|H n h Hn IH|H n h Hn IH]; intros fuel Hf HH;
    destruct fuel as [|f]; try lia.
  - cbn [GetHeight_loop]. pose proof (size_pos H). destruct (Z.ltb_spec 0 (size H)); [|lia].
    assert (AllOnesBelow (size H) = size H) as ->.
    { rewrite size_pow. apply AllOnesBelow_spec; [lia|].
      rewrite Z.pow_add_r by lia. lia. }
    rewrite Z.eqb_refl, size_pow, BitLength_pow2m1; lia.
  - apply IH; lia.
  - cbn [GetHeight_loop]. destruct (node_bounds _ _ _ Hn) as [[Hl Hu] _].
    pose proof (size_pos H). pose proof (size_pos h).
    destruct (Z.ltb_spec 0 (size H + n)); [|lia].
    assert (AllOnesBelow (size H + n) = size H) as ->.
    { rewrite size_pow in *. apply AllOnesBelow_spec; [lia|].
      rewrite Z.pow_add_r by lia. lia. }
    destruct (Z.eqb_spec (size H + n) (size H)); [lia|].
    replace (size H + n - size H) with n by lia. apply IH; lia.
Qed.

Lemma GetHeight_node H n h : node H n h -> (H <= 60)%nat -> GetHeight (n - 1) = Z.of_nat h.
Proof.
  intros Hn HH. destruct (node_bounds _ _ _ Hn) as [[Hl Hu] _].
  pose proof (size_pos h). pose proof (size_bound H). unfold GetHeight.
  rewrite u64_id by lia. rewrite Z.sub_add. by apply (GetHeight_loop_node H); [|lia|].
Qed.

Lemma offset_size h : (h <= 61)%nat -> u64 (u64 (Z.shiftl 1 (Z.of_nat h + 1)) - 1) = size h.
Proof. intros Hh. by rewrite ones_u64 by lia. Qed.

Lemma IsLeftSibling_left H n h : left_child H n h -> (H <= 60)%nat -> IsLeftSibling (n - 1) = true.
Proof.
  intros Hl HH. destruct (left_child_node _ _ _ Hl) as [H1 H2].
  destruct (node_bounds _ _ _ H1) as [? Hh], (node_bounds _ _ _ H2) as [? _].
  pose proof (size_bound H). pose proof (size_pos h).
  unfold IsLeftSibling. rewrite (GetHeight_node _ _ _ H1), offset_size by lia. cbv zeta.
  rewrite u64_id by lia. replace (n - 1 + size h) with (n + size h - 1) by lia.
  rewrite (GetHeight_node _ _ _ H2) by lia. apply Z.eqb_refl.
Qed.

Lemma IsLeftSibling_right H n h : right_child H n h -> (H <= 59)%nat -> IsLeftSibling (n - 1) = false.
Proof.
  intros Hr HH. destruct (right_child_node _ _ _ Hr) as (H1 & Hh & Hs).
  destruct (node_bounds _ _ _ H1) as [? _]. pose proof (size_mono h H). pose proof (size_pos h).
  pose proof (size_bound (S H)). pose proof (size_S H).
  destruct (node_total (S H) (n + size h)) as [h' Hn2]; [lia|].
  unfold IsLeftSibling. rewrite (GetHeight_node _ _ _ H1), offset_size by lia. cbv zeta.
  rewrite u64_id by lia. replace (n - 1 + size h) with (n + size h - 1) by lia.
  rewrite (GetHeight_node _ _ _ Hn2) by lia. destruct (Z.eqb_spec (Z.of_nat h') (Z.of_nat h)); [|done].
  exfalso. assert (h' = h) as -> by lia.
  pose proof (right_child_gap (S H) n (n + size h) h (rc_left _ _ _ Hr) Hn2). lia.
Qed.

(** Positions at which a perfect tree of height [H], stored from position [o],
    is recognised by the position arithmetic. *)
Record embeds (H : nat) (o : Z) : Prop := {
  embeds_height n h : node H n h -> GetHeight (o + n - 1) = Z.of_nat h;
  embeds_left n h : left_child H n h -> IsLeftSibling (o + n - 1) = true;
  embeds_right n h : right_child H n h -> IsLeftSibling (o + n - 1) = false
}.

Lemma embeds_0 H : (H <= 59)%nat -> embeds H 0.
Proof.
  intros HH. split; intros n h Hn; rewrite Z.add_0_l.
  - eapply GetHeight_node; [done|lia].
  - eapply IsLeftSibling_left; [done|lia].
  - by eapply IsLeftSibling_right.
Qed.

Lemma embeds_sub_left H o : embeds (S H) o -> embeds H o.
Proof. intros [E1 E2 E3]. split; eauto with tree. Qed.

Lemma embeds_sub_right H o : embeds (S H) o -> embeds H (o + size H).
Proof.
  intros [E1 E2 E3]. split; intros n h Hn; rewrite <-Z.add_assoc; eauto with tree.
Qed.

(** ** The nodes of the range as a function of its leaves *)

Section spec.
Context {hash : Sha256}.

(** Root and post-order node list of the perfect tree over [2^H] leaves. *)
Fixpoint root (H : nat) (ls : list uint256) : uint256 :=
  match H with
  | O => HashLeaf (default 0 (head ls))
  | S h => HashParent (root h (take (2 ^ h) ls)) (root h (drop (2 ^ h) ls))
  end.
Fixpoint perfect (H : nat) (ls : list uint256) : list uint256 :=
  match H with
  | O => [root 0 ls]
  | S h => perfect h (take (2 ^ h) ls) ++ perfect h (drop (2 ^ h) ls) ++ [root (S h) ls]
  end.

(** The mountains of a range of fewer than [2^h] leaves: one perfect tree per
    binary digit of the number of leaves, largest first. *)
Fixpoint mountains (h : nat) (ls : list uint256) : list (nat * list uint256) :=
  match h with
  | O => []
  | S h' =>
    if decide (2 ^ h' <= length ls)%nat then
      (h', take (2 ^ h') ls) :: mountains h' (drop (2 ^ h') ls)
    else mountains h' ls
  end.
Definition nodes_of (ms : list (nat * list uint256)) : list uint256 :=
  concat (map (fun m => perfect m.1 m.2) ms).

(** The abstract range over the leaves [ls]; [max_h] bounds their number so
    that no 64-bit position overflows. *)
Definition max_h : nat := 59.
Definition mmr_of (ls : list uint256) : CMMR :=
  {| vNodes := nodes_of (mountains max_h ls); nLeaves := len ls |}.

Lemma perfect_snoc H ls : exists l, perfect H ls = l ++ [root H ls].
Proof. destruct H; simpl; [by exists []|]. eexists. rewrite app_assoc. done. Qed.

Lemma perfect_len H ls : len (perfect H ls) = size H.
Proof.
  revert ls. induction H as [|h IH]; intros ls; [done|]. cbn [perfect]. unfold len in *.
  rewrite !length_app, !Nat2Z.inj_add, !IH, size_S. simpl. lia.
Qed.

Lemma pow2_S h : (2 ^ S h = 2 ^ h + 2 ^ h)%nat.
Proof. simpl. lia. Qed.

Lemma mountains_nil h : mountains h [] = [].
Proof.
  induction h as [|h IH]; [done|]. cbn [mountains]. rewrite decide_False; [done|].
  pose proof (Nat.pow_nonzero 2 h). simpl. lia.
Qed.

(** A range whose leaves split at a multiple of [2^k]. *)
Lemma mountains_app h k ls m :
  (k <= h)%nat -> (length (ls ++ m) < 2 ^ h)%nat -> (exists q, length ls = q * 2 ^ k)%nat ->
  (length m < 2 ^ k)%nat ->
  mountains h (ls ++ m) = mountains h ls ++ mountains k m.
Proof.
  intros Hk. revert ls. induction Hk as [|h Hk IH]; intros ls Hlen Hdiv Hm.
  - destruct Hdiv as [q Hq]. rewrite length_app in Hlen.
    assert (q = 0)%nat as -> by nia. destruct ls; [|done].
    cbn [app]. by rewrite mountains_nil.
  - cbn [mountains]. rewrite length_app in *. destruct Hdiv as [q Hq].
    destruct (Nat.le_exists_sub k h Hk) as (d & Hd & _). assert (2 ^ h = 2 ^ d * 2 ^ k)%nat as Hpow
      by (rewrite Hd, Nat.pow_add_r; done).
    rewrite pow2_S in Hlen.
    destruct (decide (2 ^ h <= length ls)%nat) as [Hge|Hlt].
    + rewrite decide_True by lia. rewrite take_app_le, drop_app_le by lia. simpl. f_equal.
      apply IH; [rewrite length_app, length_drop; lia| |done].
      exists (q - 2 ^ d)%nat. rewrite length_drop. nia.
    + assert (q + 1 <= 2 ^ d)%nat by nia.
      assert (length ls + length m < 2 ^ h)%nat by nia.
      rewrite decide_False by lia. apply IH; [by rewrite length_app|by exists q|done].
Qed.

Lemma mountains_one k m : (length m = 2 ^ k)%nat -> mountains (S k) m = [(k, m)].
Proof.
  intros Hm. cbn [mountains]. rewrite decide_True by lia. rewrite take_ge, drop_ge by lia.
  by rewrite mountains_nil.
Qed.

Lemma at_app_len {A} (d : A) l x r : at_ d (l ++ x :: r) (len l) = x.
Proof.
  apply at_lookup; [apply len_pos|]. unfold len. rewrite Nat2Z.id.
  by rewrite list_lookup_middle.
Qed.

Lemma nodes_of_app a b : nodes_of (a ++ b) = nodes_of a ++ nodes_of b.
Proof. unfold nodes_of. by rewrite map_app, concat_app. Qed.

Lemma nodes_of_one H ls : nodes_of [(H, ls)] = perfect H ls.
Proof. unfold nodes_of. simpl. by rewrite app_nil_r. Qed.

Lemma nodes_len h ls : len (nodes_of (mountains h ls)) <= size h.
Proof.
  revert ls. induction h as [|h IH]; intros ls; [done|].
  cbn [mountains]. rewrite size_S. pose proof (size_pos h).
  destruct (decide _); [|specialize (IH ls); lia].
  change (nodes_of ((h, ?a) :: ?r)) with (perfect h a ++ nodes_of r).
  rewrite len_app, perfect_len. specialize (IH (drop (2 ^ h) ls)). lia.
Qed.

(** The two reads of one merge. *)
Lemma merge_reads X k C D :
  (k <= max_h)%nat -> len X <= size max_h ->
  let nodes := X ++ perfect k C ++ perfect k D in
  let rightIdx := u64 (len nodes - 1) in
  at_ 0 nodes rightIdx = root k D /\ at_ 0 nodes (u64 (rightIdx - size k)) = root k C.
Proof.
  intros Hk HX. cbv zeta. rewrite !len_app, !perfect_len.
  pose proof (len_pos X). pose proof (size_pos k). pose proof (size_mono k _ Hk).
  pose proof (size_bound max_h). unfold max_h in *.
  rewrite !(u64_id (_ + _ - 1)) by lia. rewrite u64_id by lia.
  destruct (perfect_snoc k C) as [c Hc], (perfect_snoc k D) as [d Hd].
  pose proof (perfect_len k C) as Lc. pose proof (perfect_len k D) as Ld.
  rewrite Hc, Hd in *. rewrite len_app in Lc, Ld. change (len [_]) with 1 in *. split.
  - replace (len X + (size k + size k) - 1) with (len (X ++ (c ++ [root k C]) ++ d))
      by (rewrite !len_app; change (len [_]) with 1; lia).
    rewrite !app_assoc. apply at_app_len.
  - replace (len X + (size k + size k) - 1 - size k) with (len (X ++ c))
      by (rewrite len_app; lia).
    rewrite <-!app_assoc, app_assoc. cbn [app]. apply at_app_len.
Qed.

(** Appending a perfect tree on top of the mountains of [A]: the trailing ones
    of the leaf index drive the merges. *)
Lemma Append_loop_spec fuel h k A m (q : nat) :
  (h <= max_h)%nat -> (length A = q * 2 ^ k)%nat -> (length m = 2 ^ k)%nat ->
  (length (A ++ m) < 2 ^ h)%nat -> (q < 2 ^ fuel)%nat ->
  Append_loop fuel (nodes_of (mountains h A) ++ perfect k m) (Z.of_nat k) (Z.of_nat q) =
  nodes_of (mountains h (A ++ m)).
Proof.
  intros Hh. revert k A m q. induction fuel as [|fuel IH]; intros k A m q HA Hm Hlen Hq.
  all: assert (k < h)%nat as Hkh
    by (apply (Nat.pow_lt_mono_r_iff 2); [lia|]; rewrite length_app in Hlen; lia).
  all: assert (forall p, q = (2 * p)%nat -> nodes_of (mountains h A) ++ perfect k m =
    nodes_of (mountains h (A ++ m))) as Heven.
  1,3: intros p Hp; rewrite (mountains_app h (S k)), mountains_one, nodes_of_app, nodes_of_one;
    [done|done|lia|done|exists p; rewrite pow2_S; nia|rewrite pow2_S; pose proof (Nat.pow_nonzero 2 k); lia].
  - apply (Heven 0%nat). simpl in Hq. lia.
  - cbn [Append_loop]. change 1 with (Z.ones 1) at 1. rewrite Z.land_ones by lia.
    change (2 ^ 1) with 2. destruct (Z.eqb_spec (Z.of_nat q mod 2) 1) as [E|E].
    + set (q' := (q / 2)%nat). assert (q = 2 * q' + 1)%nat as Hqq.
      { unfold q'. pose proof (Nat.div_mod_eq q 2). assert (Z.of_nat (q mod 2) = 1) by (rewrite Nat2Z.inj_mod; done). lia. }
      rewrite <-(take_drop (q' * 2 ^ S k) A). set (A' := take _ A). set (C := drop _ A).
      assert (length A' = q' * 2 ^ S k)%nat as HA'
        by (unfold A'; rewrite length_take, pow2_S; nia).
      assert (length C = 2 ^ k)%nat as HC by (unfold C; rewrite length_drop, pow2_S; nia).
      assert (length A = length A' + length C)%nat as HAC
        by (unfold A', C; by rewrite <-length_app, take_drop).
      pose proof (Nat.pow_nonzero 2 k ltac:(lia)) as Hk0.
      rewrite (mountains_app h (S k)), mountains_one, nodes_of_app, nodes_of_one;
        [|done|lia|rewrite !length_app in *; lia|by exists q'|rewrite pow2_S; lia].
      rewrite <-(app_assoc (nodes_of _)). cbv zeta. rewrite offset_size by (unfold max_h in *; lia).
      assert (len (nodes_of (mountains h A')) <= size max_h) as HX
        by (etransitivity; [apply nodes_len|by apply size_mono]).
      destruct (merge_reads (nodes_of (mountains h A')) k C m ltac:(lia) HX) as [-> ->].
      rewrite shiftr_1. replace (Z.of_nat q / 2) with (Z.of_nat q')
        by (unfold q'; rewrite Nat2Z.inj_div; done).
      replace (Z.of_nat k + 1) with (Z.of_nat (S k)) by lia.
      rewrite <-(app_assoc (nodes_of _)), <-(app_assoc A'). rewrite <-IH with (k := S k) (q := q').
      * f_equal. cbn [perfect]. rewrite <-!app_assoc. f_equal.
        rewrite take_app_length', drop_app_length' by done. do 3 f_equal. 
        cbn [root]. by rewrite take_app_length', drop_app_length' by done.
      * done.
      * rewrite length_app, pow2_S. lia.
      * rewrite !length_app in *. rewrite pow2_S in HA'. nia.
      * rewrite pow2_S in Hq. lia.
    + set (q' := (q / 2)%nat). apply (Heven q'). unfold q'.
      pose proof (Nat.div_mod_eq q 2). pose proof (Nat.mod_upper_bound q 2 ltac:(lia)).
      assert (Z.of_nat (q mod 2) <> 1) by (rewrite Nat2Z.inj_mod; done). lia.
Qed.

Lemma pow2_nat_Z k : Z.of_nat (2 ^ k) = 2 ^ Z.of_nat k.
Proof. by rewrite Nat2Z.inj_pow. Qed.

Lemma small_len {A} (l : list A) : len l < 2 ^ 59 <-> (length l < 2 ^ max_h)%nat.
Proof. rewrite Nat2Z.inj_lt, pow2_nat_Z. done. Qed.

Lemma Append_nodes fuel ls x :
  (length (ls ++ [x]) < 2 ^ max_h)%nat -> (length ls < 2 ^ fuel)%nat ->
  Append_loop fuel (nodes_of (mountains max_h ls) ++ [HashLeaf x]) 0 (len ls) =
  nodes_of (mountains max_h (ls ++ [x])).
Proof.
  intros Hn Hf. refine (Append_loop_spec fuel max_h 0 ls [x] (length ls) _ _ eq_refl Hn Hf).
  - apply Nat.le_refl.
  - symmetry. apply Nat.mul_1_r.
Qed.

Lemma pow2_nat_le (a b n : nat) : (n < 2 ^ a)%nat -> (a <= b)%nat -> (n < 2 ^ b)%nat.
Proof. intros Hn Hab. eapply Nat.lt_le_trans; [exact Hn|]. apply Nat.pow_le_mono_r; lia. Qed.

Lemma Append_mmr_of ls x :
  len ls + 1 < 2 ^ 59 -> Append (mmr_of ls) x = (mmr_of (ls ++ [x]), len ls).
Proof.
  intros Hl. assert (length (ls ++ [x]) < 2 ^ max_h)%nat as Hn
    by (apply small_len; rewrite len_app; done).
  assert (length ls < 2 ^ max_h)%nat as Hn0 by (rewrite length_app in Hn; lia).
  unfold Append. cbn [nLeaves vNodes mmr_of]. f_equal. unfold mmr_of. f_equal.
  - apply (Append_nodes 64 ls x Hn). apply (pow2_nat_le max_h); [exact Hn0|unfold max_h; lia].
  - pose proof (len_pos ls). rewrite u64_id by lia. by rewrite len_app.
Qed.

(** ** Node counts *)

Definition pc (n : Z) : Z := popcount_loop 64 n 0.

Lemma popcount_loop_acc f n acc : popcount_loop f n acc = acc + popcount_loop f n 0.
Proof.
  revert n acc. induction f as [|f IH]; intros n acc; cbn [popcount_loop]; [lia|].
  destruct (0 <? n); [|lia]. rewrite IH, (IH _ (0 + _)). lia.
Qed.

Lemma popcount_loop_0 f acc : popcount_loop f 0 acc = acc.
Proof. by destruct f. Qed.

Lemma popcount_loop_top f h r :
  (h < f)%nat -> 0 <= r < 2 ^ Z.of_nat h ->
  popcount_loop f (2 ^ Z.of_nat h + r) 0 = 1 + popcount_loop f r 0.
Proof.
  revert h r. induction f as [|f IH]; intros h r Hf Hr; [lia|]. cbn [popcount_loop].
  destruct (Z.ltb_spec 0 (2 ^ Z.of_nat h + r)); [|lia].
  change 1 with (Z.ones 1) at 2. rewrite !shiftr_1, !Z.land_ones by lia. change (2 ^ 1) with 2.
  destruct h as [|h].
  - assert (r = 0) as -> by (simpl in Hr; lia). cbn. by rewrite popcount_loop_0.
  - rewrite Nat2Z.inj_succ, Z.pow_succ_r in * by lia.
    set (P := 2 ^ Z.of_nat h) in *.
    replace ((2 * P + r) / 2) with (P + r / 2)
      by (rewrite (Z.add_comm (2 * P)), (Z.mul_comm 2 P), Z.div_add by lia; lia).
    replace ((2 * P + r) mod 2) with (r mod 2)
      by (rewrite (Z.add_comm (2 * P)), (Z.mul_comm 2 P), Z_mod_plus_full; done).
    assert (0 <= r / 2 < P) by (split; [apply Z.div_pos|apply Z.div_lt_upper_bound]; lia).
    rewrite popcount_loop_acc. unfold P. rewrite IH by lia. fold P.
    destruct (Z.ltb_spec 0 r).
    + change (Z.land r 1) with (Z.land r (Z.ones 1)). rewrite Z.land_ones by lia. change (2 ^ 1) with 2.
      rewrite (popcount_loop_acc f _ (0 + _)). lia.
    + assert (r = 0) as -> by lia. change (0 / 2) with 0. change (0 mod 2) with 0.
      rewrite popcount_loop_0. lia.
Qed.

Lemma pc_top h r : (h < 64)%nat -> 0 <= r < 2 ^ Z.of_nat h -> pc (2 ^ Z.of_nat h + r) = 1 + pc r.
Proof. apply popcount_loop_top. Qed.

(** The number of nodes of [n] leaves, and the position of leaf [n]. *)
Definition node_count (n : Z) : Z := 2 * n - pc n.

Lemma node_count_top h r :
  (h < 64)%nat -> 0 <= r < 2 ^ Z.of_nat h -> node_count (2 ^ Z.of_nat h + r) = size h + node_count r.
Proof.
  intros Hh Hr. unfold node_count. rewrite pc_top, size_pow, Nat2Z.inj_succ, Z.pow_succ_r by lia. lia.
Qed.

Lemma nodes_count h ls :
  (h <= 64)%nat -> (length ls < 2 ^ h)%nat ->
  len (nodes_of (mountains h ls)) = node_count (len ls).
Proof.
  revert ls. induction h as [|h IH]; intros ls Hh Hl.
  - destruct ls; [done|simpl in Hl; lia].
  - cbn [mountains]. rewrite pow2_S in Hl. destruct (decide _) as [Hd|Hd]; [|apply IH; lia].
    change (nodes_of ((h, ?a) :: ?r)) with (perfect h a ++ nodes_of r).
    rewrite len_app, perfect_len, IH by (rewrite ?length_drop; lia).
    rewrite len_drop by lia. rewrite <-node_count_top.
    + f_equal. rewrite pow2_nat_Z. lia.
    + lia.
    + rewrite <-pow2_nat_Z. unfold len. lia.
Qed.

Lemma node_count_bounds n : 0 <= n < 2 ^ 59 -> 0 <= node_count n < 2 ^ 60.
Proof.
  intros Hn. assert (len (repeat 0 (Z.to_nat n)) = n) as Hl by (unfold len; rewrite repeat_length; lia).
  rewrite <-Hl. rewrite <-(nodes_count 59).
  - pose proof (nodes_len 59 (repeat 0 (Z.to_nat n))) as Hb. change (size 59) with (2 ^ 60 - 1) in Hb.
    pose proof (len_pos (nodes_of (mountains 59 (repeat 0 (Z.to_nat n))))). lia.
  - lia.
  - apply small_len. lia.
Qed.

(** ** Rewinding *)

Lemma Append_loop_prefix f nodes height idx : nodes `prefix_of` Append_loop f nodes height idx.
Proof.
  revert nodes height idx. induction f as [|f IH]; intros; cbn [Append_loop]; [done|].
  destruct (_ =? _); [|done]. etransitivity; [|apply IH]. by apply prefix_app_r.
Qed.

Lemma nodes_prefix ls ms :
  len (ls ++ ms) < 2 ^ 59 -> vNodes (mmr_of ls) `prefix_of` vNodes (mmr_of (ls ++ ms)).
Proof.
  revert ls. induction ms as [|x ms IH]; intros ls Hl; [by rewrite app_nil_r|].
  rewrite (app_assoc ls [x] ms : ls ++ x :: ms = _) in *.
  etransitivity; [|by apply IH]. rewrite len_app in Hl. pose proof (len_pos ms).
  pose proof (Append_mmr_of ls x) as E. rewrite len_app in Hl. change (len [x]) with 1 in Hl.
  specialize (E ltac:(lia)). apply (f_equal (fun p => vNodes p.1)) in E. cbn [fst] in E. rewrite <-E.
  unfold Append. cbn [vNodes fst]. etransitivity; [|apply Append_loop_prefix]. by apply prefix_app_r.
Qed.


Lemma NodeCountForLeaves_spec n : 0 <= n < 2 ^ 59 -> NodeCountForLeaves n = node_count n.
Proof. intros Hn. pose proof (node_count_bounds n Hn). apply u64_id. unfold node_count in *. lia. Qed.

Lemma LeafIndexToPos_spec n : 0 <= n < 2 ^ 59 -> LeafIndexToPos n = node_count n.
Proof. exact (NodeCountForLeaves_spec n). Qed.

Lemma mmr_of_len ls : len ls < 2 ^ 59 -> len (vNodes (mmr_of ls)) = node_count (len ls).
Proof.
  intros Hl. apply nodes_count; [unfold max_h; lia|]. by apply small_len.
Qed.

Lemma resize_prefix (l k : list Z) : l `prefix_of` k -> resize (length l) 0 k = l.
Proof. intros [r ->]. rewrite resize_app_le by lia. apply resize_all. Qed.

Lemma Rewind_mmr_of ls ms :
  len (ls ++ ms) < 2 ^ 59 -> Rewind (mmr_of (ls ++ ms)) (len ls) = Some (mmr_of ls).
Proof.
  intros Hl. pose proof (nodes_prefix ls ms Hl) as Hp. pose proof Hl as Hl'. rewrite len_app in Hl'.
  pose proof (len_pos ls). pose proof (len_pos ms).
  unfold Rewind. cbn [nLeaves mmr_of]. rewrite len_app.
  destruct (Z.ltb_spec (len ls + len ms) (len ls)); [lia|].
  destruct (Z.eqb_spec (len ls) (len ls + len ms)) as [E|E].
  - rewrite (len_zero ms) by lia.
    by rewrite app_nil_r.
  - rewrite NodeCountForLeaves_spec by lia. rewrite <-mmr_of_len by lia.
    pose proof (prefix_length _ _ Hp). unfold len at 1 2.
    destruct (Z.ltb_spec (Z.of_nat (length (vNodes (mmr_of (ls ++ ms))))) (Z.of_nat (length (vNodes (mmr_of ls))))); [lia|].
    unfold len at 1. rewrite Nat2Z.id. change (nodes_of (mountains max_h (ls ++ ms))) with (vNodes (mmr_of (ls ++ ms))).
    by rewrite resize_prefix by done.
Qed.

Definition append_all (m : CMMR) (xs : list uint256) : CMMR :=
  fold_left (fun m x => (Append m x).1) xs m.

Lemma append_all_mmr_of ls xs :
  len (ls ++ xs) < 2 ^ 59 -> append_all (mmr_of ls) xs = mmr_of (ls ++ xs).
Proof.
  revert ls. induction xs as [|x xs IH]; intros ls Hl; [by rewrite app_nil_r|].
  unfold append_all. cbn [fold_left]. rewrite len_app, len_cons in Hl. pose proof (len_pos xs).
  rewrite Append_mmr_of by lia. cbn [fst]. change (fold_left _ xs ?m) with (append_all m xs).
  rewrite IH; rewrite <-app_assoc; [done|]. rewrite !len_app, len_cons. change (len (@nil uint256)) with 0. lia.
Qed.

(** C19. Appending leaves one after another to the range of a list of leaves gives
    exactly the range of the longer list, and each append returns the index of its leaf,
    below 2^59 leaves. *)
Theorem mmr_append ls xs x :
  len (ls ++ xs) + 1 < 2 ^ 59 ->
  append_all (mmr_of ls) xs = mmr_of (ls ++ xs) /\ (Append (append_all (mmr_of ls) xs) x).2 = len ls + len xs.
Proof.
  intros Hl. rewrite append_all_mmr_of by lia. split; [done|]. rewrite Append_mmr_of by lia. apply len_app.
Qed.

(** C31. Rewinding undoes appends: whatever leaves are appended to a range, below 2^59
    in all, rewinding to its former number of leaves gives it back. *)
Theorem mmr_rewind ls xs :
  len (ls ++ xs) < 2 ^ 59 -> Rewind (append_all (mmr_of ls) xs) (GetSize (mmr_of ls)) = Some (mmr_of ls).
Proof. intros Hl. rewrite append_all_mmr_of by done. by apply Rewind_mmr_of. Qed.

(** ** Peaks *)

(** Positions of the roots of the mountains [ms] stored from position [o]. *)
Fixpoint peak_pos (o : Z) (ms : list (nat * list uint256)) : list Z :=
  match ms with
  | [] => []
  | m :: ms' => (o + size m.1 - 1) :: peak_pos (o + size m.1) ms'
  end.

Lemma pow2_small k : (k <= 62)%nat -> u64 (Z.shiftl 1 (Z.of_nat k)) = 2 ^ Z.of_nat k.
Proof. intros. apply pow2_u64. lia. Qed.

Lemma GetPeaks_loop_spec h ls o :
  (h <= max_h)%nat -> (length ls < 2 ^ h)%nat -> 0 <= o <= 2 ^ 61 - size h ->
  GetPeaks_loop h (len ls) o = peak_pos o (mountains h ls).
Proof.
  revert ls o. induction h as [|h IH]; intros ls o Hh Hl Ho; [done|].
  cbn [GetPeaks_loop mountains]. rewrite pow2_S in Hl. rewrite size_S in Ho.
  pose proof (size_pos h). unfold max_h in *. rewrite !pow2_small by lia.
  rewrite offset_size by lia. rewrite <-pow2_nat_Z.
  destruct (decide (2 ^ h <= length ls)%nat) as [Hd|Hd];
    destruct (Z.leb_spec (Z.of_nat (2 ^ h)) (len ls)) as [Hz|Hz]; unfold len in Hz; try lia.
  - cbn [peak_pos fst]. rewrite !(u64_id (o + size h)), u64_id by lia. f_equal.
    rewrite <-IH; [|lia|rewrite length_drop; lia|lia]. f_equal. by rewrite len_drop by lia.
  - apply IH; lia.
Qed.

Lemma GetPeaks_loop_more d h n o :
  (d + h <= 64)%nat -> 0 <= n < 2 ^ Z.of_nat h ->
  GetPeaks_loop (d + h) n o = GetPeaks_loop h n o.
Proof.
  intros Hd Hn. induction d as [|d IH]; [done|]. cbn [Nat.add GetPeaks_loop].
  rewrite pow2_u64 by lia. assert (2 ^ Z.of_nat h <= 2 ^ Z.of_nat (d + h)) by (apply Z.pow_le_mono_r; lia).
  destruct (Z.leb_spec (2 ^ Z.of_nat (d + h)) n); [lia|]. apply IH. lia.
Qed.

Lemma mountains_size_bound : size max_h = 2 ^ 60 - 1.
Proof. done. Qed.

Lemma GetPeaks_spec ls :
  len ls < 2 ^ 59 -> GetPeaks (mmr_of ls) = peak_pos 0 (mountains max_h ls).
Proof.
  intros Hl. unfold GetPeaks. cbn [nLeaves mmr_of]. destruct (Z.eqb_spec (len ls) 0) as [E|E].
  - rewrite (len_zero ls E).
    by rewrite mountains_nil.
  - pose proof (len_pos ls). change 64%nat with (5 + max_h)%nat.
    rewrite GetPeaks_loop_more by (unfold max_h; lia).
    apply GetPeaks_loop_spec; [done|by apply small_len|]. rewrite mountains_size_bound. lia.
Qed.

Lemma len_nodes_cons m ms : len (nodes_of (m :: ms)) = size m.1 + len (nodes_of ms).
Proof.
  change (nodes_of (m :: ms)) with (perfect m.1 m.2 ++ nodes_of ms). by rewrite len_app, perfect_len.
Qed.

Lemma peak_pos_app o a b : peak_pos o (a ++ b) = peak_pos o a ++ peak_pos (o + len (nodes_of a)) b.
Proof.
  revert o. induction a as [|m a IH]; intros o.
  - change (len (nodes_of [])) with 0. by rewrite Z.add_0_r.
  - cbn [app peak_pos]. rewrite len_nodes_cons, IH, Z.add_assoc. done.
Qed.

Lemma peak_pos_range o ms p : p ∈ peak_pos o ms -> o <= p < o + len (nodes_of ms).
Proof.
  revert o. induction ms as [|m ms IH]; intros o; cbn [peak_pos]; [by rewrite elem_of_nil|].
  rewrite elem_of_cons, len_nodes_cons. pose proof (size_pos m.1). pose proof (len_pos (nodes_of ms)).
  intros [->|Hp%IH]; lia.
Qed.

Lemma peak_pos_length o ms : length (peak_pos o ms) = length ms.
Proof. revert o. induction ms as [|m ms IH]; intros o; simpl; [done|by rewrite IH]. Qed.

(** Reading a stored mountain's root. *)
Lemma at_root pre H ls post :
  at_ 0 (pre ++ perfect H ls ++ post) (len pre + size H - 1) = root H ls.
Proof.
  destruct (perfect_snoc H ls) as [l Hl]. pose proof (perfect_len H ls) as Hlen.
  rewrite Hl in *. rewrite len_app in Hlen. change (len [_]) with 1 in Hlen.
  rewrite <-app_assoc. cbn [app]. rewrite app_assoc.
  replace (len pre + size H - 1) with (len (pre ++ l)) by (rewrite len_app; lia).
  apply at_app_len.
Qed.

Definition roots (ms : list (nat * list uint256)) : list uint256 := map (fun m => root m.1 m.2) ms.

Lemma read_peaks pre ms post :
  map (at_ 0 (pre ++ nodes_of ms ++ post)) (peak_pos (len pre) ms) = roots ms.
Proof.
  revert pre. induction ms as [|m ms IH]; intros pre; [done|].
  cbn [peak_pos map roots]. change (nodes_of (m :: ms)) with (perfect m.1 m.2 ++ nodes_of ms).
  rewrite <-!app_assoc. rewrite at_root. f_equal.
  rewrite <-(perfect_len m.1 m.2), <-len_app, app_assoc. apply IH.
Qed.

Lemma read_all_peaks ms : map (at_ 0 (nodes_of ms)) (peak_pos 0 ms) = roots ms.
Proof. pose proof (read_peaks [] ms []) as E. by rewrite app_nil_r in E. Qed.

(** ** The root *)

(** Bagging from the right: the specification of [GetRoot]. *)
Fixpoint bag (rs : list uint256) : uint256 :=
  match rs with
  | [] => 0
  | [r] => r
  | r :: rs' => HashParent r (bag rs')
  end.

Lemma bag_snoc rs x : bag (rs ++ [x]) = foldr HashParent x rs.
Proof.
  induction rs as [|r rs IH]; [done|]. cbn [app foldr]. rewrite <-IH. by destruct rs.
Qed.

Lemma bag_loop_spec nodes ps b :
  (forall p, p ∈ ps -> p < len nodes) ->
  bag_loop nodes ps b = Some (fold_left (fun b r => HashParent r b) (map (at_ 0 nodes) ps) b).
Proof.
  revert b. induction ps as [|p ps IH]; intros b Hp; [done|]. cbn [bag_loop map fold_left].
  assert (p < len nodes) by (apply Hp; set_solver).
  destruct (Z.ltb_spec p (len nodes)); [|lia]. apply IH. set_solver.
Qed.

(** The case analysis of [GetRoot] on its list of peaks. *)
Lemma bag_peaks nodes ps :
  (forall p, p ∈ ps -> p < len nodes) ->
  match rev ps with
  | [] => 0
  | [p] => if p <? len nodes then at_ 0 nodes p else 0
  | p :: ps' => if p <? len nodes then default 0 (bag_loop nodes ps' (at_ 0 nodes p)) else 0
  end = bag (map (at_ 0 nodes) ps).
Proof.
  intros Hps. destruct ps as [|p ps _] using rev_ind; [done|].
  rewrite rev_app_distr, map_app. cbn [rev app map]. rewrite bag_snoc.
  assert (p < len nodes) by (apply Hps; set_solver).
  destruct (Z.ltb_spec p (len nodes)); [|lia]. rewrite bag_loop_spec.
  - rewrite map_rev, <-fold_left_rev_right, rev_involutive. cbn [default].
    destruct ps as [|q ps _] using rev_ind; [done|]. by rewrite rev_app_distr.
  - intros q Hq. apply Hps, elem_of_app. left. by rewrite list_elem_of_In, in_rev, <-list_elem_of_In.
Qed.

(** The root of a range is the bag, from the right, of the roots of its
    mountains. *)
Theorem mmr_root ls :
  len ls < 2 ^ 59 -> GetRoot (mmr_of ls) = bag (roots (mountains max_h ls)).
Proof.
  intros Hl. unfold GetRoot. rewrite GetPeaks_spec by done. cbn [nLeaves vNodes mmr_of].
  destruct (Z.eqb_spec (len ls) 0) as [E|E].
  - by rewrite (len_zero ls E), mountains_nil.
  - generalize (mountains max_h ls). intros ms. rewrite <-read_all_peaks. apply bag_peaks.
    intros p Hp%peak_pos_range. lia.
Qed.

(** ** Proofs *)

(** The sibling path of leaf [j] in a perfect tree, from the leaf up; a side is
    [true] when the sibling is on the left. *)
Fixpoint path (H : nat) (ls : list uint256) (j : nat) : list (uint256 * bool) :=
  match H with
  | O => []
  | S h =>
    if decide (j < 2 ^ h)%nat
    then path h (take (2 ^ h) ls) j ++ [(root h (drop (2 ^ h) ls), false)]
    else path h (drop (2 ^ h) ls) (j - 2 ^ h) ++ [(root h (take (2 ^ h) ls), true)]
  end.

(** Folding a path over its leaf gives the root. *)
Lemma path_root H ls j x :
  length ls = (2 ^ H)%nat -> ls !! j = Some x ->
  fold_left verify_step (path H ls j) (HashLeaf x) = root H ls.
Proof.
  revert ls j. induction H as [|h IH]; intros ls j Hl Hj.
  - destruct ls as [|y [|]]; [done| |done]. destruct j; [|done]. by injection Hj as ->.
  - cbn [path root]. rewrite pow2_S in Hl. destruct (decide (j < 2 ^ h)%nat) as [Hd|Hd];
      rewrite fold_left_app; cbn [fold_left]; unfold verify_step at 1; cbn [fst snd].
    + rewrite IH; [done|rewrite length_take; lia|by rewrite lookup_take_lt].
    + rewrite IH; [done|rewrite length_drop; lia|]. rewrite lookup_drop. by rewrite Nat.add_sub_assoc, Nat.add_comm, Nat.add_sub by lia.
Qed.

(** One turn of the climb. *)
Lemma climb_step fuel nodes peaks o n h b s :
  embeds (S h) o -> (h <= 58)%nat -> 0 <= o <= 2 ^ 61 -> o + 2 * size h <= len nodes ->
  len nodes < 2 ^ 62 ->
  o + n - 1 ∉ peaks -> n = size h \/ n = 2 * size h ->
  climb (S fuel) nodes peaks (o + n - 1) b s =
  climb fuel nodes peaks (o + size (S h) - 1)
    (b ++ [at_ 0 nodes (if n =? size h then o + 2 * size h - 1 else o + size h - 1)])
    (s ++ [negb (n =? size h)]).
Proof.
  intros Hemb Hh Ho Hlen Hmax Hnp Hn. pose proof (size_pos h). pose proof (size_bound h ltac:(lia)).
  cbn [climb]. rewrite bool_decide_eq_false_2 by done. rewrite size_S.
  destruct Hn as [-> | ->].
  - rewrite (embeds_height _ _ Hemb _ h) by auto with tree.
    rewrite (embeds_left _ _ Hemb _ h) by auto with tree. cbv zeta. rewrite offset_size by lia.
    rewrite Z.eqb_refl. rewrite (u64_id (_ + size h)) by lia.
    replace (o + size h - 1 + size h) with (o + 2 * size h - 1) by lia.
    destruct (Z.leb_spec (len nodes) (o + 2 * size h - 1)); [lia|].
    rewrite u64_id by lia. cbn [negb]. f_equal; lia.
  - rewrite (embeds_height _ _ Hemb _ h)
      by (replace (2 * size h) with (size h + size h) by lia; auto with tree).
    rewrite (embeds_right _ _ Hemb _ h) by auto with tree. cbv zeta. rewrite offset_size by lia.
    destruct (Z.eqb_spec (2 * size h) (size h)); [lia|]. rewrite (u64_id (_ - size h)) by lia.
    replace (o + 2 * size h - 1 - size h) with (o + size h - 1) by lia.
    destruct (Z.leb_spec (len nodes) (o + size h - 1)); [lia|].
    rewrite u64_id by lia. cbn [negb]. f_equal; lia.
Qed.

(** Climbing from a leaf to the root of its mountain collects its path. *)
Lemma climb_path H fuel peaks pre ls post j b s :
  let o := len pre in let nodes := pre ++ perfect H ls ++ post in
  embeds H o -> (H <= 59)%nat -> len nodes < 2 ^ 61 ->
  length ls = (2 ^ H)%nat -> (j < 2 ^ H)%nat ->
  (forall n, 1 <= n < size H -> o + n - 1 ∉ peaks) ->
  climb (H + fuel) nodes peaks (o + node_count (Z.of_nat j)) b s =
  climb fuel nodes peaks (o + size H - 1)
    (b ++ map fst (path H ls j)) (s ++ map snd (path H ls j)).
Proof.
  revert fuel pre ls post j b s. induction H as [|h IH]; intros fuel pre ls post j b s o nodes Hemb HH Hmax Hl Hj Hnp.
  - assert (j = 0)%nat as -> by (simpl in Hj; lia). cbn [path map Nat.add].
    rewrite !app_nil_r. f_equal. change (node_count (Z.of_nat 0)) with 0. change (size 0) with 1. lia.
  - rewrite pow2_S in Hl, Hj. pose proof (size_pos h). pose proof (len_pos pre). pose proof (len_pos post).
    assert (len nodes = o + size (S h) + len post) as Hlen
      by (unfold nodes; rewrite !len_app, perfect_len; lia).
    rewrite size_S in Hlen. pose proof (size_S h).
    set (A := take (2 ^ h) ls) in *. set (B := drop (2 ^ h) ls) in *.
    assert (length A = 2 ^ h)%nat by (unfold A; rewrite length_take; lia).
    assert (length B = 2 ^ h)%nat by (unfold B; rewrite length_drop; lia).
    assert (nodes = pre ++ perfect h A ++ (perfect h B ++ [root (S h) ls] ++ post)) as HA
      by (unfold nodes; cbn [perfect]; by rewrite <-!app_assoc).
    assert (nodes = (pre ++ perfect h A) ++ perfect h B ++ ([root (S h) ls] ++ post)) as HB
      by (rewrite HA, <-!app_assoc; done).
    assert (at_ 0 nodes (o + size h - 1) = root h A) as RA by (rewrite HA; apply at_root).
    assert (at_ 0 nodes (o + 2 * size h - 1) = root h B) as RB.
    { rewrite HB. rewrite <-(at_root (pre ++ perfect h A) h B ([root (S h) ls] ++ post)).
      f_equal. rewrite len_app, perfect_len. fold o. lia. }
    replace (S h + fuel)%nat with (h + S fuel)%nat by lia. cbn [path].
    destruct (decide (j < 2 ^ h)%nat) as [Hd|Hd]; rewrite !map_app; cbn [map fst snd]; fold A B.
    + rewrite HA. rewrite IH; fold o; [|by apply embeds_sub_left|lia|by rewrite <-HA|done|done|intros n Hn; apply Hnp; lia].
      rewrite <-HA. rewrite (climb_step _ _ _ _ _ h);
        [|done|lia|lia|lia|lia|apply Hnp; lia|by left].
      rewrite Z.eqb_refl, RB. cbn [negb]. by rewrite <-!app_assoc.
    + assert (node_count (Z.of_nat j) = size h + node_count (Z.of_nat (j - 2 ^ h))) as Hnc.
      { rewrite <-node_count_top.
        - f_equal. rewrite <-pow2_nat_Z. lia.
        - lia.
        - rewrite <-pow2_nat_Z. lia. }
      rewrite Hnc, Z.add_assoc. rewrite HB.
      replace (o + size h) with (len (pre ++ perfect h A)) by (rewrite len_app, perfect_len; done).
      rewrite IH; [|rewrite len_app, perfect_len; by apply embeds_sub_right|lia|by rewrite <-HB|done|lia|].
      2:{ rewrite len_app, perfect_len. intros n Hn. fold o.
          replace (o + size h + n - 1) with (o + (size h + n) - 1) by lia. apply Hnp; lia. }
      rewrite <-HB, len_app, perfect_len. fold o.
      replace (o + size h + size h - 1) with (o + 2 * size h - 1) by lia.
      rewrite (climb_step _ _ _ _ _ h); [|done|lia|lia|lia|lia|apply Hnp; lia|by right].
      destruct (Z.eqb_spec (2 * size h) (size h)); [lia|]. rewrite RA. cbn [negb]. by rewrite <-!app_assoc.
Qed.

(** Where leaf [i] of a range is: the mountains before its own, its own with
    the leaf's index in it, and those after. *)
Record located (h : nat) (o : Z) (ls : list uint256) (i : nat)
    (L : list (nat * list uint256)) (H : nat) (lm : list uint256)
    (R : list (nat * list uint256)) (j : nat) : Prop := {
  loc_split : mountains h ls = L ++ (H, lm) :: R;
  loc_height : (H < h)%nat;
  loc_len : length lm = (2 ^ H)%nat;
  loc_j : (j < 2 ^ H)%nat;
  loc_leaf : lm !! j = ls !! i;
  loc_pos : node_count (Z.of_nat i) = len (nodes_of L) + node_count (Z.of_nat j);
  loc_embeds : embeds h o -> embeds H (o + len (nodes_of L));
  loc_scan off c : 0 <= off -> off + len ls <= 2 ^ 60 ->
    myPeakIdx_loop h (len ls) off c (off + Z.of_nat i) = c + len L
}.

Lemma locate h o ls i :
  (h <= max_h)%nat -> (length ls < 2 ^ h)%nat -> (i < length ls)%nat ->
  exists L H lm R j, located h o ls i L H lm R j.
Proof.
  revert o ls i. induction h as [|h IH]; intros o ls i Hh Hl Hi; [simpl in Hl; lia|].
  rewrite pow2_S in Hl. cbn [mountains]. assert (2 ^ Z.of_nat h <= 2 ^ 58) as Hpow
    by (apply Z.pow_le_mono_r; unfold max_h in *; lia).
  pose proof (pow2_nat_Z h) as Hz. unfold max_h in Hh.
  destruct (decide (2 ^ h <= length ls)%nat) as [Hd|Hd].
  - destruct (decide (i < 2 ^ h)%nat) as [Hi'|Hi'].
    + exists [], h, (take (2 ^ h) ls), (mountains h (drop (2 ^ h) ls)), i. split.
      * cbn [mountains]. by rewrite decide_True by lia.
      * lia.
      * rewrite length_take. lia.
      * done.
      * by rewrite lookup_take_lt.
      * done.
      * intros Hemb. change (len (nodes_of [])) with 0. rewrite Z.add_0_r. by apply embeds_sub_left.
      * intros off c Hoff Hoff'. unfold len in Hoff'. cbn [myPeakIdx_loop]. rewrite pow2_small, <-Hz by lia.
        unfold len. destruct (Z.leb_spec (Z.of_nat (2 ^ h)) (Z.of_nat (length ls))); [|lia].
        rewrite u64_id by lia. destruct (Z.leb_spec off (off + Z.of_nat i)); [|lia].
        destruct (Z.ltb_spec (off + Z.of_nat i) (off + Z.of_nat (2 ^ h))); [|lia]. cbn. lia.
    + destruct (IH (o + size h) (drop (2 ^ h) ls) (i - 2 ^ h)%nat) as (L & H & lm & R & j & [S1 S2 S3 S4 S5 S6 S7 S8]);
        [unfold max_h; lia|rewrite length_drop; lia|rewrite length_drop; lia|].
      exists ((h, take (2 ^ h) ls) :: L), H, lm, R, j. split.
      * cbn [mountains]. rewrite decide_True by lia. by rewrite S1.
      * lia.
      * done.
      * done.
      * rewrite S5, lookup_drop. f_equal. lia.
      * rewrite len_nodes_cons. cbn [fst]. rewrite <-Z.add_assoc, <-S6, <-node_count_top.
        -- f_equal. lia.
        -- lia.
        -- lia.
      * intros Hemb. rewrite len_nodes_cons. cbn [fst]. rewrite Z.add_assoc. by apply S7, embeds_sub_right.
      * intros off c Hoff Hoff'. unfold len in Hoff'. cbn [myPeakIdx_loop]. rewrite pow2_small, <-Hz by lia.
        unfold len at 1 2. destruct (Z.leb_spec (Z.of_nat (2 ^ h)) (Z.of_nat (length ls))); [|lia].
        rewrite u64_id by lia. destruct (Z.ltb_spec (off + Z.of_nat i) (off + Z.of_nat (2 ^ h))); [lia|].
        rewrite andb_false_r.
        specialize (S8 (off + Z.of_nat (2 ^ h)) (c + 1)).
        rewrite len_drop in S8 by done. unfold len in S8 at 1.
        replace (off + Z.of_nat (2 ^ h) + Z.of_nat (i - 2 ^ h)) with (off + Z.of_nat i) in S8 by lia.
        rewrite len_cons. replace (Z.of_nat (length ls) - Z.of_nat (2 ^ h)) with (len ls - Z.of_nat (2 ^ h)) by done. rewrite S8; unfold len; lia.
  - destruct (IH o ls i) as (L & H & lm & R & j & [S1 S2 S3 S4 S5 S6 S7 S8]); [unfold max_h; lia|lia|lia|].
    exists L, H, lm, R, j. split; try done.
    + cbn [mountains]. by rewrite decide_False by lia.
    + lia.
    + intros Hemb. by apply S7, embeds_sub_left.
    + intros off c Hoff Hoff'. unfold len in Hoff'. cbn [myPeakIdx_loop]. rewrite pow2_small, <-Hz by lia.
      unfold len at 1. destruct (Z.leb_spec (Z.of_nat (2 ^ h)) (Z.of_nat (length ls))); [lia|].
      by apply S8.
Qed.

Lemma myPeakIdx_loop_more d h n off c i :
  (d + h <= 64)%nat -> 0 <= n < 2 ^ Z.of_nat h ->
  myPeakIdx_loop (d + h) n off c i = myPeakIdx_loop h n off c i.
Proof.
  induction d as [|d IH]; intros Hd Hn; [done|]. cbn [Nat.add myPeakIdx_loop].
  assert (2 ^ Z.of_nat h <= 2 ^ Z.of_nat (d + h)) by (apply Z.pow_le_mono_r; lia).
  rewrite pow2_u64 by lia. destruct (Z.leb_spec (2 ^ Z.of_nat (d + h)) n); [lia|].
  apply IH; lia.
Qed.

Lemma push_peaks_all nodes ps :
  (forall p, p ∈ ps -> p < len nodes) -> push_peaks nodes ps = map (at_ 0 nodes) ps.
Proof.
  intros Hp. unfold push_peaks. f_equal. induction ps as [|p ps IH]; [done|]. cbn [List.filter].
  assert (p < len nodes) by (apply Hp; set_solver).
  destruct (Z.ltb_spec p (len nodes)); [|lia]. f_equal. apply IH. set_solver.
Qed.

(** The sibling hashes and sides [GetProof] finds for leaf [j] of the mountain
    [(H, lm)] standing between the mountains [L] and [R]. *)
Definition full_path (L : list (nat * list uint256)) (H : nat) (lm : list uint256)
    (R : list (nat * list uint256)) (j : nat) : list (uint256 * bool) :=
  path H lm j ++ map (fun r => (r, false)) (rev (roots R)) ++ map (fun r => (r, true)) (rev (roots L)).

Definition proof_of_path (i : Z) (p : list (uint256 * bool)) : CMMRProof :=
  {| nIndex := i; vBranch := map fst p; vSide := map snd p |}.

Lemma peak_pos_gap o L H lm R n :
  1 <= n < size H -> o + len (nodes_of L) + n - 1 ∉ peak_pos o (L ++ (H, lm) :: R).
Proof.
  intros Hn Hin. rewrite peak_pos_app in Hin. cbn [peak_pos fst] in Hin.
  apply elem_of_app in Hin as [Hin|Hin]; [apply peak_pos_range in Hin; lia|].
  apply elem_of_cons in Hin as [Hin|Hin]; [lia|]. apply peak_pos_range in Hin. lia.
Qed.

Lemma nodes_of_split L H lm R :
  nodes_of (L ++ (H, lm) :: R) = nodes_of L ++ perfect H lm ++ nodes_of R.
Proof. by rewrite nodes_of_app. Qed.

(** The climb from a leaf ends on the peak of its mountain, within the fuel. *)
Lemma climb_located L H lm R j :
  embeds H (len (nodes_of L)) -> (H <= 59)%nat -> len (nodes_of (L ++ (H, lm) :: R)) < 2 ^ 61 ->
  length lm = (2 ^ H)%nat -> (j < 2 ^ H)%nat ->
  climb 64 (nodes_of (L ++ (H, lm) :: R)) (peak_pos 0 (L ++ (H, lm) :: R))
    (len (nodes_of L) + node_count (Z.of_nat j)) [] [] =
  Some (map fst (path H lm j), map snd (path H lm j)).
Proof.
  intros Hemb HH Hlen Hl Hj. rewrite nodes_of_split in *.
  replace 64%nat with (H + S (63 - H))%nat by lia.
  rewrite climb_path by (auto; intros n Hn; rewrite <-(Z.add_0_l (len (nodes_of L))); by apply peak_pos_gap).
  cbn [climb app]. rewrite bool_decide_eq_true_2; [done|].
  rewrite peak_pos_app. cbn [peak_pos fst]. set_solver.
Qed.

Lemma elem_of_list_sub {A} (l : list A) n x : (x ∈ drop n l -> x ∈ l) /\ (x ∈ take n l -> x ∈ l).
Proof.
  split; intros Hx; rewrite <-(take_drop n l); apply elem_of_app; auto.
Qed.

(** What [GetProof] pushes for the other mountains, in code order. *)
Lemma peaks_around L H lm R :
  let ms := L ++ (H, lm) :: R in
  push_peaks (nodes_of ms) (rev (drop (Z.to_nat (len L + 1)) (peak_pos 0 ms))) = rev (roots R) /\
  push_peaks (nodes_of ms) (rev (take (Z.to_nat (len L)) (peak_pos 0 ms))) = rev (roots L).
Proof.
  intros ms. assert (forall p, p ∈ peak_pos 0 ms -> p < len (nodes_of ms)) as Hall
    by (intros p Hp%peak_pos_range; lia).
  assert (map (at_ 0 (nodes_of ms)) (peak_pos 0 ms) = roots ms) as Hr by apply read_all_peaks.
  unfold len at 1 2. rewrite Z.add_1_r, Z2Nat.inj_succ, Nat2Z.id by lia.
  split; (rewrite push_peaks_all;
    [rewrite map_rev; f_equal
    |intros p Hp; apply Hall; rewrite list_elem_of_In, <-in_rev, <-list_elem_of_In in Hp;
     revert Hp; apply elem_of_list_sub]).
  - rewrite <-skipn_map, Hr. unfold roots, ms. rewrite map_app. cbn [map].
    rewrite drop_app_ge by (rewrite length_map; lia). by rewrite length_map, Nat.sub_succ_l, Nat.sub_diag by lia.
  - rewrite <-firstn_map, Hr. unfold roots, ms. rewrite map_app.
    by rewrite take_app_length' by (by rewrite length_map).
Qed.

Lemma located_range h o ls i L H lm R j :
  located h o ls i L H lm R j -> exists x, ls !! i = Some x /\ lm !! j = Some x.
Proof.
  intros [S1 S2 S3 S4 S5 S6 S7 S8]. destruct (lookup_lt_is_Some_2 lm j) as [x Hx]; [lia|].
  exists x. by rewrite <-S5.
Qed.

Lemma node_count_lt h r :
  (h <= 64)%nat -> 0 <= r < 2 ^ Z.of_nat h -> node_count r < size h.
Proof.
  revert r. induction h as [|h IH]; intros r Hh Hr; [by assert (r = 0) as -> by (simpl in Hr; lia)|].
  rewrite size_S. pose proof (size_pos h). rewrite Nat2Z.inj_succ, Z.pow_succ_r in Hr by lia.
  destruct (Z_lt_le_dec r (2 ^ Z.of_nat h)); [specialize (IH r); lia|].
  replace r with (2 ^ Z.of_nat h + (r - 2 ^ Z.of_nat h)) by lia.
  rewrite node_count_top by lia. specialize (IH (r - 2 ^ Z.of_nat h)). lia.
Qed.

Lemma myPeakIdx_located ls i L H lm R j :
  len ls < 2 ^ 59 -> located max_h 0 ls i L H lm R j ->
  myPeakIdx_loop 64 (len ls) 0 0 (Z.of_nat i) = len L.
Proof.
  intros Hl Hloc. replace 64%nat with (5 + max_h)%nat by reflexivity.
  rewrite myPeakIdx_loop_more by (unfold max_h; unfold len in *; lia).
  pose proof (loc_scan _ _ _ _ _ _ _ _ _ Hloc 0 0) as E. rewrite !Z.add_0_l in E. apply E; lia.
Qed.

Lemma vNodes_mmr ls : vNodes (mmr_of ls) = nodes_of (mountains max_h ls).
Proof. done. Qed.

Lemma nLeaves_mmr ls : nLeaves (mmr_of ls) = len ls.
Proof. done. Qed.

Lemma GetProof_spec ls i L H lm R j :
  len ls < 2 ^ 59 -> (i < length ls)%nat -> located max_h 0 ls i L H lm R j ->
  GetProof (mmr_of ls) (Z.of_nat i) = Some (proof_of_path (Z.of_nat i) (full_path L H lm R j)).
Proof.
  intros Hl Hi Hloc. unfold GetProof. rewrite GetPeaks_spec, nLeaves_mmr by done.
  rewrite LeafIndexToPos_spec by (unfold len in *; lia).
  pose proof (mmr_of_len ls Hl) as Hlen.
  pose proof (node_count_bounds (len ls) ltac:(pose proof (len_pos ls); lia)).
  rewrite vNodes_mmr in *.
  rewrite (myPeakIdx_located _ _ _ _ _ _ _ Hl Hloc).
  pose proof (embeds_0 max_h ltac:(unfold max_h; lia)) as E0.
  destruct Hloc as [S1 S2 S3 S4 S5 S6 S7 _]. apply S7 in E0. rewrite Z.add_0_l in E0.
  assert (H <= 59)%nat as HH by (unfold max_h in S2; lia).
  rewrite S6. rewrite S1 in *. clear S1 S2 S5 S6 S7.
  rewrite climb_located by (auto; lia).
  destruct (peaks_around L H lm R) as [-> ->].
  destruct (Z.leb_spec (len ls) (Z.of_nat i)); [unfold len in *; lia|].
  pose proof (node_count_lt H (Z.of_nat j) ltac:(lia) ltac:(rewrite <-pow2_nat_Z; lia)).
  rewrite nodes_of_split, !len_app, perfect_len in *. pose proof (len_pos (nodes_of R)).
  destruct (Z.leb_spec (len (nodes_of L) + (size H + len (nodes_of R)))
    (len (nodes_of L) + node_count (Z.of_nat j))); [lia|].
  unfold full_path, proof_of_path. rewrite !map_app, !map_map. cbn [fst snd].
  rewrite !map_id.
  unfold len at 1. rewrite peak_pos_length, length_app. cbn [length].
  pose proof (len_pos L). destruct (Z.leb_spec 0 (len L)); [|lia]. rewrite andb_true_r.
  destruct (Z.ltb_spec 1 (Z.of_nat (length L + S (length R)))) as [|Hone]; [done|].
  destruct L; [|simpl in Hone; lia]. destruct R; [|simpl in Hone; lia].
  by rewrite !app_nil_r.
Qed.

Lemma fold_left_foldr {A B} (f : A -> B -> A) l x : fold_left f (rev l) x = foldr (fun b a => f a b) x l.
Proof. by rewrite <-fold_left_rev_right, rev_involutive. Qed.

(** What folding a full path over its leaf computes: the mountains to the right
    are hashed in one at a time, the last one first. *)
Lemma full_path_root L H lm R j x :
  length lm = (2 ^ H)%nat -> lm !! j = Some x ->
  fold_left verify_step (full_path L H lm R j) (HashLeaf x) =
  foldr HashParent (foldr (fun r c => HashParent c r) (root H lm) (roots R)) (roots L).
Proof.
  intros Hl Hj. unfold full_path. rewrite !fold_left_app, (path_root _ _ _ _ Hl Hj).
  rewrite !map_rev, !fold_left_foldr.
  assert (forall s rs c, foldr (fun b a => verify_step a b) c (map (fun r => (r, s)) rs) =
    foldr (fun r c => if s : bool then HashParent r c else HashParent c r) c rs) as E
    by (intros s rs c; induction rs as [|r rs IH]; [done|cbn [map foldr]; by rewrite IH]).
  by rewrite !E.
Qed.

Lemma bag_app a r rs : bag (a ++ r :: rs) = foldr HashParent (bag (r :: rs)) a.
Proof.
  induction a as [|x a IH]; [done|]. cbn [app foldr]. rewrite <-IH.
  cbn [bag]. by destruct (a ++ r :: rs) eqn:E; [destruct a|].
Qed.

Lemma verify_full_path rt x i L H lm R j :
  length lm = (2 ^ H)%nat -> lm !! j = Some x ->
  VerifyProof rt x (proof_of_path i (full_path L H lm R j)) =
  (foldr HashParent (foldr (fun r c => HashParent c r) (root H lm) (roots R)) (roots L) =? rt).
Proof.
  intros Hl Hj. unfold VerifyProof, proof_of_path. cbn [vBranch vSide].
  unfold len. rewrite !length_map, Z.eqb_refl. cbn [negb].
  rewrite <-(full_path_root L H lm R j x Hl Hj). do 2 f_equal.
  generalize (full_path L H lm R j). induction l as [|[a b] l IH]; [done|]. cbn. by rewrite IH.
Qed.

Lemma locate_leaf ls i x :
  len ls < 2 ^ 59 -> ls !! i = Some x ->
  exists L H lm R j, located max_h 0 ls i L H lm R j /\ lm !! j = Some x.
Proof.
  intros Hl Hx. apply small_len in Hl.
  destruct (locate max_h 0 ls i) as (L & H & lm & R & j & Hloc);
    [done|done|by apply lookup_lt_Some in Hx|].
  exists L, H, lm, R, j. split; [done|]. by rewrite (loc_leaf _ _ _ _ _ _ _ _ _ Hloc).
Qed.

(** The proof of a leaf, its verdict against the root of the range, and the
    number of peaks, in terms of the mountains around the leaf's own. *)
Lemma proof_verdict ls i x :
  len ls < 2 ^ 59 -> ls !! i = Some x ->
  exists L m R p,
    GetProof (mmr_of ls) (Z.of_nat i) = Some p /\
    VerifyProof (GetRoot (mmr_of ls)) x p =
      (foldr HashParent (foldr (fun r c => HashParent c r) m R) L =? foldr HashParent (bag (m :: R)) L) /\
    len (GetPeaks (mmr_of ls)) = len L + 1 + len R /\
    myPeakIdx_loop 64 (nLeaves (mmr_of ls)) 0 0 (Z.of_nat i) = len L.
Proof.
  intros Hl Hx. destruct (locate_leaf ls i x Hl Hx) as (L & H & lm & R & j & Hloc & Hj).
  exists (roots L), (root H lm), (roots R), (proof_of_path (Z.of_nat i) (full_path L H lm R j)).
  repeat split.
  - by apply GetProof_spec; [|apply lookup_lt_Some in Hx|].
  - rewrite mmr_root by done. rewrite (loc_split _ _ _ _ _ _ _ _ _ Hloc).
    rewrite verify_full_path by (try done; by apply (loc_len _ _ _ _ _ _ _ _ _ Hloc)).
    unfold roots. rewrite map_app. cbn [map fst snd]. by rewrite bag_app.
  - rewrite GetPeaks_spec, (loc_split _ _ _ _ _ _ _ _ _ Hloc) by done. unfold len, roots.
    rewrite peak_pos_length, length_app, !length_map. cbn [length]. lia.
  - rewrite nLeaves_mmr, (myPeakIdx_located _ _ _ _ _ _ _ Hl Hloc). unfold len, roots. by rewrite length_map.
Qed.

(** Completeness of membership proofs, where it holds: the proof of a leaf
    whose mountain is the last or the last but one verifies against the root. *)
Theorem mmr_proof_verifies ls i x :
  len ls < 2 ^ 59 -> ls !! i = Some x ->
  len (GetPeaks (mmr_of ls)) <= myPeakIdx_loop 64 (nLeaves (mmr_of ls)) 0 0 (Z.of_nat i) + 2 ->
  exists p, GetProof (mmr_of ls) (Z.of_nat i) = Some p /\ VerifyProof (GetRoot (mmr_of ls)) x p = true.
Proof.
  intros Hl Hx Hlast. destruct (proof_verdict ls i x Hl Hx) as (L & m & R & p & Hp & Hv & Hn & Hmy).
  exists p. split; [done|]. rewrite Hv. rewrite Hn, Hmy in Hlast. apply Z.eqb_eq.
  destruct R as [|r [|]]; [done|done|unfold len in Hlast; simpl in Hlast; lia].
Qed.

(** Two different pairs of children with one parent. *)
Definition parent_collision : Prop :=
  exists a b c d, (a, b) <> (c, d) /\ HashParent a b = HashParent c d.

Definition leaf_collision : Prop := exists a b, a <> b /\ HashLeaf a = HashLeaf b.

Lemma parent_inj a b c d :
  HashParent a b = HashParent c d -> parent_collision \/ (a = c /\ b = d).
Proof.
  intros E. destruct (decide ((a, b) = (c, d))) as [Heq|Hne]; [injection Heq; auto|].
  left. by exists a, b, c, d.
Qed.

Lemma foldr_parent_inj L a b :
  foldr HashParent a L = foldr HashParent b L -> parent_collision \/ a = b.
Proof.
  induction L as [|x L IH]; [by right|]. cbn [foldr]. intros [Hc|[_ E]]%parent_inj; auto.
Qed.

(** The other leaves: with two or more mountains to the right of the
    leaf's own, the proof [GetProof] builds is rejected, unless the hash has a
    collision or a fixed point. *)
Theorem mmr_proof_rejected ls i x :
  len ls < 2 ^ 59 -> ls !! i = Some x ->
  myPeakIdx_loop 64 (nLeaves (mmr_of ls)) 0 0 (Z.of_nat i) + 2 < len (GetPeaks (mmr_of ls)) ->
  exists p, GetProof (mmr_of ls) (Z.of_nat i) = Some p /\
    (VerifyProof (GetRoot (mmr_of ls)) x p = true ->
     parent_collision \/ exists a b, HashParent a b = a).
Proof.
  intros Hl Hx Hmany. destruct (proof_verdict ls i x Hl Hx) as (L & m & R & p & Hp & Hv & Hn & Hmy).
  exists p. split; [done|]. rewrite Hv. rewrite Hn, Hmy in Hmany. intros E%Z.eqb_eq.
  apply foldr_parent_inj in E as [?|E]; [by left|].
  destruct R as [|r [|r' R]]; [unfold len in Hmany; simpl in Hmany; lia..|].
  cbn [foldr] in E. change (bag (m :: r :: r' :: R)) with (HashParent m (HashParent r (bag (r' :: R)))) in E.
  apply parent_inj in E as [?|[_ E]]; [by left|]. right. eauto.
Qed.

Lemma verify_steps_inj l1 l2 a b :
  map snd l1 = map snd l2 -> fold_left verify_step l1 a = fold_left verify_step l2 b ->
  parent_collision \/ (a = b /\ l1 = l2).
Proof.
  revert l2 a b. induction l1 as [|[x s] l1 IH]; intros [|[y t] l2] a b Hs E; try done; [by right|].
  injection Hs as -> Hs. cbn [fold_left] in E. apply IH in E as [?|[E ->]]; [by left| |done].
  unfold verify_step in E. destruct t; cbn [fst snd] in E;
    (apply parent_inj in E as [?|[-> ->]]; [by left|by right]).
Qed.

Lemma combine_fst {A B} (l : list A) (k : list B) : length l = length k -> map fst (combine l k) = l.
Proof. revert k. induction l as [|x l IH]; intros [|y k] Hl; try done. cbn. f_equal. auto. Qed.

Lemma combine_snd {A B} (l : list A) (k : list B) : length l = length k -> map snd (combine l k) = k.
Proof. revert k. induction l as [|x l IH]; intros [|y k] Hl; try done. cbn. f_equal. auto. Qed.

(** Soundness of membership proofs: two proofs with the same sides that
    verify against one root are proofs of the same leaf with the same branch,
    unless the hash has a collision. *)
Theorem mmr_proof_binding rt x y p q :
  VerifyProof rt x p = true -> VerifyProof rt y q = true -> vSide p = vSide q ->
  (x = y /\ vBranch p = vBranch q) \/ parent_collision \/ leaf_collision.
Proof.
  unfold VerifyProof. intros Hp Hq Hs. destruct p as [i bp sp], q as [k bq sq]. cbn in *. subst sq.
  unfold len in *. destruct (Z.eqb_spec (Z.of_nat (length bp)) (Z.of_nat (length sp))) as [Lp|]; [|done].
  destruct (Z.eqb_spec (Z.of_nat (length bq)) (Z.of_nat (length sp))) as [Lq|]; [|done].
  cbn [negb] in *. apply Z.eqb_eq in Hp, Hq. rewrite <-Hq in Hp.
  apply verify_steps_inj in Hp as [?|[Hh Hc]].
  - auto.
  - destruct (decide (x = y)) as [|Hne]; [left|by right; right; exists x, y].
    split; [done|]. by rewrite <-(combine_fst bp sp), <-(combine_fst bq sp), Hc by lia.
  - by rewrite !combine_snd by lia.
Qed.

Lemma at_prefix (l k : list uint256) i : l `prefix_of` k -> 0 <= i < len l -> at_ 0 k i = at_ 0 l i.
Proof.
  intros [r ->] Hi. destruct (lookup_lt_is_Some_2 l (Z.to_nat i)) as [x Hx]; [unfold len in Hi; lia|].
  rewrite (at_lookup 0 l i x) by (done || lia). apply at_lookup; [lia|]. by apply lookup_app_l_Some.
Qed.

(** The node of a leaf never moves. *)
Lemma leaf_node ls i x :
  len ls < 2 ^ 59 -> ls !! i = Some x ->
  node_count (Z.of_nat i) < len (vNodes (mmr_of ls)) /\
  at_ 0 (vNodes (mmr_of ls)) (node_count (Z.of_nat i)) = HashLeaf x.
Proof.
  intros Hl Hx. pose proof (lookup_lt_Some _ _ _ Hx) as Hi.
  assert (ls = (take i ls ++ [x]) ++ drop (S i) ls) as Es by (by rewrite <-app_assoc; apply take_drop_middle in Hx).
  assert (Z.of_nat i = len (take i ls)) as -> by (unfold len; rewrite length_take; lia).
  set (A := take i ls) in *. set (B := drop (S i) ls) in *. clearbody A B. subst ls.
  assert (vNodes (mmr_of A) ++ [HashLeaf x] `prefix_of` vNodes (mmr_of ((A ++ [x]) ++ B))) as Hpre.
  { etrans; [|by apply nodes_prefix]. rewrite !len_app in Hl. pose proof (len_pos B).
    change (len [x]) with 1 in Hl.
    pose proof (Append_mmr_of A x ltac:(lia)) as E. apply (f_equal (fun r => vNodes r.1)) in E.
    unfold fst at 2 in E. rewrite <-E. unfold Append. generalize (mmr_of A). intros m. apply Append_loop_prefix. }
  assert (len A < 2 ^ 59) as HA by (rewrite !len_app in Hl; pose proof (len_pos B); change (len [x]) with 1 in Hl; lia).
  rewrite <-(mmr_of_len A HA). generalize dependent (vNodes (mmr_of ((A ++ [x]) ++ B))). intros k Hpre.
  pose proof (prefix_length _ _ Hpre) as Hlen. rewrite length_app in Hlen. change (length [HashLeaf x]) with 1%nat in Hlen.
  split; [unfold len; lia|].
  rewrite (at_prefix _ _ _ Hpre) by (rewrite len_app; split; [apply len_pos|change (len [HashLeaf x]) with 1; lia]).
  apply at_app_len.
Qed.

(** [GetLeafHash] returns the hash of the leaf appended at the index, and
    zero beyond the last leaf. *)
Theorem mmr_leaf_hash ls i :
  len ls < 2 ^ 59 ->
  GetLeafHash (mmr_of ls) (Z.of_nat i) = match ls !! i with Some x => HashLeaf x | None => 0 end.
Proof.
  intros Hl. unfold GetLeafHash. rewrite nLeaves_mmr. destruct (ls !! i) as [x|] eqn:Hx.
  - destruct (leaf_node ls i x Hl Hx) as [Hlt Hat]. apply lookup_lt_Some in Hx.
    destruct (Z.leb_spec (len ls) (Z.of_nat i)); [unfold len in *; lia|].
    rewrite LeafIndexToPos_spec by (unfold len in *; lia).
    destruct (Z.leb_spec (len (vNodes (mmr_of ls))) (node_count (Z.of_nat i))); [lia|done].
  - apply lookup_ge_None_1 in Hx. destruct (Z.leb_spec (len ls) (Z.of_nat i)); [done|unfold len in *; lia].
Qed.

End spec.

(** ** The packed sides of a serialised proof *)

Definition unpack (b : Z) : list bool := map (fun j => Z.land (Z.shiftr b j) 1 =? 1) (seqZ 0 8).

Lemma unpack_side_byte s :
  (length s <= 8)%nat -> unpack (side_byte s) = s ++ replicate (8 - length s) false.
Proof.
  intros Hs. do 8 (destruct s as [|[] s]; [vm_compute; reflexivity| |]).
  all: destruct s as [|b s]; [vm_compute; reflexivity|exfalso; simpl in Hs; lia].
Qed.

Lemma EncodeSide_unpack fuel s :
  (length s <= fuel)%nat ->
  exists n, concat (map unpack (EncodeSide_loop fuel s)) = s ++ replicate n false.
Proof.
  revert s. induction fuel as [|f IH]; intros s Hs; [destruct s; [by exists O|simpl in Hs; lia]|].
  destruct s as [|b s]; [by exists O|]. cbn [EncodeSide_loop]. generalize (b :: s) Hs. clear b s Hs.
  intros s Hs. cbn [map concat]. rewrite unpack_side_byte by (rewrite length_take; lia).
  destruct (decide (length s <= 8)%nat) as [Hd|Hd].
  - rewrite (drop_ge s 8), take_ge by lia. exists (8 - length s)%nat.
    destruct f; cbn; by rewrite app_nil_r.
  - destruct (IH (drop 8 s)) as [n ->]; [rewrite length_drop; lia|]. exists n.
    rewrite length_take. replace (8 - min 8 (length s))%nat with O by lia.
    cbn [replicate]. by rewrite app_nil_r, app_assoc, take_drop.
Qed.

(** The sides of a proof survive serialisation: [DecodeSide] reads back
    what [EncodeSide] packed. *)
Theorem side_roundtrip s : DecodeSide (EncodeSide s) (length s) = s.
Proof.
  unfold DecodeSide, EncodeSide.
  destruct (EncodeSide_unpack (length s) s ltac:(lia)) as [n E].
  change (concat (map _ (EncodeSide_loop (length s) s))) with (concat (map unpack (EncodeSide_loop (length s) s))).
  rewrite E.
  by rewrite resize_le, take_app_length by (rewrite length_app; lia).
Qed.

(** ** Witnesses, with a concrete hash *)

(** The range built by the code, from the empty one. *)
Definition build `{Sha256} (ls : list uint256) : CMMR := append_all empty_mmr ls.

Lemma build_mmr_of `{Sha256} ls : len ls < 2 ^ 59 -> build ls = mmr_of ls.
Proof.
  intros Hl. unfold build. replace empty_mmr with (mmr_of []) by (unfold mmr_of; by rewrite mountains_nil).
  by apply append_all_mmr_of.
Qed.

Section witnesses.
#[local] Instance toy : Sha256 := toy_sha256.

Lemma small_closed n : (n <? 2 ^ 59) = true -> n < 2 ^ 59.
Proof. apply Z.ltb_lt. Qed.

Lemma mmr_append_witness :
  append_all (mmr_of [3; 4]) [5; 6] = mmr_of [3; 4; 5; 6] /\ (Append (append_all (mmr_of [3; 4]) [5; 6]) 7).2 = 4.
Proof. apply (mmr_append [3; 4] [5; 6] 7), small_closed. vm_compute. reflexivity. Defined.

Lemma mmr_rewind_witness :
  Rewind (append_all (mmr_of [3; 4; 5]) [6; 7]) (GetSize (mmr_of [3; 4; 5])) = Some (mmr_of [3; 4; 5]).
Proof. apply (mmr_rewind [3; 4; 5] [6; 7]), small_closed. vm_compute. reflexivity. Defined.

Lemma mmr_root_witness : GetRoot (mmr_of [3; 4; 5]) = bag (roots (mountains max_h [3; 4; 5])).
Proof. apply (mmr_root [3; 4; 5]), small_closed. vm_compute. reflexivity. Defined.

Lemma mmr_proof_verifies_witness :
  exists p, GetProof (mmr_of [3; 4; 5]) (Z.of_nat 1) = Some p /\ VerifyProof (GetRoot (mmr_of [3; 4; 5])) 4 p = true.
Proof.
  apply (mmr_proof_verifies [3; 4; 5] 1 4);
    [apply small_closed; vm_compute; reflexivity|reflexivity|rewrite <-build_mmr_of by (apply small_closed; reflexivity); vm_compute; discriminate].
Defined.

Lemma mmr_proof_rejected_witness :
  exists p, GetProof (mmr_of [1; 2; 3; 4; 5; 6; 7]) (Z.of_nat 0) = Some p /\
    (VerifyProof (GetRoot (mmr_of [1; 2; 3; 4; 5; 6; 7])) 1 p = true ->
     parent_collision \/ exists a b, HashParent a b = a).
Proof.
  apply (mmr_proof_rejected [1; 2; 3; 4; 5; 6; 7] 0 1);
    [apply small_closed; vm_compute; reflexivity|reflexivity|rewrite <-build_mmr_of by (apply small_closed; reflexivity); vm_compute; reflexivity].
Defined.

(** The smallest range with such a leaf, evaluated. *)
Example seven_leaves_rejected :
  option_map (VerifyProof (GetRoot (build [1; 2; 3; 4; 5; 6; 7])) 1)
    (GetProof (build [1; 2; 3; 4; 5; 6; 7]) 0) = Some false.
Proof. vm_compute. reflexivity. Qed.

Lemma mmr_proof_binding_witness :
  (4 = 4 /\ [HashLeaf 3] = [HashLeaf 3]) \/ parent_collision \/ leaf_collision.
Proof.
  apply (mmr_proof_binding (GetRoot (build [3; 4])) 4 4
    {| nIndex := 1; vBranch := [HashLeaf 3]; vSide := [true] |}
    {| nIndex := 1; vBranch := [HashLeaf 3]; vSide := [true] |}); vm_compute; reflexivity.
Defined.

Lemma mmr_leaf_hash_witness : GetLeafHash (mmr_of [3; 4; 5]) (Z.of_nat 1) = HashLeaf 4.
Proof. apply (mmr_leaf_hash [3; 4; 5] 1), small_closed. vm_compute. reflexivity. Defined.

End witnesses.

End Mmr.
