(* ===== verification/MwModels.v ===== *)
(** * MimbleWimble models ([src/mw/mw_common.h], [src/mw/models/])

    Commitments, inputs, outputs, kernels, transaction bodies and blocks, with
    their order, hashes, totals, cut-through and encodings.  Fixed-size arrays
    are byte lists; amounts are [int64_t]. *)

From S2P Require Import Prelude Crypto Serialize.
Import Stream.

Module MwModels.

(** ** Constants and byte arrays *)

Definition COMMITMENT_SIZE : nat := 33.
Definition PUBKEY_SIZE : nat := 33.
Definition SIGNATURE_SIZE : nat := 64.
Definition BLINDING_FACTOR_SIZE : nat := 32.

Definition KERNEL_PLAIN : Z := 0.
Definition KERNEL_PEGIN : Z := 1.
Definition KERNEL_PEGOUT : Z := 2.
Definition KERNEL_HEIGHT_LOCKED : Z := 3.
Definition KERNEL_COINBASE : Z := 4.
Definition OUTPUT_STANDARD : Z := 0.
Definition OUTPUT_COINBASE : Z := 1.

(** [Commitment], [BlindingFactor] and [Signature] are arrays of their sizes;
    the default constructors zero them and [IsNull] looks for a non-zero byte. *)
Abbreviation Commitment := (list Z) (only parsing).
Abbreviation BlindingFactor := (list Z) (only parsing).
Abbreviation Signature := (list Z) (only parsing).
Definition null_commitment : Commitment := replicate COMMITMENT_SIZE 0.
Definition null_blind : BlindingFactor := replicate BLINDING_FACTOR_SIZE 0.
Definition null_signature : Signature := replicate SIGNATURE_SIZE 0.
Definition IsNull (data : bytes) : bool := forallb (fun b => b =? 0) data.

(** [memcmp(a, b, n) < 0] on arrays of one size. *)
Fixpoint memcmp_lt (a b : bytes) : bool :=
  match a, b with
  | x :: a', y :: b' => if x <? y then true else if y <? x then false else memcmp_lt a' b'
  | _, _ => false
  end.

(** ** Inputs, outputs and kernels *)

Record CMWInput := { i_commitment : Commitment; outputPubKey : bytes; i_signature : Signature }.

Record CMWOutput := {
  o_commitment : Commitment; senderPubKey : bytes; receiverPubKey : bytes;
  rangeProof : bytes; o_nFeatures : Z }.

Record CMWKernel := {
  nFeatures : Z; nFee : Z; nPegAmount : Z; nLockHeight : Z;
  excess : Commitment; k_signature : Signature; pegoutScript : bytes }.

Definition input_lt (a b : CMWInput) : bool := memcmp_lt (i_commitment a) (i_commitment b).
Definition output_lt (a b : CMWOutput) : bool := memcmp_lt (o_commitment a) (o_commitment b).

Definition IsPlain (k : CMWKernel) : bool := nFeatures k =? KERNEL_PLAIN.
Definition IsPegIn (k : CMWKernel) : bool := nFeatures k =? KERNEL_PEGIN.
Definition IsPegOut (k : CMWKernel) : bool := nFeatures k =? KERNEL_PEGOUT.
Definition IsHeightLocked (k : CMWKernel) : bool := nFeatures k =? KERNEL_HEIGHT_LOCKED.
Definition IsCoinbase (k : CMWKernel) : bool := nFeatures k =? KERNEL_COINBASE.

(** The loops that fill [feeBytes], [pegBytes] and [heightBytes]. *)
Definition be_bytes (n : Z) (v : Z) : bytes :=
  map (fun i => u8 (Z.shiftr v ((n - 1 - i) * 8))) (seqZ 0 n).

(** What [GetSignatureMessage] feeds to SHA-256, in order. *)
Definition signature_preimage (k : CMWKernel) : bytes :=
  [u8 (nFeatures k)] ++ be_bytes 8 (nFee k) ++
  (if IsPegIn k || IsPegOut k then be_bytes 8 (nPegAmount k) else []) ++
  (if IsHeightLocked k then be_bytes 4 (nLockHeight k) else []) ++
  excess k ++
  (if IsPegOut k && (0 <? len (pegoutScript k)) then pegoutScript k else []).

Section hashed.
Context `{Sha256}.

Definition GetSignatureMessage (k : CMWKernel) : uint256 := sha256_twice (signature_preimage k).
Definition kernel_GetHash (k : CMWKernel) : uint256 := GetSignatureMessage k.
Definition GetOutputID (o : CMWOutput) : uint256 := sha256_twice ([u8 (o_nFeatures o)] ++ o_commitment o).
Definition input_GetHash (i : CMWInput) : uint256 := sha256_once (i_commitment i ++ outputPubKey i).
Definition commitment_GetHash (c : Commitment) : uint256 := sha256_twice c.

(** ** Transaction bodies *)

Record CMWTransactionBody := {
  vInputs : list CMWInput; vOutputs : list CMWOutput; vKernels : list CMWKernel }.

Definition body_IsNull (b : CMWTransactionBody) : bool :=
  bool_decide (length (vInputs b) = 0%nat) && bool_decide (length (vOutputs b) = 0%nat)
  && bool_decide (length (vKernels b) = 0%nat).

(** [std::sort] under a strict order; which of two equivalent elements comes
    first is the library's choice. *)
Definition not_after {A} (lt : A -> A -> bool) (x y : A) : Prop := lt y x = false.
#[export] Instance not_after_dec {A} (lt : A -> A -> bool) : RelDecision (not_after lt).
Proof. intros x y. unfold not_after. apply _. Defined.

Definition std_sort {A} (lt : A -> A -> bool) (l : list A) : list A := merge_sort (not_after lt) l.

Definition kernel_lt (a b : CMWKernel) : bool := kernel_GetHash a <? kernel_GetHash b.

Definition Sort (b : CMWTransactionBody) : CMWTransactionBody :=
  {| vInputs := std_sort input_lt (vInputs b); vOutputs := std_sort output_lt (vOutputs b);
     vKernels := std_sort kernel_lt (vKernels b) |}.

(** One of the loops of [IsCanonicallyOrdered]. *)
Fixpoint ordered {A} (lt : A -> A -> bool) (l : list A) : bool :=
  match l with
  | x :: (y :: _) as l' => if lt y x then false else ordered lt l'
  | _ => true
  end.

Definition IsCanonicallyOrdered (b : CMWTransactionBody) : bool :=
  ordered input_lt (vInputs b) && ordered output_lt (vOutputs b) && ordered kernel_lt (vKernels b).

Definition GetTotalFee (b : CMWTransactionBody) : Z :=
  fold_left (fun nTotalFee k => i64 (nTotalFee + nFee k)) (vKernels b) 0.
Definition GetTotalPegIn (b : CMWTransactionBody) : Z :=
  fold_left (fun nTotal k => if IsPegIn k then i64 (nTotal + nPegAmount k) else nTotal) (vKernels b) 0.
Definition GetTotalPegOut (b : CMWTransactionBody) : Z :=
  fold_left (fun nTotal k => if IsPegOut k then i64 (nTotal + nPegAmount k) else nTotal) (vKernels b) 0.

Definition Merge (b other : CMWTransactionBody) : CMWTransactionBody :=
  {| vInputs := vInputs b ++ vInputs other; vOutputs := vOutputs b ++ vOutputs other;
     vKernels := vKernels b ++ vKernels other |}.

(** The body after cut-through and the commitments cut. *)
Definition ApplyCutThrough (b : CMWTransactionBody) : CMWTransactionBody * list Commitment :=
  let inputCommitments : gset bytes :=
    fold_left (fun s i => {[ i_commitment i ]} ∪ s) (vInputs b) ∅ in
  let '(cutSet, vCutThrough) :=
    fold_left (fun '((cutSet, vCutThrough) : gset bytes * list Commitment) o =>
      if bool_decide (o_commitment o ∈ inputCommitments)
      then ({[ o_commitment o ]} ∪ cutSet, vCutThrough ++ [o_commitment o])
      else (cutSet, vCutThrough)) (vOutputs b) (∅, []) in
  if bool_decide (cutSet = ∅) then (b, vCutThrough)
  else
    ({| vInputs := List.filter (fun i => negb (bool_decide (i_commitment i ∈ cutSet))) (vInputs b);
        vOutputs := List.filter (fun o => negb (bool_decide (o_commitment o ∈ cutSet))) (vOutputs b);
        vKernels := vKernels b |}, vCutThrough).

(** What the [CHashWriter] of [CMWTransactionBody::GetHash] is fed. *)
Definition body_preimage (b : CMWTransactionBody) : bytes :=
  le_bytes 4 (i32 (len (vInputs b))) ++ le_bytes 4 (i32 (len (vOutputs b))) ++ le_bytes 4 (i32 (len (vKernels b))) ++
  concat (map (fun k => uint256_bytes (GetSignatureMessage k)) (vKernels b)).

Definition body_GetHash (b : CMWTransactionBody) : uint256 :=
  sha256_once (uint256_bytes (sha256_twice (body_preimage b))).

Record CMWTransaction := { t_body : CMWTransactionBody; t_offset : BlindingFactor }.
Definition tx_IsNull (t : CMWTransaction) : bool := body_IsNull (t_body t).
Definition tx_GetHash (t : CMWTransaction) : uint256 := body_GetHash (t_body t).

(** ** Blocks *)

Record CMWBlock := {
  hashPrevMWBlock : uint256; b_body : CMWTransactionBody; vCutThrough : list Commitment;
  nHeight : Z; b_offset : BlindingFactor }.

Definition block_IsNull (b : CMWBlock) : bool := body_IsNull (b_body b) && (hashPrevMWBlock b =? 0).

Definition block_preimage (b : CMWBlock) : bytes :=
  uint256_bytes (hashPrevMWBlock b) ++ uint256_bytes (body_GetHash (b_body b)) ++
  le_bytes 4 (nHeight b) ++ b_offset b ++ le_bytes 4 (u32 (len (vCutThrough b))).
Definition block_GetHash (b : CMWBlock) : uint256 := sha256_twice (block_preimage b).

End hashed.

(** ** Encodings *)

Definition c_commitment : codec Commitment := c_flat COMMITMENT_SIZE.
Definition c_uint256 : codec uint256 := c_uint 32.

Definition c_input : codec CMWInput :=
  c_record (c_commitment ⊗ c_flat PUBKEY_SIZE ⊗ c_flat SIGNATURE_SIZE)
    (fun i => (i_commitment i, outputPubKey i, i_signature i))
    (fun '(c, p, s) => {| i_commitment := c; outputPubKey := p; i_signature := s |}).

Definition c_output : codec CMWOutput :=
  c_record (c_commitment ⊗ c_flat PUBKEY_SIZE ⊗ c_flat PUBKEY_SIZE ⊗ c_bytes ⊗ c_uint 1)
    (fun o => (o_commitment o, senderPubKey o, receiverPubKey o, rangeProof o, o_nFeatures o))
    (fun '(c, s, r, p, f) => {| o_commitment := c; senderPubKey := s; receiverPubKey := r;
                                rangeProof := p; o_nFeatures := f |}).

Definition c_kernel : codec CMWKernel :=
  c_record
    (c_dep (c_uint 1) (fun f =>
       c_sint 8
       ⊗ c_when ((f =? KERNEL_PEGIN) || (f =? KERNEL_PEGOUT)) (c_sint 8) 0
       ⊗ c_when (f =? KERNEL_HEIGHT_LOCKED) (c_sint 4) 0
       ⊗ c_commitment ⊗ c_flat SIGNATURE_SIZE
       ⊗ c_when (f =? KERNEL_PEGOUT) c_script []))
    (fun k => (nFeatures k, (nFee k, nPegAmount k, nLockHeight k, excess k, k_signature k, pegoutScript k)))
    (fun '(f, (fee, peg, lock, e, s, script)) =>
       {| nFeatures := f; nFee := fee; nPegAmount := peg; nLockHeight := lock;
          excess := e; k_signature := s; pegoutScript := script |}).

Definition c_body : codec CMWTransactionBody :=
  c_record (c_vector c_input ⊗ c_vector c_output ⊗ c_vector c_kernel)
    (fun b => (vInputs b, vOutputs b, vKernels b))
    (fun '(i, o, k) => {| vInputs := i; vOutputs := o; vKernels := k |}).

Definition c_transaction : codec CMWTransaction :=
  c_record (c_body ⊗ c_flat BLINDING_FACTOR_SIZE)
    (fun t => (t_body t, t_offset t)) (fun '(b, o) => {| t_body := b; t_offset := o |}).

Definition c_block : codec CMWBlock :=
  c_record (c_uint256 ⊗ c_body ⊗ c_vector c_commitment ⊗ c_sint 4 ⊗ c_flat BLINDING_FACTOR_SIZE)
    (fun b => (hashPrevMWBlock b, b_body b, vCutThrough b, nHeight b, b_offset b))
    (fun '(h, b, v, n, o) => {| hashPrevMWBlock := h; b_body := b; vCutThrough := v; nHeight := n; b_offset := o |}).

(** * Properties *)

(** ** Encodings *)

#[export] Instance input_fields :
  Fields (fun i => (i_commitment i, outputPubKey i, i_signature i))
    (fun '(c, p, s) => {| i_commitment := c; outputPubKey := p; i_signature := s |}).
Proof. split; [by intros []|by intros [[] ?]]. Qed.
#[export] Instance output_fields :
  Fields (fun o => (o_commitment o, senderPubKey o, receiverPubKey o, rangeProof o, o_nFeatures o))
    (fun '(c, s, r, p, f) => {| o_commitment := c; senderPubKey := s; receiverPubKey := r;
                                rangeProof := p; o_nFeatures := f |}).
Proof. split; [by intros []|by intros [[[[] ?] ?] ?]]. Qed.
#[export] Instance kernel_fields :
  Fields (fun k => (nFeatures k, (nFee k, nPegAmount k, nLockHeight k, excess k, k_signature k, pegoutScript k)))
    (fun '(f, (fee, peg, lock, e, s, script)) =>
       {| nFeatures := f; nFee := fee; nPegAmount := peg; nLockHeight := lock;
          excess := e; k_signature := s; pegoutScript := script |}).
Proof. split; [by intros []|by intros [? [[[[[] ?] ?] ?] ?]]]. Qed.
#[export] Instance body_fields :
  Fields (fun b => (vInputs b, vOutputs b, vKernels b))
    (fun '(i, o, k) => {| vInputs := i; vOutputs := o; vKernels := k |}).
Proof. split; [by intros []|by intros [[] ?]]. Qed.
#[export] Instance transaction_fields :
  Fields (fun t => (t_body t, t_offset t)) (fun '(b, o) => {| t_body := b; t_offset := o |}).
Proof. split; [by intros []|by intros []]. Qed.
#[export] Instance block_fields :
  Fields (fun b => (hashPrevMWBlock b, b_body b, vCutThrough b, nHeight b, b_offset b))
    (fun '(h, b, v, n, o) => {| hashPrevMWBlock := h; b_body := b; vCutThrough := v; nHeight := n; b_offset := o |}).
Proof. split; [by intros []|by intros [[[[] ?] ?] ?]]. Qed.

#[export] Instance input_laws : Laws c_input := _.
#[export] Instance input_canonical : Canonical c_input := _.
#[export] Instance output_laws : Laws c_output := _.
#[export] Instance output_canonical : Canonical c_output := _.
#[export] Instance kernel_laws : Laws c_kernel := _.
#[export] Instance kernel_canonical : Canonical c_kernel := _.
#[export] Instance body_laws : Laws c_body := _.
#[export] Instance body_canonical : Canonical c_body := _.
#[export] Instance transaction_laws : Laws c_transaction := _.
#[export] Instance transaction_canonical : Canonical c_transaction := _.
#[export] Instance block_laws : Laws c_block := _.
#[export] Instance block_canonical : Canonical c_block := _.

(** ** Order *)

Lemma memcmp_lt_irrefl a : memcmp_lt a a = false.
Proof. induction a as [|x a IH]; [done|]. cbn. by rewrite Z.ltb_irrefl. Qed.

Lemma memcmp_lt_asym a b : memcmp_lt a b = true -> memcmp_lt b a = false.
Proof.
  revert b. induction a as [|x a IH]; intros [|y b]; cbn; try done.
  destruct (Z.ltb_spec x y), (Z.ltb_spec y x); try done; [lia|]. apply IH.
Qed.

Lemma memcmp_lt_trans a b c :
  memcmp_lt a b = true -> memcmp_lt b c = true -> memcmp_lt a c = true.
Proof.
  revert b c. induction a as [|x a IH]; intros [|y b] [|z c]; cbn; try done.
  destruct (Z.ltb_spec x y), (Z.ltb_spec y x), (Z.ltb_spec y z), (Z.ltb_spec z y),
    (Z.ltb_spec x z), (Z.ltb_spec z x); try done; try lia. apply IH.
Qed.

(** Arrays of one size neither of which comes first are equal. *)
Lemma memcmp_lt_eq a b :
  length a = length b -> memcmp_lt a b = false -> memcmp_lt b a = false -> a = b.
Proof.
  revert b. induction a as [|x a IH]; intros [|y b] Hl; cbn; try done. injection Hl as Hl.
  destruct (Z.ltb_spec x y), (Z.ltb_spec y x); try done. intros. assert (x = y) as -> by lia. f_equal. auto.
Qed.

(** An order is asymmetric: enough for sorting to order. *)
Class Asym {A} (lt : A -> A -> bool) : Prop := asym x y : lt x y = true -> lt y x = false.

#[export] Instance input_asym : Asym input_lt.
Proof. intros x y. apply memcmp_lt_asym. Qed.
#[export] Instance output_asym : Asym output_lt.
Proof. intros x y. apply memcmp_lt_asym. Qed.
#[export] Instance kernel_asym `{Sha256} : Asym kernel_lt.
Proof. intros x y. unfold kernel_lt. rewrite Z.ltb_lt, Z.ltb_ge. lia. Qed.

Lemma not_after_total {A} (lt : A -> A -> bool) `{!Asym lt} : Total (not_after lt).
Proof.
  intros x y. unfold not_after. destruct (lt y x) eqn:E; [right|by left]. by apply asym.
Qed.

Lemma ordered_Sorted {A} (lt : A -> A -> bool) l : ordered lt l = true <-> Sorted (not_after lt) l.
Proof.
  induction l as [|x l IH]; [split; [constructor|done]|]. destruct l as [|y l].
  - split; [repeat constructor|done].
  - cbn [ordered]. unfold not_after in *. split.
    + destruct (lt y x) eqn:E; [done|]. intros H. constructor; [by apply IH|]. by constructor.
    + intros H. apply Sorted_inv in H as [Hs Hh]. apply HdRel_inv in Hh. rewrite Hh. by apply IH.
Qed.

Lemma std_sort_ordered {A} (lt : A -> A -> bool) `{!Asym lt} l : ordered lt (std_sort lt l) = true.
Proof. apply ordered_Sorted. apply Sorted_merge_sort, not_after_total, _. Qed.

Lemma std_sort_permutation {A} (lt : A -> A -> bool) l : std_sort lt l ≡ₚ l.
Proof. apply merge_sort_Permutation. Qed.

(** Sorting a body permutes its components into the canonical order the
    validation asks for. *)
Theorem sort_canonical `{Sha256} b :
  IsCanonicallyOrdered (Sort b) = true /\
  vInputs (Sort b) ≡ₚ vInputs b /\ vOutputs (Sort b) ≡ₚ vOutputs b /\ vKernels (Sort b) ≡ₚ vKernels b.
Proof.
  unfold IsCanonicallyOrdered, Sort; cbn. rewrite !std_sort_ordered by apply _.
  auto using std_sort_permutation.
Qed.

(** ** Totals *)

Definition MAX_MONEY : Z := 1000 * 1000000 * 100000000.

Lemma i64_sum {A} (f : A -> Z) l acc M :
  0 <= acc -> Forall (fun x => 0 <= f x <= M) l -> acc + M * len l < 2 ^ 63 ->
  fold_left (fun t x => i64 (t + f x)) l acc = acc + foldr Z.add 0 (map f l) /\
  acc + foldr Z.add 0 (map f l) <= acc + M * len l.
Proof.
  intros Hacc Hl. revert acc Hacc. induction Hl as [|x l Hx Hl IH]; intros acc Hacc HM; cbn [fold_left map foldr].
  - unfold len. cbn. lia.
  - rewrite len_cons in *. assert (0 <= M * len l) by (pose proof (len_pos l); nia).
    rewrite i64_id by lia. destruct (IH (acc + f x)) as [-> Hle]; lia.
Qed.

Lemma fold_left_ext {A B} (f g : B -> A -> B) l acc :
  (forall b a, f b a = g b a) -> fold_left f l acc = fold_left g l acc.
Proof. intros E. revert acc. induction l as [|x l IH]; intros acc; [done|]. cbn. by rewrite E, IH. Qed.

Lemma i64_fixed_or {A} (p : A -> bool) (f : A -> Z) l acc :
  - 2 ^ 63 <= acc < 2 ^ 63 ->
  fold_left (fun t x => if p x then i64 (t + f x) else t) l acc =
  fold_left (fun t x => i64 (t + (if p x then f x else 0))) l acc.
Proof.
  revert acc. induction l as [|x l IH]; intros acc Hacc; [done|]. cbn [fold_left].
  destruct (p x); [|rewrite Z.add_0_r, (i64_id acc) by done; by apply IH].
  apply IH. apply i64_range.
Qed.

(** The totals of a body whose amounts are in the money range are exact, as
    long as it has fewer than ninety-two kernels; no [int64_t] addition
    overflows. *)
Theorem totals_exact b :
  Forall (fun k => 0 <= nFee k <= MAX_MONEY /\ 0 <= nPegAmount k <= MAX_MONEY) (vKernels b) ->
  len (vKernels b) <= 92 ->
  GetTotalFee b = foldr Z.add 0 (map nFee (vKernels b)) /\
  GetTotalPegIn b = foldr Z.add 0 (map (fun k => if IsPegIn k then nPegAmount k else 0) (vKernels b)) /\
  GetTotalPegOut b = foldr Z.add 0 (map (fun k => if IsPegOut k then nPegAmount k else 0) (vKernels b)).
Proof.
  intros Hk Hn. unfold GetTotalFee, GetTotalPegIn, GetTotalPegOut. rewrite !i64_fixed_or by lia.
  assert (forall f, Forall (fun k => 0 <= f k <= MAX_MONEY) (vKernels b) ->
    fold_left (fun t k => i64 (t + f k)) (vKernels b) 0 = foldr Z.add 0 (map f (vKernels b))) as E.
  { intros f Hf. destruct (i64_sum f (vKernels b) 0 MAX_MONEY) as [-> _]; [lia|done|unfold MAX_MONEY; lia|done]. }
  repeat split; apply E; (eapply Forall_impl; [exact Hk|]); cbn; intros k [H1 H2]; [done| |];
    (destruct (IsPegIn k), (IsPegOut k); unfold MAX_MONEY in *; lia).
Qed.

(** ** Cut-through *)

Abbreviation ins b := (map i_commitment (vInputs b)).
Abbreviation outs b := (map o_commitment (vOutputs b)).

Lemma set_of_list {A} (f : A -> bytes) (l : list A) (X : gset bytes) c :
  c ∈ fold_left (fun s i => {[ f i ]} ∪ s) l X <-> c ∈ X \/ c ∈ map f l.
Proof. revert X. induction l as [|x l IH]; intros X; cbn; [set_solver|]. rewrite IH. set_solver. Qed.

(** The loop over the outputs: the set and the list hold the outputs' commitments
    that are in [I]. *)
Lemma cut_loop (I : gset bytes) (l : list CMWOutput) X v :
  let '(cutSet, cut) :=
    fold_left (fun '((cutSet, vCutThrough) : gset bytes * list Commitment) o =>
      if bool_decide (o_commitment o ∈ I)
      then ({[ o_commitment o ]} ∪ cutSet, vCutThrough ++ [o_commitment o])
      else (cutSet, vCutThrough)) l (X, v) in
  cut = v ++ List.filter (fun c : Commitment => bool_decide (c ∈ I)) (map o_commitment l) /\
  forall c, c ∈ cutSet <-> c ∈ X \/ (c ∈ I /\ c ∈ map o_commitment l).
Proof.
  revert X v. induction l as [|o l IH]; intros X v; cbn [fold_left map List.filter];
    [split; [by rewrite app_nil_r|set_solver]|].
  case_bool_decide as Ho.
  - specialize (IH ({[ o_commitment o ]} ∪ X) (v ++ [o_commitment o])).
    destruct (fold_left _ _ _) as [cs cut]. destruct IH as [-> Hc]. rewrite <-app_assoc. split; [done|].
    intros c. rewrite Hc. set_solver.
  - specialize (IH X v). destruct (fold_left _ _ _) as [cs cut]. destruct IH as [-> Hc]. split; [done|].
    intros c. rewrite Hc. set_solver.
Qed.

Lemma filter_id {A} (p : A -> bool) l : (forall x, x ∈ l -> p x = true) -> List.filter p l = l.
Proof.
  induction l as [|x l IH]; intros Hp; [done|]. cbn. rewrite Hp by set_solver. f_equal. apply IH. set_solver.
Qed.

Lemma filter_nil {A} (p : A -> bool) l : (forall x, x ∈ l -> p x = false) -> List.filter p l = [].
Proof.
  induction l as [|x l IH]; intros Hp; [done|]. cbn. rewrite Hp by set_solver. apply IH. set_solver.
Qed.

Lemma filter_ext_list {A} (p q : A -> bool) l : (forall x, x ∈ l -> p x = q x) -> List.filter p l = List.filter q l.
Proof.
  induction l as [|x l IH]; intros E; [done|]. cbn. rewrite E by set_solver. rewrite IH; [done|set_solver].
Qed.

Definition among (c : Commitment) (l : list Commitment) : bool := bool_decide (c ∈ l).

Lemma among_true c l : among c l = true <-> c ∈ l.
Proof. unfold among. by rewrite bool_decide_eq_true. Qed.

Lemma among_decide c l (P : Prop) `{Decision P} : (P <-> c ∈ l) -> bool_decide P = among c l.
Proof. intros HP. unfold among. by apply bool_decide_ext. Qed.

(** Cut-through as two filters. *)
Lemma ApplyCutThrough_spec b :
  ApplyCutThrough b =
  ({| vInputs := List.filter (fun i => negb (among (i_commitment i) (outs b))) (vInputs b);
      vOutputs := List.filter (fun o => negb (among (o_commitment o) (ins b))) (vOutputs b);
      vKernels := vKernels b |},
   List.filter (fun c => among c (ins b)) (outs b)).
Proof.
  unfold ApplyCutThrough. cbv zeta.
  set (I := fold_left _ (vInputs b) ∅). assert (forall c, c ∈ I <-> c ∈ ins b) as HI
    by (intros c; unfold I; rewrite set_of_list; set_solver).
  pose proof (cut_loop I (vOutputs b) ∅ []) as Hl. destruct (fold_left _ (vOutputs b) _) as [cs cut].
  destruct Hl as [-> Hcs]. cbn [app].
  assert (forall i, i ∈ vInputs b -> i_commitment i ∈ ins b) as Hin
    by (intros i Hi; change (ins b) with (i_commitment <$> vInputs b); apply list_elem_of_fmap; eauto).
  assert (forall o, o ∈ vOutputs b -> o_commitment o ∈ outs b) as Hout
    by (intros o Ho; change (outs b) with (o_commitment <$> vOutputs b); apply list_elem_of_fmap; eauto).
  rewrite (filter_ext_list _ (fun c => among c (ins b)) (outs b)) by (intros c _; by apply among_decide).
  case_bool_decide as Hempty; f_equal.
  - assert (forall c, c ∈ ins b -> c ∈ outs b -> False) as Hno.
    { intros c H1 H2. apply (not_elem_of_empty (C := gset bytes) c). rewrite <-Hempty. apply Hcs. right.
      by rewrite HI. }
    destruct b as [i o k]; cbn [vInputs vOutputs vKernels] in *.
    f_equal; symmetry; apply filter_id; intros x Hx; apply negb_true_iff, not_true_is_false; rewrite among_true; eauto.
  - f_equal; apply filter_ext_list; intros x Hx; f_equal; apply among_decide; rewrite Hcs, HI; set_solver.
Qed.

Lemma map_filter {A B} (f : A -> B) (p : B -> bool) l :
  map f (List.filter (fun x => p (f x)) l) = List.filter p (map f l).
Proof. induction l as [|x l IH]; [done|]. cbn. destruct (p (f x)); cbn; by rewrite IH. Qed.

Lemma elem_of_List_filter {A} (p : A -> bool) l x : x ∈ List.filter p l <-> x ∈ l /\ p x = true.
Proof. rewrite !list_elem_of_In. apply filter_In. Qed.

Lemma filter_partition {A} (p : A -> bool) l : List.filter p l ++ List.filter (fun x => negb (p x)) l ≡ₚ l.
Proof.
  induction l as [|x l IH]; [done|]. cbn. destruct (p x); cbn; [by rewrite IH|]. by rewrite <-Permutation_middle, IH.
Qed.

Lemma NoDup_List_filter {A} (p : A -> bool) l : NoDup l -> NoDup (List.filter p l).
Proof.
  induction 1 as [|x l Hx Hl IH]; [constructor|]. cbn. destruct (p x); [|done]. constructor; [|done].
  rewrite elem_of_List_filter. tauto.
Qed.

(** Cut-through removes what cancels and nothing else: when no commitment
    occurs twice among the inputs or among the outputs, inputs and outputs each
    lose exactly the cut commitments, the two sides have none in common after,
    and the kernels stay. *)
Theorem cut_through_balance b :
  NoDup (ins b) -> NoDup (outs b) ->
  let '(b', cut) := ApplyCutThrough b in
  cut ++ ins b' ≡ₚ ins b /\ cut ++ outs b' ≡ₚ outs b /\
  (forall c, c ∈ ins b' -> c ∈ outs b' -> False) /\ vKernels b' = vKernels b.
Proof.
  intros Hi Ho. rewrite ApplyCutThrough_spec. cbn [vInputs vOutputs vKernels].
  rewrite (map_filter i_commitment (fun c => negb (among c (outs b)))).
  rewrite (map_filter o_commitment (fun c => negb (among c (ins b)))).
  split; [|split; [|split; [|done]]].
  - etrans; [|apply (filter_partition (fun c => among c (outs b)) (ins b))]. apply Permutation_app; [|done].
    apply NoDup_Permutation; [by apply NoDup_List_filter..|].
    intros c. rewrite !elem_of_List_filter, !among_true. tauto.
  - apply filter_partition.
  - intros c. rewrite !elem_of_List_filter, negb_true_iff, <-not_true_iff_false, among_true. tauto.
Qed.

Lemma le_bytes_seq n v : le_bytes n v = map (fun j => u8 (Z.shiftr v (Z.of_nat j * 8))) (seq 0 n).
Proof.
  revert v. induction n as [|n IH]; intros v; [done|]. cbn [le_bytes seq map]. f_equal.
  rewrite IH, <-seq_shift, map_map. apply map_ext. intros j. f_equal.
  rewrite !Z.shiftr_div_pow2 by lia. replace (Z.of_nat (S j) * 8) with (8 + Z.of_nat j * 8) by lia.
  rewrite Z.pow_add_r, <-Zdiv_Zdiv by lia. done.
Qed.

Lemma be_bytes_8 v : be_bytes 8 v = rev (le_bytes 8 v).
Proof. rewrite le_bytes_seq. reflexivity. Qed.

Lemma be_bytes_4 v : be_bytes 4 v = rev (le_bytes 4 v).
Proof. rewrite le_bytes_seq. reflexivity. Qed.

Lemma serialize_inj {A} (c : codec A) `{Laws A c} x y :
  wf c x -> wf c y -> Serialize c x = Serialize c y -> x = y.
Proof.
  intros Hx Hy E. pose proof (unserialize_serialize x [] Hx) as E1.
  rewrite E, unserialize_serialize in E1 by done. by injection E1.
Qed.

Lemma be8_inj a b : wf (c_sint 8) a -> wf (c_sint 8) b -> be_bytes 8 a = be_bytes 8 b -> a = b.
Proof.
  rewrite !be_bytes_8. intros Ha Hb E. apply (serialize_inj (c_sint 8)); [done..|].
  apply (f_equal (@rev Z)) in E. by rewrite !rev_involutive in E.
Qed.

Lemma be4_inj a b : wf (c_sint 4) a -> wf (c_sint 4) b -> be_bytes 4 a = be_bytes 4 b -> a = b.
Proof.
  rewrite !be_bytes_4. intros Ha Hb E. apply (serialize_inj (c_sint 4)); [done..|].
  apply (f_equal (@rev Z)) in E. by rewrite !rev_involutive in E.
Qed.

(** The message a kernel signs determines every field its features make
    meaningful: features, fee, excess, the amount of a peg kernel, the height of
    a locked one and the script of a peg-out. *)
Theorem signature_message_binds k1 k2 :
  wf c_kernel k1 -> wf c_kernel k2 -> signature_preimage k1 = signature_preimage k2 ->
  k1 = {| nFeatures := nFeatures k2; nFee := nFee k2; nPegAmount := nPegAmount k2;
          nLockHeight := nLockHeight k2; excess := excess k2; k_signature := k_signature k1;
          pegoutScript := pegoutScript k2 |}.
Proof.
  destruct k1 as [f1 fee1 p1 l1 e1 s1 sc1], k2 as [f2 fee2 p2 l2 e2 s2 sc2].
  unfold signature_preimage, IsPegIn, IsPegOut, IsHeightLocked. cbn [c_kernel c_record wf c_dep c_pair fst snd
    nFeatures nFee nPegAmount nLockHeight excess k_signature pegoutScript].
  intros (Hf1 & ((((Hfee1 & Hp1) & Hl1) & He1) & Hs1) & Hsc1) (Hf2 & ((((Hfee2 & Hp2) & Hl2) & He2) & Hs2) & Hsc2) E.
  apply app_inj_1 in E as [Ef E]; [|done]. injection Ef as Ef. rewrite !u8_id in Ef by (cbn in *; lia). subst f2.
  apply app_inj_1 in E as [Efee E]; [|by rewrite !be_bytes_8, !length_rev, !le_bytes_length].
  apply be8_inj in Efee as ->; [|done..].
  assert (p1 = p2 /\ l1 = l2 /\ e1 ++ (if (f1 =? KERNEL_PEGOUT) && (0 <? len sc1) then sc1 else []) =
    e2 ++ (if (f1 =? KERNEL_PEGOUT) && (0 <? len sc2) then sc2 else [])) as (-> & -> & E').
  { destruct ((f1 =? KERNEL_PEGIN) || (f1 =? KERNEL_PEGOUT)), (f1 =? KERNEL_HEIGHT_LOCKED); cbn [wf c_when app] in *; subst;
      repeat match type of E with
      | be_bytes 8 _ ++ _ = _ =>
        apply app_inj_1 in E as [Ep E]; [apply be8_inj in Ep as ->; [|done..]|by rewrite !be_bytes_8, !length_rev, !le_bytes_length]
      | be_bytes 4 _ ++ _ = _ =>
        apply app_inj_1 in E as [El E]; [apply be4_inj in El as ->; [|done..]|by rewrite !be_bytes_4, !length_rev, !le_bytes_length]
      end; auto. }
  apply app_inj_1 in E' as [-> Esc]; [|by rewrite (proj1 He1), (proj1 He2)]. f_equal.
  destruct (f1 =? KERNEL_PEGOUT); cbn [wf c_when andb] in *; [|by subst].
  destruct sc1, sc2; done.
Qed.

(** A block is read from a byte string exactly when the string starts with
    the encoding of that block, so a block has one encoding. *)
Theorem block_encoding s b s' :
  bytes_ok s ->
  (Unserialize c_block s = Some (b, s') <-> wf c_block b /\ s = Serialize c_block b ++ s').
Proof.
  intros Hs. split; [intros E; apply canonical in E as [-> ?]; auto|].
  intros [Hb ->]. by apply unserialize_serialize.
Qed.

(** ** The hash of a body does not cover its outputs

    [GetHash] is fed the numbers of inputs and outputs and the kernels' messages:
    replacing the outputs, or what the inputs spend, leaves the hash of the body
    and of a block around it as it was. *)
Lemma body_hash_counts `{Sha256} b1 b2 :
  len (vInputs b1) = len (vInputs b2) -> len (vOutputs b1) = len (vOutputs b2) ->
  vKernels b1 = vKernels b2 -> body_GetHash b1 = body_GetHash b2.
Proof. unfold body_GetHash, body_preimage. by intros -> -> ->. Qed.

(** ** Witnesses *)

Definition pt (n : Z) : Commitment := 2 :: replicate 31 0 ++ [n].
Definition sample_input (n : Z) : CMWInput :=
  {| i_commitment := pt n; outputPubKey := pt 1; i_signature := null_signature |}.
Definition sample_output (n : Z) : CMWOutput :=
  {| o_commitment := pt n; senderPubKey := pt 1; receiverPubKey := pt 2; rangeProof := [1; 2]; o_nFeatures := 0 |}.
Definition sample_kernel (f fee peg n : Z) : CMWKernel :=
  {| nFeatures := f; nFee := fee; nPegAmount := peg; nLockHeight := 0; excess := pt n;
     k_signature := null_signature; pegoutScript := [] |}.
Definition sample_body : CMWTransactionBody :=
  {| vInputs := [sample_input 7; sample_input 8]; vOutputs := [sample_output 8; sample_output 9];
     vKernels := [sample_kernel 1 10 500 3; sample_kernel 0 5 0 4] |}.
Definition sample_block : CMWBlock :=
  {| hashPrevMWBlock := 77; b_body := sample_body; vCutThrough := [pt 5]; nHeight := -1; b_offset := null_blind |}.

Lemma cut_through_balance_witness :
  ApplyCutThrough sample_body =
    ({| vInputs := [sample_input 7]; vOutputs := [sample_output 9]; vKernels := vKernels sample_body |}, [pt 8]) /\
  [pt 8] ++ [pt 7] ≡ₚ [pt 7; pt 8].
Proof.
  pose proof (cut_through_balance sample_body) as H.
  assert (ApplyCutThrough sample_body =
    ({| vInputs := [sample_input 7]; vOutputs := [sample_output 9]; vKernels := vKernels sample_body |}, [pt 8])) as E
    by (vm_compute; reflexivity).
  rewrite E in H. split; [exact E|].
  apply H; apply (bool_decide_unpack _); vm_compute; exact I.
Defined.

Lemma totals_exact_witness : GetTotalFee sample_body = 15 /\ GetTotalPegIn sample_body = 500.
Proof.
  destruct (totals_exact sample_body) as (-> & -> & _); [|vm_compute; discriminate|split; reflexivity].
  unfold MAX_MONEY. repeat constructor; cbn; lia.
Defined.

Lemma signature_message_binds_witness :
  sample_kernel 1 10 500 3 =
  {| nFeatures := 1; nFee := 10; nPegAmount := 500; nLockHeight := 0; excess := pt 3;
     k_signature := null_signature; pegoutScript := [] |}.
Proof.
  apply (signature_message_binds (sample_kernel 1 10 500 3) (sample_kernel 1 10 500 3)); [| |reflexivity];
    cbn; repeat split; try lia; repeat constructor; unfold byte_ok; lia.
Defined.

Lemma block_encoding_witness :
  Unserialize c_block (Serialize c_block sample_block ++ [9]) = Some (sample_block, [9]).
Proof.
  apply block_encoding; [apply (bool_decide_unpack _); vm_compute; exact I|]. split; [|reflexivity].
  cbn -[len MAX_SIZE]. unfold MAX_SIZE, len. cbn. repeat split; repeat constructor; cbn; unfold byte_ok; try lia.
Defined.

End MwModels.
