(* ===== verification/Transactions.v ===== *)
(** * Transactions ([src/main.h], [src/main.cpp])

    The classes [COutPoint], [CTxIn], [CTxOut] and [CTransaction], their
    encodings, the classification and the amounts of a transaction, and the
    output markers of the pools.  The build has [ENABLE_MWEB]. *)

From S2P Require Import Prelude Crypto Serialize BigNum Script MwModels.
Import Stream MwModels Script.

Module Transactions.

(** ** Amounts *)

Definition COIN : Z := 100000000.
Definition CENT : Z := 1000000.
Definition MAX_MONEY : Z := 1000 * 1000000 * COIN.
Definition MIN_TX_FEE : Z := 42000000.
Definition MIN_RELAY_TX_FEE : Z := MIN_TX_FEE.
Definition MARYJ_DECOY_FEE : Z := 42000000.
Definition MARYJ_STANDARD_FEE : Z := 420000000.
Definition MARYJ_POOL_FEE : Z := 4200000000.
Definition MAX_BLOCK_SIZE : Z := 1000000.
Definition MAX_BLOCK_SIZE_GEN : Z := MAX_BLOCK_SIZE / 2.
Definition LOCKTIME_THRESHOLD : Z := 500000000.
Definition FEE_TIER_ACTIVATION_HEIGHT : Z := 60000.
Definition L5_GRAPH_NORM_ACTIVATION_HEIGHT : Z := 60000.
Definition CANONICAL_OPRETURN_LEN : Z := 35.
Definition CT_TX_VERSION : Z := 2.
Definition CURRENT_VERSION : Z := 1.

Definition MoneyRange (nValue : Z) : bool := (0 <=? nValue) && (nValue <=? MAX_MONEY).

(** ** The classes *)

Record COutPoint := { hash : uint256; n : Z }.
Record CTxIn := { prevout : COutPoint; scriptSig : bytes; nSequence : Z }.
Record CTxOut := { nValue : Z; scriptPubKey : bytes }.
Record CTransaction := {
  nVersion : Z; nTime : Z; vin : list CTxIn; vout : list CTxOut; nLockTime : Z; mwTx : CMWTransaction
}.

#[export] Instance COutPoint_eq_dec : EqDecision COutPoint.
Proof. solve_decision. Defined.
#[export] Instance COutPoint_countable : Countable COutPoint.
Proof.
  refine (inj_countable' (fun o => (hash o, n o)) (fun '(h, i) => {| hash := h; n := i |}) _). by intros [].
Defined.
#[export] Instance CTxIn_eq_dec : EqDecision CTxIn.
Proof. solve_decision. Defined.
#[export] Instance CTxOut_eq_dec : EqDecision CTxOut.
Proof. solve_decision. Defined.

Definition UINT_MAX : Z := 2 ^ 32 - 1.

Definition outpoint_IsNull (o : COutPoint) : bool := (hash o =? 0) && (n o =? UINT_MAX).
Definition txin_IsFinal (i : CTxIn) : bool := nSequence i =? UINT_MAX.
Definition null_txout : CTxOut := {| nValue := -1; scriptPubKey := [] |}.
Definition IsEmpty (o : CTxOut) : bool := (nValue o =? 0) && bool_decide (scriptPubKey o = []).

(** A default-constructed extension transaction. *)
Definition null_mwTx : CMWTransaction :=
  {| t_body := {| vInputs := []; vOutputs := []; vKernels := [] |}; t_offset := null_blind |}.

Definition HasMWEB (tx : CTransaction) : bool := (CT_TX_VERSION <=? nVersion tx) && negb (tx_IsNull (mwTx tx)).
Definition IsCoinBase (tx : CTransaction) : bool :=
  match vin tx with
  | [i] => outpoint_IsNull (prevout i) && (1 <=? len (vout tx))
  | _ => false
  end.
Definition IsCoinStake (tx : CTransaction) : bool :=
  match vin tx, vout tx with
  | i :: _, o :: _ :: _ => negb (outpoint_IsNull (prevout i)) && IsEmpty o
  | _, _ => false
  end.

(** [nBestHeight] and [GetAdjustedTime()] stand in for a height and a time of zero. *)
Definition IsFinal (nBestHeight adjustedTime : Z) (tx : CTransaction) (nBlockHeight nBlockTime : Z) : bool :=
  if nLockTime tx =? 0 then true
  else
    let nBlockHeight := if nBlockHeight =? 0 then nBestHeight else nBlockHeight in
    let nBlockTime := if nBlockTime =? 0 then adjustedTime else nBlockTime in
    if nLockTime tx <? (if nLockTime tx <? LOCKTIME_THRESHOLD then nBlockHeight else nBlockTime) then true
    else forallb txin_IsFinal (vin tx).

(** The loop over the sequence numbers: [fNewer] and [nLowest]. *)
Definition newer_step (acc : bool * Z) (p : CTxIn * CTxIn) : bool * Z :=
  let '(fNewer, nLowest) := acc in
  let '(new, old) := p in
  if nSequence new =? nSequence old then (fNewer, nLowest)
  else
    let '(fNewer, nLowest) := if nSequence new <=? nLowest then (false, nSequence new) else (fNewer, nLowest) in
    if nSequence old <? nLowest then (true, nSequence old) else (fNewer, nLowest).

Definition IsNewerThan (tx old : CTransaction) : bool :=
  if negb (len (vin tx) =? len (vin old)) then false
  else if negb (bool_decide (map prevout (vin tx) = map prevout (vin old))) then false
  else (fold_left newer_step (combine (vin tx) (vin old)) (false, UINT_MAX)).1.

(** One turn of the loop; [None] is the exception for a value out of range. *)
Definition add_value (acc : option Z) (o : CTxOut) : option Z :=
  match acc with
  | None => None
  | Some nValueOut =>
      let nValueOut := i64 (nValueOut + nValue o) in
      if negb (MoneyRange (nValue o)) || negb (MoneyRange nValueOut) then None else Some nValueOut
  end.

Definition GetValueOut (tx : CTransaction) : option Z := fold_left add_value (vout tx) (Some 0).

Definition GetLegacySigOpCount (tx : CTransaction) : Z :=
  fold_left (fun nSigOps o => u32 (nSigOps + GetSigOpCount (scriptPubKey o) false)) (vout tx)
    (fold_left (fun nSigOps i => u32 (nSigOps + GetSigOpCount (scriptSig i) false)) (vin tx) 0).

(** ** Fees *)

Inductive GetMinFee_mode := GMF_BLOCK | GMF_RELAY | GMF_SEND.

Definition GetMinFee (tx : CTransaction) (nBlockSize : Z) (mode : GetMinFee_mode) (nBytes : Z) : Z :=
  let nBaseFee := match mode with GMF_RELAY => MIN_RELAY_TX_FEE | _ => MIN_TX_FEE end in
  let nNewBlockSize := u32 (nBlockSize + nBytes) in
  let nMinFee := i64 ((1 + nBytes / 1000) * nBaseFee) in
  let nMinFee :=
    if (nMinFee <? nBaseFee) && existsb (fun o => nValue o <? CENT) (vout tx) then nBaseFee else nMinFee in
  if negb (nBlockSize =? 1) && (MAX_BLOCK_SIZE_GEN / 2 <=? nNewBlockSize) && (MAX_BLOCK_SIZE_GEN <=? nNewBlockSize)
  then MAX_MONEY
  else
    let nMinFee :=
      if negb (nBlockSize =? 1) && (MAX_BLOCK_SIZE_GEN / 2 <=? nNewBlockSize)
      then i64 (nMinFee * (MAX_BLOCK_SIZE_GEN / (MAX_BLOCK_SIZE_GEN - nNewBlockSize))) else nMinFee in
    if negb (MoneyRange nMinFee) then MAX_MONEY else nMinFee.

(** ** Markers *)

(** An output that carries no value and whose script starts with the bytes [p],
    of [size] bytes in all. *)
Definition marked (size : Z) (p : bytes) (o : CTxOut) : bool :=
  (nValue o =? 0) && (len (scriptPubKey o) =? size) && bool_decide (take (length p) (scriptPubKey o) = p).

Definition HasStealthMarker (tx : CTransaction) : bool := existsb (marked 35 [0x6a; 0x21]) (vout tx).
(** "PEGOUT" and "BRIDGE" *)
Definition HasPegoutMarker (tx : CTransaction) : bool :=
  existsb (marked 8 [0x6a; 0x06; 0x50; 0x45; 0x47; 0x4f; 0x55; 0x54]) (vout tx).
Definition HasBridgeMarker (tx : CTransaction) : bool :=
  existsb (marked 8 [0x6a; 0x06; 0x42; 0x52; 0x49; 0x44; 0x47; 0x45]) (vout tx).

Inductive PoolType := POOL_TRANSPARENT | POOL_SHIELDED.

Definition GetOutputPool (tx : CTransaction) : PoolType :=
  if IsCoinStake tx || IsCoinBase tx then POOL_TRANSPARENT
  else if HasPegoutMarker tx then POOL_TRANSPARENT
  else if HasStealthMarker tx then POOL_SHIELDED
  else POOL_TRANSPARENT.

Definition GetTxTypeFeeFloor (tx : CTransaction) (nHeight : Z) : Z :=
  if nHeight <? FEE_TIER_ACTIVATION_HEIGHT then 0
  else if IsCoinBase tx || IsCoinStake tx then 0
  else if HasBridgeMarker tx then MARYJ_STANDARD_FEE
  else
    let fPegIn := HasMWEB tx && (0 <? GetTotalPegIn (t_body (mwTx tx))) in
    if HasPegoutMarker tx || fPegIn then MARYJ_POOL_FEE
    else if HasStealthMarker tx then MARYJ_STANDARD_FEE
    else MARYJ_DECOY_FEE.

Definition CheckCanonicalStructure (tx : CTransaction) (nHeight : Z) : bool :=
  if nHeight <? L5_GRAPH_NORM_ACTIVATION_HEIGHT then true
  else if IsCoinBase tx || IsCoinStake tx || HasPegoutMarker tx then true
  else
    forallb
      (fun o =>
         let spk := scriptPubKey o in
         if (1 <=? len spk) && (at_ 0 spk 0 =? 0x6a) then len spk =? CANONICAL_OPRETURN_LEN else true)
      (vout tx).

(** ** Encodings *)

(** The exception an object throws when it is read. *)
Definition c_require {A} (ok : bool) (c : codec A) : codec A := {|
  Serialize := Serialize c;
  Unserialize := if ok then Unserialize c else fail;
  GetSerializeSize := GetSerializeSize c;
  wf := fun x => ok = true /\ wf c x |}.

Definition c_outpoint : codec COutPoint :=
  c_record (c_uint 32 ⊗ c_uint 4) (fun o => (hash o, n o)) (fun '(h, i) => {| hash := h; n := i |}).

Definition c_txin : codec CTxIn :=
  c_record (c_outpoint ⊗ c_script ⊗ c_uint 4) (fun i => (prevout i, scriptSig i, nSequence i))
    (fun '(p, s, q) => {| prevout := p; scriptSig := s; nSequence := q |}).

Definition c_txout : codec CTxOut :=
  c_record (c_sint 8 ⊗ c_script) (fun o => (nValue o, scriptPubKey o))
    (fun '(v, s) => {| nValue := v; scriptPubKey := s |}).

Definition c_tx : codec CTransaction :=
  c_record
    (c_dep (c_sint 4) (fun v =>
       c_require (1 <=? v)
         (c_uint 4 ⊗ c_vector c_txin ⊗ c_vector c_txout ⊗ c_uint 4
          ⊗ c_when (CT_TX_VERSION <=? v) c_transaction null_mwTx)))
    (fun t => (nVersion t, (nTime t, vin t, vout t, nLockTime t, mwTx t)))
    (fun '(v, (t, i, o, l, m)) =>
       {| nVersion := v; nTime := t; vin := i; vout := o; nLockTime := l; mwTx := m |}).

Definition GetHash `{Sha256} (tx : CTransaction) : uint256 := sha256_twice (Serialize c_tx tx).

(** * Properties *)

(** ** Encodings *)

#[export] Instance c_require_laws {A} ok (c : codec A) `{Laws A c} : Laws (c_require ok c).
Proof.
  split; cbn.
  - intros x s [-> Hx]. by apply unserialize_serialize.
  - intros x [_ Hx]. by apply serialize_size.
  - intros x [_ Hx]. by apply serialize_bytes.
Qed.
#[export] Instance c_require_canonical {A} ok (c : codec A) `{Canonical A c} : Canonical (c_require ok c).
Proof.
  intros s x s' Hs E. cbn in *. destruct ok; [|done]. apply canonical in E as [-> Hx]; [|done]. done.
Qed.

#[export] Instance outpoint_fields : Fields (fun o => (hash o, n o)) (fun '(h, i) => {| hash := h; n := i |}).
Proof. split; [by intros []|by intros []]. Qed.
#[export] Instance txin_fields :
  Fields (fun i => (prevout i, scriptSig i, nSequence i))
    (fun '(p, s, q) => {| prevout := p; scriptSig := s; nSequence := q |}).
Proof. split; [by intros []|by intros [[] ?]]. Qed.
#[export] Instance txout_fields :
  Fields (fun o => (nValue o, scriptPubKey o)) (fun '(v, s) => {| nValue := v; scriptPubKey := s |}).
Proof. split; [by intros []|by intros []]. Qed.
#[export] Instance tx_fields :
  Fields (fun t => (nVersion t, (nTime t, vin t, vout t, nLockTime t, mwTx t)))
    (fun '(v, (t, i, o, l, m)) =>
       {| nVersion := v; nTime := t; vin := i; vout := o; nLockTime := l; mwTx := m |}).
Proof. split; [by intros []|by intros [? [[[[] ?] ?] ?]]]. Qed.

#[export] Instance c_script_laws : Laws c_script := _.
#[export] Instance c_script_canonical : Canonical c_script := _.
#[export] Instance outpoint_laws : Laws c_outpoint := _.
#[export] Instance outpoint_canonical : Canonical c_outpoint := _.
#[export] Instance txin_laws : Laws c_txin := _.
#[export] Instance txin_canonical : Canonical c_txin := _.
#[export] Instance txout_laws : Laws c_txout := _.
#[export] Instance txout_canonical : Canonical c_txout := _.
#[export] Instance tx_laws : Laws c_tx := _.
#[export] Instance tx_canonical : Canonical c_tx := _.

(** A transaction, with its extension part from version 2 on, is read back from its
    encoding, and an encoding that is accepted is the encoding of what is read. *)
Theorem transaction_encoding :
  (forall tx rest, wf c_tx tx -> Unserialize c_tx (Serialize c_tx tx ++ rest) = Some (tx, rest)) /\
  (forall s tx rest, bytes_ok s -> Unserialize c_tx s = Some (tx, rest) -> s = Serialize c_tx tx ++ rest).
Proof.
  split.
  - intros tx rest. apply unserialize_serialize.
  - intros s tx rest Hs E. by apply canonical in E as [-> _].
Qed.

(** ** Amounts *)

Definition values (l : list CTxOut) : Z := fold_right (fun o t => nValue o + t) 0 l.

Lemma values_nonneg l : Forall (fun o => 0 <= nValue o <= MAX_MONEY) l -> 0 <= values l.
Proof. induction 1 as [|o l Ho Hl IH]; cbn [values fold_right]; [lia|]. fold (values l). lia. Qed.

Lemma add_values_none l : fold_left add_value l None = None.
Proof. by induction l. Qed.

Lemma MoneyRange_true z : MoneyRange z = true <-> 0 <= z <= MAX_MONEY.
Proof. unfold MoneyRange. lia. Qed.

Lemma add_values l acc v :
  0 <= acc <= MAX_MONEY -> Forall (fun o => - 2 ^ 63 <= nValue o < 2 ^ 63) l ->
  fold_left add_value l (Some acc) = Some v <->
  Forall (fun o => 0 <= nValue o <= MAX_MONEY) l /\ acc + values l <= MAX_MONEY /\ v = acc + values l.
Proof.
  intros Hacc Hb. revert acc Hacc. induction Hb as [|o l Ho Hb IH]; intros acc Hacc; cbn [fold_left values fold_right].
  { rewrite Z.add_0_r. split; [intros [= ->]; split_and!; [constructor|lia|done]|by intros (_ & _ & ->)]. }
  cbn [add_value]. cbv zeta. fold (values l). rewrite Forall_cons.
  assert (MAX_MONEY = 100000000000000000) as HM by done.
  destruct (MoneyRange (nValue o)) eqn:E1; cbn [negb orb].
  - apply MoneyRange_true in E1. rewrite (i64_id (acc + nValue o)) by lia.
    destruct (MoneyRange (acc + nValue o)) eqn:E2; cbn [negb].
    + apply MoneyRange_true in E2. rewrite IH by lia. rewrite Z.add_assoc. tauto.
    + rewrite add_values_none. split; [done|]. intros ([_ Hl] & Hle & _). apply values_nonneg in Hl.
      assert (MoneyRange (acc + nValue o) = true) by (apply MoneyRange_true; lia). congruence.
  - rewrite add_values_none. split; [done|]. intros ([Hv _] & _). apply MoneyRange_true in Hv. congruence.
Qed.

(** The value of a transaction's outputs is their sum; it is defined exactly when
    every output and the sum are amounts of money, so no wrap of the 64-bit total
    goes unnoticed. *)
Theorem value_out_sum tx v :
  Forall (fun o => - 2 ^ 63 <= nValue o < 2 ^ 63) (vout tx) ->
  GetValueOut tx = Some v <->
  Forall (fun o => 0 <= nValue o <= MAX_MONEY) (vout tx) /\ values (vout tx) <= MAX_MONEY /\ v = values (vout tx).
Proof. intros Hb. unfold GetValueOut. by rewrite add_values by done. Qed.

(** The minimum fee of a transaction that fits in a block is an amount of money, and
    at least the base fee. *)
Theorem min_fee_range tx nBlockSize mode nBytes :
  0 <= nBytes <= MAX_BLOCK_SIZE -> MIN_TX_FEE <= GetMinFee tx nBlockSize mode nBytes <= MAX_MONEY.
Proof.
  intros Hn. unfold GetMinFee. cbv zeta.
  assert ((match mode with GMF_RELAY => MIN_RELAY_TX_FEE | _ => MIN_TX_FEE end) = 42000000) as -> by by destruct mode.
  assert (MIN_TX_FEE = 42000000) as -> by done. assert (MAX_MONEY = 100000000000000000) as HM by done.
  assert (MAX_BLOCK_SIZE = 1000000) as HB by done. assert (MAX_BLOCK_SIZE_GEN = 500000) as HG by done.
  assert (0 <= nBytes / 1000 <= 1000) as Hq by (split; [apply Z.div_pos; lia|]; apply Z.lt_succ_r, Z.div_lt_upper_bound; lia).
  rewrite (i64_id ((1 + nBytes / 1000) * 42000000)) by lia.
  set (fee := if _ && existsb _ _ then _ else _). assert (42000000 <= fee <= 42000000 * 1001) as Hfee
    by (unfold fee; destruct (_ && _); lia). clearbody fee.
  set (new := u32 (nBlockSize + nBytes)). pose proof (u32_range (nBlockSize + nBytes)) as Hnew. fold new in Hnew.
  rewrite HG. destruct (negb (nBlockSize =? 1) && (500000 / 2 <=? new)) eqn:E; cbn [andb].
  - destruct (Z.leb_spec 500000 new); [lia|].
    assert (1 <= 500000 / (500000 - new) <= 500000).
    { split; [apply Z.div_le_lower_bound; lia|]. apply Z.div_le_upper_bound; lia. }
    rewrite i64_id by nia. destruct (MoneyRange _) eqn:Em; cbn [negb]; [apply MoneyRange_true in Em; nia|lia].
  - destruct (MoneyRange fee) eqn:Em; cbn [negb]; lia.
Qed.

(** ** Instances *)

Definition sample_tx : CTransaction := {|
  nVersion := 1; nTime := 1700000000;
  vin := [{| prevout := {| hash := 5; n := 1 |}; scriptSig := [OP_1]; nSequence := UINT_MAX |}];
  vout := [{| nValue := 7 * COIN; scriptPubKey := [OP_DUP; OP_HASH160] |}; {| nValue := 3; scriptPubKey := [OP_RETURN] |}];
  nLockTime := 0; mwTx := null_mwTx |}.

Ltac prove_wf :=
  repeat match goal with
  | |- wf _ _ => split
  | |- Forall _ _ => constructor
  | |- _ /\ _ => split
  end; try done; vm_compute; try done; try (repeat constructor; done).

Lemma sample_tx_wf : wf c_tx sample_tx.
Proof. prove_wf. Qed.

Lemma transaction_encoding_witness :
  Unserialize c_tx (Serialize c_tx sample_tx ++ [9]) = Some (sample_tx, [9]).
Proof.
  destruct transaction_encoding as [Hr _]. apply Hr, sample_tx_wf.
Defined.

Lemma value_out_sum_witness : GetValueOut sample_tx = Some (7 * COIN + 3).
Proof.
  apply (value_out_sum sample_tx).
  - repeat (constructor; [by vm_compute|]). constructor.
  - split_and!; [repeat (constructor; [by vm_compute|]); constructor|by vm_compute|by vm_compute].
Defined.

End Transactions.
