(* ===== verification/Merkle.v ===== *)
(** * Merkle trees of transactions ([src/main.h], [src/main.cpp])

    The tree a block builds over the hashes of its transactions, the branches that
    connect a transaction to the root ([CBlock]), and the partial trees that are
    sent to clients that filter ([CPartialMerkleTree]).  The functions take the
    hashes of the transactions. *)

From S2P Require Import Prelude Crypto Serialize Transactions.

Module Merkle.
Import Stream Transactions.

(** ** The tree of a block *)

Section tree.
Context `{Sha256}.

(** [Hash(BEGIN(a), END(a), BEGIN(b), END(b))] *)
Definition Hash2 (a b : uint256) : uint256 := sha256_twice (uint256_bytes a ++ uint256_bytes b).

(** One turn of the inner loop. *)
Definition push_pair (j nSize : Z) (vMerkleTree : list uint256) (i : Z) : list uint256 :=
  let i2 := Z.min (i + 1) (nSize - 1) in
  vMerkleTree ++ [Hash2 (at_ 0 vMerkleTree (j + i)) (at_ 0 vMerkleTree (j + i2))].

(** The values of [i] in [for (i = 0; i < nSize; i += 2)]. *)
Definition evens (nSize : Z) : list Z := map (Z.mul 2) (seqZ 0 ((nSize + 1) / 2)).

Fixpoint tree_loop (fuel : nat) (j nSize : Z) (vMerkleTree : list uint256) : list uint256 :=
  match fuel with
  | O => vMerkleTree
  | S fuel =>
      if nSize <=? 1 then vMerkleTree
      else tree_loop fuel (j + nSize) ((nSize + 1) / 2) (fold_left (push_pair j nSize) (evens nSize) vMerkleTree)
  end.

(** The vector [vMerkleTree]; the number of transactions is an [int], so 32 levels
    are enough. *)
Definition merkle_tree (vtxid : list uint256) : list uint256 := tree_loop 32 0 (len vtxid) vtxid.

Definition BuildMerkleTree (vtxid : list uint256) : uint256 := List.last (merkle_tree vtxid) 0.

(** ** Branches *)

Fixpoint branch_loop (fuel : nat) (vMerkleTree : list uint256) (j nSize nIndex : Z) : list uint256 :=
  match fuel with
  | O => []
  | S fuel =>
      if nSize <=? 1 then []
      else
        let i := Z.min (Z.lxor nIndex 1) (nSize - 1) in
        at_ 0 vMerkleTree (j + i) :: branch_loop fuel vMerkleTree (j + nSize) ((nSize + 1) / 2) (Z.shiftr nIndex 1)
  end.

Definition GetMerkleBranch (vtxid : list uint256) (nIndex : Z) : list uint256 :=
  branch_loop 32 (merkle_tree vtxid) 0 (len vtxid) nIndex.

(** One turn of the loop, on [hash] and [nIndex]. *)
Definition join (st : uint256 * Z) (otherside : uint256) : uint256 * Z :=
  let '(hash, nIndex) := st in
  (if negb (Z.land nIndex 1 =? 0) then Hash2 otherside hash else Hash2 hash otherside, Z.shiftr nIndex 1).

Definition CheckMerkleBranch (hash : uint256) (vMerkleBranch : list uint256) (nIndex : Z) : uint256 :=
  if nIndex =? -1 then 0 else (fold_left join vMerkleBranch (hash, nIndex)).1.

(** ** Partial trees *)

Record CPartialMerkleTree := { nTransactions : Z; vBits : list bool; vHash : list uint256; fBad : bool }.

Definition CalcTreeWidth (nTransactions : Z) (height : nat) : Z :=
  Z.shiftr (u32 (nTransactions + Z.shiftl 1 (Z.of_nat height) - 1)) (Z.of_nat height).

Fixpoint CalcHash (n : Z) (vTxid : list uint256) (height : nat) (pos : Z) : uint256 :=
  match height with
  | O => at_ 0 vTxid pos
  | S h =>
      let hl := CalcHash n vTxid h (u32 (pos * 2)) in
      let hr := if u32 (u32 (pos * 2) + 1) <? CalcTreeWidth n h then CalcHash n vTxid h (u32 (u32 (pos * 2) + 1)) else hl in
      Hash2 hl hr
  end.

(** The leaves below a node, [p < (pos+1) << height && p < nTransactions]. *)
Definition leaves_below (n : Z) (height : nat) (pos : Z) : list Z :=
  let lo := u32 (Z.shiftl pos (Z.of_nat height)) in
  seqZ lo (Z.min (u32 (Z.shiftl (u32 (pos + 1)) (Z.of_nat height))) n - lo).

Definition parent_of_match (n : Z) (vMatch : list bool) (height : nat) (pos : Z) : bool :=
  existsb (at_ false vMatch) (leaves_below n height pos).

(** The bits and the hashes that are pushed, in order. *)
Fixpoint TraverseAndBuild (n : Z) (vTxid : list uint256) (vMatch : list bool) (height : nat) (pos : Z)
    : list bool * list uint256 :=
  let fParentOfMatch := parent_of_match n vMatch height pos in
  match height with
  | O => ([fParentOfMatch], [CalcHash n vTxid O pos])
  | S h =>
      if negb fParentOfMatch then ([fParentOfMatch], [CalcHash n vTxid height pos])
      else
        let '(b1, h1) := TraverseAndBuild n vTxid vMatch h (u32 (pos * 2)) in
        let '(b2, h2) := if u32 (u32 (pos * 2) + 1) <? CalcTreeWidth n h
                         then TraverseAndBuild n vTxid vMatch h (u32 (u32 (pos * 2) + 1)) else ([], []) in
        (fParentOfMatch :: b1 ++ b2, h1 ++ h2)
  end.

(** [while (CalcTreeWidth(nHeight) > 1) nHeight++] *)
Fixpoint tree_height (fuel : nat) (n : Z) (nHeight : nat) : nat :=
  match fuel with
  | O => nHeight
  | S fuel => if 1 <? CalcTreeWidth n nHeight then tree_height fuel n (S nHeight) else nHeight
  end.

Definition partial_tree (vTxid : list uint256) (vMatch : list bool) : CPartialMerkleTree :=
  let n := len vTxid in
  let '(b, h) := TraverseAndBuild n vTxid vMatch (tree_height 32 n 0) 0 in
  {| nTransactions := n; vBits := b; vHash := h; fBad := false |}.

(** What the extraction changes: the bits and hashes used, [fBad] and [vMatch]. *)
Record extraction := { nBitsUsed : Z; nHashUsed : Z; bad : bool; vMatch : list uint256 }.
Definition spoil (s : extraction) : extraction :=
  {| nBitsUsed := nBitsUsed s; nHashUsed := nHashUsed s; bad := true; vMatch := vMatch s |}.
Definition use_bit (s : extraction) : extraction :=
  {| nBitsUsed := nBitsUsed s + 1; nHashUsed := nHashUsed s; bad := bad s; vMatch := vMatch s |}.
Definition use_hash (s : extraction) : extraction :=
  {| nBitsUsed := nBitsUsed s; nHashUsed := nHashUsed s + 1; bad := bad s; vMatch := vMatch s |}.
Definition push_match (s : extraction) (h : uint256) : extraction :=
  {| nBitsUsed := nBitsUsed s; nHashUsed := nHashUsed s; bad := bad s; vMatch := vMatch s ++ [h] |}.

(** A node whose hash is read: a leaf, or a subtree without a match. *)
Definition extract_hash (t : CPartialMerkleTree) (leaf_match : bool) (s : extraction) : uint256 * extraction :=
  if len (vHash t) <=? nHashUsed s then (0, spoil s)
  else
    let hash := at_ 0 (vHash t) (nHashUsed s) in
    let s := use_hash s in
    (hash, if leaf_match then push_match s hash else s).

Fixpoint TraverseAndExtract (t : CPartialMerkleTree) (height : nat) (pos : Z) (s : extraction) : uint256 * extraction :=
  if len (vBits t) <=? nBitsUsed s then (0, spoil s)
  else
    let fParentOfMatch := at_ false (vBits t) (nBitsUsed s) in
    let s := use_bit s in
    match height with
    | O => extract_hash t fParentOfMatch s
    | S h =>
        if negb fParentOfMatch then extract_hash t false s
        else
          let '(hl, s) := TraverseAndExtract t h (u32 (pos * 2)) s in
          let '(hr, s) := if u32 (u32 (pos * 2) + 1) <? CalcTreeWidth (nTransactions t) h
                          then TraverseAndExtract t h (u32 (u32 (pos * 2) + 1)) s else (hl, s) in
          (Hash2 hl hr, s)
    end.

(** The root (0 when the tree is refused) and [vMatch]. *)
Definition ExtractMatches (t : CPartialMerkleTree) : uint256 * list uint256 :=
  if nTransactions t =? 0 then (0, [])
  else if MAX_BLOCK_SIZE / 60 <? nTransactions t then (0, [])
  else if nTransactions t <? len (vHash t) then (0, [])
  else if len (vBits t) <? len (vHash t) then (0, [])
  else
    let '(hashMerkleRoot, s) :=
      TraverseAndExtract t (tree_height 32 (nTransactions t) 0) 0
        {| nBitsUsed := 0; nHashUsed := 0; bad := fBad t; vMatch := [] |} in
    if bad s then (0, vMatch s)
    else if negb ((nBitsUsed s + 7) / 8 =? (len (vBits t) + 7) / 8) then (0, vMatch s)
    else if negb (nHashUsed s =? len (vHash t)) then (0, vMatch s)
    else (hashMerkleRoot, vMatch s).

(** ** The encoding of the bits *)

(** [vBytes[p / 8] |= vBits[p] << (p % 8)] *)
Definition set_bit (vBits : list bool) (vBytes : bytes) (p : Z) : bytes :=
  let k := Z.to_nat (p / 8) in
  <[k := Z.lor (nth k vBytes 0) (Z.shiftl (Z.b2z (at_ false vBits p)) (p mod 8))]> vBytes.
Definition pack_bits (vBits : list bool) : bytes :=
  fold_left (set_bit vBits) (seqZ 0 (len vBits)) (replicate (Z.to_nat ((len vBits + 7) / 8)) 0).

(** [vBits[p] = (vBytes[p / 8] & (1 << (p % 8))) != 0] *)
Definition unpack_bits (vBytes : bytes) : list bool :=
  map (fun p => negb (Z.land (at_ 0 vBytes (p / 8)) (Z.shiftl 1 (p mod 8)) =? 0)) (seqZ 0 (len vBytes * 8)).

Definition c_partial_tree : codec (Z * list uint256 * bytes) :=
  c_tuple3 (c_uint 4) (c_vector (c_uint 32)) c_bytes.
Definition write_tree (t : CPartialMerkleTree) : bytes :=
  Serialize c_partial_tree (nTransactions t, vHash t, pack_bits (vBits t)).
Definition read_tree (s : bytes) : option (CPartialMerkleTree * bytes) :=
  match Unserialize c_partial_tree s with
  | None => None
  | Some ((n, h, b), s) => Some ({| nTransactions := n; vBits := unpack_bits b; vHash := h; fBad := false |}, s)
  end.
End tree.

(** * Properties *)

(** The reference: a level from the one below it, the last hash paired with itself
    when there is no other, until one hash is left. *)
Fixpoint pair_up `{Sha256} (l : list uint256) : list uint256 :=
  match l with
  | a :: b :: l' => Hash2 a b :: pair_up l'
  | [a] => [Hash2 a a]
  | [] => []
  end.

Inductive root_of `{Sha256} : list uint256 -> uint256 -> Prop :=
| root_one a : root_of [a] a
| root_more a b l r : root_of (pair_up (a :: b :: l)) r -> root_of (a :: b :: l) r.

Definition hash_ok (h : uint256) : Prop := 0 <= h < 2 ^ 256.
#[export] Instance hash_ok_dec h : Decision (hash_ok h).
Proof. unfold hash_ok. apply _. Defined.

(** Two different messages of two hashes with one digest. *)
Definition collision `{Sha256} : Prop :=
  exists x y, x <> y /\ length x = 64%nat /\ length y = 64%nat /\ sha256_twice x = sha256_twice y.

(** The matched transactions, in the order of the block. *)
Fixpoint matched (l : list uint256) (m : list bool) : list uint256 :=
  match l, m with
  | a :: l, b :: m => if b then a :: matched l m else matched l m
  | _, _ => []
  end.

Section laws.
Context `{Sha256}.

(** ** Levels *)

Lemma pair_ind {A} (P : list A -> Prop) :
  P [] -> (forall a, P [a]) -> (forall a b l, P l -> P (a :: b :: l)) -> forall l, P l.
Proof.
  intros H0 H1 H2. enough (forall l, P l /\ forall a, P (a :: l)) as He by (intros l; apply He).
  induction l as [|a l [IH1 IH2]]; split; auto.
Qed.

Lemma pair_up_len l : len (pair_up l) = (len l + 1) / 2.
Proof.
  induction l as [|a|a b l IH] using pair_ind; [done|done|]. cbn [pair_up]. lens. rewrite IH.
  rewrite <-Z.div_add_l by lia. f_equal. lia.
Qed.

Lemma pair_up_at l k :
  0 <= k -> 2 * k < len l ->
  at_ 0 (pair_up l) k = Hash2 (at_ 0 l (2 * k)) (at_ 0 l (Z.min (2 * k + 1) (len l - 1))).
Proof.
  revert k. induction l as [|a|a b l IH] using pair_ind; intros k Hk Hl; lens.
  - lia.
  - assert (k = 0) as -> by lia. done.
  - cbn [pair_up]. destruct (Z.eq_dec k 0) as [->|Hk0].
    { replace (Z.min (2 * 0 + 1) (1 + (1 + len l) - 1)) with 1 by (pose proof (len_pos l); lia). done. }
    assert (forall (x : Z) (t : list Z) i, 0 < i -> at_ 0 (x :: t) i = at_ 0 t (i - 1)) as Hat.
    { intros x t i Hi. change t with (drop 1 (x :: t)) at 2. rewrite at_drop by lia. f_equal. lia. }
    rewrite !Hat by lia. rewrite IH by lia. f_equal; f_equal; lia.
Qed.

Lemma pair_up_nonempty l : 0 < len l -> 0 < len (pair_up l).
Proof. rewrite pair_up_len. intros. apply Z.div_str_pos. lia. Qed.

(** The levels above a level. *)
Fixpoint above (fuel : nat) (cur : list uint256) : list uint256 :=
  match fuel with
  | O => []
  | S fuel => if len cur <=? 1 then [] else pair_up cur ++ above fuel (pair_up cur)
  end.

(** The inner loop writes a level. *)
Lemma inner_loop pre cur :
  fold_left (push_pair (len pre) (len cur)) (evens (len cur)) (pre ++ cur) = pre ++ cur ++ pair_up cur.
Proof.
  assert (forall k : nat, Z.of_nat k <= len (pair_up cur) ->
    fold_left (push_pair (len pre) (len cur)) (map (Z.mul 2) (seqZ 0 (Z.of_nat k))) (pre ++ cur) =
    pre ++ cur ++ take k (pair_up cur)) as Hk.
  { induction k as [|k IH]; intros Hk; [by rewrite take_0, app_nil_r|].
    rewrite Nat2Z.inj_succ, <-Z.add_1_r, seqZ_app, map_app, fold_left_app, IH by lia.
    assert (seqZ (0 + Z.of_nat k) 1 = [Z.of_nat k]) as -> by (unfold seqZ; cbn; f_equal; lia).
    cbn [map fold_left].
    rewrite pair_up_len in Hk. assert (2 * Z.of_nat k < len cur) as Hc.
    { assert (Z.of_nat (S k) <= (len cur + 1) / 2) as Hd by lia. pose proof (Z.mul_div_le (len cur + 1) 2 ltac:(lia)). lia. }
    unfold push_pair.
    rewrite !at_app_r, !at_app_l by lia. rewrite <-pair_up_at by lia.
    assert (pair_up cur !! k = Some (at_ 0 (pair_up cur) (Z.of_nat k))) as Hl.
    { rewrite <-(Nat2Z.id k) at 1. apply at_lookup_lt. fold (len (pair_up cur)). rewrite pair_up_len. lia. }
    rewrite (take_S_r _ _ _ Hl), <-!app_assoc. done. }
  unfold evens. rewrite <-pair_up_len. specialize (Hk (length (pair_up cur))).
  rewrite firstn_all in Hk. apply Hk. unfold len. lia.
Qed.

Lemma tree_loop_levels fuel pre cur : tree_loop fuel (len pre) (len cur) (pre ++ cur) = pre ++ cur ++ above fuel cur.
Proof.
  revert pre cur. induction fuel as [|fuel IH]; intros pre cur; cbn [tree_loop above]; [by rewrite app_nil_r|].
  destruct (len cur <=? 1); [by rewrite app_nil_r|].
  rewrite inner_loop, <-len_app, <-pair_up_len, app_assoc, IH. by rewrite <-!app_assoc.
Qed.

Lemma merkle_tree_levels l : merkle_tree l = l ++ above 32 l.
Proof. apply (tree_loop_levels 32 [] l). Qed.

Lemma last_app_ne (l1 l2 : list Z) : l2 <> [] -> List.last (l1 ++ l2) 0 = List.last l2 0.
Proof.
  intros Hn. induction l1 as [|a l1 IH]; [done|]. cbn [app List.last]. rewrite IH. destruct (l1 ++ l2) eqn:E; [|done].
  apply app_eq_nil in E as [_ ->]. done.
Qed.

Lemma above_root fuel l : 0 < len l <= 2 ^ Z.of_nat fuel -> root_of l (List.last (l ++ above fuel l) 0).
Proof.
  revert l. induction fuel as [|fuel IH]; intros l Hl; cbn [above].
  - destruct l as [|a [|b l]]; [by destruct Hl|apply root_one|]. lens. pose proof (len_pos l). change (2 ^ Z.of_nat 0) with 1 in Hl. lia.
  - destruct l as [|a [|b l]]; [by destruct Hl|apply root_one|]. lens. pose proof (len_pos l).
    destruct (Z.leb_spec (1 + (1 + len l)) 1); [lia|].
    assert (0 < len (pair_up (a :: b :: l))) as Hp by (apply pair_up_nonempty; lens; lia).
    rewrite last_app_ne by (intros E%app_eq_nil; destruct E as [E _]; rewrite E in Hp; done).
    apply root_more, IH. split; [done|]. rewrite pair_up_len. lens.
    rewrite Nat2Z.inj_succ, Z.pow_succ_r in Hl by lia. apply Z.lt_succ_r, Z.div_lt_upper_bound; lia.
Qed.

Lemma root_of_fun l r1 r2 : root_of l r1 -> root_of l r2 -> r1 = r2.
Proof. intros H1. revert r2. induction H1; intros r2 H2; inversion H2; subst; auto. Qed.

(** The number of transactions is an [int]. *)
Lemma build_merkle_tree l : 0 < len l < 2 ^ 31 -> root_of l (BuildMerkleTree l).
Proof. intros Hl. unfold BuildMerkleTree. rewrite merkle_tree_levels. apply above_root. change (2 ^ Z.of_nat 32) with (2 * 2 ^ 31). lia. Qed.

(** ** Branches *)

Lemma land_1 i : negb (Z.land i 1 =? 0) = Z.odd i.
Proof.
  change 1 with (Z.ones 1). rewrite Z.land_ones by lia. change (2 ^ 1) with 2.
  rewrite Zmod_odd. by destruct (Z.odd i).
Qed.

Lemma lxor_1 i : Z.lxor i 1 = if Z.odd i then i - 1 else i + 1.
Proof.
  assert (forall j, Z.odd j = false -> Z.lxor j 1 = j + 1) as He.
  { intros j Hj. symmetry. apply Z.add_nocarry_lxor. rewrite <-land_1 in Hj. by apply negb_false_iff, Z.eqb_eq in Hj. }
  destruct (Z.odd i) eqn:E; [|by apply He].
  replace i with (i - 1 + 1) at 1 by lia. rewrite <-He by (by rewrite Z.odd_sub, E).
  by rewrite Z.lxor_assoc, Z.lxor_nilpotent, Z.lxor_0_r.
Qed.

Lemma root_up cur r : 1 < len cur -> root_of (pair_up cur) r -> root_of cur r.
Proof. destruct cur as [|a [|b cur]]; [done|done|]. intros _. apply root_more. Qed.

(** A turn of the check climbs one level. *)
Lemma join_climbs cur i :
  0 <= i < len cur -> 1 < len cur ->
  join (at_ 0 cur i, i) (at_ 0 cur (Z.min (Z.lxor i 1) (len cur - 1))) = (at_ 0 (pair_up cur) (Z.shiftr i 1), Z.shiftr i 1).
Proof.
  intros Hi Hn. unfold join. rewrite land_1, lxor_1, Z.shiftr_div_pow2 by lia. change (2 ^ 1) with 2.
  pose proof (Z.div_mod i 2 ltac:(lia)) as Hd. rewrite Zmod_odd in Hd. f_equal.
  rewrite pair_up_at by (destruct (Z.odd i); lia). destruct (Z.odd i); f_equal; f_equal; lia.
Qed.

Lemma branch_climbs fuel pre cur i :
  0 <= i < len cur -> len cur <= 2 ^ Z.of_nat fuel ->
  root_of cur (fold_left join (branch_loop fuel (pre ++ cur ++ above fuel cur) (len pre) (len cur) i) (at_ 0 cur i, i)).1.
Proof.
  revert pre cur i. induction fuel as [|fuel IH]; intros pre cur i Hi Hf; cbn [branch_loop above].
  - change (2 ^ Z.of_nat 0) with 1 in Hf. destruct cur as [|a [|b cur]]; lens; [lia|..].
    + assert (i = 0) as -> by lia. apply root_one.
    + pose proof (len_pos cur). lia.
  - destruct (Z.leb_spec (len cur) 1) as [|H1]; cbn [fold_left].
    { destruct cur as [|a [|b cur]]; [by destruct Hi; lens; lia| |lens; pose proof (len_pos cur); lia].
      lens. assert (i = 0) as -> by lia. apply root_one. }
    rewrite at_app_r, at_app_l by (rewrite lxor_1; destruct (Z.odd i) eqn:E; [destruct (Z.eq_dec i 0) as [->|]; [done|]|]; lia).
    rewrite join_climbs by done.
    apply root_up; [done|]. rewrite <-len_app, <-pair_up_len, (app_assoc pre). apply IH.
    + rewrite pair_up_len, Z.shiftr_div_pow2 by lia. change (2 ^ 1) with 2. split; [apply Z.div_pos; lia|].
      apply Z.div_lt_upper_bound; [lia|]. pose proof (Z.mul_succ_div_gt (len cur + 1) 2 ltac:(lia)). lia.
    + rewrite pair_up_len. rewrite Nat2Z.inj_succ, Z.pow_succ_r in Hf by lia. apply Z.lt_succ_r, Z.div_lt_upper_bound; lia.
Qed.

Lemma merkle_branch_root l i :
  0 <= i < len l -> len l < 2 ^ 31 -> CheckMerkleBranch (at_ 0 l i) (GetMerkleBranch l i) i = BuildMerkleTree l.
Proof.
  intros Hi Hl. apply (root_of_fun l); [|apply build_merkle_tree; lia].
  unfold CheckMerkleBranch, GetMerkleBranch. destruct (Z.eqb_spec i (-1)); [lia|]. rewrite merkle_tree_levels.
  apply (branch_climbs 32 [] l); [done|]. change (2 ^ Z.of_nat 32) with (2 * 2 ^ 31). lia.
Qed.

(** ** The nodes of a partial tree *)

Definition level (l : list uint256) (h : nat) : list uint256 := Nat.iter h pair_up l.

Lemma level_S l h : level l (S h) = pair_up (level l h).
Proof. done. Qed.

Lemma level_len l h : len (level l h) = (len l + 2 ^ Z.of_nat h - 1) / 2 ^ Z.of_nat h.
Proof.
  induction h as [|h IH]; [cbn [level Nat.iter nat_rect]; change (2 ^ Z.of_nat 0) with 1; rewrite Z.div_1_r; unfold level; cbn; lia|].
  rewrite level_S, pair_up_len, IH, Nat2Z.inj_succ, Z.pow_succ_r by lia. set (p := 2 ^ Z.of_nat h).
  assert (0 < p) by (apply Z.pow_pos_nonneg; lia). rewrite (Z.mul_comm 2 p), <-Z.div_div, <-Z.div_add by lia.
  f_equal. f_equal. lia.
Qed.

Lemma width_level l h : 0 < len l <= 2 ^ 30 -> (h <= 30)%nat -> CalcTreeWidth (len l) h = len (level l h).
Proof.
  intros Hl Hh. unfold CalcTreeWidth. rewrite level_len, Z.shiftl_1_l, Z.shiftr_div_pow2 by lia.
  assert (2 ^ Z.of_nat h <= 2 ^ 30) by (apply Z.pow_le_mono_r; lia). assert (0 < 2 ^ Z.of_nat h) by (apply Z.pow_pos_nonneg; lia).
  by rewrite u32_id by lia.
Qed.

Section nodes.
Context (l : list uint256) (Hl : 0 < len l <= 2 ^ 30).

(** A node: its height and position. *)
Definition node (h : nat) (pos : Z) : Prop := (h <= 30)%nat /\ 0 <= pos < len (level l h).

Lemma node_pos h pos : node h pos -> pos * 2 ^ Z.of_nat h < len l /\ pos < 2 ^ 30.
Proof.
  intros [Hh Hp]. rewrite level_len in Hp. assert (0 < 2 ^ Z.of_nat h) as Hp2 by (apply Z.pow_pos_nonneg; lia).
  assert (pos * 2 ^ Z.of_nat h < len l).
  { pose proof (Z.mul_div_le (len l + 2 ^ Z.of_nat h - 1) (2 ^ Z.of_nat h) Hp2). nia. }
  split; [done|]. nia.
Qed.

Lemma node_left h pos : node (S h) pos -> node h (2 * pos) /\ u32 (pos * 2) = 2 * pos.
Proof.
  intros Hn. pose proof (node_pos _ _ Hn) as [_ Hs]. destruct Hn as [Hh Hp]. rewrite level_S, pair_up_len in Hp.
  pose proof (Z.mul_div_le (len (level l h) + 1) 2 ltac:(lia)). split; [split; lia|]. rewrite u32_id by lia. lia.
Qed.

Lemma node_right h pos :
  node (S h) pos -> u32 (u32 (pos * 2) + 1) = 2 * pos + 1 /\
  (2 * pos + 1 <? CalcTreeWidth (len l) h) = (2 * pos + 1 <? len (level l h)) /\
  (2 * pos + 1 < len (level l h) -> node h (2 * pos + 1)).
Proof.
  intros Hn. pose proof (node_pos _ _ Hn) as [_ Hs]. destruct (node_left _ _ Hn) as [[Hh H1] ->].
  rewrite u32_id by lia. rewrite width_level by (done || lia). split; [done|]. split; [done|]. intros. split; [done|lia].
Qed.

(** The hash of a node above its two children. *)
Lemma level_node h pos :
  node (S h) pos ->
  at_ 0 (level l (S h)) pos =
    Hash2 (at_ 0 (level l h) (2 * pos)) (if 2 * pos + 1 <? len (level l h) then at_ 0 (level l h) (2 * pos + 1) else at_ 0 (level l h) (2 * pos)).
Proof.
  intros Hn. destruct (node_left _ _ Hn) as [[Hh H1] _]. rewrite level_S, pair_up_at by lia. f_equal.
  destruct (Z.ltb_spec (2 * pos + 1) (len (level l h))); f_equal; lia.
Qed.

Lemma calc_hash_level h pos : node h pos -> CalcHash (len l) l h pos = at_ 0 (level l h) pos.
Proof.
  revert pos. induction h as [|h IH]; intros pos Hn; [done|]. cbn [CalcHash].
  destruct (node_left _ _ Hn) as [H1 ->]. destruct (node_right _ _ Hn) as (Hr & Hw & H2).
  destruct (node_left _ _ Hn) as [_ El]. rewrite El in Hr. rewrite Hr, Hw, IH, level_node by done.
  destruct (Z.ltb_spec (2 * pos + 1) (len (level l h))); [by rewrite IH by auto|done].
Qed.

(** ** The height *)

Lemma level_2_30 : len (level l 30) = 1.
Proof.
  rewrite level_len. change (2 ^ Z.of_nat 30) with (2 ^ 30).
  symmetry. apply (Z.div_unique _ _ 1 (len l - 1)); lia.
Qed.

Lemma tree_height_spec fuel h0 :
  (fuel + h0 = 31)%nat -> (forall k, (k < h0)%nat -> 1 < len (level l k)) ->
  let h := tree_height fuel (len l) h0 in
  (h <= 30)%nat /\ len (level l h) = 1 /\ forall k, (k < h)%nat -> 1 < len (level l k).
Proof.
  revert h0. induction fuel as [|fuel IH]; intros h0 Hf Hk; cbn [tree_height].
  { exfalso. assert (h0 = 31)%nat as -> by lia. specialize (Hk 30%nat ltac:(lia)). rewrite level_2_30 in Hk. lia. }
  rewrite width_level by (done || lia). destruct (Z.ltb_spec 1 (len (level l h0))) as [Hw|Hw].
  - apply IH; [lia|]. intros k Hk'. destruct (decide (k = h0)) as [->|]; [done|]. apply Hk. lia.
  - split; [lia|]. split; [|done]. enough (0 < len (level l h0)) by lia. clear -Hl. destruct Hl as [Hl0 _].
    induction h0 as [|h0 IH]; [done|]. rewrite level_S. by apply pair_up_nonempty.
Qed.

Lemma tree_height_31 fuel h0 : (fuel + h0 = 31)%nat -> tree_height (S fuel) (len l) h0 = tree_height fuel (len l) h0.
Proof.
  revert h0. induction fuel as [|fuel IH]; intros h0 Hf.
  - assert (h0 = 31)%nat as -> by lia. cbn [tree_height].
    assert (CalcTreeWidth (len l) 31 <= 1) as Hw.
    { unfold CalcTreeWidth. change (Z.shiftl 1 (Z.of_nat 31)) with (2 ^ 31). rewrite u32_id, Z.shiftr_div_pow2 by lia.
      apply Z.lt_succ_r, Z.div_lt_upper_bound; [done|]. change (2 ^ Z.of_nat 31) with (2 ^ 31). lia. }
    destruct (Z.ltb_spec 1 (CalcTreeWidth (len l) 31)); [lia|done].
  - change (tree_height (S (S fuel)) (len l) h0) with (if 1 <? CalcTreeWidth (len l) h0 then tree_height (S fuel) (len l) (S h0) else h0).
    cbn [tree_height] in *. destruct (1 <? CalcTreeWidth (len l) h0); [|done]. apply IH. lia.
Qed.

Lemma root_of_level h r : (forall k, (k < h)%nat -> 1 < len (level l k)) -> level l h = [r] -> root_of l r.
Proof.
  clear Hl. intros Hk E. assert (forall j, (j <= h)%nat -> root_of (level l (h - j)) r) as Hj.
  { induction j as [|j IH]; intros Hjh; [rewrite Nat.sub_0_r, E; apply root_one|].
    apply root_up; [apply Hk; lia|]. rewrite <-level_S. replace (S (h - S j)) with (h - j)%nat by lia. apply IH. lia. }
  specialize (Hj h ltac:(lia)). by rewrite Nat.sub_diag in Hj.
Qed.

(** The top of the partial tree is the root of the block. *)
Lemma top_node :
  node (tree_height 32 (len l) 0) 0 /\ at_ 0 (level l (tree_height 32 (len l) 0)) 0 = BuildMerkleTree l.
Proof.
  rewrite (tree_height_31 31 0) by done.
  destruct (tree_height_spec 31 0 eq_refl ltac:(lia)) as (H1 & H2 & H3). set (h := tree_height 31 (len l) 0) in *.
  split; [split; [done|lia]|]. destruct (level l h) as [|r [|b t]] eqn:E; [done| |lens; pose proof (len_pos t); lia].
  apply (root_of_fun l); [by apply root_of_level in E|apply build_merkle_tree; lia].
Qed.
End nodes.

(** ** What is put into a partial tree is found in it *)

Lemma at_mid {A} (d : A) l1 x l2 : at_ d (l1 ++ x :: l2) (len l1) = x.
Proof. rewrite <-(Z.add_0_r (len l1)). by rewrite at_app_r. Qed.

Lemma not_used_up {A} (l1 : list A) x l2 : (len (l1 ++ x :: l2) <=? len l1) = false.
Proof. apply Z.leb_gt. lens. pose proof (len_pos l2). lia. Qed.

Lemma extract_hash_at t leaf_match s ph x sh :
  vHash t = ph ++ x :: sh -> nHashUsed s = len ph ->
  extract_hash t leaf_match s = (x, if leaf_match then push_match (use_hash s) x else use_hash s).
Proof. intros Hh Hs. unfold extract_hash. by rewrite Hs, Hh, not_used_up, at_mid. Qed.

Section partial.
Context (l : list uint256) (m : list bool) (Hl : 0 < len l <= 2 ^ 30).

Lemma leaves_span h pos :
  node l h pos ->
  leaves_below (len l) h pos = seqZ (pos * 2 ^ Z.of_nat h) (Z.min ((pos + 1) * 2 ^ Z.of_nat h) (len l) - pos * 2 ^ Z.of_nat h).
Proof.
  intros Hn. pose proof (node_pos l Hl _ _ Hn) as [H1 H2]. destruct Hn as [Hh [H0 _]].
  assert (2 ^ Z.of_nat h <= 2 ^ 30) by (apply Z.pow_le_mono_r; lia).
  assert (0 < 2 ^ Z.of_nat h) by (apply Z.pow_pos_nonneg; lia).
  unfold leaves_below. rewrite (u32_id (pos + 1)), !Z.shiftl_mul_pow2, !u32_id by nia. done.
Qed.

Lemma leaves_split h pos :
  node l (S h) pos ->
  leaves_below (len l) (S h) pos =
    leaves_below (len l) h (2 * pos) ++ (if 2 * pos + 1 <? len (level l h) then leaves_below (len l) h (2 * pos + 1) else []).
Proof.
  intros Hn. destruct (node_left l Hl _ _ Hn) as [HL _]. destruct (node_right l Hl _ _ Hn) as (_ & _ & HR).
  pose proof (node_pos l Hl _ _ HL) as [H1 _]. rewrite !leaves_span by done.
  rewrite Nat2Z.inj_succ, Z.pow_succ_r by lia. set (p := 2 ^ Z.of_nat h) in *.
  assert (0 < p) by (apply Z.pow_pos_nonneg; lia).
  destruct (Z.ltb_spec (2 * pos + 1) (len (level l h))) as [Hr|Hr].
  - pose proof (node_pos l Hl _ _ (HR Hr)) as [H2 _]. fold p in H2. rewrite leaves_span by auto. fold p.
    rewrite (Z.min_l ((2 * pos + 1) * p)) by lia.
    replace ((2 * pos + 1) * p) with (2 * pos * p + p) in * by ring.
    replace (2 * pos * p + p - 2 * pos * p) with p by lia.
    rewrite <-seqZ_app by lia. f_equal; lia.
  - rewrite app_nil_r. rewrite level_len in Hr. fold p in Hr.
    assert (len l <= (2 * pos + 1) * p) as Hb.
    { pose proof (Z.mul_succ_div_gt (len l + p - 1) p ltac:(lia)). nia. }
    f_equal; nia.
Qed.

(** The matches below a node. *)
Definition picked (h : nat) (pos : Z) : list uint256 :=
  map (at_ 0 l) (List.filter (at_ false m) (leaves_below (len l) h pos)).

Lemma picked_split h pos :
  node l (S h) pos ->
  picked (S h) pos = picked h (2 * pos) ++ (if 2 * pos + 1 <? len (level l h) then picked h (2 * pos + 1) else []).
Proof.
  intros Hn. unfold picked. rewrite leaves_split, List.filter_app, map_app by done.
  by destruct (2 * pos + 1 <? len (level l h)).
Qed.

Lemma picked_none h pos : parent_of_match (len l) m h pos = false -> picked h pos = [].
Proof.
  unfold picked, parent_of_match. induction (leaves_below (len l) h pos) as [|p ps IH]; [done|].
  cbn [existsb List.filter]. intros [-> E]%orb_false_iff. auto.
Qed.

Lemma leaves_leaf pos : node l 0 pos -> leaves_below (len l) 0 pos = [pos].
Proof.
  intros Hn. pose proof (node_pos l Hl _ _ Hn) as [H1 _]. rewrite leaves_span by done. change (2 ^ Z.of_nat 0) with 1 in *.
  replace (Z.min ((pos + 1) * 1) (len l) - pos * 1) with 1 by lia. rewrite Z.mul_1_r. done.
Qed.

Lemma extract_build t h pos :
  nTransactions t = len l -> node l h pos -> forall s pb sb ph sh b hs,
  TraverseAndBuild (len l) l m h pos = (b, hs) ->
  vBits t = pb ++ b ++ sb -> vHash t = ph ++ hs ++ sh -> nBitsUsed s = len pb -> nHashUsed s = len ph ->
  TraverseAndExtract t h pos s =
    (at_ 0 (level l h) pos,
     {| nBitsUsed := len (pb ++ b); nHashUsed := len (ph ++ hs); bad := bad s; vMatch := vMatch s ++ picked h pos |}).
Proof.
  intros Ht. revert pos. induction h as [|h IH]; intros pos Hn s pb sb ph sh b hs Eb Hb Hh Hs1 Hs2; cbn [TraverseAndBuild] in Eb; cbn [TraverseAndExtract].
  - injection Eb as <- <-. cbn [app] in Hb, Hh. rewrite Hs1, Hb, not_used_up, at_mid.
    rewrite (extract_hash_at t _ (use_bit s) _ _ _ Hh Hs2).
    change (CalcHash (len l) l 0 pos) with (at_ 0 l pos). change (at_ 0 (level l 0) pos) with (at_ 0 l pos). f_equal.
    unfold picked, parent_of_match.
    rewrite leaves_leaf by done. cbn [existsb List.filter]. rewrite orb_false_r.
    unfold push_match, use_hash, use_bit. rewrite !len_app, <-Hs1, <-Hs2.
    destruct (at_ false m pos); cbn [map nBitsUsed nHashUsed bad vMatch]; rewrite ?app_nil_r; done.
  - destruct (parent_of_match (len l) m (S h) pos) eqn:Ep; cbn [negb] in Eb.
    + destruct (node_left l Hl _ _ Hn) as [HL El]. destruct (node_right l Hl _ _ Hn) as (Er & Ew & HR).
      rewrite Er in Eb |- *. rewrite El, Ew in Eb. rewrite El. rewrite Ht, Ew.
      destruct (TraverseAndBuild (len l) l m h (2 * pos)) as [b1 h1] eqn:E1.
      destruct (if 2 * pos + 1 <? len (level l h) then _ else _) as [b2 h2] eqn:E2.
      injection Eb as <- <-. cbn [app] in Hb. rewrite <-app_assoc in Hb, Hh.
      rewrite Hs1, Hb, not_used_up, at_mid.
      rewrite (cons_middle true), (app_assoc pb) in Hb. cbn [negb].
      rewrite (IH _ HL (use_bit s) _ _ _ _ _ _ E1 Hb Hh) by (cbn; lens; lia).
      rewrite level_node, picked_split by done. destruct (Z.ltb_spec (2 * pos + 1) (len (level l h))) as [Hr|Hr].
      * rewrite (app_assoc (pb ++ [true])) in Hb. rewrite (app_assoc ph) in Hh.
        rewrite (IH _ (HR Hr) _ _ _ _ _ _ _ E2 Hb Hh) by done. cbn [bad vMatch use_bit]. rewrite <-!app_assoc. done.
      * injection E2 as <- <-. cbn [bad vMatch use_bit]. rewrite !app_nil_r, <-!app_assoc. done.
    + injection Eb as <- <-. cbn [app] in Hb, Hh. rewrite Hs1, Hb, not_used_up, at_mid. cbn [negb].
      rewrite (extract_hash_at t _ (use_bit s) _ _ _ Hh Hs2), picked_none, app_nil_r by done.
      f_equal; [apply (calc_hash_level l Hl (S h) pos Hn)|]. unfold use_hash, use_bit. by rewrite !len_app, <-Hs1, <-Hs2.
Qed.
End partial.

Lemma build_sizes l m (Hl : 0 < len l <= 2 ^ 30) h pos b hs :
  node l h pos -> TraverseAndBuild (len l) l m h pos = (b, hs) ->
  1 <= len hs <= len (leaves_below (len l) h pos) /\ len hs <= len b <= (Z.of_nat h + 1) * len (leaves_below (len l) h pos) /\
  ((forall i x, l !! i = Some x -> hash_ok x) -> (forall x y, hash_ok (Hash2 x y)) -> Forall hash_ok hs).
Proof.
  assert (forall h pos, node l h pos -> 1 <= len (leaves_below (len l) h pos)) as Hleaf.
  { clear h pos b hs. induction h as [|h IH]; intros pos Hn; [by rewrite leaves_leaf by done|].
    rewrite leaves_split by done. destruct (node_left l Hl _ _ Hn) as [HL _]. specialize (IH _ HL). lens.
    pose proof (len_pos (if 2 * pos + 1 <? len (level l h) then leaves_below (len l) h (2 * pos + 1) else [])). lia. }
  assert (forall h pos, node l h pos -> (forall i x, l !! i = Some x -> hash_ok x) -> (forall x y, hash_ok (Hash2 x y)) ->
    hash_ok (CalcHash (len l) l h pos)) as Hok.
  { clear. intros h pos Hn Hx Hy. destruct h as [|h]; [|apply Hy]. destruct Hn as [_ Hp].
    eapply Hx. cbn [CalcHash]. by apply (at_lookup_lt 0 l pos). }
  revert pos b hs. induction h as [|h IH]; intros pos b hs Hn E; cbn [TraverseAndBuild] in E.
  - injection E as <- <-. rewrite leaves_leaf by done. split; [done|]. split; [done|]. intros Hx Hy. constructor; [|done].
    by apply (Hok O).
  - destruct (negb _).
    { pose proof (Hleaf _ _ Hn). injection E as <- <-. rewrite !len_cons, !(@len_nil Z), !(@len_nil bool).
      split; [lia|]. split; [nia|]. intros Hx Hy. constructor; [|done]. by apply (Hok (S h)). }
    destruct (node_left l Hl _ _ Hn) as [HL El]. destruct (node_right l Hl _ _ Hn) as (Er & Ew & HR).
    rewrite Er, El, Ew in E. rewrite leaves_split by done.
    destruct (TraverseAndBuild (len l) l m h (2 * pos)) as [b1 h1] eqn:E1. destruct (IH _ _ _ HL E1) as (I1 & I2 & I3).
    destruct (Z.ltb_spec (2 * pos + 1) (len (level l h))) as [Hr|Hr].
    + destruct (TraverseAndBuild (len l) l m h (2 * pos + 1)) as [b2 h2] eqn:E2. destruct (IH _ _ _ (HR Hr) E2) as (J1 & J2 & J3).
      injection E as <- <-. lens. split; [lia|]. split; [nia|]. intros Hx Hy. apply Forall_app. auto.
    + injection E as <- <-. rewrite !app_nil_r. lens. split; [lia|]. split; [nia|]. auto.
Qed.

Lemma matched_picked l m : len m = len l -> map (at_ 0 l) (List.filter (at_ false m) (seqZ 0 (len l))) = matched l m.
Proof.
  revert m. induction l as [|a l IH]; intros [|b m] E; lens; [done|pose proof (len_pos m); lia|pose proof (len_pos l); lia|].
  pose proof (len_pos l). cbn [matched]. rewrite seqZ_cons by lia. cbn [List.filter].
  assert (List.filter (at_ false (b :: m)) (seqZ (Z.succ 0) (Z.pred (1 + len l))) = map (Z.add 1) (List.filter (at_ false m) (seqZ 0 (len l)))) as Ef.
  { replace (Z.pred (1 + len l)) with (len l) by lia. rewrite <-(fmap_add_seqZ 1 0). cbn [Z.add].
    assert (forall p, p ∈ seqZ 0 (len l) -> at_ false (b :: m) (1 + p) = at_ false m p) as Hp.
    { intros p Hp%elem_of_seqZ. change m with (drop 1 (b :: m)) at 2. by rewrite at_drop by lia. }
    revert Hp. generalize (seqZ 0 (len l)). induction l0 as [|p ps IHp]; intros Hp; [done|]. cbn [fmap list_fmap List.filter].
    rewrite Hp by set_solver. change ((Z.add 1 <$> ps)) with (map (Z.add 1) ps) in *. cbn [map List.filter] in *.
    destruct (at_ false m p); cbn [map]; rewrite <-IHp by set_solver; done. }
  assert (map (at_ 0 (a :: l)) (List.filter (at_ false (b :: m)) (seqZ (Z.succ 0) (Z.pred (1 + len l)))) = matched l m) as Em.
  { rewrite Ef, map_map, <-IH by lia. apply map_ext_in. intros p [Hp%list_elem_of_In%elem_of_seqZ _]%filter_In.
    change l with (drop 1 (a :: l)) at 2. by rewrite at_drop by lia. }
  change (at_ false (b :: m) 0) with b. destruct b; [cbn [map]; rewrite Em; done|done].
Qed.

(** Filling of the last byte does not matter. *)
Lemma extract_partial l m pad :
  0 < len l <= MAX_BLOCK_SIZE / 60 -> len m = len l ->
  let t := partial_tree l m in
  (len (vBits t ++ pad) + 7) / 8 = (len (vBits t) + 7) / 8 ->
  ExtractMatches {| nTransactions := nTransactions t; vBits := vBits t ++ pad; vHash := vHash t; fBad := false |}
    = (BuildMerkleTree l, matched l m).
Proof.
  intros Hl Hm t Hpad. assert (MAX_BLOCK_SIZE / 60 = 16666) as EM by done. rewrite EM in Hl.
  assert (0 < len l <= 2 ^ 30) as Hl' by lia. destruct (top_node l Hl') as [Hn Hroot].
  unfold t, partial_tree in *. set (h := tree_height 32 (len l) 0) in *.
  destruct (TraverseAndBuild (len l) l m h 0) as [b hs] eqn:E. cbn [nTransactions vBits vHash] in *.
  destruct (build_sizes l m Hl' h 0 b hs Hn E) as (Hs1 & Hs2 & _).
  assert (leaves_below (len l) h 0 = seqZ 0 (len l)) as Elv.
  { rewrite leaves_span by done. assert (len (level l h) <= 1) as Hw.
    { pose proof (tree_height_spec l Hl' 31 0 eq_refl ltac:(lia)) as (_ & Hw & _).
      unfold h. rewrite (tree_height_31 l Hl' 31 0) by done. rewrite Hw. done. }
    rewrite level_len in Hw. assert (0 < 2 ^ Z.of_nat h) as Hp by (apply Z.pow_pos_nonneg; lia).
    pose proof (Z.mul_succ_div_gt (len l + 2 ^ Z.of_nat h - 1) (2 ^ Z.of_nat h) Hp). f_equal; nia. }
  assert (len hs <= len l) as Hs3.
  { rewrite Elv in Hs1. unfold len at 3 in Hs1. rewrite length_seqZ in Hs1. lia. }
  unfold ExtractMatches. cbn [nTransactions vBits vHash fBad]. rewrite EM.
  destruct (Z.eqb_spec (len l) 0); [lia|]. destruct (Z.ltb_spec 16666 (len l)); [lia|].
  destruct (Z.ltb_spec (len l) (len hs)); [lia|].
  destruct (Z.ltb_spec (len (b ++ pad)) (len hs)); [lens; pose proof (len_pos pad); lia|]. fold h.
  rewrite (extract_build l m Hl' {| nTransactions := len l; vBits := b ++ pad; vHash := hs; fBad := false |} h 0 eq_refl Hn
    _ [] pad [] [] b hs E eq_refl (eq_sym (app_nil_r _))) by done.
  cbn [bad nBitsUsed nHashUsed vMatch app]. rewrite Hpad, !Z.eqb_refl. cbn [negb].
  rewrite Hroot. unfold picked. by rewrite Elv, matched_picked.
Qed.

(** ** The bytes of the bits *)

Lemma testbit_land x r : 0 <= r -> negb (Z.land x (Z.shiftl 1 r) =? 0) = Z.testbit x r.
Proof.
  intros Hr. destruct (Z.testbit x r) eqn:E.
  - apply negb_true_iff, Z.eqb_neq. intros E0. apply (f_equal (fun z => Z.testbit z r)) in E0.
    rewrite Z.land_spec, E, Z.shiftl_spec, Z.sub_diag, Z.bits_0 in E0 by lia. done.
  - apply negb_false_iff, Z.eqb_eq, Z.bits_inj'. intros k Hk. rewrite Z.land_spec, Z.bits_0.
    rewrite Z.shiftl_1_l. destruct (Z.eq_dec r k) as [<-|Hne]; [by rewrite E|].
    by rewrite Z.pow2_bits_false, andb_false_r by lia.
Qed.

Lemma bit_of_b2z b r r0 : 0 <= r -> 0 <= r0 -> Z.testbit (Z.shiftl (Z.b2z b) r0) r = (r =? r0) && b.
Proof.
  intros Hr Hr0. rewrite Z.shiftl_spec by done. destruct (Z.eqb_spec r r0) as [->|Hne].
  - rewrite Z.sub_diag. apply Z.b2z_bit0.
  - destruct (Z.ltb_spec r r0); [by rewrite Z.testbit_neg_r by lia|].
    replace (r - r0) with (Z.succ (r - r0 - 1)) by lia. by rewrite <-Z.div2_bits, Z.b2z_div2, Z.bits_0 by lia.
Qed.

Lemma len_replicate {A} k (x : A) : len (replicate k x) = Z.of_nat k.
Proof. unfold len. by rewrite length_replicate. Qed.

(** The bytes after [k] turns of the loop. *)
Lemma pack_step v (bs : bytes) k :
  (k < length v)%nat -> len bs = (len v + 7) / 8 -> bytes_ok bs ->
  (forall q r, 0 <= q -> 0 <= r < 8 -> Z.testbit (at_ 0 bs q) r = (8 * q + r <? Z.of_nat k) && at_ false v (8 * q + r)) ->
  let bs' := set_bit v bs (Z.of_nat k) in
  len bs' = (len v + 7) / 8 /\ bytes_ok bs' /\
  forall q r, 0 <= q -> 0 <= r < 8 -> Z.testbit (at_ 0 bs' q) r = (8 * q + r <? Z.of_nat (S k)) && at_ false v (8 * q + r).
Proof.
  intros Hk Hlen Hb Hbits. set (q0 := Z.of_nat k / 8). set (r0 := Z.of_nat k mod 8).
  pose proof (Z.div_mod (Z.of_nat k) 8 ltac:(lia)) as Hd. fold q0 r0 in Hd.
  pose proof (Z.mod_pos_bound (Z.of_nat k) 8 ltac:(lia)) as Hr0. fold r0 in Hr0.
  assert (0 <= q0) by (apply Z.div_pos; lia).
  assert (q0 < len bs) as Hq0. { rewrite Hlen. apply Z.div_lt_upper_bound; [lia|]. unfold len in *.
    pose proof (Z.mul_succ_div_gt (Z.of_nat (length v) + 7) 8 ltac:(lia)). lia. }
  assert (nth (Z.to_nat q0) bs 0 = at_ 0 bs q0) as En by (unfold at_; destruct (Z.ltb_spec q0 0); [lia|done]).
  unfold set_bit. fold q0 r0. cbv zeta. rewrite En. split; [|split].
  - unfold len. rewrite length_insert. exact Hlen.
  - apply bytes_ok_insert; [done|]. pose proof (at_byte_ok bs q0 Hb) as Ha. unfold byte_ok in *.
    change 256 with (2 ^ 8) in *. apply lor_range; [lia|done|]. rewrite Z.shiftl_mul_pow2 by lia.
    assert (2 ^ r0 <= 2 ^ 7) by (apply Z.pow_le_mono_r; lia). assert (0 < 2 ^ r0) by (apply Z.pow_pos_nonneg; lia).
    destruct (at_ false v (Z.of_nat k)); cbn [Z.b2z]; lia.
  - intros q r Hq Hr. destruct (Z.eq_dec q q0) as [->|Hne].
    + erewrite (at_lookup 0 (<[Z.to_nat q0 := _]> bs) q0) by (done || apply list_lookup_insert_eq; unfold len in *; lia).
      rewrite Z.lor_spec, Hbits, bit_of_b2z by lia.
      destruct (Z.eqb_spec r r0) as [->|Hr1].
      * replace (8 * q0 + r0) with (Z.of_nat k) by lia. destruct (Z.ltb_spec (Z.of_nat k) (Z.of_nat k)); [lia|].
        destruct (Z.ltb_spec (Z.of_nat k) (Z.of_nat (S k))); [done|lia].
      * rewrite orb_false_r. f_equal. destruct (Z.ltb_spec (8 * q0 + r) (Z.of_nat k)), (Z.ltb_spec (8 * q0 + r) (Z.of_nat (S k))); lia || done.
    + rewrite at_insert_ne by lia. rewrite Hbits by done. f_equal.
      destruct (Z.ltb_spec (8 * q + r) (Z.of_nat k)), (Z.ltb_spec (8 * q + r) (Z.of_nat (S k))); lia || done.
Qed.

Lemma pack_bits_spec v :
  len (pack_bits v) = (len v + 7) / 8 /\ bytes_ok (pack_bits v) /\
  forall q r, 0 <= q -> 0 <= r < 8 -> Z.testbit (at_ 0 (pack_bits v) q) r = at_ false v (8 * q + r).
Proof.
  assert (0 <= (len v + 7) / 8) by (apply Z.div_pos; [pose proof (len_pos v)|]; lia).
  assert (forall k : nat, (k <= length v)%nat ->
    let bs := fold_left (set_bit v) (seqZ 0 (Z.of_nat k)) (replicate (Z.to_nat ((len v + 7) / 8)) 0) in
    len bs = (len v + 7) / 8 /\ bytes_ok bs /\
    forall q r, 0 <= q -> 0 <= r < 8 -> Z.testbit (at_ 0 bs q) r = (8 * q + r <? Z.of_nat k) && at_ false v (8 * q + r)) as Hk.
  { induction k as [|k IH]; intros Hk.
    - change (seqZ 0 (Z.of_nat 0)) with (@nil Z). cbn [fold_left]. split; [rewrite len_replicate; lia|].
      split; [apply bytes_ok_zeros|]. intros q r Hq Hr. change (Z.of_nat 0) with 0. destruct (Z.ltb_spec (8 * q + r) 0); [lia|]. cbn [andb].
      assert (at_ 0 (replicate (Z.to_nat ((len v + 7) / 8)) 0) q = 0) as ->; [|apply Z.bits_0].
      unfold at_. destruct (q <? 0); [done|]. rewrite nth_lookup. destruct (_ !! _) as [x|] eqn:E; [|done].
      by apply lookup_replicate_1 in E as [-> _].
    - destruct (IH ltac:(lia)) as (I1 & I2 & I3). rewrite Nat2Z.inj_succ, <-Z.add_1_r, seqZ_app, fold_left_app by lia.
      assert (seqZ (0 + Z.of_nat k) 1 = [Z.of_nat k]) as -> by (unfold seqZ; cbn; f_equal; lia). cbn [fold_left].
      replace (Z.of_nat k + 1) with (Z.of_nat (S k)) by lia. by apply pack_step. }
  destruct (Hk (length v) (Nat.le_refl _)) as (H1 & H2 & H3). unfold pack_bits. fold (len v) in *. split; [done|]. split; [done|].
  intros q r Hq Hr. rewrite H3 by done. destruct (Z.ltb_spec (8 * q + r) (len v)); [done|]. by rewrite at_beyond by done.
Qed.

Lemma unpack_pack v : exists pad, unpack_bits (pack_bits v) = v ++ pad /\ (len (v ++ pad) + 7) / 8 = (len v + 7) / 8.
Proof.
  destruct (pack_bits_spec v) as (H1 & _ & H3). pose proof (len_pos v).
  pose proof (Z.mul_succ_div_gt (len v + 7) 8 ltac:(lia)) as Hc. set (c := (len v + 7) / 8) in *.
  exists (replicate (Z.to_nat (c * 8 - len v)) false).
  split; [|lens; rewrite len_replicate, Z2Nat.id by lia;
           symmetry; apply (Z.div_unique _ _ c 7); lia].
  apply list_eq. intros i. unfold unpack_bits. change (map ?f ?s) with (f <$> s). rewrite list_lookup_fmap, H1.
  destruct (Z.ltb_spec (Z.of_nat i) (c * 8)) as [Hi|Hi].
  - rewrite lookup_seqZ_lt by lia. cbn [fmap option_fmap option_map]. set (p := 0 + Z.of_nat i).
    rewrite testbit_land by (apply Z.mod_pos_bound; lia).
    rewrite H3 by ((apply Z.div_pos; lia) || (apply Z.mod_pos_bound; lia)). rewrite <-Z.div_mod by lia.
    unfold p. rewrite Z.add_0_l. destruct (Z.ltb_spec (Z.of_nat i) (len v)) as [Hv|Hv].
    + rewrite lookup_app_l by (unfold len in *; lia). symmetry. rewrite <-(Nat2Z.id i) at 1. apply at_lookup_lt. unfold len in *. lia.
    + rewrite lookup_app_r, lookup_replicate_2 by (unfold len in *; lia). by rewrite at_beyond by done.
  - rewrite lookup_seqZ_ge by lia. symmetry. apply lookup_ge_None_2. rewrite length_app, length_replicate. unfold len in *. lia.
Qed.

(** ** With 32-byte digests *)

Section digests.
Context (sha256_size : forall d, length (sha256 d) = 32%nat /\ bytes_ok (sha256 d)).

Lemma Hash2_ok a b : hash_ok (Hash2 a b).
Proof.
  unfold hash_ok, Hash2, sha256_twice, sha256_once, uint256_of.
  match goal with |- context [sha256 ?d] => destruct (sha256_size d) as [Hs Hb]; pose proof (le_value_range _ Hb) as Hr end.
  rewrite Hs in Hr. exact Hr.
Qed.

(** Two nodes with one hash have the same children, unless the hash has a collision. *)
Lemma Hash2_inj a b c d :
  hash_ok a -> hash_ok b -> hash_ok c -> hash_ok d -> Hash2 a b = Hash2 c d -> (a = c /\ b = d) \/ collision.
Proof.
  intros Ha Hb Hc Hd E. destruct (decide (uint256_bytes a ++ uint256_bytes b = uint256_bytes c ++ uint256_bytes d)) as [Eb|Ne].
  - left. apply app_inj_1 in Eb as [E1 E2]; [|by rewrite !uint256_bytes_length].
    split; by apply uint256_bytes_inj.
  - right. eexists _, _. split; [exact Ne|]. rewrite !length_app, !uint256_bytes_length. done.
Qed.

Lemma at_ok l i : Forall hash_ok l -> hash_ok (at_ 0 l i).
Proof.
  intros Hl. unfold at_. destruct (i <? 0); [done|]. rewrite nth_lookup. destruct (_ !! _) eqn:E; [|done].
  by eapply Forall_lookup_1 in E.
Qed.

Lemma level_ok l h : Forall hash_ok l -> Forall hash_ok (level l h).
Proof.
  intros Hl. destruct h as [|h]; [done|]. rewrite level_S. clear Hl.
  induction (level l h) as [|a|a b l' IH] using pair_ind; cbn [pair_up]; repeat constructor; try apply Hash2_ok. done.
Qed.


(** C35. A partial tree of at least one and at most as many transactions as a block has
    room for, written and read back, with whatever follows it, gives the block's root
    and exactly the matched transactions, in order. *)
Theorem partial_tree_delivers l m rest :
  0 < len l <= MAX_BLOCK_SIZE / 60 -> len m = len l -> Forall hash_ok l ->
  exists t, read_tree (write_tree (partial_tree l m) ++ rest) = Some (t, rest) /\
    ExtractMatches t = (BuildMerkleTree l, matched l m) /\ root_of l (BuildMerkleTree l).
Proof.
  intros Hl Hm Hok. set (t := partial_tree l m). destruct (unpack_pack (vBits t)) as (pad & Eu & Hpad).
  exists {| nTransactions := nTransactions t; vBits := vBits t ++ pad; vHash := vHash t; fBad := false |}.
  assert (MAX_BLOCK_SIZE / 60 = 16666) as EM by done.
  split; [|split; [by apply extract_partial|apply build_merkle_tree; lia]].
  unfold read_tree, write_tree. rewrite unserialize_serialize; [by rewrite Eu|].
  assert (0 < len l <= 2 ^ 30) as Hl' by lia. destruct (top_node l Hl') as [Hn _].
  unfold t, partial_tree in *. set (h := tree_height 32 (len l) 0) in *.
  destruct (TraverseAndBuild (len l) l m h 0) as [b hs] eqn:E. cbn [nTransactions vBits vHash] in *.
  destruct (build_sizes l m Hl' h 0 b hs Hn E) as (Hs1 & Hs2 & Hs3).
  assert (len (leaves_below (len l) h 0) <= len l) as Hlv.
  { rewrite leaves_span by done. unfold len at 1. rewrite length_seqZ. lia. }
  assert (Z.of_nat h <= 30) by (destruct Hn; lia).
  assert (len b <= 31 * 16666) by nia. destruct (pack_bits_spec b) as (Hp1 & Hp2 & _).
  repeat split; cbn [wf c_uint fst snd]; [lia|change (2 ^ (8 * Z.of_nat 4)) with (2 ^ 32); lia|unfold MAX_SIZE; lia| | |done].
  - apply Hs3; [|apply Hash2_ok]. intros i x Hx. by eapply Forall_lookup_1 in Hx.
  - cbn [snd]. rewrite Hp1. apply Z.lt_le_incl, Z.div_lt_upper_bound; unfold MAX_SIZE; lia.
Qed.

(** What the extraction of a node adds to the matches. *)
Lemma extract_sound l t (Hl : 0 < len l <= 2 ^ 30) h pos :
  Forall hash_ok l -> Forall hash_ok (vHash t) -> nTransactions t = len l -> node l h pos -> forall s r s',
  TraverseAndExtract t h pos s = (r, s') ->
  hash_ok r /\ (bad s = true -> bad s' = true) /\
  (bad s' = false -> r = at_ 0 (level l h) pos ->
   collision \/ exists ms, vMatch s' = vMatch s ++ ms /\ sublist ms (map (at_ 0 l) (leaves_below (len l) h pos))).
Proof.
  intros Hok Hht Ht. revert pos. induction h as [|h IH]; intros pos Hn s r s' E; cbn [TraverseAndExtract] in E;
    (destruct (len (vBits t) <=? nBitsUsed s); [injection E as <- <-; split_and!; [done|done|by intros]|]).
  - unfold extract_hash in E. destruct (len (vHash t) <=? nHashUsed (use_bit s)).
    + injection E as <- <-. split_and!; [done|done|by intros].
    + injection E as <- <-. split_and!; [by apply at_ok|by destruct (at_ false _ _)|]. intros _ Er. right.
      rewrite leaves_leaf by done. destruct (at_ false (vBits t) (nBitsUsed s)).
      * eexists. split; [done|]. rewrite Er. done.
      * exists []. split; [by rewrite app_nil_r|apply sublist_nil_l].
  - destruct (at_ false (vBits t) (nBitsUsed s)); cbn [negb] in E.
    + destruct (node_left l Hl _ _ Hn) as [HL El]. destruct (node_right l Hl _ _ Hn) as (Er & Ew & HR).
      rewrite Er, El, Ht, Ew in E. rewrite leaves_split, level_node by done.
      destruct (TraverseAndExtract t h (2 * pos) (use_bit s)) as [r1 s1] eqn:E1.
      destruct (IH _ HL _ _ _ E1) as (I1 & I2 & I3). destruct (Z.ltb_spec (2 * pos + 1) (len (level l h))) as [Hr|Hr].
      * destruct (TraverseAndExtract t h (2 * pos + 1) s1) as [r2 s2] eqn:E2. destruct (IH _ (HR Hr) _ _ _ E2) as (J1 & J2 & J3).
        injection E as <- <-. split_and!; [apply Hash2_ok|by auto|]. intros Hbad Eh.
        destruct (Hash2_inj _ _ _ _ I1 J1 (at_ok _ _ (level_ok l h Hok)) (at_ok _ _ (level_ok l h Hok)) Eh) as [[Eh1 Eh2]|]; [|by left].
        assert (bad s1 = false) as Hb1 by (destruct (bad s1); [rewrite J2 in Hbad|]; done).
        destruct (I3 Hb1 Eh1) as [|(m1 & M1 & S1)]; [by left|]. destruct (J3 Hbad Eh2) as [|(m2 & M2 & S2)]; [by left|].
        right. exists (m1 ++ m2). rewrite M2, M1, map_app, app_assoc. split; [done|]. by apply sublist_app.
      * injection E as <- <-. split_and!; [apply Hash2_ok|by auto|]. intros Hbad Eh.
        destruct (Hash2_inj _ _ _ _ I1 I1 (at_ok _ _ (level_ok l h Hok)) (at_ok _ _ (level_ok l h Hok)) Eh) as [[Eh1 _]|]; [|by left].
        rewrite app_nil_r. auto.
    + unfold extract_hash in E. destruct (len (vHash t) <=? nHashUsed (use_bit s)).
      * injection E as <- <-. split_and!; [done|done|by intros].
      * injection E as <- <-. split_and!; [by apply at_ok|done|]. intros _ _. right. exists [].
        split; [by rewrite app_nil_r|apply sublist_nil_l].
Qed.

(** Whatever partial tree a peer sends for a block, if it gives the root of the block then the
    transactions it gives are transactions of the block, in the order of the block, unless
    it shows two messages with one digest. *)
Theorem partial_tree_sound l t ms :
  nTransactions t = len l -> 0 < len l -> Forall hash_ok l -> Forall hash_ok (vHash t) ->
  BuildMerkleTree l <> 0 -> ExtractMatches t = (BuildMerkleTree l, ms) -> sublist ms l \/ collision.
Proof.
  intros Ht Hl Hok Hht Hr E. unfold ExtractMatches in E.
  assert (forall x, (0, x) = (BuildMerkleTree l, ms) -> sublist ms l \/ collision) as Hno by (intros x [= E' _]; congruence).
  destruct (nTransactions t =? 0); [by eapply Hno|]. destruct (Z.ltb_spec (MAX_BLOCK_SIZE / 60) (nTransactions t)) as [|Hn]; [by eapply Hno|].
  destruct (nTransactions t <? len (vHash t)); [by eapply Hno|]. destruct (len (vBits t) <? len (vHash t)); [by eapply Hno|].
  rewrite Ht in *. assert (MAX_BLOCK_SIZE / 60 = 16666) as EM by done. assert (0 < len l <= 2 ^ 30) as Hl' by lia.
  destruct (top_node l Hl') as [Hnode Hroot]. set (h := tree_height 32 (len l) 0) in *.
  destruct (TraverseAndExtract _ _ _ _) as [r s] eqn:Ex.
  destruct (extract_sound l t Hl' h 0 Hok Hht Ht Hnode _ _ _ Ex) as (_ & _ & Hs).
  destruct (bad s) eqn:Eb; [by eapply Hno|]. destruct (negb _); [by eapply Hno|]. destruct (negb _); [by eapply Hno|].
  injection E as -> <-. destruct (Hs eq_refl (eq_sym Hroot)) as [|(m & Hm & Hsub)]; [by right|left].
  cbn [app vMatch] in Hm. rewrite Hm. etrans; [exact Hsub|]. rewrite leaves_span by done.
  replace (0 * 2 ^ Z.of_nat h) with 0 by lia. set (w := Z.min _ _ - 0).
  assert (map (at_ 0 l) (seqZ 0 w) = take (Z.to_nat w) l) as ->; [|apply sublist_take].
  assert (w <= len l) as Hw by lia. apply list_eq. intros i. change (map ?f ?x) with (f <$> x). rewrite list_lookup_fmap.
  destruct (Z.ltb_spec (Z.of_nat i) w) as [Hi|Hi].
  - rewrite lookup_seqZ_lt, lookup_take_lt by lia. cbn [fmap option_fmap option_map]. rewrite Z.add_0_l.
    rewrite <-(Nat2Z.id i) at 2. symmetry. apply at_lookup_lt. unfold len in Hw. lia.
  - rewrite lookup_seqZ_ge, lookup_take_ge by lia. done.
Qed.
End digests.

(** The last of an odd number of transactions can be repeated without a change of the root. *)
Lemma pair_up_repeat l : Z.odd (len l) = true -> pair_up (l ++ [List.last l 0]) = pair_up l.
Proof.
  induction l as [|a|a b l IH] using pair_ind; [done|done|]. lens. intros Ho.
  replace (1 + (1 + len l)) with (len l + 2) in Ho by lia. rewrite Z.odd_add in Ho. cbn [Z.odd] in Ho. rewrite xorb_false_r in Ho.
  destruct l as [|c l]; [done|]. change (List.last (a :: b :: c :: l) 0) with (List.last (c :: l) 0).
  change ((a :: b :: c :: l) ++ [List.last (c :: l) 0]) with (a :: b :: ((c :: l) ++ [List.last (c :: l) 0])).
  cbn [pair_up]. f_equal. by apply IH.
Qed.

Lemma root_repeat l r : Z.odd (len l) = true -> 1 < len l -> root_of l r -> root_of (l ++ [List.last l 0]) r.
Proof.
  intros Ho Hl Hr. apply root_up; [lens; lia|]. rewrite pair_up_repeat by done.
  destruct l as [|a [|b l]]; [done|done|]. by inversion Hr.
Qed.
End laws.

(** ** Instances *)

Section witnesses.
#[local] Instance toy : Sha256 := toy_sha256.

Lemma toy_size d : length (sha256 d) = 32%nat /\ bytes_ok (sha256 d).
Proof. split; [apply le_bytes_length|apply le_bytes_ok]. Qed.

Definition txids : list uint256 := [11; 22; 33; 44; 55].
Definition wanted : list bool := [false; true; false; false; true].

Lemma txids_ok : Forall hash_ok txids.
Proof. apply (bool_decide_unpack _). vm_compute. exact I. Qed.


Lemma partial_tree_delivers_witness :
  exists t, read_tree (write_tree (partial_tree txids wanted) ++ [1; 2]) = Some (t, [1; 2]) /\
    ExtractMatches t = (BuildMerkleTree txids, [22; 55]) /\ root_of txids (BuildMerkleTree txids).
Proof.
  apply (partial_tree_delivers toy_size txids wanted [1; 2]); [vm_compute; split; [reflexivity|discriminate]|reflexivity|apply txids_ok].
Defined.

Lemma partial_tree_sound_witness : sublist [22; 55] txids \/ collision.
Proof.
  apply (partial_tree_sound toy_size txids (partial_tree txids wanted));
    [reflexivity|reflexivity|apply txids_ok| |vm_compute; discriminate|vm_compute; reflexivity].
  apply (bool_decide_unpack _). vm_compute. exact I.
Defined.

(** The repeated transaction in a tree of four. *)
Example root_ambiguous : BuildMerkleTree [11; 22; 33] = BuildMerkleTree [11; 22; 33; 33].
Proof. vm_compute. reflexivity. Qed.
End witnesses.

End Merkle.
