(* ===== verification/Dandelion.v ===== *)
(** * Dandelion routing of transactions ([src/dandelion.h], [src/dandelion.cpp], [src/net.cpp])

    The router that holds the transactions in their stem phase, and the calls made on
    it when a transaction is sent, received and relayed and at the end of each turn
    of the message handler.  A peer is named by its address in memory.  Random draws
    are arguments, and a step of the node carries the draws it makes. *)

From S2P Require Import Prelude Crypto.

Module Dandelion.

Definition DANDELION_EPOCH_SECONDS : Z := 600.
Definition DANDELION_STEM_PEERS : Z := 2.
Definition DANDELION_EMBARGO_SECONDS : Z := 30.
Definition DANDELION_MAX_STEM_HOPS : Z := 10.
(** [(uint64_t)(DANDELION_FLUFF_PROBABILITY * 100.0 + 0.5)], of 0.10 *)
Definition FLUFF_PERCENT : Z := 10.

(** The draw that the rejection loop accepts, reduced. *)
Definition GetRand (nRand nMax : Z) : Z := if nMax =? 0 then 0 else nRand mod nMax.

Inductive DandelionPhase := DANDELION_STEM | DANDELION_FLUFF.
#[export] Instance DandelionPhase_eq_dec : EqDecision DandelionPhase.
Proof. solve_decision. Defined.

Record CDandelionTx := { hash : uint256; phase : DandelionPhase; nTimeStemStart : Z; stemHops : Z; isOurTx : bool }.

(** What the router and the relay read of a peer; [relevant] is its filter (a peer
    without one takes every transaction). *)
Record CNode := {
  address : Z; fInbound : bool; fSuccessfullyConnected : bool; fDisconnect : bool; fRelayTxes : bool;
  relevant : uint256 -> bool }.

Record CDandelionRouter := {
  nEpochStart : Z; vStemPeers : list Z; mapStemTxs : gmap Z CDandelionTx; setFluffedTxs : gset Z }.
Definition new_router : CDandelionRouter := {| nEpochStart := 0; vStemPeers := []; mapStemTxs := ∅; setFluffedTxs := ∅ |}.

(** ** The router *)

Definition candidates (vNodes : list CNode) : list Z :=
  map address (List.filter (fun p => negb (fInbound p) && fSuccessfullyConnected p && negb (fDisconnect p)) vNodes).

Definition swap (i j : nat) (l : list Z) : list Z :=
  match l !! i, l !! j with Some a, Some b => <[j := a]> (<[i := b]> l) | _, _ => l end.

(** The loop over the picks, with the draws still to be made. *)
Fixpoint pick_peers (n : nat) (i : nat) (draws : nat -> Z) (vCandidates : list Z) : list Z :=
  match n with
  | O => []
  | S n =>
      let nRange := len vCandidates - Z.of_nat i in
      let j := (i + Z.to_nat (GetRand (draws i) nRange))%nat in
      let vCandidates := swap i j vCandidates in
      nth i vCandidates 0 :: pick_peers n (S i) draws vCandidates
  end.

Definition SelectStemPeers (draws : nat -> Z) (vNodes : list CNode) : list Z :=
  let vCandidates := candidates vNodes in
  pick_peers (Z.to_nat (Z.min (len vCandidates) DANDELION_STEM_PEERS)) 0 draws vCandidates.

Definition MaybeRotateEpoch (draws : nat -> Z) (nNow : Z) (vNodes : list CNode) (r : CDandelionRouter) : CDandelionRouter :=
  if (nEpochStart r =? 0) || (DANDELION_EPOCH_SECONDS <=? nNow - nEpochStart r)
  then {| nEpochStart := nNow; vStemPeers := SelectStemPeers draws vNodes;
          mapStemTxs := mapStemTxs r; setFluffedTxs := setFluffedTxs r |}
  else r.

Definition count_fluffed (r : CDandelionRouter) (h : uint256) : bool := bool_decide (h ∈ setFluffedTxs r).

(** [GetPhase] after its [MaybeRotateEpoch]. *)
Definition GetPhase (r : CDandelionRouter) (h : uint256) : DandelionPhase :=
  if count_fluffed r h then DANDELION_FLUFF
  else match mapStemTxs r !! h with Some tx => phase tx | None => DANDELION_FLUFF end.

Definition put (r : CDandelionRouter) (h : uint256) (tx : CDandelionTx) : CDandelionRouter :=
  {| nEpochStart := nEpochStart r; vStemPeers := vStemPeers r; mapStemTxs := <[h := tx]> (mapStemTxs r);
     setFluffedTxs := setFluffedTxs r |}.

(** [AddLocalTx] and [AddStemTx] after their [MaybeRotateEpoch]. *)
Definition AddLocalTx (nNow : Z) (h : uint256) (r : CDandelionRouter) : CDandelionRouter :=
  if count_fluffed r h then r
  else match mapStemTxs r !! h with
  | Some _ => r
  | None => put r h {| hash := h; phase := DANDELION_STEM; nTimeStemStart := nNow; stemHops := 0; isOurTx := true |}
  end.

Definition AddStemTx (nNow : Z) (h : uint256) (hops : Z) (r : CDandelionRouter) : CDandelionRouter :=
  if count_fluffed r h then r
  else match mapStemTxs r !! h with
  | Some tx =>
      if stemHops tx <? hops
      then put r h {| hash := hash tx; phase := phase tx; nTimeStemStart := nTimeStemStart tx; stemHops := hops; isOurTx := isOurTx tx |}
      else r
  | None => put r h {| hash := h; phase := DANDELION_STEM; nTimeStemStart := nNow; stemHops := hops; isOurTx := false |}
  end.

Definition MarkFluffed (h : uint256) (r : CDandelionRouter) : CDandelionRouter :=
  {| nEpochStart := nEpochStart r; vStemPeers := vStemPeers r; mapStemTxs := delete h (mapStemTxs r);
     setFluffedTxs := {[h]} ∪ setFluffedTxs r |}.

Definition IsStemPhase (r : CDandelionRouter) (h : uint256) : bool :=
  if count_fluffed r h then false
  else match mapStemTxs r !! h with Some tx => bool_decide (phase tx = DANDELION_STEM) | None => false end.

(** The first eight bytes, most significant first. *)
Definition selector (h : uint256) : Z :=
  fold_left (fun nSelector b => Z.lor (u64 (Z.shiftl nSelector 8)) b) (take 8 (uint256_bytes h)) 0.

(** [GetStemPeer] after its [MaybeRotateEpoch]; [None] is [NULL]. *)
Definition GetStemPeer (r : CDandelionRouter) (h : uint256) : option Z :=
  match vStemPeers r with [] => None | l => Some (nth (Z.to_nat (selector h mod len l)) l 0) end.

(** In the order of the map. *)
Definition GetEmbargoedTxs (nNow : Z) (r : CDandelionRouter) : list uint256 :=
  List.filter (fun h => match mapStemTxs r !! h with
                        | Some tx => nTimeStemStart tx <=? nNow - DANDELION_EMBARGO_SECONDS | None => false end)
    (merge_sort Z.le (elements (dom (mapStemTxs r)))).

Definition ShouldFluff (draw : Z) (r : CDandelionRouter) (h : uint256) : bool :=
  match vStemPeers r with
  | [] => true
  | _ =>
      if match mapStemTxs r !! h with Some tx => DANDELION_MAX_STEM_HOPS <=? stemHops tx | None => false end then true
      else GetRand draw 100 <? FLUFF_PERCENT
  end.

(** ** The node around it *)

(** The router, the clock, the peers, the transactions of the pool and the inventory
    pushed to peers so far. *)
Record world := { router : CDandelionRouter; now : Z; vNodes : list CNode; pool : gset Z; pushed : list (Z * uint256) }.

Definition on_router (f : CDandelionRouter -> CDandelionRouter) (w : world) : world :=
  {| router := f (router w); now := now w; vNodes := vNodes w; pool := pool w; pushed := pushed w |}.
Definition rotate (draws : nat -> Z) (w : world) : world := on_router (MaybeRotateEpoch draws (now w) (vNodes w)) w.

(** [PushInventory] to the peers that take the transaction. *)
Definition push_to (to : CNode -> bool) (h : uint256) (w : world) : world :=
  {| router := router w; now := now w; vNodes := vNodes w; pool := pool w;
     pushed := pushed w ++ map (fun p => (address p, h)) (List.filter (fun p => to p && fRelayTxes p && relevant p h) (vNodes w)) |}.

Definition RelayTransaction (draws : nat -> Z) (h : uint256) (w : world) : world :=
  if IsStemPhase (router w) h then
    let w := rotate draws w in
    match GetStemPeer (router w) h with
    | Some pStemPeer => push_to (fun p => address p =? pStemPeer) h w
    | None => push_to (fun _ => true) h (on_router (MarkFluffed h) w)
    end
  else push_to (fun _ => true) h w.

(** The end of [RelayWalletTransaction]. *)
Definition send_own (draws : nat -> Z) (h : uint256) (w : world) : world :=
  RelayTransaction draws h (on_router (AddLocalTx (now w) h) (rotate draws w)).

(** A transaction that was accepted into the pool, from a peer or from the orphans. *)
Definition receive (draws : nat -> Z) (draw : Z) (h : uint256) (w : world) : world :=
  let w := {| router := router w; now := now w; vNodes := vNodes w; pool := {[h]} ∪ pool w; pushed := pushed w |} in
  RelayTransaction draws h
    (if ShouldFluff draw (router w) h then on_router (MarkFluffed h) w
     else on_router (AddStemTx (now w) h 1) (rotate draws w)).

(** One turn and the loop at the end of [ThreadMessageHandler2]. *)
Definition lift_embargo (draws : nat -> Z) (w : world) (h : uint256) : world :=
  let w := on_router (MarkFluffed h) w in
  if bool_decide (h ∈ pool w) then RelayTransaction draws h w else w.
Definition sweep (draws : nat -> Z) (w : world) : world :=
  fold_left (lift_embargo draws) (GetEmbargoedTxs (now w) (router w)) w.

(** What the node does, one call after the other; the clock, the connections and the
    pool also change on their own. *)
Inductive action :=
| Own (draws : nat -> Z) (h : uint256)
| Receive (draws : nat -> Z) (draw : Z) (h : uint256)
| Raw (draws : nat -> Z) (h : uint256)
| Sweep (draws : nat -> Z)
| Tick (seconds : Z)
| Connections (nodes : list CNode)
| Pool (txs : gset Z).

Definition exec (a : action) (w : world) : world :=
  match a with
  | Own draws h => send_own draws h w
  | Receive draws draw h => receive draws draw h w
  | Raw draws h => RelayTransaction draws h w
  | Sweep draws => sweep draws w
  | Tick s => {| router := router w; now := now w + s; vNodes := vNodes w; pool := pool w; pushed := pushed w |}
  | Connections nodes => {| router := router w; now := now w; vNodes := nodes; pool := pool w; pushed := pushed w |}
  | Pool txs => {| router := router w; now := now w; vNodes := vNodes w; pool := txs; pushed := pushed w |}
  end.

(** The clock does not go back. *)
Definition allowed (a : action) : Prop := match a with Tick s => 0 <= s | _ => True end.
Inductive step : world -> world -> Prop :=
| step_exec a w : allowed a -> step w (exec a w).

Definition start_world (t : Z) (nodes : list CNode) : world :=
  {| router := new_router; now := t; vNodes := nodes; pool := ∅; pushed := [] |}.

(** * Properties *)

(** ** The life of a transaction in the router *)

(** In its stem phase, with the record of it, and past it. *)
Definition stem (w : world) (h : uint256) (tx : CDandelionTx) : Prop := mapStemTxs (router w) !! h = Some tx.
Definition gone (w : world) (h : uint256) : Prop := h ∈ setFluffedTxs (router w) /\ mapStemTxs (router w) !! h = None.

(** Every peer that takes the transaction was told about it. *)
Definition flooded (w : world) (h : uint256) : Prop :=
  forall p, p ∈ vNodes w -> fRelayTxes p = true -> relevant p h = true -> (address p, h) ∈ pushed w.

(** What a call does to the transaction [h]: it stays in its phase with its start, or it
    leaves it and, if it is in the pool, it is flooded; it never comes back. *)
Record tracks (h : uint256) (w w' : world) : Prop := {
  tr_pool : pool w' = pool w; tr_nodes : vNodes w' = vNodes w; tr_now : now w' = now w;
  tr_pushed : forall x, x ∈ pushed w -> x ∈ pushed w';
  tr_stem : forall tx, stem w h tx ->
    (exists tx', stem w' h tx' /\ nTimeStemStart tx' = nTimeStemStart tx) \/ (gone w' h /\ (h ∈ pool w -> flooded w' h));
  tr_gone : gone w h -> gone w' h }.

Lemma flooded_mono h w w' :
  vNodes w' = vNodes w -> (forall x, x ∈ pushed w -> x ∈ pushed w') -> flooded w h -> flooded w' h.
Proof. intros E Hp Hf p Hin. rewrite E in Hin. intros H1 H2. by apply Hp, Hf. Qed.

Lemma tracks_refl h w : tracks h w w.
Proof. split; try done. intros tx Htx. left. by exists tx. Qed.

Lemma tracks_trans h w1 w2 w3 : tracks h w1 w2 -> tracks h w2 w3 -> tracks h w1 w3.
Proof.
  intros [A1 A2 A3 A4 A5 A6] [B1 B2 B3 B4 B5 B6]. split; [congruence..|by auto| |by auto].
  intros tx Htx. destruct (A5 tx Htx) as [(tx2 & H2 & E2)|[Hg Hf]].
  - destruct (B5 tx2 H2) as [(tx3 & H3 & E3)|[Hg Hf]]; [left; exists tx3; split; [done|congruence]|].
    right. split; [done|]. intros Hin. apply Hf. by rewrite A1.
  - right. split; [by auto|]. intros Hin. apply (flooded_mono h w2); [done..|]. by apply Hf.
Qed.

Lemma rotate_maps draws t nodes r :
  mapStemTxs (MaybeRotateEpoch draws t nodes r) = mapStemTxs r /\ setFluffedTxs (MaybeRotateEpoch draws t nodes r) = setFluffedTxs r.
Proof. unfold MaybeRotateEpoch. by destruct (_ || _). Qed.

Lemma rotate_tracks h draws w : tracks h w (rotate draws w).
Proof.
  destruct (rotate_maps draws (now w) (vNodes w) (router w)) as [E1 E2].
  split; try done; unfold stem, gone; cbn [rotate on_router router]; rewrite E1; [|by rewrite E2].
  intros tx Htx. left. by exists tx.
Qed.

Lemma push_tracks h to h' w : tracks h w (push_to to h' w).
Proof.
  split; try done.
  - intros x Hx. cbn. apply elem_of_app. by left.
  - intros tx Htx. left. by exists tx.
Qed.

Lemma push_all_floods h w : flooded (push_to (fun _ => true) h w) h.
Proof.
  intros p Hp H1 H2. cbn. apply elem_of_app. right. apply list_elem_of_In, in_map_iff. exists p. split; [done|].
  apply filter_In. split; [by apply list_elem_of_In|]. by rewrite H1, H2.
Qed.

Lemma MarkFluffed_gone h w : gone (on_router (MarkFluffed h) w) h.
Proof. split; cbn; [set_solver|]. by rewrite lookup_delete_eq. Qed.

Lemma gone_not_stem w h : gone w h -> IsStemPhase (router w) h = false /\ GetPhase (router w) h = DANDELION_FLUFF.
Proof.
  intros [Hg _]. unfold IsStemPhase, GetPhase, count_fluffed. by rewrite bool_decide_true by done.
Qed.

Lemma stem_phase w h : IsStemPhase (router w) h = true -> exists tx, stem w h tx.
Proof.
  unfold IsStemPhase, stem. destruct (count_fluffed _ _); [done|]. destruct (mapStemTxs (router w) !! h) as [tx|]; [by exists tx|done].
Qed.

(** Marking another transaction. *)
Lemma mark_other_tracks h h' w : h <> h' -> tracks h w (on_router (MarkFluffed h') w).
Proof.
  intros Hne. split; try done; unfold stem, gone; cbn [on_router router MarkFluffed mapStemTxs setFluffedTxs].
  - rewrite lookup_delete_ne by done. intros tx Htx. left. by exists tx.
  - rewrite lookup_delete_ne by done. set_solver.
Qed.

(** A mark and the flood after it. *)
Lemma mark_push_tracks h h' w : tracks h w (push_to (fun _ => true) h' (on_router (MarkFluffed h') w)).
Proof.
  destruct (decide (h = h')) as [<-|Hne].
  - split; try done.
    + intros x Hx. cbn. apply elem_of_app. by left.
    + intros tx _. right. split; [apply MarkFluffed_gone|]. intros _. apply push_all_floods.
    + intros _. apply MarkFluffed_gone.
  - eapply tracks_trans; [by apply mark_other_tracks|apply push_tracks].
Qed.

Lemma relay_tracks h draws h' w : tracks h w (RelayTransaction draws h' w).
Proof.
  unfold RelayTransaction. destruct (IsStemPhase (router w) h'); [|apply push_tracks].
  eapply tracks_trans; [apply (rotate_tracks h draws)|]. cbv zeta.
  destruct (GetStemPeer _ _); [apply push_tracks|apply mark_push_tracks].
Qed.

Lemma relay_gone_floods draws h w : gone w h -> flooded (RelayTransaction draws h w) h.
Proof. intros [Hs _]%gone_not_stem. unfold RelayTransaction. rewrite Hs. apply push_all_floods. Qed.

(** Adding a transaction keeps the start of one that is there. *)
Lemma put_tracks h w h' tx' :
  mapStemTxs (router w) !! h' = None \/ (exists tx, stem w h' tx /\ nTimeStemStart tx' = nTimeStemStart tx) ->
  count_fluffed (router w) h' = false ->
  tracks h w (on_router (fun r => put r h' tx') w).
Proof.
  intros Hp Hc. unfold count_fluffed in Hc. apply bool_decide_eq_false in Hc.
  split; try done; unfold stem, gone in *; cbn [on_router router put mapStemTxs setFluffedTxs].
  - intros tx Htx. left. destruct (decide (h = h')) as [<-|Hne].
    + rewrite lookup_insert_eq. exists tx'. split; [done|]. destruct Hp as [Hp|(tx0 & E & Es)]; congruence.
    + rewrite lookup_insert_ne by done. by exists tx.
  - intros [H1 H2]. split; [done|]. rewrite lookup_insert_ne; [done|]. intros ->. done.
Qed.

Lemma add_local_tracks h t h' w : tracks h w (on_router (AddLocalTx t h') w).
Proof.
  pose proof (put_tracks h w h' {| hash := h'; phase := DANDELION_STEM; nTimeStemStart := t; stemHops := 0; isOurTx := true |}) as Hp.
  unfold on_router, AddLocalTx in *. destruct (count_fluffed (router w) h') eqn:Ec; [destruct w; apply tracks_refl|].
  destruct (mapStemTxs (router w) !! h') eqn:E; [destruct w; apply tracks_refl|]. apply Hp; [by left|done].
Qed.

Lemma add_stem_tracks h t h' hops w : tracks h w (on_router (AddStemTx t h' hops) w).
Proof.
  unfold AddStemTx. destruct (count_fluffed (router w) h') eqn:Ec.
  { unfold on_router. rewrite Ec. destruct w. apply tracks_refl. }
  destruct (mapStemTxs (router w) !! h') as [tx|] eqn:E.
  - destruct (stemHops tx <? hops) eqn:Eh.
    + pose proof (put_tracks h w h' {| hash := hash tx; phase := phase tx; nTimeStemStart := nTimeStemStart tx; stemHops := hops; isOurTx := isOurTx tx |}) as Hp.
      unfold on_router in *. rewrite Ec, E, Eh. apply Hp; [|done]. right. by exists tx.
    + unfold on_router. rewrite Ec, E, Eh. destruct w. apply tracks_refl.
  - pose proof (put_tracks h w h' {| hash := h'; phase := DANDELION_STEM; nTimeStemStart := t; stemHops := hops; isOurTx := false |}) as Hp.
    unfold on_router in *. rewrite Ec, E. apply Hp; [by left|done].
Qed.

Lemma lift_tracks h draws w h' : tracks h w (lift_embargo draws w h').
Proof.
  unfold lift_embargo. cbn [pool on_router]. destruct (bool_decide_reflect (h' ∈ pool w)) as [Hp|Hp].
  - destruct (decide (h = h')) as [<-|Hne].
    + assert (gone (on_router (MarkFluffed h) w) h) as Hg by apply MarkFluffed_gone.
      destruct (relay_tracks h draws h (on_router (MarkFluffed h) w)) as [A1 A2 A3 A4 A5 A6]. split; auto.
      intros tx _. right. split; [by apply A6|]. intros _. by apply relay_gone_floods.
    + eapply tracks_trans; [by apply mark_other_tracks|apply relay_tracks].
  - destruct (decide (h = h')) as [<-|Hne]; [|by apply mark_other_tracks].
    split; try done; [|intros _; apply MarkFluffed_gone]. intros tx _. right. split; [apply MarkFluffed_gone|done].
Qed.

Lemma fold_lift_tracks h draws l w : tracks h w (fold_left (lift_embargo draws) l w).
Proof. revert w. induction l as [|x l IH]; intros w; [apply tracks_refl|]. eapply tracks_trans; [apply lift_tracks|apply IH]. Qed.

Lemma lift_gone draws w h : gone (lift_embargo draws w h) h.
Proof.
  unfold lift_embargo. destruct (bool_decide _); [|apply MarkFluffed_gone].
  eapply tr_gone; [apply relay_tracks|apply MarkFluffed_gone].
Qed.

Lemma fold_lift_gone h draws l w : h ∈ l -> gone (fold_left (lift_embargo draws) l w) h.
Proof.
  revert w. induction l as [|x l IH]; intros w; [by intros ?%elem_of_nil|]. rewrite elem_of_cons. cbn [fold_left].
  intros [<-|Hin]; [|by apply IH]. eapply tr_gone; [apply fold_lift_tracks|apply lift_gone].
Qed.

(** The sweep ends every embargo that has run out. *)
Lemma sweep_lifts draws w h tx :
  stem w h tx -> nTimeStemStart tx + DANDELION_EMBARGO_SECONDS <= now w -> gone (sweep draws w) h.
Proof.
  intros Hs Ht. unfold sweep. apply fold_lift_gone. unfold GetEmbargoedTxs.
  apply list_elem_of_In, filter_In. split.
  - apply list_elem_of_In. rewrite merge_sort_Permutation. apply elem_of_elements, elem_of_dom. by exists tx.
  - unfold stem in Hs. rewrite Hs. apply Z.leb_le. lia.
Qed.

(** One action of the node. *)
Lemma exec_tracks a w h :
  (gone w h -> gone (exec a w) h) /\
  (forall tx, stem w h tx ->
    (exists tx', stem (exec a w) h tx' /\ nTimeStemStart tx' = nTimeStemStart tx) \/
    (gone (exec a w) h /\ (h ∈ pool (exec a w) -> flooded (exec a w) h))).
Proof.
  assert (forall w' w'', router w' = router w -> tracks h w' w'' ->
    (gone w h -> gone w'' h) /\
    (forall tx, stem w h tx -> (exists tx', stem w'' h tx' /\ nTimeStemStart tx' = nTimeStemStart tx) \/
      (gone w'' h /\ (h ∈ pool w'' -> flooded w'' h)))) as Hlift.
  { intros w' w'' Er [A1 A2 A3 A4 A5 A6]. unfold stem, gone in *. rewrite Er in *. split; [done|].
    intros tx Htx. destruct (A5 tx Htx) as [|[Hg Hf]]; [by left|right]. split; [done|]. by rewrite A1. }
  destruct a as [draws h'|draws draw h'|draws h'|draws|s|nodes|txs]; cbn [exec].
  - apply (Hlift w); [done|]. eapply tracks_trans; [apply rotate_tracks|]. eapply tracks_trans; [apply add_local_tracks|apply relay_tracks].
  - unfold receive. cbv zeta. set (w1 := {| pool := {[h']} ∪ pool w |}). apply (Hlift w1); [done|].
    destruct (ShouldFluff draw (router w1) h').
    + destruct (decide (h = h')) as [<-|Hne]; [|eapply tracks_trans; [by apply mark_other_tracks|apply relay_tracks]].
      assert (gone (on_router (MarkFluffed h) w1) h) as Hg by apply MarkFluffed_gone.
      destruct (relay_tracks h draws h (on_router (MarkFluffed h) w1)) as [A1 A2 A3 A4 A5 A6]. split; auto.
      intros tx _. right. split; [by apply A6|]. intros _. by apply relay_gone_floods.
    + eapply tracks_trans; [apply rotate_tracks|]. eapply tracks_trans; [apply add_stem_tracks|apply relay_tracks].
  - apply (Hlift w); [done|apply relay_tracks].
  - apply (Hlift w); [done|apply fold_lift_tracks].
  - split; [done|]. intros tx Htx. left. by exists tx.
  - split; [done|]. intros tx Htx. left. by exists tx.
  - split; [done|]. intros tx Htx. left. by exists tx.
Qed.

Lemma exec_now a w : allowed a -> now w <= now (exec a w).
Proof.
  destruct a as [draws h'|draws draw h'|draws h'|draws|s|nodes|txs]; cbn [exec allowed now]; intros Ha; try lia.
  - unfold send_own. rewrite (tr_now 0 _ _ (relay_tracks 0 draws h' _)). cbn. lia.
  - unfold receive. rewrite (tr_now 0 _ _ (relay_tracks 0 draws h' _)). destruct (ShouldFluff _ _ _); cbn; lia.
  - rewrite (tr_now 0 _ _ (relay_tracks 0 draws h' w)). lia.
  - unfold sweep. rewrite (tr_now 0 _ _ (fold_lift_tracks 0 draws _ w)). lia.
Qed.

(** ** Executions without end *)

Section executions.
Context (run : nat -> world) (act : nat -> action).
Hypothesis run_step : forall i, allowed (act i) /\ run (S i) = exec (act i) (run i).

Lemma run_now i j : (i <= j)%nat -> now (run i) <= now (run j).
Proof.
  induction 1 as [|j Hij IH]; [lia|]. destruct (run_step j) as [Ha ->]. pose proof (exec_now _ (run j) Ha). lia.
Qed.

Lemma run_gone i j h : (i <= j)%nat -> gone (run i) h -> gone (run j) h.
Proof. induction 1 as [|j Hij IH]; [done|]. intros Hg. destruct (run_step j) as [_ ->]. apply exec_tracks. auto. Qed.

(** Up to any later moment the transaction has kept its start, or it left the phase. *)
Lemma run_stem i h tx n :
  stem (run i) h tx ->
  (exists tx', stem (run (i + n)) h tx' /\ nTimeStemStart tx' = nTimeStemStart tx) \/
  (exists j, (i <= j < i + n)%nat /\ (exists tx', stem (run j) h tx') /\ gone (run (S j)) h /\
     (h ∈ pool (run (S j)) -> flooded (run (S j)) h)).
Proof.
  intros Hs. induction n as [|n IH].
  - left. rewrite Nat.add_0_r. by exists tx.
  - destruct IH as [(tx' & Hs' & E)|(j & Hj & Hrest)]; [|right; exists j; split; [lia|done]].
    rewrite Nat.add_succ_r. destruct (run_step (i + n)) as [_ Er].
    destruct (proj2 (exec_tracks (act (i + n)) (run (i + n)) h) tx' Hs') as [(tx2 & H2 & E2)|[Hg Hf]].
    + left. rewrite Er. exists tx2. split; [done|congruence].
    + right. exists (i + n)%nat. split; [lia|]. split; [by exists tx'|]. by rewrite Er.
Qed.

End executions.

(** ** The router's invariant *)

Definition entry_ok (r : CDandelionRouter) (t : Z) (h : uint256) (tx : CDandelionTx) : Prop :=
  (h ∉ setFluffedTxs r) /\ hash tx = h /\ phase tx = DANDELION_STEM /\ 0 <= stemHops tx <= 1 /\ nTimeStemStart tx <= t.
Definition router_ok (r : CDandelionRouter) (t : Z) : Prop := forall h tx, mapStemTxs r !! h = Some tx -> entry_ok r t h tx.

Lemma ok_rotate draws t nodes r : router_ok r t -> router_ok (MaybeRotateEpoch draws t nodes r) t.
Proof. intros Hr h tx. unfold entry_ok. destruct (rotate_maps draws t nodes r) as [-> ->]. apply Hr. Qed.

Lemma ok_mark h r t : router_ok r t -> router_ok (MarkFluffed h r) t.
Proof.
  intros Hr h' tx. unfold entry_ok. cbn. rewrite lookup_delete_Some. intros [Hne (H1 & H2)%Hr]. split; [set_solver|done].
Qed.

Lemma ok_put r t h tx :
  router_ok r t -> count_fluffed r h = false -> hash tx = h -> phase tx = DANDELION_STEM -> 0 <= stemHops tx <= 1 ->
  nTimeStemStart tx <= t -> router_ok (put r h tx) t.
Proof.
  intros Hr Hc E1 E2 E3 E4 h' tx'. unfold count_fluffed in Hc. apply bool_decide_eq_false in Hc.
  unfold entry_ok. cbn. rewrite lookup_insert_Some. intros [[<- <-]|[Hne Hin]]; [done|by apply Hr].
Qed.

Lemma ok_add_local r t h : router_ok r t -> router_ok (AddLocalTx t h r) t.
Proof.
  intros Hr. unfold AddLocalTx. destruct (count_fluffed r h) eqn:Ec; [done|].
  destruct (mapStemTxs r !! h); [done|]. apply ok_put; cbn; (done || lia).
Qed.

Lemma ok_add_stem r t h : router_ok r t -> router_ok (AddStemTx t h 1 r) t.
Proof.
  intros Hr. unfold AddStemTx. destruct (count_fluffed r h) eqn:Ec; [done|].
  destruct (mapStemTxs r !! h) as [tx|] eqn:E; [|apply ok_put; cbn; (done || lia)].
  destruct (stemHops tx <? 1); [|done]. destruct (Hr _ _ E) as (H1 & H2 & H3 & H4 & H5). apply ok_put; cbn; (done || lia).
Qed.

Lemma ok_relay draws h w : router_ok (router w) (now w) -> router_ok (router (RelayTransaction draws h w)) (now w).
Proof.
  intros Hr. unfold RelayTransaction. destruct (IsStemPhase _ _); [|done]. cbv zeta.
  destruct (GetStemPeer _ _); cbn; [by apply ok_rotate|by apply ok_mark, ok_rotate].
Qed.

Lemma ok_exec a w : allowed a -> router_ok (router w) (now w) -> router_ok (router (exec a w)) (now (exec a w)).
Proof.
  intros Ha Hr. destruct a as [draws h|draws draw h|draws h|draws|s|nodes|txs]; cbn [exec allowed] in *; try done.
  - unfold send_own. rewrite (tr_now 0 _ _ (relay_tracks 0 draws h _)). apply (ok_relay draws h (on_router _ _)).
    by apply ok_add_local, ok_rotate.
  - unfold receive. cbv zeta. rewrite (tr_now 0 _ _ (relay_tracks 0 draws h _)).
    destruct (ShouldFluff _ _ _); apply (ok_relay draws h (on_router _ _)); [by apply ok_mark|by apply ok_add_stem, ok_rotate].
  - rewrite (tr_now 0 _ _ (relay_tracks 0 draws h w)). by apply ok_relay.
  - unfold sweep. generalize (GetEmbargoedTxs (now w) (router w)). intros l.
    rewrite (tr_now 0 _ _ (fold_lift_tracks 0 draws l w)). revert w Hr. induction l as [|x l IH]; intros w Hr; [done|]. cbn [fold_left].
    rewrite <-(tr_now 0 _ _ (lift_tracks 0 draws w x)). apply IH. rewrite (tr_now 0 _ _ (lift_tracks 0 draws w x)).
    unfold lift_embargo. destruct (bool_decide _); [apply (ok_relay draws x (on_router _ _))|]; by apply ok_mark.
  - intros h tx E. destruct (Hr h tx E) as (H1 & H2 & H3 & H4 & H5). cbn. split_and!; (done || cbn; lia).
Qed.

Lemma reachable_ok t nodes w : rtc step (start_world t nodes) w -> router_ok (router w) (now w).
Proof.
  intros Hr. assert (router_ok (router (start_world t nodes)) (now (start_world t nodes))) as H0 by (intros h tx E; done).
  induction Hr as [w|w w1 w2 Hs _ IH]; [done|]. apply IH. inversion Hs; subst. by apply ok_exec.
Qed.

(** In every state the node reaches, the phases are consistent (a transaction is in its stem
    phase exactly when the router holds it, and then it was never flooded), and no recorded
    path is longer than one hop: the limit of ten hops never decides, only the draw and the
    lack of peers do. *)
Theorem reachable_phases t nodes w h draw :
  rtc step (start_world t nodes) w ->
  (IsStemPhase (router w) h = true <-> is_Some (mapStemTxs (router w) !! h)) /\
  (IsStemPhase (router w) h = true <-> GetPhase (router w) h = DANDELION_STEM) /\
  (IsStemPhase (router w) h = true -> (h ∉ setFluffedTxs (router w))) /\
  ShouldFluff draw (router w) h = (bool_decide (vStemPeers (router w) = []) || (GetRand draw 100 <? FLUFF_PERCENT)).
Proof.
  intros Hr%reachable_ok. unfold IsStemPhase, GetPhase, ShouldFluff, count_fluffed.
  destruct (mapStemTxs (router w) !! h) as [tx|] eqn:E.
  - destruct (Hr h tx E) as (H1 & _ & -> & H3 & _). rewrite !bool_decide_false by done. split_and!; [done|done|done|].
    unfold DANDELION_MAX_STEM_HOPS. destruct (Z.leb_spec 10 (stemHops tx)); [lia|]. by destruct (vStemPeers (router w)).
  - split_and!; [|by destruct (bool_decide _)|by destruct (bool_decide _)|by destruct (vStemPeers (router w))].
    split; [by destruct (bool_decide _)|by intros [? ?]].
Qed.

(** ** Stem peers *)

Lemma swap_perm i j l : swap i j l ≡ₚ l.
Proof.
  unfold swap. destruct (l !! i) as [a|] eqn:Ei; [|done]. destruct (l !! j) as [b|] eqn:Ej; [|done].
  destruct (decide (i = j)) as [<-|Hne].
  - rewrite list_insert_insert_eq. assert (a = b) as -> by congruence. by rewrite list_insert_id.
  - apply Permutation_inj. split; [by rewrite !length_insert|].
    assert (i < length l)%nat by (by eapply lookup_lt_Some). assert (j < length l)%nat by (by eapply lookup_lt_Some).
    exists (fun k => if decide (k = i) then j else if decide (k = j) then i else k). split.
    + intros x y. repeat destruct (decide _); congruence.
    + intros k. destruct (decide (k = i)) as [->|]; [|destruct (decide (k = j)) as [->|]].
      * rewrite list_lookup_insert_ne, list_lookup_insert_eq by done. done.
      * rewrite list_lookup_insert_eq by (by rewrite length_insert). done.
      * by rewrite !list_lookup_insert_ne by done.
Qed.

Lemma swap_length i j l : length (swap i j l) = length l.
Proof. by rewrite (swap_perm i j l). Qed.

(** The picks are the elements from [i] on of an arrangement of the candidates that keeps
    what was picked before. *)
Lemma pick_peers_spec n i draws l :
  (i + n <= length l)%nat ->
  exists l', l' ≡ₚ l /\ take i l' = take i l /\ pick_peers n i draws l = take n (drop i l').
Proof.
  revert i l. induction n as [|n IH]; intros i l Hn; cbn [pick_peers]; [by exists l|].
  set (j := (i + Z.to_nat (GetRand (draws i) (len l - Z.of_nat i)))%nat).
  assert (i <= j)%nat as Hij by (subst j; lia).
  destruct (IH (S i) (swap i j l)) as (l' & Hp & Ht & E); [rewrite swap_length; lia|]. exists l'.
  split; [by rewrite Hp, swap_perm|].
  assert (take i (swap i j l) = take i l) as Hsw.
  { unfold swap. destruct (l !! i); [|done]. destruct (l !! j); [|done]. by rewrite !take_insert_ge by lia. }
  assert (length l' = length l) as Hlen by (by rewrite Hp, swap_length). split.
  - apply (f_equal (take i)) in Ht. rewrite !take_take in Ht. replace (i `min` S i)%nat with i in Ht by lia. congruence.
  - assert (l' !! i = swap i j l !! i) as El.
    { apply (f_equal (fun t => t !! i)) in Ht. by rewrite !lookup_take_lt in Ht by lia. }
    destruct (l' !! i) as [x|] eqn:Ex; [|apply lookup_ge_None_1 in Ex; lia].
    rewrite (drop_S _ _ _ Ex). cbn [take]. rewrite E. f_equal. by rewrite nth_lookup, <-El.
Qed.

Lemma select_spec draws nodes :
  NoDup (map address nodes) ->
  let l := SelectStemPeers draws nodes in
  NoDup l /\ len l = Z.min (len (candidates nodes)) DANDELION_STEM_PEERS /\
  forall a, a ∈ l -> exists p, p ∈ nodes /\ address p = a /\ fInbound p = false /\ fSuccessfullyConnected p = true /\ fDisconnect p = false.
Proof.
  intros Hnd l. pose proof (len_pos (candidates nodes)).
  assert (NoDup (candidates nodes)) as Hc.
  { unfold candidates. clear -Hnd. induction nodes as [|p nodes IH]; [constructor|]. cbn [map List.filter] in *. inversion Hnd as [|? ? Hnin Hnd']; subst.
    destruct (_ && _); [|by apply IH]. cbn [map]. constructor; [|by apply IH]. intros Hin. apply Hnin.
    apply list_elem_of_In, in_map_iff in Hin as (q & Eq & [Hq _]%filter_In). apply list_elem_of_In, in_map_iff. by exists q. }
  destruct (pick_peers_spec (Z.to_nat (Z.min (len (candidates nodes)) DANDELION_STEM_PEERS)) 0 draws (candidates nodes)) as (l' & Hp & _ & E).
  { unfold len, DANDELION_STEM_PEERS. lia. }
  unfold l, SelectStemPeers. rewrite drop_0 in E. rewrite E. assert (NoDup l') as Hl' by (by rewrite Hp). set (n := Z.to_nat _).
  split; [rewrite <-(take_drop n l') in Hl'; apply NoDup_app in Hl' as (Hl' & _); exact Hl'|]. split.
  - unfold len at 1. rewrite length_take, Hp. subst n. unfold len, DANDELION_STEM_PEERS in *. lia.
  - intros a Ha. assert (a ∈ l') as Ha' by (rewrite <-(take_drop n l'), elem_of_app; by left). clear Ha. rename Ha' into Ha. rewrite Hp in Ha. unfold candidates in Ha.
    apply list_elem_of_In, in_map_iff in Ha as (p & <- & [Hp1 Hp2]%filter_In). bool_prop. exists p.
    split; [by apply list_elem_of_In|]. by destruct (fInbound p), (fDisconnect p), (fSuccessfullyConnected p).
Qed.

Lemma stem_peer_in r h peer : GetStemPeer r h = Some peer -> peer ∈ vStemPeers r.
Proof.
  unfold GetStemPeer. generalize (selector h). intros sel. destruct (vStemPeers r) as [|a l]; [done|]. intros E.
  assert (0 < len (a :: l)) as Hpos by (lens; pose proof (len_pos l); lia). pose proof (Z.mod_pos_bound sel _ Hpos) as Hm.
  apply Some_inj in E as <-. apply list_elem_of_In, (nth_In (a :: l)). unfold len in *. lia.
Qed.

(** While a transaction stays in its stem phase, relaying it tells one peer at most, one of
    the epoch's stem peers; the peers of a new epoch are at most two, distinct, and none of
    them connected to us. *)
Theorem stem_relay_private draws h w :
  let w' := RelayTransaction draws h w in
  IsStemPhase (router w') h = true ->
  (exists peer, peer ∈ vStemPeers (router w') /\ forall x, x ∈ pushed w' -> x ∈ pushed w \/ x = (peer, h)) /\
  (NoDup (map address (vNodes w)) -> vStemPeers (router w') <> vStemPeers (router w) ->
   NoDup (vStemPeers (router w')) /\ len (vStemPeers (router w')) <= 2 /\
   forall a, a ∈ vStemPeers (router w') -> exists p, p ∈ vNodes w /\ address p = a /\ fInbound p = false).
Proof.
  unfold RelayTransaction. destruct (IsStemPhase (router w) h) eqn:Es; [|intros Hs; cbn in Hs; congruence]. cbv zeta.
  destruct (GetStemPeer (router (rotate draws w)) h) as [peer|] eqn:Ep; intros Hs.
  - apply stem_peer_in in Ep. split.
    + exists peer. split.
      * exact Ep.
      * intros x. cbn. rewrite elem_of_app. intros [|Hx]; [by left|right].
        apply list_elem_of_In, in_map_iff in Hx as (p & <- & [_ Hp]%filter_In). bool_prop. congruence.
    + intros Hnd Hne. cbn in *. unfold MaybeRotateEpoch in *. destruct (_ || _); [|done]. cbn in *.
      destruct (select_spec draws (vNodes w) Hnd) as (H1 & H2 & H3). split; [done|]. split; [unfold DANDELION_STEM_PEERS in H2; lia|].
      intros a Ha. destruct (H3 a Ha) as (p & Hp1 & Hp2 & Hp3 & _). by exists p.
  - exfalso. destruct (gone_not_stem _ _ (MarkFluffed_gone h (rotate draws w))) as [Hn _]. cbn in Hs, Hn. congruence.
Qed.

(** ** Instances *)

Section witnesses.
Definition sample_peer (a : Z) (inbound : bool) : CNode :=
  {| address := a; fInbound := inbound; fSuccessfullyConnected := true; fDisconnect := false; fRelayTxes := true; relevant := fun _ => true |}.
Definition sample_peers : list CNode := [sample_peer 100 false; sample_peer 200 true; sample_peer 300 false; sample_peer 400 false].
Definition no_draws : nat -> Z := fun _ => 0.

(** Transaction 4 is ours and starts the epoch, transaction 5 arrives and stays in its stem. *)
Definition sample_world : world := exec (Receive no_draws 99 5) (exec (Own no_draws 4) (start_world 1000 sample_peers)).

Lemma sample_reachable : rtc step (start_world 1000 sample_peers) sample_world.
Proof. eapply rtc_l; [by apply (step_exec (Own no_draws 4))|]. eapply rtc_l; [by apply (step_exec (Receive no_draws 99 5))|]. apply rtc_refl. Qed.

Lemma sample_stem : IsStemPhase (router sample_world) 5 = true.
Proof. vm_compute. reflexivity. Qed.

Definition sample_act (i : nat) : action := if Nat.even i then Tick 40 else Sweep no_draws.
Fixpoint sample_run (i : nat) : world := match i with O => sample_world | S i => exec (sample_act i) (sample_run i) end.

Lemma sample_step i : allowed (sample_act i) /\ sample_run (S i) = exec (sample_act i) (sample_run i).
Proof. split; [unfold sample_act; by destruct (Nat.even i)|done]. Qed.

Lemma sample_clock t : exists j, t <= now (sample_run j).
Proof.
  assert (forall k : nat, 40 * Z.of_nat k <= now (sample_run (2 * k))) as Hk.
  { induction k as [|k IH]; [change (now (sample_run (2 * 0))) with (now sample_world); assert (now sample_world = 1000) as -> by (vm_compute; reflexivity); lia|].
    replace (2 * S k)%nat with (S (S (2 * k))) by lia.
    destruct (sample_step (S (2 * k))) as [Ha Er]. rewrite Er. pose proof (exec_now _ (sample_run (S (2 * k))) Ha) as H1.
    assert (sample_act (2 * k) = Tick 40) as E1 by (unfold sample_act; by rewrite Nat.even_mul).
    assert (now (sample_run (S (2 * k))) = now (sample_run (2 * k)) + 40) as E2 by (rewrite (proj2 (sample_step (2 * k))), E1; done). lia. }
  exists (2 * Z.to_nat t)%nat. specialize (Hk (Z.to_nat t)). lia.
Qed.

Lemma sample_sweeps j : exists k draws, (j <= k)%nat /\ sample_act k = Sweep draws.
Proof.
  exists (S (2 * j)), no_draws. split; [lia|]. unfold sample_act. by rewrite Nat.even_succ, Nat.odd_mul.
Qed.


(** By the second turn the transaction is flooded. *)
Example sample_flooded : pushed (sample_run 2) = [(100, 4); (100, 5); (100, 5); (200, 5); (300, 5); (400, 5)].
Proof. vm_compute. reflexivity. Qed.

Lemma reachable_phases_witness :
  ShouldFluff 99 (router sample_world) 5 = (bool_decide (vStemPeers (router sample_world) = []) || (GetRand 99 100 <? FLUFF_PERCENT)).
Proof. apply (reachable_phases 1000 sample_peers sample_world 5 99 sample_reachable). Defined.

Lemma stem_relay_private_witness :
  exists peer, peer ∈ vStemPeers (router (RelayTransaction no_draws 5 sample_world)) /\
    forall x, x ∈ pushed (RelayTransaction no_draws 5 sample_world) -> x ∈ pushed sample_world \/ x = (peer, 5).
Proof. apply (stem_relay_private no_draws 5 sample_world). vm_compute. reflexivity. Defined.
End witnesses.

End Dandelion.
