(* ===== verification/Money.v ===== *)
(** * Amounts as text ([src/util.cpp])

    [FormatMoney] and [ParseMoney].  A text is the list of its character codes. *)

From Stdlib Require Import Strings.String.
From S2P Require Import Prelude Crypto BigNum BigArith Script Interpreter Standard Serialize MwModels Transactions Base58.
Import Transactions Base58.

Module Money.

Definition isdigit (c : Z) : bool := (48 <=? c) && (c <=? 57).

(** ** [strprintf] of integers: [PRId64] and [%08] *)

Fixpoint dec_loop (fuel : nat) (z : Z) : bytes :=
  match fuel with
  | O => []
  | S fuel => if z <? 10 then [48 + z] else dec_loop fuel (z / 10) ++ [48 + z mod 10]
  end.
(** A 64-bit number has at most 19 digits. *)
Definition dec (z : Z) : bytes := dec_loop 20 z.
Definition print_int (z : Z) : bytes := if z <? 0 then 45 :: dec (- z) else dec z.
Definition print_pad (width : nat) (z : Z) : bytes :=
  let sign := if z <? 0 then [45] else [] in
  let s := dec (Z.abs z) in
  sign ++ replicate (width - length sign - length s) 48 ++ s.

(** ** [FormatMoney] *)

Fixpoint trim_loop (fuel : nat) (str : bytes) (i : Z) : nat :=
  match fuel with
  | O => O
  | S fuel => if (at_ 0 str i =? 48) && isdigit (at_ 0 str (i - 2)) then S (trim_loop fuel str (i - 1)) else O
  end.

Definition FormatMoney (n : Z) (fPlus : bool) : bytes :=
  let n_abs := if 0 <? n then n else i64 (- n) in
  let str := print_int (Z.quot n_abs COIN) ++ [46] ++ print_pad 8 (Z.rem n_abs COIN) in
  let nTrim := trim_loop (length str) str (len str - 1) in
  let str := take (length str - nTrim) str in
  if n <? 0 then 45 :: str else if fPlus && (0 <? n) then 43 :: str else str.

(** ** [ParseMoney] *)

(** The digits after the point, on [nUnits] and [nMult], and what is left. *)
Fixpoint frac_loop (nUnits nMult : Z) (p : bytes) : Z * bytes :=
  match p with
  | c :: p' => if isdigit c && (0 <? nMult) then frac_loop (nUnits + nMult * (c - 48)) (Z.quot nMult 10) p' else (nUnits, p)
  | [] => (nUnits, [])
  end.

(** The first loop: [strWhole], [nUnits] and what is left; [None] where it returns. *)
Fixpoint whole_loop (strWhole : bytes) (p : bytes) : option (bytes * Z * bytes) :=
  match p with
  | [] => Some (strWhole, 0, [])
  | c :: p' =>
      if c =? 46 then let '(nUnits, rest) := frac_loop 0 (CENT * 10) p' in Some (strWhole, nUnits, rest)
      else if isspace c then Some (strWhole, 0, p)
      else if negb (isdigit c) then None else whole_loop (strWhole ++ [c]) p'
  end.

(** [strtoll] on digits; no number at all is 0. *)
Definition atoi64 (s : bytes) : Z := fold_left (fun a c => a * 10 + (c - 48)) s 0.

Definition ParseMoney (pszIn : bytes) : option Z :=
  match whole_loop [] (skip_spaces (c_str pszIn)) with
  | None => None
  | Some (strWhole, nUnits, rest) =>
      if negb (forallb isspace rest) then None
      else if 10 <? len strWhole then None
      else if (nUnits <? 0) || (COIN <? nUnits) then None
      else Some (i64 (i64 (atoi64 strWhole * COIN) + nUnits))
  end.

(** * Properties *)

(** ** Digits *)

Definition is_digits (s : bytes) : Prop := Forall (fun c => 48 <= c <= 57) s.

Lemma isdigit_true c : isdigit c = true <-> 48 <= c <= 57.
Proof. unfold isdigit. rewrite andb_true_iff, !Z.leb_le. done. Qed.

Lemma digit_not_space c : 48 <= c <= 57 -> isspace c = false /\ (c =? 46) = false /\ (c =? 0) = false.
Proof. intros Hc. unfold isspace. split_and!; [|apply Z.eqb_neq; lia..]. destruct (Z.eqb_spec c 32), (Z.leb_spec 9 c), (Z.leb_spec c 13); lia || done. Qed.

Lemma atoi_app s t : is_digits t -> atoi64 (s ++ t) = atoi64 s * 10 ^ len t + atoi64 t.
Proof.
  unfold atoi64. rewrite fold_left_app. generalize (fold_left (fun a c => a * 10 + (c - 48)) s 0). intros a Ht.
  assert (forall b, fold_left (fun a c => a * 10 + (c - 48)) t (a + b) = a * 10 ^ len t + fold_left (fun a c => a * 10 + (c - 48)) t b) as Hf.
  { clear Ht. revert a. induction t as [|c t IH]; intros a b; cbn [fold_left]; [change (@len Z []) with 0; lia|].
    replace ((a + b) * 10 + (c - 48)) with (a * 10 + (b * 10 + (c - 48))) by lia. rewrite IH, len_cons, Z.pow_add_r by (pose proof (len_pos t); lia). ring. }
  rewrite <-(Hf 0). by rewrite Z.add_0_r.
Qed.

Lemma atoi_range s : is_digits s -> 0 <= atoi64 s < 10 ^ len s.
Proof.
  induction s as [|c s IH] using rev_ind; [done|]. intros [Hs Hc]%Forall_app. specialize (IH Hs). inversion Hc; subst.
  rewrite atoi_app by done. rewrite len_app, Z.pow_add_r by (apply len_pos). change (len [c]) with 1. change (10 ^ 1) with 10.
  change (atoi64 [c]) with (0 * 10 + (c - 48)). lia.
Qed.

Lemma dec_loop_spec fuel z :
  0 <= z < 10 ^ Z.of_nat (S fuel) ->
  is_digits (dec_loop (S fuel) z) /\ atoi64 (dec_loop (S fuel) z) = z /\
  forall n, 1 <= n -> z < 10 ^ n -> len (dec_loop (S fuel) z) <= n.
Proof.
  revert z. induction fuel as [|fuel IH]; intros z Hz; cbn [dec_loop].
  - change (10 ^ Z.of_nat 1) with 10 in Hz. destruct (Z.ltb_spec z 10); [|lia]. split_and!.
    + repeat constructor; lia.
    + unfold atoi64. cbn [fold_left]. lia.
    + intros n Hn _. exact Hn.
  - destruct (Z.ltb_spec z 10) as [|Hz10]; [split_and!; [repeat constructor; lia|unfold atoi64; cbn [fold_left]; lia|intros n Hn _; exact Hn]|].
    rewrite Nat2Z.inj_succ, Z.pow_succ_r in Hz by lia. pose proof (Z.mod_pos_bound z 10 ltac:(lia)). pose proof (Z.div_mod z 10 ltac:(lia)) as Ed.
    destruct (IH (z / 10)) as (I1 & I2 & I3); [split; [apply Z.div_pos; lia|apply Z.div_lt_upper_bound; lia]|].
    assert (is_digits [48 + z mod 10]) as Hd by (repeat constructor; lia).
    change (if z / 10 <? 10 then [48 + z / 10] else dec_loop fuel (z / 10 / 10) ++ [48 + (z / 10) mod 10]) with (dec_loop (S fuel) (z / 10)).
    split_and!.
    + apply Forall_app. split; [exact I1|exact Hd].
    + rewrite atoi_app, I2 by done. change (len [48 + z mod 10]) with 1. unfold atoi64. cbn [fold_left]. change (10 ^ 1) with 10. lia.
    + intros n Hn Hlt. rewrite len_app. change (len [48 + z mod 10]) with 1.
      assert (1 < n) by (destruct (Z.eq_dec n 1) as [->|]; [change (10 ^ 1) with 10 in Hlt; lia|lia]).
      assert (len (dec_loop (S fuel) (z / 10)) <= n - 1); [|lia]. apply I3; [lia|].
      apply Z.div_lt_upper_bound; [lia|]. rewrite <-Z.pow_succ_r by lia. replace (Z.succ (n - 1)) with n by lia. exact Hlt.
Qed.

Lemma dec_spec z n :
  0 <= z < 10 ^ n -> 1 <= n <= 20 -> is_digits (dec z) /\ atoi64 (dec z) = z /\ len (dec z) <= n.
Proof.
  intros Hz Hn. destruct (dec_loop_spec 19 z) as (H1 & H2 & H3).
  - split; [lia|]. change (Z.of_nat 20) with 20. eapply Z.lt_le_trans; [apply Hz|]. apply Z.pow_le_mono_r; lia.
  - split; [exact H1|]. split; [exact H2|]. apply H3; lia.
Qed.

Lemma atoi_zeros k s : is_digits s -> atoi64 (replicate k 48 ++ s) = atoi64 s.
Proof.
  intros Hs. rewrite atoi_app by done. assert (atoi64 (replicate k 48) = 0) as ->; [|lia].
  unfold atoi64. induction k as [|k IH]; [done|]. cbn [replicate fold_left]. exact IH.
Qed.

Lemma zeros_digits k : is_digits (replicate k 48).
Proof. apply Forall_replicate. lia. Qed.

Lemma print_pad_spec r : 0 <= r < COIN -> is_digits (print_pad 8 r) /\ atoi64 (print_pad 8 r) = r /\ length (print_pad 8 r) = 8%nat.
Proof.
  intros Hr. change COIN with (10 ^ 8) in Hr. destruct (dec_spec r 8 Hr ltac:(lia)) as (H1 & H2 & H3).
  unfold print_pad. destruct (Z.ltb_spec r 0); [lia|]. rewrite Z.abs_eq by lia. cbn [app length]. split_and!.
  - apply Forall_app. split; [apply zeros_digits|exact H1].
  - by rewrite atoi_zeros.
  - rewrite length_app, length_replicate. unfold len in H3. lia.
Qed.

(** ** Trimming *)

Lemma at_skip (W : bytes) l i : 0 <= i -> at_ 0 (W ++ l) (len W + i) = at_ 0 l i.
Proof.
  intros Hi. unfold at_, len. destruct (Z.ltb_spec (Z.of_nat (length W) + i) 0), (Z.ltb_spec i 0); try lia.
  rewrite app_nth2 by lia. f_equal. lia.
Qed.
Lemma at_end (l : bytes) c t : at_ 0 (l ++ c :: t) (len l) = c.
Proof. rewrite <-(Z.add_0_r (len l)). by rewrite at_skip. Qed.

Lemma trim_spec W F Z0 fuel :
  is_digits F -> (2 <= length F)%nat -> (length F <= fuel)%nat ->
  exists F1, F = F1 ++ replicate (trim_loop fuel (W ++ 46 :: F ++ Z0) (len W + len F)) 48 /\ 2 <= len F1.
Proof.
  revert fuel Z0. induction F as [|c F IH] using rev_ind; intros fuel Z0 Hd H2 Hf; [simpl in H2; lia|].
  rewrite length_app in *. cbn [length] in *. destruct fuel as [|fuel]; [lia|]. apply Forall_app in Hd as [Hd Hc].
  assert (Forall (fun c0 => 48 <= c0 <= 57) [c]) as Hc' by exact Hc. inversion Hc as [|? ? Hc1 _]; subst.
  rewrite len_app. change (len [c]) with 1. cbn [trim_loop]. rewrite <-app_assoc. cbn [app].
  assert (at_ 0 (W ++ 46 :: F ++ c :: Z0) (len W + (len F + 1)) = c) as ->.
  { rewrite at_skip by (pose proof (len_pos F); lia). rewrite Z.add_comm. change (46 :: F ++ c :: Z0) with ([46] ++ F ++ c :: Z0).
    change 1 with (len [46]) at 1. rewrite at_skip by apply len_pos. apply at_end. }
  destruct (Z.eqb_spec c 48) as [->|Hne]; cbn [andb]; [|exists (F ++ [c]); rewrite app_nil_r; split; [done|rewrite len_app; change (len [c]) with 1; unfold len; lia]].
  destruct (decide (length F = 1)%nat) as [E1|E1].
  - destruct F as [|d [|? ?]]; cbn in E1; try lia. change (len [d]) with 1.
    assert (at_ 0 (W ++ 46 :: [d] ++ 48 :: Z0) (len W + (1 + 1) - 2) = 46) as Eat.
    { replace (len W + (1 + 1) - 2) with (len W) by lia. apply at_end. }
    cbn [app] in Eat |- *. rewrite Eat. cbn. exists [d; 48]. done.
  - assert (isdigit (at_ 0 (W ++ 46 :: F ++ 48 :: Z0) (len W + (len F + 1) - 2)) = true) as ->.
    { assert (2 <= len F) by (unfold len; lia).
      assert (at_ 0 (W ++ 46 :: F ++ 48 :: Z0) (len W + (len F + 1) - 2) = at_ 0 F (len F - 2)) as ->.
      { replace (len W + (len F + 1) - 2) with (len W + (1 + (len F - 2))) by lia. rewrite at_skip by lia.
        change (46 :: F ++ 48 :: Z0) with ([46] ++ F ++ 48 :: Z0). change 1 with (len [46]) at 1. rewrite at_skip by lia.
        unfold at_. destruct (_ <? 0); [done|]. apply app_nth1. unfold len in *. lia. }
      pose proof (at_lookup_lt 0 F (len F - 2) ltac:(unfold len in *; lia)) as Hl.
      apply isdigit_true. exact (Forall_lookup_1 _ _ _ _ Hd Hl). }
    replace (len W + (len F + 1) - 1) with (len W + len F) by lia.
    destruct (IH fuel (48 :: Z0) Hd ltac:(lia) ltac:(lia)) as (F1 & E & Hl). exists F1. split; [|done].
    rewrite E at 1. rewrite <-app_assoc. f_equal. cbn [replicate]. rewrite <-(replicate_cons_app _ (48:Z)). done.
Qed.

(** ** Reading *)

Lemma frac_spec F u n :
  is_digits F -> len F <= n <= 8 ->
  frac_loop u (if n =? 0 then 0 else 10 ^ (n - 1)) F = (u + atoi64 F * 10 ^ (n - len F), []).
Proof.
  revert u n. induction F as [|c F IH]; intros u n Hd Hn; [cbn; f_equal; lia|].
  inversion Hd as [|? ? Hc Hd']; subst. rewrite len_cons in Hn |- *. pose proof (len_pos F). cbn [frac_loop].
  destruct (Z.eqb_spec n 0); [lia|]. rewrite (proj2 (isdigit_true c) Hc).
  assert (0 < 10 ^ (n - 1)) by (apply Z.pow_pos_nonneg; lia). destruct (Z.ltb_spec 0 (10 ^ (n - 1))); [|lia]. cbn [andb].
  assert (Z.quot (10 ^ (n - 1)) 10 = if n - 1 =? 0 then 0 else 10 ^ (n - 1 - 1)) as ->.
  { rewrite Z.quot_div_nonneg by lia. destruct (Z.eqb_spec (n - 1) 0) as [->|]; [done|].
    replace (n - 1) with (Z.succ (n - 1 - 1)) at 1 by lia. rewrite Z.pow_succ_r, Z.mul_comm by lia. by apply Z.div_mul. }
  rewrite IH by (done || lia). f_equal. change (c :: F) with ([c] ++ F). rewrite atoi_app by done.
  change (atoi64 [c]) with (0 * 10 + (c - 48)). replace (n - 1 - len F) with (n - (1 + len F)) by lia.
  replace (n - 1) with (len F + (n - (1 + len F))) at 1 by lia. rewrite Z.pow_add_r by lia. ring.
Qed.

Lemma whole_digits W0 W p : is_digits W -> whole_loop W0 (W ++ p) = whole_loop (W0 ++ W) p.
Proof.
  intros Hd. revert W0. induction Hd as [|c W Hc Hd IH]; intros W0; [by rewrite app_nil_r|]. cbn [app whole_loop].
  destruct (digit_not_space c Hc) as (-> & -> & _). rewrite (proj2 (isdigit_true c) Hc). cbn [negb]. rewrite IH, <-app_assoc. done.
Qed.

Lemma c_str_id s : Forall (fun c => c <> 0) s -> c_str s = s.
Proof. induction 1 as [|c s Hc Hs IH]; [done|]. cbn [c_str]. destruct (Z.eqb_spec c 0); [done|]. by rewrite IH. Qed.

Lemma digits_nonzero s : is_digits s -> Forall (fun c => c <> 0) s.
Proof. intros Hs. apply (Forall_impl _ _ _ Hs). intros c. lia. Qed.

(** What [FormatMoney] writes of an amount. *)
Lemma format_parts n :
  0 <= n < 10 ^ 18 ->
  exists W F, FormatMoney n false = W ++ 46 :: F /\ is_digits W /\ is_digits F /\ 1 <= len W <= 10 /\ 2 <= len F <= 8 /\
    atoi64 W * COIN + atoi64 F * 10 ^ (8 - len F) = n.
Proof.
  intros Hn. unfold FormatMoney. cbv zeta. assert ((if 0 <? n then n else i64 (- n)) = n) as ->.
  { destruct (Z.ltb_spec 0 n); [done|]. rewrite i64_id by lia. lia. }
  assert (COIN = 10 ^ 8) as EC by done. rewrite Z.quot_div_nonneg, Z.rem_mod_nonneg by lia.
  pose proof (Z.mod_pos_bound n COIN ltac:(lia)) as Hm. pose proof (Z.div_mod n COIN ltac:(lia)) as Ed.
  assert (0 <= n / COIN < 10 ^ 10) as Hq by (split; [apply Z.div_pos; lia|apply Z.div_lt_upper_bound; lia]).
  destruct (dec_spec (n / COIN) 10 Hq ltac:(lia)) as (W1 & W2 & W3). destruct (print_pad_spec (n mod COIN) Hm) as (P1 & P2 & P3).
  unfold print_int. destruct (Z.ltb_spec (n / COIN) 0); [lia|]. destruct (Z.ltb_spec n 0); [lia|]. cbn [andb].
  set (W := dec (n / COIN)) in *. set (F := print_pad 8 (n mod COIN)) in *. cbn [app].
  destruct (trim_spec W F [] (length (W ++ 46 :: F)) P1 ltac:(lia)) as (F1 & EF & HF1); [rewrite length_app; simpl; lia|].
  rewrite app_nil_r in EF. assert (len (W ++ 46 :: F) - 1 = len W + len F) as -> by (rewrite len_app, len_cons; lia).
  set (k := trim_loop _ _ _) in *. exists W, F1. assert (length F = (length F1 + k)%nat) as Elen by (rewrite EF, length_app, length_replicate; done).
  assert (is_digits F1) as HD1 by (rewrite EF in P1; apply Forall_app in P1; apply P1). split_and!; try done.
  - assert (W ++ 46 :: F = (W ++ 46 :: F1) ++ replicate k 48) as E by (rewrite EF at 1; rewrite <-app_assoc; done).
    rewrite E, length_app, length_replicate, Nat.add_sub. apply take_app_length.
  - unfold W, dec, len. change (dec_loop 20 (n / COIN)) with (if n / COIN <? 10 then [48 + n / COIN] else dec_loop 19 (n / COIN / 10) ++ [48 + (n / COIN) mod 10]).
    destruct (_ <? _); [done|]. rewrite length_app. cbn [length]. lia.
  - unfold len. lia.
  - rewrite W2. rewrite EF, atoi_app in P2 by apply zeros_digits. assert (atoi64 (replicate k 48) = 0) as E0.
    { rewrite <-(app_nil_r (replicate k 48)). rewrite atoi_zeros by constructor. reflexivity. }
    assert (len (replicate k 48) = 8 - len F1) as Ek by (unfold len; rewrite length_replicate; lia).
    rewrite E0, Z.add_0_r, Ek in P2. rewrite P2. lia.
Qed.

Lemma parse_parts W F :
  is_digits W -> is_digits F -> 1 <= len W <= 10 -> 2 <= len F <= 8 ->
  ParseMoney (W ++ 46 :: F) = Some (atoi64 W * COIN + atoi64 F * 10 ^ (8 - len F)).
Proof.
  intros HW HF LW LF. unfold ParseMoney. rewrite c_str_id.
  2:{ apply Forall_app. split; [by apply digits_nonzero|]. constructor; [lia|by apply digits_nonzero]. }
  assert (skip_spaces (W ++ 46 :: F) = W ++ 46 :: F) as ->.
  { destruct HW as [|c W Hc HW]; [done|]. cbn [app skip_spaces]. by destruct (digit_not_space c Hc) as (-> & _). }
  rewrite whole_digits by done. cbn [app whole_loop]. change (46 =? 46) with true. cbv iota.
  change (CENT * 10) with (if 8 =? 0 then 0 else 10 ^ (8 - 1)). rewrite frac_spec by (done || lia). cbn [forallb negb].
  destruct (Z.ltb_spec 10 (len W)); [lia|]. rewrite Z.add_0_l. pose proof (atoi_range W HW) as RW. pose proof (atoi_range F HF) as RF.
  assert (10 ^ len W <= 10 ^ 10) by (apply Z.pow_le_mono_r; lia). assert (COIN = 10 ^ 8) as EC by done.
  assert (0 < 10 ^ (8 - len F)) by (apply Z.pow_pos_nonneg; lia).
  assert (10 ^ len F * 10 ^ (8 - len F) = 10 ^ 8) as EP by (rewrite <-Z.pow_add_r by lia; f_equal; lia).
  assert (0 <= atoi64 F * 10 ^ (8 - len F) < 10 ^ 8) by nia.
  destruct (Z.ltb_spec (atoi64 F * 10 ^ (8 - len F)) 0), (Z.ltb_spec COIN (atoi64 F * 10 ^ (8 - len F))); try lia. cbn [orb].
  rewrite (i64_id (atoi64 W * COIN)), i64_id by lia. done.
Qed.

Lemma parse_sign s c : c = 43 \/ c = 45 -> ParseMoney (c :: s) = None.
Proof. intros [-> | ->]; reflexivity. Qed.

Lemma whole_loop_digits p W0 : is_digits W0 -> forall W u r, whole_loop W0 p = Some (W, u, r) -> is_digits W.
Proof.
  revert W0. induction p as [|c p IH]; intros W0 H0 W u r; cbn [whole_loop]; [by intros [= <- _ _]|].
  destruct (c =? 46); [destruct (frac_loop _ _ _); by intros [= <- _ _]|]. destruct (isspace c); [by intros [= <- _ _]|].
  destruct (isdigit c) eqn:Ec; [|done]. cbn [negb]. apply IH. apply Forall_app. split; [done|]. constructor; [by apply isdigit_true|constructor].
Qed.

(** An amount that is written is read back, whatever zeroes are trimmed, while signed amounts
    are refused; and no text makes the reading overflow: the result is an amount of at most
    ten billion coins. *)
Theorem money_roundtrip n s v :
  0 <= n <= MAX_MONEY -> ParseMoney s = Some v ->
  ParseMoney (FormatMoney n false) = Some n /\
  (0 < n -> ParseMoney (FormatMoney n true) = None /\ forall fPlus, ParseMoney (FormatMoney (- n) fPlus) = None) /\
  0 <= v <= 10 ^ 10 * COIN.
Proof.
  intros Hn Hv. assert (MAX_MONEY = 10 ^ 17) as EM by done. split; [|split].
  - destruct (format_parts n ltac:(lia)) as (W & F & -> & HW & HF & LW & LF & <-). by apply parse_parts.
  - intros Hpos. unfold FormatMoney. cbv zeta. split; [|intros fPlus].
    + destruct (Z.ltb_spec n 0); [lia|]. destruct (Z.ltb_spec 0 n); [|lia]. cbn [andb]. apply parse_sign. by left.
    + destruct (Z.ltb_spec (- n) 0); [|lia]. apply parse_sign. by right.
  - unfold ParseMoney in Hv. destruct (whole_loop _ _) as [[[W u] r]|] eqn:E; [|discriminate Hv].
    apply whole_loop_digits in E; [|constructor]. destruct (negb _); [discriminate Hv|].
    destruct (Z.ltb_spec 10 (len W)) as [|Hl]; [discriminate Hv|].
    destruct (Z.ltb_spec u 0) as [|Hu0]; [discriminate Hv|]. destruct (Z.ltb_spec COIN u) as [|Hu]; [discriminate Hv|].
    cbn [orb] in Hv. apply Some_inj in Hv as <-.
    pose proof (atoi_range W E) as RW. clear E.
    assert (10 ^ len W <= 10 ^ 10) as Hp by (apply Z.pow_le_mono_r; lia). clear Hl.
    assert (COIN = 10 ^ 8) as EC by reflexivity.
    clear Hn EM. rewrite EC in *. clear EC. revert RW. generalize (atoi64 W). intros w RW.
    rewrite (i64_id (w * 10 ^ 8)), i64_id by lia. lia.
Qed.

(** ** Instances *)

Example format_trims : FormatMoney 1234500000 false = chars "12.345" /\ FormatMoney 420000000 true = chars "+4.20".
Proof. vm_compute. split; reflexivity. Qed.

Lemma money_roundtrip_witness :
  ParseMoney (FormatMoney 123450000 false) = Some 123450000 /\ 0 <= 150000000 <= 10 ^ 10 * COIN.
Proof.
  destruct (money_roundtrip 123450000 [49; 46; 53] 150000000) as (H1 & _ & H3).
  - vm_compute. split; discriminate.
  - vm_compute. reflexivity.
  - split; [exact H1|exact H3].
Defined.

End Money.
