(* ===== verification/Sighash.v ===== *)
(** * Signature checks ([src/script.cpp]: [SignatureHash], [CSignatureCache], [CheckSig])

    What a signature signs, and the check of one signature with the cache of those
    that verified.  OpenSSL's curve functions are the class [OpenSSLEC].  A cache
    is the list of its entries in the order of the [std::set]. *)

From S2P Require Import Prelude Crypto Serialize Script Transactions Interpreter.
Import Stream Script Transactions Interpreter.

Module Sighash.

Definition SIGHASH_ALL : Z := 1.
Definition SIGHASH_NONE : Z := 2.
Definition SIGHASH_SINGLE : Z := 3.
Definition SIGHASH_ANYONECANPAY : Z := 0x80.

Definition with_scriptSig (s : bytes) (i : CTxIn) : CTxIn :=
  {| prevout := prevout i; scriptSig := s; nSequence := nSequence i |}.
Definition with_nSequence (q : Z) (i : CTxIn) : CTxIn :=
  {| prevout := prevout i; scriptSig := scriptSig i; nSequence := q |}.
Definition with_vin (v : list CTxIn) (t : CTransaction) : CTransaction :=
  {| nVersion := nVersion t; nTime := nTime t; vin := v; vout := vout t; nLockTime := nLockTime t; mwTx := mwTx t |}.
Definition with_vout (v : list CTxOut) (t : CTransaction) : CTransaction :=
  {| nVersion := nVersion t; nTime := nTime t; vin := vin t; vout := v; nLockTime := nLockTime t; mwTx := mwTx t |}.

(** Every input but the one at [nIn] gets sequence number 0. *)
Definition release_others (nIn : Z) (v : list CTxIn) : list CTxIn :=
  imap (fun i txin => if Z.of_nat i =? nIn then txin else with_nSequence 0 txin) v.

(** [txTmp], the transaction as it is signed; [None] where the function returns 1. *)
Definition signed_tx (scriptCode : bytes) (txTo : CTransaction) (nIn nHashType : Z) : option CTransaction :=
  if len (vin txTo) <=? nIn then None
  else
    let scriptCode := (FindAndDelete scriptCode [OP_CODESEPARATOR]).1 in
    let v := map (with_scriptSig []) (vin txTo) in
    let txTmp := with_vin (alter (with_scriptSig scriptCode) (Z.to_nat nIn) v) txTo in
    let r :=
      if Z.land nHashType 0x1f =? SIGHASH_NONE then
        Some (with_vin (release_others nIn (vin txTmp)) (with_vout [] txTmp))
      else if Z.land nHashType 0x1f =? SIGHASH_SINGLE then
        let nOut := nIn in
        if len (vout txTmp) <=? nOut then None
        else
          let o := take (Z.to_nat (nOut + 1)) (vout txTmp) in
          let o := imap (fun i txout => if Z.of_nat i <? nOut then null_txout else txout) o in
          Some (with_vin (release_others nIn (vin txTmp)) (with_vout o txTmp))
      else Some txTmp in
    match r with
    | None => None
    | Some txTmp =>
        if negb (Z.land nHashType SIGHASH_ANYONECANPAY =? 0)
        then Some (with_vin (take 1 (drop (Z.to_nat nIn) (vin txTmp))) txTmp)
        else Some txTmp
    end.

(** What is hashed: the transaction and the hash type. *)
Definition signature_preimage (scriptCode : bytes) (txTo : CTransaction) (nIn nHashType : Z) : option bytes :=
  match signed_tx scriptCode txTo nIn nHashType with
  | None => None
  | Some txTmp => Some (Serialize (c_pair c_tx (c_sint 4)) (txTmp, nHashType))
  end.

Section hashed.
Context `{Sha256}.

Definition SignatureHash (scriptCode : bytes) (txTo : CTransaction) (nIn nHashType : Z) : uint256 :=
  match signature_preimage scriptCode txTo nIn nHashType with
  | None => 1
  | Some ss => sha256_twice ss
  end.
End hashed.

(** ** The cache of valid signatures *)

(** [sigdata_type], compared as tuples. *)
Definition sigdata : Type := uint256 * bytes * bytes.

Fixpoint vec_lt (a b : bytes) : bool :=
  match a, b with
  | _, [] => false
  | [], _ :: _ => true
  | x :: a, y :: b => if x <? y then true else if y <? x then false else vec_lt a b
  end.

Definition sigdata_lt (a b : sigdata) : bool :=
  let '(h1, s1, p1) := a in
  let '(h2, s2, p2) := b in
  if h1 <? h2 then true else if h2 <? h1 then false
  else if vec_lt s1 s2 then true else if vec_lt s2 s1 then false
  else vec_lt p1 p2.

Definition cache : Type := list sigdata.

Definition Get (c : cache) (h : uint256) (vchSig pubKey : bytes) : bool := bool_decide ((h, vchSig, pubKey) ∈ c).

(** [insert] of a [std::set]. *)
Fixpoint set_insert (k : sigdata) (c : cache) : cache :=
  match c with
  | [] => [k]
  | x :: c' => if sigdata_lt k x then k :: c else if sigdata_lt x k then x :: set_insert k c' else c
  end.

(** [erase] of the element at [lower_bound], or of the first if there is none. *)
Fixpoint erase_from (k : sigdata) (c : cache) : option cache :=
  match c with
  | [] => None
  | x :: c => if sigdata_lt x k then match erase_from k c with Some c => Some (x :: c) | None => None end else Some c
  end.
Definition evict (randomHash : uint256) (c : cache) : cache :=
  match erase_from (randomHash, [], []) c with Some c => c | None => tail c end.

(** The eviction loop: [rnd] gives the hash of each turn.  A turn removes an entry,
    so the number of entries is enough fuel. *)
Fixpoint evict_loop (fuel : nat) (nMaxCacheSize : Z) (rnd : nat -> uint256) (c : cache) : cache :=
  match fuel with
  | O => c
  | S f => if nMaxCacheSize <? len c then evict_loop f nMaxCacheSize rnd (evict (rnd f) c) else c
  end.

Definition Set_ (nMaxCacheSize : Z) (rnd : nat -> uint256) (c : cache) (h : uint256) (vchSig pubKey : bytes) : cache :=
  if nMaxCacheSize <=? 0 then c
  else set_insert (h, vchSig, pubKey) (evict_loop (length c) nMaxCacheSize rnd c).

(** ** One signature *)

(** [o2i_ECPublicKey] and [ECDSA_verify], which returns 1 for a valid signature. *)
Class OpenSSLEC := {
  eckey : Type;
  o2i_ECPublicKey : bytes -> option eckey;
  ECDSA_verify : bytes -> bytes -> eckey -> Z
}.

Section checks.
Context `{Sha256} `{OpenSSLEC}.

(** [CKey::SetPubKey] on a new key, and [CKey::Verify]. *)
Definition SetPubKey (vchPubKey : bytes) : option eckey := o2i_ECPublicKey vchPubKey.
Definition Verify (key : eckey) (h : uint256) (vchSig : bytes) : bool :=
  ECDSA_verify (uint256_bytes h) vchSig key =? 1.

(** What the cache is asked with: the hash type of the signature and the signature
    without it. *)
Definition split_sig (vchSig : bytes) (nHashType : Z) : option (bytes * Z) :=
  match last vchSig with
  | None => None
  | Some back =>
      if nHashType =? 0 then Some (removelast vchSig, back)
      else if nHashType =? back then Some (removelast vchSig, nHashType) else None
  end.

(** The function with its static cache, which it returns. *)
Definition CheckSig (nMaxCacheSize : Z) (rnd : nat -> uint256) (txTo : CTransaction) (nIn nHashType : Z)
    (signatureCache : cache) (vchSig vchPubKey scriptCode : bytes) : bool * cache :=
  match split_sig vchSig nHashType with
  | None => (false, signatureCache)
  | Some (vchSig, nHashType) =>
      let sighash := SignatureHash scriptCode txTo nIn nHashType in
      if Get signatureCache sighash vchSig vchPubKey then (true, signatureCache)
      else
        match SetPubKey vchPubKey with
        | None => (false, signatureCache)
        | Some key =>
            if negb (Verify key sighash vchSig) then (false, signatureCache)
            else (true, Set_ nMaxCacheSize rnd signatureCache sighash vchSig vchPubKey)
        end
  end.

(** The same without a cache: the interpreter's check. *)
Definition verified (h : uint256) (vchSig vchPubKey : bytes) : bool :=
  match SetPubKey vchPubKey with None => false | Some key => Verify key h vchSig end.

Definition checker (txTo : CTransaction) (nIn nHashType : Z) : SigChecker := fun vchSig vchPubKey scriptCode =>
  match split_sig vchSig nHashType with
  | None => false
  | Some (vchSig, nHashType) => verified (SignatureHash scriptCode txTo nIn nHashType) vchSig vchPubKey
  end.
End checks.

(** * Properties *)

(** ** The cache *)

Section cache.
Context `{Sha256} `{OpenSSLEC}.

(** A cache is sound when its entries verify. *)
Definition cache_sound (c : cache) : Prop := Forall (fun '(h, s, p) => verified h s p = true) c.

Lemma set_insert_sound k c : verified k.1.1 k.1.2 k.2 = true -> cache_sound c -> cache_sound (set_insert k c).
Proof.
  unfold cache_sound. destruct k as [[h s] p]. cbn [fst snd]. intros Hk. induction 1 as [|x c Hx Hc IH]; cbn [set_insert].
  - by constructor.
  - repeat case_match; by repeat constructor.
Qed.

Lemma erase_from_sound k c c' : cache_sound c -> erase_from k c = Some c' -> cache_sound c'.
Proof.
  intros Hc. revert c'. induction Hc as [|x c Hx Hc IH]; intros c'; cbn [erase_from]; [done|].
  destruct (sigdata_lt x k); [|by intros [= <-]]. destruct (erase_from k c); [|done].
  intros [= <-]. constructor; [done|]. by apply IH.
Qed.

Lemma evict_sound r c : cache_sound c -> cache_sound (evict r c).
Proof.
  intros Hc. unfold evict. destruct (erase_from _ c) eqn:E; [by eapply erase_from_sound|]. by apply Forall_tail.
Qed.

Lemma evict_loop_sound fuel m rnd c : cache_sound c -> cache_sound (evict_loop fuel m rnd c).
Proof.
  revert c. induction fuel as [|f IH]; intros c Hc; cbn [evict_loop]; [done|].
  destruct (m <? len c); [|done]. by apply IH, evict_sound.
Qed.

(** C38. With a cache of verified signatures, whatever its size and whichever entries
    were evicted, [CheckSig] has the result it has without a cache, and the cache it
    leaves has only verified signatures. *)
Theorem check_sig_cache_transparent nMaxCacheSize rnd txTo nIn nHashType c vchSig vchPubKey scriptCode :
  cache_sound c ->
  (CheckSig nMaxCacheSize rnd txTo nIn nHashType c vchSig vchPubKey scriptCode).1 =
    checker txTo nIn nHashType vchSig vchPubKey scriptCode /\
  cache_sound (CheckSig nMaxCacheSize rnd txTo nIn nHashType c vchSig vchPubKey scriptCode).2.
Proof.
  intros Hc. unfold CheckSig, checker. destruct (split_sig vchSig nHashType) as [[sig ht]|]; [|done].
  unfold Get, verified. destruct (bool_decide_reflect ((SignatureHash scriptCode txTo nIn ht, sig, vchPubKey) ∈ c)) as [Hin|_].
  - split; [|done]. unfold cache_sound in Hc. rewrite Forall_forall in Hc. symmetry. exact (Hc _ Hin).
  - destruct (SetPubKey vchPubKey) as [key|] eqn:Ek; [|done].
    destruct (Verify key _ sig) eqn:Ev; cbn [negb]; [|done]. split; [done|]. unfold Set_. destruct (_ <=? 0); [done|].
    apply set_insert_sound; [|by apply evict_loop_sound]. cbn [fst snd]. unfold verified. by rewrite Ek.
Qed.

Lemma erase_from_length k c c' : erase_from k c = Some c' -> length c = S (length c').
Proof.
  revert c'. induction c as [|x c IH]; intros c'; cbn [erase_from]; [done|].
  destruct (sigdata_lt x k); [|by intros [= <-]]. destruct (erase_from k c) eqn:E; [|done].
  intros [= <-]. cbn. f_equal. by apply IH.
Qed.

Lemma evict_length r c : c <> [] -> length c = S (length (evict r c)).
Proof.
  intros Hc. unfold evict. destruct (erase_from _ c) eqn:E; [by eapply erase_from_length|]. by destruct c.
Qed.

(** The cache never grows past its limit by more than the new entry. *)
Lemma set_insert_length k c : (length (set_insert k c) <= S (length c))%nat.
Proof. induction c as [|x c IH]; cbn [set_insert]; [done|]. repeat case_match; cbn in *; lia. Qed.

Lemma evict_loop_size fuel m rnd c :
  0 <= m -> (length c <= fuel)%nat -> len (evict_loop fuel m rnd c) <= m.
Proof.
  intros Hm. revert c. induction fuel as [|f IH]; intros c Hf; cbn [evict_loop].
  - destruct c; [rewrite len_nil; lia|simpl in Hf; lia].
  - destruct (Z.ltb_spec m (len c)); [|lia]. apply IH.
    assert (c <> []) as Hc by (intros ->; rewrite len_nil in *; lia). pose proof (evict_length (rnd f) c Hc). lia.
Qed.

(** The cache is bounded: whatever it held before, a successful check leaves at most
    one entry more than the limit. *)
Theorem cache_bounded nMaxCacheSize rnd c h vchSig vchPubKey :
  0 < nMaxCacheSize -> len (Set_ nMaxCacheSize rnd c h vchSig vchPubKey) <= nMaxCacheSize + 1.
Proof.
  intros Hm. unfold Set_. destruct (Z.leb_spec nMaxCacheSize 0); [lia|].
  pose proof (evict_loop_size (length c) nMaxCacheSize rnd c ltac:(lia) ltac:(lia)).
  pose proof (set_insert_length (h, vchSig, vchPubKey) (evict_loop (length c) nMaxCacheSize rnd c)). unfold len in *. lia.
Qed.
End cache.

(** ** What a signature binds *)

Lemma wf_with_vin v t : wf c_tx t -> len v <= MAX_SIZE -> Forall (wf c_txin) v -> wf c_tx (with_vin v t).
Proof.
  intros (Hv & Hr & ((((Ht & Hi) & Ho) & Hl) & Hm)) Hlen Hall.
  exact (conj Hv (conj Hr (conj (conj (conj (conj Ht (conj Hlen Hall)) Ho) Hl) Hm))).
Qed.

Lemma wf_with_scriptSig s i :
  wf c_txin i -> len s <= MAX_SIZE -> bytes_ok s -> wf c_txin (with_scriptSig s i).
Proof. intros ((Hp & _) & Hq) Hl Hs. exact (conj (conj Hp (conj Hl Hs)) Hq). Qed.

Definition signs_all (nHashType : Z) : Prop :=
  Z.land nHashType 0x1f <> SIGHASH_NONE /\ Z.land nHashType 0x1f <> SIGHASH_SINGLE /\
  Z.land nHashType SIGHASH_ANYONECANPAY = 0.

Definition stripped (scriptCode : bytes) : bytes := (FindAndDelete scriptCode [OP_CODESEPARATOR]).1.

Lemma signed_tx_all scriptCode t nIn nHashType :
  signs_all nHashType -> 0 <= nIn < len (vin t) ->
  signed_tx scriptCode t nIn nHashType =
    Some (with_vin (alter (with_scriptSig (stripped scriptCode)) (Z.to_nat nIn) (map (with_scriptSig []) (vin t))) t).
Proof.
  intros (H1 & H2 & H3) Hn. unfold signed_tx.
  destruct (Z.leb_spec (len (vin t)) nIn); [lia|].
  destruct (Z.eqb_spec (Z.land nHashType 31) SIGHASH_NONE); [done|].
  destruct (Z.eqb_spec (Z.land nHashType 31) SIGHASH_SINGLE); [done|].
  by rewrite H3.
Qed.

Lemma codec_serialize_inj {A} (c : codec A) `{Laws A c} x y :
  wf c x -> wf c y -> Serialize c x = Serialize c y -> x = y.
Proof.
  intros Hx Hy E. pose proof (unserialize_serialize x [] Hx) as Ex. pose proof (unserialize_serialize y [] Hy) as Ey.
  rewrite E in Ex. rewrite Ey in Ex. by injection Ex.
Qed.

Lemma stripped_wf code : len code <= MAX_SIZE -> bytes_ok code -> len (stripped code) <= MAX_SIZE /\ bytes_ok (stripped code).
Proof.
  intros Hl Hc. unfold stripped.
  rewrite (find_and_delete_filters code [OP_CODESEPARATOR] OP_CODESEPARATOR []) by (unfold MAX_SIZE in *; done || lia).
  cbn [fst]. pose proof (ops_raw code) as E. rewrite <-E in Hl, Hc at 1.
  apply bytes_ok_app in Hc as [Hraw Htail]. rewrite len_app in *.
  pose proof (kept_sublist [OP_CODESEPARATOR] (ops code).1) as [Hle Hok]. split; [lia|]. apply bytes_ok_app. auto.
Qed.

Lemma wf_signed scriptCode t nIn :
  wf c_tx t -> len scriptCode <= MAX_SIZE -> bytes_ok scriptCode ->
  wf c_tx (with_vin (alter (with_scriptSig (stripped scriptCode)) (Z.to_nat nIn) (map (with_scriptSig []) (vin t))) t).
Proof.
  intros Ht Hl Hs. pose proof (stripped_wf scriptCode Hl Hs) as [Hl' Hs'].
  pose proof Ht as (_ & _ & ((((_ & [Hlen Hin]) & _) & _) & _)). cbn [fst snd] in *.
  assert (Forall (wf c_txin) (map (with_scriptSig []) (vin t))) as Hmap.
  { apply Forall_map. eapply Forall_impl; [exact Hin|]. intros i Hi. apply wf_with_scriptSig; [done|by vm_compute|constructor]. }
  apply wf_with_vin; [done|unfold len in *; by rewrite length_alter, length_map|].
  apply Forall_alter; [done|]. intros i _ Hi. by apply wf_with_scriptSig.
Qed.

Lemma signed_inputs code v k :
  map prevout (alter (with_scriptSig code) k (map (with_scriptSig []) v)) = map prevout v /\
  map nSequence (alter (with_scriptSig code) k (map (with_scriptSig []) v)) = map nSequence v.
Proof.
  split; apply list_eq; intros i; rewrite !list_lookup_fmap, list_lookup_alter;
    destruct (decide (k = i)) as [->|]; rewrite !list_lookup_fmap; by destruct (v !! i).
Qed.

(** C37. A signature of the hash type for everything binds the transaction: two
    transactions, of values that fit their encoding, with the same signed bytes agree in
    the hash type, the version, the time, the outputs, the lock time, the extension
    part, and in the outpoint and the sequence number of every input; and, unless the
    script code is empty without its separators, in the input signed and in the script
    code without its separators. *)
Theorem sighash_all_binds code1 code2 t1 t2 n1 n2 h1 h2 p :
  wf c_tx t1 -> wf c_tx t2 -> bytes_ok code1 -> bytes_ok code2 -> len code1 <= MAX_SIZE -> len code2 <= MAX_SIZE ->
  - 2 ^ 31 <= h1 < 2 ^ 31 -> - 2 ^ 31 <= h2 < 2 ^ 31 -> signs_all h1 -> signs_all h2 -> 0 <= n1 -> 0 <= n2 ->
  signature_preimage code1 t1 n1 h1 = Some p -> signature_preimage code2 t2 n2 h2 = Some p ->
  h1 = h2 /\ nVersion t1 = nVersion t2 /\ nTime t1 = nTime t2 /\ vout t1 = vout t2 /\
  nLockTime t1 = nLockTime t2 /\ mwTx t1 = mwTx t2 /\
  map prevout (vin t1) = map prevout (vin t2) /\ map nSequence (vin t1) = map nSequence (vin t2) /\
  (stripped code1 <> [] -> n1 = n2 /\ stripped code1 = stripped code2).
Proof.
  intros Ht1 Ht2 Hc1 Hc2 Hl1 Hl2 Hh1 Hh2 Ha1 Ha2 Hn1 Hn2 E1 E2. unfold signature_preimage in *.
  assert (forall code t n h q, 0 <= n -> match signed_tx code t n h with None => None | Some x => q x end = Some p -> n < len (vin t)) as Hrange.
  { intros code t n h q Hn. unfold signed_tx. destruct (Z.leb_spec (len (vin t)) n); [done|lia]. }
  pose proof (Hrange _ _ _ _ _ Hn1 E1) as Hr1. pose proof (Hrange _ _ _ _ _ Hn2 E2) as Hr2.
  rewrite signed_tx_all in E1, E2 by done.
  assert (E := eq_trans E1 (eq_sym E2)). clear E1 E2. apply Some_inj in E.
  apply (codec_serialize_inj (c_pair c_tx (c_sint 4))) in E; [|split; [by apply wf_signed|done]..].
  apply pair_eq in E as [E Eh].
  pose proof (f_equal vin E) as Evin. cbn [vin with_vin] in Evin.
  split_and!; [done|exact (f_equal nVersion E)|exact (f_equal nTime E)|exact (f_equal vout E)|exact (f_equal nLockTime E)|
    exact (f_equal mwTx E)| | |].
  - pose proof (f_equal (map prevout) Evin) as Ep. by rewrite !(proj1 (signed_inputs _ _ _)) in Ep.
  - pose proof (f_equal (map nSequence) Evin) as Ep. by rewrite !(proj2 (signed_inputs _ _ _)) in Ep.
  - intros Hne. pose proof (f_equal (.!! Z.to_nat n1) Evin) as Ei. cbv beta in Ei.
    rewrite !list_lookup_alter, !list_lookup_fmap in Ei.
    destruct (decide (Z.to_nat n1 = Z.to_nat n1)) as [_|]; [|done].
    destruct (lookup_lt_is_Some_2 (vin t1) (Z.to_nat n1)) as [i Hi]; [unfold len in Hr1; lia|]. rewrite Hi in Ei.
    destruct (decide (Z.to_nat n2 = Z.to_nat n1)) as [En|En]; [rewrite En in Ei|];
      destruct (vin t2 !! Z.to_nat n1) as [i'|]; try done.
    + split; [lia|]. apply Some_inj. exact (f_equal (fmap (M := option) scriptSig) Ei).
    + destruct Hne. apply Some_inj. exact (f_equal (fmap (M := option) scriptSig) Ei).
Qed.

(** ** Instances *)

(** [sample_tx] before and after its input is signed. *)
Definition signed_sample : CTransaction := with_vin (map (with_scriptSig [OP_2; OP_3]) (vin sample_tx)) sample_tx.
Definition sample_preimage : bytes := default [] (signature_preimage [OP_DUP] sample_tx 0 SIGHASH_ALL).

Lemma signed_sample_wf : wf c_tx signed_sample.
Proof. prove_wf. Qed.

Lemma sighash_all_binds_witness :
  signature_preimage [OP_DUP] signed_sample 0 SIGHASH_ALL = Some sample_preimage /\
  vout sample_tx = vout signed_sample /\ map prevout (vin sample_tx) = map prevout (vin signed_sample).
Proof.
  assert (signature_preimage [OP_DUP] signed_sample 0 SIGHASH_ALL = Some sample_preimage) as E by (vm_compute; reflexivity).
  split; [exact E|].
  assert (signs_all SIGHASH_ALL) as Ha by (split_and!; vm_compute; congruence).
  destruct (sighash_all_binds [OP_DUP] [OP_DUP] sample_tx signed_sample 0 0 SIGHASH_ALL SIGHASH_ALL sample_preimage)
    as (_ & _ & _ & Ho & _ & _ & Hp & _);
    first [split; [exact Ho|exact Hp] | exact E | exact Ha | exact sample_tx_wf | exact signed_sample_wf
          | by vm_compute | repeat constructor; by vm_compute].
Defined.

(** Every key parses; the signature is the hash's first byte. *)
Definition toy_ec : OpenSSLEC := {|
  eckey := bytes;
  o2i_ECPublicKey := Some;
  ECDSA_verify h s _ := if at_ 0 s 0 =? at_ 0 h 0 then 1 else 0
|}.

Definition sample_hash : uint256 := SignatureHash (H := toy_sha256) [OP_DUP] sample_tx 0 SIGHASH_ALL.
Definition sample_sig : bytes := [sample_hash mod 256; SIGHASH_ALL].

Lemma check_sig_cache_transparent_witness :
  @checker toy_sha256 toy_ec sample_tx 0 0 sample_sig toy_key [OP_DUP] = true /\
  (@CheckSig toy_sha256 toy_ec 1 (fun _ => 0) sample_tx 0 0 [] sample_sig toy_key [OP_DUP]).1 = true.
Proof.
  assert (@checker toy_sha256 toy_ec sample_tx 0 0 sample_sig toy_key [OP_DUP] = true) as E by (vm_compute; reflexivity).
  split; [exact E|]. rewrite <-E.
  apply (@check_sig_cache_transparent toy_sha256 toy_ec 1 (fun _ => 0) sample_tx 0 0 [] sample_sig toy_key [OP_DUP]).
  constructor.
Defined.

Lemma cache_bounded_witness : len (Set_ 1 (fun _ => 4) [(2, [], []); (5, [], []); (6, [], [])] 3 [1] [2]) <= 2.
Proof. apply (cache_bounded 1). vm_compute. reflexivity. Defined.

End Sighash.
