(* ===== verification/MwState.v ===== *)
(** * MimbleWimble chain state ([src/mw/state/mw_state.h], [src/mw/state/mw_state.cpp])

    The unspent outputs, the spent commitments, the mountain range over the
    output identifiers and its index, the kernel excesses, the supply, and a
    window of undo records.  Every method runs under one lock, so a call is one
    step from a state to a state.  What is saved and loaded is in MwStore.v. *)

From S2P Require Import Prelude Crypto Serialize Mmr MwModels.
Import Stream Mmr MwModels.

Module MwState.

Record CMWBlockUndo := {
  vAddedOutputs : list Commitment; vSpentOutputs : list CMWOutput; nMMRLeavesBefore : Z;
  nKernelsBefore : Z; nSupplyDelta : Z; u_hashPrevMWBlock : uint256; nPrevHeight : Z }.

Definition MW_UNDO_WINDOW : Z := 1000.

Record CMWState := {
  mapOutputs : gmap bytes CMWOutput;
  setSpent : gset bytes;
  mmr : CMMR;
  mapMMRIndex : gmap bytes Z;
  vKernelExcesses : list Commitment;
  hashLatestMWBlock : uint256;
  s_nHeight : Z;
  nMWEBSupply : Z;
  mapBlockUndo : gmap Z CMWBlockUndo;
  dqUndoOrder : list uint256 }.

Definition fresh_state : CMWState := {|
  mapOutputs := ∅; setSpent := ∅; mmr := empty_mmr; mapMMRIndex := ∅; vKernelExcesses := [];
  hashLatestMWBlock := 0; s_nHeight := 0; nMWEBSupply := 0; mapBlockUndo := ∅; dqUndoOrder := [] |}.

(** Assignments to the members an operation changes. *)
Definition set_outputs (s : CMWState) (o : gmap bytes CMWOutput) (m : CMMR) (ix : gmap bytes Z) : CMWState := {|
  mapOutputs := o; setSpent := setSpent s; mmr := m; mapMMRIndex := ix;
  vKernelExcesses := vKernelExcesses s; hashLatestMWBlock := hashLatestMWBlock s; s_nHeight := s_nHeight s;
  nMWEBSupply := nMWEBSupply s; mapBlockUndo := mapBlockUndo s; dqUndoOrder := dqUndoOrder s |}.
Definition set_spent (s : CMWState) (o : gmap bytes CMWOutput) (sp : gset bytes) : CMWState := {|
  mapOutputs := o; setSpent := sp; mmr := mmr s; mapMMRIndex := mapMMRIndex s;
  vKernelExcesses := vKernelExcesses s; hashLatestMWBlock := hashLatestMWBlock s; s_nHeight := s_nHeight s;
  nMWEBSupply := nMWEBSupply s; mapBlockUndo := mapBlockUndo s; dqUndoOrder := dqUndoOrder s |}.
Definition set_kernels (s : CMWState) (k : list Commitment) : CMWState := {|
  mapOutputs := mapOutputs s; setSpent := setSpent s; mmr := mmr s; mapMMRIndex := mapMMRIndex s;
  vKernelExcesses := k; hashLatestMWBlock := hashLatestMWBlock s; s_nHeight := s_nHeight s;
  nMWEBSupply := nMWEBSupply s; mapBlockUndo := mapBlockUndo s; dqUndoOrder := dqUndoOrder s |}.
Definition set_tip (s : CMWState) (h : uint256) (n supply : Z) : CMWState := {|
  mapOutputs := mapOutputs s; setSpent := setSpent s; mmr := mmr s; mapMMRIndex := mapMMRIndex s;
  vKernelExcesses := vKernelExcesses s; hashLatestMWBlock := h; s_nHeight := n;
  nMWEBSupply := supply; mapBlockUndo := mapBlockUndo s; dqUndoOrder := dqUndoOrder s |}.
Definition set_undo (s : CMWState) (u : gmap Z CMWBlockUndo) (dq : list uint256) : CMWState := {|
  mapOutputs := mapOutputs s; setSpent := setSpent s; mmr := mmr s; mapMMRIndex := mapMMRIndex s;
  vKernelExcesses := vKernelExcesses s; hashLatestMWBlock := hashLatestMWBlock s; s_nHeight := s_nHeight s;
  nMWEBSupply := nMWEBSupply s; mapBlockUndo := u; dqUndoOrder := dq |}.

Section state.
Context `{Sha256}.

(** ** Outputs *)

(** The new state and the result. *)
Definition AddOutput (s : CMWState) (output : CMWOutput) : CMWState * bool :=
  if IsNull (o_commitment output) then (s, false)
  else if bool_decide (is_Some (mapOutputs s !! o_commitment output)) then (s, false)
  else
    let outputHash := GetOutputID output in
    let '(mmr', mmrIndex) := Append (mmr s) outputHash in
    (set_outputs s (<[o_commitment output := output]> (mapOutputs s)) mmr'
       (<[o_commitment output := mmrIndex]> (mapMMRIndex s)), true).

Definition SpendOutput (s : CMWState) (commitment : Commitment) : CMWState * bool :=
  match mapOutputs s !! commitment with
  | None => (s, false)
  | Some _ =>
    if bool_decide (commitment ∈ setSpent s) then (s, false)
    else (set_spent s (delete commitment (mapOutputs s)) ({[ commitment ]} ∪ setSpent s), true)
  end.

Definition HasOutput (s : CMWState) (commitment : Commitment) : bool :=
  bool_decide (is_Some (mapOutputs s !! commitment)).
Definition GetOutput (s : CMWState) (commitment : Commitment) : option CMWOutput := mapOutputs s !! commitment.
Definition GetOutputCount (s : CMWState) : Z := Z.of_nat (base.size (mapOutputs s)).

(** Iteration over a [std::map] or [std::set] keyed by commitments. *)
Definition in_order {T} (m : gmap bytes T) : list (bytes * T) :=
  std_sort (fun a b => memcmp_lt a.1 b.1) (map_to_list m).
Definition set_in_order (X : gset bytes) : list bytes := std_sort memcmp_lt (elements X).

Definition GetAllCommitments (s : CMWState) : list Commitment := map fst (in_order (mapOutputs s)).

Definition GetMMRRoot (s : CMWState) : uint256 := GetRoot (mmr s).

Definition GetOutputProof (s : CMWState) (commitment : Commitment) : option CMMRProof :=
  match mapMMRIndex s !! commitment with
  | None => Some {| nIndex := 0; vBranch := []; vSide := [] |}
  | Some i => GetProof (mmr s) i
  end.

Definition VerifyOutputProof (s : CMWState) (commitment : Commitment) (proof : CMMRProof) : bool :=
  match mapOutputs s !! commitment with
  | None => false
  | Some o => VerifyProof (GetRoot (mmr s)) (GetOutputID o) proof
  end.

(** ** Kernels, tip and supply *)

Definition AddKernelExcess (s : CMWState) (excess : Commitment) : CMWState :=
  set_kernels s (vKernelExcesses s ++ [excess]).
Definition SetLatestBlock (s : CMWState) (hash : uint256) (height : Z) : CMWState :=
  set_tip s hash height (nMWEBSupply s).
Definition AdjustSupply (s : CMWState) (nDelta : Z) : CMWState :=
  set_tip s (hashLatestMWBlock s) (s_nHeight s) (i64 (nMWEBSupply s + nDelta)).

(** ** Connecting a block *)

Definition apply_output (r : CMWState * list Commitment) (out : CMWOutput) : CMWState * list Commitment :=
  let '(s', ok) := AddOutput r.1 out in (s', if ok then r.2 ++ [o_commitment out] else r.2).

Definition apply_input (r : CMWState * list CMWOutput) (input : CMWInput) : CMWState * list CMWOutput :=
  match GetOutput r.1 (i_commitment input) with
  | None => r
  | Some spent =>
    let '(s', ok) := SpendOutput r.1 (i_commitment input) in (s', if ok then r.2 ++ [spent] else r.2)
  end.

(** [while (dqUndoOrder.size() > MW_UNDO_WINDOW)] *)
Fixpoint evict (dq : list uint256) (undo : gmap Z CMWBlockUndo) : gmap Z CMWBlockUndo * list uint256 :=
  match dq with
  | oldest :: dq' => if MW_UNDO_WINDOW <? len dq then evict dq' (delete oldest undo) else (undo, dq)
  | [] => (undo, [])
  end.

Definition ApplyBlock (s : CMWState) (mwBlock : CMWBlock) (nBlockHeight : Z) (hashBlock : uint256)
    (nDelta : Z) : CMWState * bool :=
  if bool_decide (is_Some (mapBlockUndo s !! hashBlock)) then (s, false)
  else
    let '(s1, added) := fold_left apply_output (vOutputs (b_body mwBlock)) (s, []) in
    let '(s2, spent) := fold_left apply_input (vInputs (b_body mwBlock)) (s1, []) in
    let s3 := fold_left (fun s k => AddKernelExcess s (excess k)) (vKernels (b_body mwBlock)) s2 in
    let s4 := set_tip s3 (block_GetHash mwBlock) nBlockHeight (i64 (nMWEBSupply s3 + nDelta)) in
    let undo := {| vAddedOutputs := added; vSpentOutputs := spent;
                   nMMRLeavesBefore := Mmr.GetSize (mmr s); nKernelsBefore := u64 (len (vKernelExcesses s));
                   nSupplyDelta := nDelta; u_hashPrevMWBlock := hashLatestMWBlock s;
                   nPrevHeight := s_nHeight s |} in
    let '(u, dq) := evict (dqUndoOrder s4 ++ [hashBlock]) (<[hashBlock := undo]> (mapBlockUndo s4)) in
    (set_undo s4 u dq, true).

(** ** Disconnecting a block *)

Definition restore_output (s : CMWState) (out : CMWOutput) : CMWState :=
  set_spent s (<[o_commitment out := out]> (mapOutputs s)) (setSpent s ∖ {[ o_commitment out ]}).
Definition remove_output (s : CMWState) (c : Commitment) : CMWState :=
  set_outputs s (delete c (mapOutputs s)) (mmr s) (delete c (mapMMRIndex s)).

(** The [for] loop that erases the first occurrence and breaks. *)
Fixpoint erase_first (h : uint256) (dq : list uint256) : list uint256 :=
  match dq with
  | [] => []
  | x :: dq' => if x =? h then dq' else x :: erase_first h dq'
  end.

(** A failure after the maps were changed leaves them changed. *)
Definition DisconnectBlock (s : CMWState) (hashBlock : uint256) (fNoMWChange : bool) : CMWState * bool :=
  match mapBlockUndo s !! hashBlock with
  | None => (s, fNoMWChange)
  | Some undo =>
    let s1 := fold_left restore_output (vSpentOutputs undo) s in
    let s2 := fold_left remove_output (vAddedOutputs undo) s1 in
    match Mmr.Rewind (mmr s2) (nMMRLeavesBefore undo) with
    | None => (s2, false)
    | Some m =>
      let s3 := set_outputs s2 (mapOutputs s2) m (mapMMRIndex s2) in
      if u64 (len (vKernelExcesses s3)) <? nKernelsBefore undo then (s3, false)
      else
        let s4 := set_kernels s3 (take (Z.to_nat (nKernelsBefore undo)) (vKernelExcesses s3)) in
        let s5 := set_tip s4 (u_hashPrevMWBlock undo) (nPrevHeight undo)
                    (i64 (nMWEBSupply s4 - nSupplyDelta undo)) in
        (set_undo s5 (delete hashBlock (mapBlockUndo s5)) (erase_first hashBlock (dqUndoOrder s5)), true)
    end
  end.

Definition HasUndo (s : CMWState) (hashBlock : uint256) : bool :=
  bool_decide (is_Some (mapBlockUndo s !! hashBlock)).
Definition GetUndoWindowSize (s : CMWState) : Z := Z.of_nat (base.size (mapBlockUndo s)).

(** ** State hash *)

Definition state_preimage (s : CMWState) : bytes :=
  uint256_bytes (GetRoot (mmr s)) ++ le_bytes 8 (Mmr.GetSize (mmr s)) ++
  le_bytes 8 (GetOutputCount s) ++
  concat (map (fun p => p.1 ++ uint256_bytes (GetOutputID p.2)) (in_order (mapOutputs s))) ++
  le_bytes 8 (Z.of_nat (base.size (setSpent s))) ++ concat (set_in_order (setSpent s)) ++
  le_bytes 8 (len (vKernelExcesses s)) ++ concat (vKernelExcesses s) ++
  le_bytes 8 (nMWEBSupply s) ++ le_bytes 4 (s_nHeight s) ++ uint256_bytes (hashLatestMWBlock s).
Definition ComputeStateHash (s : CMWState) : uint256 := sha256_twice (state_preimage s).

End state.

(** [Snapshot] and [Restore] copy every member; [Clear] resets every member. *)
Definition Snapshot (s : CMWState) : CMWState := {|
  mapOutputs := mapOutputs s; setSpent := setSpent s; mmr := mmr s; mapMMRIndex := mapMMRIndex s;
  vKernelExcesses := vKernelExcesses s; hashLatestMWBlock := hashLatestMWBlock s; s_nHeight := s_nHeight s;
  nMWEBSupply := nMWEBSupply s; mapBlockUndo := mapBlockUndo s; dqUndoOrder := dqUndoOrder s |}.
Definition Restore (s snapshot : CMWState) : CMWState := {|
  mapOutputs := mapOutputs snapshot; setSpent := setSpent snapshot; mmr := mmr snapshot;
  mapMMRIndex := mapMMRIndex snapshot; vKernelExcesses := vKernelExcesses snapshot;
  hashLatestMWBlock := hashLatestMWBlock snapshot; s_nHeight := s_nHeight snapshot;
  nMWEBSupply := nMWEBSupply snapshot; mapBlockUndo := mapBlockUndo snapshot; dqUndoOrder := dqUndoOrder snapshot |}.
Definition Clear (s : CMWState) : CMWState := {|
  mapOutputs := ∅; setSpent := ∅; mmr := Mmr.Clear (mmr s); mapMMRIndex := ∅; vKernelExcesses := [];
  hashLatestMWBlock := 0; s_nHeight := 0; nMWEBSupply := 0; mapBlockUndo := ∅; dqUndoOrder := [] |}.

(** * Properties *)

Section spec.
Context {hash : Sha256}.

(** The members no output operation touches. *)
Definition rest (s : CMWState) :=
  (vKernelExcesses s, hashLatestMWBlock s, s_nHeight s, nMWEBSupply s, mapBlockUndo s, dqUndoOrder s).

(** Outputs are stored under their own commitment. *)
Definition keyed (s : CMWState) : Prop := forall c o, mapOutputs s !! c = Some o -> o_commitment o = c.

(** ** Adding and spending, over a whole block *)

Record added (s s1 : CMWState) (outs : list CMWOutput) (ls xs : list uint256) (B : list Commitment) : Prop := {
  added_mmr : mmr s1 = mmr_of (ls ++ xs);
  added_len : len xs <= len outs;
  added_new c : c ∈ B -> mapOutputs s !! c = None /\ mapMMRIndex s !! c = None;
  added_old c : c ∉ B -> mapOutputs s1 !! c = mapOutputs s !! c /\ mapMMRIndex s1 !! c = mapMMRIndex s !! c;
  added_index c : c ∈ B -> is_Some (mapMMRIndex s1 !! c);
  added_spent : setSpent s1 = setSpent s;
  added_rest : rest s1 = rest s;
  added_keyed : keyed s -> keyed s1
}.

(** An output that is not in the state has never been in it. *)
Definition fresh (s : CMWState) (outs : list CMWOutput) : Prop :=
  forall o, o ∈ outs -> mapOutputs s !! o_commitment o = None -> mapMMRIndex s !! o_commitment o = None.

Lemma AddOutput_spec s o ls :
  mmr s = mmr_of ls -> len ls + 1 < 2 ^ 59 ->
  AddOutput s o = (s, false) \/
  (mapOutputs s !! o_commitment o = None /\
   AddOutput s o = (set_outputs s (<[o_commitment o := o]> (mapOutputs s)) (mmr_of (ls ++ [GetOutputID o]))
     (<[o_commitment o := len ls]> (mapMMRIndex s)), true)).
Proof.
  intros Hm Hl. unfold AddOutput. destruct (IsNull _); [by left|]. case_bool_decide as Ho; [by left|right].
  apply eq_None_not_Some in Ho. rewrite Hm, Append_mmr_of by done. done.
Qed.

Lemma add_outputs s outs A ls :
  mmr s = mmr_of ls -> len ls + len outs < 2 ^ 59 -> fresh s outs ->
  exists s1 B xs, fold_left apply_output outs (s, A) = (s1, A ++ B) /\ added s s1 outs ls xs B.
Proof.
  revert s A ls. induction outs as [|o outs IH]; intros s A ls Hm Hl Hf.
  - exists s, [], []. rewrite !app_nil_r. split; [done|]. split; try done; [by rewrite app_nil_r|set_solver|set_solver].
  - rewrite len_cons in Hl. pose proof (len_pos outs). cbn [fold_left]. unfold apply_output at 2. cbn [fst snd].
    destruct (AddOutput_spec s o ls Hm ltac:(lia)) as [-> | [Hnew ->]].
    + destruct (IH s A ls) as (s1 & B & xs & -> & []); [done|lia|intros ? ?; apply Hf; set_solver|].
      exists s1, B, xs. split; [done|]. split; auto. rewrite len_cons. lia.
    + set (s' := set_outputs _ _ _ _).
      destruct (IH s' (A ++ [o_commitment o]) (ls ++ [GetOutputID o])) as (s1 & B & xs & -> & [H1 H2 H3 H4 H8 H5 H6 H7]).
      { done. }
      { rewrite len_app. change (len [GetOutputID o]) with 1. lia. }
      { intros o' Ho' Hn'. unfold s' in *. cbn in Hn' |- *. destruct (decide (o_commitment o' = o_commitment o)) as [E|E].
        - rewrite E, lookup_insert_eq in Hn'. done.
        - rewrite lookup_insert_ne in Hn' by congruence. rewrite lookup_insert_ne by congruence. apply Hf; [set_solver|done]. }
      exists s1, (o_commitment o :: B), (GetOutputID o :: xs). rewrite <-app_assoc. split; [done|]. split.
      * by rewrite H1, <-app_assoc.
      * rewrite !len_cons. lia.
      * intros c [->|Hc]%elem_of_cons; [split; [done|]; apply Hf; [set_solver|done]|].
        destruct (H3 c Hc) as [E1 E2]. unfold s' in E1, E2. cbn in E1, E2. apply lookup_insert_None in E1 as [? ?].
        apply lookup_insert_None in E2 as [? ?]. done.
      * intros c Hc. destruct (H4 c) as [-> ->]; [set_solver|]. unfold s'. cbn. rewrite !lookup_insert_ne by set_solver. done.
      * intros c Hc. destruct (decide (c ∈ B)) as [Hb|Hb]; [by apply H8|].
        assert (c = o_commitment o) as -> by set_solver. rewrite (proj2 (H4 _ Hb)). unfold s'. cbn.
        rewrite lookup_insert_eq. eauto.
      * by rewrite H5.
      * by rewrite H6.
      * intros Hk. apply H7. intros c o'. unfold s'. cbn. intros [[<- <-]|[? ?]]%lookup_insert_Some; [done|]. by apply Hk.
Qed.

Record spent (s s2 : CMWState) (S : list CMWOutput) : Prop := {
  spent_from o : o ∈ S -> mapOutputs s !! o_commitment o = Some o /\ o_commitment o ∉ setSpent s;
  spent_old c : c ∉ map o_commitment S ->
    mapOutputs s2 !! c = mapOutputs s !! c /\ (c ∈ setSpent s2 <-> c ∈ setSpent s);
  spent_gone c : c ∈ map o_commitment S -> mapOutputs s2 !! c = None /\ c ∈ setSpent s2;
  spent_mmr : mmr s2 = mmr s;
  spent_index : mapMMRIndex s2 = mapMMRIndex s;
  spent_keyed : keyed s2
}.

Lemma spend_inputs s ins S0 :
  keyed s -> exists s2 S, fold_left apply_input ins (s, S0) = (s2, S0 ++ S) /\ spent s s2 S /\ rest s2 = rest s /\
    (forall i, i ∈ ins -> is_Some (mapOutputs s !! i_commitment i) -> i_commitment i ∉ setSpent s ->
      i_commitment i ∈ map o_commitment S).
Proof.
  revert s S0. induction ins as [|i ins IH]; intros s S0 Hk.
  - exists s, []. rewrite app_nil_r. split; [done|]. split; [|split; [done|set_solver]]. split; try done; set_solver.
  - cbn [fold_left]. unfold apply_input at 2, GetOutput, SpendOutput. cbn [fst snd].
    destruct (mapOutputs s !! i_commitment i) as [o|] eqn:Ho.
    2:{ destruct (IH s S0 Hk) as (s2 & S & -> & Hsp & Hr & Hall). exists s2, S. split; [done|]. split; [done|].
        split; [done|]. intros i' [->|Hi]%elem_of_cons; [rewrite Ho; by intros [? ?]|by apply Hall]. }
    case_bool_decide as Hs.
    { destruct (IH s S0 Hk) as (s2 & S & -> & Hsp & Hr & Hall). exists s2, S. split; [done|]. split; [done|].
      split; [done|]. intros i' [->|Hi]%elem_of_cons; [done|by apply Hall]. }
    set (s' := set_spent _ _ _). pose proof (Hk _ _ Ho) as Ec.
    destruct (IH s' (S0 ++ [o])) as (s2 & S & -> & [H1 H2 H3 H4 H5 H6] & H7 & Hall).
    { intros c o'. unfold s'. cbn. intros [? ?]%lookup_delete_Some. by apply Hk. }
    exists s2, (o :: S). rewrite <-app_assoc. split; [done|].
    assert (forall o', o' ∈ S -> o_commitment o' <> i_commitment i) as Hne.
    { intros o' Ho'. destruct (H1 o' Ho') as [E _]. unfold s' in E. cbn in E. apply lookup_delete_Some in E as [? ?]. done. }
    assert (i_commitment i ∉ map o_commitment S) as Hni.
    { change (map o_commitment S) with (o_commitment <$> S). intros (o' & E & Ho')%list_elem_of_fmap.
      by apply (Hne o'). }
    split; [|split; [done|]].
    2:{ intros i' Hi' Hi1 Hi2. cbn [map]. rewrite Ec. destruct (decide (i_commitment i' = i_commitment i)) as [->|Hn];
        [set_solver|]. apply elem_of_cons in Hi' as [->|Hi']; [done|]. apply elem_of_cons. right.
        apply Hall; [done| |]; unfold s'; cbn; [by rewrite lookup_delete_ne by done|set_solver]. }
    split; auto.
    + intros o' [->|Ho']%elem_of_cons; [by rewrite Ec|].
      destruct (H1 o' Ho') as [E1 E2]. unfold s' in E1, E2. cbn in E1, E2. apply lookup_delete_Some in E1 as [? ?]. split; [done|set_solver].
    + intros c Hc. cbn [map] in Hc. destruct (H2 c) as [-> ->]; [set_solver|]. unfold s'. cbn.
      rewrite lookup_delete_ne by set_solver. split; [done|set_solver].
    + intros c. cbn [map]. rewrite Ec. intros [->|Hc]%elem_of_cons; [|by apply H3].
      destruct (H2 _ Hni) as [-> ->]. unfold s'. cbn. rewrite lookup_delete_eq. split; [done|set_solver].
Qed.

Lemma add_kernels s ks :
  fold_left (fun s k => AddKernelExcess s (excess k)) ks s = set_kernels s (vKernelExcesses s ++ map excess ks).
Proof.
  revert s. induction ks as [|k ks IH]; intros s; [cbn; rewrite app_nil_r; by destruct s|].
  cbn [fold_left map]. rewrite IH. cbn. by rewrite <-app_assoc.
Qed.

(** ** Undoing *)

Lemma restore_outputs S s (F : bytes -> option CMWOutput) :
  (forall o, o ∈ S -> F (o_commitment o) = Some o) ->
  let s' := fold_left restore_output S s in
  (forall c, mapOutputs s' !! c = if decide (c ∈ map o_commitment S) then F c else mapOutputs s !! c) /\
  (forall c, c ∈ setSpent s' <-> c ∈ setSpent s /\ c ∉ map o_commitment S) /\
  mmr s' = mmr s /\ mapMMRIndex s' = mapMMRIndex s /\ rest s' = rest s.
Proof.
  revert s. induction S as [|o S IH]; intros s HF; cbn [fold_left map].
  - split; [intros c; by rewrite decide_False by set_solver|]. split; [set_solver|done].
  - destruct (IH (restore_output s o)) as (H1 & H2 & H3 & H4 & H5); [intros ? ?; apply HF; set_solver|].
    split; [|split; [|by rewrite H3, H4, H5]].
    + intros c. rewrite H1. cbn. destruct (decide (c ∈ map o_commitment S)) as [Hc|Hc];
        [by rewrite decide_True by set_solver|].
      destruct (decide (c = o_commitment o)) as [->|Hne].
      * rewrite lookup_insert_eq, decide_True by set_solver. symmetry. apply HF. set_solver.
      * by rewrite lookup_insert_ne, decide_False by set_solver.
    + intros c. rewrite H2. cbn. set_solver.
Qed.

Lemma remove_outputs B s :
  let s' := fold_left remove_output B s in
  (forall c, mapOutputs s' !! c = if decide (c ∈ B) then None else mapOutputs s !! c) /\
  (forall c, mapMMRIndex s' !! c = if decide (c ∈ B) then None else mapMMRIndex s !! c) /\
  mmr s' = mmr s /\ setSpent s' = setSpent s /\ rest s' = rest s.
Proof.
  revert s. induction B as [|b B IH]; intros s; cbn [fold_left].
  - split; [intros c; by rewrite decide_False by set_solver|].
    split; [intros c; by rewrite decide_False by set_solver|done].
  - destruct (IH (remove_output s b)) as (H1 & H2 & H3 & H4 & H5). rewrite H3, H4, H5. clear IH H3 H4 H5. split; [|split; [|done]];
      intros c; rewrite ?H1, ?H2; cbn; destruct (decide (c ∈ B)) as [Hc|Hc];
      try (by rewrite decide_True by (rewrite elem_of_cons; tauto));
      (destruct (decide (c = b)) as [->|Hne];
        [rewrite lookup_delete_eq; rewrite decide_True by (rewrite elem_of_cons; tauto); done
        |rewrite lookup_delete_ne by congruence; rewrite decide_False by (rewrite elem_of_cons; tauto); done]).
Qed.

(** The maps after a block's outputs and inputs, undone. *)
Lemma undo_maps s s1 s2 outs ls xs B S :
  keyed s -> added s s1 outs ls xs B -> spent s1 s2 S ->
  let s3 := fold_left remove_output B (fold_left restore_output S s2) in
  mapOutputs s3 = mapOutputs s /\ mapMMRIndex s3 = mapMMRIndex s /\ setSpent s3 = setSpent s /\
  mmr s3 = mmr_of (ls ++ xs) /\ rest s3 = rest s2.
Proof.
  intros Hk Ha Hs s3. pose proof (added_keyed _ _ _ _ _ _ Ha Hk) as Hk1.
  destruct (restore_outputs S s2 (fun c => mapOutputs s1 !! c)) as (R1 & R2 & R3 & R4 & R5);
    [intros o Ho; by apply (spent_from _ _ _ Hs)|].
  destruct (remove_outputs B (fold_left restore_output S s2)) as (D1 & D2 & D3 & D4 & D5). fold s3 in D1, D2, D3, D4, D5.
  assert (forall c, mapOutputs (fold_left restore_output S s2) !! c = mapOutputs s1 !! c) as E1.
  { intros c. rewrite R1. destruct (decide _) as [|Hc]; [done|]. by apply (spent_old _ _ _ Hs). }
  split; [|split; [|split; [|split]]].
  - apply map_eq. intros c. rewrite D1, E1. destruct (decide (c ∈ B)) as [Hc|Hc].
    + symmetry. by apply (added_new _ _ _ _ _ _ Ha).
    + by apply (added_old _ _ _ _ _ _ Ha).
  - apply map_eq. intros c. rewrite D2, R4, (spent_index _ _ _ Hs). destruct (decide (c ∈ B)) as [Hc|Hc].
    + symmetry. by apply (added_new _ _ _ _ _ _ Ha).
    + by apply (added_old _ _ _ _ _ _ Ha).
  - apply leibniz_equiv. intros c. rewrite D4, R2, <-(added_spent _ _ _ _ _ _ Ha).
    destruct (decide (c ∈ map o_commitment S)) as [Hc|Hc].
    + split; [tauto|]. intros Hin. exfalso. change (map o_commitment S) with (o_commitment <$> S) in Hc.
      apply list_elem_of_fmap in Hc as (o & -> & Ho). by apply (spent_from _ _ _ Hs) in Ho as [_ ?].
    + rewrite (proj2 (spent_old _ _ _ Hs c Hc)). tauto.
  - rewrite D3, R3, (spent_mmr _ _ _ Hs). apply (added_mmr _ _ _ _ _ _ Ha).
  - by rewrite D5.
Qed.

Lemma erase_first_last h dq : h ∉ dq -> erase_first h (dq ++ [h]) = dq.
Proof.
  induction dq as [|x dq IH]; intros Hh; cbn; [by rewrite Z.eqb_refl|].
  destruct (Z.eqb_spec x h); [set_solver|]. rewrite IH; [done|set_solver].
Qed.

Lemma evict_none dq u : len dq <= MW_UNDO_WINDOW -> evict dq u = (u, dq).
Proof. destruct dq as [|x dq]; [done|]. cbn [evict]. intros Hl. destruct (Z.ltb_spec MW_UNDO_WINDOW (len (x :: dq))); [lia|done]. Qed.

(** What the state promises between blocks. *)
Record state_ok (s : CMWState) (ls : list uint256) : Prop := {
  ok_mmr : mmr s = mmr_of ls;
  ok_keyed : keyed s;
  ok_supply : - 2 ^ 63 <= nMWEBSupply s < 2 ^ 63;
  ok_kernels : len (vKernelExcesses s) < 2 ^ 63;
  ok_undo h : is_Some (mapBlockUndo s !! h) <-> h ∈ dqUndoOrder s;
  ok_order : NoDup (dqUndoOrder s);
  ok_spent c : c ∈ setSpent s -> mapOutputs s !! c = None /\ is_Some (mapMMRIndex s !! c);
  ok_index c : is_Some (mapOutputs s !! c) -> is_Some (mapMMRIndex s !! c)
}.

(** [s] with room left for [n] leaves and kernels. *)
Definition room (s : CMWState) (ls : list uint256) (b : CMWBlock) : Prop :=
  len ls + len (vOutputs (b_body b)) < 2 ^ 59 /\
  len (vKernelExcesses s) + len (vKernels (b_body b)) < 2 ^ 63.

(** The spent set and the index after a block. *)
Lemma spent_stays s s1 s2 outs ls xs B S c :
  state_ok s ls -> added s s1 outs ls xs B -> spent s1 s2 S ->
  (c ∈ setSpent s2 -> mapOutputs s2 !! c = None /\ is_Some (mapMMRIndex s2 !! c)) /\
  (is_Some (mapOutputs s2 !! c) -> is_Some (mapMMRIndex s2 !! c)).
Proof.
  intros Hok Ha Hs. rewrite (spent_index _ _ _ Hs).
  assert (is_Some (mapOutputs s1 !! c) -> is_Some (mapMMRIndex s1 !! c)) as Hix.
  { destruct (decide (c ∈ B)) as [Hb|Hb]; [intros _; by apply (added_index _ _ _ _ _ _ Ha)|].
    destruct (added_old _ _ _ _ _ _ Ha c Hb) as [-> ->]. apply (ok_index _ _ Hok). }
  destruct (decide (c ∈ map o_commitment S)) as [Hc|Hc].
  - destruct (spent_gone _ _ _ Hs c Hc) as [-> _]. split; [intros _; split; [done|]|by intros [? ?]].
    apply Hix. change (map o_commitment S) with (o_commitment <$> S) in Hc.
    apply list_elem_of_fmap in Hc as (o & -> & Ho). destruct (spent_from _ _ _ Hs o Ho) as [-> _]. eauto.
  - destruct (spent_old _ _ _ Hs c Hc) as [-> E2]. rewrite E2. clear E2. split; [|done]. rewrite (added_spent _ _ _ _ _ _ Ha).
    intros Hin. destruct (ok_spent _ _ Hok c Hin) as [Hn Hi].
    destruct (decide (c ∈ B)) as [Hb|Hb]; [destruct (added_new _ _ _ _ _ _ Ha c Hb) as [_ E]; rewrite E in Hi; by destruct Hi|].
    destruct (added_old _ _ _ _ _ _ Ha c Hb) as [E1 E2]. by rewrite E1, E2.
Qed.

(** What [ApplyBlock] does, in one piece. *)
Lemma ApplyBlock_spec s ls b n h d :
  state_ok s ls -> room s ls b -> fresh s (vOutputs (b_body b)) -> mapBlockUndo s !! h = None ->
  exists s1 s2 B S xs,
    added s s1 (vOutputs (b_body b)) ls xs B /\ spent s1 s2 S /\ rest s2 = rest s /\
    (forall i, i ∈ vInputs (b_body b) -> is_Some (mapOutputs s1 !! i_commitment i) ->
      i_commitment i ∉ setSpent s1 -> i_commitment i ∈ map o_commitment S) /\
    let undo := {| vAddedOutputs := B; vSpentOutputs := S; nMMRLeavesBefore := len ls;
                   nKernelsBefore := len (vKernelExcesses s); nSupplyDelta := d;
                   u_hashPrevMWBlock := hashLatestMWBlock s; nPrevHeight := s_nHeight s |} in
    let '(u, dq) := evict (dqUndoOrder s ++ [h]) (<[h := undo]> (mapBlockUndo s)) in
    ApplyBlock s b n h d =
    (set_undo (set_tip (set_kernels s2 (vKernelExcesses s ++ map excess (vKernels (b_body b))))
       (block_GetHash b) n (i64 (nMWEBSupply s + d))) u dq, true).
Proof.
  intros Hok [Hr1 Hr2] Hf Hh. unfold ApplyBlock. rewrite Hh, bool_decide_eq_false_2 by (intros [? ?]; done).
  destruct (add_outputs s (vOutputs (b_body b)) [] ls) as (s1 & B & xs & -> & Ha); [apply Hok|done|done|].
  destruct (spend_inputs s1 (vInputs (b_body b)) []) as (s2 & S & -> & Hs & Er & Hall);
    [apply (added_keyed _ _ _ _ _ _ Ha), Hok|].
  exists s1, s2, B, S, xs. rewrite (added_rest _ _ _ _ _ _ Ha) in Er. split; [done|]. split; [done|]. split; [done|]. split; [done|]. cbv zeta. rewrite add_kernels. cbn [app].
  injection Er as E1 E2 E3 E4 E5 E6.
  cbn [dqUndoOrder mapBlockUndo set_tip set_kernels nMWEBSupply]. rewrite E1, E4, E5, E6.
  rewrite (ok_mmr _ _ Hok). cbn [Mmr.GetSize nLeaves mmr_of].
  rewrite u64_id by (pose proof (len_pos (vKernelExcesses s)); pose proof (len_pos (vKernels (b_body b))); lia).
  by destruct (evict _ _).
Qed.

Lemma Mmr_Rewind_spec ls xs : len ls + len xs < 2 ^ 59 -> Mmr.Rewind (mmr_of (ls ++ xs)) (len ls) = Some (mmr_of ls).
Proof. intros Hl. apply Rewind_mmr_of. by rewrite len_app. Qed.

Lemma i64_undo a d : - 2 ^ 63 <= a < 2 ^ 63 -> i64 (i64 (a + d) - d) = a.
Proof.
  intros Ha. transitivity (i64 a); [|by apply i64_id]. unfold i64.
  f_equal. replace ((a + d + 2 ^ 63) mod 2 ^ 64 - 2 ^ 63 - d + 2 ^ 63) with ((a + d + 2 ^ 63) mod 2 ^ 64 - d) by lia.
  rewrite Zminus_mod_idemp_l. f_equal. lia.
Qed.

(** The undo record of the block on top of the window. *)
Lemma DisconnectBlock_spec s ls b h d s1 s2 B S xs u dq fNo tip n :
  state_ok s ls -> room s ls b ->
  added s s1 (vOutputs (b_body b)) ls xs B -> spent s1 s2 S ->
  u !! h = Some {| vAddedOutputs := B; vSpentOutputs := S; nMMRLeavesBefore := len ls;
                   nKernelsBefore := len (vKernelExcesses s); nSupplyDelta := d;
                   u_hashPrevMWBlock := hashLatestMWBlock s; nPrevHeight := s_nHeight s |} ->
  DisconnectBlock (set_undo (set_tip (set_kernels s2 (vKernelExcesses s ++ map excess (vKernels (b_body b))))
    tip n (i64 (nMWEBSupply s + d))) u dq) h fNo =
  (set_undo s (delete h u) (erase_first h dq), true).
Proof.
  intros Hok [Hr1 Hr2] Ha Hs Hu. unfold DisconnectBlock.
  set (s' := set_undo _ u dq). assert (mapBlockUndo s' = u) as -> by done. rewrite Hu.
  cbn [vAddedOutputs vSpentOutputs nMMRLeavesBefore nKernelsBefore nSupplyDelta u_hashPrevMWBlock nPrevHeight].
  assert (spent s1 s' S) as Hs' by (destruct Hs; split; done).
  destruct (undo_maps s s1 s' _ ls xs B S (ok_keyed _ _ Hok) Ha Hs') as (E1 & E2 & E3 & E4 & E5).
  set (s3 := fold_left remove_output B _) in *. rewrite E4, Mmr_Rewind_spec
    by (pose proof (added_len _ _ _ _ _ _ Ha); lia).
  injection E5 as F1 F2 F3 F4 F5 F6. clearbody s3. cbn in F1, F2, F3, F4, F5, F6.
  cbn [vKernelExcesses set_outputs]. rewrite F1, len_app.
  pose proof (len_pos (vKernelExcesses s)). unfold len at 2. rewrite length_map. fold (len (vKernels (b_body b))).
  pose proof (len_pos (vKernels (b_body b))). rewrite u64_id by lia.
  destruct (Z.ltb_spec (len (vKernelExcesses s) + len (vKernels (b_body b))) (len (vKernelExcesses s))); [lia|].
  cbv zeta. destruct s as [f1 f2 f3 f4 f5 f6 f7 f8 f9 f10]. cbn in *. unfold set_undo, set_tip, set_kernels, set_outputs. cbn.
  pose proof (ok_mmr _ _ Hok) as Em. pose proof (ok_supply _ _ Hok) as Esup. cbn in Em, Esup. f_equal. f_equal; try congruence.
  - unfold len. rewrite Nat2Z.id. apply take_app_length.
  - rewrite F4. by apply i64_undo.
Qed.

(** ** The undo window *)

Lemma evict_spec dq u :
  NoDup dq -> (forall h, is_Some (u !! h) <-> h ∈ dq) ->
  let '(u', dq') := evict dq u in
  NoDup dq' /\ (forall h, is_Some (u' !! h) <-> h ∈ dq') /\ len dq' <= MW_UNDO_WINDOW /\
  (exists l, dq = l ++ dq') /\ (forall h, h ∈ dq' -> u' !! h = u !! h).
Proof.
  revert u. induction dq as [|x dq IH]; intros u Hd Hu; cbn [evict].
  - split; [done|]. split; [done|]. split; [unfold len, MW_UNDO_WINDOW; simpl; lia|]. split; [by exists []|done].
  - destruct (Z.ltb_spec MW_UNDO_WINDOW (len (x :: dq))) as [Hl|Hl].
    + apply NoDup_cons in Hd as [Hx Hd]. specialize (IH (delete x u) Hd).
      destruct (evict dq (delete x u)) as [u' dq']. destruct IH as (H1 & H2 & H3 & [l Hsuf] & H5).
      { intros h. destruct (decide (h = x)) as [->|Hne].
        - rewrite lookup_delete_eq. split; [by intros [? ?]|done].
        - rewrite lookup_delete_ne, Hu, elem_of_cons by done. split; [by intros [|]|auto]. }
      split; [done|]. split; [done|]. split; [done|]. split; [exists (x :: l); by rewrite Hsuf|].
      intros h Hh. rewrite H5 by done. apply lookup_delete_ne. intros ->. apply Hx. rewrite Hsuf.
      apply elem_of_app. auto.
    + split; [done|]. split; [done|]. split; [lia|]. split; [by exists []|done].
Qed.

Lemma evict_last dq h u : h ∈ (evict (dq ++ [h]) u).2.
Proof.
  revert u. induction dq as [|x dq IH]; intros u; cbn [app evict].
  - destruct (Z.ltb_spec MW_UNDO_WINDOW (len [h])) as [Hl|]; [unfold len, MW_UNDO_WINDOW in Hl; simpl in Hl; lia|].
    cbn. set_solver.
  - destruct (MW_UNDO_WINDOW <? len (x :: dq ++ [h])); [apply IH|]. cbn. apply elem_of_cons. right. set_solver.
Qed.

(** [ApplyBlock] keeps the promises, and the window bounded. *)
Lemma ApplyBlock_ok s ls b n h d :
  state_ok s ls -> room s ls b -> fresh s (vOutputs (b_body b)) -> mapBlockUndo s !! h = None ->
  let '(s', ok) := ApplyBlock s b n h d in
  ok = true /\ h ∈ dqUndoOrder s' /\ len (dqUndoOrder s') <= MW_UNDO_WINDOW /\
  (len (dqUndoOrder s) < MW_UNDO_WINDOW -> dqUndoOrder s' = dqUndoOrder s ++ [h]) /\
  exists ls', state_ok s' ls' /\ len ls' <= len ls + len (vOutputs (b_body b)).
Proof.
  intros Hok Hr Hf Hh.
  destruct (ApplyBlock_spec s ls b n h d Hok Hr Hf Hh) as (s1 & s2 & B & S & xs & Ha & Hs & Er & Hall & E). cbv zeta in E.
  set (undo := Build_CMWBlockUndo _ _ _ _ _ _ _) in E.
  assert (h ∉ dqUndoOrder s) as Hnin by (rewrite <-(ok_undo _ _ Hok); rewrite Hh; by intros [? ?]).
  pose proof (evict_spec (dqUndoOrder s ++ [h]) (<[h := undo]> (mapBlockUndo s))) as Hev.
  pose proof (evict_none (dqUndoOrder s ++ [h]) (<[h := undo]> (mapBlockUndo s))) as Hnone.
  pose proof (evict_last (dqUndoOrder s) h (<[h := undo]> (mapBlockUndo s))) as Hlast.
  destruct (evict _ _) as [u dq]. rewrite E. destruct Hev as (V1 & V2 & V3 & _ & _).
  { apply NoDup_app. split; [apply (ok_order _ _ Hok)|]. split; [set_solver|apply NoDup_singleton]. }
  { intros h'. rewrite elem_of_app, list_elem_of_singleton, <-(ok_undo _ _ Hok).
    destruct (decide (h' = h)) as [->|Hne].
    - rewrite lookup_insert_eq. split; [auto|eauto].
    - rewrite lookup_insert_ne by done. split; [auto|by intros [?|]]. }
  split; [done|]. split; [done|]. split; [done|]. split.
  { intros Hl. cbn. rewrite len_app in Hnone. change (len [h]) with 1 in Hnone.
    specialize (Hnone ltac:(lia)). injection Hnone. congruence. }
  exists (ls ++ xs). split.
  - split; cbn.
    + rewrite (spent_mmr _ _ _ Hs). apply (added_mmr _ _ _ _ _ _ Ha).
    + intros c o. cbn. apply (spent_keyed _ _ _ Hs).
    + apply i64_range.
    + rewrite len_app. destruct Hr as [_ Hr]. unfold len at 2. by rewrite length_map.
    + done.
    + done.
    + intros c. apply (spent_stays s s1 s2 _ ls xs B S c Hok Ha Hs).
    + intros c. apply (spent_stays s s1 s2 _ ls xs B S c Hok Ha Hs).
  - rewrite len_app. pose proof (added_len _ _ _ _ _ _ Ha). lia.
Qed.

(** What the window gives up, in one piece. *)
Definition without (l : list uint256) (u : gmap Z CMWBlockUndo) : gmap Z CMWBlockUndo :=
  fold_left (fun u h => delete h u) l u.

Lemma without_lookup l u h : without l u !! h = if decide (h ∈ l) then None else u !! h.
Proof.
  unfold without. revert u. induction l as [|x l IH]; intros u; cbn [fold_left]; [done|]. rewrite IH.
  destruct (decide (h = x)) as [->|Hn].
  - rewrite lookup_delete_eq, (decide_True (P := x ∈ x :: l)) by set_solver. by case_decide.
  - rewrite lookup_delete_ne by done. repeat case_decide; set_solver.
Qed.

Lemma evict_without dq u :
  let k := Z.to_nat (len dq - MW_UNDO_WINDOW) in evict dq u = (without (take k dq) u, drop k dq).
Proof.
  cbv zeta. revert u. induction dq as [|x dq IH]; intros u; [by rewrite take_nil, drop_nil|]. cbn [evict].
  rewrite len_cons. destruct (Z.ltb_spec MW_UNDO_WINDOW (1 + len dq)).
  - rewrite IH. replace (Z.to_nat (1 + len dq - MW_UNDO_WINDOW)) with (S (Z.to_nat (len dq - MW_UNDO_WINDOW))) by lia. done.
  - by replace (Z.to_nat (1 + len dq - MW_UNDO_WINDOW)) with O by lia.
Qed.

Lemma ApplyBlock_window s ls b n h d :
  state_ok s ls -> room s ls b -> fresh s (vOutputs (b_body b)) -> mapBlockUndo s !! h = None ->
  len (dqUndoOrder (ApplyBlock s b n h d).1) <= MW_UNDO_WINDOW.
Proof.
  intros Hok Hr Hf Hh. pose proof (ApplyBlock_ok s ls b n h d Hok Hr Hf Hh) as Hap.
  by destruct (ApplyBlock s b n h d) as [t ok], Hap as (_ & _ & Hw & _).
Qed.

(** Disconnecting the block just connected, with room in the window. *)
Lemma Disconnect_Apply s ls b n h d fNo :
  state_ok s ls -> room s ls b -> fresh s (vOutputs (b_body b)) -> mapBlockUndo s !! h = None ->
  len (dqUndoOrder s) < MW_UNDO_WINDOW ->
  DisconnectBlock (ApplyBlock s b n h d).1 h fNo = (s, true).
Proof.
  intros Hok Hr Hf Hh Hw.
  destruct (ApplyBlock_spec s ls b n h d Hok Hr Hf Hh) as (s1 & s2 & B & S & xs & Ha & Hs & Er & Hall & E). cbv zeta in E.
  rewrite evict_none in E by (rewrite len_app; change (len [h]) with 1; lia). rewrite E. cbn [fst].
  rewrite (DisconnectBlock_spec s ls b h d s1 s2 B S xs) by (done || apply lookup_insert_eq).
  assert (h ∉ dqUndoOrder s) as Hnin by (rewrite <-(ok_undo _ _ Hok); rewrite Hh; by intros [? ?]).
  rewrite erase_first_last, delete_insert_id by done. by destruct s.
Qed.

(** ** Reorganisations *)

(** The state without its [k] oldest undo records. *)
Definition forget (k : nat) (s : CMWState) : CMWState :=
  set_undo s (without (take k (dqUndoOrder s)) (mapBlockUndo s)) (drop k (dqUndoOrder s)).

Lemma forget_twice k1 k2 s u dq :
  forget k2 (set_undo s (without (take k1 dq) u) (drop k1 dq)) =
  set_undo s (without (take (k1 + k2) dq) u) (drop (k1 + k2) dq).
Proof.
  unfold forget. cbn [dqUndoOrder mapBlockUndo set_undo]. rewrite drop_drop, <-take_take_drop. unfold without.
  by rewrite fold_left_app.
Qed.

Lemma forget_none s : len (dqUndoOrder s) <= MW_UNDO_WINDOW ->
  forget (Z.to_nat (len (dqUndoOrder s) + 0 - MW_UNDO_WINDOW)) s = s.
Proof. intros Hl. replace (Z.to_nat _) with O by lia. by destruct s. Qed.

Lemma erase_dropped k h dq : h ∉ dq -> (k <= length dq)%nat -> erase_first h (drop k (dq ++ [h])) = drop k dq.
Proof.
  intros Hh Hk. rewrite drop_app_le by done. apply erase_first_last. intros Hin. apply Hh.
  by apply (subseteq_drop k).
Qed.

Lemma delete_dropped k h dq r u :
  u !! h = None -> (k <= length dq)%nat ->
  delete h (without (take k (dq ++ [h])) (<[h := r]> u)) = without (take k dq) u.
Proof.
  intros Hu Hk. rewrite take_app_le by done. apply map_eq. intros x. rewrite lookup_delete, !without_lookup.
  destruct (decide (h = x)) as [<-|Hn]; [rewrite Hu; by case_decide|]. by rewrite lookup_insert_ne.
Qed.

(** Disconnecting the block just connected, with [m] blocks after it disconnected. *)
Lemma Disconnect_forget s ls b n h d m :
  state_ok s ls -> room s ls b -> fresh s (vOutputs (b_body b)) -> mapBlockUndo s !! h = None ->
  0 <= m < MW_UNDO_WINDOW ->
  let t := (ApplyBlock s b n h d).1 in
  DisconnectBlock (forget (Z.to_nat (len (dqUndoOrder t) + m - MW_UNDO_WINDOW)) t) h false =
  (forget (Z.to_nat (len (dqUndoOrder s) + (1 + m) - MW_UNDO_WINDOW)) s, true).
Proof.
  intros Hok Hr Hf Hh Hm. cbv zeta.
  destruct (ApplyBlock_spec s ls b n h d Hok Hr Hf Hh) as (s1 & s2 & B & S & xs & Ha & Hs & Er & Hall & E). cbv zeta in E.
  set (undo := Build_CMWBlockUndo _ _ _ _ _ _ _) in E. rewrite evict_without, len_app in E. change (len [h]) with 1 in E.
  set (k1 := Z.to_nat _) in E. rewrite E. cbn [fst]. clear E.
  assert (h ∉ dqUndoOrder s) as Hnin by (rewrite <-(ok_undo _ _ Hok); rewrite Hh; by intros [? ?]).
  set (X := set_tip _ _ _ _). set (L := dqUndoOrder s ++ [h]). set (U := <[h := undo]> (mapBlockUndo s)).
  rewrite forget_twice. cbn [dqUndoOrder set_undo]. set (k2 := Z.to_nat (len (drop k1 L) + m - MW_UNDO_WINDOW)).
  assert ((k1 + k2)%nat = Z.to_nat (len (dqUndoOrder s) + (1 + m) - MW_UNDO_WINDOW)) as Ek.
  { unfold k2, k1, L, len. rewrite length_drop, length_app. cbn [length]. lia. }
  assert ((k1 + k2 <= length (dqUndoOrder s))%nat) as Hk by (rewrite Ek; unfold len; lia).
  unfold X. rewrite (DisconnectBlock_spec s ls b h d s1 s2 B S xs); [|done..|].
  - unfold L, U. rewrite erase_dropped, delete_dropped by done. by rewrite Ek.
  - unfold U, L. rewrite without_lookup, take_app_le by done.
    destruct (decide _) as [Hin|_]; [|apply lookup_insert_eq]. exfalso. apply Hnin. by apply (subseteq_take (k1 + k2)).
Qed.


(** A run of connected blocks, by their hashes: each one brings outputs the
    state has not seen and a hash it holds no record of. *)
Inductive connects : CMWState -> list uint256 -> CMWState -> Prop :=
| connects_nil s : connects s [] s
| connects_cons s ls b n h d hs s' :
    state_ok s ls -> room s ls b -> fresh s (vOutputs (b_body b)) -> mapBlockUndo s !! h = None ->
    connects (ApplyBlock s b n h d).1 hs s' -> connects s (h :: hs) s'.

Definition disconnect_all (s : CMWState) (hs : list uint256) : CMWState * bool :=
  fold_left (fun r h => let '(s', ok) := DisconnectBlock r.1 h false in (s', r.2 && ok)) hs (s, true).

(** C12. Disconnecting a run of at most a thousand connected blocks, the last one first,
    gives back the state before the first one in every member but one: of its undo
    records the oldest are missing, as many as the run pushed out of the window of a
    thousand. The state is one between blocks with at most a thousand records; each
    block of the run has a hash without an undo record, outputs that are unspent in the
    state, where they are passed over, or were never in it, and room for them (2^59
    leaves in all). An output that was spent before and is created again is left out:
    [recreated_output_respendable] shows what becomes of it. *)
Theorem reorg_restores s hs s' :
  connects s hs s' -> len (dqUndoOrder s) <= MW_UNDO_WINDOW -> len hs <= MW_UNDO_WINDOW ->
  disconnect_all s' (rev hs) =
    (forget (Z.to_nat (len (dqUndoOrder s) + len hs - MW_UNDO_WINDOW)) s, true).
Proof.
  unfold disconnect_all. intros Hc. induction Hc as [s|s ls b n h d hs s' Hok Hr Hf Hh Hc IH]; intros Hd Hw.
  { cbn [rev fold_left]. by rewrite forget_none. }
  rewrite len_cons in *. pose proof (len_pos hs). cbn [rev]. rewrite fold_left_app, IH; [|by apply (ApplyBlock_window s ls)|lia].
  cbn [fold_left fst snd]. by rewrite (Disconnect_forget s ls) by (done || lia).
Qed.

(** Connecting a block whose outputs are new to the state, under a hash without an undo
    record, keeps the invariant of the state, never fails, and never lets the window
    exceed its bound. *)
Theorem apply_block_ok s ls b n h d :
  state_ok s ls -> room s ls b -> fresh s (vOutputs (b_body b)) -> HasUndo s h = false ->
  let '(s', ok) := ApplyBlock s b n h d in
  ok = true /\ HasUndo s' h = true /\ len (dqUndoOrder s') <= MW_UNDO_WINDOW /\
  exists ls', state_ok s' ls' /\ len ls' <= len ls + len (vOutputs (b_body b)).
Proof.
  intros Hok Hr Hf Hh. apply bool_decide_eq_false in Hh. apply eq_None_not_Some in Hh.
  pose proof (ApplyBlock_ok s ls b n h d Hok Hr Hf Hh) as Hap. destruct (ApplyBlock s b n h d) as [s' ok].
  destruct Hap as (-> & Hin & Hw & _ & ls' & Hok' & Hl). split; [done|]. split; [|eauto].
  unfold HasUndo. apply bool_decide_eq_true. by apply (ok_undo _ _ Hok').
Qed.

(** Outputs that are added leave one that is there and the spent ones as they are. *)
Lemma added_outputs_keep outs r c :
  is_Some (mapOutputs r.1 !! c) ->
  let r' := fold_left apply_output outs r in
  mapOutputs r'.1 !! c = mapOutputs r.1 !! c /\ setSpent r'.1 = setSpent r.1.
Proof.
  intros Hc. cbv zeta. revert r Hc. induction outs as [|o outs IH]; intros r Hc; [done|]. cbn [fold_left].
  assert (mapOutputs (apply_output r o).1 !! c = mapOutputs r.1 !! c /\ setSpent (apply_output r o).1 = setSpent r.1) as [E1 E2].
  { unfold apply_output, AddOutput. destruct (IsNull _); [done|]. case_bool_decide as Ho; [done|].
    destruct (Append (mmr r.1) (GetOutputID o)). cbn. rewrite lookup_insert_ne; [done|]. intros E. apply Ho. by rewrite E. }
  destruct (IH (apply_output r o)) as [-> ->]; [by rewrite E1|done].
Qed.

(** An output that is unspent is spent by the first input for it, and stays so. *)
Definition gone (s : CMWState) (c : Commitment) : Prop := mapOutputs s !! c = None /\ c ∈ setSpent s.

Lemma input_spends r i c :
  gone r.1 c \/ is_Some (mapOutputs r.1 !! c) /\ c ∉ setSpent r.1 ->
  let s' := (apply_input r i).1 in
  if decide (i_commitment i = c) then gone s' c
  else mapOutputs s' !! c = mapOutputs r.1 !! c /\ (c ∈ setSpent s' <-> c ∈ setSpent r.1).
Proof.
  unfold gone, apply_input, GetOutput, SpendOutput. intros Hc. destruct (mapOutputs r.1 !! i_commitment i) as [o|] eqn:Eo; cbn [fst].
  - case_bool_decide as Hs; cbn; case_decide as E; subst; try done.
    + destruct Hc as [[Hc _]|[_ Hc]]; [by rewrite Hc in Eo|done].
    + rewrite lookup_delete_eq. split; [done|set_solver].
    + rewrite lookup_delete_ne by done. split; [done|set_solver].
  - case_decide as E; [subst|done]. destruct Hc as [Hc|[[o Hc] _]]; [done|by rewrite Hc in Eo].
Qed.

Lemma inputs_spend ins r c :
  gone r.1 c \/ is_Some (mapOutputs r.1 !! c) /\ c ∉ setSpent r.1 /\ c ∈ map i_commitment ins ->
  gone (fold_left apply_input ins r).1 c.
Proof.
  revert r. induction ins as [|i ins IH]; intros r Hc; [destruct Hc as [|(_ & _ & []%not_elem_of_nil)]; done|].
  cbn [fold_left]. apply IH. pose proof (input_spends r i c) as Hi. cbv zeta in Hi. unfold gone in *.
  destruct (decide (i_commitment i = c)) as [E|E]; [left; apply Hi; tauto|].
  destruct Hi as [-> ->]; [tauto|]. destruct Hc as [|(? & ? & Hin)]; [by left|right]. cbn [map] in Hin. set_solver.
Qed.

Lemma ApplyBlock_spends s b n h d i :
  (forall c, c ∈ setSpent s -> mapOutputs s !! c = None) -> HasUndo s h = false ->
  i ∈ vInputs (b_body b) -> HasOutput s (i_commitment i) = true ->
  let s' := (ApplyBlock s b n h d).1 in
  HasOutput s' (i_commitment i) = false /\ i_commitment i ∈ setSpent s' /\
  SpendOutput s' (i_commitment i) = (s', false).
Proof.
  intros Hd Hh Hi Hhas. unfold HasUndo in Hh. apply bool_decide_eq_true in Hhas. unfold ApplyBlock. rewrite Hh.
  destruct (added_outputs_keep (vOutputs (b_body b)) (s, []) (i_commitment i) Hhas) as [E1 E2].
  destruct (fold_left apply_output _ _) as [s1 added]. cbn [fst] in E1, E2.
  assert (gone (fold_left apply_input (vInputs (b_body b)) (s1, [])).1 (i_commitment i)) as Hg.
  { apply inputs_spend. right. cbn [fst]. rewrite E1, E2. split; [done|]. split; [|exact (list_elem_of_fmap_2 i_commitment _ i Hi)].
    intros Hs. apply Hd in Hs. rewrite Hs in Hhas. by destruct Hhas. }
  destruct (fold_left apply_input _ _) as [s2 S]. rewrite add_kernels. cbn [fst] in Hg. destruct Hg as [G1 G2].
  destruct (evict _ _) as [u dq]. unfold HasOutput, SpendOutput. cbn. rewrite G1.
  split; [by rewrite bool_decide_eq_false_2 by (by intros [? ?])|done].
Qed.

(** Spending happens once: after a block, every input whose output was
    unspent before it is gone from the outputs and recorded as spent, and it
    cannot be spent again. *)
Theorem block_spends_inputs s b n h d i :
  (forall c, c ∈ setSpent s -> mapOutputs s !! c = None) -> HasUndo s h = false ->
  i ∈ vInputs (b_body b) -> HasOutput s (i_commitment i) = true ->
  let s' := (ApplyBlock s b n h d).1 in
  HasOutput s' (i_commitment i) = false /\ i_commitment i ∈ setSpent s' /\
  SpendOutput s' (i_commitment i) = (s', false).
Proof. apply ApplyBlock_spends. Qed.

(** ** An output created again after it was spent

    [AddOutput] looks only at the unspent outputs, [SpendOutput] also at the
    spent ones, and [ApplyBlock] passes over a spend that fails. *)

Lemma stuck_apply_output c r o :
  c ∈ setSpent r.1 /\ is_Some (mapOutputs r.1 !! c) ->
  c ∈ setSpent (apply_output r o).1 /\ is_Some (mapOutputs (apply_output r o).1 !! c).
Proof.
  intros [H1 H2]. unfold apply_output, AddOutput. destruct (IsNull _); [done|]. case_bool_decide; [done|].
  destruct (Append _ _). cbn. split; [done|]. apply lookup_insert_is_Some. destruct (decide (o_commitment o = c)); auto.
Qed.

Lemma stuck_apply_input c r i :
  c ∈ setSpent r.1 /\ is_Some (mapOutputs r.1 !! c) ->
  c ∈ setSpent (apply_input r i).1 /\ is_Some (mapOutputs (apply_input r i).1 !! c).
Proof.
  intros [H1 H2]. unfold apply_input, GetOutput, SpendOutput. destruct (mapOutputs r.1 !! i_commitment i); [|done].
  case_bool_decide as Hin; [done|]. cbn. split; [set_solver|].
  rewrite lookup_delete_ne; [done|]. intros E. by rewrite E in Hin.
Qed.

Lemma fold_left_inv {A B} (P : A -> Prop) (f : A -> B -> A) l a :
  (forall a b, P a -> P (f a b)) -> P a -> P (fold_left f l a).
Proof. intros Hf. revert a. induction l as [|x l IH]; intros a Ha; [done|]. cbn. auto. Qed.

(** An output whose commitment was spent before can be created again, and
    then no block removes it: it stays available to every later block that
    spends it, and each of them is applied without an error. *)
Theorem recreated_output_respendable s o :
  IsNull (o_commitment o) = false -> o_commitment o ∈ setSpent s -> HasOutput s (o_commitment o) = false ->
  exists s1, AddOutput s o = (s1, true) /\ HasOutput s1 (o_commitment o) = true /\
  forall b n h d, HasUndo s1 h = false ->
    exists s2, ApplyBlock s1 b n h d = (s2, true) /\ HasOutput s2 (o_commitment o) = true /\
      o_commitment o ∈ setSpent s2.
Proof.
  intros Hnull Hin Hno. unfold AddOutput. rewrite Hnull. unfold HasOutput in Hno. rewrite Hno.
  destruct (Append _ _) as [m ix] eqn:Em. eexists. split; [done|]. set (s1 := set_outputs _ _ _ _).
  assert (o_commitment o ∈ setSpent s1 /\ is_Some (mapOutputs s1 !! o_commitment o)) as H1
    by (unfold s1; cbn; rewrite lookup_insert_eq; eauto).
  split; [unfold HasOutput; by rewrite bool_decide_eq_true_2 by apply H1|].
  intros b n h d Hh. unfold ApplyBlock. unfold HasUndo in Hh. rewrite Hh.
  pose proof (fold_left_inv (fun r => o_commitment o ∈ setSpent r.1 /\ is_Some (mapOutputs r.1 !! o_commitment o))
    apply_output (vOutputs (b_body b)) (s1, []) (stuck_apply_output (o_commitment o)) H1) as H2.
  destruct (fold_left apply_output _ _) as [s2 added].
  pose proof (fold_left_inv (fun r => o_commitment o ∈ setSpent r.1 /\ is_Some (mapOutputs r.1 !! o_commitment o))
    apply_input (vInputs (b_body b)) (s2, []) (stuck_apply_input (o_commitment o)) H2) as H3.
  destruct (fold_left apply_input _ _) as [s3 spent]. rewrite add_kernels. cbv zeta.
  destruct (evict _ _) as [u dq]. eexists. split; [done|]. cbn. unfold HasOutput. cbn.
  rewrite bool_decide_eq_true_2 by apply H3. split; [done|apply H3].
Qed.

(** ** Witnesses *)

Lemma fresh_state_ok : state_ok fresh_state [].
Proof.
  split.
  - change (mmr fresh_state) with empty_mmr. unfold mmr_of. by rewrite mountains_nil.
  - intros c o. cbn. by rewrite lookup_empty.
  - cbn. lia.
  - unfold len. cbn. lia.
  - intros h. cbn. rewrite lookup_empty. split; [by intros [? ?]|set_solver].
  - constructor.
  - cbn. set_solver.
  - intros c. cbn. rewrite lookup_empty. by intros [? ?].
Qed.

Lemma fresh_check s outs :
  forallb (fun o => bool_decide (is_Some (mapOutputs s !! o_commitment o)) ||
                    negb (bool_decide (is_Some (mapMMRIndex s !! o_commitment o)))) outs = true ->
  fresh s outs.
Proof.
  rewrite forallb_forall. intros Hall o Ho Hn. rewrite list_elem_of_In in Ho. specialize (Hall o Ho).
  rewrite Hn in Hall. cbn in Hall. bool_prop. by apply eq_None_not_Some.
Qed.

Lemma room_check s ls b :
  (len ls + len (vOutputs (b_body b)) <? 2 ^ 59) && (len (vKernelExcesses s) + len (vKernels (b_body b)) <? 2 ^ 63) = true ->
  room s ls b.
Proof. intros. bool_prop. by split. Qed.
End spec.

Section witnesses.
#[local] Instance toy : Sha256 := toy_sha256.

Definition body1 : CMWTransactionBody :=
  {| vInputs := []; vOutputs := [sample_output 8; sample_output 9]; vKernels := [sample_kernel 1 10 500 3] |}.
Definition body2 : CMWTransactionBody :=
  {| vInputs := [sample_input 8]; vOutputs := [sample_output 5]; vKernels := [sample_kernel 0 5 0 4] |}.
Definition block_of (b : CMWTransactionBody) : CMWBlock :=
  {| hashPrevMWBlock := 0; b_body := b; vCutThrough := []; nHeight := 1; b_offset := null_blind |}.
Definition state1 : CMWState := (ApplyBlock fresh_state (block_of body1) 1 101 500).1.
Definition state2 : CMWState := (ApplyBlock state1 (block_of body2) 2 102 0).1.

Lemma apply_block_ok_witness : (ApplyBlock fresh_state (block_of body1) 1 101 500).2 = true.
Proof.
  pose proof (apply_block_ok fresh_state [] (block_of body1) 1 101 500 fresh_state_ok
    ltac:(apply room_check; vm_compute; reflexivity) ltac:(apply fresh_check; vm_compute; reflexivity)
    ltac:(vm_compute; reflexivity)) as Hap.
  destruct (ApplyBlock fresh_state (block_of body1) 1 101 500) as [s ok]. apply Hap.
Defined.

(** The invariant holds of [state1], whose leaves are the two output identifiers. *)
Lemma state1_ok : exists ls, state_ok state1 ls /\ len ls <= 2.
Proof.
  pose proof (ApplyBlock_ok fresh_state [] (block_of body1) 1 101 500 fresh_state_ok
    ltac:(apply room_check; vm_compute; reflexivity) ltac:(apply fresh_check; vm_compute; reflexivity)
    ltac:(vm_compute; reflexivity)) as Hap.
  unfold state1. destruct (ApplyBlock fresh_state (block_of body1) 1 101 500) as [s ok]. apply Hap.
Qed.

Lemma room1 ls : len ls <= 2 -> room state1 ls (block_of body2).
Proof.
  intros Hl. split.
  - change (len (vOutputs (b_body (block_of body2)))) with 1. lia.
  - vm_compute. reflexivity.
Qed.

Lemma reorg_restores_witness : disconnect_all state2 [102; 101] = (fresh_state, true).
Proof.
  apply (reorg_restores fresh_state [101; 102] state2); [|vm_compute; discriminate..].
  apply (connects_cons fresh_state [] (block_of body1) 1 101 500);
    [apply fresh_state_ok|apply room_check; vm_compute; reflexivity|apply fresh_check; vm_compute; reflexivity|vm_compute; reflexivity|].
  destruct state1_ok as (ls & Hok & Hl).
  apply (connects_cons state1 ls (block_of body2) 2 102 0);
    [done|by apply room1|apply fresh_check; vm_compute; reflexivity|vm_compute; reflexivity|apply connects_nil].
Defined.

Lemma block_spends_inputs_witness : HasOutput state2 (pt 8) = false /\ pt 8 ∈ setSpent state2.
Proof.
  destruct state1_ok as (ls & Hok & Hl).
  destruct (block_spends_inputs state1 (block_of body2) 2 102 0 (sample_input 8)
    ltac:(intros c Hc; apply (ok_spent _ _ Hok c Hc)) ltac:(vm_compute; reflexivity)
    ltac:(apply list_elem_of_singleton; reflexivity) ltac:(vm_compute; reflexivity)) as (H1 & H2 & _).
  split; [exact H1|exact H2].
Defined.

Lemma recreated_output_respendable_witness :
  exists s1, AddOutput state2 (sample_output 8) = (s1, true) /\ HasOutput s1 (pt 8) = true /\
  exists s2, ApplyBlock s1 (block_of body2) 3 103 0 = (s2, true) /\ HasOutput s2 (pt 8) = true.
Proof.
  destruct (recreated_output_respendable state2 (sample_output 8)) as (s1 & E & H1 & H2);
    [vm_compute; reflexivity|apply (bool_decide_unpack _); vm_compute; exact I|vm_compute; reflexivity|].
  exists s1. split; [exact E|]. split; [exact H1|].
  destruct (H2 (block_of body2) 3 103 0) as (s2 & E2 & H3 & _).
  - assert (s1 = (AddOutput state2 (sample_output 8)).1) as -> by (rewrite E; reflexivity). vm_compute. reflexivity.
  - exists s2. split; [exact E2|exact H3].
Defined.

End witnesses.

End MwState.
