(* ===== verification/Secp.v ===== *)
(** * The curve library (libsecp256k1), as an interface

    The program calls libsecp256k1 for every curve operation.  [Secp256k1] is
    the part of its interface the program uses, [SecpLaws] and [SecpGroup] are
    what its documentation promises and the theorems rely on.  [log_secp] is a
    concrete instance: points as their discrete logarithms. *)

From S2P Require Import Prelude.

(** [None] and [false] are the return value 0. *)
Class Secp256k1 := {
  pubkey : Type;
  ec_pubkey_create : bytes -> option pubkey;
  ec_pubkey_parse : bytes -> option pubkey;
  ec_pubkey_serialize : pubkey -> bytes;
  ec_pubkey_tweak_mul : pubkey -> bytes -> option pubkey;
  ec_pubkey_negate : pubkey -> pubkey;
  ec_pubkey_combine : list pubkey -> option pubkey;
  ec_seckey_verify : bytes -> bool;
  ec_seckey_tweak_add : bytes -> bytes -> option bytes;
  ec_seckey_negate : bytes -> option bytes;
  xonly_pubkey_parse : bytes -> option pubkey;
  xonly_pubkey_from_pubkey : pubkey -> option pubkey;
  schnorrsig_verify : bytes -> bytes -> pubkey -> bool;
  keypair_sign32 : bytes -> bytes -> option (option bytes)
    (* [keypair_create], then [schnorrsig_sign32] with the key pair *)
}.

(** Secret keys are the numbers from 1 to the group order less one; a public key
    is serialised in 33 bytes that parse back to it. *)
Class SecpLaws `{Secp256k1} : Prop := {
  zero_key_invalid : ec_pubkey_create (replicate 32 0) = None;
  create_valid k : is_Some (ec_pubkey_create k) <-> ec_seckey_verify k = true;
  serialize_length p : length (ec_pubkey_serialize p) = 33%nat;
  serialize_ok p : bytes_ok (ec_pubkey_serialize p);
  serialize_nonzero p : ec_pubkey_serialize p <> replicate 33 0;
  parse_serialize p : ec_pubkey_parse (ec_pubkey_serialize p) = Some p;
  tweak_add_length a b c : ec_seckey_tweak_add a b = Some c -> length c = 32%nat /\ bytes_ok c
}.

(** What is signed with a key verifies under the x-only key of its public key. *)
Class SchnorrLaws `{Secp256k1} : Prop := {
  sign_valid k m r : keypair_sign32 k m = Some r -> is_Some (ec_pubkey_create k);
  sign_verify k m s p x :
    length k = 32%nat -> bytes_ok k -> keypair_sign32 k m = Some (Some s) -> ec_pubkey_create k = Some p ->
    xonly_pubkey_from_pubkey p = Some x -> schnorrsig_verify s m x = true
}.

(** The points with the point at infinity form a commutative group; the library
    represents every point but the one at infinity, and [combine] fails exactly
    on a sum at infinity. *)
Class SecpGroup `{Secp256k1} := {
  point : Type;
  point_zero : point;
  point_add : point -> point -> point;
  point_neg : point -> point;
  point_of : pubkey -> point;
  point_add_assoc a b c : point_add a (point_add b c) = point_add (point_add a b) c;
  point_add_comm a b : point_add a b = point_add b a;
  point_add_zero a : point_add point_zero a = a;
  point_add_neg a : point_add a (point_neg a) = point_zero;
  point_of_negate p : point_of (ec_pubkey_negate p) = point_neg (point_of p);
  point_of_combine l p : ec_pubkey_combine l = Some p -> point_of p = foldr point_add point_zero (map point_of l);
  combine_infinity l :
    l <> [] -> (ec_pubkey_combine l = None <-> foldr point_add point_zero (map point_of l) = point_zero)
}.

Definition point_sum `{SecpGroup} (l : list point) : point := foldr point_add point_zero l.

Section group.
Context `{SecpGroup}.

Lemma point_sum_app l k : point_sum (l ++ k) = point_add (point_sum l) (point_sum k).
Proof.
  unfold point_sum. induction l as [|x l IH]; cbn; [by rewrite point_add_zero|].
  by rewrite IH, point_add_assoc.
Qed.

Lemma point_neg_unique a b : point_add a b = point_zero -> b = point_neg a.
Proof.
  intros E. rewrite <-(point_add_zero b), <-(point_add_neg a), (point_add_comm a (point_neg a)).
  rewrite <-point_add_assoc, E, point_add_comm. apply point_add_zero.
Qed.

Lemma point_neg_add a b : point_neg (point_add a b) = point_add (point_neg a) (point_neg b).
Proof.
  symmetry. apply point_neg_unique. rewrite (point_add_comm a b), <-point_add_assoc, (point_add_assoc a).
  by rewrite point_add_neg, point_add_zero, point_add_neg.
Qed.

Lemma point_sum_neg l : point_sum (map point_neg l) = point_neg (point_sum l).
Proof.
  induction l as [|x l IH]; unfold point_sum in *; cbn.
  - apply point_neg_unique, point_add_zero.
  - by rewrite IH, point_neg_add.
Qed.

Lemma point_sub_zero a b : point_add a (point_neg b) = point_zero <-> a = b.
Proof.
  split; [|intros ->; apply point_add_neg]. intros E.
  rewrite <-(point_add_zero a), <-(point_add_neg b), <-point_add_assoc.
  rewrite (point_add_comm (point_neg b)), E, point_add_comm. apply point_add_zero.
Qed.
End group.

(** ** A concrete instance

    The group of order [ORDER], a point being its logarithm; a signature is valid
    when it is the hash-free encoding of the key, which is enough to run the
    definitions. *)

Definition ORDER : Z := 115792089237316195423570985008687907852837564279074904382605163141518161494337.

Definition be_value (l : bytes) : Z := le_value (rev l).
Definition be_bytes32 (z : Z) : bytes := rev (le_bytes 32 z).
Definition log_key (k : bytes) : option Z :=
  let z := be_value k in if (0 <? z) && (z <? ORDER) then Some z else None.
Definition log_nonzero (z : Z) : option Z := if z mod ORDER =? 0 then None else Some (z mod ORDER).

Definition log_secp : Secp256k1 := {|
  pubkey := { z : Z | (0 <? z) && (z <? ORDER) = true };
  ec_pubkey_create := fun k =>
    match decide ((0 <? be_value k) && (be_value k <? ORDER) = true) with left h => Some (be_value k ↾ h) | right _ => None end;
  ec_pubkey_parse := fun b =>
    match b with
    | tag :: k =>
      if (tag =? 2) && (length k =? 32)%nat then
        match decide ((0 <? be_value k) && (be_value k <? ORDER) = true) with left h => Some (be_value k ↾ h) | right _ => None end
      else None
    | [] => None
    end;
  ec_pubkey_serialize := fun p => 2 :: be_bytes32 (`p);
  ec_pubkey_tweak_mul := fun p k =>
    match decide ((0 <? (`p * be_value k) mod ORDER) && ((`p * be_value k) mod ORDER <? ORDER) = true) with
    | left h => Some (_ ↾ h) | right _ => None end;
  ec_pubkey_negate := fun p =>
    match decide ((0 <? ORDER - `p) && (ORDER - `p <? ORDER) = true) with left h => _ ↾ h | right _ => p end;
  ec_pubkey_combine := fun l =>
    let z := (foldr Z.add 0 (map (fun p => `p) l)) mod ORDER in
    match decide ((0 <? z) && (z <? ORDER) = true) with left h => Some (z ↾ h) | right _ => None end;
  ec_seckey_verify := fun k => (0 <? be_value k) && (be_value k <? ORDER);
  ec_seckey_tweak_add := fun a b =>
    if (0 <? be_value a) && (be_value a <? ORDER) then
      let z := (be_value a + be_value b) mod ORDER in if z =? 0 then None else Some (be_bytes32 z)
    else None;
  ec_seckey_negate := fun a => Some (be_bytes32 ((- be_value a) mod ORDER));
  xonly_pubkey_parse := fun k =>
    match decide ((0 <? be_value k) && (be_value k <? ORDER) = true) with left h => Some (be_value k ↾ h) | right _ => None end;
  xonly_pubkey_from_pubkey := fun p => Some p;
  schnorrsig_verify := fun sig msg p => bool_decide (sig = be_bytes32 (`p) ++ msg);
  keypair_sign32 := fun k msg => if (0 <? be_value k) && (be_value k <? ORDER) then Some (Some (k ++ msg)) else None
|}.

(** ** The instance satisfies the interface *)

Lemma be_value_bytes z : 0 <= z < 2 ^ 256 -> be_value (be_bytes32 z) = z.
Proof. intros Hz. unfold be_value, be_bytes32. rewrite rev_involutive. by apply le_value_bytes_id. Qed.

Lemma be_bytes32_length z : length (be_bytes32 z) = 32%nat.
Proof. unfold be_bytes32. by rewrite length_rev, le_bytes_length. Qed.

Lemma be_bytes32_ok z : bytes_ok (be_bytes32 z).
Proof. unfold be_bytes32, bytes_ok. apply Forall_rev, le_bytes_ok. Qed.

Lemma order_bound : ORDER < 2 ^ 256.
Proof. vm_compute. reflexivity. Qed.

Lemma be_bytes32_value k : length k = 32%nat -> bytes_ok k -> be_bytes32 (be_value k) = k.
Proof.
  intros Hl Hk. unfold be_bytes32, be_value. rewrite <-Hl, <-length_rev, le_bytes_value; [apply rev_involutive|].
  by apply Forall_rev.
Qed.

Lemma be_value_zero : be_value (replicate 32 0) = 0.
Proof. vm_compute. reflexivity. Qed.

Section instance.
#[local] Existing Instance log_secp.
#[local] Opaque be_bytes32 be_value ORDER.

Definition log_of (p : pubkey) : Z := @proj1_sig Z (fun z => (0 <? z) && (z <? ORDER) = true) p.

Lemma log_eq (p q : pubkey) : `p = `q -> p = q.
Proof. by intros E%(sig_eq_pi _). Qed.

Lemma log_range (p : pubkey) : 0 < `p < ORDER.
Proof. destruct p as [z Hz]. cbn. bool_prop. lia. Qed.

#[export] Instance log_laws : SecpLaws.
Proof.
  split.
  - cbn -[replicate]. destruct (decide _) as [E|]; [|done]. exfalso. by rewrite be_value_zero in E.
  - intros k. cbn. destruct (decide _) as [E|E].
    + split; [by intros _|eauto].
    + split; [by intros [? ?]|done].
  - intros p. cbn. by rewrite be_bytes32_length.
  - intros p. cbn. constructor; [unfold byte_ok; lia|apply be_bytes32_ok].
  - done.
  - intros p. cbn -[ORDER]. rewrite be_bytes32_length. cbn -[ORDER].
    pose proof (log_range p). pose proof order_bound.
    destruct (decide _) as [E|E].
    + f_equal. apply log_eq. cbn. apply be_value_bytes. lia.
    + exfalso. apply E. rewrite be_value_bytes by lia. apply andb_true_iff. rewrite !Z.ltb_lt. lia.
  - intros a b c. cbn -[ORDER]. destruct (_ && _); [|done]. destruct (_ =? 0); [done|]. intros [= <-].
    split; [apply be_bytes32_length|apply be_bytes32_ok].
Qed.

Lemma log_parse_some k : length k = 32%nat -> ec_seckey_verify k = true -> is_Some (ec_pubkey_parse (2 :: k)).
Proof.
  intros Hl Hk. cbn. rewrite Hl. cbn. destruct (decide _) as [|Hn]; [eauto|]. by destruct Hn.
Qed.

#[export] Instance log_schnorr : SchnorrLaws.
Proof.
  split.
  { intros k m r. cbn. destruct (decide _) as [Hd|Hd]; [eauto|]. by rewrite (not_true_is_false _ Hd). }
  intros k m s p x Hl Hk Hs. cbn. destruct (decide _) as [Hd|]; [|done]. intros [= <-] [= <-].
  cbn in Hs. rewrite Hd in Hs. injection Hs as <-. apply bool_decide_eq_true. cbn. f_equal.
  symmetry. by apply be_bytes32_value.
Qed.

(** Points as residues. *)
Definition residue : Type := { z : Z | (0 <=? z) && (z <? ORDER) = true }.

Lemma residue_mod z : (0 <=? z mod ORDER) && (z mod ORDER <? ORDER) = true.
Proof. apply andb_true_iff. rewrite Z.leb_le, Z.ltb_lt. by apply Z.mod_pos_bound. Qed.

Definition to_residue (z : Z) : residue := (z mod ORDER) ↾ residue_mod z.

Lemma residue_eq (a b : residue) : `a = `b -> a = b.
Proof. by intros E%(sig_eq_pi _). Qed.

Lemma residue_range (a : residue) : 0 <= `a < ORDER.
Proof. destruct a as [z Hz]. cbn. bool_prop. lia. Qed.

Lemma residue_sum (l : list residue) (f : residue -> residue -> residue) :
  (forall a b, proj1_sig (f a b) = (`a + `b) mod ORDER) ->
  proj1_sig (foldr f (to_residue 0) l) = foldr Z.add 0 (map (fun p => `p) l) mod ORDER.
Proof.
  intros Hf. induction l as [|x l IH]; [done|]. cbn [foldr map]. rewrite Hf, IH.
  by rewrite Zplus_mod_idemp_r.
Qed.

Lemma log_sum (l : list pubkey) :
  proj1_sig (foldr (fun a b : residue => to_residue (`a + `b)) (to_residue 0)
    (map (fun p : pubkey => to_residue (log_of p)) l)) = foldr Z.add 0 (map log_of l) mod ORDER.
Proof.
  rewrite residue_sum by done. f_equal. f_equal. rewrite map_map. apply map_ext. intros p.
  cbn -[ORDER]. pose proof (log_range p) as Hp. fold (log_of p) in Hp. apply Z.mod_small. lia.
Qed.

#[export] Instance log_group : SecpGroup.
Proof.
  refine {| point := residue; point_zero := to_residue 0;
    point_add a b := to_residue (`a + `b); point_neg a := to_residue (- `a);
    point_of p := to_residue (`p) |}.
  - intros a b c. apply residue_eq. cbn -[ORDER].
    rewrite Zplus_mod_idemp_r, Zplus_mod_idemp_l. f_equal. lia.
  - intros a b. apply residue_eq. cbn -[ORDER]. f_equal. lia.
  - intros a. apply residue_eq. pose proof (residue_range a). cbn -[ORDER]. by apply Z.mod_small.
  - intros a. apply residue_eq. cbn -[ORDER]. rewrite Zplus_mod_idemp_r. by rewrite Z.add_opp_diag_r.
  - intros p. apply residue_eq. pose proof (log_range p). cbn -[ORDER].
    destruct (decide _) as [E|E].
    + cbn -[ORDER]. rewrite (Z.mod_small (`p)) by lia.
      replace (ORDER - `p) with (- `p + 1 * ORDER) by lia. apply Z.mod_add. lia.
    + exfalso. apply E. apply andb_true_iff. rewrite !Z.ltb_lt. lia.
  - intros l p. unfold ec_pubkey_combine, log_secp. set (z := foldr Z.add 0 (map log_of l) mod ORDER).
    change (foldr Z.add 0 (map _ l) mod ORDER) with z. cbn -[ORDER z].
    destruct (decide _) as [Hd|]; [|done]. intros [= <-]. apply residue_eq.
    transitivity z; [|symmetry; apply log_sum]. cbn. apply Z.mod_small. by apply Z.mod_pos_bound.
  - intros l _. set (z := foldr Z.add 0 (map log_of l) mod ORDER). pose proof (log_sum l) as E. fold z in E.
    assert (0 <= z < ORDER) by (by apply Z.mod_pos_bound).
    split.
    + intros Hn. apply residue_eq. etrans; [exact E|]. unfold ec_pubkey_combine, log_secp in Hn. change (foldr Z.add 0 (map _ l) mod ORDER) with z in Hn. cbn -[ORDER z] in Hn |- *.
      destruct (decide _) as [|Hd]; [done|]. destruct (Z.eq_dec z 0) as [->|]; [done|].
      exfalso. apply Hd, andb_true_iff. rewrite !Z.ltb_lt. lia.
    + intros Hz. assert (z = 0 mod ORDER) as E0 by (rewrite <-E; exact (f_equal (@proj1_sig _ _) Hz)). unfold ec_pubkey_combine, log_secp. change (foldr Z.add 0 (map _ l) mod ORDER) with z. cbn -[ORDER z].
      destruct (decide _) as [Hd|]; [|done]. exfalso. apply andb_true_iff in Hd as [Hd _]. apply Z.ltb_lt in Hd.
      rewrite Z.mod_0_l in E0 by done. lia.
Defined.
End instance.
