(* ===== verification/Points.v ===== *)
(** * Points and scalars of the curve, as interfaces

    The wallets that hide the receiver of a payment multiply and add points of
    secp256k1 with OpenSSL: [OpenSSLPoints] is the part of its interface they use,
    [PointsLaws] what its documentation promises.  [residue_points] is a concrete
    instance: points as residues of the order of the group.  [SecpScalars] adds to
    the interface of [Secp] what sums of keys and multiples of points are as numbers. *)

From S2P Require Import Prelude Crypto Secp.

(** [EC_POINT_mul] with the generator, with a point, [EC_POINT_add], the compressed
    form, its reading and the first coordinate, which the point at infinity lacks. *)
Class OpenSSLPoints := {
  EC_POINT : Type;
  infinity : EC_POINT;
  mul_generator : Z -> EC_POINT;
  mul_point : EC_POINT -> Z -> EC_POINT;
  EC_POINT_add : EC_POINT -> EC_POINT -> EC_POINT;
  EC_POINT_point2oct : EC_POINT -> bytes;
  EC_POINT_oct2point : bytes -> option EC_POINT;
  affine_x : EC_POINT -> option Z
}.

Class PointsLaws `{OpenSSLPoints} : Prop := {
  generator_add a b : EC_POINT_add (mul_generator a) (mul_generator b) = mul_generator (a + b);
  generator_order a : mul_generator (a mod ORDER) = mul_generator a;
  generator_mul a b : mul_point (mul_generator a) b = mul_generator (a * b);
  generator_zero a : mul_generator a = infinity <-> a mod ORDER = 0;
  point2oct_length P : length (EC_POINT_point2oct P) = 33%nat <-> P <> infinity;
  point2oct_short P : (length (EC_POINT_point2oct P) <= 33)%nat;
  point2oct_ok P : bytes_ok (EC_POINT_point2oct P);
  oct2point_point2oct P : P <> infinity -> EC_POINT_oct2point (EC_POINT_point2oct P) = Some P;
  affine_x_none P : affine_x P = None <-> P = infinity;
  affine_x_range P x : affine_x P = Some x -> 0 <= x < 2 ^ 256
}.

(** ** Facts *)

Section points.
Context `{OpenSSLPoints} `{!PointsLaws}.

(** A key's multiple of the generator is a point with 33 bytes. *)
Lemma generator_nonzero a : a mod ORDER <> 0 -> mul_generator a <> infinity.
Proof. by rewrite generator_zero. Qed.

Lemma key_nonzero a : 0 < a < ORDER -> a mod ORDER <> 0.
Proof. intros Ha. rewrite Z.mod_small; lia. Qed.

(** Both ends of an exchange compute the same point. *)
Lemma shared_point a b : mul_point (mul_generator a) b = mul_point (mul_generator b) a.
Proof. by rewrite !generator_mul, Z.mul_comm. Qed.

(** A secret that is a sum is that of the sum of the points. *)
Lemma generator_sum a b : mul_generator ((a + b) mod ORDER) = EC_POINT_add (mul_generator a) (mul_generator b).
Proof. by rewrite generator_order, generator_add. Qed.
End points.

(** ** Scalars of libsecp256k1

    What its documentation promises of secret keys as numbers: their sums and
    negations modulo the order, the multiples they are of points. *)
Class SecpScalars `{SecpGroup} := {
  generator : point;
  scale : Z -> point -> point;
  scale_add a b P : scale (a + b) P = point_add (scale a P) (scale b P);
  scale_order a P : scale (a mod ORDER) P = scale a P;
  create_point k p : ec_pubkey_create k = Some p -> point_of p = scale (be_value k) generator;
  tweak_mul_point p k q : ec_pubkey_tweak_mul p k = Some q -> point_of q = scale (be_value k) (point_of p);
  tweak_add_value a b c : ec_seckey_tweak_add a b = Some c -> be_value c = (be_value a + be_value b) mod ORDER;
  tweak_add_valid a b c : ec_seckey_tweak_add a b = Some c -> ec_seckey_verify a = true;
  negate_value a c : ec_seckey_negate a = Some c -> be_value c = (- be_value a) mod ORDER
}.

Section scalars.
Context `{SecpScalars}.

Lemma scale_zero P : scale 0 P = point_zero.
Proof.
  pose proof (scale_add 0 0 P) as E. change (0 + 0) with 0 in E. revert E. generalize (scale 0 P) as x. intros x E.
  transitivity (point_add x (point_add x (point_neg x))); [by rewrite point_add_neg, point_add_comm, point_add_zero|].
  by rewrite point_add_assoc, <-E, point_add_neg.
Qed.

Lemma scale_congr a b P : a mod ORDER = b mod ORDER -> scale a P = scale b P.
Proof. intros E. by rewrite <-(scale_order a), E, scale_order. Qed.
End scalars.

(** ** A concrete instance *)

#[local] Opaque be_bytes32 be_value ORDER.

Definition residue_octets (P : residue) : bytes := if `P =? 0 then [0] else 2 :: be_bytes32 (`P).

Definition residue_points : OpenSSLPoints := {|
  EC_POINT := residue;
  infinity := to_residue 0;
  mul_generator := to_residue;
  mul_point := fun P k => to_residue (`P * k);
  EC_POINT_add := fun P Q => to_residue (`P + `Q);
  EC_POINT_point2oct := residue_octets;
  EC_POINT_oct2point := fun b =>
    match b with
    | tag :: k =>
      if (tag =? 2) && (length k =? 32)%nat && (0 <? be_value k) && (be_value k <? ORDER) then Some (to_residue (be_value k))
      else None
    | [] => None
    end;
  affine_x := fun P => if `P =? 0 then None else Some (`P)
|}.

Lemma residue_zero (P : residue) : P = to_residue 0 <-> `P = 0.
Proof. split; [by intros ->|]. intros E. by apply residue_eq. Qed.

#[export] Instance residue_points_laws : @PointsLaws residue_points.
Proof.
  split; cbn.
  - intros a b. apply residue_eq. cbn. by rewrite <-Zplus_mod.
  - intros a. apply residue_eq. cbn. by apply Zmod_mod.
  - intros a b. apply residue_eq. cbn. by rewrite Zmult_mod_idemp_l.
  - intros a. rewrite residue_zero. done.
  - intros P. rewrite residue_zero. unfold residue_octets. destruct (Z.eqb_spec (`P) 0) as [->|]; cbn; [done|].
    by rewrite be_bytes32_length.
  - intros P. unfold residue_octets. destruct (_ =? 0); cbn; [lia|]. rewrite be_bytes32_length. lia.
  - intros P. unfold residue_octets. destruct (_ =? 0); [by repeat constructor|].
    constructor; [unfold byte_ok; lia|apply be_bytes32_ok].
  - intros P HP. pose proof (residue_range P). pose proof order_bound. rewrite residue_zero in HP. unfold residue_octets.
    destruct (Z.eqb_spec (`P) 0); [done|]. rewrite be_bytes32_length, be_value_bytes by lia. cbn.
    destruct (Z.ltb_spec 0 (`P)), (Z.ltb_spec (`P) ORDER); try lia. f_equal. apply residue_eq. cbn. apply Z.mod_small. lia.
  - intros P. rewrite residue_zero. destruct (Z.eqb_spec (`P) 0); done.
  - intros P x. destruct (_ =? 0); [done|]. intros [= <-]. pose proof (residue_range P). pose proof order_bound. lia.
Qed.

Section scalars_instance.
#[local] Existing Instance log_secp.
#[local] Existing Instance log_group.

#[export] Instance log_scalars : SecpScalars.
Proof.
  refine {| generator := to_residue 1 : @point _ log_group; scale k P := to_residue (k * proj1_sig (P : residue)) |}.
  - intros a b P. apply residue_eq. cbn -[ORDER]. rewrite <-Zplus_mod. f_equal. lia.
  - intros a P. apply residue_eq. cbn -[ORDER]. apply Zmult_mod_idemp_l.
  - intros k p. cbn -[ORDER]. destruct (decide _) as [Hd|]; [|done]. intros [= <-]. apply residue_eq.
    cbn -[ORDER]. rewrite Zmult_mod_idemp_r. f_equal. lia.
  - intros p k q. cbn -[ORDER]. destruct (decide _) as [Hd|]; [|done]. intros [= <-]. apply residue_eq.
    cbn -[ORDER]. rewrite Zmult_mod_idemp_r, Zmod_mod. f_equal. lia.
  - intros a b c. cbn -[ORDER]. destruct (_ && _); [|done]. destruct (_ =? 0); [done|]. intros [= <-]. apply be_value_bytes.
    pose proof order_bound. pose proof (Z.mod_pos_bound (be_value a + be_value b) ORDER eq_refl). lia.
  - intros a b c. cbn -[ORDER]. by destruct (_ && _).
  - intros a c. cbn -[ORDER]. intros [= <-]. apply be_value_bytes.
    pose proof order_bound. pose proof (Z.mod_pos_bound (- be_value a) ORDER eq_refl). lia.
Defined.
End scalars_instance.
