(* ===== verification/MwCrypto.v ===== *)
(** * Commitments and signatures ([src/mw/crypto/pedersen.cpp], [src/mw/crypto/schnorr.cpp])

    Pedersen commitments with their sum check, blinding-factor arithmetic, and
    Schnorr signatures over commitments, on the curve interface of [Secp]. *)

From S2P Require Import Prelude Crypto Secp Serialize MwModels.
Import MwModels.

Module MwCrypto.

Section curve.
Context `{Secp256k1}.

(** ** Pedersen commitments *)

Definition GENERATOR_H : bytes :=
  [2; 80; 146; 155; 116; 193; 160; 73; 84; 183; 139; 75;
   96; 53; 233; 122; 94; 7; 138; 90; 15; 40; 236; 150;
   213; 71; 191; 238; 154; 206; 128; 58; 192].

(** The loop that writes [absValue] from the last byte up; [i] bytes are left. *)
Fixpoint fill_scalar (i : nat) (absValue : Z) (written : bytes) : bytes :=
  match i with
  | O => written
  | S i' =>
    if 0 <? absValue then fill_scalar i' (Z.shiftr absValue 8) (Z.land absValue 255 :: written)
    else replicate i 0 ++ written
  end.
Definition value_scalar (nValue : Z) : bytes := fill_scalar 32 (if 0 <=? nValue then nValue else 0) [].

Definition Commit (nValue : Z) (blind : BlindingFactor) : Commitment :=
  match ec_pubkey_create blind with
  | None => null_commitment
  | Some pubkey_rG =>
    let valueScalar := value_scalar nValue in
    match ec_pubkey_parse GENERATOR_H with
    | None => null_commitment
    | Some pubkey_H =>
      if forallb (fun b => b =? 0) valueScalar then ec_pubkey_serialize pubkey_rG
      else
        match ec_pubkey_tweak_mul pubkey_H valueScalar with
        | None => null_commitment
        | Some pubkey_vH =>
          match ec_pubkey_combine [pubkey_rG; pubkey_vH] with
          | None => null_commitment
          | Some combined => ec_pubkey_serialize combined
          end
        end
    end
  end.

Definition IsCanonicalCommitment (p33 : bytes) : bool :=
  if forallb (fun b => b =? 0) p33 then false
  else
    match ec_pubkey_parse p33 with
    | None => false
    | Some pt => bool_decide (ec_pubkey_serialize pt = p33)
    end.

(** The loops of [VerifyCommitmentSum] that fill [posKeys] and [negKeys]. *)
Fixpoint parse_keys (v : list Commitment) : option (list pubkey) :=
  match v with
  | [] => Some []
  | c :: v' =>
    if negb (IsCanonicalCommitment c) then None
    else match ec_pubkey_parse c with
         | None => None
         | Some k => match parse_keys v' with None => None | Some ks => Some (k :: ks) end
         end
  end.

Definition VerifyCommitmentSum (vPositive vNegative : list Commitment) : bool :=
  if bool_decide (length vPositive = 0%nat) && bool_decide (length vNegative = 0%nat) then true
  else
    match parse_keys vPositive with
    | None => false
    | Some posKeys =>
      match parse_keys vNegative with
      | None => false
      | Some negKeys =>
        let allPtrs := posKeys ++ map ec_pubkey_negate negKeys in
        match allPtrs with
        | [] => true
        | _ => match ec_pubkey_combine allPtrs with None => true | Some _ => false end
        end
      end
    end.

(** ** Blinding factors

    [BlindSum]: the first positive factor is copied, the others are added; then
    the negated negative ones.  [None] is an early return of the null factor. *)
Definition blind_add_step (sum : option bytes) (b : bytes) : option bytes :=
  match sum with None => None | Some s => ec_seckey_tweak_add s b end.

Definition negate_step (positive_empty : bool) (r : option (bool * bytes)) (b : bytes) : option (bool * bytes) :=
  match r with
  | None => None
  | Some (first, sum) =>
    match ec_seckey_negate b with
    | None => None
    | Some negated =>
      if positive_empty && first then Some (false, negated)
      else match ec_seckey_tweak_add sum negated with None => None | Some s => Some (false, s) end
    end
  end.

Definition BlindSum (vPositive vNegative : list BlindingFactor) : BlindingFactor :=
  match vPositive, vNegative with
  | [], [] => null_blind
  | _, _ =>
    let sum := match vPositive with
               | [] => Some null_blind
               | p :: ps => fold_left blind_add_step ps (Some p)
               end in
    match sum with
    | None => null_blind
    | Some s =>
      let empty := match vPositive with [] => true | _ => false end in
      match fold_left (negate_step empty) vNegative (Some (true, s)) with
      | None => null_blind
      | Some (_, s') => s'
      end
    end
  end.

Definition CommitBlind (blind : BlindingFactor) : Commitment := Commit 0 blind.

Definition BlindAdd (a b : BlindingFactor) : BlindingFactor :=
  match ec_seckey_tweak_add a b with None => null_blind | Some sum => sum end.

(** The return value is not looked at; the library zeroes a key it rejects. *)
Definition BlindNegate (a : BlindingFactor) : BlindingFactor := default null_blind (ec_seckey_negate a).

(** [rand] lists the results of the successive calls of [RAND_bytes]. *)
Fixpoint generate_loop (attempts : nat) (rand : list (option bytes)) : BlindingFactor :=
  match attempts, rand with
  | S n, Some data :: rand' => if ec_seckey_verify data then data else generate_loop n rand'
  | S n, None :: rand' => generate_loop n rand'
  | _, _ => null_blind
  end.
Definition GenerateBlindingFactor (rand : list (option bytes)) : BlindingFactor := generate_loop 100 rand.

Definition SwitchCommit (nValue : Z) (blind : BlindingFactor) : Commitment := Commit nValue blind.

(** ** Schnorr signatures *)

Definition IsCanonicalCompressedPoint (p33 : bytes) : bool :=
  if forallb (fun b => b =? 0) p33 then false
  else
    match ec_pubkey_parse p33 with
    | None => false
    | Some pt => bool_decide (ec_pubkey_serialize pt = p33)
    end.

Definition Sign (secretKey : bytes) (message : uint256) : Signature :=
  match keypair_sign32 secretKey (uint256_bytes message) with
  | Some (Some sig64) => sig64
  | _ => null_signature
  end.

Definition SignExcess (excessBlind : BlindingFactor) (message : uint256) : Signature := Sign excessBlind message.

Definition AggregateSign (vKeys : list bytes) (message : uint256) : Signature :=
  match vKeys with
  | [] => null_signature
  | [k] => Sign k message
  | k :: ks =>
    match fold_left blind_add_step ks (Some k) with
    | None => null_signature
    | Some aggKey => Sign aggKey message
    end
  end.

Definition GetPublicKey (secretKey : bytes) : option bytes :=
  match ec_pubkey_create secretKey with None => None | Some p => Some (ec_pubkey_serialize p) end.

Definition GetExcessCommitment (excessBlind : BlindingFactor) : Commitment := CommitBlind excessBlind.

Definition Verify (pPubKey33 : bytes) (message : uint256) (sig : Signature) : bool :=
  if negb (IsCanonicalCompressedPoint pPubKey33) then false
  else
    match ec_pubkey_parse pPubKey33 with
    | None => false
    | Some pubkey =>
      match xonly_pubkey_from_pubkey pubkey with
      | None => false
      | Some xonly => schnorrsig_verify sig (uint256_bytes message) xonly
      end
    end.

Definition VerifyExcess (excess : Commitment) (message : uint256) (sig : Signature) : bool :=
  Verify excess message sig.

Fixpoint verify_all (keys : list bytes) (messages : list uint256) (sigs : list Signature) : bool :=
  match keys, messages, sigs with
  | k :: keys', m :: messages', s :: sigs' =>
    if negb (Verify k m s) then false else verify_all keys' messages' sigs'
  | _, _, _ => true
  end.
Definition BatchVerify (vPubKeys33 : list bytes) (vMessages : list uint256) (vSigs : list Signature) : bool :=
  if negb (len vPubKeys33 =? len vMessages) || negb (len vMessages =? len vSigs) then false
  else verify_all vPubKeys33 vMessages vSigs.

(** [CMWInput::VerifySignature] ([models/input.h]). *)
Definition VerifySignature `{Sha256} (i : CMWInput) (txHash : uint256) : bool :=
  let message := sha256_once (i_commitment i ++ uint256_bytes txHash) in
  match xonly_pubkey_parse (drop 1 (outputPubKey i)) with
  | None => false
  | Some xpub => schnorrsig_verify (i_signature i) (uint256_bytes message) xpub
  end.

End curve.

(** * Properties *)

Section laws.
Context `{Secp256k1} `{!SecpLaws}.

Lemma all_zero_repeat (l : bytes) : forallb (fun b => b =? 0) l = true <-> l = replicate (length l) 0.
Proof.
  induction l as [|b l IH]; [done|]. cbn. rewrite andb_true_iff, Z.eqb_eq, IH.
  split; [intros [-> E]; by f_equal|intros E; by injection E].
Qed.

Lemma serialize_canonical p : IsCanonicalCommitment (ec_pubkey_serialize p) = true.
Proof.
  unfold IsCanonicalCommitment. destruct (forallb _ _) eqn:E.
  - apply all_zero_repeat in E. rewrite serialize_length in E. by apply serialize_nonzero in E.
  - rewrite parse_serialize. by apply bool_decide_eq_true.
Qed.

Lemma canonical_point_same p33 : IsCanonicalCompressedPoint p33 = IsCanonicalCommitment p33.
Proof. done. Qed.

Lemma null_not_canonical : IsCanonicalCommitment null_commitment = false.
Proof. done. Qed.

(** A blinding factor of zero is not a valid key: the commitment is null. *)
Lemma Commit_null_blind nValue : Commit nValue null_blind = null_commitment.
Proof.
  unfold Commit. change null_blind with (replicate 32 0). by rewrite zero_key_invalid.
Qed.

Lemma parse_keys_length v ks : parse_keys v = Some ks -> length ks = length v.
Proof.
  revert ks. induction v as [|c v IH]; intros ks; cbn; [by intros [= <-]|].
  destruct (negb _); [done|]. destruct (ec_pubkey_parse c); [|done]. destruct (parse_keys v); [|done].
  intros [= <-]. cbn. by rewrite (IH l).
Qed.

Lemma parse_keys_null v : null_commitment ∈ v -> parse_keys v = None.
Proof.
  induction v as [|c v IH]; intros Hin; [set_solver|]. cbn. apply elem_of_cons in Hin as [<-|Hin].
  - by rewrite null_not_canonical.
  - destruct (negb _); [done|]. destruct (ec_pubkey_parse c); [|done]. by rewrite IH.
Qed.

Lemma VerifyCommitmentSum_spec `{!SecpGroup} vPositive vNegative :
  VerifyCommitmentSum vPositive vNegative = true <->
  exists pos neg, parse_keys vPositive = Some pos /\ parse_keys vNegative = Some neg /\
    point_sum (map point_of pos) = point_sum (map point_of neg).
Proof.
  unfold VerifyCommitmentSum. destruct (bool_decide _ && bool_decide _) eqn:Eempty.
  - bool_prop. destruct vPositive, vNegative; try done. split; [|done]. intros _. by exists [], [].
  - destruct (parse_keys vPositive) as [pos|] eqn:Ep; [|split; [done|by intros (? & ? & ? & _)]].
    destruct (parse_keys vNegative) as [neg|] eqn:En; [|split; [done|by intros (? & ? & ? & ? & _)]].
    cbv zeta. assert (pos ++ map ec_pubkey_negate neg <> []) as Hne.
    { apply parse_keys_length in Ep, En. intros E. apply app_eq_nil in E as [-> E].
      destruct neg; [|done]. destruct vPositive, vNegative; done. }
    assert (point_sum (map point_of (pos ++ map ec_pubkey_negate neg)) =
      point_add (point_sum (map point_of pos)) (point_neg (point_sum (map point_of neg)))) as Es.
    { rewrite map_app, point_sum_app, <-point_sum_neg. f_equal. rewrite !map_map. f_equal. apply map_ext.
      intros p. apply point_of_negate. }
    pose proof (combine_infinity _ Hne) as Hc. fold (point_sum (map point_of (pos ++ map ec_pubkey_negate neg))) in Hc.
    rewrite Es, point_sub_zero in Hc.
    destruct (pos ++ map ec_pubkey_negate neg) as [|k ks] eqn:E; [done|].
    destruct (ec_pubkey_combine (k :: ks)).
    + split; [done|]. intros (? & ? & [= <-] & [= <-] & Heq). by apply Hc in Heq.
    + split; [|done]. intros _. exists pos, neg. split; [done|]. split; [done|]. by apply Hc.
Qed.

(** The sum check accepts exactly the lists of canonical commitments whose
    points have equal sums on both sides. *)
Theorem verify_commitment_sum_balances `{!SecpGroup} vPositive vNegative :
  VerifyCommitmentSum vPositive vNegative = true <->
  exists pos neg, parse_keys vPositive = Some pos /\ parse_keys vNegative = Some neg /\
    point_sum (map point_of pos) = point_sum (map point_of neg).
Proof. apply VerifyCommitmentSum_spec. Qed.

(** A commitment that is not null is a canonical encoding of a point that is
    the sum of the blinding point and, for a positive value, of the value times
    the second generator. *)
Theorem commit_opens `{!SecpGroup} nValue blind c :
  Commit nValue blind = c -> c <> null_commitment ->
  exists p rG, IsCanonicalCommitment c = true /\ ec_pubkey_parse c = Some p /\
    ec_pubkey_create blind = Some rG /\
    (point_of p = point_of rG \/
     exists H vH, ec_pubkey_parse GENERATOR_H = Some H /\ ec_pubkey_tweak_mul H (value_scalar nValue) = Some vH /\
       point_of p = point_add (point_of rG) (point_of vH)).
Proof.
  intros <- Hn. unfold Commit in *. destruct (ec_pubkey_create blind) as [rG|]; [|done].
  destruct (ec_pubkey_parse GENERATOR_H) as [G|]; [|done]. cbv zeta in *.
  destruct (forallb _ _).
  - exists rG, rG. rewrite serialize_canonical, parse_serialize. auto.
  - destruct (ec_pubkey_tweak_mul _ _) as [vH|] eqn:Et; [|done].
    destruct (ec_pubkey_combine _) as [p|] eqn:Ec; [|done].
    exists p, rG. rewrite serialize_canonical, parse_serialize. repeat split; auto. right.
    exists G, vH. repeat split; auto. rewrite (point_of_combine _ _ Ec). cbn.
    by rewrite (point_add_comm (point_of vH)), point_add_zero.
Qed.

(** What a kernel's owner signs with the excess blinding factor verifies
    against the commitment to it. *)
Theorem sign_excess_verifies `{!SchnorrLaws} blind message p :
  length blind = 32%nat -> bytes_ok blind ->
  is_Some (ec_pubkey_parse GENERATOR_H) ->
  ec_pubkey_create blind = Some p -> is_Some (xonly_pubkey_from_pubkey p) ->
  SignExcess blind message <> null_signature ->
  VerifyExcess (GetExcessCommitment blind) message (SignExcess blind message) = true.
Proof.
  intros Hl Hk [G HG] Hp [x Hx] Hs. unfold GetExcessCommitment, CommitBlind, Commit. rewrite Hp, HG.
  change (forallb (fun b => b =? 0) (value_scalar 0)) with true. cbv zeta.
  unfold VerifyExcess, Verify. rewrite canonical_point_same, serialize_canonical, parse_serialize, Hx. cbn [negb].
  unfold SignExcess, Sign in *. destruct (keypair_sign32 _ _) as [[s|]|] eqn:E; [|done..].
  by apply (sign_verify blind (uint256_bytes message) s p x).
Qed.

(** A generated blinding factor is a valid key, or null when a hundred draws
    in a row gave none. *)
Theorem generated_blind_valid rand :
  ec_seckey_verify (GenerateBlindingFactor rand) = true \/ GenerateBlindingFactor rand = null_blind.
Proof.
  unfold GenerateBlindingFactor. generalize 100%nat as n. intros n. revert rand.
  induction n as [|n IH]; intros [|[d|] rand]; cbn; auto.
  destruct (ec_seckey_verify d) eqn:E; auto.
Qed.
End laws.

(** ** Witnesses, on the concrete curve interface *)

Section witnesses.
#[local] Existing Instance log_secp.
#[local] Existing Instance log_laws.
#[local] Existing Instance log_group.
#[local] Existing Instance log_schnorr.

Definition key (n : Z) : bytes := be_bytes32 n.

Lemma commit_opens_witness :
  exists p rG, ec_pubkey_parse (Commit 5 (key 7)) = Some p /\ ec_pubkey_create (key 7) = Some rG.
Proof.
  destruct (commit_opens 5 (key 7) (Commit 5 (key 7)) eq_refl) as (p & rG & _ & H1 & H2 & _).
  - vm_compute. discriminate.
  - exists p, rG. split; [exact H1|exact H2].
Defined.

Lemma sign_excess_verifies_witness :
  VerifyExcess (GetExcessCommitment (key 7)) 99 (SignExcess (key 7) 99) = true.
Proof.
  assert (is_Some (ec_pubkey_create (key 7))) as [p Hp] by (apply create_valid; vm_compute; reflexivity).
  apply (sign_excess_verifies (key 7) 99 p).
  - reflexivity.
  - apply (bool_decide_unpack _). vm_compute. exact I.
  - apply (log_parse_some (drop 1 GENERATOR_H)); [reflexivity|vm_compute; reflexivity].
  - exact Hp.
  - eexists. reflexivity.
  - vm_compute. discriminate.
Defined.

(** 7 + 9 = 16 as commitments to zero. *)
Lemma verify_commitment_sum_balances_witness :
  exists pos neg, parse_keys [CommitBlind (key 7); CommitBlind (key 9)] = Some pos /\
    parse_keys [CommitBlind (key 16)] = Some neg /\
    point_sum (map point_of pos) = point_sum (map point_of neg).
Proof.
  destruct (verify_commitment_sum_balances [CommitBlind (key 7); CommitBlind (key 9)] [CommitBlind (key 16)]) as [Hx _].
  apply Hx. vm_cast_no_check (eq_refl true).
Defined.

End witnesses.

End MwCrypto.
