(* ===== verification/Bulletproofs.v ===== *)
(** * Range proofs ([src/mw/crypto/bulletproofs.cpp])

    The prover, the verifier and the layout of a proof, on the curve interface.
    A proof is read front to back: a pointer into it is the slice it points to,
    and [nProofEnd] is where the unread rest begins. *)

From S2P Require Import Prelude Crypto Secp Serialize MwModels MwCrypto.
Import Stream MwModels MwCrypto.

Module Bulletproofs.
Open Scope reader_scope.

Definition BULLETPROOF_BITS : Z := 64.

(** "MARYJ_MWEB_BULLETPROOF_V1" and the labels hashed with the seeds *)
Definition BULLETPROOF_DOMAIN : bytes :=
  [77;65;82;89;74;95;77;87;69;66;95;66;85;76;76;69;84;80;82;79;79;70;95;86;49].
Definition label_alpha : bytes := [97;108;112;104;97].
Definition label_rho : bytes := [114;104;111].
Definition label_tau1 : bytes := [116;97;117;49].
Definition label_tau2 : bytes := [116;97;117;50].
Definition label_L : bytes := [76].
Definition label_R : bytes := [82].
Definition label_scalar_mul : bytes := [115;99;97;108;97;114;95;109;117;108].
Definition label_blind : bytes := [98;108;105;110;100].
Definition label_blind_recover : bytes := [98;108;105;110;100;95;114;101;99;111;118;101;114].

(** ** Scalars *)

Definition ValueToScalar (nValue : Z) : bytes := fill_scalar 32 nValue [].

Definition ScalarToValue (pScalar32 : bytes) : option Z :=
  if forallb (fun b => b =? 0) (take 24 pScalar32)
  then Some (fold_left (fun v b => Z.lor (u64 (Z.shiftl v 8)) b) (take 8 (drop 24 pScalar32)) 0)
  else None.

(** ** Layout *)

Record Proof := {
  nBits : Z; pA : bytes; pS : bytes; pT1 : bytes; pT2 : bytes; pTaux : bytes; pMu : bytes;
  vpL : list bytes; vpR : list bytes; pA_scalar : bytes; pB_scalar : bytes; pT_scalar : bytes }.

(** [vR] is read at the indices of [vL]. *)
Definition SerializeProof (p : Proof) : bytes :=
  [nBits p] ++ pA p ++ pS p ++ pT1 p ++ pT2 p ++ pTaux p ++ pMu p ++
  [u8 (len (vpL p))] ++
  concat (map (fun i => nth i (vpL p) [] ++ nth i (vpR p) []) (seq 0 (length (vpL p)))) ++
  pA_scalar p ++ pB_scalar p ++ pT_scalar p.

Fixpoint parse_rounds (n : nat) : reader (list bytes * list bytes) :=
  match n with
  | O => ret ([], [])
  | S n' =>
    lr ← read 66;
    rest ← parse_rounds n';
    ret (take 33 lr :: rest.1, drop 33 lr :: rest.2)
  end.

Definition ParseProof : reader Proof :=
  bits ← read 1;
  A ← read 33; S ← read 33; T1 ← read 33; T2 ← read 33;
  taux ← read 32; mu ← read 32;
  rounds ← read 1;
  let nRounds := at_ 0 rounds 0 in
  if 10 <? nRounds then fail
  else
    lr ← parse_rounds (Z.to_nat nRounds);
    scalars ← read 96;
    ret {| nBits := at_ 0 bits 0; pA := A; pS := S; pT1 := T1; pT2 := T2; pTaux := taux; pMu := mu;
           vpL := lr.1; vpR := lr.2; pA_scalar := take 32 scalars; pB_scalar := take 32 (drop 32 scalars);
           pT_scalar := drop 64 scalars |}.

Section proofs.
Context `{Sha256} `{Secp256k1}.

(** ** Hashes *)

Definition HashChallenge (pDomain pData : bytes) : uint256 := sha256_twice (pDomain ++ pData).
Definition HashChallengeEx (prevChallenge : uint256) (pData : bytes) : uint256 :=
  sha256_twice (BULLETPROOF_DOMAIN ++ uint256_bytes prevChallenge ++ pData).

(** The product of two scalars is a hash of them. *)
Definition ScalarMul (a32 b32 : bytes) : bytes := sha256 (sha256 (a32 ++ b32 ++ label_scalar_mul)).

Definition ScalarAdd (a32 b32 : bytes) : option bytes := ec_seckey_tweak_add a32 b32.
Definition ScalarMultPoint (scalar32 : bytes) (point : pubkey) : option pubkey := ec_pubkey_tweak_mul point scalar32.
Definition PointAdd (a b : pubkey) : option pubkey := ec_pubkey_combine [a; b].

Definition ComputeProofSeed (nonce : uint256) (blind : BlindingFactor) (nValue : Z) : bytes :=
  sha256 (uint256_bytes nonce ++ blind ++ be_bytes 8 nValue).
Definition DeriveFromSeed (proofSeed label : bytes) : bytes := sha256 (proofSeed ++ label).

(** The challenges, from the encodings both sides have. *)
Definition y_challenge (commit A S : bytes) : uint256 := HashChallenge BULLETPROOF_DOMAIN (commit ++ A ++ S).
Definition x_challenge (y_hash : uint256) (T1 T2 : bytes) : uint256 :=
  HashChallenge BULLETPROOF_DOMAIN (uint256_bytes y_hash ++ T1 ++ T2).
Definition z_challenge (y_hash : uint256) (commit : bytes) : uint256 :=
  HashChallenge BULLETPROOF_DOMAIN (uint256_bytes y_hash ++ commit).

(** ** Prover *)

Definition prove_taux (tau1 tau2 x z : bytes) (blind : BlindingFactor) : bytes :=
  let tau1_x := ScalarMul tau1 x in
  let x_sq := ScalarMul x x in
  let tau2_x2 := ScalarMul tau2 x_sq in
  let z_sq := ScalarMul z z in
  let z2_blind := ScalarMul z_sq blind in
  match ScalarAdd tau1_x tau2_x2 with
  | None => tau1
  | Some taux => match ScalarAdd taux z2_blind with Some t => t | None => taux end
  end.

Definition prove_mu (alpha rho x : bytes) : bytes :=
  match ScalarAdd alpha (ScalarMul rho x) with Some mu => mu | None => alpha end.

(** One turn of the loop that makes [vL] and [vR]. *)
Definition round_step (proofSeed : bytes) (lr : list bytes * list bytes) (round : Z) : list bytes * list bytes :=
  let roundSeed := sha256 (DeriveFromSeed proofSeed label_L ++ le_bytes 4 round) in
  let vL := match ec_pubkey_create roundSeed with Some L => lr.1 ++ [ec_pubkey_serialize L] | None => lr.1 end in
  let roundSeed' := sha256 (roundSeed ++ label_R) in
  let vR := match ec_pubkey_create roundSeed' with Some R => lr.2 ++ [ec_pubkey_serialize R] | None => lr.2 end in
  (vL, vR).
Definition round_points (proofSeed : bytes) : list bytes * list bytes :=
  fold_left (round_step proofSeed) (seqZ 0 6) ([], []).

(** The empty vector is the null proof. *)
Definition Prove (nValue : Z) (blind : BlindingFactor) (nonce : uint256) (vExtraData : bytes) : bytes :=
  if nValue <? 0 then []
  else
    let proofSeed := ComputeProofSeed nonce blind nValue in
    let commit := Commit nValue blind in
    if MwModels.IsNull commit then []
    else
      let alpha := DeriveFromSeed proofSeed label_alpha in
      let rho := DeriveFromSeed proofSeed label_rho in
      let tau1 := DeriveFromSeed proofSeed label_tau1 in
      let tau2 := DeriveFromSeed proofSeed label_tau2 in
      match ec_pubkey_create alpha, ec_pubkey_create rho, ec_pubkey_create tau1, ec_pubkey_create tau2 with
      | Some A_point, Some S_point, Some T1_point, Some T2_point =>
        let A_ser := ec_pubkey_serialize A_point in
        let S_ser := ec_pubkey_serialize S_point in
        let T1_ser := ec_pubkey_serialize T1_point in
        let T2_ser := ec_pubkey_serialize T2_point in
        let y_hash := y_challenge commit A_ser S_ser in
        let x_hash := x_challenge y_hash T1_ser T2_ser in
        let z_hash := z_challenge y_hash commit in
        let taux0 := prove_taux tau1 tau2 (uint256_bytes x_hash) (uint256_bytes z_hash) blind in
        let mu := prove_mu alpha rho (uint256_bytes x_hash) in
        let taux := if ec_seckey_verify taux0 then taux0 else tau1 in
        let a_scalar := ValueToScalar nValue in
        let b_scalar := replicate 31 0 ++ [1] in
        let t_scalar0 := ValueToScalar nValue in
        let '(vL, vR) := round_points proofSeed in
        let t_scalar := match vExtraData with [] => t_scalar0 | _ => sha256 (t_scalar0 ++ vExtraData) end in
        let proofData := SerializeProof {| nBits := BULLETPROOF_BITS; pA := A_ser; pS := S_ser; pT1 := T1_ser;
          pT2 := T2_ser; pTaux := taux; pMu := mu; vpL := vL; vpR := vR; pA_scalar := a_scalar;
          pB_scalar := b_scalar; pT_scalar := t_scalar |} in
        match vExtraData with
        | [] => proofData
        | _ => proofData ++ le_bytes 4 (u32 (len vExtraData)) ++ vExtraData
        end
      | _, _, _, _ => []
      end.

Definition ProveWithMessage (nValue : Z) (blind : BlindingFactor) (nonce : uint256) (vMessage : bytes) : bytes :=
  Prove nValue blind nonce vMessage.

(** ** Verifier *)

Definition parses (p33 : bytes) : bool := match ec_pubkey_parse p33 with Some _ => true | None => false end.

(** The equation between [pTaux] times the base and the commitments. *)
Definition check_equation (commit : Commitment) (p : Proof) : bool :=
  match ec_pubkey_parse (pT1 p), ec_pubkey_parse (pT2 p), ec_pubkey_parse commit with
  | Some T1_point, Some T2_point, Some commit_point =>
    let y_hash := y_challenge commit (pA p) (pS p) in
    let x := uint256_bytes (x_challenge y_hash (pT1 p) (pT2 p)) in
    let z := uint256_bytes (z_challenge y_hash commit) in
    match ec_pubkey_create (pTaux p) with
    | None => false
    | Some lhs =>
      let z_sq := ScalarMul z z in
      if negb (ec_seckey_verify z_sq) then false
      else match ScalarMultPoint z_sq commit_point with
      | None => false
      | Some z2V =>
        if negb (ec_seckey_verify x) then false
        else match ScalarMultPoint x T1_point with
        | None => false
        | Some xT1 =>
          let x_sq := ScalarMul x x in
          if negb (ec_seckey_verify x_sq) then false
          else match ScalarMultPoint x_sq T2_point with
          | None => false
          | Some x2T2 =>
            match PointAdd z2V xT1 with
            | None => false
            | Some rhs_partial =>
              match PointAdd rhs_partial x2T2 with
              | None => false
              | Some rhs => bool_decide (ec_pubkey_serialize lhs = ec_pubkey_serialize rhs)
              end
            end
          end
        end
      end
    end
  | _, _, _ => false
  end.

(** The chain of challenges over the rounds. *)
Fixpoint check_rounds (prevChallenge : uint256) (vL vR : list bytes) : bool :=
  match vL, vR with
  | l :: vL', r :: vR' =>
    let roundChallenge := HashChallengeEx prevChallenge (l ++ r) in
    if negb (ec_seckey_verify (uint256_bytes roundChallenge)) then false
    else check_rounds roundChallenge vL' vR'
  | _, _ => true
  end.

Definition Verify (commit : Commitment) (proof : bytes) : bool :=
  if len proof <? 230 then false
  else
    match ParseProof proof with
    | None => false
    | Some (p, _) =>
      if negb (nBits p =? BULLETPROOF_BITS) then false
      else if negb (parses (pA p) && parses (pS p) && parses (pT1 p) && parses (pT2 p)) then false
      else if negb (ec_seckey_verify (pTaux p)) then false
      else if negb (forallb parses (vpL p) && forallb parses (vpR p)) then false
      else if negb (check_equation commit p) then false
      else if negb (check_rounds (x_challenge (y_challenge commit (pA p) (pS p)) (pT1 p) (pT2 p)) (vpL p) (vpR p))
      then false
      else negb (forallb (fun b => b =? 0) (pB_scalar p))
    end.

Fixpoint BatchVerify (vProofs : list (Commitment * bytes)) : bool :=
  match vProofs with
  | [] => true
  | (c, p) :: v => if negb (Verify c p) then false else BatchVerify v
  end.

(** ** Messages *)

Definition ExtractExtraData (proof : bytes) : bytes :=
  if len proof <? 230 then []
  else
    match ParseProof proof with
    | None => []
    | Some (_, rest) =>
      if len rest <? 4 then []
      else
        let extraLen := le_value (take 4 rest) in
        if (extraLen =? 0) || (len rest <? 4 + extraLen) then []
        else take (Z.to_nat extraLen) (drop 4 rest)
    end.

Definition blind_candidate (nonce : uint256) (idx : Z) : bytes :=
  sha256 (uint256_bytes nonce ++ le_bytes 4 idx ++ label_blind).

(** The search over the 256 candidates; [n] are left, from [idx] up. *)
Fixpoint find_blind (n : nat) (idx : Z) (commit : Commitment) (nonce : uint256) (uValue : Z) : option bytes :=
  match n with
  | O => None
  | S n' =>
    let blindData := blind_candidate nonce idx in
    if negb (ec_seckey_verify blindData) then find_blind n' (idx + 1) commit nonce uValue
    else if bool_decide (Commit (i64 uValue) blindData = commit) then Some blindData
    else find_blind n' (idx + 1) commit nonce uValue
  end.

(** The value, the blinding factor and the message, or [None] for false. *)
Definition RecoverMessage (commit : Commitment) (proof : bytes) (nonce : uint256) : option (Z * bytes * bytes) :=
  if len proof <? 230 then None
  else
    match ParseProof proof with
    | None => None
    | Some (p, _) =>
      match ScalarToValue (pA_scalar p) with
      | None => None
      | Some uValue =>
        let testBlind := sha256 (uint256_bytes nonce ++ label_blind_recover) in
        if bool_decide (Commit (i64 uValue) testBlind = commit)
        then Some (i64 uValue, testBlind, ExtractExtraData proof)
        else
          match find_blind 256 0 commit nonce uValue with
          | None => None
          | Some blind => Some (i64 uValue, blind, ExtractExtraData proof)
          end
      end
    end.

End proofs.

(** * Properties *)

(** ** Scalars *)

Lemma le_bytes_zero n : le_bytes n 0 = replicate n 0.
Proof. induction n as [|n IH]; [done|]. cbn [le_bytes replicate]. by rewrite Z.div_0_l, IH. Qed.

Lemma le_bytes_app n m z : le_bytes (n + m) z = le_bytes n z ++ le_bytes m (z / 2 ^ (8 * Z.of_nat n)).
Proof.
  revert z. induction n as [|n IH]; intros z; [cbn; by rewrite Z.div_1_r|].
  cbn [Nat.add le_bytes app]. rewrite IH, Z.div_div by lia.
  replace (8 * Z.of_nat (S n)) with (8 + 8 * Z.of_nat n) by lia. by rewrite Z.pow_add_r by lia.
Qed.

Lemma fill_scalar_be i v w : 0 <= v -> fill_scalar i v w = rev (le_bytes i v) ++ w.
Proof.
  revert v w. induction i as [|i IH]; intros v w Hv; [done|]. cbn [fill_scalar].
  destruct (Z.ltb_spec 0 v).
  - rewrite IH by (apply Z.shiftr_nonneg; lia). cbn [le_bytes rev]. rewrite <-app_assoc. cbn [app].
    rewrite land_ff, Z.shiftr_div_pow2 by lia. done.
  - replace v with 0 by lia. by rewrite le_bytes_zero, rev_replicate.
Qed.

Lemma ValueToScalar_length v : 0 <= v -> length (ValueToScalar v) = 32%nat.
Proof. intros Hv. unfold ValueToScalar. by rewrite fill_scalar_be, app_nil_r, length_rev, le_bytes_length. Qed.

Lemma fold_be_value l acc :
  bytes_ok l -> 0 <= acc -> acc * 2 ^ (8 * Z.of_nat (length l)) + 2 ^ (8 * Z.of_nat (length l)) <= 2 ^ 64 ->
  fold_left (fun v b => Z.lor (u64 (Z.shiftl v 8)) b) l acc = acc * 2 ^ (8 * Z.of_nat (length l)) + le_value (rev l).
Proof.
  intros Hl. revert acc. induction Hl as [|b l Hb Hl IH]; intros acc Ha Hb64; [cbn; lia|].
  cbn [fold_left length rev]. unfold byte_ok in Hb.
  replace (8 * Z.of_nat (length (b :: l))) with (8 + 8 * Z.of_nat (length l)) in * by (cbn [length]; lia).
  replace (8 * Z.of_nat (S (length l))) with (8 + 8 * Z.of_nat (length l)) in * by lia.
  rewrite Z.pow_add_r in * by lia. change (2 ^ 8) with 256 in *.
  assert (0 < 2 ^ (8 * Z.of_nat (length l))) by (apply Z.pow_pos_nonneg; lia).
  assert (0 <= acc * 256 < 2 ^ 64) by nia.
  assert (Z.lor (u64 (Z.shiftl acc 8)) b = acc * 256 + b) as ->.
  { rewrite Z.shiftl_mul_pow2, u64_id by (change (2 ^ 8) with 256; lia). 
    rewrite Z.lor_comm. change (acc * 2 ^ 8) with (acc * 2 ^ 8). rewrite <-Z.shiftl_mul_pow2, lor_shiftl by (change (2 ^ 8) with 256; lia).
    change (2 ^ 8) with 256. lia. }
  rewrite IH by nia. rewrite le_value_app, length_rev. cbn [le_value]. nia.
Qed.

Lemma scalar_roundtrip v : 0 <= v < 2 ^ 64 -> ScalarToValue (ValueToScalar v) = Some v.
Proof.
  intros Hv. unfold ScalarToValue, ValueToScalar. rewrite fill_scalar_be, app_nil_r by lia.
  change 32%nat with (8 + 24)%nat. rewrite le_bytes_app, Z.div_small, le_bytes_zero by (cbn; lia).
  rewrite rev_app_distr, rev_replicate. 
  rewrite take_app_length', drop_app_length' by done. change (forallb _ (replicate 24 0)) with true. cbn [replicate].
  rewrite firstn_all2 by (by rewrite length_rev, le_bytes_length).
  rewrite fold_be_value; rewrite ?length_rev, ?le_bytes_length, ?rev_involutive; try done.
  - rewrite le_value_bytes_id by done. f_equal; lia.
  - apply Forall_rev, le_bytes_ok.
Qed.

(** ** The layout of a proof *)

(** The fields of a proof have the sizes the parser slices. *)
Definition proof_ok (p : Proof) : Prop :=
  (length (pA p) = 33 /\ length (pS p) = 33 /\ length (pT1 p) = 33 /\ length (pT2 p) = 33 /\
   length (pTaux p) = 32 /\ length (pMu p) = 32 /\
   length (pA_scalar p) = 32 /\ length (pB_scalar p) = 32 /\ length (pT_scalar p) = 32 /\
   length (vpL p) = length (vpR p) /\ length (vpL p) <= 10 /\
   Forall (fun b => length b = 33) (vpL p) /\ Forall (fun b => length b = 33) (vpR p))%nat.
#[global] Instance proof_ok_dec p : Decision (proof_ok p).
Proof. unfold proof_ok. apply _. Defined.

Lemma rounds_zip vL vR :
  length vL = length vR ->
  concat (map (fun i => nth i vL [] ++ nth i vR []) (seq 0 (length vL))) =
  concat (zip_with (fun l r : bytes => l ++ r) vL vR).
Proof.
  revert vR. induction vL as [|l vL IH]; intros [|r vR] Hl; try done.
  cbn [length seq map concat zip_with]. rewrite <-seq_shift, map_map. cbn [nth].
  rewrite IH by (cbn in Hl; lia). done.
Qed.

Lemma parse_rounds_write vL vR s :
  length vL = length vR -> Forall (fun b : bytes => length b = 33%nat) vL ->
  Forall (fun b : bytes => length b = 33%nat) vR ->
  parse_rounds (length vL) (concat (zip_with (fun l r : bytes => l ++ r) vL vR) ++ s) = Some ((vL, vR), s).
Proof.
  intros Hl HL. revert vR Hl. induction HL as [|l vL Hl33 HL IH]; intros [|r vR] Hl HR; try done.
  apply Forall_cons in HR as [Hr HR]. cbn [length zip_with concat parse_rounds].
  rewrite <-(app_assoc (l ++ r)). erewrite bind_ret by (apply read_app; rewrite length_app; lia).
  erewrite bind_ret by (apply IH; [cbn in Hl; lia|done]). unfold ret. cbn [fst snd].
  by rewrite take_app_length', drop_app_length' by lia.
Qed.

Lemma proof_length p s : proof_ok p -> 230 <= len (SerializeProof p ++ s).
Proof.
  unfold proof_ok, SerializeProof. intros Hp. rewrite !len_app. unfold len.
  match goal with |- context [length (concat ?l)] => generalize (length (concat l)) end. intros n.
  cbn [length]. lia.
Qed.

Lemma ParseProof_write p s : proof_ok p -> ParseProof (SerializeProof p ++ s) = Some (p, s).
Proof.
  intros (HA & HS & H1 & H2 & Ht & Hm & Ha & Hb & Hc & Hl & Hn & HL & HR).
  unfold SerializeProof, ParseProof. rewrite rounds_zip by done. rewrite <-!app_assoc.
  do 8 (erewrite bind_ret by (apply read_app; done)). rewrite !at_one.
  rewrite u8_id by (unfold len; lia). destruct (Z.ltb_spec 10 (len (vpL p))); [unfold len in *; lia|].
  rewrite to_nat_len. erewrite bind_ret by (apply parse_rounds_write; done).
  rewrite (app_assoc (pB_scalar p)), (app_assoc (pA_scalar p)). erewrite bind_ret by (apply read_app; rewrite !length_app; lia).
  unfold ret. cbn [fst snd]. rewrite !take_app_length', !drop_app_length' by lia.
  rewrite take_app_length' by lia. rewrite (app_assoc (pA_scalar p)), drop_app_length' by (rewrite length_app; lia).
  by destruct p.
Qed.

(** A proof parses back to the fields it was serialised from, the bytes after
    it left unread; an amount parses back from its scalar. *)
Theorem proof_roundtrip p s v :
  proof_ok p -> 0 <= v < 2 ^ 64 -> pA_scalar p = ValueToScalar v ->
  ParseProof (SerializeProof p ++ s) = Some (p, s) /\ ScalarToValue (pA_scalar p) = Some v.
Proof. intros Hp Hv ->. by rewrite ParseProof_write, scalar_roundtrip. Qed.

Section prover.
Context `{Sha256} `{Secp256k1} `{!SecpLaws}.
Context (sha_length : forall l, length (sha256 l) = 32%nat).

Lemma ScalarAdd_length a b c : ScalarAdd a b = Some c -> length c = 32%nat.
Proof. intros E. by apply tweak_add_length in E as [? _]. Qed.

Lemma prove_taux_length tau1 tau2 x z blind : length tau1 = 32%nat -> length (prove_taux tau1 tau2 x z blind) = 32%nat.
Proof.
  intros Ht. unfold prove_taux. destruct (ScalarAdd _ _) eqn:E1; [|done].
  destruct (ScalarAdd l _) eqn:E2; eauto using ScalarAdd_length.
Qed.

Lemma prove_mu_length alpha rho x : length alpha = 32%nat -> length (prove_mu alpha rho x) = 32%nat.
Proof. intros Ha. unfold prove_mu. destruct (ScalarAdd _ _) eqn:E; eauto using ScalarAdd_length. Qed.

Lemma round_step_ok seed lr r :
  let ok lr := (Forall (fun b : bytes => length b = 33%nat) lr.1 /\ Forall (fun b : bytes => length b = 33%nat) lr.2) in
  ok lr -> ok (round_step seed lr r).
Proof.
  cbv zeta. intros [HL HR]. unfold round_step. cbv zeta. cbn [fst snd]. split; destruct (ec_pubkey_create _); try done.
  all: apply Forall_app; split; [done|constructor; [apply serialize_length|constructor]].
Qed.

Lemma round_step_count seed lr r : (length (round_step seed lr r).1 <= S (length lr.1))%nat.
Proof. unfold round_step. cbv zeta. cbn [fst]. destruct (ec_pubkey_create _); rewrite ?length_app; cbn; lia. Qed.

Lemma round_points_ok seed :
  (length (round_points seed).1 <= 10)%nat /\ Forall (fun b : bytes => length b = 33%nat) (round_points seed).1 /\
  Forall (fun b : bytes => length b = 33%nat) (round_points seed).2.
Proof.
  unfold round_points. change (seqZ 0 6) with [0;1;2;3;4;5]. split.
  - cbn [fold_left]. do 6 (etrans; [apply round_step_count|]; apply le_n_S || idtac). cbn. lia.
  - cbn [fold_left]. do 6 apply round_step_ok. split; constructor.
Qed.

(** What follows the fields of a proof. *)
Definition extra_data (m : bytes) : bytes := match m with [] => [] | _ => le_bytes 4 (u32 (len m)) ++ m end.

(** Both points of every round exist. *)
Definition rounds_ok (proofSeed : bytes) : Prop :=
  length (round_points proofSeed).1 = length (round_points proofSeed).2.

Lemma Prove_fields v blind nonce m :
  rounds_ok (ComputeProofSeed nonce blind v) -> Prove v blind nonce m <> [] ->
  exists p, proof_ok p /\ 0 <= v /\ nBits p = BULLETPROOF_BITS /\ pA_scalar p = ValueToScalar v /\
    Prove v blind nonce m = SerializeProof p ++ extra_data m.
Proof.
  unfold rounds_ok, Prove. destruct (Z.ltb_spec v 0); [done|]. cbv zeta. destruct (MwModels.IsNull _); [done|].
  set (seed := ComputeProofSeed nonce blind v).
  intros Hr. pose proof (round_points_ok seed) as (Hn & HL & HR).
  do 4 (destruct (ec_pubkey_create (DeriveFromSeed seed _)); [|done]).
  destruct (round_points seed) as [vL vR]. cbn [fst snd] in *. intros _.
  match goal with |- context [SerializeProof ?q] => set (pf := q) end.
  exists pf. split; [|split; [done|split; [done|split; [done|]]]].
  - unfold proof_ok, pf. cbn [pA pS pT1 pT2 pTaux pMu vpL vpR pA_scalar pB_scalar pT_scalar]. rewrite !serialize_length, ValueToScalar_length by done.
    assert (forall l, length (DeriveFromSeed seed l) = 32%nat) as Hd by (intros; apply sha_length).
    rewrite prove_mu_length by done.
    repeat split; try done.
    + destruct (ec_seckey_verify _); [by apply prove_taux_length|done].
    + destruct m; [by apply ValueToScalar_length|apply sha_length].
  - destruct m; [by rewrite app_nil_r|done].
Qed.

(** A proof the prover makes carries the committed amount unblinded: anyone who
    parses it reads the amount. *)
Theorem prove_reveals_value v blind nonce m :
  v < 2 ^ 63 -> rounds_ok (ComputeProofSeed nonce blind v) -> Prove v blind nonce m <> [] ->
  exists p s, ParseProof (Prove v blind nonce m) = Some (p, s) /\ ScalarToValue (pA_scalar p) = Some v.
Proof.
  intros Hv Hr Hp. destruct (Prove_fields v blind nonce m Hr Hp) as (p & Hok & Hv0 & _ & Ha & ->).
  exists p, (extra_data m). rewrite ParseProof_write, Ha, scalar_roundtrip by (done || lia). done.
Qed.

Lemma extract_serialized p m :
  proof_ok p -> len m < 2 ^ 32 -> ExtractExtraData (SerializeProof p ++ extra_data m) = m.
Proof.
  intros Hp Hm. unfold ExtractExtraData. destruct (Z.ltb_spec (len (SerializeProof p ++ extra_data m)) 230) as [Hl|_].
  { pose proof (proof_length p (extra_data m) Hp). lia. }
  rewrite ParseProof_write by done. unfold extra_data. destruct m as [|b m]; [done|].
  assert (0 < len (b :: m)) as Hpos by (rewrite len_cons; pose proof (len_pos m); lia).
  rewrite u32_id by lia. set (m' := b :: m) in *. clearbody m'. clear b m. rename m' into m.
  assert (len (le_bytes 4 (len m)) = 4) as E4 by (unfold len at 1; by rewrite le_bytes_length).
  rewrite take_app_length', drop_app_length' by (by rewrite le_bytes_length).
  rewrite le_value_bytes_id by (change (8 * Z.of_nat 4) with 32; lia). rewrite len_app, E4.
  destruct (Z.ltb_spec (4 + len m) 4); [lia|]. cbv zeta. destruct (Z.eqb_spec (len m) 0); [lia|].
  destruct (Z.ltb_spec (4 + len m) (4 + len m)); [lia|]. cbn [orb]. rewrite to_nat_len.
  by apply firstn_all.
Qed.

(** The message put into a proof is the one extracted from it. *)
Theorem message_roundtrip v blind nonce m :
  len m < 2 ^ 32 -> rounds_ok (ComputeProofSeed nonce blind v) -> ProveWithMessage v blind nonce m <> [] ->
  ExtractExtraData (ProveWithMessage v blind nonce m) = m.
Proof.
  unfold ProveWithMessage. intros Hm Hr Hp.
  destruct (Prove_fields v blind nonce m Hr Hp) as (p & Hok & _ & _ & _ & ->). by apply extract_serialized.
Qed.

Lemma find_blind_sound n idx commit nonce u b :
  find_blind n idx commit nonce u = Some b -> Commit (i64 u) b = commit.
Proof.
  revert idx. induction n as [|n IH]; intros idx; [done|]. cbn [find_blind]. cbv zeta.
  destruct (negb _); [apply IH|]. destruct (bool_decide_reflect (Commit (i64 u) (blind_candidate nonce idx) = commit)); [|apply IH].
  by intros [= <-].
Qed.

Lemma find_blind_complete n idx commit nonce u i :
  idx <= i < idx + Z.of_nat n -> ec_seckey_verify (blind_candidate nonce i) = true ->
  Commit (i64 u) (blind_candidate nonce i) = commit -> is_Some (find_blind n idx commit nonce u).
Proof.
  revert idx. induction n as [|n IH]; intros idx Hi Hk Hc; [lia|]. cbn [find_blind]. cbv zeta.
  destruct (decide (i = idx)) as [<-|].
  - rewrite Hk. cbn [negb]. rewrite bool_decide_true by done. eauto.
  - destruct (negb _); [apply IH; auto; lia|]. destruct (bool_decide _); [eauto|apply IH; auto; lia].
Qed.

(** Recovery returns an opening of the commitment it was given, never another. *)
Theorem recover_opens commit proof nonce v b m :
  RecoverMessage commit proof nonce = Some (v, b, m) -> Commit v b = commit /\ m = ExtractExtraData proof.
Proof.
  unfold RecoverMessage. destruct (_ <? _); [done|]. destruct (ParseProof proof) as [[p s]|]; [|done].
  destruct (ScalarToValue _) as [u|]; [|done]. cbv zeta.
  destruct (bool_decide_reflect (Commit (i64 u) (sha256 (uint256_bytes nonce ++ label_blind_recover)) = commit)).
  - intros [= <- <- <-]. done.
  - destruct (find_blind _ _ _ _ _) eqn:E; [|done]. intros [= <- <- <-]. eauto using find_blind_sound.
Qed.

(** The owner of a nonce recovers the amount and the message from a proof made
    with the nonce and with one of the 256 blinding factors it derives. *)
Theorem recover_complete v nonce i m :
  let blind := blind_candidate nonce i in
  0 <= i < 256 -> v < 2 ^ 63 -> len m < 2 ^ 32 -> ec_seckey_verify blind = true ->
  rounds_ok (ComputeProofSeed nonce blind v) -> Prove v blind nonce m <> [] ->
  exists b, RecoverMessage (Commit v blind) (Prove v blind nonce m) nonce = Some (v, b, m) /\
            Commit v b = Commit v blind.
Proof.
  intros blind Hi Hv Hm Hk Hr Hp. destruct (Prove_fields v blind nonce m Hr Hp) as (p & Hok & Hv0 & _ & Ha & ->).
  unfold RecoverMessage. rewrite extract_serialized by done.
  destruct (Z.ltb_spec (len (SerializeProof p ++ extra_data m)) 230) as [Hl|_].
  { pose proof (proof_length p (extra_data m) Hok). lia. }
  rewrite ParseProof_write, Ha, scalar_roundtrip by (done || lia). cbv zeta. rewrite i64_id by lia.
  destruct (bool_decide_reflect (Commit v (sha256 (uint256_bytes nonce ++ label_blind_recover)) = Commit v blind)) as [E|_].
  - eexists. split; [reflexivity|done].
  - destruct (find_blind_complete 256 0 (Commit v blind) nonce v i) as [b Hb]; [lia|done|by rewrite i64_id by lia|].
    rewrite Hb. exists b. split; [done|]. apply find_blind_sound in Hb. by rewrite i64_id in Hb by lia.
Qed.

(** Equal but for the fields [pMu], [pA_scalar] and [pT_scalar]. *)
Definition same_checked_fields (p q : Proof) : Prop :=
  nBits p = nBits q /\ pA p = pA q /\ pS p = pS q /\ pT1 p = pT1 q /\ pT2 p = pT2 q /\ pTaux p = pTaux q /\
  vpL p = vpL q /\ vpR p = vpR q /\ pB_scalar p = pB_scalar q.

(** The verifier's answer does not depend on the amount field, the mask or the
    product field of the proof: no check relates the committed value to the
    interval from 0 to 2^64. *)
Theorem verify_ignores_amount commit p q s t :
  proof_ok p -> proof_ok q -> same_checked_fields p q ->
  Verify commit (SerializeProof p ++ s) = Verify commit (SerializeProof q ++ t).
Proof.
  intros Hp Hq (E1 & E2 & E3 & E4 & E5 & E6 & E7 & E8 & E9). unfold Verify.
  destruct (Z.ltb_spec (len (SerializeProof p ++ s)) 230); [pose proof (proof_length p s Hp); lia|].
  destruct (Z.ltb_spec (len (SerializeProof q ++ t)) 230); [pose proof (proof_length q t Hq); lia|].
  rewrite !ParseProof_write by done. unfold check_equation. by rewrite E1, E2, E3, E4, E5, E6, E7, E8, E9.
Qed.

Lemma parses_some b : parses b = true <-> is_Some (ec_pubkey_parse b).
Proof. unfold parses. destruct (ec_pubkey_parse b); split; [eauto|done|done|by intros [? ?]]. Qed.

Lemma serialize_inj_point p q : ec_pubkey_serialize p = ec_pubkey_serialize q -> p = q.
Proof. intros E. apply (f_equal ec_pubkey_parse) in E. rewrite !parse_serialize in E. by injection E. Qed.

Lemma check_equation_sound `{!SecpGroup} commit p :
  check_equation commit p = true ->
  exists lhs C T1 T2 z2V xT1 x2T2,
    let y := y_challenge commit (pA p) (pS p) in
    let x := uint256_bytes (x_challenge y (pT1 p) (pT2 p)) in
    let z := uint256_bytes (z_challenge y commit) in
    ec_pubkey_create (pTaux p) = Some lhs /\ ec_pubkey_parse commit = Some C /\
    ec_pubkey_parse (pT1 p) = Some T1 /\ ec_pubkey_parse (pT2 p) = Some T2 /\
    ec_pubkey_tweak_mul C (ScalarMul z z) = Some z2V /\ ec_pubkey_tweak_mul T1 x = Some xT1 /\
    ec_pubkey_tweak_mul T2 (ScalarMul x x) = Some x2T2 /\
    point_of lhs = point_sum [point_of z2V; point_of xT1; point_of x2T2].
Proof.
  unfold check_equation, ScalarMultPoint, PointAdd. cbv zeta.
  destruct (ec_pubkey_parse (pT1 p)) as [T1|]; [|done]. destruct (ec_pubkey_parse (pT2 p)) as [T2|]; [|done].
  destruct (ec_pubkey_parse commit) as [C|]; [|done]. destruct (ec_pubkey_create (pTaux p)) as [lhs|]; [|done].
  destruct (negb _); [done|]. destruct (ec_pubkey_tweak_mul C _) as [z2V|] eqn:Ez; [|done].
  destruct (negb _); [done|]. destruct (ec_pubkey_tweak_mul T1 _) as [xT1|] eqn:E1; [|done].
  destruct (negb _); [done|]. destruct (ec_pubkey_tweak_mul T2 _) as [x2T2|] eqn:E2; [|done].
  destruct (ec_pubkey_combine [z2V; xT1]) as [part|] eqn:Ep; [|done].
  destruct (ec_pubkey_combine [part; x2T2]) as [rhs|] eqn:Er; [|done].
  intros Hs%bool_decide_eq_true%serialize_inj_point. subst rhs.
  exists lhs, C, T1, T2, z2V, xT1, x2T2. repeat (split; [done|]).
  apply point_of_combine in Ep, Er. rewrite Er. unfold point_sum. cbn [map foldr] in *. rewrite Ep.
  rewrite !(point_add_comm _ point_zero), !point_add_zero. by rewrite point_add_assoc.
Qed.

(** What an accepted proof establishes: its points are encodings of curve
    points, its width is 64 bits, and the blinding polynomial times the base is the
    challenge combination of the commitment and of [T1] and [T2]. *)
Theorem verify_equation `{!SecpGroup} commit proof :
  Verify commit proof = true ->
  exists p s lhs C T1 T2 z2V xT1 x2T2,
    let y := y_challenge commit (pA p) (pS p) in
    let x := uint256_bytes (x_challenge y (pT1 p) (pT2 p)) in
    let z := uint256_bytes (z_challenge y commit) in
    ParseProof proof = Some (p, s) /\ nBits p = BULLETPROOF_BITS /\
    Forall (fun b => is_Some (ec_pubkey_parse b)) (pA p :: pS p :: vpL p ++ vpR p) /\
    ec_pubkey_create (pTaux p) = Some lhs /\ ec_pubkey_parse commit = Some C /\
    ec_pubkey_parse (pT1 p) = Some T1 /\ ec_pubkey_parse (pT2 p) = Some T2 /\
    ec_pubkey_tweak_mul C (ScalarMul z z) = Some z2V /\ ec_pubkey_tweak_mul T1 x = Some xT1 /\
    ec_pubkey_tweak_mul T2 (ScalarMul x x) = Some x2T2 /\
    point_of lhs = point_sum [point_of z2V; point_of xT1; point_of x2T2].
Proof.
  unfold Verify. destruct (_ <? 230); [done|]. destruct (ParseProof proof) as [[p s]|]; [|done].
  destruct (Z.eqb_spec (nBits p) BULLETPROOF_BITS) as [Hbits|]; [|done]. cbn [negb].
  destruct (parses (pA p) && _ && _ && _) eqn:Epts; [|done]. cbn [negb].
  destruct (ec_seckey_verify (pTaux p)); [|done]. cbn [negb].
  destruct (forallb parses (vpL p) && forallb parses (vpR p)) eqn:Ernd; [|done]. cbn [negb].
  destruct (check_equation commit p) eqn:Eeq; [|done]. intros _.
  apply check_equation_sound in Eeq as (lhs & C & T1 & T2 & z2V & xT1 & x2T2 & Heq).
  exists p, s, lhs, C, T1, T2, z2V, xT1, x2T2. cbv zeta in *.
  split; [done|]. split; [done|]. split; [|exact Heq].
  apply andb_true_iff in Epts as [[[HA HS]%andb_true_iff _]%andb_true_iff _].
  apply andb_true_iff in Ernd as [HL HR].
  constructor; [by apply parses_some|]. constructor; [by apply parses_some|].
  apply Forall_app. rewrite !forallb_forall in *. rewrite !Forall_forall.
  split; intros b Hb; apply parses_some; [apply HL|apply HR]; by apply list_elem_of_In.
Qed.

End prover.

(** ** Witnesses, on the concrete curve interface *)

Section witnesses.
#[local] Existing Instance log_secp.
#[local] Existing Instance log_laws.
#[local] Existing Instance log_group.
#[local] Instance sample_sha : Sha256 := toy_sha256.

Lemma sample_sha_length l : length (sha256 l) = 32%nat.
Proof. apply le_bytes_length. Qed.

Definition sample_blind : bytes := blind_candidate 77 3.
Definition sample_proof : Proof :=
  {| nBits := 64; pA := 2 :: key 3; pS := 2 :: key 4; pT1 := 2 :: key 5; pT2 := 2 :: key 6; pTaux := key 7;
     pMu := key 8; vpL := [2 :: key 9]; vpR := [2 :: key 10]; pA_scalar := ValueToScalar 1234;
     pB_scalar := key 1; pT_scalar := key 12 |}.

Lemma proof_roundtrip_witness :
  ParseProof (SerializeProof sample_proof ++ [1; 2]) = Some (sample_proof, [1; 2]) /\
  ScalarToValue (pA_scalar sample_proof) = Some 1234.
Proof. apply proof_roundtrip; [apply (bool_decide_unpack _); vm_compute; exact I|lia|reflexivity]. Defined.

Lemma prove_reveals_value_witness :
  exists p s, ParseProof (Prove 1234 sample_blind 77 [9]) = Some (p, s) /\ ScalarToValue (pA_scalar p) = Some 1234.
Proof.
  apply prove_reveals_value; [exact sample_sha_length|lia|vm_compute; reflexivity|vm_compute; discriminate].
Defined.

Lemma message_roundtrip_witness : ExtractExtraData (ProveWithMessage 1234 sample_blind 77 [9; 8]) = [9; 8].
Proof.
  apply message_roundtrip; [exact sample_sha_length|vm_compute; reflexivity|vm_compute; reflexivity|vm_compute; discriminate].
Defined.

Lemma recover_opens_witness : Commit 1234 sample_blind = Commit 1234 sample_blind /\ [9; 8] = [9; 8].
Proof.
  destruct (recover_opens (Commit 1234 sample_blind) (Prove 1234 sample_blind 77 [9; 8]) 77 1234 sample_blind [9; 8])
    as [H1 _]; [vm_compute; reflexivity|]. split; [exact H1|reflexivity].
Defined.

Lemma recover_complete_witness :
  exists b, RecoverMessage (Commit 1234 sample_blind) (Prove 1234 sample_blind 77 [9; 8]) 77 = Some (1234, b, [9; 8]) /\
            Commit 1234 b = Commit 1234 sample_blind.
Proof.
  apply (recover_complete sample_sha_length 1234 77 3 [9; 8]);
    [lia|lia|vm_compute; reflexivity|vm_compute; reflexivity|vm_compute; reflexivity|vm_compute; discriminate].
Defined.

(** A proof whose blinding scalar solves the equation for the logarithms. *)
Definition accepted_fields (taux : Z) : Proof :=
  {| nBits := 64; pA := 2 :: key 3; pS := 2 :: key 4; pT1 := 2 :: key 5; pT2 := 2 :: key 6; pTaux := key taux;
     pMu := key 8; vpL := [2 :: key 9]; vpR := [2 :: key 10]; pA_scalar := ValueToScalar 1234;
     pB_scalar := key 1; pT_scalar := key 12 |}.
Definition accepted_proof : Proof :=
  let c := Commit 5 (key 7) in
  let y := y_challenge c (2 :: key 3) (2 :: key 4) in
  let x := uint256_bytes (x_challenge y (2 :: key 5) (2 :: key 6)) in
  let z := uint256_bytes (z_challenge y c) in
  accepted_fields ((be_value (drop 1 c) * be_value (ScalarMul z z) + 5 * be_value x + 6 * be_value (ScalarMul x x)) mod ORDER).

Lemma verify_equation_witness :
  Verify (Commit 5 (key 7)) (SerializeProof accepted_proof) = true /\
  exists p s lhs, ParseProof (SerializeProof accepted_proof) = Some (p, s) /\ ec_pubkey_create (pTaux p) = Some lhs.
Proof.
  assert (Verify (Commit 5 (key 7)) (SerializeProof accepted_proof) = true) as Hv by (vm_compute; reflexivity).
  split; [exact Hv|].
  destruct (verify_equation (Commit 5 (key 7)) (SerializeProof accepted_proof) Hv)
    as (p & s & lhs & C & T1 & T2 & z2V & xT1 & x2T2 & Hp & _ & _ & Hc & _).
  exists p, s, lhs. split; [exact Hp|exact Hc].
Defined.

(** The accepted proof with another amount in it. *)
Definition forged_proof : Proof :=
  {| nBits := 64; pA := 2 :: key 3; pS := 2 :: key 4; pT1 := 2 :: key 5; pT2 := 2 :: key 6; pTaux := pTaux accepted_proof;
     pMu := key 88; vpL := [2 :: key 9]; vpR := [2 :: key 10]; pA_scalar := ValueToScalar 99;
     pB_scalar := key 1; pT_scalar := key 13 |}.

Lemma verify_ignores_amount_witness : Verify (Commit 5 (key 7)) (SerializeProof forged_proof ++ [4]) = true.
Proof.
  rewrite <-(verify_ignores_amount (Commit 5 (key 7)) accepted_proof forged_proof [] [4]).
  - vm_compute. reflexivity.
  - apply (bool_decide_unpack _). vm_compute. exact I.
  - apply (bool_decide_unpack _). vm_compute. exact I.
  - repeat split.
Defined.
End witnesses.

End Bulletproofs.
