(* ===== verification/MwValidation.v ===== *)
(** * Validation of MimbleWimble blocks and transactions
      ([src/mw/validation.h], [src/mw/validation.cpp])

    The checks in the order they are made, with the error each one reports and
    the index it reports it at.  The bodies, the state and the cryptography are
    those of [MwModels], [MwState], [MwCrypto] and [Bulletproofs]. *)

From stdpp Require Import strings pretty.
From S2P Require Import Prelude Crypto Serialize Mmr MwModels MwState Secp MwCrypto Bulletproofs.
Import Stream MwModels MwState MwCrypto.

Module MwValidation.

(** ** Results *)

Inductive MWValidationError :=
| MW_OK
| MW_ERR_INVALID_RANGEPROOF
| MW_ERR_INVALID_SIGNATURE
| MW_ERR_COMMITMENT_SUM
| MW_ERR_DOUBLE_SPEND
| MW_ERR_OUTPUT_NOT_FOUND
| MW_ERR_INVALID_CUTTHROUGH
| MW_ERR_PEG_MISMATCH
| MW_ERR_INVALID_FEE
| MW_ERR_INVALID_KERNEL
| MW_ERR_HEIGHT_LOCKED
| MW_ERR_PREV_BLOCK_MISMATCH
| MW_ERR_INFLATION
| MW_ERR_DUPLICATE_OUTPUT
| MW_ERR_EMPTY_BLOCK
| MW_ERR_NONCANONICAL_ORDER.

#[export] Instance error_eq_dec : EqDecision MWValidationError.
Proof. solve_decision. Defined.

Record CMWValidationResult := {
  error : MWValidationError; strMessage : string;
  nKernelIndex : Z; nOutputIndex : Z; nInputIndex : Z }.

Definition valid_result : CMWValidationResult :=
  {| error := MW_OK; strMessage := EmptyString; nKernelIndex := -1; nOutputIndex := -1; nInputIndex := -1 |}.

(** A result whose error and message were assigned, and one index. *)
Definition failed (e : MWValidationError) (m : string) : CMWValidationResult :=
  {| error := e; strMessage := m; nKernelIndex := -1; nOutputIndex := -1; nInputIndex := -1 |}.
Definition failed_kernel (e : MWValidationError) (i : Z) (m : string) : CMWValidationResult :=
  {| error := e; strMessage := m; nKernelIndex := i32 i; nOutputIndex := -1; nInputIndex := -1 |}.
Definition failed_output (e : MWValidationError) (i : Z) (m : string) : CMWValidationResult :=
  {| error := e; strMessage := m; nKernelIndex := -1; nOutputIndex := i32 i; nInputIndex := -1 |}.
Definition failed_input (e : MWValidationError) (i : Z) (m : string) : CMWValidationResult :=
  {| error := e; strMessage := m; nKernelIndex := -1; nOutputIndex := -1; nInputIndex := i32 i |}.

Definition IsValid (r : CMWValidationResult) : bool := bool_decide (error r = MW_OK).

(** The cases of the [switch]. *)
Definition error_text (e : MWValidationError) : string :=
  match e with
  | MW_ERR_INVALID_RANGEPROOF => "invalid range proof"
  | MW_ERR_INVALID_SIGNATURE => "invalid kernel signature"
  | MW_ERR_COMMITMENT_SUM => "commitment sum mismatch"
  | MW_ERR_DOUBLE_SPEND => "double spend"
  | MW_ERR_OUTPUT_NOT_FOUND => "output not found"
  | MW_ERR_INVALID_CUTTHROUGH => "invalid cut-through"
  | MW_ERR_PEG_MISMATCH => "peg amount mismatch"
  | MW_ERR_INVALID_FEE => "invalid fee"
  | MW_ERR_INVALID_KERNEL => "invalid kernel"
  | MW_ERR_HEIGHT_LOCKED => "height-locked"
  | MW_ERR_PREV_BLOCK_MISMATCH => "previous block mismatch"
  | MW_ERR_INFLATION => "inflation detected"
  | MW_ERR_DUPLICATE_OUTPUT => "duplicate output"
  | MW_ERR_EMPTY_BLOCK => "empty block"
  | MW_ERR_NONCANONICAL_ORDER => "non-canonical component order"
  | MW_OK => "unknown error"
  end.

Definition ToString (r : CMWValidationResult) : string :=
  if IsValid r then "MW validation passed"
  else
    let str := "MW validation failed: " +:+ error_text (error r) in
    let str := if bool_decide (strMessage r = EmptyString) then str else str +:+ " (" +:+ strMessage r +:+ ")" in
    let str := if 0 <=? nKernelIndex r then str +:+ " kernel[" +:+ pretty (nKernelIndex r) +:+ "]" else str in
    let str := if 0 <=? nOutputIndex r then str +:+ " output[" +:+ pretty (nOutputIndex r) +:+ "]" else str in
    if 0 <=? nInputIndex r then str +:+ " input[" +:+ pretty (nInputIndex r) +:+ "]" else str.

(** [MoneyRange] ([main.h]). *)
Definition MoneyRange (nValue : Z) : bool := (0 <=? nValue) && (nValue <=? MAX_MONEY).

(** ** Loops with an early return

    [for (i = ...) if (...) { result = ...; return result; }]: [f i x] is the
    result returned at index [i], if any. *)
Fixpoint loop {A R} (f : Z -> A -> option R) (i : Z) (l : list A) : option R :=
  match l with
  | [] => None
  | x :: l' => match f i x with Some r => Some r | None => loop f (i + 1) l' end
  end.

(** The loops that insert into a [std::set] and return on a repetition. *)
Fixpoint first_duplicate (i : Z) (seen : gset bytes) (l : list Commitment) : option Z :=
  match l with
  | [] => None
  | c :: l' => if bool_decide (c ∈ seen) then Some i else first_duplicate (i + 1) ({[ c ]} ∪ seen) l'
  end.

(** A check that may return, and what follows it. *)
Notation "c ;; k" := (match c with Some r => r | None => k end) (at level 100, k at level 200, right associativity).
Notation "'when' b 'return_' r" := (if b then Some r else None) (at level 99).

Section validation.
Context `{Sha256} `{Secp256k1}.

Definition VerifyKernelSignatures (body : CMWTransactionBody) : bool :=
  loop (fun _ kernel =>
    if IsNull (excess kernel) then Some false
    else
      let msg := GetSignatureMessage kernel in
      when negb (VerifyExcess (excess kernel) msg (k_signature kernel)) return_ false) 0 (vKernels body) ;;
  true.

Definition VerifyRangeProofs (body : CMWTransactionBody) : bool :=
  match vOutputs body with
  | [] => true
  | _ =>
    loop (fun _ output => when bool_decide (rangeProof output = []) return_ false) 0 (vOutputs body) ;;
    Bulletproofs.BatchVerify (map (fun o => (o_commitment o, rangeProof o)) (vOutputs body))
  end.

(** The two lists handed to the sum check. *)
Definition sum_positive (body : CMWTransactionBody) : list Commitment :=
  map o_commitment (vOutputs body) ++
  (let nPegOut := GetTotalPegOut body in if 0 <? nPegOut then [Commit nPegOut null_blind] else []).
Definition sum_negative (body : CMWTransactionBody) (offset : BlindingFactor) : list Commitment :=
  map i_commitment (vInputs body) ++ map excess (vKernels body) ++
  (if negb (IsNull offset) then [CommitBlind offset] else []) ++
  (let nTotalFee := GetTotalFee body in if 0 <? nTotalFee then [Commit nTotalFee null_blind] else []) ++
  (let nPegIn := GetTotalPegIn body in if 0 <? nPegIn then [Commit nPegIn null_blind] else []).
Definition VerifyCommitmentSum (body : CMWTransactionBody) (offset : BlindingFactor) : bool :=
  MwCrypto.VerifyCommitmentSum (sum_positive body) (sum_negative body offset).

(** ** Blocks *)

Definition check_kernel (i : Z) (k : CMWKernel) : option CMWValidationResult :=
  if IsCoinbase k
  then Some (failed_kernel MW_ERR_INVALID_KERNEL i "coinbase kernel not permitted (no emission rules defined)")
  else if negb (MoneyRange (nFee k)) then Some (failed_kernel MW_ERR_INVALID_FEE i "fee out of range")
  else when (IsPegIn k || IsPegOut k) && ((nPegAmount k <=? 0) || negb (MoneyRange (nPegAmount k)))
       return_ failed_kernel MW_ERR_INVALID_KERNEL i "peg kernel amount out of range".

Definition totals_in_range (b : CMWTransactionBody) : bool :=
  MoneyRange (GetTotalFee b) && MoneyRange (GetTotalPegIn b) && MoneyRange (GetTotalPegOut b).

Definition lock_message (k : CMWKernel) (nBlockHeight : Z) : string :=
  "kernel locked until height " +:+ pretty (nLockHeight k) +:+ ", current height " +:+ pretty nBlockHeight.

Definition ValidateMWBlock (block : CMWBlock) (state : CMWState) (nBlockHeight nTransparentPegIn nTransparentPegOut : Z)
    : CMWValidationResult :=
  let body := b_body block in
  when negb (hashPrevMWBlock block =? hashLatestMWBlock state)
  return_ failed MW_ERR_PREV_BLOCK_MISMATCH "previous MW block hash mismatch" ;;
  when negb (IsCanonicallyOrdered body)
  return_ failed MW_ERR_NONCANONICAL_ORDER "MWEB block components not in canonical (sorted) order" ;;
  loop check_kernel 0 (vKernels body) ;;
  when negb (totals_in_range body)
  return_ failed MW_ERR_INFLATION "aggregate fee/peg amount out of range" ;;
  when negb (VerifyRangeProofs body) return_ failed MW_ERR_INVALID_RANGEPROOF "one or more range proofs failed" ;;
  when negb (VerifyKernelSignatures body)
  return_ failed MW_ERR_INVALID_SIGNATURE "one or more kernel signatures failed" ;;
  when negb (VerifyCommitmentSum body (b_offset block))
  return_ failed MW_ERR_COMMITMENT_SUM "commitment sum does not balance" ;;
  loop (fun i input =>
    when negb (HasOutput state (i_commitment input))
    return_ failed_input MW_ERR_OUTPUT_NOT_FOUND i "input references non-existent output") 0 (vInputs body) ;;
  match first_duplicate 0 ∅ (map i_commitment (vInputs body)) with
  | Some i => failed_input MW_ERR_DOUBLE_SPEND i "duplicate input commitment in block"
  | None =>
  match first_duplicate 0 ∅ (map o_commitment (vOutputs body)) with
  | Some i => failed_output MW_ERR_DUPLICATE_OUTPUT i "duplicate output commitment in block"
  | None =>
  loop (fun i kernel =>
    when IsHeightLocked kernel && (nBlockHeight <? nLockHeight kernel)
    return_ failed_kernel MW_ERR_HEIGHT_LOCKED i (lock_message kernel nBlockHeight)) 0 (vKernels body) ;;
  let nMWPegIn := GetTotalPegIn body in
  let nMWPegOut := GetTotalPegOut body in
  when negb (nMWPegIn =? nTransparentPegIn)
  return_ failed MW_ERR_PEG_MISMATCH
    ("peg-in mismatch: MW=" +:+ pretty nMWPegIn +:+ " transparent=" +:+ pretty nTransparentPegIn) ;;
  when negb (nMWPegOut =? nTransparentPegOut)
  return_ failed MW_ERR_PEG_MISMATCH
    ("peg-out mismatch: MW=" +:+ pretty nMWPegOut +:+ " transparent=" +:+ pretty nTransparentPegOut) ;;
  let txHash := body_GetHash body in
  loop (fun i input =>
    when negb (VerifySignature input txHash)
    return_ failed_input MW_ERR_INVALID_SIGNATURE i "input signature verification failed") 0 (vInputs body) ;;
  valid_result
  end end.

(** ** Transactions *)

Definition check_tx_kernel (nBlockHeight : Z) (i : Z) (k : CMWKernel) : option CMWValidationResult :=
  if IsCoinbase k
  then Some (failed_kernel MW_ERR_INVALID_KERNEL i "coinbase kernel not permitted (no emission rules defined)")
  else if IsHeightLocked k && (nBlockHeight <? nLockHeight k) then Some (failed_kernel MW_ERR_HEIGHT_LOCKED i EmptyString)
  else if negb (MoneyRange (nFee k)) then Some (failed_kernel MW_ERR_INVALID_FEE i EmptyString)
  else when (IsPegIn k || IsPegOut k) && ((nPegAmount k <=? 0) || negb (MoneyRange (nPegAmount k)))
       return_ failed_kernel MW_ERR_INVALID_KERNEL i EmptyString.

Definition ValidateMWTransaction (tx : CMWTransaction) (state : CMWState) (nBlockHeight : Z) : CMWValidationResult :=
  let body := t_body tx in
  when tx_IsNull tx return_ failed MW_ERR_EMPTY_BLOCK "empty transaction" ;;
  when negb (VerifyRangeProofs body) return_ failed MW_ERR_INVALID_RANGEPROOF EmptyString ;;
  when negb (VerifyKernelSignatures body) return_ failed MW_ERR_INVALID_SIGNATURE EmptyString ;;
  when negb (VerifyCommitmentSum body (t_offset tx)) return_ failed MW_ERR_COMMITMENT_SUM EmptyString ;;
  loop (fun i input =>
    when negb (HasOutput state (i_commitment input)) return_ failed_input MW_ERR_OUTPUT_NOT_FOUND i EmptyString) 0
    (vInputs body) ;;
  loop (check_tx_kernel nBlockHeight) 0 (vKernels body) ;;
  when negb (totals_in_range body) return_ failed MW_ERR_INFLATION EmptyString ;;
  valid_result.

(** ** Single components *)

Definition output_Verify (o : CMWOutput) : bool :=
  if IsNull (o_commitment o) then false
  else if bool_decide (rangeProof o = []) then false
  else Bulletproofs.Verify (o_commitment o) (rangeProof o).

Definition kernel_Verify (k : CMWKernel) : bool :=
  if IsNull (excess k) then false
  else if IsNull (k_signature k) then false
  else VerifyExcess (excess k) (GetSignatureMessage k) (k_signature k).

Definition Validate (b : CMWTransactionBody) (txHash : uint256) : bool :=
  when negb (VerifyRangeProofs b) return_ false ;;
  when negb (VerifyKernelSignatures b) return_ false ;;
  loop (fun _ i => when negb (VerifySignature i txHash) return_ false) 0 (vInputs b) ;;
  match first_duplicate 0 ∅ (map i_commitment (vInputs b)) with
  | Some _ => false
  | None =>
  match first_duplicate 0 ∅ (map o_commitment (vOutputs b)) with
  | Some _ => false
  | None =>
  loop (fun _ k => when nFee k <? 0 return_ false) 0 (vKernels b) ;;
  true
  end end.

End validation.

(** * Properties *)

(** ** Loops *)

Lemma loop_none {A R} (f : Z -> A -> option R) i l :
  loop f i l = None <-> forall j x, l !! j = Some x -> f (i + Z.of_nat j) x = None.
Proof.
  revert i. induction l as [|x l IH]; intros i; cbn [loop]; [split; [intros _ j y; by rewrite lookup_nil|done]|].
  destruct (f i x) eqn:E.
  - split; [done|]. intros Hf. specialize (Hf 0%nat x eq_refl). rewrite Z.add_0_r in Hf. congruence.
  - rewrite IH. split.
    + intros Hf [|j] y Hy; [injection Hy as <-; by rewrite Z.add_0_r|].
      replace (i + Z.of_nat (S j)) with (i + 1 + Z.of_nat j) by lia. by apply Hf.
    + intros Hf j y Hy. replace (i + 1 + Z.of_nat j) with (i + Z.of_nat (S j)) by lia. by apply Hf.
Qed.

(** The loop returns at the first index that has a result. *)
Lemma loop_first {A R} (f : Z -> A -> option R) i l r :
  loop f i l = Some r ->
  exists j x, l !! j = Some x /\ f (i + Z.of_nat j) x = Some r /\ loop f i (take j l) = None.
Proof.
  revert i. induction l as [|x l IH]; intros i; cbn [loop]; [done|]. destruct (f i x) eqn:E.
  - intros [= <-]. exists 0%nat, x. by rewrite Z.add_0_r.
  - intros (j & y & Hy & Hf & Ht)%IH. exists (S j), y. split; [done|].
    replace (i + Z.of_nat (S j)) with (i + 1 + Z.of_nat j) by lia. cbn [take loop]. by rewrite E.
Qed.

(** A loop whose check does not look at the index. *)
Lemma loop_all {A R} (f : Z -> A -> option R) (ok : A -> Prop) i l :
  (forall i x, f i x = None <-> ok x) -> loop f i l = None <-> Forall ok l.
Proof.
  intros Hf. rewrite loop_none, Forall_lookup. split; intros Hl j x Hx; apply (Hf (i + Z.of_nat j)); eauto.
Qed.

Lemma loop_when {A R} (p : A -> bool) (r : Z -> A -> R) i l :
  loop (fun i x => when negb (p x) return_ r i x) i l = None <-> Forall (fun x => p x = true) l.
Proof. apply loop_all. intros j x. by destruct (p x). Qed.

Lemma loop_unless {A R} (p : A -> bool) (r : Z -> A -> R) i l :
  loop (fun i x => when p x return_ r i x) i l = None <-> Forall (fun x => p x = false) l.
Proof. apply loop_all. intros j x. by destruct (p x). Qed.

Lemma first_duplicate_none i seen l :
  first_duplicate i seen l = None <-> NoDup l /\ (forall c, c ∈ l -> c ∉ seen).
Proof.
  revert i seen. induction l as [|c l IH]; intros i seen; cbn [first_duplicate].
  - split; [split; [constructor|set_solver]|done].
  - destruct (bool_decide_reflect (c ∈ seen)).
    + split; [done|]. intros [_ Hs]. exfalso. apply (Hs c); set_solver.
    + rewrite IH, NoDup_cons. set_solver.
Qed.

Lemma no_duplicate i l : first_duplicate i ∅ l = None <-> NoDup l.
Proof. rewrite first_duplicate_none. set_solver. Qed.

(** Once a check is known to report an error, a valid result passed it. *)
Lemma valid_after (c : option CMWValidationResult) k :
  (forall r, c = Some r -> error r <> MW_OK) -> error (c ;; k) = MW_OK <-> c = None /\ error k = MW_OK.
Proof. destruct c as [r|]; [|naive_solver]. intros Hc. specialize (Hc r eq_refl). naive_solver. Qed.

Lemma loop_reports {A} (f : Z -> A -> option CMWValidationResult) i l r :
  (forall i x r, f i x = Some r -> error r <> MW_OK) -> loop f i l = Some r -> error r <> MW_OK.
Proof. intros Hf (j & x & _ & E & _)%loop_first. eauto. Qed.

Lemma when_none {R} (b : bool) (r : R) : (when b return_ r) = None <-> b = false.
Proof. by destruct b. Qed.

(** ** What is checked *)

Definition kernel_ok (k : CMWKernel) : Prop :=
  IsCoinbase k = false /\ 0 <= nFee k <= MAX_MONEY /\
  (IsPegIn k = true \/ IsPegOut k = true -> 0 < nPegAmount k <= MAX_MONEY).

Lemma mw_money_range v : MoneyRange v = true <-> 0 <= v <= MAX_MONEY.
Proof. unfold MoneyRange. rewrite andb_true_iff, !Z.leb_le. done. Qed.

Lemma peg_check k :
  (IsPegIn k || IsPegOut k) && ((nPegAmount k <=? 0) || negb (MoneyRange (nPegAmount k))) = false <->
  (IsPegIn k = true \/ IsPegOut k = true -> 0 < nPegAmount k <= MAX_MONEY).
Proof.
  rewrite andb_false_iff, !orb_false_iff, negb_false_iff, mw_money_range, Z.leb_gt.
  destruct (IsPegIn k), (IsPegOut k); naive_solver lia.
Qed.

Lemma check_kernel_none i k : check_kernel i k = None <-> kernel_ok k.
Proof.
  unfold check_kernel, kernel_ok. rewrite <-peg_check, <-mw_money_range.
  destruct (IsCoinbase k); [naive_solver|]. destruct (MoneyRange (nFee k)); cbn [negb]; [|naive_solver].
  rewrite when_none. naive_solver.
Qed.

Lemma check_kernel_reports i k r : check_kernel i k = Some r -> error r <> MW_OK.
Proof. unfold check_kernel. intros E. inv_guard E; by injection E as <-. Qed.

Lemma check_tx_kernel_none h i k :
  check_tx_kernel h i k = None <-> kernel_ok k /\ (IsHeightLocked k = true -> nLockHeight k <= h).
Proof.
  unfold check_tx_kernel, kernel_ok. rewrite <-peg_check, <-mw_money_range.
  destruct (IsCoinbase k); [naive_solver|].
  destruct (IsHeightLocked k); destruct (Z.ltb_spec h (nLockHeight k)); cbn [andb]; [naive_solver lia|..].
  all: destruct (MoneyRange (nFee k)); cbn [negb]; [|naive_solver]; rewrite when_none; naive_solver.
Qed.

Lemma check_tx_kernel_reports h i k r : check_tx_kernel h i k = Some r -> error r <> MW_OK.
Proof. unfold check_tx_kernel. intros E. inv_guard E; by injection E as <-. Qed.

Lemma sum_nonneg l : Forall (fun z => 0 <= z) l -> 0 <= foldr Z.add 0 l.
Proof. induction 1; cbn [foldr]; lia. Qed.

Lemma sum_zero l : Forall (fun z => 0 <= z) l -> foldr Z.add 0 l = 0 -> Forall (fun z => z = 0) l.
Proof.
  induction 1 as [|z l Hz Hl IH]; cbn [foldr]; [constructor|]. intros E. pose proof (sum_nonneg l Hl).
  constructor; [|apply IH]; lia.
Qed.

(** Exact totals that are zero leave no amount. *)
Lemma zero_totals body :
  Forall kernel_ok (vKernels body) -> len (vKernels body) <= 92 ->
  GetTotalFee body = 0 -> GetTotalPegIn body = 0 -> GetTotalPegOut body = 0 ->
  Forall (fun k => nFee k = 0 /\ IsPegIn k = false /\ IsPegOut k = false) (vKernels body).
Proof.
  intros Hk Hlen. unfold GetTotalFee, GetTotalPegIn, GetTotalPegOut. rewrite !i64_fixed_or by lia.
  assert (forall f, Forall (fun k => 0 <= f k <= MAX_MONEY) (vKernels body) ->
    fold_left (fun t k => i64 (t + f k)) (vKernels body) 0 = 0 -> Forall (fun k => f k = 0) (vKernels body)) as Hz.
  { intros f Hf. destruct (i64_sum f (vKernels body) 0 MAX_MONEY) as [-> _]; [lia|done|unfold MAX_MONEY; lia|].
    intros E. apply (Forall_map f (fun z => z = 0)). apply sum_zero; [|lia]. apply Forall_map.
    eapply Forall_impl; [exact Hf|]. cbn. lia. }
  intros H1 H2 H3. apply Hz in H1, H2, H3.
  2-4: eapply Forall_impl; [exact Hk|]; intros k (_ & ? & Hpeg); cbn; unfold MAX_MONEY in *;
       first [lia|destruct (IsPegIn k); [naive_solver lia|lia]|destruct (IsPegOut k); [naive_solver lia|lia]].
  rewrite Forall_forall in *. intros k Hin. destruct (Hk k Hin) as (_ & _ & Hpeg).
  specialize (H1 k Hin). specialize (H2 k Hin). specialize (H3 k Hin). cbn in *. split; [done|].
  split; [destruct (IsPegIn k)|destruct (IsPegOut k)]; try done; exfalso; naive_solver lia.
Qed.

Section spec.
Context `{Sha256} `{Secp256k1}.

Definition output_ok (o : CMWOutput) : Prop :=
  rangeProof o <> [] /\ Bulletproofs.Verify (o_commitment o) (rangeProof o) = true.
Definition signed (k : CMWKernel) : Prop :=
  IsNull (excess k) = false /\ VerifyExcess (excess k) (GetSignatureMessage k) (k_signature k) = true.
Definition unlocked (nBlockHeight : Z) (k : CMWKernel) : Prop := IsHeightLocked k = true -> nLockHeight k <= nBlockHeight.

Lemma BatchVerify_all v :
  Bulletproofs.BatchVerify v = true <-> Forall (fun cp => Bulletproofs.Verify cp.1 cp.2 = true) v.
Proof.
  induction v as [|[c p] v IH]; cbn; [split; [constructor|done]|].
  rewrite Forall_cons. cbn. destruct (Bulletproofs.Verify c p); cbn; [|naive_solver]. rewrite IH. naive_solver.
Qed.

(** A check of a [bool] function. *)
Lemma true_after (c : option bool) k :
  (forall r, c = Some r -> r = false) -> (c ;; k) = true <-> c = None /\ k = true.
Proof. destruct c as [r|]; [|naive_solver]. intros Hc. rewrite (Hc r eq_refl). naive_solver. Qed.

Lemma loop_false {A} (f : Z -> A -> option bool) i l r :
  (forall i x r, f i x = Some r -> r = false) -> loop f i l = Some r -> r = false.
Proof. intros Hf (j & x & _ & E & _)%loop_first. eauto. Qed.

Ltac says_false := intros ? ? ? E; inv_guard E; by injection E as <-.

Lemma VerifyRangeProofs_spec body : VerifyRangeProofs body = true <-> Forall output_ok (vOutputs body).
Proof.
  transitivity (Forall (fun o => bool_decide (rangeProof o = []) = false) (vOutputs body) /\
    Bulletproofs.BatchVerify (map (fun o => (o_commitment o, rangeProof o)) (vOutputs body)) = true).
  { unfold VerifyRangeProofs. destruct (vOutputs body) as [|o l] eqn:El; [split; [by split|done]|]. rewrite <-El.
    rewrite true_after by (intros r; apply loop_false; says_false). by rewrite loop_unless. }
  rewrite BatchVerify_all, Forall_map, <-Forall_and. apply Forall_proper; [|done].
  intros o. unfold output_ok. cbn. by rewrite bool_decide_eq_false.
Qed.

Lemma VerifyKernelSignatures_spec body : VerifyKernelSignatures body = true <-> Forall signed (vKernels body).
Proof.
  unfold VerifyKernelSignatures. rewrite true_after by (intros r; apply loop_false; says_false).
  rewrite (loop_all _ signed); [naive_solver|]. intros i k. unfold signed.
  destruct (IsNull (excess k)); [naive_solver|]. destruct (VerifyExcess _ _ _); naive_solver.
Qed.

Lemma totals_spec body :
  totals_in_range body = true <->
  0 <= GetTotalFee body <= MAX_MONEY /\ 0 <= GetTotalPegIn body <= MAX_MONEY /\ 0 <= GetTotalPegOut body <= MAX_MONEY.
Proof. unfold totals_in_range. rewrite !andb_true_iff, !mw_money_range. tauto. Qed.

(** What a transaction body must satisfy in a block and on its own. *)
Record body_valid (body : CMWTransactionBody) (offset : BlindingFactor) (state : CMWState) (nBlockHeight : Z) : Prop := {
  bv_kernels : Forall kernel_ok (vKernels body);
  bv_totals : totals_in_range body = true;
  bv_range_proofs : Forall output_ok (vOutputs body);
  bv_signed : Forall signed (vKernels body);
  bv_sum : VerifyCommitmentSum body offset = true;
  bv_inputs : Forall (fun i => HasOutput state (i_commitment i) = true) (vInputs body);
  bv_unlocked : Forall (unlocked nBlockHeight) (vKernels body)
}.

Ltac reports :=
  match goal with
  | |- forall r, loop check_kernel _ _ = Some r -> _ => intros ?; apply loop_reports, check_kernel_reports
  | |- forall r, loop (check_tx_kernel _) _ _ = Some r -> _ => intros ?; apply loop_reports, check_tx_kernel_reports
  | |- forall r, loop _ _ _ = Some r -> _ =>
      let E := fresh in intros ?; apply loop_reports; intros ? ? ? E; inv_guard E; by injection E as <-
  | |- forall r, (when ?b return_ _) = Some r -> _ => destruct b; [by intros ? [= <-]|done]
  end.
Ltac next_check := rewrite valid_after by reports.

Lemma ValidateMWBlock_spec block state h pegin pegout :
  let body := b_body block in
  IsValid (ValidateMWBlock block state h pegin pegout) = true <->
  hashPrevMWBlock block = hashLatestMWBlock state /\ IsCanonicallyOrdered body = true /\
  body_valid body (b_offset block) state h /\
  NoDup (map i_commitment (vInputs body)) /\ NoDup (map o_commitment (vOutputs body)) /\
  GetTotalPegIn body = pegin /\ GetTotalPegOut body = pegout /\
  Forall (fun i => VerifySignature i (body_GetHash body) = true) (vInputs body).
Proof.
  cbv zeta. unfold IsValid, ValidateMWBlock. rewrite bool_decide_eq_true. cbv zeta. do 8 next_check.
  rewrite !when_none, loop_when, (loop_all _ kernel_ok) by apply check_kernel_none.
  rewrite !negb_false_iff, Z.eqb_eq, VerifyRangeProofs_spec, VerifyKernelSignatures_spec.
  rewrite <-(no_duplicate 0 (map i_commitment _)), <-(no_duplicate 0 (map o_commitment _)).
  destruct (first_duplicate 0 _ (map i_commitment _)); [split; [naive_solver|by intros (_ & _ & _ & ? & _)]|].
  destruct (first_duplicate 0 _ (map o_commitment _)); [split; [naive_solver|by intros (_ & _ & _ & _ & ? & _)]|].
  do 4 next_check. rewrite !when_none, loop_when, (loop_all _ (unlocked h)).
  2: { intros i k. rewrite when_none, andb_false_iff, Z.ltb_ge. unfold unlocked. destruct (IsHeightLocked k); naive_solver. }
  rewrite !negb_false_iff, !Z.eqb_eq. split.
  - intros (? & ? & ? & ? & ? & ? & ? & ? & ? & ? & ? & ? & _). done.
  - intros (? & ? & [] & ?). naive_solver.
Qed.

(** C20. A block is valid exactly when it continues the state's latest block, is in
    canonical order, has a valid body without repeated inputs or outputs, moves the
    amounts that the transparent side pegs in and out, and each input is signed. *)
Theorem validate_block_spec block state h pegin pegout :
  let body := b_body block in
  IsValid (ValidateMWBlock block state h pegin pegout) = true <->
  hashPrevMWBlock block = hashLatestMWBlock state /\ IsCanonicallyOrdered body = true /\
  body_valid body (b_offset block) state h /\
  NoDup (map i_commitment (vInputs body)) /\ NoDup (map o_commitment (vOutputs body)) /\
  GetTotalPegIn body = pegin /\ GetTotalPegOut body = pegout /\
  Forall (fun i => VerifySignature i (body_GetHash body) = true) (vInputs body).
Proof. exact (ValidateMWBlock_spec block state h pegin pegout). Qed.

(** A transaction is valid on its own exactly when it is not empty and its body
    is valid: unlike a block, it may be out of order, repeat inputs or outputs and
    spend inputs that nobody signed. *)
Theorem validate_transaction_spec tx state h :
  IsValid (ValidateMWTransaction tx state h) = true <->
  tx_IsNull tx = false /\ body_valid (t_body tx) (t_offset tx) state h.
Proof.
  unfold IsValid, ValidateMWTransaction. rewrite bool_decide_eq_true. cbv zeta. do 7 next_check.
  rewrite !when_none, loop_when, (loop_all _ (fun k => kernel_ok k /\ unlocked h k)) by apply check_tx_kernel_none.
  rewrite !negb_false_iff, VerifyRangeProofs_spec, VerifyKernelSignatures_spec, Forall_and. split.
  - intros (? & ? & ? & ? & ? & [? ?] & ? & _). done.
  - intros (? & []). naive_solver.
Qed.

(** [CMWTransactionBody::Validate] accepts exactly the bodies with range proofs,
    kernel signatures and input signatures, no repetition and no negative fee. *)
Theorem validate_body_spec body txHash :
  Validate body txHash = true <->
  Forall output_ok (vOutputs body) /\ Forall signed (vKernels body) /\
  Forall (fun i => VerifySignature i txHash = true) (vInputs body) /\
  NoDup (map i_commitment (vInputs body)) /\ NoDup (map o_commitment (vOutputs body)) /\
  Forall (fun k => 0 <= nFee k) (vKernels body).
Proof.
  unfold Validate.
  rewrite !true_after by first [intros r; apply loop_false; says_false|intros r E; inv_guard E; by injection E as <-].
  rewrite !when_none, !negb_false_iff, loop_when, VerifyRangeProofs_spec, VerifyKernelSignatures_spec.
  rewrite <-(no_duplicate 0 (map i_commitment _)), <-(no_duplicate 0 (map o_commitment _)).
  destruct (first_duplicate 0 _ (map i_commitment _)); [split; [naive_solver|by intros (_ & _ & _ & ? & _)]|].
  destruct (first_duplicate 0 _ (map o_commitment _)); [split; [naive_solver|by intros (_ & _ & _ & _ & ? & _)]|].
  rewrite true_after by (intros r; apply loop_false; says_false).
  rewrite (loop_all _ (fun k => 0 <= nFee k)); [naive_solver|].
  intros i k. by rewrite when_none, Z.ltb_ge.
Qed.

Lemma check_kernel_errors i k r :
  check_kernel i k = Some r -> error r = MW_ERR_INVALID_KERNEL \/ error r = MW_ERR_INVALID_FEE.
Proof. unfold check_kernel. intros E. inv_guard E; injection E as <-; auto. Qed.

(** A missing output is reported at the first input that spends one, for
    blocks with fewer than 2^31 inputs. *)
Theorem missing_output_reported block state h pegin pegout :
  len (vInputs (b_body block)) < 2 ^ 31 ->
  error (ValidateMWBlock block state h pegin pegout) = MW_ERR_OUTPUT_NOT_FOUND ->
  exists i x, nInputIndex (ValidateMWBlock block state h pegin pegout) = Z.of_nat i /\
    vInputs (b_body block) !! i = Some x /\ HasOutput state (i_commitment x) = false /\
    Forall (fun y => HasOutput state (i_commitment y) = true) (take i (vInputs (b_body block))).
Proof.
  intros Hlen. unfold ValidateMWBlock. cbv zeta.
  repeat match goal with
  | |- error (match (if ?b then _ else _) with _ => _ end) = _ -> _ => destruct b; [done|]
  | |- error (match loop check_kernel 0 ?l with _ => _ end) = _ -> _ =>
      destruct (loop check_kernel 0 l) as [r|] eqn:Ek;
      [apply loop_first in Ek as (? & ? & _ & [E|E]%check_kernel_errors & _); intros; congruence|]
  end.
  destruct (loop _ 0 (vInputs (b_body block))) as [r|] eqn:El.
  - intros _. apply loop_first in El as (i & x & Hx & E & Ht). rewrite loop_when in Ht.
    destruct (HasOutput state (i_commitment x)) eqn:Eh; [done|]. injection E as <-.
    exists i, x. split; [|done]. cbn [nInputIndex failed_input]. rewrite i32_id; [lia|].
    apply lookup_lt_Some in Hx. unfold len in Hlen. lia.
  - intros E. exfalso. revert E.
    destruct (first_duplicate _ _ _); [done|]. destruct (first_duplicate _ _ _); [done|].
    repeat match goal with
    | |- error (match (if ?b then _ else _) with _ => _ end) = _ -> _ => destruct b; [done|]
    | |- error (match loop ?f 0 ?l with _ => _ end) = _ -> _ =>
        destruct (loop f 0 l) as [r|] eqn:Hl;
        [apply loop_first in Hl as (? & ? & _ & E & _); inv_guard E; by injection E as <-|clear Hl]
    end.
    done.
Qed.
End spec.

(** ** Amounts *)

Section balance.
Context `{Sha256} `{Secp256k1} `{!SecpLaws} `{!SecpGroup}.

Lemma parse_keys_app v w ks :
  parse_keys (v ++ w) = Some ks <-> exists k1 k2, parse_keys v = Some k1 /\ parse_keys w = Some k2 /\ ks = k1 ++ k2.
Proof.
  revert ks. induction v as [|c v IH]; intros ks; cbn [app parse_keys].
  - split; [intros E; by exists [], ks|by intros (? & ? & [= <-] & ? & ->)].
  - destruct (negb _); [split; [done|by intros (? & ? & ? & _)]|].
    destruct (ec_pubkey_parse c) as [k|]; [|split; [done|by intros (? & ? & ? & _)]].
    destruct (parse_keys v) as [k1|].
    + destruct (parse_keys (v ++ w)) as [k2|].
      * destruct (proj1 (IH k2) eq_refl) as (l1 & l2 & [= <-] & Hw & ->). split.
        -- intros [= <-]. by exists (k :: k1), l2.
        -- intros (? & ? & [= <-] & Hw' & ->). rewrite Hw in Hw'. by injection Hw' as <-.
      * split; [done|]. intros (? & k2 & _ & Hw & _).
        assert (None = Some (k1 ++ k2)) by (apply IH; by exists k1, k2). done.
    + destruct (parse_keys (v ++ w)) as [k2|].
      * destruct (proj1 (IH k2) eq_refl) as (l1 & l2 & ? & _). done.
      * split; [done|by intros (? & ? & ? & _)].
Qed.

(** A positive amount is committed to with a zero blinding factor, which is not a
    valid key: the commitment is null and the sum check refuses it. *)
Lemma sum_no_amounts body offset :
  VerifyCommitmentSum body offset = true ->
  GetTotalFee body <= 0 /\ GetTotalPegIn body <= 0 /\ GetTotalPegOut body <= 0.
Proof.
  unfold VerifyCommitmentSum. intros (pos & neg & Hp & Hn & _)%VerifyCommitmentSum_spec.
  unfold sum_positive, sum_negative in *. cbv zeta in *.
  apply parse_keys_app in Hp as (? & ? & _ & Hout & _).
  apply parse_keys_app in Hn as (? & ? & _ & Hn & _). apply parse_keys_app in Hn as (? & ? & _ & Hn & _).
  apply parse_keys_app in Hn as (? & ? & _ & Hn & _). apply parse_keys_app in Hn as (? & ? & Hfee & Hin & _).
  assert (forall v ks, parse_keys (if 0 <? v then [Commit v null_blind] else []) = Some ks -> v <= 0) as Hz.
  { intros v ks. destruct (Z.ltb_spec 0 v); [|lia]. rewrite Commit_null_blind, parse_keys_null by set_solver. done. }
  split; [|split]; eapply Hz; eassumption.
Qed.

(** A valid block carries no amount: its fees, its pegged-in amounts and its
    pegged-out amounts total zero, so with at most ninety-two kernels no kernel has
    a fee and none pegs in or out. *)
Theorem valid_block_no_amounts block state h pegin pegout :
  IsValid (ValidateMWBlock block state h pegin pegout) = true ->
  GetTotalFee (b_body block) = 0 /\ pegin = 0 /\ pegout = 0 /\
  (len (vKernels (b_body block)) <= 92 ->
   Forall (fun k => nFee k = 0 /\ IsPegIn k = false /\ IsPegOut k = false) (vKernels (b_body block))).
Proof.
  rewrite ValidateMWBlock_spec. intros (_ & _ & Hb & _ & _ & <- & <- & _).
  pose proof (sum_no_amounts _ _ (bv_sum _ _ _ _ Hb)) as (Hs1 & Hs2 & Hs3).
  pose proof (proj1 (totals_spec _) (bv_totals _ _ _ _ Hb)) as (Hs4 & Hs5 & Hs6).
  repeat (split; [lia|]). intros Hlen. apply zero_totals; [apply Hb|done|lia..].
Qed.

(** In a valid block the output commitments balance: their points sum to the
    points of the inputs, of the kernel excesses and of the offset. *)
Theorem valid_block_balances block state h pegin pegout :
  IsValid (ValidateMWBlock block state h pegin pegout) = true ->
  exists outs ins excesses offset,
    parse_keys (map o_commitment (vOutputs (b_body block))) = Some outs /\
    parse_keys (map i_commitment (vInputs (b_body block))) = Some ins /\
    parse_keys (map excess (vKernels (b_body block))) = Some excesses /\
    parse_keys (if IsNull (b_offset block) then [] else [CommitBlind (b_offset block)]) = Some offset /\
    point_sum (map point_of outs) =
      point_add (point_sum (map point_of ins))
        (point_add (point_sum (map point_of excesses)) (point_sum (map point_of offset))).
Proof.
  rewrite ValidateMWBlock_spec. intros (_ & _ & Hb & _).
  pose proof (sum_no_amounts _ _ (bv_sum _ _ _ _ Hb)) as (Hs1 & Hs2 & Hs3).
  apply bv_sum in Hb. unfold VerifyCommitmentSum in Hb. apply VerifyCommitmentSum_spec in Hb as (pos & neg & Hp & Hn & E).
  unfold sum_positive, sum_negative in *. cbv zeta in *.
  repeat match goal with H : context [0 <? ?v] |- _ => destruct (Z.ltb_spec 0 v); [lia|] end.
  rewrite !app_nil_r in *.
  apply parse_keys_app in Hn as (ins & k2 & Hi & Hn & ->). apply parse_keys_app in Hn as (exs & off & Hx & Ho & ->).
  exists pos, ins, exs, off. rewrite !map_app, !point_sum_app in E.
  repeat split; try done. by destruct (IsNull (b_offset block)).
Qed.
End balance.

(** The totals can pass the range check although their exact sum does not: the
    64-bit additions wrap.  185 kernels with fees in range are enough. *)
Theorem totals_check_wraps :
  exists b, Forall kernel_ok (vKernels b) /\ totals_in_range b = true /\ GetTotalFee b = 0 /\
    foldr Z.add 0 (map nFee (vKernels b)) = 2 ^ 64.
Proof.
  exists {| vInputs := []; vOutputs := [];
    vKernels := sample_kernel 0 (2 ^ 64 - 184 * MAX_MONEY) 0 4 :: replicate 184 (sample_kernel 0 MAX_MONEY 0 3) |}.
  split; [|vm_compute; auto].
  assert (forall k, nFeatures k = 0 -> 0 <= nFee k <= MAX_MONEY -> kernel_ok k) as Hk.
  { intros k Hf Hfee. unfold kernel_ok, IsCoinbase, IsPegIn, IsPegOut. rewrite Hf. cbn. by repeat split; try lia; intros [|]. }
  constructor; [|apply Forall_replicate]; apply Hk; vm_compute; split; congruence.
Qed.

(** ** Connecting a valid block *)

Section connect.
Context `{Sha256} `{Secp256k1}.

(** C32. The inputs of a valid block are unspent outputs of the state and pairwise
    different; and when the block is applied, under a hash without an undo record, to a
    state that holds no output it has also noted as spent, each of them is gone from the
    outputs and noted as spent after, and spending it in that state fails. (An output
    that is created again after it was spent breaks the premise:
    [recreated_output_respendable].) *)
Theorem valid_block_spends_once block s h pegin pegout hash d :
  IsValid (ValidateMWBlock block s h pegin pegout) = true ->
  (forall c, c ∈ setSpent s -> mapOutputs s !! c = None) -> HasUndo s hash = false ->
  let s' := (ApplyBlock s block h hash d).1 in
  NoDup (map i_commitment (vInputs (b_body block))) /\
  Forall (fun i => HasOutput s (i_commitment i) = true /\ HasOutput s' (i_commitment i) = false /\
    i_commitment i ∈ setSpent s' /\ SpendOutput s' (i_commitment i) = (s', false)) (vInputs (b_body block)).
Proof.
  rewrite ValidateMWBlock_spec. intros (_ & _ & Hb & Hnd & _) Hd Hu. split; [done|].
  apply Forall_forall. intros i Hi. pose proof (proj1 (Forall_forall _ _) (bv_inputs _ _ _ _ Hb) i Hi) as Hhas.
  split; [done|]. by apply ApplyBlock_spends.
Qed.
End connect.

(** ** Witnesses

    A block that spends one output and creates one, on the concrete curve
    interface, where the logarithm of every point is known. *)

Section witnesses.
#[local] Existing Instance log_secp.
#[local] Existing Instance log_laws.
#[local] Existing Instance log_group.
#[local] Instance toy : Sha256 := toy_sha256.

Definition proof_for (c : Commitment) : bytes :=
  let y := Bulletproofs.y_challenge c (2 :: key 3) (2 :: key 4) in
  let x := uint256_bytes (Bulletproofs.x_challenge y (2 :: key 5) (2 :: key 6)) in
  let z := uint256_bytes (Bulletproofs.z_challenge y c) in
  Bulletproofs.SerializeProof (Bulletproofs.accepted_fields
    ((be_value (drop 1 c) * be_value (Bulletproofs.ScalarMul z z) + 5 * be_value x +
      6 * be_value (Bulletproofs.ScalarMul x x)) mod ORDER)).

Definition spent_commitment : Commitment := Commit 5 (key 7).
Definition new_commitment : Commitment := Commit 5 (key 16).
Definition output_of (c : Commitment) : CMWOutput :=
  {| o_commitment := c; senderPubKey := pt 1; receiverPubKey := pt 2; rangeProof := proof_for c; o_nFeatures := 0 |}.
Definition kernel_of : CMWKernel :=
  let k := {| nFeatures := 0; nFee := 0; nPegAmount := 0; nLockHeight := 0; excess := CommitBlind (key 9);
              k_signature := null_signature; pegoutScript := [] |} in
  {| nFeatures := 0; nFee := 0; nPegAmount := 0; nLockHeight := 0; excess := CommitBlind (key 9);
     k_signature := SignExcess (key 9) (GetSignatureMessage k); pegoutScript := [] |}.
Definition body_of (sig : Signature) : CMWTransactionBody :=
  {| vInputs := [{| i_commitment := spent_commitment; outputPubKey := 2 :: key 11; i_signature := sig |}];
     vOutputs := [output_of new_commitment]; vKernels := [kernel_of] |}.
Definition signed_body : CMWTransactionBody :=
  body_of (Sign (key 11) (sha256_once (spent_commitment ++ uint256_bytes (body_GetHash (body_of null_signature))))).

Definition first_block : CMWBlock :=
  block_of {| vInputs := []; vOutputs := [output_of spent_commitment]; vKernels := [] |}.
Definition before : CMWState := (ApplyBlock fresh_state first_block 1 101 0).1.
Definition next_block (b : CMWTransactionBody) : CMWBlock :=
  {| hashPrevMWBlock := hashLatestMWBlock before; b_body := b; vCutThrough := []; nHeight := 2; b_offset := null_blind |}.

Lemma next_block_valid : IsValid (ValidateMWBlock (next_block signed_body) before 2 0 0) = true.
Proof. vm_compute. reflexivity. Qed.

Lemma before_ok : exists ls, state_ok before ls /\ len ls <= 1.
Proof.
  pose proof (ApplyBlock_ok fresh_state [] first_block 1 101 0 fresh_state_ok
    ltac:(apply room_check; vm_compute; reflexivity) ltac:(apply fresh_check; vm_compute; reflexivity)
    ltac:(vm_compute; reflexivity)) as Hap.
  unfold before. destruct (ApplyBlock fresh_state first_block 1 101 0) as [s ok]. apply Hap.
Qed.

Lemma missing_output_reported_witness :
  exists i x, nInputIndex (ValidateMWBlock {| hashPrevMWBlock := 0; b_body := signed_body; vCutThrough := [];
      nHeight := 2; b_offset := null_blind |} fresh_state 2 0 0) = Z.of_nat i /\
    vInputs signed_body !! i = Some x /\ HasOutput fresh_state (i_commitment x) = false.
Proof.
  destruct (missing_output_reported {| hashPrevMWBlock := 0; b_body := signed_body; vCutThrough := [];
      nHeight := 2; b_offset := null_blind |} fresh_state 2 0 0) as (i & x & H1 & H2 & H3 & _).
  - vm_compute. reflexivity.
  - vm_compute. reflexivity.
  - exists i, x. split; [exact H1|]. split; [exact H2|exact H3].
Defined.

Lemma valid_block_no_amounts_witness : GetTotalFee signed_body = 0 /\ Forall (fun k => nFee k = 0) [kernel_of].
Proof.
  destruct (valid_block_no_amounts (next_block signed_body) before 2 0 0 next_block_valid) as (H1 & _ & _ & H2).
  split; [exact H1|]. eapply Forall_impl; [apply H2; vm_compute; discriminate|]. intros k Hk. apply Hk.
Defined.

Lemma valid_block_balances_witness :
  exists outs ins, parse_keys [new_commitment] = Some outs /\ parse_keys [spent_commitment] = Some ins.
Proof.
  destruct (valid_block_balances (next_block signed_body) before 2 0 0 next_block_valid)
    as (outs & ins & _ & _ & H1 & H2 & _).
  exists outs, ins. split; [exact H1|exact H2].
Defined.

Lemma valid_block_spends_once_witness :
  HasOutput before spent_commitment = true /\
  HasOutput (ApplyBlock before (next_block signed_body) 2 102 0).1 spent_commitment = false.
Proof.
  destruct before_ok as (ls & Hok & Hl).
  destruct (valid_block_spends_once (next_block signed_body) before 2 0 0 102 0 next_block_valid) as [_ Hall].
  - intros c Hc. apply (ok_spent _ _ Hok c Hc).
  - vm_compute. reflexivity.
  - apply Forall_cons in Hall as [[H1 [H2 _]] _]. split; [exact H1|exact H2].
Defined.
End witnesses.

End MwValidation.
