(* ===== verification/TxInputs.v ===== *)
(** * Spending outputs ([src/main.h], [src/main.cpp], [src/txdb-leveldb.cpp])

    The index of transactions with the spent marks of their outputs, the inputs
    fetched for a transaction, their connection and disconnection, and the loop
    of a block over its transactions.  Blocks on disk are a function from
    positions to transactions; the database and the memory pool are maps. *)

From S2P Require Import Prelude Crypto Serialize BigNum Script Interpreter Standard MwModels Transactions Sighash.
Import Stream BigNum Script Interpreter Standard MwModels Transactions Sighash.

Module TxInputs.

(** ** Outcomes

    A check returns its result, is refused with the misbehaviour score it adds, or
    ends in an exception or a failed assertion. *)

Inductive outcome (A : Type) := Accept (a : A) | Reject (nDoS : Z) | Throws.
Arguments Accept {A}.
Arguments Reject {A}.
Arguments Throws {A}.

Definition obind {A B} (o : outcome A) (f : A -> outcome B) : outcome B :=
  match o with Accept a => f a | Reject d => Reject d | Throws => Throws end.
Notation "'let*' x ':=' c 'in' k" := (obind c (fun x => k)) (at level 200, x pattern, k at level 200).

(** [throw] where an optional result is missing. *)
Definition or_throw {A} (o : option A) : outcome A := match o with Some a => Accept a | None => Throws end.

Fixpoint ofold {A B} (f : A -> B -> outcome A) (l : list B) (a : A) : outcome A :=
  match l with
  | [] => Accept a
  | x :: l' => let* a' := f a x in ofold f l' a'
  end.

(** ** The index *)

Record CDiskTxPos := { nFile : Z; nBlockPos : Z; nTxPos : Z }.
#[export] Instance CDiskTxPos_eq_dec : EqDecision CDiskTxPos.
Proof. solve_decision. Defined.

Definition null_pos : CDiskTxPos := {| nFile := UINT_MAX; nBlockPos := 0; nTxPos := 0 |}.
Definition pos_IsNull (p : CDiskTxPos) : bool := nFile p =? UINT_MAX.
Definition memory_pos : CDiskTxPos := {| nFile := 1; nBlockPos := 1; nTxPos := 1 |}.

Record CTxIndex := { pos : CDiskTxPos; vSpent : list CDiskTxPos }.

Definition new_index (p : CDiskTxPos) (nOutputs : Z) : CTxIndex :=
  {| pos := p; vSpent := replicate (Z.to_nat nOutputs) null_pos |}.
Definition null_index : CTxIndex := {| pos := null_pos; vSpent := [] |}.

(** [txindex.vSpent[n] = p] *)
Definition mark (x : CTxIndex) (i : Z) (p : CDiskTxPos) : CTxIndex :=
  {| pos := pos x; vSpent := <[Z.to_nat i := p]> (vSpent x) |}.
Definition spent_at (x : CTxIndex) (i : Z) : CDiskTxPos := default null_pos (vSpent x !! Z.to_nat i).

(** The records of the database, the transactions on disk and those of the pool. *)
Abbreviation index_map := (gmap Z CTxIndex) (only parsing).
Abbreviation MapPrevTx := (gmap Z (CTxIndex * CTransaction)) (only parsing).
Record store := { txdb : index_map; ReadFromDisk : CDiskTxPos -> option CTransaction; mempool : gmap Z CTransaction }.

Definition ReadTxIndex (db : index_map) (h : uint256) : option CTxIndex := db !! h.
Definition UpdateTxIndex (db : index_map) (h : uint256) (x : CTxIndex) : index_map := <[h := x]> db.
Definition EraseTxIndex `{Sha256} (db : index_map) (tx : CTransaction) : index_map := delete (GetHash tx) db.

(** ** Fetching *)

Definition fetch_index (db : index_map) (fQueued : bool) (mapTestPool : index_map) (h : uint256) : option CTxIndex :=
  if fQueued && bool_decide (is_Some (mapTestPool !! h)) then mapTestPool !! h else ReadTxIndex db h.

(** One turn of the first loop, for the input's previous output. *)
Definition fetch_one (st : store) (fQueued : bool) (mapTestPool : index_map) (inputsRet : MapPrevTx) (i : CTxIn)
    : outcome MapPrevTx :=
  let h := hash (prevout i) in
  if bool_decide (is_Some (inputsRet !! h)) then Accept inputsRet
  else
    match fetch_index (txdb st) fQueued mapTestPool h with
    | None =>
        if fQueued then Reject 0
        else
          match mempool st !! h with
          | None => Reject 0
          | Some txPrev => Accept (<[h := (new_index null_pos (len (vout txPrev)), txPrev)]> inputsRet)
          end
    | Some txindex =>
        match (if bool_decide (pos txindex = memory_pos) then mempool st !! h else ReadFromDisk st (pos txindex)) with
        | None => Reject 0
        | Some txPrev => Accept (<[h := (txindex, txPrev)]> inputsRet)
        end
    end.

Definition in_range (x : CTxIndex * CTransaction) (i : Z) : bool :=
  (i <? len (vout x.2)) && (i <? len (vSpent x.1)).

(** One turn of the second loop; it refuses with a score where [fInvalid] is set. *)
Definition range_one (inputsRet : MapPrevTx) (_ : unit) (i : CTxIn) : outcome unit :=
  match inputsRet !! hash (prevout i) with
  | None => Throws
  | Some x => if in_range x (n (prevout i)) then Accept tt else Reject 100
  end.

(** [fQueued] is [fBlock || fMiner]. *)
Definition FetchInputs (st : store) (fQueued : bool) (mapTestPool : index_map) (tx : CTransaction) : outcome MapPrevTx :=
  if IsCoinBase tx then Accept ∅
  else
    let* inputsRet := ofold (fetch_one st fQueued mapTestPool) (vin tx) ∅ in
    let* _ := ofold (range_one inputsRet) (vin tx) tt in
    Accept inputsRet.

Definition GetOutputFor (i : CTxIn) (inputs : MapPrevTx) : outcome CTxOut :=
  match inputs !! hash (prevout i) with
  | None => Throws
  | Some (_, txPrev) => or_throw (vout txPrev !! Z.to_nat (n (prevout i)))
  end.

Definition GetValueMapIn (tx : CTransaction) (inputs : MapPrevTx) : outcome Z :=
  if IsCoinBase tx then Accept 0
  else ofold (fun nResult i => let* o := GetOutputFor i inputs in Accept (i64 (nResult + nValue o))) (vin tx) 0.

Definition GetP2SHSigOpCount (tx : CTransaction) (inputs : MapPrevTx) : outcome Z :=
  if IsCoinBase tx then Accept 0
  else
    ofold (fun nSigOps i =>
      let* o := GetOutputFor i inputs in
      Accept (if IsPayToScriptHash (scriptPubKey o)
              then u32 (nSigOps + GetSigOpCountSig (scriptPubKey o) (scriptSig i)) else nSigOps)) (vin tx) 0.

(** ** Connecting *)

(** A chain is the list of its blocks, the last one first: the entry and those that
    [pprev] leads to.  [bi_fStake], [fEntropyBit] and [fStakeModifier] are the flags
    [BLOCK_PROOF_OF_STAKE], [BLOCK_STAKE_ENTROPY] and [BLOCK_STAKE_MODIFIER]. *)
Record stake_part := {
  fEntropyBit : bool; fStakeModifier : bool; nStakeModifier : Z; nStakeModifierChecksum : Z; hashProofOfStake : uint256;
  prevoutStake : COutPoint; nStakeTime : Z }.
Record CBlockIndex := {
  nHeight : Z; bi_nFile : Z; bi_nBlockPos : Z; bi_hash : Z; bi_nTime : Z; bi_nBits : Z; bi_fStake : bool;
  nChainTrust : Z; bi_stake : stake_part }.
Definition no_stake : stake_part := {|
  fEntropyBit := false; fStakeModifier := false; nStakeModifier := 0; nStakeModifierChecksum := 0; hashProofOfStake := 0;
  prevoutStake := {| hash := 0; n := UINT_MAX |}; nStakeTime := 0 |}.
Definition nCoinbaseMaturity : Z := 10.

(** The loop over [pindex]: whether the coin's block is met within the depth. *)
Fixpoint immature (top : Z) (p : CDiskTxPos) (chain : list CBlockIndex) : bool :=
  match chain with
  | [] => false
  | b :: chain' =>
      if top - nHeight b <? nCoinbaseMaturity then
        if (bi_nBlockPos b =? nBlockPos p) && (bi_nFile b =? nFile p) then true else immature top p chain'
      else false
  end.
Definition chain_immature (p : CDiskTxPos) (chain : list CBlockIndex) : bool :=
  match chain with [] => false | b :: _ => immature (nHeight b) p chain end.

(** One turn of the first loop, on the total of the values. *)
Definition value_one (inputs : MapPrevTx) (chain : list CBlockIndex) (tx : CTransaction) (nValueIn : Z) (i : CTxIn)
    : outcome Z :=
  match inputs !! hash (prevout i) with
  | None => Throws
  | Some (txindex, txPrev) =>
      if negb (in_range (txindex, txPrev) (n (prevout i))) then Reject 100
      else if (IsCoinBase txPrev || IsCoinStake txPrev) && chain_immature (pos txindex) chain then Reject 0
      else if nTime tx <? nTime txPrev then Reject 100
      else
        let v := nValue (nth (Z.to_nat (n (prevout i))) (vout txPrev) null_txout) in
        let nValueIn := i64 (nValueIn + v) in
        if negb (MoneyRange v) || negb (MoneyRange nValueIn) then Reject 100 else Accept nValueIn
  end.

Section connecting.
Context `{OpenSSLBN} `{Sha256} `{ScriptHashes} `{OpenSSLEC}.

(** The empty stack that [VerifyScript] would look at does not occur
    ([Standard.verify_script_defined]). *)
Definition VerifySignature (txFrom txTo : CTransaction) (nIn : Z) (i : CTxIn) (nHashType : Z) : bool :=
  match vout txFrom !! Z.to_nat (n (prevout i)) with
  | None => false
  | Some txout =>
      if negb (hash (prevout i) =? GetHash txFrom) then false
      else default false (VerifyScript (H2 := checker txTo nIn nHashType) (scriptSig i) (scriptPubKey txout))
  end.

(** One turn of the second loop, on the inputs and the queued changes. *)
Definition spend_one (fQueued fVerify : bool) (posThisTx : CDiskTxPos) (tx : CTransaction)
    (st : MapPrevTx * index_map) (ni : Z * CTxIn) : outcome (MapPrevTx * index_map) :=
  let '(inputs, mapTestPool) := st in
  let '(nIn, i) := ni in
  let h := hash (prevout i) in
  match inputs !! h with
  | None => Throws
  | Some (txindex, txPrev) =>
      if negb (pos_IsNull (spent_at txindex (n (prevout i)))) then Reject 0
      else if fVerify && negb (VerifySignature txPrev tx nIn i 0) then Reject 100
      else
        let txindex := mark txindex (n (prevout i)) posThisTx in
        Accept (<[h := (txindex, txPrev)]> inputs, if fQueued then <[h := txindex]> mapTestPool else mapTestPool)
  end.

Definition indexed {A} (l : list A) : list (Z * A) := zip (seqZ 0 (len l)) l.

(** The fee of a transaction that is not a coinstake; the fee floor reads the
    height of the block. *)
Definition check_fee (fBlock : bool) (chain : list CBlockIndex) (tx : CTransaction) (nValueIn : Z) : outcome unit :=
  let* nValueOut := or_throw (GetValueOut tx) in
  if nValueIn <? nValueOut then Reject 100
  else
    let nTxFee := i64 (nValueIn - nValueOut) in
    if nTxFee <? 0 then Reject 100
    else
      match chain with
      | [] => Throws
      | b :: _ =>
          let nMinFee := GetMinFee tx 1 GMF_BLOCK 0 in
          let nTierFee := GetTxTypeFeeFloor tx (nHeight b) in
          let nMinFee := if nMinFee <? nTierFee then nTierFee else nMinFee in
          if nTxFee <? nMinFee then Reject (if fBlock then 100 else 0)
          else if negb (MoneyRange nTxFee) then Reject 100 else Accept tt
      end.

(** [fSkipSigs]: the block is below the last checkpoint.  The result is
    [mapTestPool]. *)
Definition ConnectInputs (inputs : MapPrevTx) (mapTestPool : index_map) (posThisTx : CDiskTxPos)
    (chain : list CBlockIndex) (fBlock fMiner fSkipSigs : bool) (tx : CTransaction) : outcome index_map :=
  if IsCoinBase tx then Accept mapTestPool
  else
    let* nValueIn := ofold (value_one inputs chain tx) (vin tx) 0 in
    let* st := ofold (spend_one (fBlock || fMiner) (negb (fBlock && fSkipSigs)) posThisTx tx) (indexed (vin tx))
                 (inputs, mapTestPool) in
    let* _ := (if IsCoinStake tx then Accept tt else check_fee fBlock chain tx nValueIn) in
    Accept st.2.

(** ** Disconnecting *)

Definition unspend_one (db : index_map) (i : CTxIn) : outcome index_map :=
  match ReadTxIndex db (hash (prevout i)) with
  | None => Accept db
  | Some txindex =>
      if len (vSpent txindex) <=? n (prevout i) then Reject 0
      else Accept (UpdateTxIndex db (hash (prevout i)) (mark txindex (n (prevout i)) null_pos))
  end.

Definition DisconnectInputs (db : index_map) (tx : CTransaction) : outcome index_map :=
  let* db := (if IsCoinBase tx then Accept db else ofold unspend_one (vin tx) db) in
  Accept (EraseTxIndex db tx).

(** ** The transactions of a block *)

Definition MAX_BLOCK_SIGOPS : Z := MAX_BLOCK_SIZE / 50.

Record block_state := {
  mapQueuedChanges : index_map; bs_nFees : Z; bs_nValueIn : Z; bs_nValueOut : Z; nStakeReward : Z; nSigOps : Z; bs_nTxPos : Z }.

(** One turn of the loop of [ConnectBlock]. *)
Definition connect_tx (st : store) (chain : list CBlockIndex) (fJustCheck fSkipSigs : bool) (s : block_state) (tx : CTransaction)
    : outcome block_state :=
  let hashTx := GetHash tx in
  if match ReadTxIndex (txdb st) hashTx with Some old => existsb pos_IsNull (vSpent old) | None => false end then Reject 0
  else
    let sigops := u32 (nSigOps s + GetLegacySigOpCount tx) in
    if MAX_BLOCK_SIGOPS <? sigops then Reject 100
    else
      match chain with
      | [] => Throws
      | b :: _ =>
          let posThisTx := {| nFile := bi_nFile b; nBlockPos := bi_nBlockPos b; nTxPos := bs_nTxPos s |} in
          let nTxPos := if fJustCheck then bs_nTxPos s else u32 (bs_nTxPos s + GetSerializeSize c_tx tx) in
          if IsCoinBase tx then
            let* v := or_throw (GetValueOut tx) in
            Accept {| mapQueuedChanges := <[hashTx := new_index posThisTx (len (vout tx))]> (mapQueuedChanges s);
                      bs_nFees := bs_nFees s; bs_nValueIn := bs_nValueIn s; bs_nValueOut := i64 (bs_nValueOut s + v);
                      nStakeReward := nStakeReward s; nSigOps := sigops; bs_nTxPos := nTxPos |}
          else
            let* mapInputs := FetchInputs st true (mapQueuedChanges s) tx in
            let* p2sh := GetP2SHSigOpCount tx mapInputs in
            let sigops := u32 (sigops + p2sh) in
            if MAX_BLOCK_SIGOPS <? sigops then Reject 100
            else
              let* nTxValueIn := GetValueMapIn tx mapInputs in
              let* nTxValueOut := or_throw (GetValueOut tx) in
              let* queued := ConnectInputs mapInputs (mapQueuedChanges s) posThisTx chain true false fSkipSigs tx in
              Accept {| mapQueuedChanges := <[hashTx := new_index posThisTx (len (vout tx))]> queued;
                        bs_nFees := if IsCoinStake tx then bs_nFees s else i64 (bs_nFees s + i64 (nTxValueIn - nTxValueOut));
                        bs_nValueIn := i64 (bs_nValueIn s + nTxValueIn); bs_nValueOut := i64 (bs_nValueOut s + nTxValueOut);
                        nStakeReward := if IsCoinStake tx then i64 (nTxValueOut - nTxValueIn) else nStakeReward s;
                        nSigOps := sigops; bs_nTxPos := nTxPos |}
      end.

Definition start_state (nTxPos : Z) : block_state :=
  {| mapQueuedChanges := ∅; bs_nFees := 0; bs_nValueIn := 0; bs_nValueOut := 0; nStakeReward := 0; nSigOps := 0; bs_nTxPos := nTxPos |}.

Definition connect_txs (st : store) (chain : list CBlockIndex) (fJustCheck fSkipSigs : bool) (nTxPos : Z) (vtx : list CTransaction)
    : outcome block_state :=
  ofold (connect_tx st chain fJustCheck fSkipSigs) vtx (start_state nTxPos).

(** The loop that writes the queued changes. *)
Definition flush (db : index_map) (queued : index_map) : index_map := queued ∪ db.

(** The loop of [DisconnectBlock]. *)
Definition disconnect_txs (db : index_map) (vtx : list CTransaction) : outcome index_map :=
  ofold DisconnectInputs (rev vtx) db.

End connecting.

(** * Properties *)

(** ** Loops *)

Lemma bind_accept {A B} (o : outcome A) (f : A -> outcome B) b :
  obind o f = Accept b <-> exists a, o = Accept a /\ f a = Accept b.
Proof. destruct o; cbn; naive_solver. Qed.

Lemma or_throw_accept {A} (o : option A) a : or_throw o = Accept a <-> o = Some a.
Proof. destruct o; cbn; naive_solver. Qed.

(** A property of the part of the list that was gone through. *)
Lemma ofold_ind {A B} (f : A -> B -> outcome A) (P : list B -> A -> Prop) l a b :
  P [] a -> (forall l x a a', P l a -> f a x = Accept a' -> P (l ++ [x]) a') ->
  ofold f l a = Accept b -> P l b.
Proof.
  intros H0 Hs. enough (forall l0 l a, P l0 a -> ofold f l a = Accept b -> P (l0 ++ l) b) as He by apply (He [] l a H0).
  clear H0. intros l0 l1. revert l0. induction l1 as [|x l1 IH]; intros l0 a0 H0; cbn [ofold].
  - intros [= <-]. by rewrite app_nil_r.
  - intros (a1 & E1 & E)%bind_accept. rewrite cons_middle, app_assoc. eapply IH; eauto.
Qed.

Lemma ofold_app {A B} (f : A -> B -> outcome A) l1 l2 a :
  ofold f (l1 ++ l2) a = (let* b := ofold f l1 a in ofold f l2 b).
Proof. revert a. induction l1 as [|x l1 IH]; intros a; cbn; [done|]. destruct (f a x); cbn; auto. Qed.

(** ** Marks

    An output is named by the hash of its transaction and its index; [look] is its
    mark in a map of indexes. *)

Abbreviation coin := (Z * nat)%type (only parsing).
Definition key (i : CTxIn) : coin := (hash (prevout i), Z.to_nat (n (prevout i))).
Definition look (m : index_map) (c : coin) : option CDiskTxPos := m !! c.1 ≫= fun x => vSpent x !! c.2.
Definition set_mark (p : CDiskTxPos) (m : index_map) (c : coin) : index_map :=
  alter (fun x => {| pos := pos x; vSpent := <[c.2 := p]> (vSpent x) |}) c.1 m.
Definition set_marks (p : CDiskTxPos) : index_map -> list coin -> index_map := foldl (set_mark p).

Lemma look_set_mark p m c d :
  look (set_mark p m c) d = if decide (c = d) then (fun _ => p) <$> look m d else look m d.
Proof.
  destruct c as [h k], d as [h' k']. unfold look, set_mark. cbn. destruct (decide (h = h')) as [<-|Hh].
  - rewrite lookup_alter_eq. destruct (m !! h) as [x|]; cbn; [|by destruct (decide _)].
    destruct (decide _) as [[= <-]|Hk].
    + destruct (vSpent x !! k) eqn:E; cbn.
      * apply list_lookup_insert_eq. by eapply lookup_lt_Some.
      * rewrite list_insert_ge; [done|]. by apply lookup_ge_None.
    + apply list_lookup_insert_ne. congruence.
  - rewrite lookup_alter_ne by done. by destruct (decide _); [congruence|].
Qed.

Lemma set_mark_pos p m c h : pos <$> set_mark p m c !! h = pos <$> m !! h.
Proof.
  unfold set_mark. destruct (decide (c.1 = h)) as [<-|]; [|by rewrite lookup_alter_ne].
  rewrite lookup_alter_eq. by destruct (m !! c.1).
Qed.

Lemma set_marks_cons p m c ks : set_marks p m (c :: ks) = set_marks p (set_mark p m c) ks.
Proof. done. Qed.

Lemma set_marks_pos p ks m h : pos <$> set_marks p m ks !! h = pos <$> m !! h.
Proof. revert m. induction ks as [|c ks IH]; intros m; [done|]. by rewrite set_marks_cons, IH, set_mark_pos. Qed.

Lemma look_set_marks p ks m d :
  look (set_marks p m ks) d = if decide (d ∈ ks) then (fun _ => p) <$> look m d else look m d.
Proof.
  revert m. induction ks as [|c ks IH]; intros m; [by rewrite decide_False by apply not_elem_of_nil|].
  rewrite set_marks_cons, IH, look_set_mark.
  destruct (decide (d ∈ ks)) as [Hd|Hd], (decide (c = d)) as [<-|Hc].
  - rewrite decide_True by set_solver. by destruct (look m c).
  - rewrite decide_True by set_solver. done.
  - rewrite decide_True by set_solver. done.
  - rewrite decide_False by set_solver. done.
Qed.

(** Maps with the same positions and marks are equal. *)
Lemma index_ext (m m' : index_map) :
  (forall h, pos <$> m !! h = pos <$> m' !! h) -> (forall c, look m c = look m' c) -> m = m'.
Proof.
  intros Hp Hl. apply map_eq. intros h. specialize (Hp h).
  destruct (m !! h) as [[p v]|] eqn:E, (m' !! h) as [[p' v']|] eqn:E'; cbn in Hp; try done. injection Hp as ->.
  do 2 f_equal. apply list_eq. intros k. specialize (Hl (h, k)). unfold look in Hl. cbn in Hl. by rewrite E, E' in Hl.
Qed.

(** A loop that marks outputs whose mark is null is undone by removing the marks. *)
Lemma set_marks_undo p ks m :
  Forall (fun c => look m c = Some null_pos) ks -> set_marks null_pos (set_marks p m ks) ks = m.
Proof.
  intros Hn. apply index_ext; [intros h; by rewrite !set_marks_pos|]. intros c. rewrite !look_set_marks.
  destruct (decide (c ∈ ks)) as [Hc|]; [|done]. rewrite Forall_forall in Hn. by rewrite (Hn c Hc).
Qed.

Lemma insert_mark (m : index_map) h x i p :
  m !! h = Some x -> <[h := mark x i p]> m = set_mark p m (h, Z.to_nat i).
Proof.
  intros Hx. apply map_eq. intros h'. unfold set_mark. cbn. destruct (decide (h = h')) as [<-|].
  - by rewrite lookup_insert_eq, lookup_alter_eq, Hx.
  - by rewrite lookup_insert_ne, lookup_alter_ne.
Qed.

(** ** The loop that marks *)

Definition indexes (inputs : MapPrevTx) : index_map := fst <$> inputs.

Lemma indexes_insert inputs h x t : indexes (<[h := (x, t)]> inputs) = <[h := x]> (indexes inputs).
Proof. unfold indexes. by rewrite fmap_insert. Qed.

Section connecting.
Context `{OpenSSLBN} `{Sha256} `{ScriptHashes} `{OpenSSLEC}.

Lemma spend_one_accept q v p tx inputs pool ni inputs' pool' :
  spend_one q v p tx (inputs, pool) ni = Accept (inputs', pool') ->
  exists x t, inputs !! hash (prevout ni.2) = Some (x, t) /\ pos_IsNull (spent_at x (n (prevout ni.2))) = true /\
    (v = true -> VerifySignature t tx ni.1 ni.2 0 = true) /\
    inputs' = <[hash (prevout ni.2) := (mark x (n (prevout ni.2)) p, t)]> inputs /\
    pool' = if q then <[hash (prevout ni.2) := mark x (n (prevout ni.2)) p]> pool else pool.
Proof.
  destruct ni as [k i]. cbn [spend_one fst snd]. destruct (inputs !! hash (prevout i)) as [[x t]|]; [|done].
  destruct (pos_IsNull _) eqn:En; [|done]. cbn [negb]. destruct (v && _) eqn:Ev; [done|]. intros [= <- <-].
  exists x, t. repeat split; auto. intros ->. cbn in Ev. by apply negb_false_iff in Ev.
Qed.

Definition unspent (m : index_map) (c : coin) : Prop := exists q, look m c = Some q /\ pos_IsNull q = true.

(** The outputs that are marked were unspent and are pairwise different. *)
Lemma spend_loop q v p tx l inputs pool inputs' pool' :
  ofold (spend_one q v p tx) l (inputs, pool) = Accept (inputs', pool') -> pos_IsNull p = false ->
  Forall (fun ni => is_Some (look (indexes inputs) (key ni.2))) l ->
  NoDup (map (key ∘ snd) l) /\ Forall (unspent (indexes inputs)) (map (key ∘ snd) l) /\
  indexes inputs' = set_marks p (indexes inputs) (map (key ∘ snd) l).
Proof.
  intros E Hp. revert inputs pool E. induction l as [|ni l IH]; intros inputs pool E Hl.
  { cbn in E. injection E as <- <-. repeat constructor. }
  cbn [ofold] in E. apply bind_accept in E as ([inputs1 pool1] & E1 & E).
  apply spend_one_accept in E1 as (x & t & Hx & Hn & _ & -> & _).
  apply Forall_cons in Hl as [[r Hr] Hl].
  assert (indexes inputs !! hash (prevout ni.2) = Some x) as Hix by (unfold indexes; by rewrite lookup_fmap, Hx).
  assert (vSpent x !! Z.to_nat (n (prevout ni.2)) = Some r) as Hs.
  { unfold look, key in Hr. cbn in Hr. by rewrite Hix in Hr. }
  unfold spent_at in Hn. rewrite Hs in Hn. cbn in Hn.
  specialize (IH _ _ E). rewrite indexes_insert, (insert_mark _ _ _ _ _ Hix) in IH. fold (key ni.2) in IH.
  destruct IH as (Hnd & Hun & Hi).
  { eapply Forall_impl; [exact Hl|]. intros m [r' Hr']. rewrite look_set_mark, Hr'. destruct (decide _); eauto. }
  cbn [map]. split_and!.
  - apply NoDup_cons. split; [|done]. intros Hin. rewrite Forall_forall in Hun. destruct (Hun _ Hin) as (u & Hu & Hu').
    rewrite look_set_mark in Hu. cbn in Hu. rewrite decide_True in Hu by done. rewrite Hr in Hu. injection Hu as <-. congruence.
  - constructor; [by exists r|]. eapply Forall_impl; [exact Hun|]. intros c (u & Hu & Hu'). rewrite look_set_mark in Hu.
    destruct (decide _); [|by exists u]. destruct (look (indexes inputs) c); [|done]. injection Hu as <-. congruence.
  - exact Hi.
Qed.

(** What is queued follows the inputs. *)
Lemma spend_loop_queued v p tx db l inputs pool inputs' pool' :
  ofold (spend_one true v p tx) l (inputs, pool) = Accept (inputs', pool') ->
  indexes inputs ⊆ flush db pool ->
  flush db pool' = set_marks p (flush db pool) (map (key ∘ snd) l).
Proof.
  revert inputs pool. induction l as [|ni l IH]; intros inputs pool E Hs.
  { cbn in E. by injection E as <- <-. }
  cbn [ofold] in E. apply bind_accept in E as ([inputs1 pool1] & E1 & E).
  apply spend_one_accept in E1 as (x & t & Hx & _ & _ & -> & ->). cbn [map]. rewrite set_marks_cons.
  assert (flush db pool !! hash (prevout ni.2) = Some x) as Hd.
  { eapply lookup_weaken; [|exact Hs]. unfold indexes. by rewrite lookup_fmap, Hx. }
  assert (flush db (<[hash (prevout ni.2) := mark x (n (prevout ni.2)) p]> pool) = set_mark p (flush db pool) (key ni.2)) as Hf.
  { unfold flush. rewrite <-insert_union_l. by apply insert_mark. }
  change (key ni.2) with ((key ∘ snd) ni) in Hf. rewrite <-Hf. apply (IH _ _ E). rewrite indexes_insert. unfold flush at 1. rewrite <-insert_union_l. by apply insert_mono.
Qed.
End connecting.

(** ** What is fetched *)

(** Indexes of outputs are unsigned. *)
Definition unsigned (tx : CTransaction) : Prop := Forall (fun i => 0 <= n (prevout i)) (vin tx).

Lemma in_range_look inputs i x t :
  inputs !! hash (prevout i) = Some (x, t) -> in_range (x, t) (n (prevout i)) = true -> 0 <= n (prevout i) ->
  is_Some (look (indexes inputs) (key i)).
Proof.
  intros Hx Hr Hn. unfold look, key, indexes. cbn. rewrite lookup_fmap, Hx. cbn. apply lookup_lt_is_Some.
  unfold in_range, len in Hr. cbn [fst snd] in Hr. apply andb_prop in Hr as [_ Hr]. lia.
Qed.

Lemma fetch_index_queued db pool h : fetch_index db true pool h = flush db pool !! h.
Proof.
  unfold fetch_index, flush, ReadTxIndex. rewrite lookup_union. cbn [andb]. destruct (pool !! h) as [x|], (db !! h); done.
Qed.

Lemma fetch_spec st pool tx inputs :
  FetchInputs st true pool tx = Accept inputs -> IsCoinBase tx = false -> unsigned tx ->
  indexes inputs ⊆ flush (txdb st) pool /\ Forall (fun i => is_Some (look (indexes inputs) (key i))) (vin tx).
Proof.
  intros E Hc Hu. unfold FetchInputs in E. rewrite Hc in E. apply bind_accept in E as (m & E1 & E). apply bind_accept in E as (u & E2 & E).
  injection E as <-. split.
  - revert E1. apply (ofold_ind _ (fun _ m => indexes m ⊆ flush (txdb st) pool)); [unfold indexes; rewrite fmap_empty; apply map_empty_subseteq|].
    intros l i a a' IH. unfold fetch_one. destruct (bool_decide _); [by intros [= <-]|]. rewrite fetch_index_queued.
    destruct (flush (txdb st) pool !! _) as [x|] eqn:Ex; [|done]. destruct (if bool_decide _ then _ else _) as [t|]; [|done].
    intros [= <-]. rewrite indexes_insert. by apply insert_subseteq_l.
  - apply (ofold_ind (range_one m) (fun l _ => Forall (fun i => 0 <= n (prevout i)) l ->
      Forall (fun i => is_Some (look (indexes m) (key i))) l) (vin tx) tt u); [by intros _| |done|done].
    intros l i [] [] IH Er Hl. apply Forall_app in Hl as [Hl Hi]. apply Forall_app. split; [by apply IH|].
    constructor; [|constructor]. unfold range_one in Er. destruct (m !! _) as [[x t]|] eqn:Ex; [|done].
    destruct (in_range _ _) eqn:Ei; [|done]. eapply in_range_look; eauto. by inversion Hi.
Qed.

(** ** What is spent *)

(** The output an input spends: it exists, its transaction is mature and not newer,
    and its value is an amount of money. *)
Definition spends (inputs : MapPrevTx) (chain : list CBlockIndex) (tx : CTransaction) (i : CTxIn) (o : CTxOut) : Prop :=
  exists x t, inputs !! hash (prevout i) = Some (x, t) /\ in_range (x, t) (n (prevout i)) = true /\
    o = nth (Z.to_nat (n (prevout i))) (vout t) null_txout /\
    (IsCoinBase t || IsCoinStake t) && chain_immature (pos x) chain = false /\ nTime t <= nTime tx /\
    0 <= nValue o <= MAX_MONEY.

Lemma value_loop inputs chain tx l a v :
  ofold (value_one inputs chain tx) l a = Accept v -> 0 <= a <= MAX_MONEY ->
  exists coins, Forall2 (spends inputs chain tx) l coins /\ v = a + values coins /\ v <= MAX_MONEY.
Proof.
  revert a. induction l as [|i l IH]; intros a E Ha; cbn [ofold] in E.
  { injection E as <-. exists []. split_and!; [constructor|cbn; lia|lia]. }
  apply bind_accept in E as (b & E1 & E). unfold value_one in E1.
  destruct (inputs !! hash (prevout i)) as [[x t]|] eqn:Ex; [|done].
  destruct (in_range (x, t) _) eqn:Ei; [|done]. cbn [negb] in E1.
  destruct (_ && chain_immature _ _) eqn:Em; [done|]. destruct (Z.ltb_spec (nTime tx) (nTime t)); [done|]. cbv zeta in E1.
  set (o := nth _ _ _) in E1. destruct (MoneyRange (nValue o)) eqn:Eo; [|done]. apply MoneyRange_true in Eo.
  assert (MAX_MONEY = 100000000000000000) as HM by done. rewrite i64_id in E1 by lia. cbn [negb orb] in E1.
  destruct (MoneyRange (a + nValue o)) eqn:Es; [|done]. injection E1 as <-. apply MoneyRange_true in Es.
  destruct (IH _ E Es) as (coins & Hc & -> & Hv). exists (o :: coins). split; [|split; [cbn; fold (values coins); lia|lia]].
  constructor; [|done]. exists x, t. repeat (split; [solve [assumption | reflexivity | lia]|]). lia.
Qed.

Lemma min_fee_one tx : GetMinFee tx 1 GMF_BLOCK 0 = MIN_TX_FEE.
Proof. by destruct (existsb (fun o => nValue o <? CENT) (vout tx)) eqn:E; unfold GetMinFee; rewrite E. Qed.

Lemma value_out_range tx v : GetValueOut tx = Some v -> 0 <= v <= MAX_MONEY.
Proof.
  enough (forall a, 0 <= a <= MAX_MONEY -> fold_left add_value (vout tx) (Some a) = Some v -> 0 <= v <= MAX_MONEY) as He
    by (intros E; by apply (He 0)).
  induction (vout tx) as [|o l IH]; intros a Ha; cbn [fold_left]; [by intros [= <-]|]. cbn [add_value]. cbv zeta.
  destruct (negb (MoneyRange (nValue o)) || negb (MoneyRange (i64 (a + nValue o)))) eqn:E; [by rewrite add_values_none|].
  apply IH. apply orb_false_iff in E as [_ E%negb_false_iff]. by apply MoneyRange_true in E.
Qed.

Lemma check_fee_accept fBlock chain tx v :
  check_fee fBlock chain tx v = Accept tt ->
  exists out b rest, GetValueOut tx = Some out /\ chain = b :: rest /\
    i64 (v - out) <= MAX_MONEY /\ Z.max MIN_TX_FEE (GetTxTypeFeeFloor tx (nHeight b)) <= i64 (v - out) /\ out <= v.
Proof.
  unfold check_fee. intros (out & Ho & E)%bind_accept. apply or_throw_accept in Ho.
  destruct (Z.ltb_spec v out); [done|]. cbv zeta in E. destruct (Z.ltb_spec (i64 (v - out)) 0); [done|].
  destruct chain as [|b rest]; [done|]. rewrite min_fee_one in E.
  destruct (Z.ltb_spec (i64 (v - out)) (if MIN_TX_FEE <? GetTxTypeFeeFloor tx (nHeight b) then GetTxTypeFeeFloor tx (nHeight b) else MIN_TX_FEE)) as [|Hf]; [done|].
  destruct (MoneyRange _) eqn:Em; [|done]. apply MoneyRange_true in Em. exists out, b, rest.
  split_and!; auto; [lia|]. destruct (Z.ltb_spec MIN_TX_FEE (GetTxTypeFeeFloor tx (nHeight b))); lia.
Qed.

Lemma indexed_snd {A} (l : list A) : map snd (indexed l) = l.
Proof.
  unfold indexed. change (map snd) with (fmap (M := list) (A := Z * A) snd). apply snd_zip. rewrite length_seqZ. unfold len. lia.
Qed.

Lemma indexed_keys (l : list CTxIn) : map (key ∘ snd) (indexed l) = map key l.
Proof. rewrite <-(indexed_snd l) at 2. by rewrite map_map. Qed.

Lemma indexed_look inputs chain tx coins :
  Forall2 (spends inputs chain tx) (vin tx) coins -> unsigned tx ->
  Forall (fun ni => is_Some (look (indexes inputs) (key ni.2))) (indexed (vin tx)).
Proof.
  intros Hc Hu. apply (Forall_map snd (fun i => is_Some (look (indexes inputs) (key i)))). change (fmap (M := list)) with @map. rewrite indexed_snd.
  unfold unsigned in Hu. revert Hu. induction Hc as [|i o l os (x & t & Hx & Hr & _) _ IH]; intros Hu; [constructor|].
  apply Forall_cons in Hu as [Hi Hu]. constructor; [|by apply IH]. by eapply in_range_look.
Qed.

Section connected.
Context `{OpenSSLBN} `{Sha256} `{ScriptHashes} `{OpenSSLEC}.

Lemma ConnectInputs_accept inputs pool p chain fBlock fMiner fSkipSigs tx pool' :
  ConnectInputs inputs pool p chain fBlock fMiner fSkipSigs tx = Accept pool' -> IsCoinBase tx = false ->
  exists coins inputs',
    Forall2 (spends inputs chain tx) (vin tx) coins /\
    ofold (spend_one (fBlock || fMiner) (negb (fBlock && fSkipSigs)) p tx) (indexed (vin tx)) (inputs, pool) = Accept (inputs', pool') /\
    values coins <= MAX_MONEY /\ (IsCoinStake tx = false -> check_fee fBlock chain tx (values coins) = Accept tt).
Proof.
  intros E Hc. unfold ConnectInputs in E. rewrite Hc in E.
  apply bind_accept in E as (v & (coins & Hco & -> & Hm)%value_loop & E); [|by vm_compute].
  apply bind_accept in E as ([inputs' pool1] & Es & E). apply bind_accept in E as ([] & Ef & E). injection E as <-.
  exists coins, inputs'. split_and!; [done..|]. intros Hk. by rewrite Hk in Ef.
Qed.

(** C22. A transaction that is no coinbase, whose input indices are not negative, and
    that [ConnectInputs] connects at a place that is not null, spends outputs that
    exist, are mature, carry amounts of money, were unspent and are pairwise different;
    unless it is a coinstake, they pay for its outputs and for the required fee. *)
Theorem connect_inputs_sound inputs pool p chain fBlock fMiner fSkipSigs tx pool' :
  ConnectInputs inputs pool p chain fBlock fMiner fSkipSigs tx = Accept pool' ->
  IsCoinBase tx = false -> unsigned tx -> pos_IsNull p = false ->
  NoDup (map key (vin tx)) /\ Forall (unspent (indexes inputs)) (map key (vin tx)) /\
  exists coins, Forall2 (spends inputs chain tx) (vin tx) coins /\
    (IsCoinStake tx = false ->
     exists out b rest, GetValueOut tx = Some out /\ chain = b :: rest /\
    out + Z.max MIN_TX_FEE (GetTxTypeFeeFloor tx (nHeight b)) <= values coins).
Proof.
  intros E Hc Hu Hp. apply ConnectInputs_accept in E as (coins & inputs' & Hco & Es & Hv & Hf); [|done].
  apply spend_loop in Es as (Hnd & Hun & _); [|done|by eapply indexed_look]. rewrite indexed_keys in Hnd, Hun.
  split_and!; [done..|]. exists coins. split; [done|]. intros Hk.
  apply Hf, check_fee_accept in Hk as (out & b & rest & Ho & -> & Hm & Hfee & Hle). exists out, b, rest.
  split_and!; auto. apply value_out_range in Ho. assert (MAX_MONEY = 100000000000000000) as HM by done.
  rewrite i64_id in Hfee by lia. lia.
Qed.
End connected.

(** ** Blocks *)

Lemma Accept_inj {A} (a b : A) : Accept a = Accept b -> a = b.
Proof. by intros [= ->]. Qed.

Section blocks.
Context `{OpenSSLBN} `{Sha256} `{ScriptHashes} `{OpenSSLEC}.
Context (st : store) (chain : list CBlockIndex) (fJustCheck fSkipSigs : bool).
Context (on_disk : match chain with [] => True | b :: _ => bi_nFile b <> UINT_MAX end).

Definition spent_by (tx : CTransaction) : list coin := if IsCoinBase tx then [] else map key (vin tx).

(** The indexes as they stand while the block is connected. *)
Definition current (s : block_state) : index_map := flush (txdb st) (mapQueuedChanges s).

(** What connecting one transaction does to the indexes. *)
Lemma connect_tx_marks s tx s' :
  connect_tx st chain fJustCheck fSkipSigs s tx = Accept s' -> unsigned tx ->
  exists p, pos_IsNull p = false /\
    current s' = <[GetHash tx := new_index p (len (vout tx))]> (set_marks p (current s) (spent_by tx)) /\
    NoDup (spent_by tx) /\ Forall (unspent (current s)) (spent_by tx) /\
    (forall x, txdb st !! GetHash tx = Some x -> existsb pos_IsNull (vSpent x) = false).
Proof.
  unfold connect_tx, spent_by. cbv zeta. intros E Hu.
  assert (forall x, txdb st !! GetHash tx = Some x -> existsb pos_IsNull (vSpent x) = false) as Hold.
  { intros x Hx. unfold ReadTxIndex in E. rewrite Hx in E. by destruct (existsb _ _). }
  destruct (match ReadTxIndex _ _ with Some _ => _ | None => _ end); [done|]. destruct (MAX_BLOCK_SIGOPS <? _); [done|].
  destruct chain as [|b rest]; [done|]. set (p := {| nFile := _; nBlockPos := _; nTxPos := _ |}) in E.
  assert (pos_IsNull p = false) as Hp by exact (proj2 (Z.eqb_neq _ _) on_disk).
  exists p. destruct (IsCoinBase tx) eqn:Hc.
  { apply bind_accept in E as (v & _ & E). apply Accept_inj in E as <-. split; [exact Hp|]. split; [|split; [constructor|split; [constructor|exact Hold]]].
    unfold current, flush. cbn [mapQueuedChanges]. symmetry. apply insert_union_l. }
  apply bind_accept in E as (inputs & Hf & E). apply bind_accept in E as (sig & _ & E).
  destruct (MAX_BLOCK_SIGOPS <? _); [done|]. apply bind_accept in E as (vi & _ & E). apply bind_accept in E as (vo & _ & E).
  apply bind_accept in E as (queued & Hq & E). apply Accept_inj in E as <-.
  apply fetch_spec in Hf as [Hsub Hlook]; [|done..].
  apply ConnectInputs_accept in Hq as (coins & inputs' & Hco & Hs & _); [|done].
  pose proof (spend_loop_queued _ _ _ _ _ _ _ _ _ Hs Hsub) as Hq. 
  apply spend_loop in Hs as (Hnd & Hun & _); [|done|by eapply indexed_look]. rewrite indexed_keys in *.
  split; [exact Hp|]. split; [|split; [exact Hnd|split; [|exact Hold]]].
  - unfold current, flush in *. cbn [mapQueuedChanges]. rewrite <-insert_union_l, Hq. reflexivity.
  - eapply Forall_impl; [exact Hun|]. intros c (q & Hl & Hn). exists q. split; [|done]. revert Hl. unfold look.
    destruct (indexes inputs !! c.1) as [x|] eqn:Ex; [|done]. unfold current. pose proof (lookup_weaken _ _ _ _ Ex Hsub) as Hw.
    intros Hl. etransitivity; [|exact Hl]. by rewrite Hw.
Qed.

Definition spent_in (l : list CTransaction) : list coin := concat (map spent_by l).

(** An output that was there before, or of a transaction of the block. *)
Definition available (l : list CTransaction) (c : coin) : Prop := c.1 ∈ map GetHash l \/ unspent (txdb st) c.

Record connected (l : list CTransaction) (s : block_state) : Prop := {
  cn_once : NoDup (spent_in l);
  cn_marked : Forall (fun c => exists q, look (current s) c = Some q /\ pos_IsNull q = false) (spent_in l);
  cn_available : Forall (available l) (spent_in l);
  cn_unspent : forall c, unspent (current s) c -> available l c }.

Lemma connected_start nTxPos : connected [] (start_state nTxPos).
Proof.
  assert (current (start_state nTxPos) = txdb st) as Hs by (unfold current, flush; cbn; by rewrite (left_id_L ∅ (∪))).
  split; [constructor..|]. intros c Hc. right. by rewrite Hs in Hc.
Qed.

Lemma look_insert m h x c : look (<[h := x]> m) c = if decide (h = c.1) then vSpent x !! c.2 else look m c.
Proof.
  unfold look. destruct (decide (h = c.1)) as [->|]; [by rewrite lookup_insert_eq|by rewrite lookup_insert_ne].
Qed.

Lemma spent_in_snoc l tx : spent_in (l ++ [tx]) = spent_in l ++ spent_by tx.
Proof. unfold spent_in. rewrite map_app, concat_app. cbn [map concat]. by rewrite app_nil_r. Qed.

Lemma connected_step l s tx s' :
  connected l s -> connect_tx st chain fJustCheck fSkipSigs s tx = Accept s' -> unsigned tx ->
  GetHash tx ∉ map GetHash l -> connected (l ++ [tx]) s'.
Proof.
  intros [Ho Hm Ha Hun] E Hu Hh. apply connect_tx_marks in E as (p & Hp & Hc & Hnd & Hus & Hold); [|done].
  assert (forall c, available l c -> available (l ++ [tx]) c) as Hmono.
  { intros c [Hin|Hin]; [left|by right]. rewrite map_app. set_solver. }
  assert (Forall (available l) (spent_by tx)) as Hat by (eapply Forall_impl; [exact Hus|auto]).
  assert (forall c, available l c -> c.1 <> GetHash tx) as Hne.
  { intros c [Hin|(q & Hl & Hn)] Heq; [by rewrite Heq in Hin|]. unfold look in Hl. rewrite Heq in Hl.
    destruct (txdb st !! GetHash tx) as [x|] eqn:Ex; [|done]. cbn in Hl. specialize (Hold x eq_refl).
    rewrite <-not_true_iff_false in Hold. apply Hold, existsb_exists. exists q. split; [|done].
    apply list_elem_of_In. by eapply list_elem_of_lookup_2. }
  split; rewrite ?spent_in_snoc.
  - apply NoDup_app. split_and!; [done| |done]. intros c Hc1 Hc2. rewrite Forall_forall in Hm, Hus.
    destruct (Hm c Hc1) as (q & Hq & Hqn). destruct (Hus c Hc2) as (r & Hr & Hrn). congruence.
  - rewrite Hc. apply Forall_app. split; apply Forall_forall; intros c Hin; rewrite look_insert.
    + rewrite decide_False by (apply not_eq_sym, Hne; by rewrite Forall_forall in Ha; apply Ha). rewrite look_set_marks.
      rewrite Forall_forall in Hm. destruct (Hm c Hin) as (q & -> & Hqn). destruct (decide _); [by exists p|by exists q].
    + rewrite decide_False by (apply not_eq_sym, Hne; by rewrite Forall_forall in Hat; apply Hat). rewrite look_set_marks, decide_True by done.
      rewrite Forall_forall in Hus. destruct (Hus c Hin) as (q & -> & _). by exists p.
  - apply Forall_app. split; eapply Forall_impl; eauto.
  - intros c (q & Hq & Hqn). rewrite Hc, look_insert in Hq. destruct (decide (GetHash tx = c.1)) as [He|He].
    + left. rewrite map_app, <-He. set_solver.
    + apply Hmono, Hun. rewrite look_set_marks in Hq. exists q. destruct (decide _); [|done].
      destruct (look (current s) c); [|done]. injection Hq as <-. congruence.
Qed.

Lemma connected_all l s nTxPos :
  connect_txs st chain fJustCheck fSkipSigs nTxPos l = Accept s ->
  Forall unsigned l -> NoDup (map GetHash l) -> connected l s.
Proof.
  intros E Hu Hnd. unfold connect_txs in E. revert Hu Hnd. revert E.
  apply (ofold_ind _ (fun l s => Forall unsigned l -> NoDup (map GetHash l) -> connected l s));
    [intros _ _; apply connected_start|].
  intros l1 tx a a' IH E Hu Hnd. apply Forall_app in Hu as [Hu Htx]. rewrite map_app in Hnd.
  apply NoDup_app in Hnd as (Hnd & Hx & _). eapply connected_step; [by apply IH|exact E|by inversion Htx|].
  intros Hin. apply (Hx _ Hin). set_solver.
Qed.

(** C13. No output is spent twice in a block whose transactions the loop of
    [ConnectBlock] connects, where their hashes are different and the indices of their
    inputs not negative: the outputs they spend are pairwise different across the block,
    each was unspent in the database or is of a transaction of the block, and each is
    marked as spent in the index that is written. *)
Theorem block_spends_once nTxPos vtx s :
  connect_txs st chain fJustCheck fSkipSigs nTxPos vtx = Accept s ->
  Forall unsigned vtx -> NoDup (map GetHash vtx) ->
  NoDup (spent_in vtx) /\ Forall (available vtx) (spent_in vtx) /\
  Forall (fun c => ~ unspent (flush (txdb st) (mapQueuedChanges s)) c) (spent_in vtx).
Proof.
  intros E Hu Hnd. destruct (connected_all _ _ _ E Hu Hnd) as [Ho Hm Ha _]. split_and!; [done..|].
  eapply Forall_impl; [exact Hm|]. intros c (q & Hq & Hn) (r & Hr & Hr'). unfold current in Hq. congruence.
Qed.

End blocks.

(** ** Disconnecting a block *)

Lemma set_mark_insert_ne p m h x c : c.1 <> h -> set_mark p (<[h := x]> m) c = <[h := x]> (set_mark p m c).
Proof. intros Hn. unfold set_mark. apply alter_insert_ne. congruence. Qed.

Lemma set_marks_insert_ne p m h x ks :
  Forall (fun c => c.1 <> h) ks -> set_marks p (<[h := x]> m) ks = <[h := x]> (set_marks p m ks).
Proof.
  intros Hn. revert m. induction Hn as [|c ks Hc _ IH]; intros m; [done|].
  rewrite !set_marks_cons, set_mark_insert_ne by done. apply IH.
Qed.

Lemma set_marks_none p m ks h : set_marks p m ks !! h = None <-> m !! h = None.
Proof. rewrite <-!(fmap_None pos). by rewrite set_marks_pos. Qed.

Lemma unspend_loop l m :
  Forall (fun i => 0 <= n (prevout i)) l -> Forall (fun c => is_Some (look m c)) (map key l) ->
  ofold unspend_one l m = Accept (set_marks null_pos m (map key l)).
Proof.
  revert m. induction l as [|i l IH]; intros m Hu Hl; [done|]. apply Forall_cons in Hu as [Hi Hu].
  cbn [map] in Hl. apply Forall_cons in Hl as [[q Hq] Hl]. cbn [ofold map]. rewrite set_marks_cons.
  unfold look, key in Hq. cbn in Hq. destruct (m !! hash (prevout i)) as [x|] eqn:Ex; [|done]. cbn in Hq.
  assert (unspend_one m i = Accept (set_mark null_pos m (key i))) as ->.
  { unfold unspend_one, ReadTxIndex, UpdateTxIndex. rewrite Ex. apply lookup_lt_Some in Hq. unfold len.
    destruct (Z.leb_spec (Z.of_nat (length (vSpent x))) (n (prevout i))); [lia|]. by rewrite (insert_mark _ _ _ _ _ Ex). }
  cbn [obind]. apply IH; [done|]. eapply Forall_impl; [exact Hl|]. intros c [r Hr]. rewrite look_set_mark, Hr.
  destruct (decide _); cbn; eauto.
Qed.

(** Null marks are those of [SetNull]. *)
Definition canonical_marks (m : index_map) : Prop := forall c q, look m c = Some q -> pos_IsNull q = true -> q = null_pos.

Section blocks.
Context `{OpenSSLBN} `{Sha256} `{ScriptHashes} `{OpenSSLEC}.
Context (st : store) (chain : list CBlockIndex) (fJustCheck fSkipSigs : bool).
Context (on_disk : match chain with [] => True | b :: _ => bi_nFile b <> UINT_MAX end).

Lemma disconnect_step s tx s' :
  connect_tx st chain fJustCheck fSkipSigs s tx = Accept s' -> unsigned tx ->
  canonical_marks (current st s) -> current st s !! GetHash tx = None ->
  DisconnectInputs (current st s') tx = Accept (current st s) /\ canonical_marks (current st s') /\
  forall h, current st s' !! h = None <-> h <> GetHash tx /\ current st s !! h = None.
Proof using on_disk.
  intros E Hu Hcan Hnew. apply connect_tx_marks in E as (p & Hp & Hc & _ & Hun & _); [|done..].
  assert (Forall (fun c => c.1 <> GetHash tx) (spent_by tx)) as Hne.
  { eapply Forall_impl; [exact Hun|]. intros c (q & Hq & _) Heq. unfold look in Hq. by rewrite Heq, Hnew in Hq. }
  rewrite Hc. split_and!.
  - assert (forall m, Forall (fun c => is_Some (look m c)) (spent_by tx) ->
      DisconnectInputs m tx = Accept (delete (GetHash tx) (set_marks null_pos m (spent_by tx)))) as ->.
    { intros m Hm. unfold DisconnectInputs, spent_by, EraseTxIndex in *. destruct (IsCoinBase tx); [done|].
      by rewrite unspend_loop by done. }
    + rewrite set_marks_insert_ne by done. rewrite set_marks_undo.
      * by rewrite delete_insert_id.
      * eapply Forall_impl; [exact Hun|]. intros c (q & Hq & Hqn). rewrite Hq. f_equal. eauto.
    + apply Forall_forall. intros c Hin. rewrite Forall_forall in Hun, Hne. destruct (Hun c Hin) as (q & Hq & _).
      rewrite look_insert, decide_False by (apply not_eq_sym, Hne; done). rewrite look_set_marks, Hq. by destruct (decide _).
  - intros c q Hq Hqn. rewrite look_insert in Hq. destruct (decide _).
    + cbn [vSpent new_index] in Hq. by apply lookup_replicate in Hq as [-> _].
    + rewrite look_set_marks in Hq. destruct (decide _); [|by eapply Hcan].
      destruct (look _ c); [|done]. cbn in Hq. injection Hq as <-. congruence.
  - intros h. rewrite lookup_insert_None, set_marks_none. naive_solver.
Qed.

(** Disconnecting a block undoes its connection: the indexes that were written
    become those from before the block, when its transactions are new and null
    marks are written as [SetNull] writes them. *)
Theorem block_disconnect_restores nTxPos vtx s :
  connect_txs st chain fJustCheck fSkipSigs nTxPos vtx = Accept s ->
  Forall unsigned vtx -> NoDup (map GetHash vtx) -> Forall (fun tx => txdb st !! GetHash tx = None) vtx ->
  canonical_marks (txdb st) ->
  disconnect_txs (flush (txdb st) (mapQueuedChanges s)) vtx = Accept (txdb st).
Proof using on_disk.
  intros E Hu Hnd Hnew Hcan.
  enough (canonical_marks (current st s) /\ disconnect_txs (current st s) vtx = Accept (txdb st) /\
    forall h, current st s !! h = None <-> (h ∉ map GetHash vtx) /\ (txdb st !! h = None)) as (_ & Hd & _) by exact Hd.
  revert Hu Hnd Hnew. unfold connect_txs in E. revert E.
  apply (ofold_ind _ (fun l s => Forall unsigned l -> NoDup (map GetHash l) -> Forall (fun tx => txdb st !! GetHash tx = None) l ->
    canonical_marks (current st s) /\ disconnect_txs (current st s) l = Accept (txdb st) /\
    forall h, current st s !! h = None <-> (h ∉ map GetHash l) /\ (txdb st !! h = None))).
  - intros _ _ _. assert (current st (start_state nTxPos) = txdb st) as -> by (unfold current, flush; cbn; by rewrite (left_id_L ∅ (∪))).
    split_and!; [done|done|]. intros h. split; [|naive_solver]. intros Hh. split; [apply not_elem_of_nil|done].
  - intros l tx a a' IH E Hu Hnd Hnew. apply Forall_app in Hu as [Hu Htx]. apply Forall_app in Hnew as [Hnew Hx].
    rewrite map_app in Hnd. apply NoDup_app in Hnd as (Hnd & Hdis & _). destruct (IH Hu Hnd Hnew) as (Hc & Hd & Hn).
    inversion Htx as [|?? Htx1 _]; subst. inversion Hx as [|?? Hx1 _]; subst.
    destruct (disconnect_step _ _ _ E Htx1 Hc) as (H1' & H2' & H3').
    { apply Hn. split; [|done]. intros Hin. apply (Hdis _ Hin). set_solver. }
    split_and!; [done| |].
    + unfold disconnect_txs. rewrite rev_app_distr. cbn [rev app ofold]. rewrite H1'. exact Hd.
    + intros h. rewrite H3', Hn, map_app. set_solver.
Qed.
End blocks.

(** ** Instances

    An old transaction with two outputs, and a block of two transactions that
    spend them one after the other. *)

Section witnesses.
#[local] Instance sample_sha : Sha256 := toy_sha256.
#[local] Existing Instance z_bn.
#[local] Existing Instance toy_hashes.
#[local] Existing Instance toy_ec.

Definition sample_input (h : Z) (i : Z) : CTxIn := {| prevout := {| hash := h; n := i |}; scriptSig := []; nSequence := UINT_MAX |}.
Definition sample_output (v : Z) : CTxOut := {| nValue := v; scriptPubKey := [OP_1] |}.
Definition plain_tx (i : list CTxIn) (o : list CTxOut) : CTransaction :=
  {| nVersion := 1; nTime := 1700000000; vin := i; vout := o; nLockTime := 0; mwTx := null_mwTx |}.
Definition tx0 : CTransaction := plain_tx [sample_input 77 0] [sample_output (10 * COIN); sample_output (5 * COIN)].
Definition tx1 : CTransaction := plain_tx [sample_input (GetHash tx0) 0] [sample_output (9 * COIN)].
Definition tx2 : CTransaction := plain_tx [sample_input (GetHash tx1) 0; sample_input (GetHash tx0) 1] [sample_output (12 * COIN)].
Definition sample_chain : list CBlockIndex := 
  [{| nHeight := 500; bi_nFile := 1; bi_nBlockPos := 2000; bi_hash := 4; bi_nTime := 1000; bi_nBits := 0x1e0fffff; bi_fStake := false;
      nChainTrust := 100; bi_stake := no_stake |}].
Definition pos0 : CDiskTxPos := {| nFile := 1; nBlockPos := 100; nTxPos := 181 |}.
Definition sample_store : store := {|
  txdb := {[ GetHash tx0 := new_index pos0 2 ]};
  ReadFromDisk := fun p => if bool_decide (p = pos0) then Some tx0 else Some tx1;
  mempool := ∅ |}.
Definition sample_block : list CTransaction := [tx1; tx2].
Definition sample_run : outcome block_state := connect_txs sample_store sample_chain false false 2081 sample_block.

Lemma sample_run_accepts : match sample_run with Accept _ => true | _ => false end = true.
Proof. vm_compute. reflexivity. Qed.

Lemma sample_block_new : Forall unsigned sample_block /\ NoDup (map GetHash sample_block).
Proof.
  split; [repeat constructor; cbn; lia|]. apply (bool_decide_unpack _). vm_compute. exact I.
Qed.

Lemma block_spends_once_witness : NoDup (spent_in sample_block).
Proof.
  pose proof sample_run_accepts as Hr. destruct sample_run as [s| |] eqn:E; [|discriminate Hr..].
  apply (block_spends_once sample_store sample_chain false false ltac:(vm_compute; discriminate) 2081 sample_block s E);
    apply sample_block_new.
Defined.

Lemma block_disconnect_restores_witness :
  exists s, sample_run = Accept s /\
    disconnect_txs (flush (txdb sample_store) (mapQueuedChanges s)) sample_block = Accept (txdb sample_store).
Proof.
  pose proof sample_run_accepts as Hr. destruct sample_run as [s| |] eqn:E; [|discriminate Hr..]. exists s. split; [reflexivity|].
  apply (block_disconnect_restores sample_store sample_chain false false ltac:(vm_compute; discriminate) 2081 sample_block s E);
    [apply sample_block_new..| |].
  - repeat constructor.
  - intros c q Hq _. unfold look in Hq. cbn [txdb sample_store] in Hq. destruct (decide (GetHash tx0 = c.1)) as [He|He].
    + rewrite <-He, lookup_singleton_eq in Hq. apply lookup_replicate in Hq as [-> _]. reflexivity.
    + rewrite lookup_singleton_ne in Hq by exact He. discriminate Hq.
Defined.

Definition fetched : MapPrevTx := {[ GetHash tx0 := (new_index pos0 2, tx0) ]}.

Lemma connect_inputs_sound_witness : NoDup (map key (vin tx1)).
Proof.
  assert (match ConnectInputs fetched ∅ memory_pos sample_chain false false false tx1 with Accept _ => true | _ => false end = true) as Hr
    by (vm_compute; reflexivity).
  destruct (ConnectInputs fetched ∅ memory_pos sample_chain false false false tx1) as [q| |] eqn:E; [|discriminate Hr..].
  apply (connect_inputs_sound _ _ _ _ _ _ _ _ _ E); [reflexivity|repeat constructor; cbn; lia|reflexivity].
Defined.
End witnesses.

End TxInputs.
