(* ===== verification/Peg.v ===== *)
(** * Pegging in and out ([src/mw/peg.h], [src/mw/peg.cpp])

    The marker output of a peg-in and its reading, the components the wallet
    creates for a peg-in and a peg-out, and the search for the outputs of
    peg-out kernels. *)

From stdpp Require Import strings.
From S2P Require Import Prelude Crypto Serialize BigNum Script Interpreter Standard Mmr.
From S2P Require Import MwModels Transactions MwState Secp MwCrypto Bulletproofs MwValidation.
Import Stream Script Interpreter Standard MwModels MwState MwCrypto MwValidation Transactions.

Module Peg.

(** ** The marker *)

Definition PEGIN_MARKER : bytes := [0x4d; 0x57; 0x45; 0x42].

(** [script << OP_RETURN] appends the opcode. *)
Definition GetPegInMarkerScript (commitment : Commitment) : bytes :=
  default [] (push_opcode OP_RETURN) ++ push_data (PEGIN_MARKER ++ commitment).

Definition ExtractPegInCommitment (script : bytes) : option Commitment :=
  if len script <? 2 + 4 + Z.of_nat COMMITMENT_SIZE then None
  else
    match GetOp script with
    | None => None
    | Some (opcode, _, it) =>
        if negb (opcode =? OP_RETURN) then None
        else
          match GetOp it with
          | None => None
          | Some (_, vData, _) =>
              if negb (len vData =? 4 + Z.of_nat COMMITMENT_SIZE) then None
              else if negb (bool_decide (take 4 vData = PEGIN_MARKER)) then None
              else Some (drop 4 vData)
          end
    end.

(** The first output that is a marker, and the value of the others; [Some None] is
    the exception of [GetValueOut]. *)
Fixpoint find_marker (tx : CTransaction) (l : list CTxOut) : option (option (Commitment * Z)) :=
  match l with
  | [] => None
  | o :: l' =>
      match ExtractPegInCommitment (scriptPubKey o) with
      | Some c => Some (match GetValueOut tx with Some v => Some (c, i64 (v - nValue o)) | None => None end)
      | None => find_marker tx l'
      end
  end.
Definition IsPegInTransaction (tx : CTransaction) : option (option (Commitment * Z)) := find_marker tx (vout tx).

Definition ValidatePegOuts (vKernels : list CMWKernel) (vTransparentOutputs : list CTxOut) : bool :=
  forallb
    (fun k =>
       if negb (IsPegOut k) then true
       else existsb
              (fun o => bool_decide (scriptPubKey o = pegoutScript k) && (nValue o =? nPegAmount k)) vTransparentOutputs)
    vKernels.

(** ** What the wallet creates *)

(** Default-constructed components. *)
Definition null_output : CMWOutput :=
  {| o_commitment := null_commitment; senderPubKey := replicate PUBKEY_SIZE 0; receiverPubKey := replicate PUBKEY_SIZE 0;
     rangeProof := []; o_nFeatures := OUTPUT_STANDARD |}.
Definition null_kernel : CMWKernel :=
  {| nFeatures := KERNEL_PLAIN; nFee := 0; nPegAmount := 0; nLockHeight := 0; excess := null_commitment;
     k_signature := null_signature; pegoutScript := [] |}.

(** [kernel.signature = SignExcess(blind, kernel.GetSignatureMessage())] *)
Definition sign_kernel `{Sha256} `{Secp256k1} (k : CMWKernel) (blind : BlindingFactor) : CMWKernel :=
  {| nFeatures := nFeatures k; nFee := nFee k; nPegAmount := nPegAmount k; nLockHeight := nLockHeight k;
     excess := excess k; k_signature := SignExcess blind (GetSignatureMessage k); pegoutScript := pegoutScript k |}.

(** The random bytes of one call: the attempts at a blinding factor, the two
    secret keys and the nonce; [None] is a failure of [RAND_bytes]. *)
Record randomness := {
  r_blind : list (option bytes); r_sender : option bytes; r_receiver : option bytes; r_nonce : option bytes }.

Record CPegInResult := {
  in_fSuccess : bool; in_strError : string; in_mwOutput : CMWOutput; in_kernel : CMWKernel; in_outputBlind : BlindingFactor }.

Definition peg_in_failed (e : string) (output : CMWOutput) (kernel : CMWKernel) : CPegInResult :=
  {| in_fSuccess := false; in_strError := e; in_mwOutput := output; in_kernel := kernel; in_outputBlind := null_blind |}.
Definition peg_in_error (e : string) : CPegInResult := peg_in_failed e null_output null_kernel.

Section wallet.
Context `{Sha256} `{Secp256k1}.

Definition CreatePegIn (pWallet : bool) (r : randomness) (nAmount : Z) : CPegInResult :=
  if negb pWallet then peg_in_error "wallet is null"
  else if nAmount <=? 0 then peg_in_error "amount must be positive"
  else if MAX_MONEY <? nAmount then peg_in_error "amount exceeds maximum"
  else
    let outputBlind := GenerateBlindingFactor (r_blind r) in
    if IsNull outputBlind then peg_in_error "failed to generate blinding factor"
    else
      let commitment := Commit nAmount outputBlind in
      if IsNull commitment then peg_in_error "failed to create commitment"
      else
        match r_sender r with
        | None => peg_in_error "RNG failure generating sender key"
        | Some senderSecret =>
        match GetPublicKey senderSecret with
        | None => peg_in_error "failed to generate sender key"
        | Some senderPubKey =>
        match r_receiver r with
        | None => peg_in_error "RNG failure generating receiver key"
        | Some receiverSecret =>
        match GetPublicKey receiverSecret with
        | None => peg_in_error "failed to generate receiver key"
        | Some receiverPubKey =>
        match r_nonce r with
        | None => peg_in_error "RNG failure generating range-proof nonce"
        | Some nonce =>
            let rangeProof := Bulletproofs.Prove nAmount outputBlind (le_value nonce) [] in
            if bool_decide (rangeProof = []) then peg_in_error "failed to create range proof"
            else
              let mwOutput := {| o_commitment := commitment; senderPubKey := senderPubKey;
                                 receiverPubKey := receiverPubKey; rangeProof := rangeProof;
                                 o_nFeatures := OUTPUT_STANDARD |} in
              let kernel := sign_kernel
                {| nFeatures := KERNEL_PEGIN; nFee := 0; nPegAmount := nAmount; nLockHeight := 0;
                   excess := GetExcessCommitment outputBlind; k_signature := null_signature; pegoutScript := [] |}
                outputBlind in
              if IsNull (k_signature kernel) then peg_in_failed "failed to sign kernel" mwOutput kernel
              else {| in_fSuccess := true; in_strError := EmptyString; in_mwOutput := mwOutput; in_kernel := kernel;
                      in_outputBlind := outputBlind |}
        end end end end end.

Record CPegOutResult := {
  out_fSuccess : bool; out_strError : string; out_kernel : CMWKernel; out_destScript : bytes; out_inputBlind : BlindingFactor }.

Definition peg_out_failed (e : string) (kernel : CMWKernel) (script : bytes) : CPegOutResult :=
  {| out_fSuccess := false; out_strError := e; out_kernel := kernel; out_destScript := script; out_inputBlind := null_blind |}.

Definition CreatePegOut (pWallet : bool) (r : randomness) (nAmount : Z) (dest : CTxDestination) : CPegOutResult :=
  if negb pWallet then peg_out_failed "wallet is null" null_kernel []
  else if nAmount <=? 0 then peg_out_failed "amount must be positive" null_kernel []
  else
    let destScript := (SetDestination dest).1 in
    if bool_decide (destScript = []) then peg_out_failed "invalid destination address" null_kernel []
    else
      let excessBlind := GenerateBlindingFactor (r_blind r) in
      let kernel := sign_kernel
        {| nFeatures := KERNEL_PEGOUT; nFee := MIN_TX_FEE; nPegAmount := nAmount; nLockHeight := 0;
           excess := GetExcessCommitment excessBlind; k_signature := null_signature; pegoutScript := destScript |}
        excessBlind in
      if IsNull (k_signature kernel) then peg_out_failed "failed to sign kernel" kernel destScript
      else {| out_fSuccess := true; out_strError := EmptyString; out_kernel := kernel; out_destScript := destScript;
              out_inputBlind := excessBlind |}.

End wallet.

(** * Properties *)

(** ** The marker *)

Definition peg_marker (c : Commitment) : bytes := OP_RETURN :: 37 :: PEGIN_MARKER ++ c.

Lemma marker_script c : length c = COMMITMENT_SIZE -> GetPegInMarkerScript c = peg_marker c.
Proof.
  intros Hc. unfold GetPegInMarkerScript, push_data.
  assert (len (PEGIN_MARKER ++ c) = 37) as -> by (unfold len; rewrite length_app, Hc; done). done.
Qed.

(** The marker made for a commitment is read back as that commitment, whatever
    follows it in the script, and it is a standard data output of thirty-nine bytes. *)
Theorem peg_marker_roundtrip c rest :
  length c = COMMITMENT_SIZE -> len rest < 2 ^ 31 ->
  ExtractPegInCommitment (GetPegInMarkerScript c ++ rest) = Some c /\
  len (GetPegInMarkerScript c) = 39 /\ Solver (GetPegInMarkerScript c) = (true, TX_NULL_DATA, []).
Proof.
  intros Hc Hr. assert (len (PEGIN_MARKER ++ c) = 37) as Hd by (unfold len; by rewrite length_app, Hc).
  assert (len (GetPegInMarkerScript c) = 39) as Hl by (rewrite marker_script by done; unfold peg_marker; by rewrite !len_cons, Hd).
  split_and!; [|done|].
  - unfold ExtractPegInCommitment. rewrite len_app, Hl. pose proof (len_pos rest).
    destruct (Z.ltb_spec (39 + len rest) (2 + 4 + Z.of_nat COMMITMENT_SIZE)) as [|_]; [change (Z.of_nat COMMITMENT_SIZE) with 33 in *; lia|].
    change (GetPegInMarkerScript c ++ rest) with (OP_RETURN :: push_data (PEGIN_MARKER ++ c) ++ rest).
    rewrite GetOp_opcode by done. rewrite GetOp_push by (rewrite len_app, Hd; change (2 ^ 32 - 4) with 4294967292; change (2 ^ 31) with 2147483648 in Hr; lia). by rewrite Hd.
  - rewrite marker_script by done. unfold Solver. rewrite marker_script in Hl by done. rewrite Hl. unfold IsPayToScriptHash. by rewrite Hl.
Qed.

(** A script that is read as a marker starts with [OP_RETURN] and pushes the marker
    and the commitment; it is at least thirty-nine bytes long. *)
Lemma extract_spec script c :
  ExtractPegInCommitment script = Some c ->
  length c = COMMITMENT_SIZE /\ 39 <= len script /\ exists rest, script = OP_RETURN :: rest.
Proof.
  unfold ExtractPegInCommitment. change (Z.of_nat COMMITMENT_SIZE) with 33. destruct (Z.ltb_spec (len script) (2 + 4 + 33)) as [|Hl]; [done|].
  destruct (GetOp script) as [[[op d] it]|] eqn:E; [|done]. destruct (Z.eqb_spec op OP_RETURN) as [->|]; [|done].
  apply GetOp_suffix in E as [h ->]. destruct (GetOp it) as [[[op' d'] it']|]; [|done].
  destruct (Z.eqb_spec (len d') (4 + 33)) as [Hd|]; [|done]. destruct (bool_decide _); [|done]. cbn [negb].
  intros [= <-]. split_and!; [|lia|by eexists]. rewrite length_drop. unfold len in Hd.
  assert (length d' = 37%nat) as -> by lia. done.
Qed.

(** ** Peg-outs *)

Definition paid_by (l : list CTxOut) (k : CMWKernel) : Prop :=
  exists o, o ∈ l /\ scriptPubKey o = pegoutScript k /\ nValue o = nPegAmount k.

Lemma validate_peg_outs_spec ks l :
  ValidatePegOuts ks l = true <-> Forall (fun k => IsPegOut k = true -> paid_by l k) ks.
Proof.
  unfold ValidatePegOuts. rewrite <-Is_true_true, forallb_True. apply Forall_proper; [|done]. intros k. rewrite Is_true_true.
  destruct (IsPegOut k); cbn [negb]; [|naive_solver]. rewrite existsb_exists. unfold paid_by. setoid_rewrite list_elem_of_In.
  setoid_rewrite andb_true_iff. setoid_rewrite bool_decide_eq_true. setoid_rewrite Z.eqb_eq. naive_solver.
Qed.

(** A peg-out kernel passes exactly when some transparent output pays its amount to
    its script.  The outputs are not used up: two kernels that peg out the same
    amount to the same script are both satisfied by a single output of it. *)
Theorem validate_peg_outs ks l :
  (ValidatePegOuts ks l = true <-> Forall (fun k => IsPegOut k = true -> paid_by l k) ks) /\
  (forall k, ValidatePegOuts [k] l = true -> ValidatePegOuts [k; k] l = true).
Proof.
  split; [apply validate_peg_outs_spec|]. intros k. rewrite !validate_peg_outs_spec, !Forall_cons. tauto.
Qed.

(** ** The created components *)

Section created.
Context `{Sha256} `{Secp256k1} `{!SecpLaws} `{!SecpGroup}.

(** A branch that returns an error. *)
Ltac refused := intros Hs; discriminate Hs.

Lemma peg_in_shape w r n :
  in_fSuccess (CreatePegIn w r n) = true ->
  0 < n <= MAX_MONEY /\ o_commitment (in_mwOutput (CreatePegIn w r n)) = Commit n (in_outputBlind (CreatePegIn w r n)) /\
  nFeatures (in_kernel (CreatePegIn w r n)) = KERNEL_PEGIN /\ nPegAmount (in_kernel (CreatePegIn w r n)) = n /\
  excess (in_kernel (CreatePegIn w r n)) = GetExcessCommitment (in_outputBlind (CreatePegIn w r n)).
Proof.
  unfold CreatePegIn. cbv zeta.
  destruct w; cbn [negb]; [|refused]. destruct (Z.leb_spec n 0); [refused|]. destruct (Z.ltb_spec MAX_MONEY n); [refused|].
  repeat match goal with
  | |- in_fSuccess (if ?b then peg_in_error _ else _) = true -> _ => destruct b; [refused|]
  | |- in_fSuccess (match ?o with None => peg_in_error _ | Some _ => _ end) = true -> _ => destruct o; [|refused]
  end.
  destruct (IsNull (k_signature _)); [refused|]. intros _.
  cbn [in_mwOutput in_kernel in_outputBlind o_commitment sign_kernel nFeatures nPegAmount excess]. repeat split; assumption.
Qed.

Lemma peg_out_shape w r n dest :
  out_fSuccess (CreatePegOut w r n dest) = true ->
  0 < n /\ nFeatures (out_kernel (CreatePegOut w r n dest)) = KERNEL_PEGOUT /\
  nFee (out_kernel (CreatePegOut w r n dest)) = MIN_TX_FEE /\ nPegAmount (out_kernel (CreatePegOut w r n dest)) = n /\
  pegoutScript (out_kernel (CreatePegOut w r n dest)) = (SetDestination dest).1.
Proof.
  unfold CreatePegOut. cbv zeta. destruct w; cbn [negb]; [|refused]. destruct (Z.leb_spec n 0); [refused|].
  destruct (bool_decide _); [refused|]. destruct (IsNull (k_signature _)); [refused|]. intros _.
  cbn [out_kernel sign_kernel nFeatures nFee nPegAmount pegoutScript]. repeat split; assumption.
Qed.

(** What the wallet creates for a peg-in commits to the amount and declares it, and
    no transaction made of it can balance: an amount enters the sum as a commitment
    with a zero blinding factor, which is null.  The same holds of a peg-out. *)
Theorem peg_components_refused w r n dest :
  (in_fSuccess (CreatePegIn w r n) = true ->
   forall ins offset,
     let body := {| vInputs := ins; vOutputs := [in_mwOutput (CreatePegIn w r n)]; vKernels := [in_kernel (CreatePegIn w r n)] |} in
     o_commitment (in_mwOutput (CreatePegIn w r n)) = Commit n (in_outputBlind (CreatePegIn w r n)) /\
     GetTotalPegIn body = n /\ VerifyCommitmentSum body offset = false) /\
  (out_fSuccess (CreatePegOut w r n dest) = true ->
   forall ins outs offset,
     VerifyCommitmentSum {| vInputs := ins; vOutputs := outs; vKernels := [out_kernel (CreatePegOut w r n dest)] |} offset = false).
Proof.
  split.
  - intros (Hn & Hc & Hf & Ha & _)%peg_in_shape ins offset body.
    assert (GetTotalPegIn body = n) as Ht.
    { unfold GetTotalPegIn, body. cbn [vKernels fold_left]. unfold IsPegIn. rewrite Hf, Ha. cbn [Z.eqb KERNEL_PEGIN].
      apply i64_id. change MAX_MONEY with 100000000000000000 in Hn. lia. }
    split_and!; [done|done|]. apply not_true_iff_false. intros Hs%sum_no_amounts. lia.
  - intros (Hn & Hf & Hfee & _)%peg_out_shape ins outs offset. apply not_true_iff_false. intros Hs%sum_no_amounts.
    unfold GetTotalFee in Hs. cbn [vKernels fold_left] in Hs. rewrite Hfee in Hs. by destruct Hs as [[] _].
Qed.

End created.

(** ** Instances *)

Section witnesses.
#[local] Existing Instance log_secp.
#[local] Existing Instance log_laws.
#[local] Existing Instance log_group.
#[local] Instance toy : Sha256 := toy_sha256.

Definition sample_randomness : randomness :=
  {| r_blind := [None; Some (key 7)]; r_sender := Some (key 3); r_receiver := Some (key 5); r_nonce := Some (key 9) |}.

Lemma peg_marker_roundtrip_witness :
  ExtractPegInCommitment (GetPegInMarkerScript (2 :: key 7) ++ [OP_DROP]) = Some (2 :: key 7).
Proof. apply (peg_marker_roundtrip (2 :: key 7) [OP_DROP]); reflexivity. Defined.

Lemma peg_components_refused_witness :
  in_fSuccess (CreatePegIn true sample_randomness 5) = true /\
  VerifyCommitmentSum {| vInputs := []; vOutputs := [in_mwOutput (CreatePegIn true sample_randomness 5)];
    vKernels := [in_kernel (CreatePegIn true sample_randomness 5)] |} null_blind = false.
Proof.
  assert (in_fSuccess (CreatePegIn true sample_randomness 5) = true) as Hs by (vm_cast_no_check (eq_refl true)).
  split; [exact Hs|]. destruct (peg_components_refused true sample_randomness 5 CNoDestination) as [Hin _].
  apply (Hin Hs [] null_blind).
Defined.
End witnesses.

End Peg.
