(* ===== verification/MwWallet.v ===== *)
(** * The MimbleWimble wallet ([src/mw/mw_wallet.h], [src/mw/mw_wallet.cpp])

    The keys of the wallet, the outputs it owns, the search of a block for outputs
    addressed to it, the selection of outputs and the transactions it makes.  The
    receiver of an output is hidden by an exchange over the points of [Points];
    commitments, signatures and range proofs are those of the other components.
    [CWalletDB] has no operations of the names [SaveToWalletDB] and
    [LoadFromWalletDB] call: they are parameters. *)

From S2P Require Import Prelude Crypto Secp Points Serialize Mmr MwModels MwCrypto Bulletproofs.
From S2P Require Import Transactions MwState MwValidation Peg.
Import Stream MwModels MwState MwCrypto.

Module MwWallet.

(** ** Data *)

Record CMWOwnedOutput := {
  output : CMWOutput; blindingFactor : BlindingFactor; spendKey : bytes;
  nValue : Z; nBlockHeight : Z; fSpent : bool }.

(** [pWallet] is the null pointer or the [fFileBacked] of the wallet it points to. *)
Record CMWWallet := {
  pWallet : option bool;
  scanPrivKey : bytes; scanPubKey : bytes;
  spendPrivKey : bytes; spendPubKey : bytes;
  mapOwnedOutputs : gmap bytes CMWOwnedOutput }.

(** [CMWWallet::CMWWallet] *)
Definition new_wallet : CMWWallet :=
  {| pWallet := None; scanPrivKey := replicate 32 0; scanPubKey := replicate PUBKEY_SIZE 0;
     spendPrivKey := replicate 32 0; spendPubKey := replicate PUBKEY_SIZE 0; mapOwnedOutputs := ∅ |}.

Definition Init (pWalletIn : option bool) (w : CMWWallet) : CMWWallet :=
  {| pWallet := pWalletIn; scanPrivKey := scanPrivKey w; scanPubKey := scanPubKey w;
     spendPrivKey := spendPrivKey w; spendPubKey := spendPubKey w; mapOwnedOutputs := mapOwnedOutputs w |}.

(** Assignments to members. *)
Definition with_scan (priv pub : bytes) (w : CMWWallet) : CMWWallet :=
  {| pWallet := pWallet w; scanPrivKey := priv; scanPubKey := pub;
     spendPrivKey := spendPrivKey w; spendPubKey := spendPubKey w; mapOwnedOutputs := mapOwnedOutputs w |}.
Definition with_spend (priv pub : bytes) (w : CMWWallet) : CMWWallet :=
  {| pWallet := pWallet w; scanPrivKey := scanPrivKey w; scanPubKey := scanPubKey w;
     spendPrivKey := priv; spendPubKey := pub; mapOwnedOutputs := mapOwnedOutputs w |}.
Definition with_outputs (m : gmap bytes CMWOwnedOutput) (w : CMWWallet) : CMWWallet :=
  {| pWallet := pWallet w; scanPrivKey := scanPrivKey w; scanPubKey := scanPubKey w;
     spendPrivKey := spendPrivKey w; spendPubKey := spendPubKey w; mapOwnedOutputs := m |}.
Definition mark (e : CMWOwnedOutput) : CMWOwnedOutput :=
  {| output := output e; blindingFactor := blindingFactor e; spendKey := spendKey e;
     nValue := nValue e; nBlockHeight := nBlockHeight e; fSpent := true |}.

(** ** Queries *)

Definition HasKeys (w : CMWWallet) : bool := negb (IsNull (scanPrivKey w)) && negb (IsNull (spendPrivKey w)).

(** The entries in the order of the map. *)
Definition owned (w : CMWWallet) : list CMWOwnedOutput := map snd (in_order (mapOwnedOutputs w)).

Definition sum_values (p : CMWOwnedOutput -> bool) (l : list CMWOwnedOutput) : Z :=
  fold_left (fun nBalance e => if p e then i64 (nBalance + nValue e) else nBalance) l 0.

Definition GetMWBalance (w : CMWWallet) : Z := sum_values (fun e => negb (fSpent e)) (owned w).

Definition GetMWConfirmedBalance (nBestHeight nMinDepth : Z) (w : CMWWallet) : Z :=
  sum_values (fun e => if negb (fSpent e) && (0 <? nBlockHeight e)
                       then nMinDepth <=? i32 (i32 (nBestHeight - nBlockHeight e) + 1) else false) (owned w).

Definition GetMWUnconfirmedBalance (w : CMWWallet) : Z :=
  sum_values (fun e => negb (fSpent e) && (nBlockHeight e <=? 0)) (owned w).

Definition GetOwnedOutputs (w : CMWWallet) : list CMWOwnedOutput := owned w.
Definition GetUnspentOutputs (w : CMWWallet) : list CMWOwnedOutput := List.filter (fun e => negb (fSpent e)) (owned w).
Definition GetOutputCount (w : CMWWallet) : Z := Z.of_nat (base.size (mapOwnedOutputs w)).

Definition GetScanPubKey (w : CMWWallet) : option bytes := if negb (HasKeys w) then None else Some (scanPubKey w).
Definition GetSpendPubKey (w : CMWWallet) : option bytes := if negb (HasKeys w) then None else Some (spendPubKey w).

(** ** Changes of single entries *)

Definition MarkOutputSpent (commitment : Commitment) (w : CMWWallet) : CMWWallet :=
  match mapOwnedOutputs w !! commitment with
  | Some e => with_outputs (<[commitment := mark e]> (mapOwnedOutputs w)) w
  | None => w
  end.

Definition AddOwnedOutput (e : CMWOwnedOutput) (w : CMWWallet) : CMWWallet :=
  with_outputs (<[o_commitment (output e) := e]> (mapOwnedOutputs w)) w.

(** ** Selection *)

(** The loop that takes outputs, the largest first, until they reach the target. *)
Fixpoint select_loop (nTargetValue : Z) (l vSelected : list CMWOwnedOutput) (nValueOut : Z)
    : option (list CMWOwnedOutput * Z) :=
  match l with
  | [] => None
  | e :: l' =>
    let vSelected := vSelected ++ [e] in
    let nValueOut := i64 (nValueOut + nValue e) in
    if nTargetValue <=? nValueOut then Some (vSelected, nValueOut) else select_loop nTargetValue l' vSelected nValueOut
  end.

Definition SelectMWOutputs (nTargetValue : Z) (w : CMWWallet) : option (list CMWOwnedOutput * Z) :=
  let vUnspent := List.filter (fun e => negb (fSpent e)) (owned w) in
  select_loop nTargetValue (std_sort (fun a b => nValue b <? nValue a) vUnspent) [] 0.

(** ** The wallet file *)

(** [WriteMWKey], [ReadMWKey] and [WriteMWOutput], with the contents of the file. *)
Class MwWalletDB := {
  walletdb : Type;
  WriteMWKey : bytes -> bytes -> walletdb -> walletdb * bool;
  ReadMWKey : bytes -> walletdb -> option bytes;
  WriteMWOutput : bytes -> CMWOwnedOutput -> walletdb -> walletdb * bool
}.

(** "scan" and "spend" *)
Definition name_scan : bytes := [115; 99; 97; 110].
Definition name_spend : bytes := [115; 112; 101; 110; 100].

(** [HexStr] ([src/util.h]) *)
Definition hexmap (n : Z) : Z := if n <? 10 then 48 + n else 87 + n.
Definition HexStr (vch : bytes) : bytes := concat (map (fun b => [hexmap (Z.shiftr b 4); hexmap (Z.land b 15)]) vch).

Section wallet.
Context `{Sha256} `{Secp256k1} `{OpenSSLPoints} `{MwWalletDB}.

Definition backed (w : CMWWallet) : bool := match pWallet w with Some fFileBacked => fFileBacked | None => false end.

Fixpoint write_outputs (l : list (bytes * CMWOwnedOutput)) (db : walletdb) : walletdb * bool :=
  match l with
  | [] => (db, true)
  | (c, e) :: l' => let '(db', ok) := WriteMWOutput (HexStr c) e db in if negb ok then (db', false) else write_outputs l' db'
  end.

Definition SaveToWalletDB (w : CMWWallet) (db : walletdb) : walletdb * bool :=
  if negb (backed w) then (db, false)
  else
    let '(db, ok) := WriteMWKey name_scan (scanPrivKey w) db in
    if negb ok then (db, false)
    else
      let '(db, ok) := WriteMWKey name_spend (spendPrivKey w) db in
      if negb ok then (db, false) else write_outputs (in_order (mapOwnedOutputs w)) db.

(** ** Points *)

(** [EC_POINT_point2oct] into an array that held [stack], and whether 33 bytes were
    written. *)
Definition write_point (P : EC_POINT) (stack : bytes) : bytes * bool :=
  let b := EC_POINT_point2oct P in (b ++ drop (length b) stack, (length b =? PUBKEY_SIZE)%nat).

Definition DerivePublicKey (privKey stack : bytes) : bytes * bool := write_point (mul_generator (be_value privKey)) stack.

Definition ComputeECDHSharedSecret (privKey pPubKey33 : bytes) : option uint256 :=
  match EC_POINT_oct2point pPubKey33 with
  | None => None
  | Some peerPoint =>
    let b := EC_POINT_point2oct (mul_point peerPoint (be_value privKey)) in
    if negb (length b =? PUBKEY_SIZE)%nat then None else Some (sha256_once b)
  end.

Definition AddScalarToPublicKey (pPubKey33 : bytes) (scalar : uint256) (stack : bytes) : bytes * bool :=
  match EC_POINT_oct2point pPubKey33 with
  | None => (stack, false)
  | Some basePoint => write_point (EC_POINT_add basePoint (mul_generator (be_value (uint256_bytes scalar)))) stack
  end.

(** The sum has at most 32 bytes. *)
Definition AddScalars (a : bytes) (b : uint256) : bytes :=
  be_bytes32 ((be_value a + be_value (uint256_bytes b)) mod ORDER).

(** ** Keys *)

(** [RAND_bytes] fails or draws 32 bytes. *)
Definition GenerateKeys (scan spend : option bytes) (w : CMWWallet) (db : walletdb) : CMWWallet * walletdb * bool :=
  if HasKeys w then (w, db, true)
  else
    match scan with
    | None => (w, db, false)
    | Some scan =>
      let w := with_scan scan (scanPubKey w) w in
      match spend with
      | None => (w, db, false)
      | Some spend =>
        let w := with_spend spend (spendPubKey w) w in
        let '(pub, ok) := DerivePublicKey (scanPrivKey w) (scanPubKey w) in
        let w := with_scan (scanPrivKey w) pub w in
        if negb ok then (w, db, false)
        else
          let '(pub, ok) := DerivePublicKey (spendPrivKey w) (spendPubKey w) in
          let w := with_spend (spendPrivKey w) pub w in
          if negb ok then (w, db, false)
          else let '(db, ok) := SaveToWalletDB w db in (w, db, ok)
      end
    end.

Definition LoadFromWalletDB (w : CMWWallet) (db : walletdb) : CMWWallet * bool :=
  if negb (backed w) then (w, false)
  else
    let w := match ReadMWKey name_scan db with
             | Some k => with_scan k (DerivePublicKey k (scanPubKey w)).1 w
             | None => w
             end in
    let w := match ReadMWKey name_spend db with
             | Some k => with_spend k (DerivePublicKey k (spendPubKey w)).1 w
             | None => w
             end in
    (w, true).

Definition DeriveSpendKey (w : CMWWallet) (pSenderPubKey : bytes) : option bytes :=
  match ComputeECDHSharedSecret (scanPrivKey w) pSenderPubKey with
  | None => None
  | Some sharedSecret => Some (AddScalars (spendPrivKey w) sharedSecret)
  end.

(** ** Search of a block *)

(** "nonce" *)
Definition label_nonce : bytes := [110; 111; 110; 99; 101].
Definition proof_nonce (sharedSecret : uint256) : uint256 := sha256_once (uint256_bytes sharedSecret ++ label_nonce).

(** The value and the blinding factor the range proof of an output gives up. *)
Definition recover (o : CMWOutput) (sharedSecret : uint256) : option (Z * bytes * bytes) :=
  match Bulletproofs.RecoverMessage (o_commitment o) (rangeProof o) (proof_nonce sharedSecret) with
  | Some r => Some r
  | None => Bulletproofs.RecoverMessage (o_commitment o) (rangeProof o) sharedSecret
  end.

(** The body of the loop over the outputs, after the test that the output is new;
    the array a failure leaves unwritten is not looked at. *)
Definition recognise (w : CMWWallet) (nHeight : Z) (o : CMWOutput) : option CMWOwnedOutput :=
  match ComputeECDHSharedSecret (scanPrivKey w) (senderPubKey o) with
  | None => None
  | Some sharedSecret =>
    let '(expectedReceiverKey, ok) := AddScalarToPublicKey (spendPubKey w) sharedSecret [] in
    if negb ok then None
    else if negb (bool_decide (expectedReceiverKey = receiverPubKey o)) then None
    else
      match DeriveSpendKey w (senderPubKey o) with
      | None => None
      | Some oneTimeSpendKey =>
        match recover o sharedSecret with
        | None => None
        | Some (nRecoveredValue, recoveredBlind, _) =>
          Some {| output := o; blindingFactor := recoveredBlind; spendKey := oneTimeSpendKey;
                  nValue := nRecoveredValue; nBlockHeight := nHeight; fSpent := false |}
        end
      end
  end.

Definition scan_output (nHeight : Z) (s : CMWWallet * Z) (o : CMWOutput) : CMWWallet * Z :=
  let '(w, nFound) := s in
  match mapOwnedOutputs w !! o_commitment o with
  | Some _ => (w, nFound)
  | None =>
    match recognise w nHeight o with
    | None => (w, nFound)
    | Some e => (with_outputs (<[o_commitment o := e]> (mapOwnedOutputs w)) w, i32 (nFound + 1))
    end
  end.

(** The body of the loop over the inputs. *)
Definition scan_input (w : CMWWallet) (i : CMWInput) : CMWWallet :=
  match mapOwnedOutputs w !! i_commitment i with
  | Some e => if negb (fSpent e) then with_outputs (<[i_commitment i := mark e]> (mapOwnedOutputs w)) w else w
  | None => w
  end.

Definition ScanForOutputs (block : CMWBlock) (w : CMWWallet) (db : walletdb) : CMWWallet * walletdb * Z :=
  if negb (HasKeys w) then (w, db, 0)
  else
    let '(w, nFound) := fold_left (scan_output (nHeight block)) (vOutputs (b_body block)) (w, 0) in
    let w := fold_left scan_input (vInputs (b_body block)) w in
    let db := if 0 <? nFound then (SaveToWalletDB w db).1 else db in
    (w, db, nFound).

(** ** Transactions *)

(** What is drawn at random, and what the arrays on the stack held before; the
    results of [RAND_bytes] are not looked at but for the blinding factors. *)
Record draws := {
  d_destBlind : list (option bytes); d_ephemeral : bytes; d_proofNonce : uint256;
  d_changeBlind : list (option bytes); d_changeEphemeral : bytes; d_changeNonce : uint256;
  d_offset : list (option bytes); d_stack : bytes }.

(** An output of a value to a scan key and a spend key. *)
Definition make_output (secret scanKey destKey : bytes) (nAmount : Z) (blind : BlindingFactor) (nonce : uint256)
    (stack : bytes) : CMWOutput :=
  let sharedSecret := default 0 (ComputeECDHSharedSecret secret scanKey) in
  {| o_commitment := Commit nAmount blind; senderPubKey := (DerivePublicKey secret stack).1;
     receiverPubKey := (AddScalarToPublicKey destKey sharedSecret stack).1;
     rangeProof := Bulletproofs.Prove nAmount blind nonce []; o_nFeatures := OUTPUT_STANDARD |}.

Definition make_input (e : CMWOwnedOutput) : CMWInput :=
  {| i_commitment := o_commitment (output e); outputPubKey := receiverPubKey (output e); i_signature := null_signature |}.

(** The inner loop gives the signature to the first input with the commitment. *)
Fixpoint set_signature (c : Commitment) (sig : Signature) (l : list CMWInput) : list CMWInput :=
  match l with
  | [] => []
  | i :: l' =>
    if bool_decide (i_commitment i = c)
    then {| i_commitment := i_commitment i; outputPubKey := outputPubKey i; i_signature := sig |} :: l'
    else i :: set_signature c sig l'
  end.

Definition sign_inputs (txHash : uint256) (vSelected : list CMWOwnedOutput) (l : list CMWInput) : list CMWInput :=
  fold_left (fun l e => set_signature (o_commitment (output e)) (Sign (spendKey e) txHash) l) vSelected l.

Definition CreateMWTransaction (r : draws) (pDestScanKey pDestSpendKey : bytes) (nAmount : Z) (w : CMWWallet)
    : CMWWallet * option CMWTransaction :=
  if nAmount <=? 0 then (w, None)
  else
    let nFee := Transactions.MIN_TX_FEE in
    match SelectMWOutputs (i64 (nAmount + nFee)) w with
    | None => (w, None)
    | Some (vSelected, nValueSelected) =>
      let nChange := i64 (i64 (nValueSelected - nAmount) - nFee) in
      let vInputs := map make_input vSelected in
      let vInputBlinds := map blindingFactor vSelected in
      let destBlind := GenerateBlindingFactor (d_destBlind r) in
      let changeBlind := if 0 <? nChange then GenerateBlindingFactor (d_changeBlind r) else null_blind in
      let destOutput := make_output (d_ephemeral r) pDestScanKey pDestSpendKey nAmount destBlind (d_proofNonce r) (d_stack r) in
      let changeOutput := make_output (d_changeEphemeral r) (scanPubKey w) (spendPubKey w) nChange changeBlind
        (d_changeNonce r) (d_stack r) in
      let vOutputs := destOutput :: (if 0 <? nChange then [changeOutput] else []) in
      let vPositiveBlinds := destBlind :: (if 0 <? nChange then [changeBlind] else []) in
      let excessBlind := BlindSum vPositiveBlinds vInputBlinds in
      let offset := GenerateBlindingFactor (d_offset r) in
      let adjustedExcess := BlindSum [excessBlind] [offset] in
      let kernel := Peg.sign_kernel
        {| nFeatures := KERNEL_PLAIN; nFee := nFee; nPegAmount := 0; nLockHeight := 0;
           excess := CommitBlind adjustedExcess; k_signature := null_signature; pegoutScript := [] |} adjustedExcess in
      let body := Sort {| vInputs := vInputs; vOutputs := vOutputs; vKernels := [kernel] |} in
      let tx := {| t_body := body; t_offset := offset |} in
      let txHash := tx_GetHash tx in
      let tx := {| t_body := {| vInputs := sign_inputs txHash vSelected (MwModels.vInputs body);
                                vOutputs := MwModels.vOutputs body; vKernels := MwModels.vKernels body |};
                   t_offset := offset |} in
      let w := fold_left (fun w e => MarkOutputSpent (o_commitment (output e)) w) vSelected w in
      let w := if 0 <? nChange
               then AddOwnedOutput {| output := changeOutput; blindingFactor := changeBlind;
                      spendKey := default (replicate 32 0) (DeriveSpendKey w (senderPubKey changeOutput));
                      nValue := nChange; nBlockHeight := 0; fSpent := false |} w
               else w in
      (w, Some tx)
    end.

End wallet.

(** * Properties *)

(** ** Amounts *)

Definition total (l : list CMWOwnedOutput) : Z := foldr Z.add 0 (map nValue l).
Definition worth (e : CMWOwnedOutput) : Prop := 0 <= nValue e.
Abbreviation is_unspent := (fun e : CMWOwnedOutput => negb (fSpent e)).

Lemma total_cons e l : total (e :: l) = nValue e + total l.
Proof. done. Qed.

Lemma total_app l k : total (l ++ k) = total l + total k.
Proof. induction l as [|e l IH]; [done|]. cbn [app]. rewrite !total_cons, IH. lia. Qed.

#[export] Instance total_proper : Proper ((≡ₚ) ==> eq) total.
Proof. induction 1; rewrite ?total_cons in *; lia. Qed.

Lemma total_nonneg l : Forall worth l -> 0 <= total l.
Proof. induction 1 as [|e l He _ IH]; [done|]. rewrite total_cons. unfold worth in He. lia. Qed.

Lemma sum_values_exact p l acc :
  Forall worth l -> 0 <= acc -> acc + total (List.filter p l) < 2 ^ 63 ->
  fold_left (fun nBalance e => if p e then i64 (nBalance + nValue e) else nBalance) l acc = acc + total (List.filter p l).
Proof.
  intros Hl. revert acc. induction Hl as [|e l He Hl IH]; intros acc Ha Hb; [cbn; lia|]. cbn [List.filter fold_left] in *.
  assert (0 <= total (List.filter p l)).
  { apply total_nonneg, Forall_forall. intros x Hx%elem_of_List_filter. apply (proj1 (Forall_forall _ _) Hl), Hx. }
  unfold worth in He. destruct (p e); [|by apply IH]. rewrite total_cons in *. rewrite i64_id, IH by lia. lia.
Qed.

(** What the theorems ask of the amounts of a wallet: none is negative, and what is
    unspent fits 64 bits. *)
Record amounts_ok (w : CMWWallet) : Prop := {
  ao_worth : Forall worth (owned w);
  ao_bound : total (GetUnspentOutputs w) < 2 ^ 63
}.

Lemma balance_exact w : amounts_ok w -> GetMWBalance w = total (GetUnspentOutputs w).
Proof. intros [Hw Hb]. unfold GetMWBalance, sum_values. by rewrite sum_values_exact. Qed.

(** ** Selection *)

Definition larger (a b : CMWOwnedOutput) : bool := nValue b <? nValue a.

#[export] Instance larger_asym : Asym larger.
Proof. intros x y. unfold larger. rewrite Z.ltb_lt, Z.ltb_ge. lia. Qed.

Definition descending (w : CMWWallet) : list CMWOwnedOutput := std_sort larger (GetUnspentOutputs w).

Lemma descending_sorted w : StronglySorted (fun a b => nValue b <= nValue a) (descending w).
Proof.
  assert (Transitive (not_after larger)) as Ht.
  { intros x y z. unfold not_after, larger. rewrite !Z.ltb_ge. lia. }
  pose proof (not_after_total larger) as Htot.
  pose proof (StronglySorted_merge_sort (not_after larger) (GetUnspentOutputs w)) as Hs. change (merge_sort _ _) with (descending w) in Hs.
  revert Hs. generalize (descending w) as s. induction 1 as [|x l _ IH Hx]; constructor; [done|]. eapply Forall_impl; [exact Hx|].
  intros y. unfold not_after, larger. by rewrite Z.ltb_ge.
Qed.

(** The loop stops at the first prefix that reaches the target. *)
Lemma select_loop_spec t l sel v :
  Forall worth l -> 0 <= v -> v + total l < 2 ^ 63 -> v = total sel ->
  match select_loop t l sel v with
  | Some (sel', v') =>
    exists l1 e l2, l = l1 ++ e :: l2 /\ sel' = sel ++ l1 ++ [e] /\ v' = total sel' /\ t <= v' /\
      Forall (fun l0 => total sel + total l0 < t) (map (fun n => take n l) (seq 1 (length l1)))
  | None => l = [] \/ v + total l < t
  end.
Proof.
  intros Hl. revert sel v. induction Hl as [|e l He Hl IH]; intros sel v Hv Hb Ev; [by left|]. cbn [select_loop].
  rewrite total_cons in Hb. pose proof (total_nonneg l Hl). unfold worth in He. rewrite i64_id by lia.
  assert (v + nValue e = total (sel ++ [e])) as Es by (rewrite total_app, total_cons, Ev; cbn; lia).
  destruct (Z.leb_spec t (v + nValue e)).
  - exists [], e, l. rewrite <-Es. by repeat split.
  - specialize (IH (sel ++ [e]) (v + nValue e) ltac:(lia) ltac:(lia) Es). destruct (select_loop _ _ _ _) as [[sel' v']|].
    + destruct IH as (l1 & e' & l2 & -> & -> & -> & Ht & Hall). exists (e :: l1), e', l2. rewrite <-app_assoc in *.
      repeat split; [done|]. cbn [length seq map]. constructor; [cbn [take]; rewrite total_cons, take_0; change (total []) with 0; lia|].
      rewrite <-seq_shift, map_map. apply Forall_map in Hall. apply Forall_map. eapply Forall_impl; [exact Hall|].
      intros n. cbv beta. rewrite firstn_cons, total_app, !total_cons. change (total []) with 0. lia.
    + right. rewrite total_cons. destruct IH as [->|IH]; [cbn; lia|lia].
Qed.

(** Of the sublists with as many elements, the first elements of a list in descending
    order have the largest total. *)
Lemma top_largest s l :
  StronglySorted (fun a b => nValue b <= nValue a) s -> l ⊆+ s -> total l <= total (take (length l) s).
Proof.
  intros Hs. revert l. induction Hs as [|x s Hs IH Hx]; intros l Hl.
  - apply submseteq_nil_r in Hl as ->. done.
  - apply submseteq_cons_r in Hl as [Hl|(l' & -> & Hl)].
    + specialize (IH l Hl). pose proof (submseteq_length _ _ Hl) as Hlen. destruct l as [|e l]; [done|]. cbn [length take].
      etrans; [exact IH|]. cbn [length] in Hlen. destruct (lookup_lt_is_Some_2 s (length l)) as [y Hy]; [lia|].
      cbn [length]. rewrite (take_S_r _ _ _ Hy), total_app, !total_cons. apply (Forall_lookup_1 _ _ _ _ Hx) in Hy. cbn in *. lia.
    + cbn [length take]. rewrite !total_cons. specialize (IH l' Hl). lia.
Qed.

Lemma unspent_worth w : amounts_ok w -> Forall worth (descending w).
Proof.
  intros [Hw _]. unfold descending. rewrite std_sort_permutation. apply Forall_forall.
  intros x Hx%elem_of_List_filter. apply (proj1 (Forall_forall _ _) Hw), Hx.
Qed.

Lemma descending_total w : total (descending w) = total (GetUnspentOutputs w).
Proof. unfold descending. by rewrite std_sort_permutation. Qed.

Lemma coins_selected t w sel v :
  amounts_ok w -> SelectMWOutputs t w = Some (sel, v) ->
  exists rest, GetUnspentOutputs w ≡ₚ sel ++ rest /\ v = total sel /\ t <= v.
Proof.
  intros Hok E. pose proof (select_loop_spec t (descending w) [] 0 (unspent_worth w Hok) ltac:(lia)
    ltac:(rewrite descending_total; apply Hok) eq_refl) as Hl. unfold SelectMWOutputs in E. unfold descending, larger, GetUnspentOutputs in Hl.
  rewrite E in Hl. destruct Hl as (l1 & e & l2 & El & -> & -> & Ht & _). exists l2. repeat split; [|done].
  unfold GetUnspentOutputs. rewrite <-(std_sort_permutation (fun a b => nValue b <? nValue a)), El. cbn [app]. by rewrite <-app_assoc.
Qed.

(** C28. For a positive target, in a wallet without negative amounts whose unspent
    outputs are together below 2^63, [SelectMWOutputs] fails exactly when the unspent
    outputs do not reach the target; else it takes unspent outputs that reach it, with
    their sum, and no fewer unspent outputs reach it. *)
Theorem selection_fewest t w :
  amounts_ok w -> 0 < t ->
  match SelectMWOutputs t w with
  | None => total (GetUnspentOutputs w) < t
  | Some (sel, v) =>
    sel ⊆+ GetUnspentOutputs w /\ v = total sel /\ t <= v /\
    forall l, l ⊆+ GetUnspentOutputs w -> t <= total l -> (length sel <= length l)%nat
  end.
Proof.
  intros Hok Ht. pose proof (select_loop_spec t (descending w) [] 0 (unspent_worth w Hok) ltac:(lia)
    ltac:(rewrite descending_total; apply Hok) eq_refl) as Hl.
  change (SelectMWOutputs t w) with (select_loop t (descending w) [] 0). destruct (select_loop _ _ _ _) as [[sel v]|].
  - destruct Hl as (l1 & e & l2 & El & -> & -> & Hle & Hall). cbn [app] in *.
    assert (descending w ≡ₚ GetUnspentOutputs w) as Ep by apply std_sort_permutation. repeat split; [|done|].
    + rewrite <-Ep, El. replace (l1 ++ e :: l2) with ((l1 ++ [e]) ++ l2) by (by rewrite <-app_assoc). by apply submseteq_inserts_r.
    + intros l Hl Hlt. destruct (le_lt_dec (length (l1 ++ [e])) (length l)) as [|Hlen]; [done|exfalso].
      rewrite <-Ep in Hl. pose proof (top_largest _ _ (descending_sorted w) Hl) as Htop.
      rewrite length_app in Hlen. cbn [length] in Hlen. destruct (length l) as [|n] eqn:En.
      { apply nil_length_inv in En as ->. cbn in Hlt. lia. }
      apply Forall_map, (proj1 (Forall_forall _ _)) with (x := S n) in Hall; [cbn in Hall; lia|].
      apply list_elem_of_In, in_seq. lia.
  - rewrite descending_total in Hl. destruct Hl as [Hn|]; [|done]. rewrite <-descending_total, Hn. cbn. lia.
Qed.

(** ** Entries *)

Lemma in_order_perm {T} (m : gmap bytes T) : in_order m ≡ₚ map_to_list m.
Proof. apply std_sort_permutation. Qed.

Lemma entries_insert (m : gmap bytes CMWOwnedOutput) c e :
  m !! c = None -> map snd (in_order (<[c := e]> m)) ≡ₚ e :: map snd (in_order m).
Proof. intros Hc. by rewrite !in_order_perm, map_to_list_insert by done. Qed.

Lemma entries_delete (m : gmap bytes CMWOwnedOutput) c e :
  m !! c = Some e -> map snd (in_order m) ≡ₚ e :: map snd (in_order (delete c m)).
Proof. intros Hc. by rewrite !in_order_perm, <-(map_to_list_delete m c e Hc). Qed.

Lemma entries_update (m : gmap bytes CMWOwnedOutput) c e e' :
  m !! c = Some e -> map snd (in_order (<[c := e']> m)) ≡ₚ e' :: map snd (in_order (delete c m)).
Proof. intros Hc. rewrite <-insert_delete_eq. apply entries_insert, lookup_delete_eq. Qed.

Lemma owned_spec w e : e ∈ owned w <-> exists c, mapOwnedOutputs w !! c = Some e.
Proof.
  unfold owned. rewrite list_elem_of_fmap. split.
  - intros ([c e'] & -> & Hin). exists c. by rewrite in_order_perm, elem_of_map_to_list in Hin.
  - intros [c Hc]. exists (c, e). by rewrite in_order_perm, elem_of_map_to_list.
Qed.

#[export] Instance filter_proper {A} (p : A -> bool) : Proper ((≡ₚ) ==> (≡ₚ)) (List.filter p).
Proof.
  induction 1 as [|x l l' _ IH|x y l|l1 l2 l3 _ IH1 _ IH2]; cbn; [done|by destruct (p x); rewrite IH| |by rewrite IH1].
  destruct (p x), (p y); try done. constructor.
Qed.

(** Every entry is stored under the commitment of its output. *)
Definition keyed (w : CMWWallet) : Prop := map_Forall (fun c e => o_commitment (output e) = c) (mapOwnedOutputs w).

Definition same_keys (w w' : CMWWallet) : Prop :=
  pWallet w = pWallet w' /\ scanPrivKey w = scanPrivKey w' /\ scanPubKey w = scanPubKey w' /\
  spendPrivKey w = spendPrivKey w' /\ spendPubKey w = spendPubKey w'.

#[export] Instance same_keys_equiv : Equivalence same_keys.
Proof.
  split; unfold same_keys.
  - by intros w.
  - by intros w v (-> & -> & -> & -> & ->).
  - by intros u v w (-> & -> & -> & -> & ->).
Qed.

Lemma with_outputs_keys m w : same_keys w (with_outputs m w).
Proof. done. Qed.

Lemma MarkOutputSpent_keys c w : same_keys w (MarkOutputSpent c w).
Proof. unfold MarkOutputSpent. by destruct (_ !! c). Qed.

Lemma MarkOutputSpent_lookup c w c' :
  mapOwnedOutputs (MarkOutputSpent c w) !! c' =
  if bool_decide (c = c') then mark <$> mapOwnedOutputs w !! c' else mapOwnedOutputs w !! c'.
Proof.
  unfold MarkOutputSpent. case_bool_decide as Hc.
  - subst c'. destruct (mapOwnedOutputs w !! c) as [e|] eqn:E; [|by rewrite E]. cbn. by rewrite lookup_insert_eq.
  - destruct (mapOwnedOutputs w !! c) as [e|] eqn:E; [|done]. cbn. by rewrite lookup_insert_ne.
Qed.

(** Marking an unspent entry takes its value off what is unspent. *)
Lemma MarkOutputSpent_total c w e :
  mapOwnedOutputs w !! c = Some e -> fSpent e = false ->
  total (GetUnspentOutputs w) = nValue e + total (GetUnspentOutputs (MarkOutputSpent c w)).
Proof.
  intros Hc He. unfold GetUnspentOutputs, owned, MarkOutputSpent. rewrite Hc. cbn [mapOwnedOutputs with_outputs].
  rewrite (entries_delete _ _ _ Hc), (entries_update _ _ _ (mark e) Hc). cbn [List.filter]. rewrite He. cbn [negb mark fSpent].
  by rewrite total_cons.
Qed.

Definition mark_all (l : list CMWOwnedOutput) (w : CMWWallet) : CMWWallet :=
  fold_left (fun w e => MarkOutputSpent (o_commitment (output e)) w) l w.

Lemma mark_all_keys l w : same_keys w (mark_all l w).
Proof.
  revert w. induction l as [|e l IH]; intros w; cbn; [done|]. etrans; [apply MarkOutputSpent_keys|apply IH].
Qed.

Lemma mark_all_lookup l w c :
  mapOwnedOutputs (mark_all l w) !! c =
  if bool_decide (c ∈ map (fun e => o_commitment (output e)) l) then mark <$> mapOwnedOutputs w !! c else mapOwnedOutputs w !! c.
Proof.
  revert w. induction l as [|e l IH]; intros w; cbn [mark_all fold_left map]; [by rewrite bool_decide_false by apply not_elem_of_nil|].
  fold (mark_all l (MarkOutputSpent (o_commitment (output e)) w)). rewrite IH, MarkOutputSpent_lookup.
  repeat case_bool_decide; try done; try (by destruct (mapOwnedOutputs w !! c)); set_solver.
Qed.

(** Marking entries of different commitments, all of them unspent. *)
Lemma mark_all_total l w :
  NoDup (map (fun e => o_commitment (output e)) l) ->
  Forall (fun e => mapOwnedOutputs w !! o_commitment (output e) = Some e /\ fSpent e = false) l ->
  total (GetUnspentOutputs w) = total l + total (GetUnspentOutputs (mark_all l w)).
Proof.
  revert w. induction l as [|e l IH]; intros w Hnd Hl; [done|]. cbn [map] in Hnd. apply NoDup_cons in Hnd as [Hni Hnd].
  apply Forall_cons in Hl as [[He Hs] Hl]. cbn [mark_all fold_left]. fold (mark_all l (MarkOutputSpent (o_commitment (output e)) w)).
  rewrite total_cons, (MarkOutputSpent_total _ _ _ He Hs), (IH (MarkOutputSpent (o_commitment (output e)) w)); [lia|done|].
  rewrite Forall_forall in *. intros x Hx. rewrite MarkOutputSpent_lookup, bool_decide_false; [by apply Hl|].
  intros E. apply Hni. rewrite E. exact (list_elem_of_fmap_2 (fun e => o_commitment (output e)) l x Hx).
Qed.

(** The entries selected are in the map, unspent and of different commitments. *)
Lemma unspent_entries w l :
  keyed w -> l ⊆+ GetUnspentOutputs w ->
  NoDup (map (fun e => o_commitment (output e)) l) /\
  Forall (fun e => mapOwnedOutputs w !! o_commitment (output e) = Some e /\ fSpent e = false) l.
Proof.
  intros Hk Hl. assert (Forall (fun e => mapOwnedOutputs w !! o_commitment (output e) = Some e /\ fSpent e = false) (GetUnspentOutputs w)) as Hall.
  { apply Forall_forall. intros e [He Hs]%elem_of_List_filter. apply owned_spec in He as [c Hc]. rewrite (Hk _ _ Hc).
    by apply negb_true_iff in Hs. }
  split; [|apply Forall_forall; intros e He; apply (proj1 (Forall_forall _ _) Hall); by eapply elem_of_submseteq].
  assert (NoDup (map (fun e => o_commitment (output e)) (owned w))) as Hnd.
  { unfold owned. rewrite map_map. erewrite map_ext_in with (g := fst).
    - rewrite in_order_perm. apply NoDup_fst_map_to_list.
    - intros [c e] Hin%list_elem_of_In. cbn. apply Hk. by rewrite in_order_perm, elem_of_map_to_list in Hin. }
  assert (l ⊆+ owned w) as Hsub; [|apply submseteq_Permutation in Hsub as [k Ek]; rewrite Ek, map_app in Hnd; by apply NoDup_app in Hnd as [? _]].
  etrans; [exact Hl|]. unfold GetUnspentOutputs. apply sublist_submseteq. clear. induction (owned w) as [|e l IH]; [constructor|]. cbn. destruct (negb _); by constructor.
Qed.

(** ** Search of a block *)

Lemma mark_spent e : fSpent e = true -> mark e = e.
Proof. destruct e; cbn. by intros ->. Qed.

Section scan.
Context `{Sha256} `{Secp256k1} `{OpenSSLPoints} `{MwWalletDB}.

Lemma recognise_keys w w' h o : same_keys w w' -> recognise w h o = recognise w' h o.
Proof. unfold recognise, DeriveSpendKey. by intros (_ & -> & _ & -> & ->). Qed.

Lemma scan_output_keys h s o : same_keys s.1 (scan_output h s o).1.
Proof. destruct s as [w n]. cbn. destruct (_ !! _); [done|]. by destruct (recognise _ _ _). Qed.

Lemma scan_outputs_keys h os s : same_keys s.1 (fold_left (scan_output h) os s).1.
Proof. revert s. induction os as [|o os IH]; intros s; cbn [fold_left]; [done|]. etrans; [apply scan_output_keys|apply IH]. Qed.

(** The entry the outputs of a block give a commitment the wallet has none for: that
    of the first output with it that is recognised. *)
Definition new_entry (w : CMWWallet) (h : Z) (os : list CMWOutput) (c : Commitment) : option CMWOwnedOutput :=
  head (omap (fun o => if bool_decide (o_commitment o = c) then recognise w h o else None) os).

Lemma new_entry_cons w h o os c :
  new_entry w h (o :: os) c =
  match (if bool_decide (o_commitment o = c) then recognise w h o else None) with
  | Some e => Some e | None => new_entry w h os c end.
Proof. unfold new_entry. cbn. by destruct (if bool_decide _ then _ else _). Qed.

Lemma new_entry_keys w w' h os c : same_keys w w' -> new_entry w h os c = new_entry w' h os c.
Proof.
  intros Hk. induction os as [|o os IH]; [done|]. by rewrite !new_entry_cons, IH, (recognise_keys _ _ _ _ Hk).
Qed.

Lemma scan_outputs_lookup h os w n c :
  mapOwnedOutputs (fold_left (scan_output h) os (w, n)).1 !! c =
  match mapOwnedOutputs w !! c with Some e => Some e | None => new_entry w h os c end.
Proof.
  revert w n. induction os as [|o os IH]; intros w n; cbn [fold_left]; [by destruct (_ !! c)|].
  rewrite new_entry_cons. cbn [scan_output]. destruct (mapOwnedOutputs w !! o_commitment o) as [e'|] eqn:Eo.
  - rewrite IH. destruct (mapOwnedOutputs w !! c) eqn:Ec; [done|]. rewrite bool_decide_false; [done|congruence].
  - destruct (recognise w h o) as [e|] eqn:Er; rewrite IH.
    + cbn [mapOwnedOutputs with_outputs]. case_bool_decide as Hc; [subst c; by rewrite lookup_insert_eq, Eo|].
      by rewrite lookup_insert_ne by done.
    + by destruct (bool_decide _).
Qed.

Lemma scan_outputs_count h os w n :
  0 <= n -> n + len os < 2 ^ 31 ->
  let r := fold_left (scan_output h) os (w, n) in
  r.2 - n = Z.of_nat (base.size (mapOwnedOutputs r.1)) - Z.of_nat (base.size (mapOwnedOutputs w)) /\ n <= r.2.
Proof.
  revert w n. induction os as [|o os IH]; intros w n Hn Hb; cbn [fold_left]; [cbn; lia|]. rewrite len_cons in Hb.
  pose proof (len_pos os). cbn [scan_output]. destruct (mapOwnedOutputs w !! o_commitment o) eqn:Eo; [apply IH; lia|].
  destruct (recognise w h o) as [e|]; [|apply IH; lia]. rewrite i32_id by lia.
  destruct (IH (with_outputs (<[o_commitment o := e]> (mapOwnedOutputs w)) w) (n + 1)) as [E1 E2]; [lia..|].
  cbv zeta in *. cbn [mapOwnedOutputs with_outputs] in E1. rewrite map_size_insert_None in E1 by done. lia.
Qed.

Lemma scan_input_lookup w i c :
  mapOwnedOutputs (scan_input w i) !! c =
  if bool_decide (i_commitment i = c) then mark <$> mapOwnedOutputs w !! c else mapOwnedOutputs w !! c.
Proof.
  unfold scan_input. destruct (mapOwnedOutputs w !! i_commitment i) as [e|] eqn:E.
  - destruct (fSpent e) eqn:Es; cbn [negb]; case_bool_decide as Hc; try done.
    + subst c. rewrite E. cbn. by rewrite mark_spent.
    + subst c. rewrite E. cbn. by rewrite lookup_insert_eq.
    + cbn. by rewrite lookup_insert_ne.
  - case_bool_decide as Hc; [|done]. subst c. by rewrite E.
Qed.

Lemma scan_input_keys w i : same_keys w (scan_input w i).
Proof. unfold scan_input. destruct (_ !! _) as [e|]; [|done]. by destruct (negb _). Qed.

Lemma scan_inputs_lookup il w c :
  mapOwnedOutputs (fold_left scan_input il w) !! c =
  if bool_decide (c ∈ map i_commitment il) then mark <$> mapOwnedOutputs w !! c else mapOwnedOutputs w !! c.
Proof.
  revert w. induction il as [|i il IH]; intros w; cbn [fold_left map]; [by rewrite bool_decide_false by apply not_elem_of_nil|].
  rewrite IH, scan_input_lookup. repeat case_bool_decide; try done; try (by destruct (mapOwnedOutputs w !! c)); set_solver.
Qed.

Lemma scan_inputs_keys il w : same_keys w (fold_left scan_input il w).
Proof. revert w. induction il as [|i il IH]; intros w; cbn [fold_left]; [done|]. etrans; [apply scan_input_keys|apply IH]. Qed.

Lemma scan_inputs_size il w : base.size (mapOwnedOutputs (fold_left scan_input il w)) = base.size (mapOwnedOutputs w).
Proof.
  revert w. induction il as [|i il IH]; intros w; cbn [fold_left]; [done|]. rewrite IH. unfold scan_input.
  destruct (mapOwnedOutputs w !! i_commitment i) eqn:E; [|done]. destruct (negb _); [|done].
  cbn. rewrite map_size_insert, E. done.
Qed.

(** The whole search: the keys stay, the entries the wallet had stay but for what the
    inputs spend, the commitments it had none for get those of the outputs that are
    recognised, and these are counted. *)
Theorem scan_spec block w db :
  HasKeys w = true -> len (vOutputs (b_body block)) < 2 ^ 31 ->
  let '(w', db', nFound) := ScanForOutputs block w db in
  same_keys w w' /\
  (forall c, mapOwnedOutputs w' !! c =
    let e := match mapOwnedOutputs w !! c with
             | Some e => Some e | None => new_entry w (nHeight block) (vOutputs (b_body block)) c end in
    if bool_decide (c ∈ map i_commitment (vInputs (b_body block))) then mark <$> e else e) /\
  nFound = GetOutputCount w' - GetOutputCount w /\
  db' = (if 0 <? nFound then (SaveToWalletDB w' db).1 else db).
Proof.
  intros Hk Hlen. unfold ScanForOutputs. rewrite Hk. cbn [negb].
  pose proof (scan_outputs_keys (nHeight block) (vOutputs (b_body block)) (w, 0)) as Hsk.
  pose proof (fun c => scan_outputs_lookup (nHeight block) (vOutputs (b_body block)) w 0 c) as Hl.
  pose proof (scan_outputs_count (nHeight block) (vOutputs (b_body block)) w 0) as Hc. cbv zeta in Hc.
  destruct (fold_left _ _ _) as [w1 n]. cbn [fst snd] in *. split; [etrans; [exact Hsk|apply scan_inputs_keys]|].
  split; [|split; [|done]].
  - intros c. by rewrite scan_inputs_lookup, Hl.
  - unfold GetOutputCount. rewrite scan_inputs_size. lia.
Qed.

(** What the wallet has for a commitment is never replaced: the output a transaction
    of its own adds keeps the height zero it was added with. *)
Theorem scan_keeps_height block w db c e :
  mapOwnedOutputs w !! c = Some e ->
  exists e', mapOwnedOutputs (ScanForOutputs block w db).1.1 !! c = Some e' /\
    nBlockHeight e' = nBlockHeight e /\ nValue e' = nValue e /\ (fSpent e = true -> fSpent e' = true).
Proof.
  intros Hc. unfold ScanForOutputs. destruct (negb (HasKeys w)); [by exists e|].
  pose proof (scan_outputs_lookup (nHeight block) (vOutputs (b_body block)) w 0 c) as Hl.
  destruct (fold_left _ _ _) as [w1 n]. cbn [fst snd] in *. rewrite Hc in Hl. rewrite scan_inputs_lookup, Hl.
  case_bool_decide; [by exists (mark e)|by exists e].
Qed.

(** A block that was searched gives nothing when it is searched again. *)
Theorem rescan_finds_nothing block w db :
  len (vOutputs (b_body block)) < 2 ^ 31 ->
  let '(w', db', _) := ScanForOutputs block w db in
  exists w'', ScanForOutputs block w' db' = (w'', db', 0) /\ mapOwnedOutputs w'' = mapOwnedOutputs w' /\ same_keys w' w''.
Proof.
  intros Hlen. destruct (HasKeys w) eqn:Hk.
  - pose proof (scan_spec block w db Hk Hlen) as Hs. destruct (ScanForOutputs block w db) as [[w' db'] n'].
    destruct Hs as (Hsk & Hl & _ & _). assert (HasKeys w' = true) as Hk' by (destruct Hsk as (_ & E1 & _ & E2 & _); unfold HasKeys in *; congruence).
    pose proof (scan_spec block w' db' Hk' Hlen) as Hs. destruct (ScanForOutputs block w' db') as [[w'' db''] n''].
    destruct Hs as (Hsk' & Hl' & En & Edb). exists w''. assert (mapOwnedOutputs w'' = mapOwnedOutputs w') as Em.
    { apply map_eq. intros c. rewrite Hl', !Hl, <-(new_entry_keys w w') by done. cbv zeta.
      destruct (match mapOwnedOutputs w !! c with Some e => Some e | None => new_entry w (nHeight block) (vOutputs (b_body block)) c end) as [e|] eqn:E.
      - case_bool_decide; done.
      - destruct (mapOwnedOutputs w !! c); [done|]. rewrite E. by case_bool_decide. }
    unfold GetOutputCount in En. rewrite Em, Z.sub_diag in En. subst n''. cbn in Edb. by subst db''.
  - unfold ScanForOutputs at 1. rewrite Hk. cbn. exists w. unfold ScanForOutputs. by rewrite Hk.
Qed.
End scan.

(** ** Payments *)

Lemma null_value k : IsNull k = true -> be_value k = 0.
Proof.
  intros E%all_zero_repeat. rewrite E. unfold be_value. rewrite rev_replicate.
  generalize (length k). intros n. induction n as [|n IH]; [done|]. cbn [replicate le_value]. lia.
Qed.

Section payments.
Context `{Sha256} `{Secp256k1} `{!SecpLaws} `{OpenSSLPoints} `{!PointsLaws} `{MwWalletDB}.
Context (sha_length : forall l, length (sha256 l) = 32%nat).

Definition valid_key (k : bytes) : Prop := 0 < be_value k < ORDER.
Definition public (k : bytes) : bytes := EC_POINT_point2oct (mul_generator (be_value k)).

(** The keys of a wallet are valid and its public keys those of its secret ones. *)
Record keys_ok (w : CMWWallet) : Prop := {
  ko_scan : valid_key (scanPrivKey w);
  ko_spend : valid_key (spendPrivKey w);
  ko_scan_pub : scanPubKey w = public (scanPrivKey w);
  ko_spend_pub : spendPubKey w = public (spendPrivKey w)
}.

Lemma keys_ok_has w : keys_ok w -> HasKeys w = true.
Proof.
  intros [Hs Hp _ _]. unfold HasKeys, valid_key in *.
  destruct (IsNull (scanPrivKey w)) eqn:E1; [apply null_value in E1; lia|].
  destruct (IsNull (spendPrivKey w)) eqn:E2; [apply null_value in E2; lia|]. done.
Qed.

Lemma write_point_ok P stack : length stack = PUBKEY_SIZE -> P <> infinity -> write_point P stack = (EC_POINT_point2oct P, true).
Proof.
  intros Hs HP%point2oct_length. unfold write_point. rewrite HP. rewrite drop_ge by (unfold PUBKEY_SIZE in Hs; lia).
  by rewrite app_nil_r.
Qed.

Lemma write_point_nil P : P <> infinity -> write_point P [] = (EC_POINT_point2oct P, true).
Proof. intros HP%point2oct_length. unfold write_point. by rewrite HP, drop_nil, app_nil_r. Qed.

Lemma DerivePublicKey_ok k stack : valid_key k -> length stack = PUBKEY_SIZE -> DerivePublicKey k stack = (public k, true).
Proof. intros Hk Hs. apply write_point_ok; [done|]. by apply generator_nonzero, key_nonzero. Qed.

Lemma read_public k : valid_key k -> EC_POINT_oct2point (public k) = Some (mul_generator (be_value k)).
Proof. intros Hk. apply oct2point_point2oct. by apply generator_nonzero, key_nonzero. Qed.

(** Keys that were drawn valid are the wallet's, with their public keys, also where
    they could not be saved. *)
Theorem generated_keys_ok scan spend w db :
  HasKeys w = false -> valid_key scan -> valid_key spend ->
  length (scanPubKey w) = PUBKEY_SIZE -> length (spendPubKey w) = PUBKEY_SIZE ->
  let '(w', _, ok) := GenerateKeys (Some scan) (Some spend) w db in
  keys_ok w' /\ mapOwnedOutputs w' = mapOwnedOutputs w /\ (backed w = false -> ok = false).
Proof.
  intros Hk Hks Hkp L1 L2. unfold GenerateKeys. rewrite Hk. cbn [scanPrivKey scanPubKey spendPrivKey spendPubKey with_scan with_spend].
  rewrite !DerivePublicKey_ok by done. cbn [negb]. cbn [scanPrivKey scanPubKey spendPrivKey spendPubKey with_scan with_spend].
  match goal with |- context [SaveToWalletDB ?v db] => destruct (SaveToWalletDB v db) as [db' ok] eqn:E end. split; [by split|]. split; [done|]. intros Hb.
  unfold SaveToWalletDB in E. change (backed _) with (backed w) in E. rewrite Hb in E. by injection E.
Qed.

(** Loading brings back keys, never an output. *)
Theorem load_outputs w db : mapOwnedOutputs (LoadFromWalletDB w db).1 = mapOwnedOutputs w.
Proof. unfold LoadFromWalletDB. destruct (negb _); [done|]. by destruct (ReadMWKey name_scan db), (ReadMWKey name_spend db). Qed.

(** The secret the sender and the receiver share. *)
Definition shared (a b : bytes) : uint256 := sha256_once (EC_POINT_point2oct (mul_generator (be_value a * be_value b))).

Lemma ECDH_public a b :
  valid_key b -> (be_value a * be_value b) mod ORDER <> 0 -> ComputeECDHSharedSecret a (public b) = Some (shared a b).
Proof.
  intros Hb Hab. unfold ComputeECDHSharedSecret, shared. rewrite read_public by done. rewrite generator_mul, Z.mul_comm.
  apply generator_nonzero, point2oct_length in Hab. by rewrite Hab.
Qed.

Lemma shared_comm a b : shared a b = shared b a.
Proof. unfold shared. by rewrite Z.mul_comm. Qed.

Lemma AddScalar_public k s :
  valid_key k -> (be_value k + be_value (uint256_bytes s)) mod ORDER <> 0 ->
  forall stack, length stack = PUBKEY_SIZE \/ stack = [] ->
  AddScalarToPublicKey (public k) s stack = (public (AddScalars k s), true).
Proof.
  intros Hk Hs stack Hst. unfold AddScalarToPublicKey. rewrite read_public, generator_add by done.
  assert (EC_POINT_point2oct (mul_generator (be_value k + be_value (uint256_bytes s))) = public (AddScalars k s)) as <-.
  { unfold public, AddScalars. rewrite be_value_bytes, generator_order; [done|].
    pose proof order_bound. pose proof (Z.mod_pos_bound (be_value k + be_value (uint256_bytes s)) ORDER eq_refl). lia. }
  apply generator_nonzero in Hs. destruct Hst as [Hst| ->]; [exact (write_point_ok _ _ Hst Hs)|exact (write_point_nil _ Hs)].
Qed.

(** The amount comes from the proof alone. *)
Lemma either_amount {A B C} (b : bool) (o : option B) (x : A) (t : B) (m : C) r :
  (if b then Some (x, t, m) else match o with None => None | Some y => Some (x, y, m) end) = Some r -> r.1.1 = x.
Proof. destruct b; [by intros [= <-]|]. destruct o; [by intros [= <-]|done]. Qed.

Lemma recover_amount c p n1 n2 v1 b1 m1 v2 b2 m2 :
  Bulletproofs.RecoverMessage c p n1 = Some (v1, b1, m1) -> Bulletproofs.RecoverMessage c p n2 = Some (v2, b2, m2) -> v1 = v2.
Proof.
  unfold Bulletproofs.RecoverMessage. destruct (_ <? _); [done|]. destruct (Bulletproofs.ParseProof p) as [[q s]|]; [|done].
  destruct (Bulletproofs.ScalarToValue _); [|done]. cbv zeta.
  intros E1%either_amount E2%either_amount. cbn [fst] in *. by rewrite E1, E2.
Qed.

Lemma found_candidate n idx c nonce u b :
  Bulletproofs.find_blind n idx c nonce u = Some b -> exists i, b = Bulletproofs.blind_candidate nonce i.
Proof.
  revert idx. induction n as [|n IH]; intros idx; [done|]. cbn [Bulletproofs.find_blind]. cbv zeta.
  destruct (negb _); [apply IH|]. destruct (bool_decide _); [|apply IH]. intros [= <-]. by exists idx.
Qed.

Lemma recover_blind c p nonce v b m :
  Bulletproofs.RecoverMessage c p nonce = Some (v, b, m) ->
  b = sha256 (uint256_bytes nonce ++ Bulletproofs.label_blind_recover) \/ exists i, b = Bulletproofs.blind_candidate nonce i.
Proof.
  unfold Bulletproofs.RecoverMessage. destruct (_ <? _); [done|]. destruct (Bulletproofs.ParseProof p) as [[q s]|]; [|done].
  destruct (Bulletproofs.ScalarToValue _) as [u|]; [|done]. cbv zeta. destruct (bool_decide _); [intros [= _ <- _]; by left|].
  destruct (Bulletproofs.find_blind _ _ _ _ _) eqn:E; [|discriminate]. intros [= _ <- _]. right. by eapply found_candidate.
Qed.

(** What the sender of an output to the wallet knows and chose so that its receiver
    can tell: the blinding factor is one of those the nonce derives, and the nonce is
    the shared secret or derived from it. *)
Record payment (w : CMWWallet) (secret : bytes) (v : Z) (blind : bytes) (nonce : uint256) : Prop := {
  py_secret : valid_key secret;
  py_shared : (be_value secret * be_value (scanPrivKey w)) mod ORDER <> 0;
  py_dest : (be_value (spendPrivKey w) + be_value (uint256_bytes (shared secret (scanPrivKey w)))) mod ORDER <> 0;
  py_nonce : nonce = shared secret (scanPrivKey w) \/ nonce = proof_nonce (shared secret (scanPrivKey w));
  py_blind : exists i, 0 <= i < 256 /\ blind = Bulletproofs.blind_candidate nonce i;
  py_valid : ec_seckey_verify blind = true;
  py_value : v < 2 ^ 63;
  py_rounds : Bulletproofs.rounds_ok (Bulletproofs.ComputeProofSeed nonce blind v);
  py_proof : Bulletproofs.Prove v blind nonce [] <> []
}.

Lemma recover_payment w secret v blind nonce stack :
  payment w secret v blind nonce ->
  exists b m, recover (make_output secret (scanPubKey w) (spendPubKey w) v blind nonce stack) (shared secret (scanPrivKey w)) =
    Some (v, b, m) /\ Commit v b = Commit v blind.
Proof.
  intros Hp. destruct (py_blind _ _ _ _ _ Hp) as (i & Hi & Eb). pose proof (py_valid _ _ _ _ _ Hp) as Hv.
  pose proof (py_rounds _ _ _ _ _ Hp) as Hr. pose proof (py_proof _ _ _ _ _ Hp) as Hpr. rewrite Eb in Hv, Hr, Hpr.
  destruct (Bulletproofs.recover_complete sha_length v nonce i [] Hi (py_value _ _ _ _ _ Hp) eq_refl Hv Hr Hpr) as (b & Er & Ec).
  rewrite <-Eb in Er, Ec. unfold recover. cbn [o_commitment rangeProof make_output].
  destruct (py_nonce _ _ _ _ _ Hp) as [En|En]; rewrite <-En.
  - destruct (Bulletproofs.RecoverMessage _ _ (proof_nonce nonce)) as [[[v' b'] m']|] eqn:E; [|by exists b, []].
    pose proof (recover_amount _ _ _ _ _ _ _ _ _ _ E Er) as ->. apply Bulletproofs.recover_opens in E as [E _]. by exists b', m'.
  - rewrite Er. by exists b, [].
Qed.

Lemma recognise_payment w h secret v blind nonce stack :
  keys_ok w -> payment w secret v blind nonce -> length stack = PUBKEY_SIZE ->
  let o := make_output secret (scanPubKey w) (spendPubKey w) v blind nonce stack in
  exists e, recognise w h o = Some e /\ output e = o /\ nValue e = v /\ Commit v (blindingFactor e) = o_commitment o /\
    nBlockHeight e = h /\ fSpent e = false /\ public (spendKey e) = receiverPubKey o.
Proof.
  intros Hk Hp Hst o. destruct (recover_payment w secret v blind nonce stack Hp) as (b & m & Er & Ec).
  assert (senderPubKey o = public secret) as Es by (change (senderPubKey o) with (DerivePublicKey secret stack).1; by rewrite DerivePublicKey_ok by (done || apply Hp)).
  assert (receiverPubKey o = public (AddScalars (spendPrivKey w) (shared secret (scanPrivKey w)))) as Erc.
  { unfold o, make_output. cbn [receiverPubKey]. rewrite (ko_scan_pub _ Hk), (ko_spend_pub _ Hk), ECDH_public by first [apply Hk|apply Hp]. cbn [default].
    rewrite AddScalar_public by first [apply Hk|apply Hp|by left]. done. }
  assert (ComputeECDHSharedSecret (scanPrivKey w) (public secret) = Some (shared secret (scanPrivKey w))) as Ee.
  { rewrite ECDH_public; [by rewrite shared_comm|apply Hp|rewrite Z.mul_comm; apply Hp]. }
  unfold recognise, DeriveSpendKey. rewrite Es, Ee, Erc, (ko_spend_pub _ Hk).
  rewrite AddScalar_public by first [apply Hk|apply Hp|by right]. cbn [negb]. rewrite bool_decide_true by done. cbn [negb].
  fold o in Er. rewrite Er. eexists. split; [reflexivity|]. cbn [output nValue blindingFactor nBlockHeight fSpent spendKey]. rewrite Ec. repeat (split; [reflexivity|]). reflexivity.
Qed.

(** What is found has a blinding factor the shared secret determines: an output with
    one drawn at random, as those of [CreateMWTransaction], is not found but by chance. *)
Theorem recognised_blind w h o e :
  recognise w h o = Some e ->
  exists s nonce, ComputeECDHSharedSecret (scanPrivKey w) (senderPubKey o) = Some s /\
    (nonce = s \/ nonce = proof_nonce s) /\ Commit (nValue e) (blindingFactor e) = o_commitment o /\
    (blindingFactor e = sha256 (uint256_bytes nonce ++ Bulletproofs.label_blind_recover) \/
     exists i, blindingFactor e = Bulletproofs.blind_candidate nonce i).
Proof.
  unfold recognise. destruct (ComputeECDHSharedSecret _ _) as [s|] eqn:Es; [|done].
  destruct (AddScalarToPublicKey _ _ _) as [k ok]. destruct ok; [|done]. cbn [negb]. destruct (negb _); [done|].
  destruct (DeriveSpendKey _ _); [|done]. unfold recover.
  destruct (Bulletproofs.RecoverMessage _ _ (proof_nonce s)) as [[[v b] m]|] eqn:E1.
  - intros [= <-]. exists s, (proof_nonce s). pose proof (Bulletproofs.recover_opens _ _ _ _ _ _ E1) as [Hc _].
    apply recover_blind in E1. cbn [nValue blindingFactor]. auto.
  - destruct (Bulletproofs.RecoverMessage _ _ s) as [[[v b] m]|] eqn:E2; [|done]. intros [= <-]. exists s, s.
    pose proof (Bulletproofs.recover_opens _ _ _ _ _ _ E2) as [Hc _]. apply recover_blind in E2. cbn [nValue blindingFactor]. auto.
Qed.

(** C24. A payment that the receiver can recognise is found. Let the keys of the wallet
    be valid and its public keys theirs; let an output be made to them with a valid
    ephemeral key, a range-proof nonce that is the shared secret or derived from it, a
    blinding factor that is one of the 256 the nonce derives, and an amount for which a
    proof is made, with as many left as right points in its rounds, no sum or product of
    secrets being zero. Where a block has the output, with commitments all different and
    fewer than 2^31, and the wallet does not have it yet, [ScanForOutputs] makes the
    wallet own it, at the height of the block, with the amount that was paid, a blinding
    factor that opens the commitment and the secret key of its receiver key, and marks
    it spent exactly when an input of the block spends it. *)
Theorem payment_found block w db secret v blind nonce stack :
  let o := make_output secret (scanPubKey w) (spendPubKey w) v blind nonce stack in
  keys_ok w -> payment w secret v blind nonce -> length stack = PUBKEY_SIZE ->
  o ∈ vOutputs (b_body block) -> NoDup (map o_commitment (vOutputs (b_body block))) ->
  mapOwnedOutputs w !! o_commitment o = None -> len (vOutputs (b_body block)) < 2 ^ 31 ->
  exists e, mapOwnedOutputs (ScanForOutputs block w db).1.1 !! o_commitment o = Some e /\
    output e = o /\ nValue e = v /\ Commit v (blindingFactor e) = o_commitment o /\ nBlockHeight e = nHeight block /\
    public (spendKey e) = receiverPubKey o /\
    fSpent e = bool_decide (o_commitment o ∈ map i_commitment (vInputs (b_body block))).
Proof.
  intros o Hk Hp Hst Hin Hnd Hnew Hlen. pose proof (scan_spec block w db (keys_ok_has w Hk) Hlen) as Hs.
  destruct (ScanForOutputs block w db) as [[w' db'] n]. destruct Hs as (_ & Hl & _). cbn [fst]. rewrite Hl, Hnew. cbv zeta.
  destruct (recognise_payment w (nHeight block) secret v blind nonce stack Hk Hp Hst) as (e & Er & E1 & E2 & E3 & E4 & E5 & E6).
  fold o in Er, E1, E3, E6. assert (new_entry w (nHeight block) (vOutputs (b_body block)) (o_commitment o) = Some e) as ->.
  { clear Hl Hnew Hlen. revert Hin Hnd. induction (vOutputs (b_body block)) as [|x l IH]; [by intros ?%not_elem_of_nil|].
    cbn [map]. rewrite new_entry_cons, NoDup_cons. intros [<-|Hin]%elem_of_cons [Hni Hnd].
    - by rewrite bool_decide_true, Er by done.
    - rewrite bool_decide_false; [by apply IH|]. intros E. apply Hni. rewrite E. exact (list_elem_of_fmap_2 o_commitment l o Hin). }
  case_bool_decide; [exists (mark e)|exists e]; by rewrite ?E5.
Qed.
End payments.

(** ** Witnesses *)

Section witnesses.
#[local] Existing Instance log_secp.
#[local] Existing Instance log_laws.
#[local] Existing Instance residue_points.
#[local] Instance toy : Sha256 := toy_sha256.
#[local] Instance no_db : MwWalletDB :=
  {| walletdb := unit; WriteMWKey := fun _ _ db => (db, true); ReadMWKey := fun _ _ => None; WriteMWOutput := fun _ _ db => (db, true) |}.

Definition no_file : walletdb := tt.
Definition receiver : CMWWallet :=
  {| pWallet := Some true; scanPrivKey := key 3; scanPubKey := 2 :: key 3; spendPrivKey := key 4; spendPubKey := 2 :: key 4;
     mapOwnedOutputs := ∅ |}.
Definition pay_nonce : uint256 := proof_nonce (shared (key 25) (key 3)).
Definition pay_blind : bytes := Bulletproofs.blind_candidate pay_nonce 0.
Definition pay_output : CMWOutput := make_output (key 25) (2 :: key 3) (2 :: key 4) 1234 pay_blind pay_nonce (replicate 33 0).
Definition pay_block (o : CMWOutput) : CMWBlock :=
  {| hashPrevMWBlock := 0; b_body := {| vInputs := []; vOutputs := [o]; vKernels := [] |}; vCutThrough := []; nHeight := 7;
     b_offset := null_blind |}.

Lemma receiver_keys : keys_ok receiver.
Proof. split; [vm_compute; split; reflexivity|vm_compute; split; reflexivity|vm_compute; reflexivity|vm_compute; reflexivity]. Qed.

Lemma pay_payment : payment receiver (key 25) 1234 pay_blind pay_nonce.
Proof.
  split.
  - vm_compute. split; reflexivity.
  - vm_compute. discriminate.
  - vm_compute. discriminate.
  - right. reflexivity.
  - exists 0. split; [lia|reflexivity].
  - vm_compute. reflexivity.
  - lia.
  - vm_compute. reflexivity.
  - vm_compute. discriminate.
Qed.

Lemma payment_found_witness :
  exists e, mapOwnedOutputs (ScanForOutputs (pay_block pay_output) receiver no_file).1.1 !! o_commitment pay_output = Some e /\
    nValue e = 1234 /\ nBlockHeight e = 7.
Proof.
  destruct (payment_found Bulletproofs.sample_sha_length (pay_block pay_output) receiver no_file (key 25) 1234 pay_blind pay_nonce (replicate 33 0)
    receiver_keys pay_payment) as (e & H1 & _ & H2 & _ & H3 & _).
  - reflexivity.
  - apply list_elem_of_singleton. reflexivity.
  - apply NoDup_singleton.
  - reflexivity.
  - vm_compute. reflexivity.
  - exists e. split; [exact H1|]. split; [exact H2|exact H3].
Defined.
End witnesses.

End MwWallet.
