(* ===== verification/MwSpend.v ===== *)
(** * Transactions of the MimbleWimble wallet ([src/mw/mw_wallet.cpp])

    What [CreateMWTransaction] of [MwWallet] takes from the wallet, what the
    commitments it makes add up to and how the validation of [MwValidation] answers. *)

From S2P Require Import Prelude Crypto Secp Points Serialize Mmr MwModels MwCrypto Bulletproofs.
From S2P Require Import Transactions MwState MwValidation Peg MwWallet.
Import Stream MwModels MwState MwCrypto MwWallet.

Module MwSpend.

(** ** Structure *)

Section created.
Context `{Sha256} `{Secp256k1} `{OpenSSLPoints}.
#[local] Opaque BlindSum Commit Sort GenerateBlindingFactor.

(** The numbers a transaction of the wallet is made of. *)
Definition change_of (nAmount v : Z) : Z := i64 (i64 (v - nAmount) - Transactions.MIN_TX_FEE).

Definition dest_blind (r : draws) : BlindingFactor := GenerateBlindingFactor (d_destBlind r).
Definition change_blind (r : draws) : BlindingFactor := GenerateBlindingFactor (d_changeBlind r).

(** The amounts and blinding factors of the outputs. *)
Definition openings (r : draws) (nAmount nChange : Z) : list (Z * BlindingFactor) :=
  (nAmount, dest_blind r) :: (if 0 <? nChange then [(nChange, change_blind r)] else []).

Definition commit_pair (p : Z * BlindingFactor) : Commitment := Commit p.1 p.2.

Definition excess_of (r : draws) (nAmount nChange : Z) (sel : list CMWOwnedOutput) : BlindingFactor :=
  BlindSum [BlindSum (map snd (openings r nAmount nChange)) (map blindingFactor sel)] [GenerateBlindingFactor (d_offset r)].

Definition change_output (r : draws) (nChange : Z) (w : CMWWallet) : CMWOutput :=
  make_output (d_changeEphemeral r) (scanPubKey w) (spendPubKey w) nChange (change_blind r) (d_changeNonce r) (d_stack r).

Lemma set_signature_commitments c sig l : map i_commitment (set_signature c sig l) = map i_commitment l.
Proof. induction l as [|i l IH]; [done|]. cbn. case_bool_decide; cbn; [done|]. by rewrite IH. Qed.

Lemma sign_inputs_commitments h sel l : map i_commitment (sign_inputs h sel l) = map i_commitment l.
Proof.
  unfold sign_inputs. revert l. induction sel as [|e sel IH]; intros l; cbn [fold_left]; [done|].
  by rewrite IH, set_signature_commitments.
Qed.

(** The order of inputs is that of their commitments. *)
Lemma input_order l k : map i_commitment l = map i_commitment k -> ordered input_lt l = ordered input_lt k.
Proof.
  revert k. induction l as [|i l IH]; intros [|j k] E; try done. cbn [map] in E. injection E as Ei El.
  destruct l as [|i' l], k as [|j' k]; try done. specialize (IH _ El). cbn [map] in El. injection El as Ei' El.
  change (ordered input_lt (i :: i' :: l)) with (if input_lt i' i then false else ordered input_lt (i' :: l)).
  rewrite IH. unfold input_lt at 1. rewrite Ei, Ei'. done.
Qed.

Lemma eq_Permutation {A} (l k : list A) : l = k -> l ≡ₚ k.
Proof. by intros ->. Qed.

Lemma output_commitments r scanK spendK scanK' spendK' n c :
  map o_commitment (make_output (d_ephemeral r) scanK spendK n (GenerateBlindingFactor (d_destBlind r)) (d_proofNonce r) (d_stack r) ::
    (if 0 <? c then [make_output (d_changeEphemeral r) scanK' spendK' c (if 0 <? c then GenerateBlindingFactor (d_changeBlind r) else null_blind)
                       (d_changeNonce r) (d_stack r)] else [])) = map commit_pair (openings r n c).
Proof.
  unfold openings. destruct (0 <? c); cbn [map]; unfold commit_pair, make_output, dest_blind, change_blind; cbn [o_commitment fst snd]; reflexivity.
Qed.

(** What a transaction that was created is made of. *)
Lemma created_fields r scanK spendK n w w' tx :
  CreateMWTransaction r scanK spendK n w = (w', Some tx) ->
  0 < n /\ exists sel v, SelectMWOutputs (i64 (n + Transactions.MIN_TX_FEE)) w = Some (sel, v) /\
    let c := change_of n v in
    map i_commitment (vInputs (t_body tx)) ≡ₚ map (fun e => o_commitment (output e)) sel /\
    map o_commitment (vOutputs (t_body tx)) ≡ₚ map commit_pair (openings r n c) /\
    map excess (vKernels (t_body tx)) = [CommitBlind (excess_of r n c sel)] /\
    map nFee (vKernels (t_body tx)) = [Transactions.MIN_TX_FEE] /\
    t_offset tx = GenerateBlindingFactor (d_offset r) /\
    IsCanonicallyOrdered (t_body tx) = true /\
    w' = (if 0 <? c
          then AddOwnedOutput {| output := change_output r c w; blindingFactor := change_blind r;
                 spendKey := default (replicate 32 0) (DeriveSpendKey (mark_all sel w) (senderPubKey (change_output r c w)));
                 nValue := c; nBlockHeight := 0; fSpent := false |} (mark_all sel w)
          else mark_all sel w).
Proof.
  unfold CreateMWTransaction. destruct (Z.leb_spec n 0); [done|]. destruct (SelectMWOutputs _ w) as [[sel v]|]; [|done].
  cbv zeta. fold (change_of n v). intros E. apply pair_equal_spec in E as [Ew Etx]. injection Etx as <-. split; [done|].
  exists sel, v. split; [done|]. cbv zeta. set (c := change_of n v) in *. clearbody c.
  cbn [t_body t_offset vInputs vOutputs vKernels]. rewrite sign_inputs_commitments.
  match goal with |- context [Sort ?b] => pose proof (sort_canonical b) as (Ho & Hi & Hout & Hk); set (body := Sort b) in * end.
  cbn [vInputs vOutputs vKernels] in Hi, Hout, Hk. apply Permutation_singleton_r in Hk. clearbody body. rewrite Hk.
  pose proof (Permutation_map i_commitment Hi) as Hi'. rewrite map_map in Hi'.
  pose proof (Permutation_map o_commitment Hout) as Hout'. rewrite output_commitments in Hout'.
  split; [exact Hi'|]. split; [exact Hout'|]. clear Hi Hout Hi' Hout'.
  repeat split.
  - unfold excess_of, openings, dest_blind, change_blind. cbn [map excess Peg.sign_kernel snd]. by destruct (0 <? c).
  - unfold IsCanonicallyOrdered in *. cbn [vInputs vOutputs vKernels]. rewrite (input_order _ _ (sign_inputs_commitments _ _ _)). rewrite Hk in Ho. exact Ho.
  - rewrite <-Ew. unfold change_output, change_blind, mark_all. destruct (0 <? c); cbv iota; reflexivity.
Qed.
End created.

(** ** What it takes from the wallet *)

Section pays.
Context `{Sha256} `{Secp256k1} `{OpenSSLPoints}.

Lemma mark_all_ok sel rest w :
  keyed w -> GetUnspentOutputs w ≡ₚ sel ++ rest ->
  NoDup (map (fun e => o_commitment (output e)) sel) /\
  Forall (fun e => mapOwnedOutputs w !! o_commitment (output e) = Some e /\ fSpent e = false) sel /\
  total (GetUnspentOutputs (mark_all sel w)) = total rest.
Proof.
  intros Hk Hp. destruct (unspent_entries w sel Hk) as [Hnd Hall]; [rewrite Hp; by apply submseteq_inserts_r|].
  split; [done|]. split; [done|]. pose proof (mark_all_total sel w Hnd Hall) as E.
  rewrite Hp, total_app in E. lia.
Qed.

Lemma mark_all_worth l w : Forall worth (owned w) -> Forall worth (owned (mark_all l w)).
Proof.
  rewrite !Forall_forall. intros Hw e [c Hc]%owned_spec. rewrite mark_all_lookup in Hc.
  case_bool_decide; [|apply Hw, owned_spec; by exists c].
  apply fmap_Some in Hc as (e' & Hc & ->). apply (Hw e'), owned_spec. by exists c.
Qed.

Lemma add_output_owned e w :
  mapOwnedOutputs w !! o_commitment (output e) = None -> owned (AddOwnedOutput e w) ≡ₚ e :: owned w.
Proof. apply entries_insert. Qed.

Lemma change_new r n c w os :
  map o_commitment os ≡ₚ map commit_pair (openings r n c) -> 0 < c ->
  Forall (fun o => mapOwnedOutputs w !! o_commitment o = None) os -> mapOwnedOutputs w !! Commit c (change_blind r) = None.
Proof.
  intros Hp Hc Hos. apply (Forall_map o_commitment (fun x => mapOwnedOutputs w !! x = None)) in Hos. rewrite Hp in Hos.
  apply (proj1 (Forall_forall _ _) Hos). unfold openings. destruct (Z.ltb_spec 0 c); [|lia]. cbn [map]. unfold commit_pair. cbn [fst snd].
  set_solver.
Qed.

(** C25. A transaction that [CreateMWTransaction] makes spends outputs the wallet owned
    unspent, which are its inputs and are spent in the wallet after; its outputs commit
    to the amount that is paid and to what is left of the selected outputs after the
    amount and the fee; it is in the canonical order, with the fee on its one kernel;
    and it takes from the balance exactly what it pays and the fee. The wallet keeps its
    entries under their commitments, none has a negative amount, what is unspent and the
    amount with the fee fit 64 bits, and the outputs made are new to the wallet. *)
Theorem created_pays r scanK spendK n w w' tx :
  CreateMWTransaction r scanK spendK n w = (w', Some tx) ->
  amounts_ok w -> keyed w -> n + Transactions.MIN_TX_FEE < 2 ^ 63 ->
  Forall (fun o => mapOwnedOutputs w !! o_commitment o = None) (vOutputs (t_body tx)) ->
  exists sel, sel ⊆+ GetUnspentOutputs w /\
    map i_commitment (vInputs (t_body tx)) ≡ₚ map (fun e => o_commitment (output e)) sel /\
    map o_commitment (vOutputs (t_body tx)) ≡ₚ
      map commit_pair (openings r n (total sel - n - Transactions.MIN_TX_FEE)) /\
    Forall (fun e => mapOwnedOutputs w' !! o_commitment (output e) = Some (mark e)) sel /\
    map nFee (vKernels (t_body tx)) = [Transactions.MIN_TX_FEE] /\ IsCanonicallyOrdered (t_body tx) = true /\
    amounts_ok w' /\ keyed w' /\ GetMWBalance w' = GetMWBalance w - n - Transactions.MIN_TX_FEE.
Proof.
  intros Hcr Hok Hk Hb Hnew. apply created_fields in Hcr as (Hn & sel & v & Hsel & Hi & Hout & _ & Hf & _ & Ho & ->).
  assert (0 < Transactions.MIN_TX_FEE) as Hfee by done. rewrite i64_id in Hsel by lia.
  apply (coins_selected _ _ _ _ Hok) in Hsel as (rest & Hp & Ev & Hle). exists sel.
  destruct (mark_all_ok sel rest w Hk Hp) as (_ & Hall & Hrest).
  assert (Forall worth (owned w)) as Hw by apply Hok. pose proof (ao_bound _ Hok) as Hbound. rewrite Hp, total_app in Hbound.
  assert (Forall worth (sel ++ rest)) as Hsr.
  { rewrite <-Hp. apply Forall_forall. intros e [He _]%elem_of_List_filter. by apply (proj1 (Forall_forall _ _) Hw). }
  apply Forall_app in Hsr as [Hs Hr]. apply total_nonneg in Hs, Hr.
  assert (change_of n v = v - n - Transactions.MIN_TX_FEE) as Ec by (unfold change_of; rewrite (i64_id (v - n)) by lia; rewrite i64_id by lia; lia). set (c := change_of n v) in *.
  split; [rewrite Hp; by apply submseteq_inserts_r|]. split; [done|]. split; [by rewrite <-Ev, <-Ec|].
  assert (Forall (fun e => mapOwnedOutputs (mark_all sel w) !! o_commitment (output e) = Some (mark e)) sel) as Hm.
  { rewrite Forall_forall in *. intros e He. rewrite mark_all_lookup, bool_decide_true.
    - by rewrite (proj1 (Hall e He)).
    - exact (list_elem_of_fmap_2 (fun e => o_commitment (output e)) sel e He). }
  assert (keyed (mark_all sel w)) as Hkm.
  { intros c' e. rewrite mark_all_lookup. case_bool_decide; [|apply Hk]. intros (e' & He & ->)%fmap_Some. exact (Hk _ _ He). }
  pose proof (mark_all_worth sel w Hw) as Hwm.
  destruct (Z.ltb_spec 0 c) as [Hc|Hc].
  - match goal with |- context [AddOwnedOutput ?e0 _] => set (e := e0) end.
    assert (mapOwnedOutputs (mark_all sel w) !! o_commitment (output e) = None) as Hne.
    { rewrite mark_all_lookup. apply (change_new _ _ _ _ _ Hout Hc) in Hnew. change (o_commitment (output e)) with (Commit c (change_blind r)).
      rewrite Hnew. by case_bool_decide. }
    assert (GetUnspentOutputs (AddOwnedOutput e (mark_all sel w)) ≡ₚ e :: GetUnspentOutputs (mark_all sel w)) as Hu.
    { unfold GetUnspentOutputs. rewrite add_output_owned by done. done. }
    assert (nValue e = c) as Ene by done.
    split; [|split; [done|split; [done|]]].
    { eapply Forall_impl; [exact Hm|]. intros x Hx. cbn beta in Hx. unfold AddOwnedOutput. cbn [mapOwnedOutputs with_outputs].
      rewrite lookup_insert_ne; [done|]. intros E. rewrite <-E, Hne in Hx. done. }
    assert (amounts_ok (AddOwnedOutput e (mark_all sel w))) as Hok'.
    { split; [|rewrite Hu, total_cons, Hrest, Ene; lia]. rewrite add_output_owned by done.
      constructor; [unfold worth; lia|done]. }
    split; [done|]. split.
    { intros c' x. unfold AddOwnedOutput. cbn [mapOwnedOutputs with_outputs]. destruct (decide (o_commitment (output e) = c')) as [<-|Hne'].
      - rewrite lookup_insert_eq. by intros [= <-].
      - rewrite lookup_insert_ne by done. apply Hkm. }
    rewrite !balance_exact, Hu, Hp, total_cons, total_app, Hrest by done. lia.
  - split; [done|]. split; [done|]. split; [done|].
    assert (amounts_ok (mark_all sel w)) as Hok' by (split; [done|lia]). split; [done|]. split; [done|].
    rewrite !balance_exact, Hp, total_app, Hrest by done. lia.
Qed.
End pays.

(** ** What its commitments add up to *)

Section balance.
Context `{Sha256} `{Secp256k1} `{!SecpLaws} `{!SecpGroup} `{!SecpScalars} `{OpenSSLPoints}.
#[local] Opaque GenerateBlindingFactor.

Definition values (l : list (Z * BlindingFactor)) : Z := foldr Z.add 0 (map fst l).
Definition keys (l : list BlindingFactor) : Z := foldr Z.add 0 (map be_value l).

(** The point a value and a key commit to. *)
Definition opening_point (G : pubkey) (v k : Z) : point := point_add (scale k generator) (scale v (point_of G)).

Lemma opening_point_add G v v' k k' :
  opening_point G (v + v') (k + k') = point_add (opening_point G v k) (opening_point G v' k').
Proof.
  unfold opening_point. rewrite !scale_add, <-!point_add_assoc. f_equal. rewrite !point_add_assoc. f_equal. apply point_add_comm.
Qed.

Lemma opening_point_congr G v k k' : k mod ORDER = k' mod ORDER -> opening_point G v k = opening_point G v k'.
Proof. intros E. unfold opening_point. by rewrite (scale_congr k k' generator E). Qed.

Lemma opening_point_fee G v k f : point_add (opening_point G v k) (scale f (point_of G)) = opening_point G (v + f) k.
Proof. unfold opening_point. by rewrite scale_add, point_add_assoc. Qed.

Lemma value_scalar_value v : 0 <= v < 2 ^ 256 -> be_value (value_scalar v) = v.
Proof.
  intros Hv. unfold value_scalar. destruct (Z.leb_spec 0 v); [|lia]. rewrite Bulletproofs.fill_scalar_be, app_nil_r by lia.
  apply be_value_bytes. lia.
Qed.

Lemma Commit_point v b G :
  ec_pubkey_parse GENERATOR_H = Some G -> 0 <= v < 2 ^ 256 -> Commit v b <> null_commitment ->
  IsCanonicalCommitment (Commit v b) = true /\
  exists p, ec_pubkey_parse (Commit v b) = Some p /\ point_of p = opening_point G v (be_value b).
Proof.
  intros HG Hv Hn. pose proof (value_scalar_value v Hv) as Es. unfold Commit in *. destruct (ec_pubkey_create b) as [rG|] eqn:Er; [|done].
  rewrite HG in *. cbv zeta in *. apply create_point in Er. destruct (forallb _ _) eqn:Ez.
  - rewrite serialize_canonical, parse_serialize. split; [done|]. exists rG. split; [done|].
    assert (v = 0) as -> by (rewrite <-Es; apply null_value; exact Ez). unfold opening_point.
    by rewrite scale_zero, point_add_comm, point_add_zero.
  - destruct (ec_pubkey_tweak_mul _ _) as [vH|] eqn:Et; [|done]. destruct (ec_pubkey_combine _) as [p|] eqn:Ec; [|done].
    rewrite serialize_canonical, parse_serialize. split; [done|]. exists p. split; [done|].
    rewrite (point_of_combine _ _ Ec). cbn. rewrite Er, (tweak_mul_point _ _ _ Et), Es.
    unfold opening_point. by rewrite (point_add_comm (scale v _) point_zero), point_add_zero.
Qed.

Lemma parse_commits G l :
  ec_pubkey_parse GENERATOR_H = Some G -> Forall (fun p => 0 <= p.1 < 2 ^ 256) l -> null_commitment ∉ map commit_pair l ->
  exists ks, parse_keys (map commit_pair l) = Some ks /\
    point_sum (map point_of ks) = opening_point G (values l) (keys (map snd l)).
Proof.
  intros HG Hl Hn. induction Hl as [|[v b] l Hv Hl IH].
  - exists []. split; [done|]. unfold opening_point. cbn. by rewrite !scale_zero, point_add_zero.
  - cbn [map] in Hn. apply not_elem_of_cons in Hn as [Hne Hn]. destruct (IH Hn) as (ks & Ek & Es).
    destruct (Commit_point v b G HG Hv) as (Hc & p & Ep & Epp); [intros E; by apply Hne|].
    exists (p :: ks). cbn [map parse_keys]. unfold commit_pair at 1 2. cbn [fst snd]. rewrite Hc, Ep, Ek. split; [done|].
    unfold point_sum in *. cbn [map foldr]. rewrite Es, Epp. unfold values, keys. cbn [map foldr fst snd]. by rewrite opening_point_add.
Qed.

(** Sums over permuted commitments. *)
Lemma parse_perm v v' ks :
  v ≡ₚ v' -> parse_keys v = Some ks -> exists ks', parse_keys v' = Some ks' /\ point_sum (map point_of ks') = point_sum (map point_of ks).
Proof.
  intros Hp. revert ks. induction Hp as [|c v v' _ IH|c d v|v1 v2 v3 _ IH1 _ IH2]; intros ks E.
  - by exists ks.
  - cbn [parse_keys] in *. destruct (negb _); [done|]. destruct (ec_pubkey_parse c) as [k|]; [|done].
    destruct (parse_keys v) as [l|]; [|done]. injection E as <-. destruct (IH l eq_refl) as (l' & -> & El). exists (k :: l').
    split; [done|]. unfold point_sum in *. cbn [map foldr]. by rewrite El.
  - cbn [parse_keys] in *. destruct (negb (IsCanonicalCommitment d)), (negb (IsCanonicalCommitment c)); try done;
      destruct (ec_pubkey_parse d) as [kd|], (ec_pubkey_parse c) as [kc|]; try done;
      destruct (parse_keys v) as [l|]; try done. injection E as <-. exists (kc :: kd :: l). split; [done|].
    unfold point_sum. cbn [map foldr]. rewrite !point_add_assoc. f_equal. apply point_add_comm.
  - destruct (IH1 ks E) as (k2 & E2 & S2). destruct (IH2 k2 E2) as (k3 & E3 & S3). exists k3. by rewrite S3.
Qed.

(** Sums of blinding factors, modulo the order. *)
Lemma fold_add_value l s s' : fold_left blind_add_step l (Some s) = Some s' -> be_value s' mod ORDER = (be_value s + keys l) mod ORDER.
Proof.
  revert s. induction l as [|b l IH]; intros s; cbn [fold_left blind_add_step].
  - intros [= <-]. unfold keys. cbn. by rewrite Z.add_0_r.
  - destruct (ec_seckey_tweak_add s b) as [t|] eqn:E; [|intros Hx; exfalso; clear -Hx; induction l; cbn in Hx; auto; discriminate].
    intros Hl. rewrite (IH _ Hl). apply tweak_add_value in E. rewrite E. unfold keys. cbn [map foldr].
    rewrite Zplus_mod_idemp_l. f_equal. lia.
Qed.

Lemma fold_negate_value l f s r :
  fold_left (negate_step false) l (Some (f, s)) = Some r -> be_value r.2 mod ORDER = (be_value s - keys l) mod ORDER.
Proof.
  revert f s. induction l as [|b l IH]; intros f s; cbn [fold_left negate_step].
  - intros [= <-]. unfold keys. cbn. by rewrite Z.sub_0_r.
  - assert (fold_left (negate_step false) l None = None) as Hnone by (clear; induction l; cbn; auto).
    destruct (ec_seckey_negate b) as [nb|] eqn:En; [|by rewrite Hnone]. cbn [andb].
    destruct (ec_seckey_tweak_add s nb) as [t|] eqn:E; [|by rewrite Hnone]. intros Hl. rewrite (IH _ _ Hl).
    apply tweak_add_value in E. apply negate_value in En. rewrite E, En. unfold keys. cbn [map foldr].
    rewrite <-Zminus_mod_idemp_l, Zmod_mod, Zplus_mod_idemp_r, Zminus_mod_idemp_l. f_equal. lia.
Qed.

Lemma BlindSum_value p ps ns :
  BlindSum (p :: ps) ns <> null_blind -> be_value (BlindSum (p :: ps) ns) mod ORDER = (keys (p :: ps) - keys ns) mod ORDER.
Proof.
  intros Hn. unfold BlindSum in *. destruct (fold_left blind_add_step ps (Some p)) as [s|] eqn:Es; [|done].
  destruct (fold_left (negate_step false) ns (Some (true, s))) as [[f s']|] eqn:En; [|done].
  apply fold_negate_value in En. apply fold_add_value in Es. cbn [snd] in En. rewrite En.
  rewrite <-Zminus_mod_idemp_l, Es, Zminus_mod_idemp_l. unfold keys. cbn [map foldr]. f_equal.
Qed.

(** A sum that went on to be used was not null. *)
Lemma null_not_valid : ec_seckey_verify null_blind = false.
Proof.
  apply not_true_is_false. rewrite <-create_valid. change null_blind with (replicate 32 0). rewrite zero_key_invalid. by intros [? ?].
Qed.

Lemma BlindSum_used s o : BlindSum [s] [o] <> null_blind -> s <> null_blind.
Proof.
  unfold BlindSum. cbn [fold_left negate_step andb]. intros Hn ->. apply Hn. destruct (ec_seckey_negate o); [|done].
  destruct (ec_seckey_tweak_add _ _) eqn:E; [|done]. apply tweak_add_valid in E. by rewrite null_not_valid in E.
Qed.
(** Every entry opens its commitment. *)
Definition opened (w : CMWWallet) : Prop :=
  map_Forall (fun c e => Commit (nValue e) (blindingFactor e) = c /\ c <> null_commitment) (mapOwnedOutputs w).

Definition entry_pair (e : CMWOwnedOutput) : Z * BlindingFactor := (nValue e, blindingFactor e).

Lemma opened_commitments w sel :
  keyed w -> opened w -> sel ⊆+ GetUnspentOutputs w ->
  map (fun e => o_commitment (output e)) sel = map commit_pair (map entry_pair sel) /\
  null_commitment ∉ map commit_pair (map entry_pair sel).
Proof.
  intros Hk Ho Hsel. destruct (unspent_entries w sel Hk Hsel) as [_ Hall]. clear Hsel. induction Hall as [|e sel [He _] _ [IH1 IH2]].
  - split; [done|apply not_elem_of_nil].
  - destruct (Ho _ _ He) as [E Hn]. cbn [map]. rewrite IH1. change (commit_pair (entry_pair e)) with (Commit (nValue e) (blindingFactor e)). rewrite E.
    split; [done|]. apply not_elem_of_cons. by split; [intros Hx; apply Hn|].
Qed.

Lemma offset_opens G rand :
  ec_pubkey_parse GENERATOR_H = Some G ->
  exists ks, parse_keys (if IsNull (GenerateBlindingFactor rand) then [] else [CommitBlind (GenerateBlindingFactor rand)]) = Some ks /\
    point_sum (map point_of ks) = opening_point G 0 (be_value (GenerateBlindingFactor rand)).
Proof.
  intros HG. destruct (IsNull (GenerateBlindingFactor rand)) eqn:E.
  - exists []. split; [done|]. rewrite (null_value _ E). unfold opening_point. cbn. by rewrite !scale_zero, point_add_zero.
  - assert (Commit 0 (GenerateBlindingFactor rand) <> null_commitment) as Hn.
    { destruct (generated_blind_valid rand) as [Hv|Hv]; [|by rewrite Hv in E]. apply create_valid in Hv as [p Hp].
      unfold Commit. rewrite Hp, HG. apply serialize_nonzero. }
    destruct (parse_commits G [(0, GenerateBlindingFactor rand)] HG) as (ks & Ek & Es).
    + by constructor.
    + intros [Hx|Hx%not_elem_of_nil]%elem_of_cons; [by apply Hn|done].
    + exists ks. split; [exact Ek|]. rewrite Es. unfold values, keys. cbn [map foldr fst snd]. by rewrite !Z.add_0_r.
Qed.

Lemma selected_amounts w sel rest :
  amounts_ok w -> GetUnspentOutputs w ≡ₚ sel ++ rest -> Forall worth sel /\ Forall worth rest /\ total sel + total rest < 2 ^ 63.
Proof.
  intros Hok Hp. pose proof (ao_bound _ Hok) as Hbound. rewrite Hp, total_app in Hbound.
  assert (Forall worth (sel ++ rest)) as [Hs Hr]%Forall_app; [|done].
  rewrite <-Hp. apply Forall_forall. intros e [He _]%elem_of_List_filter. by apply (proj1 (Forall_forall _ _) (ao_worth _ Hok)).
Qed.

Lemma worth_le_total e l : Forall worth l -> e ∈ l -> nValue e <= total l.
Proof.
  intros Hl (l1 & l2 & ->)%list_elem_of_split. apply Forall_app in Hl as [Hl1 Hl2]. apply Forall_cons in Hl2 as [_ Hl2].
  apply total_nonneg in Hl1, Hl2. rewrite total_app, total_cons. lia.
Qed.

(** The excess and the offset are what the outputs' keys exceed the inputs' by. *)
Lemma excess_value r n c sel :
  excess_of r n c sel <> null_blind ->
  (be_value (excess_of r n c sel) + be_value (GenerateBlindingFactor (d_offset r))) mod ORDER =
  (keys (map snd (openings r n c)) - keys (map blindingFactor sel)) mod ORDER.
Proof.
  intros Hn. pose proof (BlindSum_used _ _ Hn) as Hu. unfold excess_of in *. apply BlindSum_value in Hn.
  assert (exists p ps, map snd (openings r n c) = p :: ps) as (p & ps & E) by (unfold openings; cbn [map]; eauto). rewrite E in *.
  apply BlindSum_value in Hu. rewrite <-Zplus_mod_idemp_l, Hn, Zplus_mod_idemp_l, <-Hu. unfold keys. cbn [map foldr]. f_equal. lia.
Qed.

Lemma values_openings r n c : 0 <= c -> values (openings r n c) = n + c.
Proof. intros Hc. unfold values, openings. cbn [map foldr fst]. destruct (Z.ltb_spec 0 c); cbn; lia. Qed.

(** C26. The commitments of a transaction that [CreateMWTransaction] makes add up as
    those of a transfer do: as points, its outputs and its fee are its inputs, its
    excess and its offset. The entries of the wallet open the commitments they are kept
    under, amounts are as in [created_pays], the generator of amounts parses, and no
    commitment of the wallet, of the outputs or of the kernel is null. *)
Theorem created_balances r scanK spendK n w w' tx G :
  CreateMWTransaction r scanK spendK n w = (w', Some tx) ->
  amounts_ok w -> keyed w -> opened w -> n + Transactions.MIN_TX_FEE < 2 ^ 63 -> ec_pubkey_parse GENERATOR_H = Some G ->
  null_commitment ∉ map o_commitment (vOutputs (t_body tx)) -> null_commitment ∉ map excess (vKernels (t_body tx)) ->
  exists outs ins exs off,
    parse_keys (map o_commitment (vOutputs (t_body tx))) = Some outs /\
    parse_keys (map i_commitment (vInputs (t_body tx))) = Some ins /\
    parse_keys (map excess (vKernels (t_body tx))) = Some exs /\
    parse_keys (if IsNull (t_offset tx) then [] else [CommitBlind (t_offset tx)]) = Some off /\
    point_add (point_sum (map point_of outs)) (scale Transactions.MIN_TX_FEE (point_of G)) =
      point_add (point_sum (map point_of ins)) (point_add (point_sum (map point_of exs)) (point_sum (map point_of off))).
Proof.
  intros Hcr Hok Hk Hop Hb HG Hno Hne.
  apply created_fields in Hcr as (Hn & sel & v & Hsel & Hi & Hout & Hex & _ & Hoff & _ & _).
  assert (0 < Transactions.MIN_TX_FEE) as Hfee by done. rewrite i64_id in Hsel by lia.
  apply (coins_selected _ _ _ _ Hok) in Hsel as (rest & Hp & Ev & Hle).
  assert (sel ⊆+ GetUnspentOutputs w) as Hsub by (rewrite Hp; by apply submseteq_inserts_r).
  destruct (selected_amounts w sel rest Hok Hp) as (Hs & Hr & Hbound).
  pose proof (total_nonneg _ Hs). pose proof (total_nonneg _ Hr).
  assert (change_of n v = v - n - Transactions.MIN_TX_FEE) as Ec by (unfold change_of; rewrite (i64_id (v - n)) by lia; rewrite i64_id by lia; lia).
  set (c := change_of n v) in *. clearbody c.
  destruct (opened_commitments w sel Hk Hop Hsub) as [Ei Hni]. rewrite Ei in Hi.
  destruct (parse_commits G (map entry_pair sel) HG) as (ins & Ein & Sin); [|done|].
  { apply Forall_map, Forall_forall. intros e He. cbn. pose proof (proj1 (Forall_forall _ _) Hs e He) as Hw. unfold worth in Hw.
    pose proof (worth_le_total e sel Hs He). lia. }
  destruct (parse_perm _ _ _ (symmetry Hi) Ein) as (ins' & Ein' & Sin').
  destruct (parse_commits G (openings r n c) HG) as (outs & Eout & Sout); [|by rewrite <-Hout|].
  { unfold openings. repeat constructor; cbn; [lia..|]. destruct (Z.ltb_spec 0 c); repeat constructor; cbn; lia. }
  destruct (parse_perm _ _ _ (symmetry Hout) Eout) as (outs' & Eout' & Sout').
  assert (null_commitment ∉ map commit_pair [(0, excess_of r n c sel)]) as Hnx by (rewrite Hex in Hne; exact Hne).
  destruct (parse_commits G [(0, excess_of r n c sel)] HG) as (exs & Eex & Sex); [by repeat constructor|done|].
  destruct (offset_opens G (d_offset r) HG) as (off & Eoff & Soff).
  exists outs', ins', exs, off. rewrite Hex, Hoff. do 4 (split; [done|]).
  rewrite Sout', Sin', Sout, Sin, Sex, Soff.
  assert (excess_of r n c sel <> null_blind) as Hxn.
  { intros E. apply Hnx. cbn [map]. rewrite E. unfold commit_pair. cbn [fst snd]. rewrite Commit_null_blind. apply list_elem_of_singleton. done. }
  pose proof (excess_value r n c sel Hxn) as Ex.
  rewrite <-!opening_point_add, opening_point_fee, values_openings by lia.
  assert (values (map entry_pair sel) = total sel) as -> by (unfold values; by rewrite map_map).
  assert (map snd (map entry_pair sel) = map blindingFactor sel) as -> by (by rewrite map_map).
  assert (keys (map snd [(0, excess_of r n c sel)]) = be_value (excess_of r n c sel)) as -> by (unfold keys; cbn; lia).
  assert (values [(0, excess_of r n c sel)] = 0) as -> by done.
  replace (n + c + Transactions.MIN_TX_FEE) with (total sel + (0 + 0)) by lia. apply opening_point_congr.
  rewrite <-Zplus_mod_idemp_r, Ex, Zplus_mod_idemp_r. f_equal. lia.
Qed.
End balance.

(** ** What the validation says *)

Section rejected.
Context `{Sha256} `{Secp256k1} `{!SecpLaws} `{!SecpGroup} `{OpenSSLPoints}.

Lemma total_fee_one b f : map nFee (vKernels b) = [f] -> GetTotalFee b = i64 f.
Proof.
  unfold GetTotalFee. destruct (vKernels b) as [|k [|k' l]]; try done. cbn. intros [= ->]. done.
Qed.

(** No state and height at which the transaction would be accepted. *)
Definition refused (tx : CMWTransaction) : Prop :=
  forall state h, MwValidation.IsValid (MwValidation.ValidateMWTransaction tx state h) = false.

(** Nor a block that carries the body. *)
Definition refused_in_blocks (body : CMWTransactionBody) : Prop :=
  forall block state h pegin pegout, b_body block = body ->
    MwValidation.IsValid (MwValidation.ValidateMWBlock block state h pegin pegout) = false.

(** C27. No transaction that [CreateMWTransaction] makes is accepted by
    [ValidateMWTransaction], whatever the state and the height, nor any block with its
    body by [ValidateMWBlock]: the fee of its kernel is a positive amount, which the sum
    check commits to with the null blinding factor. *)
Theorem created_rejected r scanK spendK n w w' tx :
  CreateMWTransaction r scanK spendK n w = (w', Some tx) -> refused tx /\ refused_in_blocks (t_body tx).
Proof.
  intros Hcr. apply created_fields in Hcr as (_ & sel & v & _ & _ & _ & _ & Hf & _). apply total_fee_one in Hf.
  assert (forall offset, MwValidation.VerifyCommitmentSum (t_body tx) offset <> true) as Hs.
  { intros offset Hv. apply MwValidation.sum_no_amounts in Hv as [Hv _]. rewrite Hf in Hv. vm_compute in Hv. done. }
  split.
  - intros state h. apply not_true_is_false. rewrite MwValidation.validate_transaction_spec. intros [_ Hb].
    by apply (Hs _ (MwValidation.bv_sum _ _ _ _ Hb)).
  - intros block state h pegin pegout Eb. apply not_true_is_false. rewrite MwValidation.ValidateMWBlock_spec, Eb.
    intros (_ & _ & Hb & _). by apply (Hs _ (MwValidation.bv_sum _ _ _ _ Hb)).
Qed.
End rejected.

(** ** Witnesses

    A wallet with two outputs on the concrete interfaces. *)

Section witnesses.
#[local] Existing Instance log_secp.
#[local] Existing Instance log_laws.
#[local] Existing Instance log_group.
#[local] Existing Instance log_scalars.
#[local] Existing Instance residue_points.
#[local] Instance toy : Sha256 := toy_sha256.

Definition COIN : Z := 100000000.

Definition toy_owned (v k : Z) : CMWOwnedOutput :=
  {| output := {| o_commitment := Commit v (key k); senderPubKey := pt 1; receiverPubKey := 2 :: key (100 + k);
                  rangeProof := []; o_nFeatures := 0 |};
     blindingFactor := key k; spendKey := key (100 + k); nValue := v; nBlockHeight := 5; fSpent := false |}.

Definition toy_wallet : CMWWallet :=
  AddOwnedOutput (toy_owned (2 * COIN) 12) (AddOwnedOutput (toy_owned (5 * COIN) 11)
    {| pWallet := Some true; scanPrivKey := key 3; scanPubKey := 2 :: key 3;
       spendPrivKey := key 4; spendPubKey := 2 :: key 4; mapOwnedOutputs := ∅ |}).

Definition toy_draws : draws :=
  {| d_destBlind := [None; Some (key 21)]; d_ephemeral := key 22; d_proofNonce := 23;
     d_changeBlind := [Some (key 24)]; d_changeEphemeral := key 25; d_changeNonce := 26;
     d_offset := [Some (key 27)]; d_stack := replicate 33 9 |}.

Definition created : CMWWallet * option CMWTransaction :=
  CreateMWTransaction toy_draws (2 :: key 30) (2 :: key 31) (6 * COIN) toy_wallet.
Definition no_tx : CMWTransaction := {| t_body := {| vInputs := []; vOutputs := []; vKernels := [] |}; t_offset := [] |}.
Definition created_tx : CMWTransaction := default no_tx created.2.

Lemma created_eq : CreateMWTransaction toy_draws (2 :: key 30) (2 :: key 31) (6 * COIN) toy_wallet = (created.1, Some created_tx).
Proof. vm_cast_no_check (eq_refl (created.1, Some created_tx)). Qed.

Lemma toy_amounts : amounts_ok toy_wallet.
Proof. split; [apply (bool_decide_unpack (Forall (fun e => 0 <= nValue e) _))|]; vm_compute; reflexivity. Qed.

Lemma toy_keyed : keyed toy_wallet.
Proof. apply (bool_decide_unpack (map_Forall (fun c e => o_commitment (output e) = c) (mapOwnedOutputs toy_wallet))). vm_compute. exact I. Qed.

Lemma toy_opened : opened toy_wallet.
Proof.
  apply (bool_decide_unpack (map_Forall (fun c e => Commit (nValue e) (blindingFactor e) = c /\ c <> null_commitment) (mapOwnedOutputs toy_wallet))).
  vm_compute. exact I.
Qed.

Lemma selection_fewest_witness :
  exists sel, SelectMWOutputs (6 * COIN) toy_wallet = Some (sel, 7 * COIN) /\
    forall l, l ⊆+ GetUnspentOutputs toy_wallet -> 6 * COIN <= total l -> (2 <= length l)%nat.
Proof.
  pose proof (selection_fewest (6 * COIN) toy_wallet toy_amounts eq_refl) as Hs.
  assert (SelectMWOutputs (6 * COIN) toy_wallet = Some ([toy_owned (5 * COIN) 11; toy_owned (2 * COIN) 12], 7 * COIN)) as E
    by (vm_compute; reflexivity).
  rewrite E in Hs. exists [toy_owned (5 * COIN) 11; toy_owned (2 * COIN) 12]. split; [exact E|]. apply Hs.
Defined.

Lemma created_pays_witness :
  amounts_ok created.1 /\ GetMWBalance created.1 = GetMWBalance toy_wallet - 6 * COIN - Transactions.MIN_TX_FEE.
Proof.
  destruct (created_pays _ _ _ _ _ _ _ created_eq toy_amounts toy_keyed) as (sel & _ & _ & _ & _ & _ & _ & Ha & _ & Hb).
  - vm_compute. reflexivity.
  - apply (bool_decide_unpack _). vm_compute. exact I.
  - split; [exact Ha|exact Hb].
Defined.

Lemma created_balances_witness :
  exists outs ins, parse_keys (map o_commitment (vOutputs (t_body created_tx))) = Some outs /\
    parse_keys (map i_commitment (vInputs (t_body created_tx))) = Some ins.
Proof.
  assert (is_Some (ec_pubkey_parse GENERATOR_H)) as [G HG] by (apply (log_parse_some (drop 1 GENERATOR_H)); [reflexivity|vm_compute; reflexivity]).
  destruct (created_balances _ _ _ _ _ _ _ G created_eq toy_amounts toy_keyed toy_opened) as (outs & ins & _ & _ & H1 & H2 & _).
  - vm_compute. reflexivity.
  - exact HG.
  - apply (bool_decide_unpack _). vm_compute. exact I.
  - apply (bool_decide_unpack _). vm_compute. exact I.
  - exists outs, ins. split; [exact H1|exact H2].
Defined.

Lemma created_rejected_witness : MwValidation.IsValid (MwValidation.ValidateMWTransaction created_tx fresh_state 7) = false.
Proof. exact (proj1 (created_rejected _ _ _ _ _ _ _ created_eq) fresh_state 7). Defined.

(** Nor would its inputs verify: the wallet signs the hash of the transaction, the
    validation asks for a signature of the hash of the commitment and that hash. *)
Example created_inputs_do_not_verify :
  map (fun i => VerifySignature i (tx_GetHash created_tx)) (vInputs (t_body created_tx)) = [false; false].
Proof. vm_compute. reflexivity. Qed.
End witnesses.

End MwSpend.
