(* ===== verification/TxChecks.v ===== *)
(** * Checks of a transaction ([src/main.cpp])

    The checks made without the spent outputs ([CheckTransaction]), the standard
    forms ([IsStandard], [AreInputsStandard]) and the rules on marker outputs and
    equal amounts that the memory pool and the block share. *)

From S2P Require Import Prelude Crypto Serialize BigNum Script Interpreter Standard Mmr MwModels Transactions.
From S2P Require Import Sighash MwState Secp MwCrypto Bulletproofs MwValidation TxInputs Peg.
Import Stream BigNum Script Interpreter Standard MwModels Sighash MwState MwCrypto MwValidation Transactions TxInputs Peg.

Module TxChecks.

(** ** Without the inputs' outputs *)

(** The loop over the outputs; [user] is [!IsCoinBase() && !IsCoinStake()]. *)
Definition output_one (user : bool) (nValueOut : Z) (o : CTxOut) : outcome Z :=
  if IsEmpty o && user then Reject 100
  else if nValue o <? 0 then Reject 100
  else if MAX_MONEY <? nValue o then Reject 100
  else
    let nValueOut := i64 (nValueOut + nValue o) in
    if negb (MoneyRange nValueOut) then Reject 100 else Accept nValueOut.

(** The loop over the inputs with the set of outputs met so far. *)
Definition input_one (vInOutPoints : gset COutPoint) (i : CTxIn) : outcome (gset COutPoint) :=
  if bool_decide (prevout i ∈ vInOutPoints) then Reject 0 else Accept ({[ prevout i ]} ∪ vInOutPoints).

Definition check_script_sizes (tx : CTransaction) : outcome unit :=
  if Transactions.IsCoinBase tx then
    let size := len (scriptSig (nth 0 (vin tx) {| prevout := {| hash := 0; n := 0 |}; scriptSig := []; nSequence := 0 |})) in
    if (size <? 2) || (100 <? size) then Reject 100 else Accept tt
  else if existsb (fun i => outpoint_IsNull (prevout i)) (vin tx) then Reject 10 else Accept tt.

Section checks.
Context `{OpenSSLBN} `{Sha256} `{ScriptHashes} `{OpenSSLEC} `{Secp256k1}.

Definition has_peg_marker (tx : CTransaction) : bool :=
  existsb (fun o => match ExtractPegInCommitment (scriptPubKey o) with Some _ => true | None => false end) (vout tx).

(** The checks on the extension part. *)
Definition check_mweb (tx : CTransaction) : outcome unit :=
  let body := t_body (mwTx tx) in
  if (CT_TX_VERSION <=? nVersion tx) && tx_IsNull (mwTx tx) then Reject 100
  else if negb (HasMWEB tx) then Accept tt
  else if negb (VerifyRangeProofs body) then Reject 100
  else if negb (VerifyKernelSignatures body) then Reject 100
  else if negb (VerifyCommitmentSum body (t_offset (mwTx tx))) then Reject 100
  else if existsb (fun k => nFee k <? 0) (vKernels body) then Reject 100
  else if (0 <? GetTotalPegIn body) && negb (has_peg_marker tx) then Reject 100
  else Accept tt.

Definition CheckTransaction (tx : CTransaction) : outcome unit :=
  if bool_decide (vin tx = []) then Reject 10
  else if bool_decide (vout tx = []) then Reject 10
  else if MAX_BLOCK_SIZE <? u32 (GetSerializeSize c_tx tx) then Reject 100
  else
    let* _ := ofold (output_one (negb (Transactions.IsCoinBase tx) && negb (IsCoinStake tx))) (vout tx) 0 in
    let* _ := ofold input_one (vin tx) ∅ in
    let* _ := check_script_sizes tx in
    check_mweb tx.

(** ** Standard forms *)

Definition input_standard (fEnforceCanonical : bool) (i : CTxIn) : bool :=
  if 500 <? len (scriptSig i) then false
  else if negb (IsPushOnly (scriptSig i)) then false
  else if fEnforceCanonical && negb (HasCanonicalPushes (scriptSig i)) then false else true.

Definition is_data (s : bytes) : bool := (1 <=? len s) && (at_ 0 s 0 =? OP_RETURN).

(** The loop over the outputs with the number of data outputs met. *)
Fixpoint outputs_standard (fEnforceCanonical : bool) (nDataOut : Z) (l : list CTxOut) : bool :=
  match l with
  | [] => true
  | o :: l' =>
      if negb (Standard.IsStandard (scriptPubKey o)) then false
      else if is_data (scriptPubKey o) && ((1 <? u32 (nDataOut + 1)) || negb (nValue o =? 0)) then false
      else if negb (is_data (scriptPubKey o)) && (nValue o =? 0) then false
      else if fEnforceCanonical && negb (HasCanonicalPushes (scriptPubKey o)) then false
      else outputs_standard fEnforceCanonical (if is_data (scriptPubKey o) then u32 (nDataOut + 1) else nDataOut) l'
  end.

Definition IsStandard (fEnforceCanonical : bool) (tx : CTransaction) : bool :=
  if CURRENT_VERSION <? nVersion tx then false
  else if negb (forallb (input_standard fEnforceCanonical) (vin tx)) then false
  else outputs_standard fEnforceCanonical 0 (vout tx).

(** One turn of the loop of [AreInputsStandard]. *)
Definition input_args_standard (mapInputs : gmap Z (CTxIndex * CTransaction)) (tx : CTransaction) (nIn : Z) (i : CTxIn)
    : outcome bool :=
  let* prev := GetOutputFor i mapInputs in
  let '(ok, whichType, vSolutions) := Solver (scriptPubKey prev) in
  if negb ok then Accept false
  else
    let nArgsExpected := ScriptSigArgsExpected whichType vSolutions in
    if nArgsExpected <? 0 then Accept false
    else
      let '(stack, ok) := EvalScript (H2 := checker tx nIn 0) [] (scriptSig i) in
      if negb ok then Accept false
      else if bool_decide (whichType = TX_SCRIPTHASH) then
        match stack with
        | [] => Accept false
        | subscript :: _ =>
            let '(ok2, whichType2, vSolutions2) := Solver subscript in
            if negb ok2 then Accept false
            else if bool_decide (whichType2 = TX_SCRIPTHASH) then Accept false
            else
              let tmpExpected := ScriptSigArgsExpected whichType2 vSolutions2 in
              if tmpExpected <? 0 then Accept false
              else Accept (len stack =? i32 (nArgsExpected + tmpExpected))
        end
      else Accept (len stack =? nArgsExpected).

Definition AreInputsStandard (mapInputs : gmap Z (CTxIndex * CTransaction)) (tx : CTransaction) : outcome bool :=
  if Transactions.IsCoinBase tx then Accept true
  else
    ofold (fun (ok : bool) '(nIn, i) => if ok then input_args_standard mapInputs tx nIn i else Accept false)
      (indexed (vin tx)) true.

(** ** Markers and equal amounts *)

Definition STEALTH_MANDATORY_HEIGHT : Z := 1000.
Definition RING_MIXING_MANDATORY_HEIGHT : Z := 1500.
Definition RING_MIXING_MIN_EQUAL_OUTPUTS : Z := 3.
Definition TWO_POOL_ACTIVATION_HEIGHT : Z := 2000.

Definition generated (tx : CTransaction) : bool := Transactions.IsCoinBase tx || IsCoinStake tx.

Definition marker_rule (nHeight : Z) (tx : CTransaction) : bool :=
  if nHeight <? STEALTH_MANDATORY_HEIGHT then true
  else if generated tx then true
  else if TWO_POOL_ACTIVATION_HEIGHT <=? nHeight then HasStealthMarker tx || HasPegoutMarker tx
  else HasStealthMarker tx.

(** [mapOutputCounts] and the maximum of its counts. *)
Definition count_output (mapOutputCounts : gmap Z Z) (o : CTxOut) : gmap Z Z :=
  if nValue o =? 0 then mapOutputCounts
  else <[nValue o := default 0 (mapOutputCounts !! nValue o) + 1]> mapOutputCounts.
Definition output_counts (tx : CTransaction) : gmap Z Z := fold_left count_output (vout tx) ∅.
Definition max_equal (tx : CTransaction) : Z :=
  map_fold (fun _ c nMaxEqual => if nMaxEqual <? c then c else nMaxEqual) 0 (output_counts tx).

Definition mixing_rule (nHeight : Z) (tx : CTransaction) : bool :=
  if nHeight <? RING_MIXING_MANDATORY_HEIGHT then true
  else if generated tx || HasPegoutMarker tx then true
  else negb (max_equal tx <? RING_MIXING_MIN_EQUAL_OUTPUTS).

(** The three loops of [ConnectBlock] after the one that connects the inputs. *)
Definition check_rules (nHeight : Z) (vtx : list CTransaction) : outcome unit :=
  if negb (forallb (marker_rule nHeight) vtx) then Reject 100
  else if negb (forallb (mixing_rule nHeight) vtx) then Reject 100
  else if negb (forallb (fun tx => CheckCanonicalStructure tx nHeight) vtx) then Reject 100
  else Accept tt.

End checks.

(** * Properties *)

(** ** What is checked *)

Definition output_fine (user : bool) (o : CTxOut) : Prop := IsEmpty o && user = false /\ 0 <= nValue o <= MAX_MONEY.

Lemma output_loop user l a v :
  ofold (output_one user) l a = Accept v -> 0 <= a <= MAX_MONEY ->
  Forall (output_fine user) l /\ v = a + values l /\ v <= MAX_MONEY.
Proof.
  revert a. induction l as [|o l IH]; intros a E Ha; cbn [ofold] in E.
  { injection E as <-. split; [constructor|]. cbn. lia. }
  apply bind_accept in E as (b & E1 & E). unfold output_one in E1. destruct (IsEmpty o && user) eqn:Ee; [done|].
  destruct (Z.ltb_spec (nValue o) 0); [done|]. destruct (Z.ltb_spec MAX_MONEY (nValue o)); [done|]. cbv zeta in E1.
  assert (MAX_MONEY = 100000000000000000) as HM by done. rewrite i64_id in E1 by lia.
  destruct (MoneyRange (a + nValue o)) eqn:Es; [|done]. injection E1 as <-. apply MoneyRange_true in Es.
  destruct (IH _ E Es) as (Hl & -> & Hv). cbn [values fold_right]. fold (values l).
  split; [constructor; [split; [done|lia]|done]|lia].
Qed.

Lemma output_loop_complete user l a :
  Forall (output_fine user) l -> 0 <= a -> a + values l <= MAX_MONEY -> ofold (output_one user) l a = Accept (a + values l).
Proof.
  intros Hl. revert a. induction Hl as [|o l [He Ho] Hl IH]; intros a Ha Hm; cbn [ofold values fold_right] in *.
  { by rewrite Z.add_0_r. }
  fold (values l) in *. assert (0 <= values l) as Hv.
  { apply values_nonneg. eapply Forall_impl; [exact Hl|]. by intros x [_ Hx]. }
  assert (MAX_MONEY = 100000000000000000) as HM by done. unfold output_one at 1. rewrite He.
  destruct (Z.ltb_spec (nValue o) 0); [lia|]. destruct (Z.ltb_spec MAX_MONEY (nValue o)); [lia|]. cbv zeta. rewrite i64_id by lia.
  rewrite (proj2 (MoneyRange_true (a + nValue o))) by lia. cbn [negb obind]. rewrite IH by lia. f_equal. lia.
Qed.

Lemma input_loop l s :
  (exists s', ofold input_one l s = Accept s') <-> NoDup (map prevout l) /\ forall o, o ∈ map prevout l -> o ∉ s.
Proof.
  revert s. induction l as [|i l IH]; intros s; cbn [ofold map].
  { split; [|by eauto]. intros _. split; [constructor|]. intros o Ho. by apply not_elem_of_nil in Ho. }
  unfold input_one at 1. rewrite NoDup_cons. destruct (bool_decide_reflect (prevout i ∈ s)); cbn [obind].
  - split; [by intros (? & ?)|]. intros [_ Hs]. exfalso. apply (Hs (prevout i)); [by left|done].
  - rewrite IH. split.
    + intros [Hnd Hs]. split_and!; [|done|]; [intros Hi; by apply Hs in Hi; set_solver|].
      intros o [->|Ho]%elem_of_cons; [done|]. apply Hs in Ho. set_solver.
    + intros [[Hi Hnd] Hs]. split; [done|]. intros o Ho. assert (o ∉ s) by (apply Hs; by right). assert (o <> prevout i) by naive_solver.
      set_solver.
Qed.

Section checks.
Context `{Secp256k1} `{!SecpLaws} `{!SecpGroup} `{Sha256}.

Lemma check_mweb_accept tx :
  check_mweb tx = Accept tt <->
  (CT_TX_VERSION <= nVersion tx ->
   tx_IsNull (mwTx tx) = false /\ VerifyRangeProofs (t_body (mwTx tx)) = true /\
   VerifyKernelSignatures (t_body (mwTx tx)) = true /\ VerifyCommitmentSum (t_body (mwTx tx)) (t_offset (mwTx tx)) = true /\
   Forall (fun k => 0 <= nFee k) (vKernels (t_body (mwTx tx)))).
Proof.
  unfold check_mweb, HasMWEB. cbv zeta. destruct (Z.leb_spec CT_TX_VERSION (nVersion tx)) as [Hv|Hv]; cbn [andb negb]; [|split; [lia|done]].
  destruct (tx_IsNull (mwTx tx)) eqn:En; cbn [negb]; [split; [done|by intros [? _]]|].
  destruct (VerifyRangeProofs _) eqn:E1; cbn [negb]; [|split; [done|intros Hx; by destruct (Hx Hv) as (_ & ? & _)]].
  destruct (VerifyKernelSignatures _) eqn:E2; cbn [negb]; [|split; [done|intros Hx; by destruct (Hx Hv) as (_ & _ & ? & _)]].
  destruct (VerifyCommitmentSum _ _) eqn:E3; cbn [negb]; [|split; [done|intros Hx; by destruct (Hx Hv) as (_ & _ & _ & ? & _)]].
  assert (existsb (fun k => nFee k <? 0) (vKernels (t_body (mwTx tx))) = false <->
    Forall (fun k => 0 <= nFee k) (vKernels (t_body (mwTx tx)))) as Hfee.
  { rewrite <-not_true_iff_false, existsb_exists, Forall_forall. setoid_rewrite list_elem_of_In. setoid_rewrite Z.ltb_lt. split.
    - intros Hx k Hk. apply Z.nlt_ge. naive_solver.
    - intros Hx (k & Hk & Hlt). apply Hx in Hk. lia. }
  apply sum_no_amounts in E3 as (_ & Hin & _). destruct (Z.ltb_spec 0 (GetTotalPegIn (t_body (mwTx tx)))); [lia|]. cbn [andb].
  destruct (existsb _ _) eqn:Ef.
  - split; [done|]. intros Hx. destruct (Hx Hv) as (_ & _ & _ & _ & Hk). apply Hfee in Hk. congruence.
  - split; [|done]. intros _ _. split_and!; try done. by apply Hfee.
Qed.

(** C30. A transaction of a size below 2^32 passes [CheckTransaction] exactly when it
    has inputs and outputs and a bounded size, its outputs are amounts of money with a
    total that is one, it spends no output twice, its scripts and outpoints are those of
    its kind, and from version two on its extension part is there, proved, signed and
    balanced, with no negative fee. *)
Theorem check_transaction_spec tx :
  0 <= GetSerializeSize c_tx tx < 2 ^ 32 ->
  CheckTransaction tx = Accept tt <->
  vin tx <> [] /\ vout tx <> [] /\ GetSerializeSize c_tx tx <= MAX_BLOCK_SIZE /\
  Forall (output_fine (negb (generated tx))) (vout tx) /\ values (vout tx) <= MAX_MONEY /\
  NoDup (map prevout (vin tx)) /\ check_script_sizes tx = Accept tt /\
  (CT_TX_VERSION <= nVersion tx ->
   tx_IsNull (mwTx tx) = false /\ VerifyRangeProofs (t_body (mwTx tx)) = true /\
   VerifyKernelSignatures (t_body (mwTx tx)) = true /\ VerifyCommitmentSum (t_body (mwTx tx)) (t_offset (mwTx tx)) = true /\
   Forall (fun k => 0 <= nFee k) (vKernels (t_body (mwTx tx)))).
Proof.
  intros Hsz. rewrite <-check_mweb_accept. unfold CheckTransaction. revert Hsz.
  generalize (GetSerializeSize c_tx tx) as size, (check_mweb tx) as mweb, (check_script_sizes tx) as scripts.
  intros size mweb scripts Hsz. rewrite u32_id by exact Hsz. unfold generated. rewrite negb_orb.
  set (user := negb (Transactions.IsCoinBase tx) && negb (IsCoinStake tx)).
  destruct (bool_decide_reflect (vin tx = [])) as [Hi|Hi]; [split; [done|by intros [? _]]|].
  destruct (bool_decide_reflect (vout tx = [])) as [Ho|Ho]; [split; [done|by intros (_ & ? & _)]|].
  destruct (Z.ltb_spec MAX_BLOCK_SIZE size) as [Hl|Hl]; [split; [done|intros (_ & _ & ? & _); exfalso; lia]|].
  pose proof (input_loop (vin tx) ∅) as Hin. split.
  - intros (v & E1 & E)%bind_accept. apply output_loop in E1 as (Hos & Hv & Hm); [|by vm_compute].
    apply bind_accept in E as (s & E2 & E). apply bind_accept in E as ([] & E3 & E).
    assert (NoDup (map prevout (vin tx))) by (apply Hin; by exists s). rewrite Hv in Hm. split_and!; assumption.
  - intros (_ & _ & _ & Hos & Hm & Hnd & Hs & Hmw). rewrite (output_loop_complete user (vout tx) 0 Hos) by lia. cbn [obind].
    destruct (proj2 Hin) as [s ->]; [split; [done|set_solver]|]. cbn [obind]. by rewrite Hs.
Qed.

(** An accepted transaction moves no amount between the two ledgers: its kernels
    neither peg in nor peg out in total and pay no fee. *)
Theorem checked_extension_no_amounts tx :
  CheckTransaction tx = Accept tt -> HasMWEB tx = true ->
  GetTotalPegIn (t_body (mwTx tx)) <= 0 /\ GetTotalPegOut (t_body (mwTx tx)) <= 0 /\ GetTotalFee (t_body (mwTx tx)) <= 0.
Proof.
  unfold CheckTransaction. destruct (bool_decide _); [done|]. destruct (bool_decide _); [done|]. destruct (MAX_BLOCK_SIZE <? _); [done|].
  intros E Hm. apply bind_accept in E as (v & _ & E). apply bind_accept in E as (s & _ & E). apply bind_accept in E as (u & _ & E).
  apply check_mweb_accept in E; [|unfold HasMWEB in Hm; lia]. destruct E as (_ & _ & _ & Hs & _). apply sum_no_amounts in Hs. lia.
Qed.
End checks.

(** ** Equal amounts *)

Definition equal_outputs (v : Z) (l : list CTxOut) : Z := len (List.filter (fun o => nValue o =? v) l).

Lemma output_counts_spec l v :
  v <> 0 -> default 0 (fold_left count_output l ∅ !! v) = equal_outputs v l.
Proof.
  intros Hv. enough (forall m, default 0 (fold_left count_output l m !! v) = default 0 (m !! v) + equal_outputs v l) as He
    by (rewrite He, lookup_empty; cbn; lia).
  induction l as [|o l IH]; intros m; cbn [fold_left]; [unfold equal_outputs; cbn; unfold len; cbn; lia|].
  rewrite IH. unfold equal_outputs. cbn [List.filter]. unfold count_output. destruct (Z.eqb_spec (nValue o) 0) as [H0|H0].
  - destruct (Z.eqb_spec (nValue o) v); [congruence|done].
  - destruct (Z.eqb_spec (nValue o) v) as [<-|Hn].
    + rewrite lookup_insert_eq, len_cons. cbn. lia.
    + by rewrite lookup_insert_ne.
Qed.

Lemma output_counts_zero l : fold_left count_output l ∅ !! 0 = None.
Proof.
  enough (forall m : gmap Z Z, m !! 0 = None -> fold_left count_output l m !! 0 = None) as He by (apply He, lookup_empty).
  induction l as [|o l IH]; intros m Hm; cbn [fold_left]; [done|]. apply IH. unfold count_output.
  destruct (Z.eqb_spec (nValue o) 0); [done|]. by rewrite lookup_insert_ne.
Qed.

Lemma max_count (m : gmap Z Z) k :
  0 < k ->
  k <= map_fold (fun _ c nMaxEqual => if nMaxEqual <? c then c else nMaxEqual) 0 m <-> exists v c, m !! v = Some c /\ k <= c.
Proof.
  intros Hk. apply (map_fold_weak_ind (fun r m => k <= r <-> exists v c, m !! v = Some c /\ k <= c)).
  { split; [lia|]. intros (v & c & Hv & _). by rewrite lookup_empty in Hv. }
  intros v c m' r Hv IH. destruct (Z.ltb_spec r c) as [Hlt|Hge].
  - split; [intros Hc; exists v, c; by rewrite lookup_insert_eq|]. intros (w & d & Hw & Hd).
    destruct (decide (v = w)) as [<-|]; [rewrite lookup_insert_eq in Hw; by injection Hw as ->|].
    rewrite lookup_insert_ne in Hw by done. assert (k <= r) by (apply IH; eauto). lia.
  - rewrite IH. split.
    + intros (w & d & Hw & Hd). exists w, d. split; [|done]. rewrite lookup_insert_ne; [done|]. congruence.
    + intros (w & d & Hw & Hd). destruct (decide (v = w)) as [<-|].
      * rewrite lookup_insert_eq in Hw. injection Hw as ->. apply IH. lia.
      * rewrite lookup_insert_ne in Hw by done. eauto.
Qed.

(** Once mixing is mandatory, a transaction that is neither generated nor a peg-out
    passes exactly when three of its outputs carry the same amount other than zero. *)
Theorem mixing_rule_spec nHeight tx :
  RING_MIXING_MANDATORY_HEIGHT <= nHeight -> generated tx = false -> HasPegoutMarker tx = false ->
  mixing_rule nHeight tx = true <-> exists v, v <> 0 /\ RING_MIXING_MIN_EQUAL_OUTPUTS <= equal_outputs v (vout tx).
Proof.
  intros Hh Hg Hp. unfold mixing_rule. destruct (Z.ltb_spec nHeight RING_MIXING_MANDATORY_HEIGHT); [lia|]. rewrite Hg, Hp. cbn [orb].
  rewrite negb_true_iff, Z.ltb_ge. unfold max_equal, RING_MIXING_MIN_EQUAL_OUTPUTS. rewrite max_count by lia. unfold output_counts.
  split.
  - intros (v & c & Hv & Hc). assert (v <> 0) as Hn by (intros ->; by rewrite output_counts_zero in Hv).
    exists v. split; [done|]. by rewrite <-output_counts_spec, Hv by done.
  - intros (v & Hn & Hc). rewrite <-output_counts_spec in Hc by done. destruct (fold_left _ _ _ !! v) as [c|] eqn:E; [|cbn in Hc; lia].
    by exists v, c.
Qed.

(** ** Standard transactions and the extension *)

(** A transaction that carries an extension part is not standard: its version is. *)
Lemma standard_has_no_extension fEnforceCanonical tx : IsStandard fEnforceCanonical tx = true -> HasMWEB tx = false.
Proof.
  unfold IsStandard, HasMWEB, CURRENT_VERSION, CT_TX_VERSION. destruct (Z.ltb_spec 1 (nVersion tx)); [done|]. intros _.
  by destruct (Z.leb_spec 2 (nVersion tx)); [lia|].
Qed.

Definition data_outputs (l : list CTxOut) : Z := len (List.filter (fun o => is_data (scriptPubKey o)) l).

Lemma outputs_standard_data f k l : outputs_standard f k l = true -> 0 <= k <= 1 -> k + data_outputs l <= 1.
Proof.
  revert k. induction l as [|o l IH]; intros k E Hk; cbn [outputs_standard] in E; unfold data_outputs; cbn [List.filter].
  { rewrite len_nil. lia. }
  destruct (Standard.IsStandard _); [|done]. cbn [negb] in E. destruct (is_data (scriptPubKey o)); cbn [andb negb] in E.
  - destruct (Z.ltb_spec 1 (u32 (k + 1))) as [|Hu]; [done|]. rewrite u32_id in Hu, E by lia. cbn [orb] in E.
    destruct (negb (nValue o =? 0)); [done|]. destruct (f && _); [done|].
    specialize (IH _ E ltac:(lia)). rewrite len_cons. unfold data_outputs in IH. lia.
  - destruct (nValue o =? 0); [done|]. destruct (f && _); [done|]. by apply (IH _ E).
Qed.

Lemma marked_data size p o : marked size (0x6a :: p) o = true -> is_data (scriptPubKey o) = true /\ len (scriptPubKey o) = size.
Proof.
  unfold marked, is_data. intros E. apply andb_prop in E as [E Ep]. apply andb_prop in E as [_ El]. apply Z.eqb_eq in El.
  apply bool_decide_eq_true in Ep. split; [|done]. destruct (scriptPubKey o) as [|b s]; [done|]. cbn [length take] in Ep.
  injection Ep as -> _. rewrite len_cons. pose proof (len_pos s). destruct (Z.leb_spec 1 (1 + len s)); [done|lia].
Qed.

(** Two data outputs of different sizes make a transaction non-standard. *)
Lemma two_data_outputs f tx o1 o2 :
  o1 ∈ vout tx -> o2 ∈ vout tx -> is_data (scriptPubKey o1) = true -> is_data (scriptPubKey o2) = true ->
  len (scriptPubKey o1) <> len (scriptPubKey o2) -> IsStandard f tx = false.
Proof.
  intros H1 H2 D1 D2 Hne. apply not_true_iff_false. unfold IsStandard. destruct (_ <? _); [done|]. destruct (negb _); [done|].
  intros E. apply outputs_standard_data in E; [|lia]. unfold data_outputs in E.
  assert (o1 ∈ List.filter (fun o => is_data (scriptPubKey o)) (vout tx)) as F1 by (apply list_elem_of_In, filter_In; by rewrite <-list_elem_of_In).
  assert (o2 ∈ List.filter (fun o => is_data (scriptPubKey o)) (vout tx)) as F2 by (apply list_elem_of_In, filter_In; by rewrite <-list_elem_of_In).
  destruct (List.filter _ _) as [|a [|b l]]; [by apply not_elem_of_nil in F1| |].
  - apply list_elem_of_singleton in F1, F2. congruence.
  - rewrite !len_cons in E. pose proof (len_pos l). lia.
Qed.

(** With two pools a transaction needs a stealth or peg-out marker, and one that pegs
    in needs a peg-in marker of its own; the two are different data outputs, of which a
    standard transaction has at most one.  So no peg-in is standard. *)
Theorem peg_in_never_standard fEnforceCanonical nHeight tx :
  TWO_POOL_ACTIVATION_HEIGHT <= nHeight -> generated tx = false ->
  marker_rule nHeight tx = true -> has_peg_marker tx = true ->
  IsStandard fEnforceCanonical tx = false.
Proof.
  unfold TWO_POOL_ACTIVATION_HEIGHT. intros Hh Hg Hm Hp. unfold marker_rule, STEALTH_MANDATORY_HEIGHT, TWO_POOL_ACTIVATION_HEIGHT in Hm.
  destruct (Z.ltb_spec nHeight 1000); [lia|]. rewrite Hg in Hm. destruct (Z.leb_spec 2000 nHeight); [|lia].
  unfold has_peg_marker in Hp. apply existsb_exists in Hp as (o & Ho & He). apply list_elem_of_In in Ho.
  destruct (ExtractPegInCommitment _) as [c|] eqn:Ex; [|done]. apply extract_spec in Ex as (_ & Hl & rest & Hr).
  assert (exists m, m ∈ vout tx /\ is_data (scriptPubKey m) = true /\ len (scriptPubKey m) < 39) as (m & Hm1 & Hm2 & Hm3).
  { apply orb_prop in Hm as [Hs|Hs]; apply existsb_exists in Hs as (m & Hin%list_elem_of_In & Hd);
      apply marked_data in Hd as [Hd Hlen]; exists m; split; [done|split; [done|lia]|done|split; [done|lia]]. }
  apply (two_data_outputs _ _ m o); [done|done|done| |lia].
  rewrite Hr. unfold is_data. rewrite len_cons. pose proof (len_pos rest). destruct (Z.leb_spec 1 (1 + len rest)); [done|lia].
Qed.

(** ** Instances *)

Section witnesses.
#[local] Existing Instance log_secp.
#[local] Existing Instance log_laws.
#[local] Existing Instance log_group.
#[local] Instance toy : Sha256 := toy_sha256.

Definition outputs_tx (l : list CTxOut) : CTransaction := plain_tx [TxInputs.sample_input 77 0] l.
Definition data_output (s : bytes) : CTxOut := {| nValue := 0; scriptPubKey := s |}.

(** A transaction with an extension part that spends and creates a commitment. *)
Definition extension_tx : CTransaction :=
  {| nVersion := 2; nTime := 1700000000; vin := [TxInputs.sample_input 77 0]; vout := [TxInputs.sample_output COIN];
     nLockTime := 0; mwTx := {| t_body := signed_body; t_offset := null_blind |} |}.

Lemma extension_tx_checked : CheckTransaction extension_tx = Accept tt.
Proof. vm_compute. reflexivity. Qed.

Lemma check_transaction_spec_witness : NoDup (map prevout (vin extension_tx)) /\ signed_body <> {| vInputs := []; vOutputs := []; vKernels := [] |}.
Proof.
  destruct (check_transaction_spec extension_tx) as [Hc _]; [vm_compute; split; [discriminate|reflexivity]|].
  destruct (Hc extension_tx_checked) as (_ & _ & _ & _ & _ & Hnd & _). split; [exact Hnd|discriminate].
Defined.

Lemma checked_extension_no_amounts_witness : GetTotalPegIn signed_body <= 0.
Proof.
  destruct (checked_extension_no_amounts extension_tx extension_tx_checked) as [Hp _]; [vm_compute; reflexivity|exact Hp].
Defined.

Lemma mixing_rule_spec_witness :
  mixing_rule 2000 (outputs_tx (replicate 3 (TxInputs.sample_output COIN))) = true.
Proof.
  apply (mixing_rule_spec 2000 (outputs_tx (replicate 3 (TxInputs.sample_output COIN)))).
  - vm_compute. discriminate.
  - reflexivity.
  - reflexivity.
  - exists COIN. split; vm_compute; discriminate.
Defined.

Definition pegging_tx : CTransaction :=
  outputs_tx [TxInputs.sample_output COIN; data_output (0x6a :: 0x21 :: replicate 33 2); data_output (GetPegInMarkerScript (2 :: MwCrypto.key 7))].

Lemma peg_in_never_standard_witness : IsStandard true pegging_tx = false.
Proof.
  apply (peg_in_never_standard true 2500 pegging_tx).
  - vm_compute. discriminate.
  - reflexivity.
  - vm_compute. reflexivity.
  - vm_compute. reflexivity.
Defined.
End witnesses.

End TxChecks.
