(* ===== verification/MemPool.v ===== *)
(** * The memory pool ([src/main.h], [src/main.cpp])

    The transactions that wait for a block and the outputs they spend, with the
    operations of [CTxMemPool] and the acceptance of a transaction. *)

From S2P Require Import Prelude Crypto Serialize BigNum Script Interpreter Standard MwModels.
From S2P Require Import Transactions Sighash MwState Secp TxInputs Peg TxChecks.
Import Stream BigNum Script Interpreter Standard MwModels Sighash Transactions TxInputs TxChecks.

Module MemPool.

(** [CInPoint] points at a transaction of [mapTx], named here by its key, and at one of
    its inputs. *)
Record CTxMemPool := {
  mapTx : gmap Z CTransaction; mapNextTx : gmap COutPoint (uint256 * Z); nTransactionsUpdated : Z }.

Definition empty_pool : CTxMemPool := {| mapTx := ∅; mapNextTx := ∅; nTransactionsUpdated := 0 |}.

Definition addUnchecked (p : CTxMemPool) (hash : uint256) (tx : CTransaction) : CTxMemPool := {|
  mapTx := <[hash := tx]> (mapTx p);
  mapNextTx := fold_left (fun m '(i, txin) => <[prevout txin := (hash, i)]> m) (indexed (vin tx)) (mapNextTx p);
  nTransactionsUpdated := u32 (nTransactionsUpdated p + 1) |}.

(** The end of [remove]: the outputs the transaction spends and the transaction. *)
Definition erase (p : CTxMemPool) (hash : uint256) (tx : CTransaction) : CTxMemPool := {|
  mapTx := delete hash (mapTx p);
  mapNextTx := fold_left (fun m txin => delete (prevout txin) m) (vin tx) (mapNextTx p);
  nTransactionsUpdated := u32 (nTransactionsUpdated p + 1) |}.

Section pool.
Context `{Sha256}.

(** One turn of the loop over the outputs: the transaction that spends it goes first. *)
Definition remove_child (remove : CTxMemPool -> CTransaction -> CTxMemPool) (hash : uint256) (p : CTxMemPool) (i : Z)
    : CTxMemPool :=
  match mapNextTx p !! {| hash := hash; n := i |} with
  | None => p
  | Some (h, _) => match mapTx p !! h with None => p | Some child => remove p child end
  end.

(** [remove] with [fRecursive]; [fuel] bounds the depth of the recursion. *)
Fixpoint remove_rec (fuel : nat) (p : CTxMemPool) (tx : CTransaction) : CTxMemPool :=
  match fuel with
  | O => p
  | S fuel =>
      let hash := GetHash tx in
      match mapTx p !! hash with
      | None => p
      | Some _ =>
          erase (fold_left (remove_child (remove_rec fuel) hash) (seqZ 0 (len (vout tx))) p) hash tx
      end
  end.

Definition remove (p : CTxMemPool) (tx : CTransaction) (fRecursive : bool) : CTxMemPool :=
  if fRecursive then remove_rec (S (base.size (mapTx p))) p tx
  else match mapTx p !! GetHash tx with None => p | Some _ => erase p (GetHash tx) tx end.

(** [operator==] of transactions. *)
Definition same_tx (a b : CTransaction) : bool :=
  (nVersion a =? nVersion b) && (nTime a =? nTime b) && bool_decide (vin a = vin b) && bool_decide (vout a = vout b) &&
  (nLockTime a =? nLockTime b).

Definition remove_conflict (tx : CTransaction) (p : CTxMemPool) (txin : CTxIn) : CTxMemPool :=
  match mapNextTx p !! prevout txin with
  | None => p
  | Some (h, _) =>
      match mapTx p !! h with
      | None => p
      | Some txConflict => if negb (same_tx txConflict tx) then remove p txConflict true else p
      end
  end.
Definition removeConflicts (p : CTxMemPool) (tx : CTransaction) : CTxMemPool := fold_left (remove_conflict tx) (vin tx) p.

Definition clear (p : CTxMemPool) : CTxMemPool :=
  {| mapTx := ∅; mapNextTx := ∅; nTransactionsUpdated := u32 (nTransactionsUpdated p + 1) |}.

Definition exists_ (p : CTxMemPool) (hash : uint256) : bool := bool_decide (is_Some (mapTx p !! hash)).

End pool.

(** ** Acceptance *)

(** What acceptance reads: the best chain, the network, the policy, the database and
    the blocks on disk; [rate_limited] is the outcome of the limiter of free
    transactions. *)
Record node := {
  nBestHeight : Z; best_chain : list CBlockIndex; fTestNet : bool; fEnforceCanonical : bool; rate_limited : bool;
  db : gmap Z CTxIndex; on_disk : CDiskTxPos -> option CTransaction }.

Section accept.
Context `{OpenSSLBN} `{Sha256} `{ScriptHashes} `{OpenSSLEC} `{Secp256k1}.

Definition node_store (nd : node) (p : CTxMemPool) : store :=
  {| txdb := db nd; ReadFromDisk := on_disk nd; mempool := mapTx p |}.

(** The checks against the outputs a transaction spends; [Accept false] where
    [*pfMissingInputs] is set. *)
Definition accept_inputs (nd : node) (p : CTxMemPool) (tx : CTransaction) : outcome bool :=
  match FetchInputs (node_store nd p) false ∅ tx with
  | Throws => Throws
  | Reject 0 => Accept false
  | Reject _ => Reject 0
  | Accept mapInputs =>
      let* standard := AreInputsStandard mapInputs tx in
      if negb standard && negb (fTestNet nd) then Reject 0
      else
        let* nValueIn := GetValueMapIn tx mapInputs in
        let* nValueOut := or_throw (GetValueOut tx) in
        let nFees := i64 (nValueIn - nValueOut) in
        let nSize := u32 (GetSerializeSize c_tx tx) in
        let txMinFee := GetMinFee tx 1000 GMF_RELAY nSize in
        let txTierFee := GetTxTypeFeeFloor tx (nBestHeight nd) in
        let txMinFee := if txMinFee <? txTierFee then txTierFee else txMinFee in
        if nFees <? txMinFee then Reject 0
        else if (nFees <? MIN_RELAY_TX_FEE) && rate_limited nd then Reject 0
        else
          match ConnectInputs mapInputs ∅ memory_pos (best_chain nd) false false false tx with
          | Throws => Throws
          | Reject d => Reject d
          | Accept _ => Accept true
          end
  end.

(** The pool with the transaction, [None] when inputs are missing.  Replacement is
    switched off: a conflict with the pool ends the acceptance. *)
Definition accept (nd : node) (p : CTxMemPool) (tx : CTransaction) (fCheckInputs : bool) : outcome (option CTxMemPool) :=
  let* _ := CheckTransaction tx in
  if Transactions.IsCoinBase tx then Reject 100
  else if IsCoinStake tx then Reject 100
  else if negb (marker_rule (nBestHeight nd) tx) then Reject 0
  else if negb (mixing_rule (nBestHeight nd) tx) then Reject 0
  else if negb (CheckCanonicalStructure tx (nBestHeight nd)) then Reject 0
  else if 2 ^ 31 - 1 <? nLockTime tx then Reject 0
  else if negb (fTestNet nd) && negb (IsStandard (fEnforceCanonical nd) tx) then Reject 0
  else
    let hash := GetHash tx in
    if exists_ p hash then Reject 0
    else if fCheckInputs && bool_decide (is_Some (db nd !! hash)) then Reject 0
    else if existsb (fun txin => bool_decide (is_Some (mapNextTx p !! prevout txin))) (vin tx) then Reject 0
    else
      let* ok := (if fCheckInputs then accept_inputs nd p tx else Accept true) in
      Accept (if ok then Some (addUnchecked p hash tx) else None).

End accept.

(** * Properties *)

(** ** The invariant *)

(** The output [o] is spent by input [i] of the pool's transaction [h]. *)
Definition spent_by_pool (p : CTxMemPool) (o : COutPoint) (h i : Z) : Prop :=
  exists tx txin, mapTx p !! h = Some tx /\ indexed (vin tx) !! Z.to_nat i = Some (i, txin) /\ prevout txin = o.

Section invariant.
Context `{Sha256}.

Record pool_ok (p : CTxMemPool) : Prop := {
  po_hash h tx : mapTx p !! h = Some tx -> GetHash tx = h;
  po_once h tx : mapTx p !! h = Some tx -> NoDup (map prevout (vin tx));
  po_next o h i : mapNextTx p !! o = Some (h, i) <-> spent_by_pool p o h i }.

Lemma pool_ok_empty n : pool_ok {| mapTx := ∅; mapNextTx := ∅; nTransactionsUpdated := n |}.
Proof.
  split; cbn; [by intros ?? ?..|]. intros o h i. rewrite lookup_empty. split; [done|].
  by intros (tx & txin & E & _).
Qed.

Lemma lookup_indexed {A} (l : list A) k i x : indexed l !! k = Some (i, x) <-> i = Z.of_nat k /\ l !! k = Some x.
Proof.
  unfold indexed. rewrite lookup_zip_with_Some. split.
  - intros (j & y & [= -> ->] & Hj & Hy). apply lookup_seqZ in Hj as [-> _]. split; [lia|done].
  - intros [-> Hx]. exists (Z.of_nat k), x. split_and!; [done| |done]. apply lookup_seqZ. apply lookup_lt_Some in Hx. unfold len. lia.
Qed.

(** A pool without two spends of one output. *)
Lemma pool_spends_once p h1 h2 tx1 tx2 k1 k2 i1 i2 :
  pool_ok p -> mapTx p !! h1 = Some tx1 -> mapTx p !! h2 = Some tx2 ->
  vin tx1 !! k1 = Some i1 -> vin tx2 !! k2 = Some i2 -> prevout i1 = prevout i2 -> h1 = h2 /\ k1 = k2.
Proof.
  intros [_ _ Hn] E1 E2 K1 K2 Hp.
  assert (mapNextTx p !! prevout i1 = Some (h1, Z.of_nat k1)) as F1.
  { apply Hn. exists tx1, i1. rewrite Nat2Z.id. split_and!; [done| |done]. by apply lookup_indexed. }
  assert (mapNextTx p !! prevout i1 = Some (h2, Z.of_nat k2)) as F2.
  { apply Hn. exists tx2, i2. rewrite Nat2Z.id. split_and!; [done| |done]. by apply lookup_indexed. }
  rewrite F1 in F2. injection F2 as -> ?. split; [done|lia].
Qed.

(** *** Adding *)

Lemma add_next l (hash : uint256) (m : gmap COutPoint (uint256 * Z)) o v :
  NoDup (map (prevout ∘ snd) l) ->
  fold_left (fun m '(i, txin) => <[prevout txin := (hash, i)]> m) l m !! o = Some v <->
  (exists i txin, (i, txin) ∈ l /\ prevout txin = o /\ v = (hash, i)) \/
  (m !! o = Some v /\ o ∉ map (prevout ∘ snd) l).
Proof.
  revert m. induction l as [|[i txin] l IH]; intros m Hnd; cbn [fold_left map].
  { split; [intros E; right; split; [done|apply not_elem_of_nil]|]. intros [(? & ? & Hin & _)|[E _]]; [by apply not_elem_of_nil in Hin|done]. }
  cbn [map] in Hnd. apply NoDup_cons in Hnd as [Hni Hnd]. rewrite IH by done. cbn in Hni. split.
  - intros [(j & t & Hin & Hp & ->)|[E Hn]]; [left; exists j, t; set_solver|].
    destruct (decide (prevout txin = o)) as [<-|Hne].
    + rewrite lookup_insert_eq in E. injection E as <-. left. exists i, txin. set_solver.
    + rewrite lookup_insert_ne in E by done. right. set_solver.
  - intros [(j & t & [[= -> ->]|Hin]%elem_of_cons & Hp & ->)|[E Hn]].
    + right. subst o. by rewrite lookup_insert_eq.
    + left. exists j, t. done.
    + right. rewrite lookup_insert_ne by set_solver. set_solver.
Qed.

Lemma indexed_prevouts (l : list CTxIn) : map (prevout ∘ snd) (indexed l) = map prevout l.
Proof. rewrite <-(indexed_snd l) at 2. by rewrite map_map. Qed.

Lemma addUnchecked_ok p tx :
  pool_ok p -> mapTx p !! GetHash tx = None -> NoDup (map prevout (vin tx)) ->
  Forall (fun txin => mapNextTx p !! prevout txin = None) (vin tx) ->
  pool_ok (addUnchecked p (GetHash tx) tx).
Proof.
  intros [Hh Ho Hn] Hnew Hnd Hfree. split; cbn [addUnchecked mapTx mapNextTx].
  - intros h t [[<- <-]|[_ E]]%lookup_insert_Some; [done|by apply Hh].
  - intros h t [[_ <-]|[_ E]]%lookup_insert_Some; [done|by eapply Ho].
  - intros o h i. rewrite add_next by (by rewrite indexed_prevouts). rewrite indexed_prevouts. unfold spent_by_pool. cbn [addUnchecked mapTx].
    split.
    + intros [(j & t & [k Hk]%list_elem_of_lookup & Hp & [= -> ->])|[E Hni]].
      * exists tx, t. rewrite lookup_insert_eq. split_and!; [done| |done]. pose proof Hk as [-> _]%lookup_indexed. by rewrite Nat2Z.id.
      * apply Hn in E as (t & txin & E & Hk & Hp). exists t, txin. rewrite lookup_insert_ne; [done|]. intros <-. congruence.
    + intros (t & txin & E & Hk & Hp). apply lookup_insert_Some in E as [[<- <-]|[Hne E]].
      * left. exists i, txin. split_and!; [by eapply list_elem_of_lookup_2|done|done].
      * right. assert (mapNextTx p !! o = Some (h, i)) as F by (apply Hn; by exists t, txin). split; [done|].
        intros (x & -> & Hx)%list_elem_of_fmap.
        rewrite Forall_forall in Hfree. by rewrite (Hfree x Hx) in F.
Qed.
End invariant.

(** *** Removing *)

Section removal.
Context `{Sha256}.

Lemma erase_next l (m : gmap COutPoint (uint256 * Z)) o v :
  fold_left (fun m txin => delete (prevout txin) m) l m !! o = Some v <-> m !! o = Some v /\ o ∉ map prevout l.
Proof.
  revert m. induction l as [|i l IH]; intros m; cbn [fold_left map]; [set_solver|].
  rewrite IH, lookup_delete_Some. set_solver.
Qed.

Lemma next_mono p p' o v :
  pool_ok p -> pool_ok p' -> mapTx p' ⊆ mapTx p -> mapNextTx p' !! o = Some v -> mapNextTx p !! o = Some v.
Proof.
  intros [_ _ Hn] [_ _ Hn'] Hs E. destruct v as [h i]. apply Hn' in E as (t & x & Et & Ex & Hx). apply Hn. exists t, x.
  split; [|done]. by eapply lookup_weaken.
Qed.

Lemma next_owner p o h i : pool_ok p -> mapNextTx p !! o = Some (h, i) -> exists t txin, mapTx p !! h = Some t /\ txin ∈ vin t /\ prevout txin = o.
Proof.
  intros [_ _ Hn] E. apply Hn in E as (t & x & Et & [_ Ex]%lookup_indexed & Hx). exists t, x. split_and!; [done| |done].
  by eapply list_elem_of_lookup_2.
Qed.

Lemma erase_ok p tx :
  pool_ok p -> (forall t, mapTx p !! GetHash tx = Some t -> t = tx) ->
  (forall o h i, o ∈ map prevout (vin tx) -> mapNextTx p !! o = Some (h, i) -> h = GetHash tx) ->
  pool_ok (erase p (GetHash tx) tx).
Proof.
  intros [Hh Ho Hn] Hsame Hown. split; cbn [erase mapTx mapNextTx].
  - intros h t [_ E]%lookup_delete_Some. by apply Hh.
  - intros h t [_ E]%lookup_delete_Some. by eapply Ho.
  - intros o h i. rewrite erase_next, Hn. unfold spent_by_pool. cbn [erase mapTx]. split.
    + intros [(t & x & E & Hk & Hx) Hni]. exists t, x. split; [|done]. apply lookup_delete_Some. split; [|done].
      intros <-. apply Hni. apply Hsame in E as ->. apply lookup_indexed in Hk as [_ Hk]. apply list_elem_of_fmap.
      exists x. split; [done|]. by eapply list_elem_of_lookup_2.
    + intros (t & x & [Hne E]%lookup_delete_Some & Hk & Hx). split; [by exists t, x|]. intros Hin. apply Hne.
      symmetry. apply (Hown o h i Hin), Hn. by exists t, x.
Qed.

(** The parents of a transaction come before it in some order. *)
Definition ranked (p : CTxMemPool) (rank : Z -> nat) (N : nat) : Prop :=
  forall h t, mapTx p !! h = Some t ->
    (rank h < N)%nat /\
    Forall (fun txin => is_Some (mapTx p !! hash (prevout txin)) -> (rank (hash (prevout txin)) < rank h)%nat) (vin t).

Lemma ranked_mono p p' rank N : mapTx p' ⊆ mapTx p -> ranked p rank N -> ranked p' rank N.
Proof.
  intros Hs Hr h t E. destruct (Hr h t (lookup_weaken _ _ _ _ E Hs)) as [Hb Hf]. split; [done|].
  eapply Forall_impl; [exact Hf|]. intros x Hx [t' Et]. apply Hx. exists t'. by eapply lookup_weaken.
Qed.

(** What was removed leaves no spend of its outputs behind. *)
Definition no_orphans (p p' : CTxMemPool) : Prop :=
  forall h t i, mapTx p !! h = Some t -> mapTx p' !! h = None -> 0 <= i < len (vout t) ->
    mapNextTx p' !! {| hash := h; n := i |} = None.

Lemma no_orphans_refl p : no_orphans p p.
Proof. intros h t i E E'. congruence. Qed.

Lemma no_orphans_trans p p1 p2 :
  pool_ok p1 -> pool_ok p2 -> mapTx p1 ⊆ mapTx p -> mapTx p2 ⊆ mapTx p1 ->
  no_orphans p p1 -> no_orphans p1 p2 -> no_orphans p p2.
Proof.
  intros H1 H2 Hs1 Hs2 Ha Hb h t i E E2 Hi. destruct (mapTx p1 !! h) as [t1|] eqn:E1.
  - apply (Hb h t1 i); [done..|]. pose proof (lookup_weaken _ _ _ _ E1 Hs1). by simplify_eq.
  - destruct (mapNextTx p2 !! _) as [v|] eqn:En; [|done]. apply (next_mono p1) in En; [|done..]. by rewrite (Ha h t i) in En.
Qed.

(** What a recursive removal promises, with a bound on the depth it reaches. *)
Definition removes (fuel : nat) (rm : CTxMemPool -> CTransaction -> CTxMemPool) : Prop :=
  forall p tx, pool_ok p -> (forall t, mapTx p !! GetHash tx = Some t -> t = tx) ->
    pool_ok (rm p tx) /\ mapTx (rm p tx) ⊆ mapTx p /\
    forall rank N, ranked p rank N -> is_Some (mapTx p !! GetHash tx) -> (N - rank (GetHash tx) <= fuel)%nat ->
      mapTx (rm p tx) !! GetHash tx = None /\ no_orphans p (rm p tx).

Lemma remove_child_spec fuel rm h p p1 i :
  removes fuel rm -> pool_ok p1 -> mapTx p1 ⊆ mapTx p -> is_Some (mapTx p !! h) ->
  pool_ok (remove_child rm h p1 i) /\ mapTx (remove_child rm h p1 i) ⊆ mapTx p1 /\
  forall rank N, ranked p rank N -> (N - rank h <= S fuel)%nat ->
    mapNextTx (remove_child rm h p1 i) !! {| hash := h; n := i |} = None /\ no_orphans p1 (remove_child rm h p1 i).
Proof.
  intros Hrm Hok Hs Hh. unfold remove_child.
  destruct (mapNextTx p1 !! _) as [[c k]|] eqn:En; [|split_and!; [done..|intros; split; [done|apply no_orphans_refl]]].
  destruct (next_owner _ _ _ _ Hok En) as (child & x & Ec & Hx & Hp). rewrite Ec.
  pose proof (po_hash _ Hok _ _ Ec) as Hc. destruct (Hrm p1 child Hok) as (H1' & H2' & H3').
  { intros t Ht. rewrite Hc in Ht. congruence. }
  split_and!; [done..|]. intros rank N Hr Hf.
  destruct (H3' rank N (ranked_mono _ _ _ _ Hs Hr)) as [Hgone Horph]; [by rewrite Hc; eexists| |].
  - destruct (Hr c child (lookup_weaken _ _ _ _ Ec Hs)) as [Hb Hfa]. rewrite Forall_forall in Hfa.
    specialize (Hfa x Hx). rewrite Hp in Hfa. specialize (Hfa Hh). cbn [hash] in Hfa. rewrite Hc. lia.
  - split; [|done]. destruct (mapNextTx (rm p1 child) !! _) as [[c2 k2]|] eqn:E2; [|done].
    destruct (next_owner _ _ _ _ H1' E2) as (t2 & _ & Et2 & _). apply (next_mono p1) in E2; [|done..].
    rewrite En in E2. injection E2 as <- _. rewrite Hc in Hgone. congruence.
Qed.

Lemma remove_children_spec fuel rm h p l p1 :
  removes fuel rm -> pool_ok p1 -> mapTx p1 ⊆ mapTx p -> is_Some (mapTx p !! h) ->
  pool_ok (fold_left (remove_child rm h) l p1) /\ mapTx (fold_left (remove_child rm h) l p1) ⊆ mapTx p1 /\
  forall rank N, ranked p rank N -> (N - rank h <= S fuel)%nat ->
    (forall i, i ∈ l -> mapNextTx (fold_left (remove_child rm h) l p1) !! {| hash := h; n := i |} = None) /\
    no_orphans p1 (fold_left (remove_child rm h) l p1).
Proof.
  intros Hrm Hok Hs Hh. revert p1 Hok Hs. induction l as [|i l IHl]; intros p1 Hok1 Hs1; cbn [fold_left].
  { split_and!; [done..|]. intros rank N _ _. split; [set_solver|apply no_orphans_refl]. }
  destruct (remove_child_spec fuel rm h p p1 i Hrm Hok1 Hs1 Hh) as (Hok2 & Hs2 & Hg2).
  destruct (IHl (remove_child rm h p1 i) Hok2) as (Hok3 & Hs3 & Hg3); [by etransitivity|]. split_and!; [done|by etransitivity|].
  intros rank N Hr Hf. destruct (Hg2 rank N Hr Hf) as [Hn2 Ho2]. destruct (Hg3 rank N Hr Hf) as [Hn3 Ho3].
  split; [|by eapply (no_orphans_trans p1 (remove_child rm h p1 i))]. intros j [->|Hj]%elem_of_cons; [|by apply Hn3].
  destruct (mapNextTx (fold_left _ l (remove_child rm h p1 i)) !! _) as [v|] eqn:E; [|done].
  apply (next_mono (remove_child rm h p1 i)) in E; [congruence|done..].
Qed.

Lemma remove_rec_spec fuel : removes fuel (remove_rec fuel).
Proof.
  induction fuel as [|fuel IH]; intros p tx Hok Hsame.
  { cbn [remove_rec]. split_and!; [done..|]. intros rank N Hr [t E] Hf. destruct (Hr _ _ E) as [Hb _]. lia. }
  cbn [remove_rec]. destruct (mapTx p !! GetHash tx) as [t|] eqn:Et; [|by split_and!; [..|intros rank N _ [? ?]]].
  pose proof (Hsame t eq_refl) as ->.
  destruct (remove_children_spec fuel (remove_rec fuel) (GetHash tx) p (seqZ 0 (len (vout tx))) p) as (Hok' & Hs' & Hg'); [done..|].
  set (q := fold_left _ _ p) in *. assert (pool_ok (erase q (GetHash tx) tx)) as Hok2.
  { apply erase_ok; [done| |].
    - intros t Ht. apply (lookup_weaken _ (mapTx p)) in Ht; [congruence|done].
    - intros o h k Hin E. apply (next_mono p) in E; [|done..]. apply list_elem_of_fmap in Hin as (x & -> & [j Hj]%list_elem_of_lookup).
      apply (po_next _ Hok) in E as (t2 & x2 & Et2 & [_ Hk2]%lookup_indexed & Hx2).
      by destruct (pool_spends_once p h (GetHash tx) t2 tx _ _ _ _ Hok Et2 Et Hk2 Hj Hx2) as [-> _]. }
  assert (mapTx (erase q (GetHash tx) tx) ⊆ mapTx q) as Hs2 by apply delete_subseteq.
  split_and!; [done|by etransitivity|]. intros rank N Hr _ Hf. destruct (Hg' rank N Hr Hf) as [Hn Ho].
  split; [apply lookup_delete_eq|]. eapply (no_orphans_trans p q); [done..|].
  intros h t i E E2 Hi. cbn [erase mapTx] in E2. apply lookup_delete_None in E2 as [<-|E2]; [|congruence].
  pose proof (lookup_weaken _ _ _ _ E Hs') as E'. rewrite Et in E'. injection E' as <-.
  specialize (Hn i). rewrite elem_of_seqZ in Hn. specialize (Hn ltac:(lia)).
  destruct (mapNextTx (erase _ _ _) !! _) as [v|] eqn:En; [|done]. apply (next_mono q) in En; [congruence|done..].
Qed.

(** The number of transactions before one in the order is smaller than the pool. *)
Lemma ranked_size p rank N :
  ranked p rank N ->
  ranked p (fun h => base.size (filter (fun k => rank k < rank h)%nat (dom (mapTx p)))) (base.size (mapTx p)).
Proof.
  intros Hr h t E. assert (h ∈ dom (mapTx p)) as Hd by (apply elem_of_dom; by exists t). split.
  - rewrite <-size_dom. apply subset_size. split; [set_solver|]. intros Hs. specialize (Hs h Hd).
    apply elem_of_filter in Hs as [? _]. lia.
  - destruct (Hr h t E) as [_ Hf]. eapply Forall_impl; [exact Hf|]. intros x Hx Hp. specialize (Hx Hp). apply subset_size. split.
    + intros k [? ?]%elem_of_filter. apply elem_of_filter. split; [lia|done].
    + intros Hs. specialize (Hs (hash (prevout x))). rewrite !elem_of_filter in Hs.
      destruct Hs as [Hlt _]; [split; [done|by apply elem_of_dom]|]. lia.
Qed.

(** Removing a transaction with what depends on it terminates, however the pool's
    transactions spend each other: the recursion never goes deeper than the pool has
    transactions.  The transaction is gone, no spend of an output of a removed
    transaction is left, nothing else is added, and the pool stays consistent. *)
Theorem remove_recursive p tx rank N :
  pool_ok p -> mapTx p !! GetHash tx = Some tx -> ranked p rank N ->
  pool_ok (remove p tx true) /\ mapTx (remove p tx true) ⊆ mapTx p /\
  mapTx (remove p tx true) !! GetHash tx = None /\ no_orphans p (remove p tx true).
Proof.
  intros Hok E Hr. unfold remove. destruct (remove_rec_spec (S (base.size (mapTx p))) p tx Hok) as (H1' & H2' & H3'); [congruence|].
  split_and!; [done..| |]; apply (H3' _ _ (ranked_size _ _ _ Hr)); try (by eexists); lia.
Qed.
End removal.

Section conflicts.
Context `{Sha256}.

Lemma remove_ok p tx fRecursive :
  pool_ok p -> (forall t, mapTx p !! GetHash tx = Some t -> t = tx) ->
  pool_ok (remove p tx fRecursive) /\ mapTx (remove p tx fRecursive) ⊆ mapTx p.
Proof.
  intros Hok Hsame. unfold remove. destruct fRecursive.
  { destruct (remove_rec_spec (S (base.size (mapTx p))) p tx Hok Hsame) as (? & ? & _). done. }
  destruct (mapTx p !! GetHash tx) as [t|] eqn:Et; [|done]. pose proof (Hsame t eq_refl) as ->.
  split; [|apply delete_subseteq]. apply erase_ok; [done|congruence|]. intros o h k Hin E.
  apply list_elem_of_fmap in Hin as (x & -> & [j Hj]%list_elem_of_lookup).
  apply (po_next _ Hok) in E as (t2 & x2 & Et2 & [_ Hk2]%lookup_indexed & Hx2).
  by destruct (pool_spends_once p h (GetHash tx) t2 tx _ _ _ _ Hok Et2 Et Hk2 Hj Hx2) as [-> _].
Qed.

(** Whoever spends the output is the transaction, up to its extension part. *)
Definition no_conflict (p : CTxMemPool) (tx : CTransaction) (o : COutPoint) : Prop :=
  forall h i, mapNextTx p !! o = Some (h, i) -> exists t, mapTx p !! h = Some t /\ same_tx t tx = true.

Lemma no_conflict_mono p p' tx o :
  pool_ok p -> pool_ok p' -> mapTx p' ⊆ mapTx p -> no_conflict p tx o -> no_conflict p' tx o.
Proof.
  intros Hok Hok' Hs Hn h i E. destruct (next_owner _ _ _ _ Hok' E) as (t' & _ & Et' & _).
  destruct (Hn h i) as (t & Et & Ht); [by apply (next_mono p p')|]. exists t'. split; [done|].
  pose proof (lookup_weaken _ _ _ _ Et' Hs). by simplify_eq.
Qed.

Lemma remove_conflict_spec p tx txin :
  pool_ok p ->
  pool_ok (remove_conflict tx p txin) /\ mapTx (remove_conflict tx p txin) ⊆ mapTx p /\
  forall rank N, ranked p rank N -> no_conflict (remove_conflict tx p txin) tx (prevout txin).
Proof.
  intros Hok. unfold remove_conflict. destruct (mapNextTx p !! prevout txin) as [[h k]|] eqn:En.
  2:{ split_and!; [done..|]. intros rank N _ h i E. congruence. }
  destruct (next_owner _ _ _ _ Hok En) as (t & x & Et & _). rewrite Et. pose proof (po_hash _ Hok _ _ Et) as Hh.
  destruct (same_tx t tx) eqn:Es; cbn [negb].
  { split_and!; [done..|]. intros rank N _ h' i E. rewrite En in E. injection E as <- <-. by exists t. }
  destruct (remove_ok p t true Hok) as [Hok' Hs']; [intros u Hu; congruence|]. split_and!; [done..|].
  intros rank N Hr h' i E. exfalso. destruct (next_owner _ _ _ _ Hok' E) as (t' & _ & Et' & _).
  apply (next_mono p) in E; [|done..]. rewrite En in E. injection E as <- <-. unfold remove in Et'. rewrite <-Hh in Et'.
  destruct (remove_rec_spec (S (base.size (mapTx p))) p t Hok) as (_ & _ & Hg); [congruence|].
  destruct (Hg _ _ (ranked_size _ _ _ Hr)) as [Hgone _]; [rewrite Hh; by eexists|lia|]. congruence.
Qed.

(** After the removal of its conflicts, the outputs a transaction spends are spent in
    the pool by nobody else. *)
Lemma removeConflicts_spec p tx :
  pool_ok p ->
  pool_ok (removeConflicts p tx) /\ mapTx (removeConflicts p tx) ⊆ mapTx p /\
  forall rank N, ranked p rank N -> Forall (fun txin => no_conflict (removeConflicts p tx) tx (prevout txin)) (vin tx).
Proof.
  unfold removeConflicts. generalize (vin tx) as l. intros l. revert p.
  induction l as [|x l IH]; intros p Hok; cbn [fold_left]; [split_and!; [done..|intros; constructor]|].
  destruct (remove_conflict_spec p tx x Hok) as (Hok1 & Hs1 & Hn1). destruct (IH _ Hok1) as (Hok2 & Hs2 & Hn2).
  split_and!; [done|by etransitivity|]. intros rank N Hr. constructor; [|by eapply Hn2, ranked_mono].
  by eapply no_conflict_mono, Hn1.
Qed.
End conflicts.

(** ** Reachable pools *)

Section reachable.
Context `{OpenSSLBN} `{Sha256} `{ScriptHashes} `{OpenSSLEC} `{Secp256k1}.

Lemma accept_adds nd p tx f p' :
  accept nd p tx f = Accept (Some p') ->
  p' = addUnchecked p (GetHash tx) tx /\ CheckTransaction tx = Accept tt /\ Transactions.IsCoinBase tx = false /\
  (fTestNet nd = false -> IsStandard (fEnforceCanonical nd) tx = true) /\ mapTx p !! GetHash tx = None /\
  Forall (fun txin => mapNextTx p !! prevout txin = None) (vin tx) /\ (f = true -> accept_inputs nd p tx = Accept true).
Proof.
  unfold accept. intros ([] & Hc & E)%bind_accept. destruct (Transactions.IsCoinBase tx); [done|]. destruct (IsCoinStake tx); [done|].
  destruct (negb (marker_rule _ _)); [done|]. destruct (negb (mixing_rule _ _)); [done|].
  destruct (negb (CheckCanonicalStructure _ _)); [done|]. destruct (_ <? nLockTime tx); [done|].
  destruct (negb (fTestNet nd) && _) eqn:Es; [done|]. cbv zeta in E. destruct (exists_ p (GetHash tx)) eqn:Ex; [done|].
  destruct (f && _); [done|]. destruct (existsb _ _) eqn:Ev; [done|]. apply bind_accept in E as (ok & Ei & E).
  destruct ok; [|done]. injection E as <-. split_and!; [done..| | | |].
  - intros Ht. rewrite Ht in Es. cbn [negb andb] in Es. by apply negb_false_iff in Es.
  - unfold exists_ in Ex. apply bool_decide_eq_false in Ex. by apply eq_None_not_Some.
  - apply Forall_forall. intros x Hx. apply eq_None_not_Some. intros Hs. rewrite <-not_true_iff_false in Ev. apply Ev, existsb_exists.
    exists x. split; [by apply list_elem_of_In|]. by apply bool_decide_eq_true.
  - by intros ->.
Qed.

Lemma checked_inputs_once tx : CheckTransaction tx = Accept tt -> NoDup (map prevout (vin tx)).
Proof.
  unfold CheckTransaction. destruct (bool_decide _); [done|]. destruct (bool_decide _); [done|]. destruct (MAX_BLOCK_SIZE <? _); [done|].
  intros (v & _ & E)%bind_accept. apply bind_accept in E as (s & E & _). by apply (input_loop (vin tx) ∅); exists s.
Qed.

(** What the node does with the pool: accept, remove (a transaction of the same hash is
    the same), drop conflicts, clear. *)
Inductive pool_step : CTxMemPool -> CTxMemPool -> Prop :=
| step_accept nd p tx f p' : accept nd p tx f = Accept (Some p') -> pool_step p p'
| step_remove p tx f : (forall t, mapTx p !! GetHash tx = Some t -> t = tx) -> pool_step p (remove p tx f)
| step_conflicts p tx : pool_step p (removeConflicts p tx)
| step_clear p : pool_step p (clear p).

Lemma pool_step_ok p p' : pool_ok p -> pool_step p p' -> pool_ok p'.
Proof.
  intros Hok Hs. destruct Hs as [nd p tx f p' E|p tx f Hsame|p tx|p].
  - apply accept_adds in E as (-> & Hc & _ & _ & Hn & Hf & _). apply addUnchecked_ok; [done|done|by apply checked_inputs_once|done].
  - by apply remove_ok.
  - by apply removeConflicts_spec.
  - apply pool_ok_empty.
Qed.

(** C23. Whatever acceptances, removals of transactions (the ones kept under their
    hashes), removals of conflicts and clearings a pool has seen since it was empty, no
    two transactions of it spend the same output, and it never points at a transaction
    it has dropped: an output that is noted as spent is spent by the input noted, of a
    transaction that is there. *)
Theorem pool_spends_once_always p :
  rtc pool_step empty_pool p ->
  (forall h1 h2 tx1 tx2 i1 i2, mapTx p !! h1 = Some tx1 -> mapTx p !! h2 = Some tx2 ->
     i1 ∈ vin tx1 -> i2 ∈ vin tx2 -> prevout i1 = prevout i2 -> h1 = h2 /\ i1 = i2) /\
  (forall o h i, mapNextTx p !! o = Some (h, i) ->
     exists tx txin, mapTx p !! h = Some tx /\ vin tx !! Z.to_nat i = Some txin /\ prevout txin = o).
Proof.
  intros Hr. assert (pool_ok p) as Hok.
  { enough (forall q, rtc pool_step q p -> pool_ok q -> pool_ok p) as He by (apply (He empty_pool Hr), pool_ok_empty).
    induction 1 as [q|q q1 q2 Hq _ IH]; [done|]. intros Hok. by eapply IH, pool_step_ok. }
  split.
  - intros h1 h2 tx1 tx2 i1 i2 E1 E2 [k1 K1]%list_elem_of_lookup [k2 K2]%list_elem_of_lookup Hp.
    destruct (pool_spends_once p h1 h2 tx1 tx2 k1 k2 i1 i2 Hok E1 E2 K1 K2 Hp) as [<- <-]. split; [done|].
    rewrite E1 in E2. injection E2 as <-. congruence.
  - intros o h i E. apply (po_next _ Hok) in E as (t & x & Et & [_ Hk]%lookup_indexed & Hx). by exists t, x.
Qed.

(** On the main network the pool never takes a transaction with an extension part: such
    a transaction has a version that is not standard. *)
Theorem pool_has_no_extension nd p tx f p' :
  accept nd p tx f = Accept (Some p') -> fTestNet nd = false -> HasMWEB tx = false.
Proof.
  intros (_ & _ & _ & Hs & _)%accept_adds Ht. by apply (standard_has_no_extension (fEnforceCanonical nd)), Hs.
Qed.
End reachable.

(** ** Instances *)

Section witnesses.
#[local] Existing Instance z_bn.
#[local] Instance toy : Sha256 := toy_sha256.
#[local] Existing Instance toy_hashes.
#[local] Existing Instance toy_ec.
#[local] Existing Instance log_secp.

Definition sample_node (testnet : bool) : node :=
  {| nBestHeight := 500; best_chain := sample_chain; fTestNet := testnet; fEnforceCanonical := true; rate_limited := false;
     db := txdb sample_store; on_disk := ReadFromDisk sample_store |}.

(** The first transaction of [TxInputs.sample_block] is accepted by a test node, the
    second one, which spends its output, after it. *)
Definition pool1 : CTxMemPool := addUnchecked empty_pool (GetHash tx1) tx1.
Definition pool2 : CTxMemPool := addUnchecked pool1 (GetHash tx2) tx2.

Lemma accepts_tx1 : accept (sample_node true) empty_pool tx1 true = Accept (Some pool1).
Proof. vm_compute. reflexivity. Qed.

Lemma accepts_tx2 : accept (sample_node true) pool1 tx2 true = Accept (Some pool2).
Proof. vm_compute. reflexivity. Qed.

Lemma pool2_reachable : rtc pool_step empty_pool pool2.
Proof.
  eapply rtc_l; [by eapply step_accept, accepts_tx1|]. eapply rtc_l; [by eapply step_accept, accepts_tx2|]. constructor.
Qed.

Lemma pool_spends_once_always_witness :
  exists tx txin, mapTx pool2 !! GetHash tx2 = Some tx /\ vin tx !! 0%nat = Some txin /\
    prevout txin = {| hash := GetHash tx1; n := 0 |}.
Proof.
  destruct (pool_spends_once_always pool2 pool2_reachable) as [_ Hn].
  apply (Hn {| hash := GetHash tx1; n := 0 |} (GetHash tx2) 0). vm_compute. reflexivity.
Defined.

Definition pay_tx : CTransaction := plain_tx [sample_input (GetHash tx0) 0] [{| nValue := 9 * COIN; scriptPubKey := OP_DUP :: OP_HASH160 :: 20 :: replicate 20 7 ++ [OP_EQUALVERIFY; OP_CHECKSIG] |}].
Lemma pool_has_no_extension_witness : HasMWEB pay_tx = false.
Proof.
  apply (pool_has_no_extension (sample_node false) empty_pool pay_tx false (addUnchecked empty_pool (GetHash pay_tx) pay_tx)).
  - vm_compute. reflexivity.
  - reflexivity.
Defined.

Lemma pool2_ok : pool_ok pool2.
Proof.
  apply addUnchecked_ok; [|by vm_compute|apply (bool_decide_unpack _); by vm_compute|repeat constructor; by vm_compute].
  apply addUnchecked_ok; [apply pool_ok_empty|done|apply (bool_decide_unpack _); by vm_compute|repeat constructor].
Qed.

Definition sample_rank (h : Z) : nat := if h =? GetHash tx2 then 1 else 0.

Lemma pool2_ranked : ranked pool2 sample_rank 2.
Proof.
  intros h t E. unfold pool2, pool1, empty_pool in E. cbn [addUnchecked mapTx] in E.
  apply lookup_insert_Some in E as [[<- <-]|[_ E]]; [|apply lookup_insert_Some in E as [[<- <-]|[_ E]]; [|by rewrite lookup_empty in E]].
  - split; [by vm_compute; lia|]. apply Forall_cons; split; [intros _; vm_compute; lia|]. apply Forall_cons; split; [intros _; vm_compute; lia|constructor].
  - split; [by vm_compute; lia|]. apply Forall_cons; split; [|constructor]. intros [t Ht]. exfalso. revert Ht. vm_compute. discriminate.
Qed.

Lemma remove_recursive_witness : mapTx (remove pool2 tx1 true) !! GetHash tx1 = None.
Proof.
  apply (remove_recursive pool2 tx1 sample_rank 2 pool2_ok); [vm_compute; reflexivity|apply pool2_ranked].
Defined.
End witnesses.

End MemPool.
