(* ===== verification/Extension.v ===== *)
(** * The extension block of a block ([src/main.cpp])

    What [CBlock::ConnectBlock] and [CBlock::DisconnectBlock] do for MimbleWimble:
    the checks of the transactions with an extension part, the validation of the
    extension block against the peg-ins of the transactions, and the changes of
    [g_mwState].  The wallet's scan of the block is not part of the state. *)

From S2P Require Import Prelude Crypto Serialize BigNum Script Interpreter Standard Mmr MwModels Transactions.
From S2P Require Import Sighash MwState Secp MwCrypto Bulletproofs MwValidation TxInputs Peg TxChecks.
Import Stream BigNum Script Interpreter Standard MwModels Sighash MwState MwCrypto MwValidation Transactions TxInputs Peg TxChecks.

Module Extension.

Definition MWEB_ACTIVATION_HEIGHT : Z := 50000.
Definition MWEB_VERSION_BIT : Z := 0x20000000.

Section extension.
Context `{Sha256} `{Secp256k1}.

(** One turn of the loop over the transactions. *)
Definition check_ct_tx (tx : CTransaction) : bool :=
  let body := t_body (mwTx tx) in
  if negb (HasMWEB tx) then true
  else if negb (VerifyRangeProofs body) then false
  else if negb (VerifyKernelSignatures body) then false
  else if negb (VerifyCommitmentSum body (t_offset (mwTx tx))) then false
  else if (0 <? GetTotalPegIn body) && negb (has_peg_marker tx) then false else true.

(** [nTransparentPegIn] *)
Definition add_peg_in (nTransparentPegIn : Z) (tx : CTransaction) : outcome Z :=
  match IsPegInTransaction tx with
  | None => Accept nTransparentPegIn
  | Some None => Throws
  | Some (Some (_, nPegAmount)) => Accept (i64 (nTransparentPegIn + nPegAmount))
  end.
Definition transparent_peg_in (vtx : list CTransaction) : outcome Z := ofold add_peg_in vtx 0.

Definition has_extension (nVersion : Z) (mwExtBlock : CMWBlock) : bool :=
  negb (Z.land nVersion MWEB_VERSION_BIT =? 0) && negb (block_IsNull mwExtBlock).

(** The end of [ConnectBlock], on the global state. *)
Definition connect_extension (g_mwState : CMWState) (nVersion : Z) (mwExtBlock : CMWBlock) (vtx : list CTransaction)
    (nHeight : Z) (hashBlock : uint256) : outcome CMWState :=
  if nHeight <? MWEB_ACTIVATION_HEIGHT then Accept g_mwState
  else if negb (forallb check_ct_tx vtx) then Reject 0
  else if negb (has_extension nVersion mwExtBlock) then Accept g_mwState
  else
    let* nTransparentPegIn := transparent_peg_in vtx in
    let nTransparentPegOut := 0 in
    let mwResult := ValidateMWBlock mwExtBlock g_mwState nHeight nTransparentPegIn nTransparentPegOut in
    if negb (IsValid mwResult) then Reject 0
    else
      let nSupplyDelta := i64 (GetTotalPegIn (b_body mwExtBlock) - GetTotalPegOut (b_body mwExtBlock)) in
      let '(s, ok) := ApplyBlock g_mwState mwExtBlock nHeight hashBlock nSupplyDelta in
      if negb ok then Reject 0 else Accept s.

(** The end of [DisconnectBlock]. *)
Definition disconnect_extension (g_mwState : CMWState) (nVersion : Z) (mwExtBlock : CMWBlock) (nHeight : Z)
    (hashBlock : uint256) : outcome CMWState :=
  if nHeight <? MWEB_ACTIVATION_HEIGHT then Accept g_mwState
  else
    let fNoMWChange := negb (has_extension nVersion mwExtBlock) in
    let '(s, ok) := MwState.DisconnectBlock g_mwState hashBlock fNoMWChange in
    if negb ok then Reject 0 else Accept s.

End extension.

(** * Properties *)

Section laws.
Context `{Sha256} `{Secp256k1} `{!SecpLaws} `{!SecpGroup}.

(** The branch that changes the state. *)
Lemma connect_extension_changes s v ext vtx h hash s' :
  connect_extension s v ext vtx h hash = Accept s' ->
  s' = s \/
  (MWEB_ACTIVATION_HEIGHT <= h /\ has_extension v ext = true /\ exists pegin,
    transparent_peg_in vtx = Accept pegin /\ IsValid (ValidateMWBlock ext s h pegin 0) = true /\
    ApplyBlock s ext h hash (i64 (GetTotalPegIn (b_body ext) - GetTotalPegOut (b_body ext))) = (s', true)).
Proof.
  unfold connect_extension. destruct (Z.ltb_spec h MWEB_ACTIVATION_HEIGHT) as [|Hh]; [intros E; left; by apply Accept_inj in E|].
  destruct (negb (forallb _ _)); [done|]. destruct (has_extension v ext) eqn:Hx; cbn [negb]; [|intros E; left; by apply Accept_inj in E].
  intros (pegin & Hp & E)%bind_accept. cbv zeta in E. destruct (IsValid _) eqn:Hv; [|done]. cbn [negb] in E. right.
  split; [done|]. split; [done|]. exists pegin. split; [done|]. split; [done|].
  destruct (ApplyBlock _ _ _ _ _) as [s2 ok]. destruct ok; [|done]. apply Accept_inj in E as <-. done.
Qed.

Lemma apply_new s b n h d s' : ApplyBlock s b n h d = (s', true) -> mapBlockUndo s !! h = None.
Proof.
  unfold ApplyBlock. destruct (bool_decide_reflect (is_Some (mapBlockUndo s !! h))); [done|]. intros _. by apply eq_None_not_Some.
Qed.

Lemma apply_supply s ls b n h d s' :
  state_ok s ls -> room s ls b -> fresh s (vOutputs (b_body b)) -> ApplyBlock s b n h d = (s', true) ->
  nMWEBSupply s' = i64 (nMWEBSupply s + d).
Proof.
  intros Hok Hr Hf E. destruct (ApplyBlock_spec s ls b n h d Hok Hr Hf (apply_new _ _ _ _ _ _ E)) as (s1 & s2 & B & S & xs & _ & _ & _ & _ & Es).
  cbv zeta in Es. destruct (evict _ _) as [u dq]. rewrite Es in E. apply (f_equal fst) in E. cbn [fst] in E. by rewrite <-E.
Qed.

(** Connecting a block never moves an amount into or out of the extension: when the
    state changes, the transactions' peg-ins total zero, the extension block pegs
    nothing in or out and pays no fee, and the recorded supply stays the same. *)
Theorem extension_moves_no_amount s ls v ext vtx h hash s' :
  connect_extension s v ext vtx h hash = Accept s' ->
  state_ok s ls -> room s ls ext -> fresh s (vOutputs (b_body ext)) ->
  nMWEBSupply s' = nMWEBSupply s /\
  (s' = s \/ transparent_peg_in vtx = Accept 0 /\ GetTotalPegIn (b_body ext) = 0 /\ GetTotalPegOut (b_body ext) = 0 /\
             GetTotalFee (b_body ext) = 0).
Proof.
  intros [->|(_ & _ & pegin & Hp & Hv & E)]%connect_extension_changes Hok Hr Hf; [auto|].
  rewrite ValidateMWBlock_spec in Hv. destruct Hv as (_ & _ & Hb & _ & _ & Hin & Hout & _).
  pose proof (sum_no_amounts _ _ (bv_sum _ _ _ _ Hb)) as (Hs1 & Hs2 & Hs3).
  pose proof (proj1 (totals_spec _) (bv_totals _ _ _ _ Hb)) as (Hs4 & Hs5 & Hs6).
  assert (GetTotalPegIn (b_body ext) = 0) as Hi by lia. assert (GetTotalPegOut (b_body ext) = 0) as Ho by lia.
  rewrite Hi, Ho in E. apply (apply_supply s ls) in E; [|done..]. split.
  - rewrite E. change (i64 (0 - 0)) with 0. rewrite Z.add_0_r. apply i64_id, (ok_supply _ _ Hok).
  - right. rewrite Hp. repeat split; [|done..|lia]. f_equal. lia.
Qed.

(** Disconnecting a block undoes what its connection did to the extension's state,
    with room in the undo window, no undo record under its hash and outputs new to the
    state, whether or not the block had an extension block. *)
Theorem extension_unwinds s ls v ext vtx h hash s' :
  connect_extension s v ext vtx h hash = Accept s' ->
  state_ok s ls -> room s ls ext -> fresh s (vOutputs (b_body ext)) -> len (dqUndoOrder s) < MW_UNDO_WINDOW ->
  HasUndo s hash = false ->
  disconnect_extension s' v ext h hash = Accept s.
Proof.
  intros Hc Hok Hr Hf Hw Hu. assert (mapBlockUndo s !! hash = None) as Hn.
  { unfold HasUndo in Hu. apply bool_decide_eq_false in Hu. by apply eq_None_not_Some. }
  unfold disconnect_extension. unfold connect_extension in Hc. destruct (Z.ltb_spec h MWEB_ACTIVATION_HEIGHT) as [Hh|Hh].
  { by apply Accept_inj in Hc as ->. }
  destruct (has_extension v ext) eqn:Hx; cbn [negb].
  - pose proof Hc as Hc'. destruct (negb (forallb _ _)); [done|]. cbn [negb] in Hc. apply bind_accept in Hc as (pegin & _ & E). cbv zeta in E.
    destruct (negb (IsValid _)); [done|]. destruct (ApplyBlock _ _ _ _ _) as [s2 ok] eqn:Ea. destruct ok; [|done].
    apply Accept_inj in E as ->. pose proof (Disconnect_Apply s ls ext h hash
      (i64 (GetTotalPegIn (b_body ext) - GetTotalPegOut (b_body ext))) false Hok Hr Hf Hn Hw) as Hd.
    rewrite Ea in Hd. cbn [fst] in Hd. by rewrite Hd.
  - destruct (negb (forallb _ _)); [done|]. apply Accept_inj in Hc as ->. unfold DisconnectBlock. by rewrite Hn.
Qed.
End laws.

(** ** Instances *)

Section witnesses.
#[local] Existing Instance log_secp.
#[local] Existing Instance log_laws.
#[local] Existing Instance log_group.
#[local] Instance toy : Sha256 := toy_sha256.

Lemma accepted {A} (o : outcome A) : match o with Accept _ => true | _ => false end = true -> exists a, o = Accept a.
Proof. destruct o; [eauto|done..]. Qed.

Lemma sample_connects :
  exists s', connect_extension before MWEB_VERSION_BIT (next_block signed_body) [extension_tx] 60000 202 = Accept s'.
Proof. apply accepted. vm_compute. reflexivity. Qed.

Lemma sample_room ls : len ls <= 1 -> room before ls (next_block signed_body).
Proof. intros Hl. split; [change (len (vOutputs (b_body (next_block signed_body)))) with 1; lia|vm_compute; reflexivity]. Qed.

Lemma sample_fresh : fresh before (vOutputs (b_body (next_block signed_body))).
Proof. apply fresh_check. vm_compute. reflexivity. Qed.

Lemma extension_moves_no_amount_witness : exists s', nMWEBSupply s' = nMWEBSupply before.
Proof.
  destruct sample_connects as (s' & E). destruct before_ok as (ls & Hok & Hl). exists s'.
  apply (extension_moves_no_amount before ls _ _ _ _ _ s' E Hok (sample_room ls Hl) sample_fresh).
Defined.

Lemma sample_window : len (dqUndoOrder before) < MW_UNDO_WINDOW /\ HasUndo before 202 = false.
Proof. vm_compute. split; reflexivity. Qed.

Lemma extension_unwinds_witness :
  exists s', disconnect_extension s' MWEB_VERSION_BIT (next_block signed_body) 60000 202 = Accept before.
Proof.
  destruct sample_connects as (s' & E). destruct before_ok as (ls & Hok & Hl). exists s'.
  apply (extension_unwinds before ls _ _ _ _ _ s' E Hok (sample_room ls Hl) sample_fresh); apply sample_window.
Defined.
End witnesses.

End Extension.
