(* ===== verification/Targets.v ===== *)
(** * Difficulty targets, rewards and block times ([src/main.cpp], [src/main.h])

    The compact targets of the two kinds of block and their adjustment, the check of
    the proof of work, the trust of a block, the rewards, the cut of the fund and
    the median time of a chain.  A chain is the list of its entries, the last
    block first. *)

From stdpp Require Import sorting.
From S2P Require Import Prelude Crypto BigNum BigArith Transactions TxInputs.
Import BigNum BigArith Transactions TxInputs.

Module Targets.

(** ** Limits *)

(** [~uint256(0) >> n].  The limit of the test network for stake is declared and not
    used. *)
Definition not_zero_shr (shift : Z) : uint256 := Z.shiftr (2 ^ 256 - 1) shift.
Definition work_shift (fTestNet : bool) : Z := if fTestNet then 16 else 20.
Definition stake_shift : Z := 24.

(** [4.3 * 60] in an unsigned integer. *)
Definition nTargetSpacing : Z := 258.
Definition nStakeTargetSpacing : Z := nTargetSpacing.
Definition nTargetTimespan : Z := 60 * 60.

(** ** Rewards *)

Definition GetProofOfWorkReward (nHeight nFees : Z) : Z :=
  let nSubsidy := 0 in
  if nHeight =? 1 then let nSubsidy := 1000000000 * COIN in i64 (nSubsidy + nFees) else i64 (nSubsidy + nFees).
(** The age of the coins, the target, the times and the height are not used. *)
Definition GetProofOfStakeReward (nFees : Z) : Z := let nSubsidy := 0 in i64 (nSubsidy + nFees).

Definition MARYJ_DEV_FUND_FEE_NUM : Z := 20.
Definition MARYJ_DEV_FUND_FEE_DEN : Z := 420.
Definition GetDevFundCut (nFees : Z) : Z :=
  if nFees <=? 0 then 0 else Z.quot (i64 (nFees * MARYJ_DEV_FUND_FEE_NUM)) MARYJ_DEV_FUND_FEE_DEN.

(** ** Times *)

Definition nMedianTimeSpan : nat := 11.
(** [std::sort] of the times of the last blocks, and the one in the middle. *)
Definition GetMedianTimePast (chain : list CBlockIndex) : Z :=
  let times := merge_sort Z.le (map bi_nTime (take nMedianTimeSpan chain)) in
  nth (length times / 2) times 0.

Section targets.
Context `{OpenSSLBN} `{OpenSSLBNArith}.

Definition bnProofOfWorkLimit (fTestNet : bool) : Z := setuint256 (not_zero_shr (work_shift fTestNet)).
Definition bnProofOfStakeLimit : Z := setuint256 (not_zero_shr stake_shift).

(** ** The least target that could follow in a time *)

(** The loop, on [bnResult]: every turn takes a day off the time. *)
Fixpoint max_bits_loop (fuel : nat) (bnTargetLimit bnResult nTime : Z) : Z :=
  match fuel with
  | O => bnResult
  | S fuel =>
      if (0 <? nTime) && bn_lt bnResult bnTargetLimit
      then max_bits_loop fuel bnTargetLimit (bn_mul bnResult (CBigNum_long 2)) (nTime - 24 * 60 * 60) else bnResult
  end.
Definition max_bits_fuel (nTime : Z) : nat := Z.to_nat (nTime / (24 * 60 * 60) + 1).

Definition ComputeMaxBits (bnTargetLimit nBase nTime : Z) : Z :=
  let bnResult := bn_mul (SetCompact nBase) (CBigNum_long 2) in
  let bnResult := max_bits_loop (max_bits_fuel nTime) bnTargetLimit bnResult nTime in
  GetCompact (if bn_gt bnResult bnTargetLimit then bnTargetLimit else bnResult).
Definition ComputeMinWork (fTestNet : bool) (nBase nTime : Z) : Z := ComputeMaxBits (bnProofOfWorkLimit fTestNet) nBase nTime.
Definition ComputeMinStake (nBase nTime : Z) : Z := ComputeMaxBits bnProofOfStakeLimit nBase nTime.

(** ** The next target *)

(** The last block of a kind, with the chain below it; the first block where there
    is none. *)
Fixpoint GetLastBlockIndex (chain : list CBlockIndex) (fProofOfStake : bool) : list CBlockIndex :=
  match chain with
  | b :: ((_ :: _) as pprev) => if Bool.eqb (bi_fStake b) fProofOfStake then chain else GetLastBlockIndex pprev fProofOfStake
  | _ => chain
  end.

(** The target [nBits] after a spacing, before the limit is applied.  The products
    and sums of the factors are those of [int]. *)
Definition retarget (nBits nActualSpacing : Z) : Z :=
  let nInterval := Z.quot nTargetTimespan nStakeTargetSpacing in
  let bnNew := SetCompact nBits in
  let bnNew := bn_mul bnNew (CBigNum_long (i32 ((nInterval - 1) * nStakeTargetSpacing + nActualSpacing + nActualSpacing))) in
  bn_div bnNew (CBigNum_long (i32 ((nInterval + 1) * nStakeTargetSpacing))).

Definition GetNextTargetRequired (fTestNet : bool) (chain : list CBlockIndex) (fProofOfStake : bool) : Z :=
  let bnTargetLimit := if fProofOfStake then bnProofOfStakeLimit else bnProofOfWorkLimit fTestNet in
  match GetLastBlockIndex chain fProofOfStake with
  | pindexPrev :: ((_ :: _) as pprev) =>
      match GetLastBlockIndex pprev fProofOfStake with
      | pindexPrevPrev :: _ :: _ =>
          let nActualSpacing := i32 (bi_nTime pindexPrev - bi_nTime pindexPrevPrev) in
          let nActualSpacing := if nActualSpacing <? 0 then nTargetSpacing else nActualSpacing in
          let bnNew := retarget (bi_nBits pindexPrev) nActualSpacing in
          GetCompact (if bn_le bnNew (CBigNum_long 0) || bn_gt bnNew bnTargetLimit then bnTargetLimit else bnNew)
      | _ => GetCompact bnTargetLimit
      end
  | _ => GetCompact bnTargetLimit
  end.

(** ** Work *)

Definition CheckProofOfWork (fTestNet : bool) (hash : uint256) (nBits : Z) : bool :=
  let bnTarget := SetCompact nBits in
  if bn_le bnTarget (CBigNum_long 0) || bn_gt bnTarget (bnProofOfWorkLimit fTestNet) then false
  else if getuint256 bnTarget <? hash then false else true.

Definition GetBlockTrust (nBits : Z) : uint256 :=
  let bnTarget := SetCompact nBits in
  if bn_le bnTarget (CBigNum_long 0) then 0
  else getuint256 (bn_div (bn_shl (CBigNum_long 1) 256) (bn_add bnTarget (CBigNum_long 1))).

End targets.

(** * Properties *)

Section laws.
Context `{OpenSSLBN} `{OpenSSLBNArith} `{!BNLaws} `{!BNArithLaws}.

(** What the compact form keeps of a number: its three leading bytes. *)
Definition rounded (z : Z) : Z := let k := 8 * (Z.of_nat (num_length z) - 3) `max` 0 in z / 2 ^ k * 2 ^ k.

Lemma num_length_max z n : 0 <= z < 2 ^ (8 * Z.of_nat n - 1) -> (num_length z <= n)%nat.
Proof. intros Hz. apply num_length_le. rewrite Z.abs_eq; lia. Qed.

Lemma rounded_range z : 0 < z -> 0 < rounded z <= z.
Proof.
  intros Hz. unfold rounded. cbv zeta. set (k := 8 * (Z.of_nat (num_length z) - 3) `max` 0).
  assert (0 <= k) as Hk by lia. assert (0 < 2 ^ k) as Hp by (apply Z.pow_pos_nonneg; lia). split.
  - enough (2 ^ k <= z) by (assert (1 <= z / 2 ^ k) by (apply Z.div_le_lower_bound; lia); nia).
    destruct (Z.le_gt_cases (2 ^ k) z) as [|Hlt]; [done|]. exfalso. destruct (decide (3 < num_length z)%nat) as [H3|H3].
    + assert (num_length z <= num_length z - 2)%nat; [|lia]. apply num_length_max. split; [lia|].
      eapply Z.lt_le_trans; [exact Hlt|]. apply Z.pow_le_mono_r; lia.
    + assert (k = 0) as -> by lia. change (2 ^ 0) with 1 in Hlt. lia.
  - pose proof (Z.mul_div_le z (2 ^ k) Hp). lia.
Qed.

Lemma compact_back z : 0 <= z < 2 ^ 256 -> SetCompact (GetCompact z) = rounded z.
Proof.
  intros Hz. apply compact_rounds; [lia|]. assert (num_length z <= 33)%nat; [|lia]. apply num_length_max.
  split; [lia|]. eapply Z.lt_le_trans; [apply Hz|]. apply Z.pow_le_mono_r; lia.
Qed.

(** ** Limits *)

Definition work_limit (fTestNet : bool) : Z := 2 ^ (256 - work_shift fTestNet) - 1.
Definition stake_limit : Z := 2 ^ (256 - stake_shift) - 1.
Definition limit (fTestNet fProofOfStake : bool) : Z := if fProofOfStake then stake_limit else work_limit fTestNet.

Lemma work_limit_value fTestNet : bnProofOfWorkLimit fTestNet = work_limit fTestNet.
Proof. unfold bnProofOfWorkLimit. rewrite setuint256_value; by destruct fTestNet. Qed.
Lemma stake_limit_value : bnProofOfStakeLimit = stake_limit.
Proof. unfold bnProofOfStakeLimit. by rewrite setuint256_value. Qed.
Lemma limit_range fTestNet fProofOfStake : 0 < limit fTestNet fProofOfStake < 2 ^ 256.
Proof. by destruct fTestNet, fProofOfStake. Qed.

(** ** The next target *)

Lemma CBigNum_small n : - 2 ^ 31 <= n < 2 ^ 31 -> CBigNum_long n = n.
Proof. intros Hn. apply CBigNum_long_value. lia. Qed.

(** What the tests on the new target leave is in the range. *)
Lemma clamp_range lim x :
  0 < lim -> 0 < (if bn_le x (CBigNum_long 0) || bn_gt x lim then lim else x) <= lim.
Proof.
  intros Hl. rewrite CBigNum_small, bn_le_value, bn_gt_value by lia.
  destruct (Z.leb_spec x 0), (Z.ltb_spec lim x); cbn [orb]; lia.
Qed.

Lemma retarget_value nBits s :
  0 <= s <= 2 ^ 29 -> 0 < SetCompact nBits -> retarget nBits s = SetCompact nBits * (3096 + 2 * s) / 3612.
Proof.
  intros Hs Hp. unfold retarget. cbv zeta. change (Z.quot nTargetTimespan nStakeTargetSpacing) with 13.
  change nStakeTargetSpacing with 258. rewrite !i32_id by lia. rewrite !CBigNum_small by lia.
  rewrite bn_mul_value, bn_div_value by lia. f_equal; lia.
Qed.

(** The blocks a target is made from: the last of its kind and the last of its kind
    before that one, neither of them the first block of the chain. *)
Definition last_two (chain : list CBlockIndex) (fProofOfStake : bool) (b p : CBlockIndex) : Prop :=
  exists pprev below, GetLastBlockIndex chain fProofOfStake = b :: pprev /\
    GetLastBlockIndex pprev fProofOfStake = p :: below /\ below <> [].

(** The spacing as it is counted. *)
Definition spacing (b p : CBlockIndex) : Z := if bi_nTime b <? bi_nTime p then nTargetSpacing else bi_nTime b - bi_nTime p.


(** ** Work *)

Lemma small_mpi z : 0 <= z < 2 ^ 263 -> len (num_bytes z) < 2 ^ 31.
Proof. intros Hz. pose proof (num_bytes_len z 33 ltac:(rewrite Z.abs_eq; [|lia]; change (8 * Z.of_nat 33 - 1) with 263; lia)). lia. Qed.

Lemma getuint256_small z : 0 <= z < 2 ^ 256 -> getuint256 z = z.
Proof.
  intros Hz. assert (z < 2 ^ 263) as H3 by (eapply Z.lt_trans; [apply Hz|reflexivity]).
  rewrite getuint256_value; [by apply Z.mod_small|lia|]. apply small_mpi. lia.
Qed.

(** The proof of work of a block holds exactly when its target is positive, at most
    the limit, and not below the hash; such a block has the trust
    2^256 / (target + 1), the number of hashes it takes on average, which is at
    least 2^20 on the main network. *)
Theorem proof_of_work_spec fTestNet h nBits :
  (CheckProofOfWork fTestNet h nBits = true <-> 0 < SetCompact nBits <= work_limit fTestNet /\ h <= SetCompact nBits) /\
  (0 < SetCompact nBits <= work_limit fTestNet ->
   GetBlockTrust nBits = 2 ^ 256 / (SetCompact nBits + 1) /\ 2 ^ work_shift fTestNet <= GetBlockTrust nBits < 2 ^ 256).
Proof.
  pose proof (limit_range fTestNet false : 0 < work_limit fTestNet < 2 ^ 256) as Hl. split.
  - unfold CheckProofOfWork. cbv zeta. rewrite CBigNum_small, bn_le_value, bn_gt_value, work_limit_value by lia.
    destruct (Z.leb_spec (SetCompact nBits) 0); cbn [orb]; [split; [done|lia]|].
    destruct (Z.ltb_spec (work_limit fTestNet) (SetCompact nBits)); [split; [done|lia]|].
    rewrite getuint256_small by lia. destruct (Z.ltb_spec (SetCompact nBits) h); split; (discriminate || lia || reflexivity).
  - intros Ht. unfold GetBlockTrust. cbv zeta. rewrite CBigNum_small, bn_le_value by lia.
    destruct (Z.leb_spec (SetCompact nBits) 0); [lia|]. rewrite CBigNum_small, bn_shl_value, bn_add_value by lia. rewrite Z.mul_1_l.
    rewrite bn_div_value by lia. set (t := SetCompact nBits) in *.
    assert (2 ^ 256 / (t + 1) < 2 ^ 256) as Hlt by (apply Z.div_lt; lia).
    assert (0 < 2 ^ work_shift fTestNet) as Hw by by destruct fTestNet.
    assert (2 ^ work_shift fTestNet <= 2 ^ 256 / (t + 1)) as Hge.
    { apply Z.div_le_lower_bound; [lia|]. assert ((work_limit fTestNet + 1) * 2 ^ work_shift fTestNet = 2 ^ 256) as E by by destruct fTestNet.
      rewrite <-E. apply Z.mul_le_mono_nonneg_r; lia. }
    rewrite getuint256_small by lia. lia.
Qed.

(** ** The least target that could follow *)

(** The days of a time, begun ones included. *)
Definition days (t : Z) : Z := 0 `max` ((t + (24 * 60 * 60 - 1)) / (24 * 60 * 60)).

Lemma max_bits_loop_spec fuel lim x t :
  0 < x -> days t <= Z.of_nat fuel ->
  lim `min` max_bits_loop fuel lim x t = lim `min` (x * 2 ^ days t).
Proof.
  revert x t. induction fuel as [|fuel IH]; intros x t Hx Hf; cbn [max_bits_loop].
  - assert (days t = 0) as -> by (unfold days in *; lia). lia.
  - rewrite bn_lt_value. destruct (Z.ltb_spec 0 t) as [Ht|Ht]; cbn [andb].
    2:{ assert (days t = 0) as ->; [|lia]. unfold days.
        assert ((t + (24 * 60 * 60 - 1)) / (24 * 60 * 60) < 1) by (apply Z.div_lt_upper_bound; lia). lia. }
    assert (days t = 1 + days (t - 24 * 60 * 60)) as Ed.
    { unfold days. replace (t + (24 * 60 * 60 - 1)) with (t - 24 * 60 * 60 + (24 * 60 * 60 - 1) + 1 * (24 * 60 * 60)) by lia.
      rewrite Z.div_add by lia. assert (0 <= (t - 24 * 60 * 60 + (24 * 60 * 60 - 1)) / (24 * 60 * 60)); [|lia]. apply Z.div_pos; lia. }
    assert (0 <= days (t - 24 * 60 * 60)) by (unfold days; lia).
    rewrite Ed, Z.pow_add_r by lia. destruct (Z.ltb_spec x lim) as [Hlt|Hge].
    + rewrite IH; rewrite ?bn_mul_value, ?CBigNum_small by lia; [f_equal; lia|lia|lia].
    + assert (0 < 2 ^ days (t - 24 * 60 * 60)) by (apply Z.pow_pos_nonneg; lia). nia.
Qed.

(** The loop ends, and its result is a target doubled once and once a day, up to the
    limit. *)
Theorem max_bits_spec lim nBase t :
  0 < lim < 2 ^ 256 -> 0 < SetCompact nBase ->
  SetCompact (ComputeMaxBits lim nBase t) = rounded (lim `min` (SetCompact nBase * 2 * 2 ^ days t)).
Proof.
  intros Hl Hb. unfold ComputeMaxBits. cbv zeta. rewrite bn_gt_value.
  assert (bn_mul (SetCompact nBase) (CBigNum_long 2) = SetCompact nBase * 2) as -> by (by rewrite bn_mul_value, CBigNum_small by lia).
  assert (0 < SetCompact nBase * 2) as Hx by lia. pose proof (max_bits_loop_spec (max_bits_fuel t) lim (SetCompact nBase * 2) t Hx) as E.
  assert (days t <= Z.of_nat (max_bits_fuel t)) as Hf.
  { unfold days, max_bits_fuel. assert ((t + (24 * 60 * 60 - 1)) / (24 * 60 * 60) <= t / (24 * 60 * 60) + 1); [|lia].
    rewrite <-Z.div_add by lia. apply Z.div_le_mono; lia. }
  specialize (E Hf). set (r := max_bits_loop _ _ _ _) in *. rewrite <-E.
  assert (0 < lim `min` r) as Hr.
  { rewrite E. apply Z.min_glb_lt; [lia|]. apply Z.mul_pos_pos; [lia|]. apply Z.pow_pos_nonneg; unfold days; lia. }
  destruct (Z.ltb_spec lim r); rewrite compact_back by lia; f_equal; lia.
Qed.

End laws.

(** ** The median time *)

Lemma filter_length_ge {A} (P : A -> bool) (l1 l2 l : list A) :
  l ≡ₚ l1 ++ l2 -> Forall (fun x => P x = true) l1 -> (length l1 <= length (List.filter P l))%nat.
Proof.
  intros Hp Hl. assert (length (List.filter P l) = length (List.filter P (l1 ++ l2))) as ->.
  { clear Hl. induction Hp as [|x k1 k2 _ IH|x y k|k1 k2 k3 _ IH1 _ IH2]; cbn; [done|destruct (P x); cbn; lia|destruct (P x), (P y); cbn; lia|lia]. }
  rewrite List.filter_app, length_app.
  assert (List.filter P l1 = l1) as ->; [|lia]. clear Hp. induction Hl as [|x l1' Hx Hl' IH]; [done|]. cbn. rewrite Hx. by f_equal.
Qed.

Lemma sorted_at l1 m l2 : StronglySorted Z.le (l1 ++ m :: l2) -> Forall (fun x => x <= m) l1 /\ Forall (fun x => m <= x) l2.
Proof.
  induction l1 as [|a l1 IH]; cbn; intros Hs; apply StronglySorted_inv in Hs as [Hs Ha].
  - split; [constructor|exact Ha].
  - destruct (IH Hs) as [I1 I2]. split; [|done]. constructor; [|done]. rewrite Forall_app, Forall_cons in Ha. apply Ha.
Qed.

(** The median is the time of one of the last eleven blocks; more than half of them
    are not later and at least half of them are not earlier. *)
Theorem median_time chain :
  chain <> [] ->
  let times := map bi_nTime (take nMedianTimeSpan chain) in
  let m := GetMedianTimePast chain in
  m ∈ times /\ len times < 2 * len (List.filter (fun x => x <=? m) times) /\
  len times <= 2 * len (List.filter (fun x => m <=? x) times).
Proof.
  intros Hc times m. assert (0 < length times)%nat as Hn.
  { unfold times. rewrite length_map, length_take. destruct chain; [done|]. cbn. lia. }
  assert (merge_sort Z.le times ≡ₚ times) as Hp by apply merge_sort_Permutation.
  assert (length (merge_sort Z.le times) = length times) as El by by rewrite Hp.
  pose proof (StronglySorted_merge_sort Z.le times) as Hs.
  set (k := (length times / 2)%nat). assert (k < length times)%nat as Hk by (apply Nat.div_lt; lia).
  destruct (nth_split (merge_sort Z.le times) 0 (n := k)) as (l1 & l2 & E & E1); [lia|].
  assert (nth k (merge_sort Z.le times) 0 = m) as Em by (unfold m, GetMedianTimePast, k; cbv zeta; fold times; by rewrite El).
  rewrite Em in E. rewrite E in Hs, Hp. destruct (sorted_at _ _ _ Hs) as [H1 H2].
  assert (length times = S (length l1 + length l2)) as Eln by (rewrite <-Hp, length_app; cbn; lia).
  pose proof (Nat.div_mod_eq (length times) 2) as Ed. pose proof (Nat.mod_upper_bound (length times) 2 ltac:(lia)) as Hm. fold k in Ed.
  split; [rewrite <-Hp; set_solver|]. split.
  - assert (S k <= length (List.filter (fun x => (x <=? m)%Z) times))%nat; [|unfold len; lia]. rewrite <-E1.
    replace (S (length l1)) with (length (l1 ++ [m])) by (rewrite length_app; cbn; lia).
    apply (filter_length_ge _ _ l2); [by rewrite <-app_assoc|]. rewrite Forall_app, Forall_singleton. split; [|apply Z.leb_refl].
    apply (Forall_impl _ _ _ H1). intros x. apply Z.leb_le.
  - assert (length times - k <= length (List.filter (fun x => (m <=? x)%Z) times))%nat; [|unfold len; lia].
    replace (length times - k)%nat with (length (m :: l2)) by (change (length (m :: l2)) with (S (length l2)); lia).
    apply (filter_length_ge _ _ l1); [rewrite <-Hp; apply Permutation_app_comm|]. constructor; [apply Z.leb_refl|].
    apply (Forall_impl _ _ _ H2). intros x. apply Z.leb_le.
Qed.

(** ** Instances *)

(** A chain of stake blocks, by their times. *)
Definition stake_entry (t : Z) : CBlockIndex :=
  {| nHeight := t; bi_nFile := 1; bi_nBlockPos := t; bi_hash := t; bi_nTime := t; bi_nBits := 0x1d00ffff; bi_fStake := true;
     nChainTrust := 0; bi_stake := no_stake |}.
Definition stake_chain : list Z -> list CBlockIndex := map stake_entry.

#[local] Instance bn : OpenSSLBN := z_bn.
#[local] Instance bn_laws : BNLaws := z_bn_laws.
#[local] Instance arith : OpenSSLBNArith := z_arith.
#[local] Instance arith_laws : BNArithLaws := z_arith_laws.

Example on_schedule : GetNextTargetRequired false (stake_chain [774; 516; 258; 0]) true = 0x1d00ffff.
Proof. vm_compute. reflexivity. Qed.
Example at_once : GetNextTargetRequired false (stake_chain [258; 258; 258; 0]) true = 0x1d00db6c.
Proof. vm_compute. reflexivity. Qed.


Lemma proof_of_work_spec_witness :
  GetBlockTrust 0x1e0fffff = 2 ^ 256 / (SetCompact 0x1e0fffff + 1) /\ 2 ^ 20 <= GetBlockTrust 0x1e0fffff.
Proof.
  destruct (proof_of_work_spec false 0 0x1e0fffff) as [_ H2]. destruct H2 as (E & H1 & _); [vm_compute; split; [reflexivity|discriminate]|].
  split; [exact E|exact H1].
Defined.

End Targets.
