(* ===== verification/Blocks.v ===== *)
(** * Blocks ([src/main.h], [src/main.cpp])

    The block and its encoding, the checks that need no chain ([CheckBlock]), the
    connection of a block to the chain with the rules on rewards and the fund
    ([ConnectBlock]) and its disconnection.  The hash of a header is a parameter; the
    clock and the times of the blocks on disk are arguments. *)

From Stdlib Require Import Strings.String.
From S2P Require Import Prelude Crypto Serialize BigNum BigArith Script Interpreter Standard Mmr MwModels Transactions.
From S2P Require Import Sighash MwState Secp MwCrypto Bulletproofs MwValidation TxInputs Peg TxChecks Extension Merkle Base58 Targets.
Import Stream BigNum BigArith Script Interpreter Standard MwModels Sighash MwState MwCrypto MwValidation Transactions TxInputs Peg TxChecks.
Import Extension Merkle Targets.

Module Blocks.

(** ** The block *)

(** The chain of hashes of [hashblock.h], on the 80 bytes of a header. *)
Class HeaderHash := { Hash9 : bytes -> uint256 }.

Record CBlockHeader := {
  bk_nVersion : Z; hashPrevBlock : uint256; hashMerkleRoot : uint256; bk_nTime : Z; nBits : Z; nNonce : Z }.
Record CBlock := { header : CBlockHeader; vtx : list CTransaction; vchBlockSig : bytes; mwExtBlock : CMWBlock }.

Definition null_mwBlock : CMWBlock :=
  {| hashPrevMWBlock := 0; b_body := {| vInputs := []; vOutputs := []; vKernels := [] |}; vCutThrough := [];
     MwModels.nHeight := 0; b_offset := replicate BLINDING_FACTOR_SIZE 0 |}.

Definition c_header : codec CBlockHeader :=
  c_record (c_sint 4 ⊗ c_uint 32 ⊗ c_uint 32 ⊗ c_uint 4 ⊗ c_uint 4 ⊗ c_uint 4)
    (fun h => (bk_nVersion h, hashPrevBlock h, hashMerkleRoot h, bk_nTime h, nBits h, nNonce h))
    (fun '(v, p, m, t, b, n) =>
       {| bk_nVersion := v; hashPrevBlock := p; hashMerkleRoot := m; bk_nTime := t; nBits := b; nNonce := n |}).

(** On the network and on disk: the extension block where the version says so. *)
Definition c_full_block : codec CBlock :=
  c_record
    (c_dep c_header (fun h =>
       c_vector c_tx ⊗ c_bytes ⊗ c_when (negb (Z.land (bk_nVersion h) MWEB_VERSION_BIT =? 0)) c_block null_mwBlock))
    (fun b => (header b, (vtx b, vchBlockSig b, mwExtBlock b)))
    (fun '(h, (t, s, m)) => {| header := h; vtx := t; vchBlockSig := s; mwExtBlock := m |}).

Definition IsProofOfStake (b : CBlock) : bool :=
  match vtx b with _ :: tx1 :: _ => IsCoinStake tx1 | _ => false end.
Definition IsProofOfWork (b : CBlock) : bool := negb (IsProofOfStake b).
Definition GetBlockTime (b : CBlock) : Z := bk_nTime (header b).

(** What stays the same while a block is looked at: the network, the adjusted time,
    whether signatures are skipped below the last checkpoint, and the times of the
    blocks on disk by file and position. *)
Record block_env := { fTestNet : bool; nAdjustedTime : Z; fSkipSigs : bool; block_time : Z -> Z -> option Z }.

Definition GetClockDrift : Z := 60.
Definition nStakeMinAge : Z := 15 * 60.
Definition DEV_FUND_FEE_ACTIVATION_HEIGHT : Z := 60000.
Definition CheckCoinStakeTimestamp (nTimeBlock nTimeTx : Z) : bool := nTimeBlock =? nTimeTx.

Section blocks.
Context `{OpenSSLBN} `{OpenSSLBNArith} `{Sha256} `{ScriptHashes} `{OpenSSLEC} `{Secp256k1} `{HeaderHash}.

Definition GetBlockHash (b : CBlock) : uint256 := Hash9 (Serialize c_header (header b)).

(** ** The signature of a stake block *)

(** The loop that looks for the output of the staker. *)
Fixpoint find_pubkey (l : list CTxOut) : option (list bytes) :=
  match l with
  | [] => None
  | o :: l' => match Solver (scriptPubKey o) with (true, TX_PUBKEY, vSolutions) => Some vSolutions | _ => find_pubkey l' end
  end.

Definition CheckBlockSignature (b : CBlock) : bool :=
  match vtx b with
  | _ :: tx1 :: _ =>
      if IsProofOfWork b then bool_decide (vchBlockSig b = [])
      else
        match vout tx1 with
        | _ :: ((_ :: _) as outs) =>
            match find_pubkey outs with
            | Some (vchPubKey :: _) =>
                match SetPubKey vchPubKey with
                | None => false
                | Some key => if bool_decide (vchBlockSig b = []) then false else Sighash.Verify key (GetBlockHash b) (vchBlockSig b)
                end
            | _ => false
            end
        | _ => false
        end
  | _ => bool_decide (vchBlockSig b = [])
  end.

(** ** [CheckBlock] *)

(** The block of a stake: an empty coinbase, one coinstake right after it. *)
Definition check_stake (fCheckSig : bool) (b : CBlock) : outcome unit :=
  match vtx b with
  | tx0 :: tx1 :: rest =>
      match vout tx0 with
      | [o0; o1] =>
          if negb (IsEmpty o0) || negb (IsEmpty o1) then Reject 0
          else if negb (IsCoinStake tx1) then Reject 100
          else if existsb IsCoinStake rest then Reject 100
          else if negb (CheckCoinStakeTimestamp (GetBlockTime b) (nTime tx1)) then Reject 50
          else if fCheckSig && negb (CheckBlockSignature b) then Reject 100 else Accept tt
      | _ => Reject 0
      end
  | _ => Reject 100
  end.

Definition check_one (nBlockTime : Z) (_ : unit) (tx : CTransaction) : outcome unit :=
  let* _ := CheckTransaction tx in
  if nBlockTime <? nTime tx then Reject 50 else Accept tt.

Definition count_sigops (vtx : list CTransaction) : Z :=
  fold_left (fun nSigOps tx => u32 (nSigOps + GetLegacySigOpCount tx)) vtx 0.

Definition CheckBlock (env : block_env) (fCheckPOW fCheckMerkleRoot fCheckSig : bool) (b : CBlock) : outcome unit :=
  match vtx b with
  | [] => Reject 100
  | tx0 :: rest =>
      if (MAX_BLOCK_SIZE <? len (vtx b)) || (MAX_BLOCK_SIZE <? GetSerializeSize c_full_block b) then Reject 100
      else if fCheckPOW && IsProofOfWork b && negb (CheckProofOfWork (fTestNet env) (GetBlockHash b) (nBits (header b))) then Reject 50
      else if nAdjustedTime env + GetClockDrift <? GetBlockTime b then Reject 0
      else if negb (IsCoinBase tx0) then Reject 100
      else if existsb IsCoinBase rest then Reject 100
      else if nTime tx0 + GetClockDrift <? GetBlockTime b then Reject 50
      else
        let* _ := (if IsProofOfStake b then check_stake fCheckSig b else Accept tt) in
        let* _ := ofold (check_one (GetBlockTime b)) (vtx b) tt in
        if negb (bool_decide (NoDup (map GetHash (vtx b)))) then Reject 100
        else if MAX_BLOCK_SIGOPS <? count_sigops (vtx b) then Reject 100
        else if fCheckMerkleRoot && negb (hashMerkleRoot (header b) =? BuildMerkleTree (map GetHash (vtx b))) then Reject 100
        else Accept tt
  end.

(** ** The age of the coins of a stake *)

(** One turn of the loop, on [bnCentSecond]; a violated time and an unreadable block
    make it fail. *)
Definition coin_age_one (env : block_env) (st : store) (tx : CTransaction) (bnCentSecond : Z) (i : CTxIn) : outcome Z :=
  match ReadTxIndex (txdb st) (hash (prevout i)) with
  | None => Accept bnCentSecond
  | Some txindex =>
      match ReadFromDisk st (pos txindex) with
      | None => Accept bnCentSecond
      | Some txPrev =>
          match vout txPrev !! Z.to_nat (n (prevout i)) with
          | None => Accept bnCentSecond
          | Some o =>
              if nTime tx <? nTime txPrev then Reject 0
              else
                match block_time env (nFile (pos txindex)) (nBlockPos (pos txindex)) with
                | None => Reject 0
                | Some t =>
                    if nTime tx <? t + nStakeMinAge then Accept bnCentSecond
                    else Accept (bn_add bnCentSecond
                           (bn_div (bn_mul (CBigNum_long (nValue o)) (CBigNum_ulong (u32 (nTime tx - nTime txPrev)))) (CBigNum_long CENT)))
                end
          end
      end
  end.

Definition GetCoinAge (env : block_env) (st : store) (tx : CTransaction) : outcome Z :=
  if IsCoinBase tx then Accept 0
  else
    let* bnCentSecond := ofold (coin_age_one env st tx) (vin tx) (CBigNum_long 0) in
    Accept (getuint64 (bn_div (bn_mul bnCentSecond (CBigNum_long CENT)) (CBigNum_long (24 * 60 * 60)))).

(** ** [ConnectBlock] *)

(** [IsProofOfWork()]: the coinbase pays at most the reward and the fees. *)
Definition check_work_reward (nHeight : Z) (s : block_state) (b : CBlock) : outcome unit :=
  match vtx b with
  | [] => Throws
  | tx0 :: _ =>
      let* v := or_throw (GetValueOut tx0) in
      if GetProofOfWorkReward nHeight (bs_nFees s) <? v then Reject 50 else Accept tt
  end.

Definition paid_to (script : bytes) (l : list CTxOut) : Z :=
  fold_left (fun a o => if bool_decide (scriptPubKey o = script) then i64 (a + nValue o) else a) l 0.

(** [IsProofOfStake()]: the coinstake earns at most the fees and pays the fund. *)
Definition check_stake_reward (env : block_env) (st : store) (nHeight : Z) (s : block_state) (b : CBlock) : outcome unit :=
  match vtx b with
  | _ :: tx1 :: _ =>
      let* nCoinAge := GetCoinAge env st tx1 in
      if GetProofOfStakeReward (bs_nFees s) <? nStakeReward s then Reject 100
      else if nHeight <? DEV_FUND_FEE_ACTIVATION_HEIGHT then Accept tt
      else
        let nDevFundCut := GetDevFundCut (bs_nFees s) in
        if nDevFundCut <=? 0 then Accept tt
        else
          match Base58.GetDevFundScript (fTestNet env) with
          | None => Reject 100
          | Some devScript => if paid_to devScript (vout tx1) <? nDevFundCut then Reject 100 else Accept tt
          end
  | _ => Throws
  end.

(** Where the first transaction of the block starts on disk. *)
Definition first_tx_pos (nBlockPos nTx : Z) : Z :=
  u32 (nBlockPos + (80 + 2 * GetSizeOfCompactSize 0) - 2 * GetSizeOfCompactSize 0 + GetSizeOfCompactSize nTx).

(** The index of transactions, the state of the extension, and what is set in the
    entry of the block.  [nPrevSupply] is [pindex->pprev->nMoneySupply], zero for the
    first block. *)
Record connect_result := { cr_txdb : gmap Z CTxIndex; cr_mw : CMWState; cr_nMint : Z; cr_nMoneySupply : Z }.

Definition ConnectBlock (env : block_env) (st : store) (g_mwState : CMWState) (chain : list CBlockIndex) (nPrevSupply : Z)
    (fJustCheck : bool) (b : CBlock) : outcome connect_result :=
  let* _ := CheckBlock env (negb fJustCheck) (negb fJustCheck) false b in
  match chain with
  | [] => Throws
  | pindex :: _ =>
      let nTxPos := if fJustCheck then 1 else first_tx_pos (bi_nBlockPos pindex) (len (vtx b)) in
      let* s := connect_txs st chain fJustCheck (fSkipSigs env) nTxPos (vtx b) in
      let* _ := check_rules (nHeight pindex) (vtx b) in
      let* _ := (if IsProofOfWork b then check_work_reward (nHeight pindex) s b
                 else check_stake_reward env st (nHeight pindex) s b) in
      let nMint := i64 (i64 (bs_nValueOut s - bs_nValueIn s) + bs_nFees s) in
      let nSupply := i64 (i64 (nPrevSupply + bs_nValueOut s) - bs_nValueIn s) in
      if fJustCheck then Accept {| cr_txdb := txdb st; cr_mw := g_mwState; cr_nMint := nMint; cr_nMoneySupply := nSupply |}
      else
        let* mw := connect_extension g_mwState (bk_nVersion (header b)) (mwExtBlock b) (vtx b) (nHeight pindex) (bi_hash pindex) in
        Accept {| cr_txdb := flush (txdb st) (mapQueuedChanges s); cr_mw := mw; cr_nMint := nMint; cr_nMoneySupply := nSupply |}
  end.

(** ** [DisconnectBlock] *)

(** The change of [g_mwState] at its end, whether it succeeds or not. *)
Definition unwind_extension (g_mwState : CMWState) (pindex : CBlockIndex) (b : CBlock) : CMWState * bool :=
  if nHeight pindex <? MWEB_ACTIVATION_HEIGHT then (g_mwState, true)
  else MwState.DisconnectBlock g_mwState (bi_hash pindex) (negb (has_extension (bk_nVersion (header b)) (mwExtBlock b))).

Definition DisconnectBlock (db : gmap Z CTxIndex) (g_mwState : CMWState) (pindex : CBlockIndex) (b : CBlock)
    : gmap Z CTxIndex * CMWState * outcome unit :=
  match disconnect_txs db (vtx b) with
  | Reject d => (db, g_mwState, Reject d)
  | Throws => (db, g_mwState, Throws)
  | Accept db => let '(mw, ok) := unwind_extension g_mwState pindex b in (db, mw, if ok then Accept tt else Reject 0)
  end.

End blocks.

(** * Properties *)

#[export] Instance header_fields :
  Fields (fun h => (bk_nVersion h, hashPrevBlock h, hashMerkleRoot h, bk_nTime h, nBits h, nNonce h))
    (fun '(v, p, m, t, b, n) =>
       {| bk_nVersion := v; hashPrevBlock := p; hashMerkleRoot := m; bk_nTime := t; nBits := b; nNonce := n |}).
Proof. split; [by intros []|by intros [[[[[] ?] ?] ?] ?]]. Qed.
#[export] Instance full_block_fields :
  Fields (fun b => (header b, (vtx b, vchBlockSig b, mwExtBlock b)))
    (fun '(h, (t, s, m)) => {| header := h; vtx := t; vchBlockSig := s; mwExtBlock := m |}).
Proof. split; [by intros []|by intros [? [[] ?]]]. Qed.
#[export] Instance header_laws : Laws c_header := _.
#[export] Instance header_canonical : Canonical c_header := _.
#[export] Instance full_block_laws : Laws c_full_block := _.
#[export] Instance full_block_canonical : Canonical c_full_block := _.

(** A block is read back as it was written, and what is read as a block starts with
    the encoding of that block. *)
Theorem full_block_encoding :
  (forall b rest, wf c_full_block b -> Unserialize c_full_block (Serialize c_full_block b ++ rest) = Some (b, rest)) /\
  (forall s b rest, bytes_ok s -> Unserialize c_full_block s = Some (b, rest) -> s = Serialize c_full_block b ++ rest).
Proof. split; [intros b rest; apply unserialize_serialize|intros s b rest Hs E; by apply canonical in E as [-> _]]. Qed.

Section laws.
Context `{OpenSSLBN} `{OpenSSLBNArith} `{Sha256} `{ScriptHashes} `{OpenSSLEC} `{Secp256k1} `{HeaderHash} `{!SecpLaws} `{!SecpGroup}.

Lemma check_block_accept env p m sg b :
  CheckBlock env p m sg b = Accept tt ->
  exists tx0 rest, vtx b = tx0 :: rest /\ IsCoinBase tx0 = true /\ existsb IsCoinBase rest = false /\
    NoDup (map GetHash (vtx b)) /\ (IsProofOfStake b = true -> check_stake sg b = Accept tt).
Proof.
  unfold CheckBlock. destruct (vtx b) as [|tx0 rest] eqn:Ev; [done|]. destruct (_ || _); [done|]. destruct (_ && _ && _); [done|].
  destruct (_ <? _); [done|]. destruct (IsCoinBase tx0) eqn:Hc; [|done]. cbn [negb]. destruct (existsb IsCoinBase rest) eqn:Hr; [done|].
  destruct (_ <? _); [done|]. intros ([] & Hs & E)%bind_accept. apply bind_accept in E as (u & _ & E).
  destruct (bool_decide_reflect (NoDup (map GetHash (tx0 :: rest)))) as [Hn|]; [|done]. exists tx0, rest.
  split; [done|]. split; [done|]. split; [done|]. split; [done|]. intros Hp. by rewrite Hp in Hs.
Qed.

(** What a connection must find for its undoing to be exact: the transactions are
    new to the index, and the extension's undo window has room. *)
Record reversible (db : gmap Z CTxIndex) (mw : CMWState) (pindex : CBlockIndex) (b : CBlock) : Prop := {
  rv_file : bi_nFile pindex <> UINT_MAX;
  rv_unsigned : Forall unsigned (vtx b);
  rv_new : Forall (fun tx => db !! GetHash tx = None) (vtx b);
  rv_marks : canonical_marks db;
  rv_extension : nHeight pindex < MWEB_ACTIVATION_HEIGHT \/
    exists ls, state_ok mw ls /\ room mw ls (mwExtBlock b) /\ fresh mw (vOutputs (b_body (mwExtBlock b))) /\
      len (dqUndoOrder mw) < MW_UNDO_WINDOW /\ HasUndo mw (bi_hash pindex) = false }.

Lemma unwind_extension_accept mw e b mw' :
  disconnect_extension mw (bk_nVersion (header b)) (mwExtBlock b) (nHeight e) (bi_hash e) = Accept mw' -> unwind_extension mw e b = (mw', true).
Proof.
  unfold disconnect_extension, unwind_extension. destruct (_ <? _); [by intros <-%Accept_inj|]. cbv zeta.
  destruct (MwState.DisconnectBlock _ _ _) as [s ok]. destruct ok; [|done]. by intros <-%Accept_inj.
Qed.

Lemma block_roundtrip env st mw e pprev nPrevSupply b r :
  ConnectBlock env st mw (e :: pprev) nPrevSupply false b = Accept r -> reversible (txdb st) mw e b ->
  DisconnectBlock (cr_txdb r) (cr_mw r) e b = (txdb st, mw, Accept tt).
Proof.
  intros E [Hf Hu Hnew Hm Hx]. unfold ConnectBlock in E. apply bind_accept in E as ([] & Hck & E).
  apply check_block_accept in Hck as (tx0 & rest & _ & _ & _ & Hnd & _).
  apply bind_accept in E as (s & Es & E). apply bind_accept in E as ([] & _ & E). apply bind_accept in E as ([] & _ & E).
  apply bind_accept in E as (mw' & Emw & E). apply Accept_inj in E as <-. unfold DisconnectBlock. cbn [cr_txdb cr_mw].
  rewrite (block_disconnect_restores st (e :: pprev) false (fSkipSigs env) Hf _ _ _ Es Hu Hnd Hnew Hm).
  rewrite (unwind_extension_accept mw' e b mw); [done|].
  destruct Hx as [Hh|(ls & Hok & Hr & Hfr & Hw & Hun)]; [|by eapply extension_unwinds].
  unfold disconnect_extension, connect_extension in *. destruct (Z.ltb_spec (nHeight e) MWEB_ACTIVATION_HEIGHT); [|lia].
  by apply Accept_inj in Emw as <-.
Qed.
End laws.

End Blocks.
