(* ===== verification/Supply.v ===== *)
(** * The supply of coins

    What the unspent outputs of an index of transactions are worth, and what the
    connection of a block does to it: a block creates no coins beyond the reward of
    its height, and the supply it records moves as the worth does. *)

From Stdlib Require Import Strings.String.
From S2P Require Import Prelude Crypto Serialize BigNum BigArith Script Interpreter Standard Mmr MwModels Transactions.
From S2P Require Import Sighash MwState Secp MwCrypto Bulletproofs MwValidation TxInputs Peg TxChecks Extension Merkle Base58 Targets Blocks.
Import Stream BigNum BigArith Script Interpreter Standard MwModels Sighash MwState MwCrypto MwValidation Transactions TxInputs Peg TxChecks.
Import Extension Merkle Targets Blocks.

Module Supply.

Section worth.
(** The transaction of a hash. *)
Context (tx_of : Z -> CTransaction).

Definition coin_value (c : Z * nat) : Z := match vout (tx_of c.1) !! c.2 with Some o => nValue o | None => 0 end.

(** The marks of an entry, from an index on. *)
Fixpoint marks_worth (h : Z) (i : nat) (l : list CDiskTxPos) : Z :=
  match l with
  | [] => 0
  | p :: l' => (if pos_IsNull p then coin_value (h, i) else 0) + marks_worth h (S i) l'
  end.
Definition entry_worth (h : Z) (x : CTxIndex) : Z := marks_worth h 0 (vSpent x).
Definition worth (m : gmap Z CTxIndex) : Z := map_fold (fun h x acc => entry_worth h x + acc) 0 m.

(** ** Entries *)

Lemma marks_worth_insert h i l k p q :
  l !! k = Some q -> pos_IsNull q = true -> pos_IsNull p = false ->
  marks_worth h i (<[k := p]> l) = marks_worth h i l - coin_value (h, (i + k)%nat).
Proof.
  intros Hl Hq Hp. revert i k Hl. induction l as [|x l IH]; intros i k Hl; [done|]. destruct k as [|k].
  - cbn in Hl. injection Hl as ->. change (<[0%nat := p]> (q :: l)) with (p :: l). cbn [marks_worth]. rewrite Hp, Hq, Nat.add_0_r. lia.
  - change (<[S k := p]> (x :: l)) with (x :: <[k := p]> l). cbn [marks_worth]. rewrite (IH (S i) k Hl). replace (S i + k)%nat with (i + S k)%nat by lia. lia.
Qed.

Lemma marks_worth_spent h i l : existsb pos_IsNull l = false -> marks_worth h i l = 0.
Proof. revert i. induction l as [|p l IH]; intros i; cbn; [done|]. intros [-> Hl]%orb_false_iff. rewrite IH by done. done. Qed.

Lemma marks_worth_new h i n (l : list CTxOut) :
  drop i (vout (tx_of h)) = l -> n = length l -> marks_worth h i (replicate n null_pos) = values l.
Proof.
  intros Hd ->. revert i Hd. induction l as [|o l IH]; intros i Hd; [done|]. cbn [length replicate marks_worth values fold_right].
  change (pos_IsNull null_pos) with true. cbv iota. assert (vout (tx_of h) !! i = Some o) as Hi.
  { rewrite <-(Nat.add_0_r i), <-lookup_drop, Hd. done. }
  unfold coin_value. cbn [fst snd]. rewrite Hi. f_equal. apply IH. rewrite <-Nat.add_1_r, <-drop_drop, Hd. done.
Qed.

Lemma entry_worth_new h p : entry_worth h (new_index p (len (vout (tx_of h)))) = values (vout (tx_of h)).
Proof. apply marks_worth_new; [done|]. unfold len. lia. Qed.

(** ** Indexes *)

Lemma worth_insert_new m h x : m !! h = None -> worth (<[h := x]> m) = entry_worth h x + worth m.
Proof. intros Hm. unfold worth. apply (map_fold_insert_L (fun h x acc => entry_worth h x + acc)); [intros; lia|done]. Qed.

Lemma worth_insert m h x : worth (<[h := x]> m) = worth m - default 0 (entry_worth h <$> m !! h) + entry_worth h x.
Proof.
  destruct (m !! h) as [y|] eqn:E; cbn; [|rewrite worth_insert_new by done; lia].
  rewrite <-(insert_delete_id m h y E) at 2. rewrite <-(insert_delete_eq m h x).
  rewrite !worth_insert_new by apply lookup_delete_eq. lia.
Qed.

Lemma worth_set_mark p m c : unspent m c -> pos_IsNull p = false -> worth (set_mark p m c) = worth m - coin_value c.
Proof.
  intros (q & Hq & Hn) Hp. destruct c as [h k]. unfold look in Hq. cbn in Hq. destruct (m !! h) as [x|] eqn:Ex; [|done]. cbn in Hq.
  unfold set_mark. cbn [fst snd]. rewrite <-(insert_id m h x Ex) at 1. rewrite alter_insert_eq, worth_insert, Ex. cbn.
  unfold entry_worth. cbn [vSpent]. rewrite (marks_worth_insert _ _ _ _ _ q) by done. rewrite Nat.add_0_l. lia.
Qed.

Definition coins_value (l : list (Z * nat)) : Z := fold_right (fun c a => coin_value c + a) 0 l.

Lemma worth_set_marks p m l :
  NoDup l -> Forall (unspent m) l -> pos_IsNull p = false -> worth (set_marks p m l) = worth m - coins_value l.
Proof.
  intros Hnd Hu Hp. revert m Hu. induction Hnd as [|c l Hc Hnd IH]; intros m Hu; [cbn; lia|]. apply Forall_cons in Hu as [Hu1 Hu].
  rewrite set_marks_cons, IH.
  - rewrite worth_set_mark by done. cbn [coins_value fold_right]. fold (coins_value l). lia.
  - rewrite Forall_forall in Hu |- *. intros d Hd. destruct (Hu d Hd) as (q & Hq & Hn). exists q. split; [|done].
    rewrite look_set_mark, decide_False; [done|]. intros ->. done.
Qed.

Lemma worth_nonneg m : (forall h x o, m !! h = Some x -> o ∈ vout (tx_of h) -> 0 <= nValue o) -> 0 <= worth m.
Proof.
  unfold worth. induction m as [|h x m Hm Hf IH] using map_first_key_ind; intros Hv; [by rewrite map_fold_empty|].
  rewrite map_fold_insert_first_key by done.
  assert (0 <= entry_worth h x) as Hx.
  { unfold entry_worth. generalize 0%nat. induction (vSpent x) as [|p l IHl]; intros i; cbn; [lia|]. specialize (IHl (S i)).
    assert (0 <= coin_value (h, i)); [|destruct (pos_IsNull p); lia]. unfold coin_value. cbn.
    destruct (vout (tx_of h) !! i) as [o|] eqn:Eo; [|lia]. apply (Hv h x); [apply lookup_insert_eq|]. by eapply list_elem_of_lookup_2. }
  assert (0 <= map_fold (fun h x acc => entry_worth h x + acc) 0 m); [|lia]. apply IH. intros h' x' o Hl. apply (Hv h' x').
  rewrite lookup_insert_ne; [done|]. congruence.
Qed.
End worth.

(** ** What is read *)

(** The transaction an entry of the index leads to. *)
Definition at_pos (st : store) (h : Z) (p : CDiskTxPos) : option CTransaction :=
  if bool_decide (p = memory_pos) then mempool st !! h else ReadFromDisk st p.

(** The numbers of a transaction are those of its types. *)
Definition machine_tx (tx : CTransaction) : Prop :=
  unsigned tx /\ Forall (fun o => - 2 ^ 63 <= nValue o < 2 ^ 63) (vout tx).

Lemma fetch_reads st pool tx inputs :
  FetchInputs st true pool tx = Accept inputs -> IsCoinBase tx = false ->
  forall h x t, inputs !! h = Some (x, t) -> flush (txdb st) pool !! h = Some x /\ at_pos st h (pos x) = Some t.
Proof.
  intros E Hc. unfold FetchInputs in E. rewrite Hc in E. apply bind_accept in E as (m & E1 & E). apply bind_accept in E as (u & _ & E).
  apply Accept_inj in E as <-. revert E1.
  apply (ofold_ind _ (fun _ m => forall h x t, m !! h = Some (x, t) -> flush (txdb st) pool !! h = Some x /\ at_pos st h (pos x) = Some t));
    [intros h x t; by rewrite lookup_empty|].
  intros l i a a' IH. unfold fetch_one. destruct (bool_decide _); [by intros <-%Accept_inj|]. rewrite fetch_index_queued.
  destruct (flush (txdb st) pool !! _) as [x|] eqn:Ex; [|done]. destruct (if bool_decide _ then _ else _) as [t|] eqn:Et; [|done].
  intros <-%Accept_inj h x' t'. rewrite lookup_insert_Some. intros [[<- [= <- <-]]|[_ Hl]]; [|by apply IH]. done.
Qed.

(** ** The values of inputs *)

Section values.
Context (tx_of : Z -> CTransaction).

Lemma spends_values inputs chain tx l coins :
  (forall h x t, inputs !! h = Some (x, t) -> t = tx_of h) -> Forall (fun i => 0 <= n (prevout i)) l ->
  Forall2 (spends inputs chain tx) l coins -> values coins = coins_value tx_of (map key l).
Proof.
  intros Ht Hu Hc. induction Hc as [|i o l coins (x & t & Hx & Hr & -> & _) Hc IH]; [done|]. apply Forall_cons in Hu as [Hi Hu].
  cbn [map values coins_value fold_right]. fold (values coins). rewrite IH by done. fold (coins_value tx_of (map key l)). f_equal.
  apply Ht in Hx as ->. unfold coin_value, key. cbn [fst snd]. unfold in_range, len in Hr. cbn [fst snd] in Hr. apply andb_prop in Hr as [Hr _].
  destruct (nth_lookup_or_length (vout (tx_of (hash (prevout i)))) (Z.to_nat (n (prevout i))) null_txout) as [->|Hge]; [done|]. lia.
Qed.

Lemma spends_amounts inputs chain tx l coins : Forall2 (spends inputs chain tx) l coins -> 0 <= values coins.
Proof.
  intros Hc. apply values_nonneg. eapply Forall2_Forall_r; [exact Hc|]. apply Forall_forall. by intros i _ o (x & t & _ & _ & _ & _ & _ & Hv).
Qed.

(** [GetValueMapIn] gives the sum of the coins that are spent. *)
Lemma value_map_in inputs chain tx coins v :
  IsCoinBase tx = false -> Forall2 (spends inputs chain tx) (vin tx) coins -> values coins <= MAX_MONEY ->
  Forall (fun i => 0 <= n (prevout i)) (vin tx) -> GetValueMapIn tx inputs = Accept v -> v = values coins.
Proof.
  intros Hc Hs Hm Hu. unfold GetValueMapIn. rewrite Hc.
  enough (forall a l cs, Forall2 (spends inputs chain tx) l cs -> Forall (fun i => 0 <= n (prevout i)) l -> 0 <= a -> a + values cs <= MAX_MONEY ->
    ofold (fun nResult i => let* o := GetOutputFor i inputs in Accept (i64 (nResult + nValue o))) l a = Accept v -> v = a + values cs) as He.
  { intros E. rewrite (He 0 _ _ Hs Hu) by (done || lia). lia. }
  clear. intros a l cs Hs. revert a. induction Hs as [|i o l cs (x & t & Hx & Hr & Ho & _ & _ & Hv) Hs IH]; intros a Hu Ha Hm E; cbn [ofold] in E.
  { apply Accept_inj in E as <-. cbn. lia. }
  apply Forall_cons in Hu as [Hi Hu]. apply bind_accept in E as (w & Ew & E). apply bind_accept in Ew as (o' & Eo & Ew). apply Accept_inj in Ew as <-.
  unfold GetOutputFor in Eo. rewrite Hx in Eo. apply or_throw_accept in Eo. 
  assert (o' = o) as -> by (rewrite Ho; symmetry; by apply nth_lookup_Some).
  cbn [values fold_right] in Hm |- *. fold (values cs) in *.
  assert (0 <= values cs) as Hcs by (by eapply spends_amounts).
  assert (MAX_MONEY = 100000000000000000) as HM by done. rewrite i64_id in E by lia. rewrite (IH (a + nValue o)); [lia|done|lia|lia|exact E].
Qed.
End values.

(** ** One transaction *)

Lemma i64_cong a b : i64 a = i64 b <-> exists k, a = b + k * 2 ^ 64.
Proof.
  unfold i64. split.
  - intros E. assert ((a + 2 ^ 63) mod 2 ^ 64 = (b + 2 ^ 63) mod 2 ^ 64) as Em by lia.
    exists ((a + 2 ^ 63) / 2 ^ 64 - (b + 2 ^ 63) / 2 ^ 64).
    pose proof (Z.div_mod (a + 2 ^ 63) (2 ^ 64) ltac:(lia)). pose proof (Z.div_mod (b + 2 ^ 63) (2 ^ 64) ltac:(lia)). lia.
  - intros [k ->]. replace (b + k * 2 ^ 64 + 2 ^ 63) with (b + 2 ^ 63 + k * 2 ^ 64) by lia. by rewrite Z.mod_add by lia.
Qed.

Lemma i64_add_l a b : i64 (i64 a + b) = i64 (a + b).
Proof. apply i64_cong. unfold i64. pose proof (Z.div_mod (a + 2 ^ 63) (2 ^ 64) ltac:(lia)). exists (- ((a + 2 ^ 63) / 2 ^ 64)). lia. Qed.
Lemma i64_add_r a b : i64 (a + i64 b) = i64 (a + b).
Proof. rewrite Z.add_comm, i64_add_l. f_equal. lia. Qed.
Lemma i64_sub_l a b : i64 (i64 a - b) = i64 (a - b).
Proof. apply (i64_add_l a (- b)). Qed.
Lemma i64_sub_r a b : i64 (a - i64 b) = i64 (a - b).
Proof. apply i64_cong. unfold i64. pose proof (Z.div_mod (b + 2 ^ 63) (2 ^ 64) ltac:(lia)). exists ((b + 2 ^ 63) / 2 ^ 64). lia. Qed.

Section step.
Context `{OpenSSLBN} `{Sha256} `{ScriptHashes} `{OpenSSLEC}.
Context (tx_of : Z -> CTransaction) (st : store) (chain : list CBlockIndex) (fJustCheck fSkipSigs : bool).
Context (on_disk : match chain with [] => True | b :: _ => bi_nFile b <> UINT_MAX end).

(** Every entry leads to the transaction of its hash. *)
Definition entries_read (m : gmap Z CTxIndex) : Prop :=
  forall h x t, m !! h = Some x -> at_pos st h (pos x) = Some t -> t = tx_of h.

(** What connecting a transaction does to the worth of the indexes and to the totals:
    [v] is what it spends. *)
Lemma connect_tx_worth s tx s' :
  connect_tx st chain fJustCheck fSkipSigs s tx = Accept s' -> machine_tx tx ->
  entries_read (current st s) -> tx_of (GetHash tx) = tx -> (forall c, unspent (current st s) c -> c.1 <> GetHash tx) ->
  exists v, let out := values (vout tx) in
    0 <= v <= MAX_MONEY /\ 0 <= out <= MAX_MONEY /\ Forall (fun o => 0 <= nValue o) (vout tx) /\
    worth tx_of (current st s') = worth tx_of (current st s) - v + out /\
    (if IsCoinBase tx
     then v = 0 /\ bs_nFees s' = bs_nFees s /\ nStakeReward s' = nStakeReward s /\
          bs_nValueIn s' = bs_nValueIn s /\ bs_nValueOut s' = i64 (bs_nValueOut s + out)
     else bs_nFees s' = (if IsCoinStake tx then bs_nFees s else i64 (bs_nFees s + (v - out))) /\
          nStakeReward s' = (if IsCoinStake tx then out - v else nStakeReward s) /\
          (IsCoinStake tx = false -> out + MIN_TX_FEE <= v) /\
          bs_nValueIn s' = i64 (bs_nValueIn s + v) /\ bs_nValueOut s' = i64 (bs_nValueOut s + out)).
Proof.
  intros E [Hu Ha] Hr Ht Hnew. pose proof (connect_tx_marks _ _ _ _ on_disk _ _ _ E Hu) as (p & Hp & Hc & Hnd & Hus & _).
  assert (forall w, GetValueOut tx = Some w -> w = values (vout tx) /\ 0 <= values (vout tx) <= MAX_MONEY /\ Forall (fun o => 0 <= nValue o) (vout tx)) as Hout.
  { intros w Hw. apply value_out_sum in Hw as (Hf & Hle & ->); [|done]. split; [done|]. split; [split; [by apply values_nonneg|done]|].
    eapply Forall_impl; [exact Hf|]. intros o. cbn. lia. }
  assert (worth tx_of (current st s') = worth tx_of (current st s) - coins_value tx_of (spent_by tx) + values (vout tx)) as Ew.
  { rewrite Hc, worth_insert, worth_set_marks by done. pose proof (entry_worth_new tx_of (GetHash tx) p) as En. rewrite Ht in En. rewrite En.
    destruct (set_marks p (current st s) (spent_by tx) !! GetHash tx) as [x|] eqn:Ex; cbn; [|lia].
    assert (existsb pos_IsNull (vSpent x) = false) as Hx; [|unfold entry_worth; rewrite marks_worth_spent by done; lia].
    apply not_true_iff_false. intros (q & Hin & Hq)%existsb_exists. apply list_elem_of_In, list_elem_of_lookup_1 in Hin as [k Hk].
    assert (look (set_marks p (current st s) (spent_by tx)) (GetHash tx, k) = Some q) as Hl by (unfold look; cbn; by rewrite Ex).
    rewrite look_set_marks in Hl. destruct (decide _).
    - destruct (look (current st s) (GetHash tx, k)); [|done]. cbn in Hl. injection Hl as <-. congruence.
    - apply (Hnew (GetHash tx, k)); [by exists q|done]. }
  revert E. unfold connect_tx. cbv zeta. destruct (match ReadTxIndex _ _ with Some _ => _ | None => _ end); [done|].
  destruct (MAX_BLOCK_SIGOPS <? _); [done|]. destruct chain as [|b rest]; [done|].
  assert (MAX_MONEY = 100000000000000000) as HM by done.
  destruct (IsCoinBase tx) eqn:Hcb.
  { intros (v & Hv & E)%bind_accept. apply or_throw_accept, Hout in Hv as (-> & Hr' & Hnn). apply Accept_inj in E as <-.
    exists 0. cbv zeta. cbn [bs_nFees nStakeReward bs_nValueIn bs_nValueOut]. split; [lia|]. split; [done|]. split; [done|]. split; [|done].
    rewrite Ew. unfold spent_by. rewrite Hcb. cbn. lia. }
  intros (inputs & Hf & E)%bind_accept. apply bind_accept in E as (sig & _ & E). destruct (MAX_BLOCK_SIGOPS <? _); [done|].
  apply bind_accept in E as (vi & Hvi & E). apply bind_accept in E as (vo & Hvo & E). apply bind_accept in E as (queued & Hq & E).
  apply or_throw_accept, Hout in Hvo as (-> & Hvr & Hnn).
  apply ConnectInputs_accept in Hq as (coins & inputs' & Hco & _ & Hm & Hfee); [|done].
  apply (value_map_in _ _ _ _ _ Hcb Hco Hm Hu) in Hvi as ->.
  assert (values coins = coins_value tx_of (spent_by tx)) as Ecoins.
  { unfold spent_by. rewrite Hcb. eapply spends_values; [|exact Hu|exact Hco]. intros h x t Hx.
    destruct (fetch_reads _ _ _ _ Hf Hcb h x t Hx) as [H1' H2']. by eapply Hr. }
  pose proof (spends_amounts _ _ _ _ _ Hco) as Hc0.
  apply Accept_inj in E as <-. exists (values coins). cbv zeta. cbn [bs_nFees nStakeReward bs_nValueIn bs_nValueOut].
  split; [lia|]. split; [done|]. split; [done|]. split; [rewrite Ew; lia|].
  split; [by rewrite i64_add_r|]. split; [destruct (IsCoinStake tx); [apply i64_id; lia|done]|]. split; [|done].
  intros Hs. apply Hfee, check_fee_accept in Hs as (o & b' & rest' & Ho & _ & _ & Hmin & Hle). apply Hout in Ho as (-> & _).
  rewrite i64_id in Hmin by lia. lia.
Qed.
End step.

(** ** The loop of a block *)

Definition created (l : list CTransaction) : Z := fold_right (fun tx a => (if IsCoinBase tx then values (vout tx) else 0) + a) 0 l.
Lemma created_snoc l tx : created (l ++ [tx]) = created l + (if IsCoinBase tx then values (vout tx) else 0).
Proof. induction l as [|x l IH]; cbn [app created fold_right]; [lia|]. fold (created (l ++ [tx])). rewrite IH. cbn [created fold_right]. fold (created l). lia. Qed.

(** Neither a coinbase nor a coinstake. *)
Definition ordinary (tx : CTransaction) : bool := negb (IsCoinBase tx) && negb (IsCoinStake tx).

(** The position of the transaction after [l]. *)
Definition tx_pos (nTxPos : Z) (l : list CTransaction) : Z := fold_left (fun p tx => u32 (p + GetSerializeSize c_tx tx)) l nTxPos.
Lemma tx_pos_snoc p l tx : tx_pos p (l ++ [tx]) = u32 (tx_pos p l + GetSerializeSize c_tx tx).
Proof. unfold tx_pos. by rewrite fold_left_app. Qed.

Definition block_pos (pindex : CBlockIndex) (p : Z) : CDiskTxPos :=
  {| nFile := bi_nFile pindex; nBlockPos := bi_nBlockPos pindex; nTxPos := p |}.

Section ledger.
Context `{OpenSSLBN} `{Sha256} `{ScriptHashes} `{OpenSSLEC}.
Context (tx_of : Z -> CTransaction) (st : store) (pindex : CBlockIndex) (pprev : list CBlockIndex) (fSkipSigs : bool).

(** The index and the block as they are on disk: entries and positions lead to the
    transactions they are of, and what was accepted before carries no negative
    amount. *)
Record block_on_disk (nTxPos : Z) (vtx : list CTransaction) : Prop := {
  bd_file : bi_nFile pindex <> UINT_MAX;
  bd_entries : entries_read tx_of st (txdb st);
  bd_block : forall l1 tx l2 t, vtx = l1 ++ tx :: l2 -> at_pos st (GetHash tx) (block_pos pindex (tx_pos nTxPos l1)) = Some t -> t = tx;
  bd_hash : Forall (fun tx => tx_of (GetHash tx) = tx) vtx;
  bd_amounts : forall h x o, txdb st !! h = Some x -> o ∈ vout (tx_of h) -> 0 <= nValue o }.

(** What stands in the totals after the transactions [l]. *)
Record ledger (nTxPos : Z) (l : list CTransaction) (s : block_state) : Prop := {
  lg_pos : bs_nTxPos s = tx_pos nTxPos l;
  lg_conn : connected st l s;
  lg_read : entries_read tx_of st (current st s);
  lg_amounts : forall h x o, current st s !! h = Some x -> o ∈ vout (tx_of h) -> 0 <= nValue o;
  lg_worth : worth tx_of (current st s) = worth tx_of (txdb st) + created l + nStakeReward s - bs_nFees s;
  lg_fees : 0 <= bs_nFees s;
  lg_created : 0 <= created l <= MAX_MONEY /\ (existsb IsCoinBase l = false -> created l = 0);
  lg_stake : - MAX_MONEY <= nStakeReward s <= MAX_MONEY /\ (existsb IsCoinStake l = false -> nStakeReward s = 0);
  lg_min : existsb ordinary l = true -> MIN_TX_FEE <= bs_nFees s;
  lg_totals : i64 (bs_nValueOut s - bs_nValueIn s) = i64 (created l + nStakeReward s - bs_nFees s) }.

(** At most one transaction of a kind. *)
Definition once (f : CTransaction -> bool) (l : list CTransaction) : Prop := (length (List.filter f l) <= 1)%nat.
Lemma once_snoc f l tx : once f (l ++ [tx]) -> once f l /\ (f tx = true -> existsb f l = false).
Proof.
  unfold once. rewrite List.filter_app, length_app. cbn [List.filter]. intros Hl. split; [lia|]. intros Ht. rewrite Ht in Hl. cbn in Hl.
  apply not_true_iff_false. intros (x & Hx & Hfx)%existsb_exists.
  assert (In x (List.filter f l)) as Hin by (apply filter_In; done). destruct (List.filter f l); [done|cbn in Hl; lia].
Qed.
Lemma once_app f l1 l2 : once f (l1 ++ l2) -> once f l1.
Proof. unfold once. rewrite List.filter_app, length_app. lia. Qed.

Lemma ledger_start nTxPos vtx : block_on_disk nTxPos vtx -> ledger nTxPos [] (start_state nTxPos).
Proof.
  intros [Hf He Hb Hh Ha]. assert (current st (start_state nTxPos) = txdb st) as Ec by (unfold current, flush; cbn; by rewrite (left_id_L ∅ (∪))).
  split; rewrite ?Ec; try done; cbn; try lia. apply connected_start.
Qed.

Lemma connect_tx_queued s tx s' :
  connect_tx st (pindex :: pprev) false fSkipSigs s tx = Accept s' ->
  bs_nTxPos s' = u32 (bs_nTxPos s + GetSerializeSize c_tx tx) /\
  mapQueuedChanges s' !! GetHash tx = Some (new_index (block_pos pindex (bs_nTxPos s)) (len (vout tx))).
Proof.
  unfold connect_tx. cbv zeta. destruct (match ReadTxIndex _ _ with Some _ => _ | None => _ end); [done|]. destruct (MAX_BLOCK_SIGOPS <? _); [done|].
  destruct (IsCoinBase tx).
  - intros (v & _ & E)%bind_accept. apply Accept_inj in E as <-. cbn [bs_nTxPos mapQueuedChanges]. by rewrite lookup_insert_eq.
  - intros (i & _ & E)%bind_accept. apply bind_accept in E as (q & _ & E). destruct (MAX_BLOCK_SIGOPS <? _); [done|].
    apply bind_accept in E as (vi & _ & E). apply bind_accept in E as (vo & _ & E). apply bind_accept in E as (m & _ & E).
    apply Accept_inj in E as <-. cbn [bs_nTxPos mapQueuedChanges]. by rewrite lookup_insert_eq.
Qed.

(** An entry after the transaction is its own or keeps the position it had. *)
Lemma connect_tx_entries s tx s' h x :
  bi_nFile pindex <> UINT_MAX -> connect_tx st (pindex :: pprev) false fSkipSigs s tx = Accept s' -> unsigned tx ->
  current st s' !! h = Some x ->
  (h = GetHash tx /\ pos x = block_pos pindex (bs_nTxPos s)) \/ exists y, current st s !! h = Some y /\ pos y = pos x.
Proof.
  intros Hf E Hu Hx. pose proof (connect_tx_marks st (pindex :: pprev) false fSkipSigs Hf s tx s' E Hu) as (p & _ & Hc & _).
  apply connect_tx_queued in E as [_ Eq]. destruct (decide (h = GetHash tx)) as [->|Hne].
  - left. split; [done|]. unfold current, flush in Hx. rewrite (lookup_union_Some_l _ _ _ _ Eq) in Hx. by injection Hx as <-.
  - right. rewrite Hc, lookup_insert_ne in Hx by done. pose proof (set_marks_pos p (spent_by tx) (current st s) h) as Ep. rewrite Hx in Ep.
    cbn in Ep. destruct (current st s !! h) as [y|]; [|done]. exists y. split; [done|]. cbn in Ep. congruence.
Qed.

(** The totals after one more transaction. *)
Lemma ledger_totals l tx s s' w db v :
  machine_tx tx -> (IsCoinBase tx = true -> existsb IsCoinBase l = false) -> (IsCoinStake tx = true -> existsb IsCoinStake l = false) ->
  w = db + created l + nStakeReward s - bs_nFees s -> 0 <= bs_nFees s -> (existsb ordinary l = true -> MIN_TX_FEE <= bs_nFees s) -> db <= MAX_MONEY ->
  (0 <= created l <= MAX_MONEY /\ (existsb IsCoinBase l = false -> created l = 0)) ->
  (- MAX_MONEY <= nStakeReward s <= MAX_MONEY /\ (existsb IsCoinStake l = false -> nStakeReward s = 0)) ->
  i64 (bs_nValueOut s - bs_nValueIn s) = i64 (created l + nStakeReward s - bs_nFees s) ->
  let out := values (vout tx) in
  0 <= v <= MAX_MONEY -> 0 <= out <= MAX_MONEY -> 0 <= w - v + out ->
  (if IsCoinBase tx
   then v = 0 /\ bs_nFees s' = bs_nFees s /\ nStakeReward s' = nStakeReward s /\
        bs_nValueIn s' = bs_nValueIn s /\ bs_nValueOut s' = i64 (bs_nValueOut s + out)
   else bs_nFees s' = (if IsCoinStake tx then bs_nFees s else i64 (bs_nFees s + (v - out))) /\
        nStakeReward s' = (if IsCoinStake tx then out - v else nStakeReward s) /\
        (IsCoinStake tx = false -> out + MIN_TX_FEE <= v) /\
        bs_nValueIn s' = i64 (bs_nValueIn s + v) /\ bs_nValueOut s' = i64 (bs_nValueOut s + out)) ->
  w - v + out = db + created (l ++ [tx]) + nStakeReward s' - bs_nFees s' /\ 0 <= bs_nFees s' /\
  (0 <= created (l ++ [tx]) <= MAX_MONEY /\ (existsb IsCoinBase (l ++ [tx]) = false -> created (l ++ [tx]) = 0)) /\
  (- MAX_MONEY <= nStakeReward s' <= MAX_MONEY /\ (existsb IsCoinStake (l ++ [tx]) = false -> nStakeReward s' = 0)) /\
  (existsb ordinary (l ++ [tx]) = true -> MIN_TX_FEE <= bs_nFees s') /\
  i64 (bs_nValueOut s' - bs_nValueIn s') = i64 (created (l ++ [tx]) + nStakeReward s' - bs_nFees s').
Proof.
  intros Hm Hcb Hcs Ew Hf Hmin Hdb [Hc1 Hc2] [Hs1 Hs2] Ht out Hv Ho Hpos Hcase. assert (MAX_MONEY = 100000000000000000) as HM by done. assert (0 < MIN_TX_FEE) as Hfp by done.
  rewrite created_snoc, !existsb_app. cbn [existsb]. rewrite !orb_false_r. unfold ordinary at 2. destruct (IsCoinBase tx) eqn:Eb; cbn [negb andb].
  - destruct Hcase as (-> & -> & -> & -> & ->). fold out. rewrite (Hc2 (Hcb eq_refl)) in *. rewrite orb_true_r.
    split; [lia|]. split; [done|]. split; [split; [lia|done]|]. split; [split; [done|]|].
    + intros [He _]%orb_false_iff. by apply Hs2.
    + split; [rewrite orb_false_r; exact Hmin|]. rewrite i64_sub_l. replace (bs_nValueOut s + out - bs_nValueIn s) with (bs_nValueOut s - bs_nValueIn s + out) by lia.
      rewrite <-i64_add_l, Ht, i64_add_l. f_equal. lia.
  - rewrite Z.add_0_r, orb_false_r. destruct Hcase as (-> & -> & Hle & -> & ->).
    assert (i64 (i64 (bs_nValueOut s + out) - i64 (bs_nValueIn s + v)) = i64 (created l + nStakeReward s - bs_nFees s + (out - v))) as Et.
    { rewrite i64_sub_l, i64_sub_r. replace (bs_nValueOut s + out - (bs_nValueIn s + v)) with (bs_nValueOut s - bs_nValueIn s + (out - v)) by lia.
      by rewrite <-i64_add_l, Ht, i64_add_l. }
    rewrite Et. destruct (IsCoinStake tx) eqn:Es.
    + rewrite (Hs2 (Hcs eq_refl)) in *. rewrite orb_true_r. cbn [negb]. rewrite orb_false_r.
      split_and!; try done; try lia. f_equal. lia.
    + rewrite orb_false_r. specialize (Hle eq_refl). rewrite i64_id by lia. split_and!; try done; try lia. f_equal. lia.
Qed.

Lemma ledger_step nTxPos vtx l tx l2 s s' :
  block_on_disk nTxPos vtx -> worth tx_of (txdb st) <= MAX_MONEY -> vtx = l ++ tx :: l2 ->
  machine_tx tx -> NoDup (map GetHash vtx) -> once IsCoinBase vtx -> once IsCoinStake vtx ->
  ledger nTxPos l s -> connect_tx st (pindex :: pprev) false fSkipSigs s tx = Accept s' -> ledger nTxPos (l ++ [tx]) s'.
Proof.
  intros [Hfile He Hb Hh Ha] Hw Hv Hm Hnd Hcb Hcs [L1 L2 L3 L4 L5 L6 L7 L8 Lm L9] E.
  pose proof Hm as [Hu _].
  assert (tx_of (GetHash tx) = tx) as Ht by (rewrite Forall_forall in Hh; apply Hh; rewrite Hv; set_solver).
  assert (GetHash tx ∉ map GetHash l) as Hni.
  { rewrite Hv, map_app in Hnd. cbn [map] in Hnd. apply NoDup_app in Hnd as (_ & Hd & _). intros Hin. apply (Hd _ Hin). set_solver. }
  pose proof (connected_step st (pindex :: pprev) false fSkipSigs Hfile l s tx s' L2 E Hu Hni) as Hconn.
  assert (forall c, unspent (current st s) c -> c.1 <> GetHash tx) as Hnew.
  { intros c Hc Heq. pose proof (cn_unspent _ _ _ L2 c Hc) as [Hin|Hun]; [by rewrite Heq in Hin|].
    pose proof (connect_tx_marks st (pindex :: pprev) false fSkipSigs Hfile s tx s' E Hu) as (p & _ & _ & _ & _ & Hold).
    destruct Hun as (q & Hl & Hn). unfold look in Hl. rewrite Heq in Hl.
    destruct (txdb st !! GetHash tx) as [x|] eqn:Ex; [|done]. cbn in Hl. specialize (Hold x eq_refl).
    rewrite <-not_true_iff_false in Hold. apply Hold, existsb_exists. exists q. split; [|done].
    apply list_elem_of_In. by eapply list_elem_of_lookup_2. }
  destruct (connect_tx_worth tx_of st (pindex :: pprev) false fSkipSigs Hfile s tx s' E Hm L3 Ht Hnew) as (v & Hv0 & Ho & Hnn & Hw' & Hcase).
  assert (vtx = (l ++ [tx]) ++ l2) as Hv' by (by rewrite <-app_assoc).
  rewrite Hv' in Hcb, Hcs. apply once_app, once_snoc in Hcb as [_ Hcb]. apply once_app, once_snoc in Hcs as [_ Hcs].
  pose proof (connect_tx_queued s tx s' E) as [Ep _]. pose proof (fun h x => connect_tx_entries s tx s' h x Hfile E Hu) as Hent.
  assert (entries_read tx_of st (current st s')) as Hread.
  { intros h x t Hx Hat. destruct (Hent h x Hx) as [[-> Hp]|(y & Hy & Hp)].
    - rewrite Hp, L1 in Hat. rewrite Ht. by apply (Hb l tx l2).
    - apply (L3 h y t Hy). by rewrite Hp. }
  assert (forall h x o, current st s' !! h = Some x -> o ∈ vout (tx_of h) -> 0 <= nValue o) as Ham.
  { intros h x o Hx Hin. destruct (Hent h x Hx) as [[-> _]|(y & Hy & _)]; [|by apply (L4 h y)].
    rewrite Ht in Hin. rewrite Forall_forall in Hnn. by apply Hnn. }
  pose proof (worth_nonneg tx_of (current st s') Ham) as Hpos. rewrite Hw' in Hpos.
  destruct (ledger_totals l tx s s' _ _ v Hm Hcb Hcs L5 L6 Lm Hw L7 L8 L9 Hv0 Ho Hpos Hcase) as (T1 & T2 & T3 & T4 & T5 & T6).
  split; try done.
  - by rewrite tx_pos_snoc, <-L1.
  - by rewrite Hw'.
Qed.

Lemma ledger_all nTxPos vtx s :
  block_on_disk nTxPos vtx -> worth tx_of (txdb st) <= MAX_MONEY ->
  Forall machine_tx vtx -> NoDup (map GetHash vtx) -> once IsCoinBase vtx -> once IsCoinStake vtx ->
  connect_txs st (pindex :: pprev) false fSkipSigs nTxPos vtx = Accept s -> ledger nTxPos vtx s.
Proof.
  intros Hd Hw Hm Hnd Hcb Hcs E. unfold connect_txs in E.
  enough (forall l2, vtx = vtx ++ l2 -> ledger nTxPos vtx s) as He by (apply (He []); by rewrite app_nil_r). revert E.
  apply (ofold_ind (connect_tx st (pindex :: pprev) false fSkipSigs) (fun l s => forall l2, vtx = l ++ l2 -> ledger nTxPos l s)).
  - intros l2 _. by eapply ledger_start.
  - intros l tx a a' IH Ea l2 Hv. rewrite <-app_assoc in Hv. cbn in Hv. eapply ledger_step; try done; [|by eapply IH].
    rewrite Forall_forall in Hm. apply Hm. rewrite Hv. set_solver.
Qed.
End ledger.

(** ** Blocks *)

Lemma coinbase_not_stake tx : IsCoinBase tx = true -> IsCoinStake tx = false.
Proof.
  unfold IsCoinBase, IsCoinStake. destruct (vin tx) as [|i [|j l]]; [done| |done]. intros [-> _]%andb_prop.
  by destruct (vout tx) as [|o [|? ?]].
Qed.

Lemma filter_none (f : CTransaction -> bool) l : existsb f l = false -> List.filter f l = [].
Proof. induction l as [|x l IH]; cbn; [done|]. intros [-> Hl]%orb_false_iff. by apply IH. Qed.

Section supply.
Context `{OpenSSLBN} `{OpenSSLBNArith} `{Sha256} `{ScriptHashes} `{OpenSSLEC} `{Secp256k1} `{HeaderHash}.

(** A stake block creates nothing in its coinbase and has one coinstake. *)
Lemma check_stake_accept sg b tx0 rest :
  check_stake sg b = Accept tt -> vtx b = tx0 :: rest ->
  values (vout tx0) = 0 /\ exists tx1 rest', rest = tx1 :: rest' /\ IsCoinStake tx1 = true /\ existsb IsCoinStake rest' = false.
Proof.
  unfold check_stake. intros E Ev. rewrite Ev in E. destruct rest as [|tx1 rest]; [done|]. destruct (vout tx0) as [|o0 [|o1 [|? ?]]]; try done.
  destruct (IsEmpty o0) eqn:E0; [|done]. destruct (IsEmpty o1) eqn:E1; [|done]. cbn [negb orb] in E.
  destruct (IsCoinStake tx1) eqn:Es; [|done]. cbn [negb] in E. destruct (existsb IsCoinStake rest) eqn:Er; [done|].
  split; [|by exists tx1, rest]. unfold IsEmpty in E0, E1. cbn. lia.
Qed.

Lemma kinds_once sg b tx0 rest :
  vtx b = tx0 :: rest -> IsCoinBase tx0 = true -> existsb IsCoinBase rest = false ->
  (IsProofOfStake b = true -> check_stake sg b = Accept tt) ->
  (IsProofOfStake b = false -> existsb IsCoinStake (vtx b) = false) ->
  once IsCoinBase (vtx b) /\ once IsCoinStake (vtx b).
Proof.
  intros Ev Hc Hr Hs Hw. unfold once. split.
  - rewrite Ev. cbn [List.filter]. rewrite Hc, filter_none by done. cbn. lia.
  - destruct (IsProofOfStake b); [|rewrite filter_none by auto; cbn; lia].
    destruct (check_stake_accept sg b tx0 rest (Hs eq_refl) Ev) as (_ & tx1 & rest' & -> & H1' & H2').
    rewrite Ev. cbn [List.filter]. rewrite (coinbase_not_stake _ Hc), H1', (filter_none _ rest') by done. cbn. lia.
Qed.

Lemma created_first tx0 rest : IsCoinBase tx0 = true -> existsb IsCoinBase rest = false -> created (tx0 :: rest) = values (vout tx0).
Proof.
  intros Hc Hr. cbn [created fold_right]. fold (created rest). rewrite Hc. assert (created rest = 0) as ->; [|lia].
  induction rest as [|x l IH]; [done|]. cbn [existsb] in Hr. apply orb_false_iff in Hr as [Hx Hr]. cbn [created fold_right]. fold (created l).
  rewrite Hx, IH by done. done.
Qed.

(** What a block of a height may create beyond the fees. *)
Definition subsidy (nHeight : Z) : Z := if nHeight =? 1 then 1000000000 * COIN else 0.

(** The books of a connected block, and the check of its reward. *)
Lemma connect_ledger env st mw pindex pprev nPrevSupply b r tx_of :
  ConnectBlock env st mw (pindex :: pprev) nPrevSupply false b = Accept r ->
  block_on_disk tx_of st pindex (first_tx_pos (bi_nBlockPos pindex) (len (vtx b))) (vtx b) ->
  Forall machine_tx (vtx b) -> (IsProofOfStake b = false -> existsb IsCoinStake (vtx b) = false) ->
  worth tx_of (txdb st) <= MAX_MONEY ->
  exists s tx0 rest, ledger tx_of st (first_tx_pos (bi_nBlockPos pindex) (len (vtx b))) (vtx b) s /\
    vtx b = tx0 :: rest /\ created (vtx b) = values (vout tx0) /\ (IsProofOfStake b = true -> check_stake false b = Accept tt) /\
    (if IsProofOfWork b then check_work_reward (nHeight pindex) s b else check_stake_reward env st (nHeight pindex) s b) = Accept tt /\
    cr_txdb r = current st s /\ cr_nMoneySupply r = i64 (i64 (nPrevSupply + bs_nValueOut s) - bs_nValueIn s).
Proof.
  intros E Hd Hm Hw Hmax. unfold ConnectBlock in E. apply bind_accept in E as ([] & Hck & E). cbn [negb] in Hck.
  apply check_block_accept in Hck as (tx0 & rest & Ev & Hc & Hr & Hnd & Hs).
  destruct (kinds_once false b tx0 rest Ev Hc Hr Hs Hw) as [Ob Os].
  apply bind_accept in E as (s & Es & E). apply bind_accept in E as ([] & _ & E). apply bind_accept in E as ([] & Hrew & E).
  apply bind_accept in E as (mw' & _ & E). apply Accept_inj in E as <-. exists s, tx0, rest. cbn [cr_txdb cr_nMoneySupply].
  split; [exact (ledger_all tx_of st pindex pprev (fSkipSigs env) _ _ s Hd Hmax Hm Hnd Ob Os Es)|].
  split; [exact Ev|]. split; [rewrite Ev; by apply created_first|]. split; [exact Hs|]. split; [exact Hrew|]. done.
Qed.

(** What the unspent outputs are worth after a block. *)
Lemma connect_worth env st mw pindex pprev nPrevSupply b r tx_of :
  ConnectBlock env st mw (pindex :: pprev) nPrevSupply false b = Accept r ->
  block_on_disk tx_of st pindex (first_tx_pos (bi_nBlockPos pindex) (len (vtx b))) (vtx b) ->
  Forall machine_tx (vtx b) -> (IsProofOfStake b = false -> existsb IsCoinStake (vtx b) = false) ->
  worth tx_of (txdb st) <= MAX_MONEY ->
  0 <= worth tx_of (cr_txdb r) <= worth tx_of (txdb st) + (if IsProofOfStake b then 0 else subsidy (nHeight pindex)).
Proof.
  intros E Hd Hm Hw Hmax. destruct (connect_ledger _ _ _ _ _ _ _ _ _ E Hd Hm Hw Hmax) as (s & tx0 & rest & L & Ev & Ec & Hs & Hrew & -> & _).
  destruct L as [_ _ _ L4 L5 L6 [L7 _] [L8 L8'] _ _].
  pose proof (worth_nonneg tx_of (current st s) L4) as Hpos. set (w := worth tx_of (current st s)) in *.
  set (w0 := worth tx_of (txdb st)) in *. assert (MAX_MONEY = 100000000000000000) as HM by done. split; [done|].
  rewrite Ec in L5, L7. unfold IsProofOfWork in Hrew. destruct (IsProofOfStake b) eqn:Hp; cbn [negb] in Hrew.
  - destruct (check_stake_accept _ _ _ _ (Hs eq_refl) Ev) as (E0 & tx1 & rest' & -> & _). rewrite E0 in L5.
    unfold check_stake_reward in Hrew. rewrite Ev in Hrew. apply bind_accept in Hrew as (age & _ & Hrew).
    destruct (Z.ltb_spec (GetProofOfStakeReward (bs_nFees s)) (nStakeReward s)) as [|Hle]; [done|].
    unfold GetProofOfStakeReward in Hle. cbv zeta in Hle. rewrite Z.add_0_l, i64_id in Hle by lia. lia.
  - rewrite (L8' (Hw eq_refl)) in L5. unfold check_work_reward in Hrew. rewrite Ev in Hrew.
    apply bind_accept in Hrew as (v & Hv & Hrew). apply or_throw_accept in Hv.
    rewrite Ev in Hm. apply Forall_cons in Hm as [[_ Ha] _]. apply value_out_sum in Hv as (_ & Hv & ->); [|done].
    destruct (Z.ltb_spec (GetProofOfWorkReward (nHeight pindex) (bs_nFees s)) (values (vout tx0))) as [|Hle]; [done|].
    unfold subsidy. unfold GetProofOfWorkReward in Hle. cbv zeta in Hle. assert (1000000000 * COIN = MAX_MONEY) as Em by done.
    destruct (nHeight pindex =? 1); rewrite i64_id in Hle by lia; lia.
Qed.

(** C1. No block creates coins. Let [ConnectBlock] connect a block, and not as a mere
    check; let the transactions that the index names and those of the block be read from
    disk as they were written, the amounts of the former not be negative and those of
    the latter fit 64 bits, the unspent outputs be worth at most a billion coins, and a
    block without stake hold no coinstake, for which [CheckBlock] looks in stake blocks
    only. Then what the unspent outputs are worth grows by at most the subsidy of the
    height, which is zero everywhere but at height one, and not at all in a stake block;
    and the supply recorded for the block, a 64-bit integer, is that of the block before
    and exactly the difference. *)
Theorem no_inflation env st mw pindex pprev nPrevSupply b r tx_of :
  ConnectBlock env st mw (pindex :: pprev) nPrevSupply false b = Accept r ->
  block_on_disk tx_of st pindex (first_tx_pos (bi_nBlockPos pindex) (len (vtx b))) (vtx b) ->
  Forall machine_tx (vtx b) -> (IsProofOfStake b = false -> existsb IsCoinStake (vtx b) = false) ->
  worth tx_of (txdb st) <= MAX_MONEY ->
  0 <= worth tx_of (cr_txdb r) <= worth tx_of (txdb st) + (if IsProofOfStake b then 0 else subsidy (nHeight pindex)) /\
  cr_nMoneySupply r =
    i64 (nPrevSupply + (worth tx_of (cr_txdb r) - worth tx_of (txdb st))).
Proof.
  intros E Hd Hm Hw Hmax. split; [by eapply connect_worth|].
  destruct (connect_ledger _ _ _ _ _ _ _ _ _ E Hd Hm Hw Hmax) as (s & tx0 & rest & L & _ & _ & _ & _ & -> & ->).
  pose proof (lg_worth _ _ _ _ _ L) as L5. pose proof (lg_totals _ _ _ _ _ L) as L9. rewrite i64_sub_l.
  replace (nPrevSupply + bs_nValueOut s - bs_nValueIn s) with (nPrevSupply + (bs_nValueOut s - bs_nValueIn s)) by lia.
  rewrite <-i64_add_r, L9, i64_add_r. f_equal. lia.
Qed.

(** C4. From height 60000 on no stake block with an ordinary transaction is connected,
    where its transactions are read from disk as written, their fields fit the machine
    and the unspent outputs are worth at most a billion coins: the minimum fee of that
    transaction gives the fund a cut, and the address of the fund is a placeholder that
    is no address. (Blocks without stake are refused above height 500.) *)
Theorem fund_stops_transactions env st mw pindex pprev nPrevSupply b r tx_of :
  ConnectBlock env st mw (pindex :: pprev) nPrevSupply false b = Accept r -> IsProofOfStake b = true ->
  block_on_disk tx_of st pindex (first_tx_pos (bi_nBlockPos pindex) (len (vtx b))) (vtx b) ->
  Forall machine_tx (vtx b) -> worth tx_of (txdb st) <= MAX_MONEY ->
  DEV_FUND_FEE_ACTIVATION_HEIGHT <= nHeight pindex ->
  existsb ordinary (vtx b) = false.
Proof.
  intros E Hp Hd Hm Hmax Hh.
  destruct (connect_ledger _ _ _ _ _ _ _ _ _ E Hd Hm ltac:(congruence) Hmax) as (s & tx0 & rest & L & Ev & _ & _ & Hrew & _).
  destruct L as [_ _ _ L4 L5 L6 [L7 _] [L8 _] Lm _].
  destruct (existsb ordinary (vtx b)) eqn:Eo; [|done]. exfalso. specialize (Lm eq_refl).
  pose proof (worth_nonneg tx_of (current st s) L4) as Hpos. rewrite L5 in Hpos.
  unfold IsProofOfWork in Hrew. rewrite Hp in Hrew. cbn [negb] in Hrew. unfold check_stake_reward in Hrew. rewrite Ev in Hrew.
  destruct rest as [|tx1 rest]; [done|]. apply bind_accept in Hrew as (age & _ & Hrew). destruct (_ <? _); [done|].
  destruct (Z.ltb_spec (nHeight pindex) DEV_FUND_FEE_ACTIVATION_HEIGHT); [lia|]. cbv zeta in Hrew. rewrite Base58.dev_fund_script in Hrew.
  destruct (Z.leb_spec (GetDevFundCut (bs_nFees s)) 0) as [Hcut|]; [|done]. revert Hcut. apply Zlt_not_le.
  assert (MAX_MONEY = 100000000000000000) as HM by done. assert (MIN_TX_FEE = 42000000) as Hf by done. rewrite Hf in Lm. clear Hf.
  unfold GetDevFundCut. destruct (Z.leb_spec (bs_nFees s) 0); [lia|]. change MARYJ_DEV_FUND_FEE_NUM with 20. change MARYJ_DEV_FUND_FEE_DEN with 420.
  rewrite i64_id by lia. rewrite Z.quot_div_nonneg by lia. apply Z.div_str_pos. lia.
Qed.
End supply.

(** ** Instances

    Blocks of height 500 on the transaction [tx0] of [TxInputs]: an ordinary one, and
    one whose third transaction has the form of a coinstake. *)

Section witnesses.
#[local] Instance toy_sha : Sha256 := toy_sha256.
#[local] Existing Instance z_bn.
#[local] Existing Instance z_arith.
#[local] Existing Instance toy_hashes.
#[local] Existing Instance toy_ec.
#[local] Existing Instance log_secp.
#[local] Instance toy_header : HeaderHash := {| Hash9 := fun _ => 5 |}.

Definition coinbase_tx (v : Z) : CTransaction :=
  plain_tx [{| prevout := {| hash := 0; n := UINT_MAX |}; scriptSig := [1; 2]; nSequence := UINT_MAX |}] [sample_output v].
(** It spends five coins and pays itself a thousand. *)
Definition stray_stake : CTransaction :=
  plain_tx [sample_input (GetHash tx0) 1] [{| nValue := 0; scriptPubKey := [] |}; sample_output (1000 * COIN)].

Definition block_of (l : list CTransaction) : CBlock := {|
  header := {| bk_nVersion := 1; hashPrevBlock := 3; hashMerkleRoot := BuildMerkleTree (map GetHash l); bk_nTime := 1700000000;
               nBits := 0x1e0fffff; nNonce := 7 |};
  vtx := l; vchBlockSig := []; mwExtBlock := null_mwBlock |}.
Definition sample_env : block_env :=
  {| fTestNet := false; nAdjustedTime := 1700000000; fSkipSigs := false; block_time := fun _ _ => Some 1699000000 |}.
Definition fair : list CTransaction := [coinbase_tx COIN; tx1].
Definition minting : list CTransaction := [coinbase_tx COIN; tx1; stray_stake].
(** A stake that earns nothing, behind an empty coinbase. *)
Definition empty_output : CTxOut := {| nValue := 0; scriptPubKey := [] |}.
Definition staking : list CTransaction :=
  [plain_tx [{| prevout := {| hash := 0; n := UINT_MAX |}; scriptSig := [1; 2]; nSequence := UINT_MAX |}] [empty_output; empty_output];
   plain_tx [sample_input (GetHash tx0) 1] [empty_output; sample_output (5 * COIN)]].

Definition known_tx (h : Z) : CTransaction :=
  default tx0 (List.find (fun tx => GetHash tx =? h) ([tx0; tx1; stray_stake; coinbase_tx COIN] ++ staking)).
(** The index has [tx0] alone; the transactions of the block follow one another on disk. *)
Definition chain_store (l : list CTransaction) : store := {|
  txdb := {[ GetHash tx0 := new_index pos0 2 ]};
  ReadFromDisk := fun p =>
    if bool_decide (p = pos0) then Some tx0
    else if nBlockPos p =? 2000 then (if nTxPos p =? 2081 then l !! 0%nat else l !! 1%nat) else None;
  mempool := ∅ |}.
Definition entry_at (h : Z) (fStake : bool) : CBlockIndex :=
  {| nHeight := h; bi_nFile := 1; bi_nBlockPos := 2000; bi_hash := 4; bi_nTime := 1700000000; bi_nBits := 0x1e0fffff; bi_fStake := fStake;
     nChainTrust := 100; bi_stake := no_stake |}.
Definition connect_block (h : Z) (l : list CTransaction) : outcome connect_result :=
  ConnectBlock sample_env (chain_store l) fresh_state [entry_at h false] 0 false (block_of l).

Lemma pair_on_disk h f ta tb :
  known_tx (GetHash ta) = ta -> known_tx (GetHash tb) = tb -> tx_pos 2081 [ta] <> 2081 ->
  block_on_disk known_tx (chain_store [ta; tb]) (entry_at h f) 2081 [ta; tb].
Proof.
  intros Ea Eb Hne. split.
  - discriminate.
  - intros h' x t Hx Ht. cbn [txdb chain_store] in Hx. apply lookup_singleton_Some in Hx as [<- <-]. vm_compute in Ht. injection Ht as <-.
    vm_compute. reflexivity.
  - intros l1 tx l2 t Hl Ht. destruct l1 as [|a [|b l1]]; cbn [app] in Hl.
    + injection Hl as <- <-. vm_compute in Ht. by injection Ht.
    + injection Hl as <- <- <-. unfold at_pos in Ht.
      assert (forall q, nBlockPos q <> 2000 -> block_pos (entry_at h f) (tx_pos 2081 [ta]) <> q) as Hq by (intros q Hn <-; apply Hn; reflexivity).
      rewrite bool_decide_false in Ht by (apply Hq; discriminate). cbn [ReadFromDisk chain_store] in Ht.
      rewrite bool_decide_false in Ht by (apply Hq; discriminate). cbn [nBlockPos nTxPos block_pos entry_at bi_nBlockPos] in Ht. change (2000 =? 2000) with true in Ht.
      rewrite (proj2 (Z.eqb_neq _ _) Hne) in Ht. injection Ht as <-. reflexivity.
    + injection Hl as _ _ Hl. by destruct l1.
  - apply Forall_cons. split; [exact Ea|]. by apply Forall_singleton.
  - intros h' x o Hx Ho. cbn [txdb chain_store] in Hx. apply lookup_singleton_Some in Hx as [<- <-].
    change (vout (known_tx (GetHash tx0))) with [sample_output (10 * COIN); sample_output (5 * COIN)] in Ho.
    rewrite !elem_of_cons, elem_of_nil in Ho. destruct Ho as [->|[->|[]]]; vm_compute; discriminate.
Qed.

Lemma samples_on_disk :
  block_on_disk known_tx (chain_store fair) (entry_at 500 false) 2081 fair /\
  block_on_disk known_tx (chain_store staking) (entry_at 60000 false) 2081 staking.
Proof. split; apply pair_on_disk; vm_compute; first [reflexivity|discriminate]. Qed.

Lemma samples_connect :
  match connect_block 500 fair with Accept _ => true | _ => false end = true /\
  match connect_block 60000 staking with Accept _ => true | _ => false end = true.
Proof. split; vm_compute; reflexivity. Qed.

Lemma sample_worth l : worth known_tx (txdb (chain_store l)) <= MAX_MONEY.
Proof. vm_compute. discriminate. Qed.

Lemma no_inflation_witness :
  exists r, connect_block 500 fair = Accept r /\ worth known_tx (cr_txdb r) <= worth known_tx (txdb (chain_store fair)) + subsidy 500.
Proof.
  pose proof (proj1 samples_connect) as Hr. destruct (connect_block 500 fair) as [r| |] eqn:E; [|discriminate Hr..].
  exists r. split; [reflexivity|].
  change 500 with (nHeight (entry_at 500 false)). unfold connect_block in E.
  apply (no_inflation _ _ _ _ _ _ _ _ known_tx E).
  - exact (proj1 samples_on_disk).
  - repeat constructor; vm_compute; discriminate.
  - reflexivity.
  - apply sample_worth.
Defined.

Lemma fund_stops_transactions_witness : existsb ordinary staking = false.
Proof.
  pose proof (proj2 samples_connect) as Hr. destruct (connect_block 60000 staking) as [r| |] eqn:E; [|discriminate Hr..].
  change staking with (vtx (block_of staking)). unfold connect_block in E.
  apply (fund_stops_transactions _ _ _ _ _ _ _ _ known_tx E).
  - reflexivity.
  - exact (proj2 samples_on_disk).
  - repeat constructor; vm_compute; discriminate.
  - apply sample_worth.
  - vm_compute. discriminate.
Defined.

(** Without the premise on coinstakes: this block is connected and creates coins. *)
Example stray_stake_mints :
  match connect_block 500 minting with
  | Accept r => (worth known_tx (txdb (chain_store minting)), worth known_tx (cr_txdb r))
  | _ => (0, 0)
  end = (15 * COIN, 1010 * COIN).
Proof. vm_compute. reflexivity. Qed.

End witnesses.

End Supply.
