(* ===== verification/Chain.v ===== *)
(** * The best chain ([src/main.cpp])

    [Reorganize], [SetBestChainInner] and [SetBestChain] on the index of
    transactions, the state of the extension, the memory pool and the entries of the
    best chain.  A pointer to an entry is the list of the entries it leads to
    through [pprev], the null pointer the empty list; two pointers are equal when
    the hashes of their entries are.  Writes to the database between [TxnBegin]
    and [TxnCommit] are kept on a copy that [TxnAbort] drops; what is changed in
    memory is not.  [hashBestChain] of the database is a member of the state, that of
    memory is the hash of the best entry.  The [hashNext] of an entry on disk and the
    [nMint] of one whose connection failed are not kept.  Wallets and notifications
    are outside the state. *)

From Stdlib Require Import Strings.String.
From S2P Require Import Prelude Crypto Serialize BigNum BigArith Script Interpreter Standard Mmr MwModels Transactions.
From S2P Require Import Sighash MwState Secp MwCrypto Bulletproofs MwValidation TxInputs Peg TxChecks MemPool Extension Merkle Base58 Targets Blocks Supply.
Import Stream BigNum BigArith Script Interpreter Standard MwModels Sighash MwState MwCrypto MwValidation Transactions TxInputs Peg TxChecks.
Import MemPool Extension Merkle Targets Blocks Supply.

Module Chain.

Abbreviation chain := (list CBlockIndex) (only parsing).

(** ** The fork *)

Definition same (a b : chain) : bool :=
  match a, b with x :: _, y :: _ => bi_hash x =? bi_hash y | [], [] => true | _, _ => false end.

(** [while (plonger->nHeight > pfork->nHeight)] *)
Fixpoint lower (h : Z) (plonger : chain) : option chain :=
  match plonger with
  | [] => None
  | p :: pprev => if h <? nHeight p then lower h pprev else Some plonger
  end.

(** The outer loop; [None] where [pprev] is null. *)
Fixpoint find_fork (pfork plonger : chain) : option chain :=
  match pfork with
  | [] => None
  | f :: pprev =>
      if same pfork plonger then Some pfork
      else
        match lower (nHeight f) plonger with
        | None => None
        | Some plonger => if same pfork plonger then Some pfork else find_fork pprev plonger
        end
  end.

(** [for (pindex = ...; pindex != pfork; pindex = pindex->pprev)] *)
Fixpoint above (pfork pindex : chain) : list chain :=
  match pindex with
  | [] => []
  | _ :: pprev => if same pindex pfork then [] else pindex :: above pfork pprev
  end.

(** ** The state *)

(** [moneys] has [nMint] and [nMoneySupply] of the entries of connected blocks. *)
Record working := {
  w_db : gmap Z CTxIndex; w_mw : CMWState; w_moneys : gmap Z (Z * Z); w_setStakeSeen : gset (COutPoint * Z) }.

Record chain_state := {
  cs_work : working; cs_hashBestChain : uint256; pindexGenesisBlock : option uint256; pindexBest : chain;
  cs_pnext : gmap Z Z; cs_mempool : CTxMemPool; nBestInvalidTrust : Z }.

(** The blocks and transactions on disk, and what the checks read. *)
Record chain_env := {
  ce_block : block_env; read_file : Z -> Z -> option CBlock; read_tx : CDiskTxPos -> option CTransaction;
  ce_fEnforceCanonical : bool; ce_rate_limited : bool }.

Definition best_trust (s : chain_state) : Z := match pindexBest s with b :: _ => nChainTrust b | [] => 0 end.
Definition best_height (s : chain_state) : Z := match pindexBest s with b :: _ => nHeight b | [] => -1 end.

Section chain.
Context `{OpenSSLBN} `{OpenSSLBNArith} `{Sha256} `{ScriptHashes} `{OpenSSLEC} `{Secp256k1} `{HeaderHash}.

(** [CBlock::ReadFromDisk] of an entry. *)
Definition read_block (env : chain_env) (pindex : CBlockIndex) : option CBlock :=
  match read_file env (bi_nFile pindex) (bi_nBlockPos pindex) with
  | None => None
  | Some b =>
      if IsProofOfWork b && negb (CheckProofOfWork (fTestNet (ce_block env)) (GetBlockHash b) (nBits (header b))) then None
      else if negb (GetBlockHash b =? bi_hash pindex) then None else Some b
  end.

Definition work_store (env : chain_env) (pool : CTxMemPool) (w : working) : store :=
  {| txdb := w_db w; ReadFromDisk := read_tx env; mempool := mapTx pool |}.

(** ** One block *)

Definition stake_seen (b : CBlock) : option (COutPoint * Z) :=
  match vtx b with
  | _ :: tx1 :: _ => match vin tx1 with i :: _ => if IsProofOfStake b then Some (prevout i, nTime tx1) else None | [] => None end
  | _ => None
  end.

(** The loop body over [vDisconnect]; the transactions to take up again. *)
Definition disconnect_one (env : chain_env) (w : working) (pindex : CBlockIndex) : working * outcome (list CTransaction) :=
  match read_block env pindex with
  | None => (w, Reject 0)
  | Some b =>
      let '(db, mw, r) := DisconnectBlock (w_db w) (w_mw w) pindex b in
      let seen := match stake_seen b with Some k => w_setStakeSeen w ∖ {[ k ]} | None => w_setStakeSeen w end in
      ({| w_db := db; w_mw := mw; w_moneys := w_moneys w;
          w_setStakeSeen := match r with Accept _ => seen | _ => w_setStakeSeen w end |},
       obind r (fun _ => Accept (List.filter (fun tx => negb (generated tx)) (vtx b))))
  end.

Definition prev_supply (w : working) (pprev : chain) : Z :=
  match pprev with [] => 0 | p :: _ => default 0 (snd <$> w_moneys w !! bi_hash p) end.

(** [ConnectBlock] of a block on the working state. *)
Definition connect_block (env : chain_env) (pool : CTxMemPool) (w : working) (pindex : chain) (b : CBlock) : working * outcome unit :=
  match pindex with
  | [] => (w, Throws)
  | e :: pprev =>
      match ConnectBlock (ce_block env) (work_store env pool w) (w_mw w) pindex (prev_supply w pprev) false b with
      | Accept r =>
          ({| w_db := cr_txdb r; w_mw := cr_mw r; w_moneys := <[bi_hash e := (cr_nMint r, cr_nMoneySupply r)]> (w_moneys w);
              w_setStakeSeen := w_setStakeSeen w |}, Accept tt)
      | Reject d => (w, Reject d)
      | Throws => (w, Throws)
      end
  end.

(** The loop body over [vConnect]; the transactions to take out of the pool. *)
Definition connect_one (env : chain_env) (pool : CTxMemPool) (w : working) (pindex : chain) : working * outcome (list CTransaction) :=
  match pindex with
  | [] => (w, Throws)
  | e :: _ =>
      match read_block env e with
      | None => (w, Reject 0)
      | Some b => let '(w, r) := connect_block env pool w pindex b in (w, obind r (fun _ => Accept (vtx b)))
      end
  end.

(** A loop that collects transactions and ends where its body fails. *)
Fixpoint collect {A} (f : working -> A -> working * outcome (list CTransaction)) (l : list A) (w : working)
    : working * outcome (list CTransaction) :=
  match l with
  | [] => (w, Accept [])
  | x :: l' =>
      let '(w, r) := f w x in
      match r with
      | Accept txs => let '(w, r) := collect f l' w in (w, obind r (fun more => Accept (txs ++ more)))
      | Reject d => (w, Reject d)
      | Throws => (w, Throws)
      end
  end.

Definition disconnect_head (env : chain_env) (w : working) (pindex : chain) : working * outcome (list CTransaction) :=
  match pindex with [] => (w, Throws) | e :: _ => disconnect_one env w e end.

(** ** [Reorganize] up to the commit *)

Definition reorganize (env : chain_env) (pool : CTxMemPool) (w : working) (best pindexNew : chain)
    : working * outcome (chain * list CTransaction * list CTransaction) :=
  match find_fork best pindexNew with
  | None => (w, Reject 0)
  | Some pfork =>
      let '(w, r) := collect (disconnect_head env) (above pfork best) w in
      match r with
      | Accept vResurrect =>
          let '(w, r) := collect (connect_one env pool) (rev (above pfork pindexNew)) w in
          (w, obind r (fun vDelete => Accept (pfork, vResurrect, vDelete)))
      | Reject d => (w, Reject d)
      | Throws => (w, Throws)
      end
  end.

(** [pprev->pnext] of the blocks of a list of pointers. *)
Definition set_pnext (next : CBlockIndex -> option Z) (m : gmap Z Z) (l : list chain) : gmap Z Z :=
  fold_left (fun m c => match c with e :: p :: _ => (match next e with Some h => <[bi_hash p := h]> m | None => delete (bi_hash p) m end) | _ => m end) l m.

Definition resurrect (env : chain_env) (height : Z) (c : chain) (w : working) (pool : CTxMemPool) (tx : CTransaction) : CTxMemPool :=
  match accept {| nBestHeight := height; best_chain := c; MemPool.fTestNet := fTestNet (ce_block env);
                  fEnforceCanonical := ce_fEnforceCanonical env; rate_limited := ce_rate_limited env;
                  db := w_db w; on_disk := read_tx env |} pool tx false with
  | Accept (Some p) => p
  | _ => pool
  end.

Definition drop_tx (pool : CTxMemPool) (tx : CTransaction) : CTxMemPool := removeConflicts (remove pool tx false) tx.

(** The state after [TxnAbort]: the database as before, the rest as it is. *)
Definition aborted (s : chain_state) (w : working) (pindexNew : chain) : chain_state := {|
  cs_work := {| w_db := w_db (cs_work s); w_mw := w_mw w; w_moneys := w_moneys w; w_setStakeSeen := w_setStakeSeen w |};
  cs_hashBestChain := cs_hashBestChain s; pindexGenesisBlock := pindexGenesisBlock s; pindexBest := pindexBest s;
  cs_pnext := cs_pnext s; cs_mempool := cs_mempool s;
  nBestInvalidTrust := match pindexNew with e :: _ => Z.max (nChainTrust e) (nBestInvalidTrust s) | [] => nBestInvalidTrust s end |}.

Definition Reorganize (env : chain_env) (s : chain_state) (pindexNew : chain) : chain_state * outcome unit :=
  let '(w, r) := reorganize env (cs_mempool s) (cs_work s) (pindexBest s) pindexNew in
  match r with
  | Reject d => (aborted s w [], Reject d)
  | Throws => (aborted s w [], Throws)
  | Accept (pfork, vResurrect, vDelete) =>
      let pnext := set_pnext (fun _ => None) (cs_pnext s) (above pfork (pindexBest s)) in
      let pnext := set_pnext (fun e => Some (bi_hash e)) pnext (rev (above pfork pindexNew)) in
      let pool := fold_left (resurrect env (best_height s) (pindexBest s) w) vResurrect (cs_mempool s) in
      let pool := fold_left drop_tx vDelete pool in
      ({| cs_work := w; cs_hashBestChain := match pindexNew with e :: _ => bi_hash e | [] => 0 end;
          pindexGenesisBlock := pindexGenesisBlock s; pindexBest := pindexBest s;
          cs_pnext := pnext; cs_mempool := pool; nBestInvalidTrust := nBestInvalidTrust s |}, Accept tt)
  end.

(** ** [SetBestChain] *)

Definition SetBestChainInner (env : chain_env) (s : chain_state) (b : CBlock) (pindexNew : chain) : chain_state * outcome unit :=
  let '(w, r) := connect_block env (cs_mempool s) (cs_work s) pindexNew b in
  match r with
  | Reject d => (aborted s w pindexNew, Reject d)
  | Throws => (aborted s w [], Throws)
  | Accept _ =>
      ({| cs_work := w; cs_hashBestChain := GetBlockHash b; pindexGenesisBlock := pindexGenesisBlock s; pindexBest := pindexBest s;
          cs_pnext := set_pnext (fun e => Some (bi_hash e)) (cs_pnext s) [pindexNew];
          cs_mempool := fold_left (fun pool tx => remove pool tx false) (vtx b) (cs_mempool s);
          nBestInvalidTrust := nBestInvalidTrust s |}, Accept tt)
  end.

(** [pindexIntermediate] and the entries above it, the last first. *)
Fixpoint intermediate (trust : Z) (pindexNew : chain) : list chain * chain :=
  match pindexNew with
  | e :: ((p :: _) as pprev) =>
      if trust <? nChainTrust p then let '(l, c) := intermediate trust pprev in (pindexNew :: l, c) else ([], pindexNew)
  | _ => ([], pindexNew)
  end.

(** The loop that connects the postponed blocks; it ends at the first that fails. *)
Fixpoint postponed (env : chain_env) (s : chain_state) (l : list chain) : chain_state :=
  match l with
  | [] => s
  | [] :: l' => s
  | (e :: pprev) :: l' =>
      match read_block env e with
      | None => s
      | Some b =>
          let '(s, r) := SetBestChainInner env s b (e :: pprev) in
          match r with Accept _ => postponed env s l' | _ => s end
      end
  end.

Definition set_best (s : chain_state) (pindexNew : chain) : chain_state := {|
  cs_work := cs_work s; cs_hashBestChain := cs_hashBestChain s; pindexGenesisBlock := pindexGenesisBlock s; pindexBest := pindexNew;
  cs_pnext := cs_pnext s; cs_mempool := cs_mempool s; nBestInvalidTrust := nBestInvalidTrust s |}.

Definition SetBestChain (env : chain_env) (s : chain_state) (b : CBlock) (pindexNew : chain) : chain_state * outcome unit :=
  match pindexNew with
  | [] => (s, Throws)
  | e :: _ =>
      if bool_decide (pindexGenesisBlock s = None) && (nHeight e =? 0) then
        ({| cs_work := cs_work s; cs_hashBestChain := GetBlockHash b; pindexGenesisBlock := Some (bi_hash e); pindexBest := pindexNew;
            cs_pnext := cs_pnext s; cs_mempool := cs_mempool s; nBestInvalidTrust := nBestInvalidTrust s |}, Accept tt)
      else if hashPrevBlock (header b) =? match pindexBest s with t :: _ => bi_hash t | [] => 0 end then
        let '(s', r) := SetBestChainInner env s b pindexNew in
        match r with Accept _ => (set_best s' pindexNew, Accept tt) | Reject d => (s', Reject d) | Throws => (s', Throws) end
      else
        let '(vpindexSecondary, pindexIntermediate) := intermediate (best_trust s) pindexNew in
        let '(s', r) := Reorganize env s pindexIntermediate in
        match r with
        | Accept _ => (set_best (postponed env s' (rev vpindexSecondary)) pindexNew, Accept tt)
        | Reject _ => (aborted s (cs_work s') pindexNew, Reject 0)
        | Throws => (aborted s (cs_work s') [], Throws)
        end
  end.

End chain.

(** * Properties *)

(** ** The fork *)

(** Heights count the entries below, down to zero. *)
Fixpoint numbered (c : chain) : Prop :=
  match c with [] => True | e :: pprev => nHeight e = len pprev /\ numbered pprev end.

(** Equal hashes are those of one entry. *)
Definition agree (c d : chain) : Prop := forall l1 x l2 y, c = l1 ++ x -> d = l2 ++ y -> same x y = true -> x = y.

Lemma numbered_app l c : numbered (l ++ c) -> numbered c.
Proof. induction l as [|e l IH]; [done|]. intros [_ Hn]. by apply IH. Qed.

Lemma lower_spec h d :
  numbered d -> 0 <= h -> d <> [] -> exists l d', lower h d = Some d' /\ d = l ++ d' /\ d' <> [] /\ len d' = Z.min (len d) (h + 1).
Proof.
  intros Hn Hh. induction d as [|e d IH]; [done|]. intros _. destruct Hn as [He Hn]. cbn [lower]. rewrite He, len_cons.
  pose proof (len_pos d). destruct (Z.ltb_spec h (len d)) as [Hlt|Hle].
  - destruct IH as (l & d' & -> & -> & Hne & Hlen); [done|by intros ->; change (len (@nil CBlockIndex)) with 0 in Hlt; lia|].
    exists (e :: l), d'. split_and!; [done..|]. rewrite len_app in *. lia.
  - exists [], (e :: d). split_and!; [done..|]. rewrite len_cons. lia.
Qed.

Lemma same_refl c : same c c = true.
Proof. destruct c; cbn; [done|]. apply Z.eqb_refl. Qed.

(** A chain ends with another one. *)
Definition ends (d c : chain) : Prop := exists l, d = l ++ c.

Lemma ends_shorter l d c : ends (l ++ d) c -> len c <= len d -> ends d c.
Proof.
  intros [k E] Hl. apply app_eq_inv in E as [(x & -> & ->)|(x & -> & ->)]; [|by exists x].
  rewrite len_app in Hl. exists []. destruct x; [done|]. rewrite len_cons in Hl. pose proof (len_pos x). lia.
Qed.

(** The fork is the longest end that both chains share. *)
Lemma find_fork_spec c d g :
  numbered c -> numbered d -> agree c d -> last c = Some g -> last d = Some g ->
  exists f a b, find_fork c d = Some f /\ c = a ++ f /\ d = b ++ f /\ f <> [] /\
    (forall a1 e a2, a = a1 ++ e :: a2 -> ~ ends d (e :: a2 ++ f)).
Proof.
  revert d. induction c as [|e c IH]; [done|]. intros d Hc Hd Ha Hg Hgd. cbn [find_fork].
  destruct (same (e :: c) d) eqn:Es.
  { apply (Ha [] (e :: c) [] d) in Es as <-; [|done..]. exists (e :: c), [], []. split_and!; [done..|]. by intros []. }
  destruct Hc as [He Hc]. pose proof (len_pos c).
  assert (d <> []) as Hdn by (by intros ->). destruct (lower_spec (nHeight e) d Hd ltac:(lia) Hdn) as (l & d' & -> & -> & Hdn' & Hlen).
  destruct (same (e :: c) d') eqn:Es'.
  { apply (Ha [] (e :: c) l d') in Es' as <-; [|done..]. exists (e :: c), [], l. split_and!; [done..|]. by intros []. }
  assert (last d' = Some g) as Hgd' by (rewrite last_app in Hgd; destruct (last d') eqn:El; [done|by apply last_None in El]).
  destruct c as [|e' c].
  - exfalso. change (len (@nil CBlockIndex)) with 0 in *. rewrite He in Hlen. pose proof (len_pos d').
    destruct d' as [|x [|y d']]; [done| |rewrite !len_cons in Hlen; pose proof (len_pos d'); lia].
    cbn in Hgd', Hg. injection Hgd' as ->. injection Hg as ->. by rewrite same_refl in Es'.
  - destruct (IH d') as (f & a & b & Ef & Ec & Ed & Hf & Hmax); [done|by eapply numbered_app| |by rewrite last_cons_cons in Hg|done|].
    + intros l1 x l2 y E1 E2. apply (Ha (e :: l1) x (l ++ l2) y); [by rewrite E1|]. by rewrite E2, app_assoc.
    + exists f, (e :: a), (l ++ b). rewrite Ef, Ec. split_and!; [done|done|by rewrite Ed, app_assoc|done|].
      assert (forall s, ends (l ++ d') s -> len s <= len (e :: e' :: c) -> ends d' s) as Hin.
      { intros s Hs Hl. eapply ends_shorter; [exact Hs|]. destruct Hs as [k Ek]. apply (f_equal len) in Ek.
        pose proof (len_pos k). rewrite He, !len_cons, ?len_app in *. pose proof (len_pos l). lia. }
      intros [|x a1] e1 a2 Ea Hends; injection Ea as <- Ea; rewrite Ec in Hin; (apply Hin in Hends;
        [|rewrite Ea, !len_cons, !len_app, ?len_cons; try pose proof (len_pos a1); lia]).
      * destruct Hends as [k Ek]. rewrite <-Ea, <-Ec in Ek. assert (len k <= 0) as Hk by (rewrite Ek, len_app, He, len_cons in Hlen; lia).
        destruct k; [|rewrite len_cons in Hk; pose proof (len_pos k); lia]. rewrite Ek in Es'. by rewrite same_refl in Es'.
      * by eapply Hmax.
Qed.

(** The pointers above the fork. *)
Fixpoint tips (a f : chain) : list chain := match a with [] => [] | e :: a' => (e :: a' ++ f) :: tips a' f end.

Lemma above_tips a f : numbered (a ++ f) -> f <> [] -> agree (a ++ f) (a ++ f) -> above f (a ++ f) = tips a f.
Proof.
  intros Hn Hf Ha. induction a as [|e a IH]; cbn [app].
  - destruct f; [done|]. cbn [above]. by rewrite same_refl.
  - cbn [above tips]. destruct (same (e :: a ++ f) f) eqn:Es.
    + exfalso. apply (Ha [] _ (e :: a) f) in Es; [|done..]. apply (f_equal length) in Es. cbn in Es. rewrite length_app in Es. lia.
    + f_equal. apply IH; [by destruct Hn|]. intros l1 x l2 y E1 E2. apply (Ha (e :: l1) x (e :: l2) y); cbn; by f_equal.
Qed.

(** ** The abstract specification

    The state a chain stands for: its blocks, read from disk, connected one after
    the other on an empty index above the first block, which is not connected.
    [good] is what is asked of every connection. *)

Section replay.
Context `{OpenSSLBN} `{OpenSSLBNArith} `{Sha256} `{ScriptHashes} `{OpenSSLEC} `{Secp256k1} `{HeaderHash}.
Context (env : chain_env).

Inductive replay (good : store -> CMWState -> chain -> CBlock -> Prop) : chain -> gmap Z CTxIndex -> CMWState -> Prop :=
| replay_first g : replay good [g] ∅ fresh_state
| replay_block e pprev b st mw nPrevSupply r :
    replay good pprev (txdb st) mw -> ReadFromDisk st = read_tx env -> read_block env e = Some b ->
    ConnectBlock (ce_block env) st mw (e :: pprev) nPrevSupply false b = Accept r ->
    good st mw (e :: pprev) b -> replay good (e :: pprev) (cr_txdb r) (cr_mw r).

Definition any (_ : store) (_ : CMWState) (_ : chain) (_ : CBlock) : Prop := True.
(** The blocks that are not on the new chain can be undone. *)
Definition undoable (new : chain) (st : store) (mw : CMWState) (c : chain) (b : CBlock) : Prop :=
  ends new c \/ match c with e :: _ => reversible (txdb st) mw e b | [] => True end.

Lemma replay_any good c db mw : replay good c db mw -> replay any c db mw.
Proof. induction 1 as [g|e pprev b st mw p r _ IH E1 E2 E3 _]; econstructor; eauto. exact I. Qed.

Definition view (w : working) : gmap Z CTxIndex * CMWState := (w_db w, w_mw w).

(** Connecting a block on the state of its chain gives the state of the longer one. *)
Lemma connect_one_replay pool w c w' r :
  connect_one env pool w c = (w', r) -> match c with [] => False | _ :: pprev => replay any pprev (w_db w) (w_mw w) end ->
  match r with Accept _ => replay any c (w_db w') (w_mw w') | _ => w_db w' = w_db w /\ w_mw w' = w_mw w end.
Proof.
  destruct c as [|e pprev]; [done|]. cbn [connect_one]. intros E Hr. destruct (read_block env e) as [b|] eqn:Eb; [|by injection E as <- <-].
  unfold connect_block in E. destruct (ConnectBlock _ _ _ _ _ _ _) as [q|d|] eqn:Ec; injection E as <- <-; [|done..].
  cbn [obind w_db w_mw]. eapply (replay_block any e pprev b (work_store env pool w)); [exact Hr|done|exact Eb|exact Ec|exact I].
Qed.

Lemma connect_all_replay pool l c w w' r :
  collect (connect_one env pool) (rev (tips l c)) w = (w', r) -> replay any c (w_db w) (w_mw w) ->
  match r with
  | Accept _ => replay any (l ++ c) (w_db w') (w_mw w')
  | _ => exists l1 l2, l = l1 ++ l2 /\ replay any (l2 ++ c) (w_db w') (w_mw w')
  end.
Proof.
  revert w w' r. induction l as [|e l IH]; intros w w' r E Hr; cbn [tips rev collect app] in E |- *.
  { injection E as <- <-. exact Hr. }
  assert (forall l1 l2 w, collect (connect_one env pool) (l1 ++ l2) w =
    let '(w1, r1) := collect (connect_one env pool) l1 w in
    match r1 with Accept a => let '(w2, r2) := collect (connect_one env pool) l2 w1 in (w2, obind r2 (fun a' => Accept (a ++ a'))) | Reject d => (w1, Reject d) | Throws => (w1, Throws) end) as Happ.
  { clear. induction l1 as [|x l1 IH]; intros l2 w; cbn [collect app].
    - destruct (collect _ l2 w) as [w2 r2]. by destruct r2.
    - destruct (connect_one env pool w x) as [w1 r1]. destruct r1 as [a| |]; [|done..]. rewrite IH. destruct (collect _ l1 w1) as [w2 r2].
      destruct r2 as [a2| |]; cbn; [|done..]. destruct (collect _ l2 w2) as [w3 r3]. destruct r3; cbn; [by rewrite app_assoc|done..]. }
  rewrite Happ in E. destruct (collect (connect_one env pool) (rev (tips l c)) w) as [w1 r1] eqn:E1. specialize (IH _ _ _ E1 Hr).
  destruct r1 as [a| |].
  - cbn [collect] in E. destruct (connect_one env pool w1 (e :: l ++ c)) as [w2 r2] eqn:E2. pose proof (connect_one_replay _ _ _ _ _ E2 IH) as Hc.
    destruct r2 as [a2| |]; injection E as <- <-; cbn [obind]; [exact Hc|..].
    + exists [e], l. destruct Hc as [-> ->]. done.
    + exists [e], l. destruct Hc as [-> ->]. done.
  - injection E as <- <-. destruct IH as (l1 & l2 & -> & Hl). by exists (e :: l1), l2.
  - injection E as <- <-. destruct IH as (l1 & l2 & -> & Hl). by exists (e :: l1), l2.
Qed.

(** ** Disconnecting *)

Section undo.
Context `{!SecpLaws} `{!SecpGroup}.

Lemma disconnect_one_replay new w e pprev w' r :
  disconnect_head env w (e :: pprev) = (w', r) -> replay (undoable new) (e :: pprev) (w_db w) (w_mw w) -> pprev <> [] ->
  ~ ends new (e :: pprev) -> (exists txs, r = Accept txs) /\ replay (undoable new) pprev (w_db w') (w_mw w').
Proof.
  intros E Hr Hp Hx. cbn [disconnect_head] in E. unfold disconnect_one in E.
  inversion Hr as [g Eg Edb Emw|e' pprev' b st mw p q Hprev Hread Eb Ec [?|Hgood] Ee Edb Emw]; [congruence|done|].
  rewrite Eb in E. rewrite <-Edb, <-Emw, (block_roundtrip _ _ _ _ _ _ _ _ Ec Hgood) in E. injection E as <- <-. cbn [obind w_db w_mw].
  split; [by eexists|exact Hprev].
Qed.

Lemma disconnect_all_replay new a f w w' r :
  collect (disconnect_head env) (tips a f) w = (w', r) -> replay (undoable new) (a ++ f) (w_db w) (w_mw w) -> f <> [] ->
  (forall a1 e a2, a = a1 ++ e :: a2 -> ~ ends new (e :: a2 ++ f)) ->
  (exists txs, r = Accept txs) /\ replay (undoable new) f (w_db w') (w_mw w').
Proof.
  revert w w' r. induction a as [|e a IH]; intros w w' r E Hr Hf Hx; cbn [tips collect app] in *.
  { injection E as <- <-. split; [by eexists|exact Hr]. }
  destruct (disconnect_head env w (e :: a ++ f)) as [w1 r1] eqn:E1.
  destruct (disconnect_one_replay _ _ _ _ _ _ E1 Hr) as [(txs & ->) Hr1]; [by destruct a, f|by apply (Hx [])|].
  destruct (collect (disconnect_head env) (tips a f) w1) as [w2 r2] eqn:E2. destruct (IH _ _ _ E2 Hr1 Hf (fun a1 x a2 Ea => Hx (e :: a1) x a2 (f_equal (cons e) Ea))) as [(more & ->) Hr2].
  injection E as <- <-. cbn [obind]. split; [by eexists|exact Hr2].
Qed.

(** ** [Reorganize] *)

(** The two chains are paths of one tree of entries. *)
Record branches (c d : chain) : Prop := {
  br_numbered : numbered c /\ numbered d;
  br_agree : agree c d /\ agree c c /\ agree d d;
  br_root : exists g, last c = Some g /\ last d = Some g }.

Lemma reorganize_replay pool w best new w' r :
  reorganize env pool w best new = (w', r) -> branches best new -> replay (undoable new) best (w_db w) (w_mw w) ->
  exists a b f, best = a ++ f /\ new = b ++ f /\ f <> [] /\
    match r with
    | Accept _ => replay any new (w_db w') (w_mw w')
    | _ => exists l1 l2, b = l1 ++ l2 /\ replay any (l2 ++ f) (w_db w') (w_mw w')
    end.
Proof.
  intros E [[Nb Nn] (Abn & Abb & Ann) (g & Gb & Gn)] Hr.
  destruct (find_fork_spec best new g Nb Nn Abn Gb Gn) as (f & a & b & Ef & -> & -> & Hf & Hx). unfold reorganize in E. rewrite Ef in E.
  rewrite !above_tips in E by done. destruct (collect (disconnect_head env) (tips a f) w) as [w1 r1] eqn:E1.
  destruct (disconnect_all_replay _ _ _ _ _ _ E1 Hr Hf Hx) as [(txs & ->) Hr1].
  destruct (collect (connect_one env pool) (rev (tips b f)) w1) as [w2 r2] eqn:E2.
  pose proof (connect_all_replay _ _ _ _ _ _ E2 (replay_any _ _ _ _ Hr1)) as Hc. exists a, b, f.
  split; [done|]. split; [done|]. split; [done|]. destruct r2 as [del| |]; injection E as <- <-; exact Hc.
Qed.

End undo.

(** ** Postponed blocks *)

(** The pointers of [l] go up from [c] to [top], one entry at a time. *)
Fixpoint climbs (c : chain) (l : list chain) (top : chain) : Prop :=
  match l with [] => c = top | x :: l' => (exists e, x = e :: c) /\ climbs x l' top end.

Lemma climbs_snoc c l d e : climbs c l d -> climbs c (l ++ [e :: d]) (e :: d).
Proof. revert c. induction l as [|x l IH]; intros c; cbn; [intros ->; eauto|]. intros [Hx Hl]. split; [done|]. by apply IH. Qed.

Lemma climbs_tips d c : climbs c (rev (tips d c)) (d ++ c).
Proof. induction d as [|e d IH]; [done|]. cbn [tips rev app]. by apply climbs_snoc. Qed.

Lemma climbs_app c l top : climbs c l top -> exists d, top = d ++ c.
Proof.
  revert c. induction l as [|x l IH]; intros c; cbn; [intros <-; by exists []|]. intros [[e ->] Hl].
  apply IH in Hl as [d ->]. exists (d ++ [e]). by rewrite <-app_assoc.
Qed.

Lemma intermediate_tips trust c l m : intermediate trust c = (l, m) -> exists d, c = d ++ m /\ l = tips d m /\ (c <> [] -> m <> []).
Proof.
  revert l m. induction c as [|e c IH]; intros l m; cbn [intermediate]; [intros [= <- <-]; by exists []|].
  destruct c as [|p c]; [intros [= <- <-]; by exists []|]. destruct (trust <? nChainTrust p); [|intros [= <- <-]; by exists []].
  destruct (intermediate trust (p :: c)) as [l' m'] eqn:Ei. intros [= <- <-]. destruct (IH _ _ eq_refl) as (d & Ed & -> & Hm).
  exists (e :: d). cbn [tips app]. rewrite <-Ed. split_and!; [done|done|]. intros _. by apply Hm.
Qed.

Lemma inner_replay s b e c s' r :
  SetBestChainInner env s b (e :: c) = (s', r) -> read_block env e = Some b ->
  replay any c (w_db (cs_work s)) (w_mw (cs_work s)) ->
  match r with
  | Accept _ => replay any (e :: c) (w_db (cs_work s')) (w_mw (cs_work s'))
  | _ => w_db (cs_work s') = w_db (cs_work s) /\ w_mw (cs_work s') = w_mw (cs_work s) /\ pindexBest s' = pindexBest s /\
         cs_hashBestChain s' = cs_hashBestChain s /\ cs_pnext s' = cs_pnext s /\ cs_mempool s' = cs_mempool s
  end.
Proof.
  intros E Eb Hr. unfold SetBestChainInner in E. destruct (connect_block env (cs_mempool s) (cs_work s) (e :: c) b) as [w r1] eqn:E1.
  pose proof (connect_one_replay (cs_mempool s) (cs_work s) (e :: c) w (obind r1 (fun _ => Accept (vtx b)))) as Hc.
  cbn [connect_one] in Hc. rewrite Eb, E1 in Hc. specialize (Hc eq_refl Hr).
  destruct r1 as [u| |]; injection E as <- <-; cbn [obind] in Hc; [exact Hc|..]; destruct Hc as [H1' H2']; cbn; split_and!; done.
Qed.

Lemma postponed_replay l s c top :
  climbs c l top -> replay any c (w_db (cs_work s)) (w_mw (cs_work s)) ->
  exists c' d, top = d ++ c' /\ replay any c' (w_db (cs_work (postponed env s l))) (w_mw (cs_work (postponed env s l))) /\
    (exists d', c' = d' ++ c) /\ (l = [] -> d = []).
Proof.
  revert s c. induction l as [|x l IH]; intros s c; cbn [climbs postponed].
  { intros <- Hr. exists c, []. split_and!; [done|exact Hr|by exists []|done]. }
  intros [[e ->] Hl] Hr. pose proof (climbs_app _ _ _ Hl) as (d & Ed).
  assert (top = (d ++ [e]) ++ c) as Etop by (by rewrite <-app_assoc).
  destruct (read_block env e) as [b|] eqn:Eb; [|exists c, (d ++ [e]); split_and!; [done|exact Hr|by exists []|done]].
  destruct (SetBestChainInner env s b (e :: c)) as [s1 r1] eqn:E1. pose proof (inner_replay _ _ _ _ _ _ E1 Eb Hr) as Hi.
  destruct r1 as [u| |].
  - destruct (IH s1 (e :: c) Hl Hi) as (c' & d1 & Et & Hr' & (d2 & Ec') & _). exists c', d1. split_and!; [done|exact Hr'| |done].
    exists (d2 ++ [e]). by rewrite <-app_assoc.
  - destruct Hi as (Hdb & Hmw & _). exists c, (d ++ [e]). rewrite Hdb, Hmw. split_and!; [done|exact Hr|by exists []|done].
  - destruct Hi as (Hdb & Hmw & _). exists c, (d ++ [e]). rewrite Hdb, Hmw. split_and!; [done|exact Hr|by exists []|done].
Qed.

Lemma agree_suffix c l d : agree c (l ++ d) -> agree c d.
Proof. intros Ha l1 x l2 y E1 E2. apply (Ha l1 x (l ++ l2) y E1). by rewrite E2, app_assoc. Qed.

Lemma branches_suffix c l d : branches c (l ++ d) -> d <> [] -> branches c d.
Proof.
  intros [[N1 N2] (A1 & A2 & A3) (g & G1 & G2)] Hd. split.
  - split; [done|by eapply numbered_app].
  - split; [by eapply agree_suffix|]. split; [done|]. intros l1 x l2 y E1 E2.
    apply (A3 (l ++ l1) x (l ++ l2) y); [by rewrite <-app_assoc, <-E1|by rewrite <-app_assoc, <-E2].
  - exists g. split; [done|]. rewrite last_app in G2. destruct (last d) eqn:E; [done|]. by apply last_None in E.
Qed.

(** The block handed to [SetBestChain] is the one of the new entry, and the entry
    below is the one its header names. *)
Definition linked (b : CBlock) (new : chain) : Prop :=
  exists e p pprev, new = e :: p :: pprev /\ hashPrevBlock (header b) = bi_hash p /\ read_block env e = Some b.

Section best.
Context `{!SecpLaws} `{!SecpGroup}.

(** A block on the old best one. *)
Lemma next_block best b new :
  linked b new -> branches best new -> hashPrevBlock (header b) = match best with t :: _ => bi_hash t | [] => 0 end ->
  exists e, new = e :: best /\ read_block env e = Some b.
Proof.
  intros (e & p & pprev & -> & Hh & Eb) [_ (Abn & _) (g & G1 & _)] Hp. exists e. split; [|exact Eb]. f_equal. symmetry.
  destruct best as [|x l]; [done|]. apply (Abn [] _ [e] _); [done..|]. cbn. apply Z.eqb_eq. congruence.
Qed.

(** A reorganisation, as [SetBestChain] uses it. *)
Lemma Reorganize_replay s new s' r :
  Reorganize env s new = (s', r) -> branches (pindexBest s) new -> replay (undoable new) (pindexBest s) (w_db (cs_work s)) (w_mw (cs_work s)) ->
  match r with
  | Accept _ => replay any new (w_db (cs_work s')) (w_mw (cs_work s'))
  | _ => w_db (cs_work s') = w_db (cs_work s) /\ exists l c db, new = l ++ c /\ replay any c db (w_mw (cs_work s'))
  end.
Proof.
  intros E Hb Hr. unfold Reorganize in E. destruct (reorganize _ _ _ _ _) as [w r1] eqn:E1.
  destruct (reorganize_replay _ _ _ _ _ _ E1 Hb Hr) as (a & b & f & _ & -> & _ & Hc).
  destruct r1 as [[[pfork vR] vD]|d|]; injection E as <- <-; [exact Hc|..]; (split; [done|]); destruct Hc as (l1 & l2 & -> & Hc);
    exists l1, (l2 ++ f), (w_db w); (split; [by rewrite <-app_assoc|exact Hc]).
Qed.



End best.

(** ** The supply of a chain *)

Section supply.
Context (tx_of : Z -> CTransaction).

(** What [no_inflation] asks of a block. *)
Definition sound_block (st : store) (_ : CMWState) (c : chain) (b : CBlock) : Prop :=
  match c with
  | [] => False
  | e :: _ =>
      block_on_disk tx_of st e (first_tx_pos (bi_nBlockPos e) (len (vtx b))) (vtx b) /\ Forall machine_tx (vtx b) /\
      (IsProofOfStake b = false -> existsb IsCoinStake (vtx b) = false)
  end.

Lemma replay_not_empty good db mw : ~ replay good [] db mw.
Proof. inversion 1. Qed.

(** C3. Let a chain, with its heights in order, be replayed from its first block, each
    block meeting what [no_inflation] asks: its transactions are read from disk as
    written, the fields fit the machine, and a block without stake has no coinstake.
    Then the unspent outputs are worth at most a billion coins, never less than nothing,
    and nothing before the second block. *)
Theorem chain_supply_bounded c db mw :
  replay sound_block c db mw -> numbered c ->
  0 <= worth tx_of db <= MAX_MONEY /\ (len c <= 1 -> worth tx_of db = 0).
Proof.
  intros Hr. induction Hr as [g|e pprev b st mw p r Hr IH E1 E2 E3 (Hd & Hm & Hs)]; intros Hn.
  { split; [|done]. by vm_compute. }
  destruct Hn as [He Hn]. destruct (IH Hn) as [Hw Hz]. pose proof (connect_worth _ _ _ _ _ _ _ _ _ E3 Hd Hm Hs (proj2 Hw)) as Hc.
  assert (pprev <> []) as Hp by (intros ->; by apply replay_not_empty in Hr). rewrite len_cons.
  destruct pprev as [|x l]; [done|]. rewrite len_cons in *. pose proof (len_pos l). split; [|lia]. split; [lia|].
  transitivity (worth tx_of (txdb st) + (if IsProofOfStake b then 0 else subsidy (nHeight e))); [lia|].
  assert (1000000000 * COIN = MAX_MONEY) as Em by done. unfold subsidy. rewrite He, Em. assert (0 <= MAX_MONEY) by done.
  destruct (IsProofOfStake b); [lia|]. destruct (Z.eqb_spec (1 + len l) 1) as [Hl|]; [|lia]. rewrite Hz by lia. lia.
Qed.

End supply.

End replay.

(** ** Instances

    A first block, one block on it, and a branch of two blocks with more trust; every
    block has a coinbase alone, and a header's hash is its nonce. *)

Section witnesses.
#[local] Instance toy_sha : Sha256 := toy_sha256.
#[local] Existing Instance z_bn.
#[local] Existing Instance z_arith.
#[local] Existing Instance toy_hashes.
#[local] Existing Instance toy_ec.
#[local] Existing Instance log_secp.
#[local] Existing Instance log_laws.
#[local] Existing Instance log_group.
#[local] Instance nonce_hash : HeaderHash := {| Hash9 := fun s => le_value (drop 76 s) |}.

Definition mined (tag v : Z) : CTransaction :=
  plain_tx [{| prevout := {| hash := 0; n := UINT_MAX |}; scriptSig := [1; tag]; nSequence := UINT_MAX |}] [sample_output v].
Definition toy_block (hash prev v : Z) : CBlock :=
  let l := [mined hash v] in
  {| header := {| bk_nVersion := 1; hashPrevBlock := prev; hashMerkleRoot := BuildMerkleTree (map GetHash l); bk_nTime := 1700000000;
                  nBits := 0x1e0fffff; nNonce := hash |};
     vtx := l; vchBlockSig := []; mwExtBlock := null_mwBlock |}.
Definition toy_entry (h hash trust : Z) : CBlockIndex :=
  {| nHeight := h; bi_nFile := 1; bi_nBlockPos := hash; bi_hash := hash; bi_nTime := 1700000000; bi_nBits := 0x1e0fffff;
     bi_fStake := false; nChainTrust := trust; bi_stake := no_stake |}.

Definition g0 : CBlockIndex := toy_entry 0 1 1.
Definition a1 : CBlockIndex := toy_entry 1 11 2.
Definition b1 : CBlockIndex := toy_entry 1 21 2.
(** The last pays itself [v]. *)
Definition b2 : CBlockIndex := toy_entry 2 22 3.
Definition toy_files (v : Z) (_ p : Z) : option CBlock :=
  if p =? 11 then Some (toy_block 11 1 (1000 * COIN)) else if p =? 21 then Some (toy_block 21 1 (900 * COIN))
  else if p =? 22 then Some (toy_block 22 21 v) else None.
Definition toy_env (v : Z) : chain_env := {|
  ce_block := {| fTestNet := false; nAdjustedTime := 1700000000; fSkipSigs := false; block_time := fun _ _ => None |};
  read_file := toy_files v; read_tx := fun _ => None; ce_fEnforceCanonical := true; ce_rate_limited := false |}.
Definition empty_store : store := {| txdb := ∅; ReadFromDisk := fun _ => None; mempool := ∅ |}.
Definition connected_a1 (v : Z) : outcome connect_result :=
  ConnectBlock (ce_block (toy_env v)) empty_store fresh_state [a1; g0] 0 false (toy_block 11 1 (1000 * COIN)).
Definition result_a1 : connect_result :=
  match connected_a1 0 with Accept r => r | _ => {| cr_txdb := ∅; cr_mw := fresh_state; cr_nMint := 0; cr_nMoneySupply := 0 |} end.
Definition toy_state : chain_state := {|
  cs_work := {| w_db := cr_txdb result_a1; w_mw := cr_mw result_a1; w_moneys := ∅; w_setStakeSeen := ∅ |};
  cs_hashBestChain := 11; pindexGenesisBlock := Some 1; pindexBest := [a1; g0]; cs_pnext := ∅;
  cs_mempool := empty_pool; nBestInvalidTrust := 0 |}.
Definition extend (v : Z) : chain_state * outcome unit := SetBestChain (toy_env v) toy_state (toy_block 22 21 v) [b2; b1; g0].

Lemma extend_zero : extend 0 = ((extend 0).1, Accept tt).
Proof. assert ((extend 0).2 = Accept tt) as E by (vm_compute; reflexivity). destruct (extend 0) as [s r]. cbn [fst snd] in *. by rewrite E. Qed.

Lemma connected_a1_accept v : connected_a1 v = Accept result_a1.
Proof.
  unfold result_a1. change (connected_a1 v) with (connected_a1 0). assert (match connected_a1 0 with Accept _ => true | _ => false end = true) as E by (vm_compute; reflexivity).
  destruct (connected_a1 0); [done|discriminate E..].
Qed.
Lemma ends_cons e d c : ends (e :: d) c -> c = e :: d \/ ends d c.
Proof. intros [[|x l] E]; [by left|]. injection E as _ E. right. by exists l. Qed.
Lemma ends_nil c : ends [] c -> c = [].
Proof. intros [l E]. symmetry in E. by apply app_nil in E as [_ ->]. Qed.

Ltac all_ends :=
  repeat match goal with
  | H : ends [] _ |- _ => apply ends_nil in H; subst
  | H : ends (_ :: _) _ |- _ => apply ends_cons in H; destruct H; subst
  end.

Lemma agree_ends c d : (forall x y, ends c x -> ends d y -> same x y = true -> x = y) -> agree c d.
Proof. intros Ha l1 x l2 y -> ->. apply Ha; by eexists. Qed.

Lemma toy_branches : branches [a1; g0] [b2; b1; g0].
Proof.
  split.
  - repeat split; reflexivity.
  - split_and!; apply agree_ends; intros x y Hx Hy; all_ends; (reflexivity || discriminate).
  - exists g0. split; reflexivity.
Qed.

Lemma toy_linked :
  linked (toy_env 0) (toy_block 22 21 0) [b2; b1; g0] /\ linked (toy_env COIN) (toy_block 22 21 COIN) [b2; b1; g0].
Proof. split; exists b2, b1, [g0]; (split; [reflexivity|]; split; [reflexivity|]; vm_compute; reflexivity). Qed.

Lemma toy_read_a1 v : read_block (toy_env v) a1 = Some (toy_block 11 1 (1000 * COIN)).
Proof. vm_compute. reflexivity. Qed.

Lemma toy_replay v good :
  good empty_store fresh_state [a1; g0] (toy_block 11 1 (1000 * COIN)) ->
  replay (toy_env v) good [a1; g0] (cr_txdb result_a1) (cr_mw result_a1).
Proof.
  intros Hg. eapply (replay_block (toy_env v) good a1 [g0] (toy_block 11 1 (1000 * COIN)) empty_store fresh_state 0 result_a1).
  - apply replay_first.
  - reflexivity.
  - apply toy_read_a1.
  - exact (connected_a1_accept v).
  - exact Hg.
Qed.

Lemma toy_undoable new : undoable new empty_store fresh_state [a1; g0] (toy_block 11 1 (1000 * COIN)).
Proof.
  right. split.
  - discriminate.
  - repeat constructor; vm_compute; discriminate.
  - repeat constructor.
  - intros c q Hl. discriminate Hl.
  - left. reflexivity.
Qed.

Lemma toy_started : pindexGenesisBlock toy_state <> None.
Proof. cbn [pindexGenesisBlock toy_state]. discriminate. Qed.


(** The last block pays itself a coin it has no right to. *)
Lemma extend_coin : (extend COIN).2 <> Accept tt.
Proof. vm_compute. discriminate. Qed.


Definition mined_of (_ : Z) : CTransaction := mined 11 (1000 * COIN).

Lemma toy_sound : sound_block mined_of empty_store fresh_state [a1; g0] (toy_block 11 1 (1000 * COIN)).
Proof.
  split; [|split].
  - split.
    + discriminate.
    + intros h x t Hx. discriminate Hx.
    + intros l1 tx l2 t Hl Ht. destruct l1 as [|y l1]; [|by destruct l1]. vm_compute in Ht. discriminate Ht.
    + repeat constructor.
    + intros h x o Hx. discriminate Hx.
  - repeat constructor; vm_compute; discriminate.
  - reflexivity.
Qed.

Lemma chain_supply_bounded_witness : 0 <= worth mined_of (cr_txdb result_a1) <= MAX_MONEY.
Proof.
  apply (chain_supply_bounded (toy_env 0) mined_of [a1; g0] _ (cr_mw result_a1)).
  - apply toy_replay, toy_sound.
  - repeat split; reflexivity.
Defined.


End witnesses.

End Chain.
