(* ===== verification/Kernel.v ===== *)
(** * The kernel of a stake ([src/kernel.cpp])

    The stake modifiers, their selection from the blocks of an interval, the modifier
    a stake is hashed with, the target of a kernel, the search of a kernel and its
    check.  The index of blocks gives for a hash the entry and those that [pprev]
    leads to; [pnext] gives for a hash that of the next block of the best chain. *)

From Stdlib Require Import Strings.String.
From stdpp Require Import sorting.
From S2P Require Import Prelude Crypto Serialize BigNum BigArith Script Interpreter Standard Mmr MwModels Transactions.
From S2P Require Import Sighash MwState Secp MwCrypto Bulletproofs MwValidation TxInputs Extension Merkle Targets Blocks.
Import Stream BigNum BigArith Script Interpreter Standard MwModels Sighash Transactions TxInputs Targets Blocks.

Module Kernel.

Abbreviation chain := (list CBlockIndex) (only parsing).
Abbreviation block_map := (gmap Z (list CBlockIndex)) (only parsing).

Definition nStakeMaxAge : Z := 25 * 24 * 60 * 60.
Definition nModifierInterval : Z := 60.
Definition MODIFIER_INTERVAL_RATIO : Z := 3.

Definition entry (mapBlockIndex : block_map) (h : uint256) : option CBlockIndex := mapBlockIndex !! h ≫= head.

Definition GetWeight (nIntervalBeginning nIntervalEnd : Z) : Z :=
  Z.min (i64 (i64 (nIntervalEnd - nIntervalBeginning) - nStakeMinAge)) nStakeMaxAge.

(** ** Modifiers *)

(** The last modifier that was generated, with its time. *)
Fixpoint GetLastStakeModifier (pindex : chain) : option (Z * Z) :=
  match pindex with
  | [] => None
  | p :: pprev =>
      if fStakeModifier (bi_stake p) then Some (nStakeModifier (bi_stake p), bi_nTime p) else GetLastStakeModifier pprev
  end.

Definition GetStakeModifierSelectionIntervalSection (nSection : Z) : Z :=
  u32 (nModifierInterval * 63) / u32 (63 + (63 - nSection) * (MODIFIER_INTERVAL_RATIO - 1)).
Definition GetStakeModifierSelectionInterval : Z :=
  fold_left (fun a nSection => i64 (a + GetStakeModifierSelectionIntervalSection nSection)) (map Z.of_nat (seq 0 64)) 0.

(** The loop back to the start of the interval. *)
Fixpoint candidates (nSelectionIntervalStart : Z) (pindex : chain) : list (Z * uint256) :=
  match pindex with
  | [] => []
  | p :: pprev =>
      if nSelectionIntervalStart <=? bi_nTime p then (bi_nTime p, bi_hash p) :: candidates nSelectionIntervalStart pprev else []
  end.

(** [operator<] of pairs, by which [std::sort] orders them. *)
Definition pair_le (a b : Z * uint256) : Prop := a.1 < b.1 \/ a.1 = b.1 /\ a.2 <= b.2.
#[export] Instance pair_le_dec : RelDecision pair_le.
Proof. intros a b. unfold pair_le. apply _. Defined.

Section kernel.
Context `{Sha256}.

Definition selection_hash (nStakeModifierPrev : Z) (pindex : CBlockIndex) : uint256 :=
  let hashProof := if bi_fStake pindex then hashProofOfStake (bi_stake pindex) else bi_hash pindex in
  let hashSelection := sha256_twice (uint256_bytes hashProof ++ le_bytes 8 nStakeModifierPrev) in
  if bi_fStake pindex then Z.shiftr hashSelection 32 else hashSelection.

(** The loop over the candidates; [best] is [hashBest] and [pindexSelected] once
    [fSelected] is set.  [None] where a candidate is not in the index. *)
Fixpoint SelectBlockFromCandidates (mapBlockIndex : block_map) (mapSelectedBlocks : gset Z) (nSelectionIntervalStop nStakeModifierPrev : Z)
    (best : option (uint256 * CBlockIndex)) (vSortedByTimestamp : list (Z * uint256)) : option (option (uint256 * CBlockIndex)) :=
  match vSortedByTimestamp with
  | [] => Some best
  | item :: l =>
      match entry mapBlockIndex item.2 with
      | None => None
      | Some pindex =>
          if bool_decide (is_Some best) && (nSelectionIntervalStop <? bi_nTime pindex) then Some best
          else if bool_decide (bi_hash pindex ∈ mapSelectedBlocks) then
            SelectBlockFromCandidates mapBlockIndex mapSelectedBlocks nSelectionIntervalStop nStakeModifierPrev best l
          else
            let hashSelection := selection_hash nStakeModifierPrev pindex in
            let best :=
              match best with
              | Some (hashBest, _) => if hashSelection <? hashBest then Some (hashSelection, pindex) else best
              | None => Some (hashSelection, pindex)
              end in
            SelectBlockFromCandidates mapBlockIndex mapSelectedBlocks nSelectionIntervalStop nStakeModifierPrev best l
      end
  end.

(** [nStakeModifierNew], [nSelectionIntervalStop] and [mapSelectedBlocks]. *)
Record selection := { sl_new : Z; sl_stop : Z; sl_blocks : gset Z }.

Definition select_round (mapBlockIndex : block_map) (nStakeModifierPrev : Z) (l : list (Z * uint256)) (s : selection) (nRound : Z)
    : option selection :=
  let stop := i64 (sl_stop s + GetStakeModifierSelectionIntervalSection nRound) in
  match SelectBlockFromCandidates mapBlockIndex (sl_blocks s) stop nStakeModifierPrev None l with
  | Some (Some (_, pindex)) =>
      Some {| sl_new := Z.lor (sl_new s) (Z.shiftl (Z.b2z (fEntropyBit (bi_stake pindex))) nRound); sl_stop := stop;
              sl_blocks := {[ bi_hash pindex ]} ∪ sl_blocks s |}
  | _ => None
  end.

(** The modifier of the block after [pindexPrev] and whether it is a new one. *)
Definition ComputeNextStakeModifier (mapBlockIndex : block_map) (pindexPrev : chain) : option (Z * bool) :=
  match pindexPrev with
  | [] => Some (0, true)
  | p :: _ =>
      match GetLastStakeModifier pindexPrev with
      | None => None
      | Some (nStakeModifier, nModifierTime) =>
          if Z.quot (bi_nTime p) nModifierInterval <=? Z.quot nModifierTime nModifierInterval then Some (nStakeModifier, false)
          else
            let start := Z.quot (bi_nTime p) nModifierInterval * nModifierInterval - GetStakeModifierSelectionInterval in
            let l := merge_sort pair_le (rev (candidates start pindexPrev)) in
            let rounds := map Z.of_nat (seq 0 (Nat.min 64 (length l))) in
            match foldl (fun s nRound => s ≫= fun s => select_round mapBlockIndex nStakeModifier l s nRound)
                    (Some {| sl_new := 0; sl_stop := start; sl_blocks := ∅ |}) rounds with
            | None => None
            | Some s => Some (sl_new s, true)
            end
      end
  end.

(** ** The modifier of a kernel *)

(** The loop up the best chain until a modifier is old enough; [Throws] stands for
    running out of fuel and for a link to a block that is not in the index. *)
Fixpoint modifier_walk (fuel : nat) (mapBlockIndex : block_map) (pnext : gmap Z Z) (limit nStakeModifierTime : Z) (pindex : CBlockIndex)
    : outcome Z :=
  match fuel with
  | O => Throws
  | S fuel =>
      if nStakeModifierTime <? limit then
        match pnext !! bi_hash pindex with
        | None => Reject 0
        | Some h =>
            match entry mapBlockIndex h with
            | None => Throws
            | Some pindex =>
                modifier_walk fuel mapBlockIndex pnext limit
                  (if fStakeModifier (bi_stake pindex) then bi_nTime pindex else nStakeModifierTime) pindex
            end
        end
      else Accept (nStakeModifier (bi_stake pindex))
  end.

Definition GetKernelStakeModifier (mapBlockIndex : block_map) (pnext : gmap Z Z) (hashBlockFrom : uint256) : outcome Z :=
  match entry mapBlockIndex hashBlockFrom with
  | None => Reject 0
  | Some pindexFrom =>
      modifier_walk (S (base.size mapBlockIndex)) mapBlockIndex pnext
        (bi_nTime pindexFrom + GetStakeModifierSelectionInterval) (bi_nTime pindexFrom) pindexFrom
  end.

(** ** The hash of a kernel *)

Definition stakeHash (nTimeTx nTxPrevTime : Z) (ss : bytes) (prevoutIndex nTxPrevOffset nTimeBlockFrom : Z) : uint256 :=
  sha256_twice (ss ++ le_bytes 4 nTimeBlockFrom ++ le_bytes 4 nTxPrevOffset ++ le_bytes 4 nTxPrevTime ++
                le_bytes 4 prevoutIndex ++ le_bytes 4 nTimeTx).

Context `{OpenSSLBN} `{OpenSSLBNArith}.

Definition stakeTargetHit (hashProofOfStake : uint256) (nTimeWeight nValueIn bnTargetPerCoinDay : Z) : bool :=
  let bnCoinDayWeight :=
    bn_div (bn_div (bn_mul (CBigNum_long nValueIn) (CBigNum_long nTimeWeight)) (CBigNum_long COIN)) (CBigNum_long (24 * 60 * 60)) in
  let bnTarget := bn_mul bnCoinDayWeight bnTargetPerCoinDay in
  bn_lt (setuint256 hashProofOfStake) bnTarget.

(** The loop over the drift, from the latest time down; the time and the hash that hit. *)
Fixpoint search_kernel (hash_at : Z -> uint256) (hit : uint256 -> bool) (nTimeTx : Z) (drift : nat) : option (Z * uint256) :=
  match drift with
  | O => None
  | S drift' =>
      let nTryTime := u32 (nTimeTx + Z.of_nat drift) in
      if hit (hash_at nTryTime) then Some (nTryTime, hash_at nTryTime) else search_kernel hash_at hit nTimeTx drift'
  end.

(** [nTimeTx] and [hashProofOfStake] where the kernel hits. *)
Definition CheckStakeKernelHash (mapBlockIndex : block_map) (pnext : gmap Z Z) (nBits : Z) (blockFrom : uint256 * Z)
    (nTxPrevOffset : Z) (txPrev : CTransaction) (prevout : COutPoint) (nTimeTx nHashDrift : Z) (fCheck : bool)
    : outcome (Z * uint256) :=
  match vout txPrev !! Z.to_nat (n prevout) with
  | None => Throws
  | Some o =>
      let nTimeBlockFrom := blockFrom.2 in
      if nTimeTx <? nTime txPrev then Reject 0
      else if nTimeTx <? u32 (nTimeBlockFrom + nStakeMinAge) then Reject 0
      else
        let* nStakeModifier := GetKernelStakeModifier mapBlockIndex pnext blockFrom.1 in
        let ss := le_bytes 8 nStakeModifier in
        let hash_at t := stakeHash t (nTime txPrev) ss (n prevout) nTxPrevOffset nTimeBlockFrom in
        let hit h := stakeTargetHit h (GetWeight (nTime txPrev) nTimeTx) (nValue o) (SetCompact nBits) in
        if fCheck then (if hit (hash_at nTimeTx) then Accept (nTimeTx, hash_at nTimeTx) else Reject 0)
        else match search_kernel hash_at hit nTimeTx (Z.to_nat nHashDrift) with Some r => Accept r | None => Reject 0 end
  end.

Context `{ScriptHashes} `{OpenSSLEC} `{HeaderHash}.

(** [read_header] reads the header of a block on disk. *)
Definition CheckProofOfStake (mapBlockIndex : block_map) (pnext : gmap Z Z) (st : store) (read_header : Z -> Z -> option CBlockHeader)
    (tx : CTransaction) (nBits : Z) : outcome uint256 :=
  if negb (IsCoinStake tx) then Reject 0
  else
    match vin tx with
    | [] => Throws
    | txin :: _ =>
        match ReadTxIndex (txdb st) (hash (prevout txin)) with
        | None => Reject 1
        | Some txindex =>
            match ReadFromDisk st (pos txindex) with
            | None => Reject 1
            | Some txPrev =>
                if len (vout txPrev) <=? n (prevout txin) then Reject 1
                else if negb (VerifySignature txPrev tx 0 txin 0) then Reject 100
                else
                  match read_header (nFile (pos txindex)) (nBlockPos (pos txindex)) with
                  | None => Reject 0
                  | Some h =>
                      let blockFrom := (Hash9 (Serialize c_header h), bk_nTime h) in
                      let nTxPrevOffset := u32 (nTxPos (pos txindex) - nBlockPos (pos txindex)) in
                      match CheckStakeKernelHash mapBlockIndex pnext nBits blockFrom nTxPrevOffset txPrev (prevout txin) (nTime tx) 0 true with
                      | Accept (_, hashProofOfStake) => Accept hashProofOfStake
                      | Reject _ => Reject 1
                      | Throws => Throws
                      end
                  end
            end
        end
    end.

(** The flags as the bits of a word. *)
Definition nFlags (pindex : CBlockIndex) : Z :=
  Z.b2z (bi_fStake pindex) + 2 * Z.b2z (fEntropyBit (bi_stake pindex)) + 4 * Z.b2z (fStakeModifier (bi_stake pindex)).

Definition GetStakeModifierChecksum (pindex : chain) : outcome Z :=
  match pindex with
  | [] => Throws
  | p :: pprev =>
      let tail := le_bytes 4 (nFlags p) ++ uint256_bytes (hashProofOfStake (bi_stake p)) ++ le_bytes 8 (nStakeModifier (bi_stake p)) in
      match pprev with
      | [] => if nHeight p =? 0 then Accept (u64 (Z.shiftr (sha256_twice tail) (256 - 32))) else Throws
      | q :: _ => Accept (u64 (Z.shiftr (sha256_twice (le_bytes 4 (nStakeModifierChecksum (bi_stake q)) ++ tail)) (256 - 32)))
      end
  end.

End kernel.

(** * Properties *)

(** ** The search of a kernel *)

Section search.
Context `{Sha256} `{OpenSSLBN} `{OpenSSLBNArith} `{!BNLaws} `{!BNArithLaws}.

Lemma search_kernel_hit hash_at hit t drift t' h :
  search_kernel hash_at hit t drift = Some (t', h) ->
  exists k, 1 <= k <= Z.of_nat drift /\ t' = u32 (t + k) /\ h = hash_at t' /\ hit h = true.
Proof.
  induction drift as [|d IH]; [done|]. cbn [search_kernel]. cbv zeta. destruct (hit (hash_at _)) eqn:Eh.
  - intros [= <- <-]. exists (Z.of_nat (S d)). split; [lia|done].
  - intros (k & Hk & E)%IH. exists k. split; [lia|done].
Qed.

Lemma setuint256_nonneg h : 0 <= setuint256 h.
Proof.
  assert (uint256_bytes h = uint256_bytes (le_value (uint256_bytes h))) as E.
  { unfold uint256_bytes. pose proof (le_bytes_value (le_bytes 32 h) (le_bytes_ok _ _)) as E. by rewrite le_bytes_length in E. }
  pose proof (le_value_range (uint256_bytes h) (le_bytes_ok _ _)) as Hr. rewrite uint256_bytes_length in Hr.
  unfold setuint256. rewrite E. fold (setuint256 (le_value (uint256_bytes h))). rewrite setuint256_value; [lia|exact Hr].
Qed.

Lemma weight_range prev t :
  0 <= prev -> prev + nStakeMinAge <= t -> t < 2 ^ 32 -> GetWeight prev t = Z.min (t - prev - nStakeMinAge) nStakeMaxAge.
Proof. intros. unfold GetWeight, nStakeMinAge in *. rewrite (i64_id (t - prev)) by lia. rewrite i64_id by lia. done. Qed.

(** More weight never misses a target that less weight hits. *)
Lemma target_hit_mono h w1 w2 v target :
  stakeTargetHit h w1 v target = true -> 0 <= w1 <= w2 -> w2 < 2 ^ 63 -> 0 <= v < 2 ^ 63 -> stakeTargetHit h w2 v target = true.
Proof.
  unfold stakeTargetHit. intros E Hw Hw2 Hv. assert (0 < COIN < 2 ^ 63) as Hc by (split; reflexivity).
  rewrite !bn_lt_value, !bn_mul_value, !CBigNum_long_value in * by lia.
  assert (forall w, 0 <= w -> bn_div (bn_div (v * w) COIN) (24 * 60 * 60) = v * w / COIN / (24 * 60 * 60)) as Ed.
  { intros w Hn. assert (0 <= v * w) by nia. rewrite (bn_div_value (v * w) COIN) by lia.
    rewrite bn_div_value; [done|apply Z.div_pos; lia|lia]. }
  rewrite !Ed in * by lia. apply Z.ltb_lt in E. apply Z.ltb_lt. pose proof (setuint256_nonneg h) as Hh.
  assert (0 <= v * w1 / COIN / (24 * 60 * 60)) as H1' by (apply Z.div_pos; [apply Z.div_pos; [nia|lia]|lia]).
  assert (v * w1 / COIN / (24 * 60 * 60) <= v * w2 / COIN / (24 * 60 * 60)) by (apply Z.div_le_mono; [lia|]; apply Z.div_le_mono; [lia|nia]).
  eapply Z.lt_le_trans; [exact E|]. apply Z.mul_le_mono_nonneg_r; [|done]. destruct (Z.le_gt_cases 0 target) as [|Ht]; [done|].
  pose proof (Z.mul_nonneg_nonpos _ target H1' ltac:(lia)). lia.
Qed.

(** A kernel that the search for a stake finds is one that the check of a block
    accepts, with the same hash: the later time the search settles on gives at least
    the weight it was searched with. *)
Theorem kernel_search_checks mapBlockIndex pnext nBits blockFrom nTxPrevOffset txPrev prevout nTimeTx nHashDrift t h o :
  CheckStakeKernelHash mapBlockIndex pnext nBits blockFrom nTxPrevOffset txPrev prevout nTimeTx nHashDrift false = Accept (t, h) ->
  vout txPrev !! Z.to_nat (n prevout) = Some o -> 0 <= nValue o < 2 ^ 63 ->
  0 <= nTime txPrev <= blockFrom.2 -> blockFrom.2 + nStakeMinAge < 2 ^ 32 -> nTimeTx + nHashDrift < 2 ^ 32 ->
  nTimeTx < t <= nTimeTx + nHashDrift /\
  forall drift, CheckStakeKernelHash mapBlockIndex pnext nBits blockFrom nTxPrevOffset txPrev prevout t drift true = Accept (t, h).
Proof.
  intros E Ho Hv Hp Hb Hd. unfold CheckStakeKernelHash in *. rewrite Ho in *. assert (nStakeMinAge = 900) as Ha by done.
  rewrite (u32_id (blockFrom.2 + nStakeMinAge)) in * by lia.
  destruct (Z.ltb_spec nTimeTx (nTime txPrev)); [done|]. destruct (Z.ltb_spec nTimeTx (blockFrom.2 + nStakeMinAge)); [done|].
  destruct (GetKernelStakeModifier _ _ _) as [m|d|]; [|done..]. cbn [obind] in *. cbv zeta in *.
  destruct (search_kernel _ _ _ _) as [[t' h']|] eqn:Es; [|done]. apply Accept_inj in E. injection E as -> ->.
  apply search_kernel_hit in Es as (k & Hk & -> & -> & Hh). rewrite u32_id in * by lia. split; [lia|]. intros drift.
  destruct (Z.ltb_spec (nTimeTx + k) (nTime txPrev)); [lia|]. destruct (Z.ltb_spec (nTimeTx + k) (blockFrom.2 + nStakeMinAge)); [lia|].
  rewrite (target_hit_mono _ _ (GetWeight (nTime txPrev) (nTimeTx + k)) _ _ Hh); [done|..|done].
  - rewrite !weight_range by lia. unfold nStakeMaxAge. lia.
  - rewrite weight_range by lia. unfold nStakeMaxAge. lia.
Qed.
End search.

(** ** The selection of a modifier *)

Section selection.
Context `{Sha256}.
Context (mapBlockIndex : block_map).

(** The items of a list are in the index under their hash, with their time. *)
Definition listed (l : list (Z * uint256)) : Prop :=
  forall x, x ∈ l -> exists p, entry mapBlockIndex x.2 = Some p /\ bi_nTime p = x.1 /\ bi_hash p = x.2.

(** The block of the least hash among those that are left and not later than [stop];
    where all are later, the first of them in time. *)
Definition least_left (m : Z) (l : list (Z * uint256)) (stop : Z) (taken : gset Z) (p : CBlockIndex) : Prop :=
  (bi_nTime p, bi_hash p) ∈ l /\ (bi_hash p ∉ taken) /\ entry mapBlockIndex (bi_hash p) = Some p /\
  (forall x q, x ∈ l -> x.2 ∉ taken -> entry mapBlockIndex x.2 = Some q -> x.1 <= stop -> selection_hash m p <= selection_hash m q) /\
  (stop < bi_nTime p -> forall x, x ∈ l -> x.2 ∉ taken -> bi_nTime p <= x.1).

Definition by_time (l : list (Z * uint256)) : Prop := StronglySorted (fun a b => a.1 <= b.1) l.

(** From a block that is selected the loop goes on to the least of the rest. *)
Lemma select_from l stop m taken h p :
  listed l -> by_time l ->
  exists h' p', SelectBlockFromCandidates mapBlockIndex taken stop m (Some (h, p)) l = Some (Some (h', p')) /\ h' <= h /\
    (h' = h /\ p' = p \/
     h' = selection_hash m p' /\ (bi_nTime p', bi_hash p') ∈ l /\ (bi_hash p' ∉ taken) /\ entry mapBlockIndex (bi_hash p') = Some p' /\
     bi_nTime p' <= stop) /\
    (forall x q, x ∈ l -> x.2 ∉ taken -> entry mapBlockIndex x.2 = Some q -> x.1 <= stop -> h' <= selection_hash m q).
Proof.
  revert h p. induction l as [|x l IH]; intros h p Hl Hs.
  { exists h, p. split; [done|]. split; [lia|]. split; [by left|]. intros y q Hy. by apply not_elem_of_nil in Hy. }
  cbn [SelectBlockFromCandidates]. destruct (Hl x ltac:(set_solver)) as (q & Eq & Et & Eh). rewrite Eq.
  assert (listed l) as Hl' by (intros y Hy; apply Hl; set_solver). inversion Hs as [|? ? Hs' Hx]; subst. rewrite Forall_forall in Hx.
  rewrite bool_decide_true by done. cbn [andb]. destruct (Z.ltb_spec stop (bi_nTime q)) as [Hlt|Hle].
  - exists h, p. split; [done|]. split; [lia|]. split; [by left|]. intros y r [->|Hy]%elem_of_cons _ _ Hy1; [lia|]. specialize (Hx y Hy). lia.
  - destruct (bool_decide_reflect (bi_hash q ∈ taken)) as [Hin|Hin].
    + destruct (IH h p Hl' Hs') as (h' & p' & -> & Hh & Hc & Hm). exists h', p'. split; [done|]. split; [done|]. split.
      * destruct Hc as [|(-> & ? & ?)]; [by left|]. right. set_solver.
      * intros y r [->|Hy]%elem_of_cons Hn; [by rewrite Eh in Hin|by apply Hm].
    + cbv zeta. set (best := if selection_hash m q <? h then (selection_hash m q, q) else (h, p)).
      assert ((if selection_hash m q <? h then Some (selection_hash m q, q) else Some (h, p)) = Some (best.1, best.2)) as ->
        by (unfold best; by destruct (_ <? _)).
      destruct (IH best.1 best.2 Hl' Hs') as (h' & p' & -> & Hh & Hc & Hm). exists h', p'. split; [done|].
      assert (best.1 <= h /\ best.1 <= selection_hash m q) as [Hb1 Hb2] by (unfold best; destruct (Z.ltb_spec (selection_hash m q) h); cbn; lia).
      split; [lia|]. split.
      * destruct Hc as [[-> ->]|(-> & ? & ?)]; [|right; set_solver]. unfold best. destruct (Z.ltb_spec (selection_hash m q) h); cbn; [right|by left].
        rewrite Et, Eh. split_and!; [done|destruct x; set_solver|by rewrite <-Eh|done|lia].
      * intros y r [->|Hy]%elem_of_cons Hn Er Hy1; [|by eapply Hm]. rewrite Eq in Er. injection Er as <-. lia.
Qed.

Lemma select_least l stop m taken :
  listed l -> by_time l -> (exists x, x ∈ l /\ x.2 ∉ taken) ->
  exists h p, SelectBlockFromCandidates mapBlockIndex taken stop m None l = Some (Some (h, p)) /\ least_left m l stop taken p.
Proof.
  induction l as [|x l IH]; intros Hl Hs (y & Hy & Hn); [by apply not_elem_of_nil in Hy|].
  cbn [SelectBlockFromCandidates]. destruct (Hl x ltac:(set_solver)) as (q & Eq & Et & Eh). rewrite Eq.
  assert (listed l) as Hl' by (intros z Hz; apply Hl; set_solver). inversion Hs as [|? ? Hs' Hx]; subst. rewrite Forall_forall in Hx.
  rewrite bool_decide_false by (by intros [? ?]). cbn [andb]. destruct (bool_decide_reflect (bi_hash q ∈ taken)) as [Hin|Hin].
  - destruct IH as (h & p & -> & H1' & H2' & H3' & H4' & H5'); [done|done|exists y; split; [|done]|].
    { apply elem_of_cons in Hy as [->|Hy]; [by rewrite Eh in Hin|done]. }
    exists h, p. split; [done|]. split_and!; [set_solver|done|done|..].
    + intros z r [->|Hz]%elem_of_cons Hz1; [by rewrite Eh in Hin|by apply H4'].
    + intros Hlt z [->|Hz]%elem_of_cons Hz1; [by rewrite Eh in Hin|by apply H5'].
  - cbv zeta. destruct (select_from l stop m taken (selection_hash m q) q Hl' Hs') as (h & p & -> & Hh & Hc & Hm). exists h, p. split; [done|].
    assert (h = selection_hash m p) as -> by (by destruct Hc as [[-> ->]|(-> & _)]). split_and!.
    + destruct Hc as [[_ ->]|(_ & ? & _)]; [rewrite Et, Eh; destruct x; set_solver|set_solver].
    + by destruct Hc as [[_ ->]|(_ & _ & ? & _)].
    + destruct Hc as [[_ ->]|(_ & _ & _ & ? & _)]; [by rewrite Eh|done].
    + intros z r [->|Hz]%elem_of_cons Hz1 Er Hz2; [|by eapply Hm]. rewrite Eq in Er. injection Er as <-. lia.
    + intros Hlt z [->|Hz]%elem_of_cons Hz1; destruct Hc as [[_ ->]|(_ & _ & _ & _ & ?)]; [lia|lia| |lia]. specialize (Hx z Hz). lia.
Qed.

(** The blocks selected in the rounds, and what they make of the modifier. *)
Definition stop_at (start : Z) (nRound : nat) : Z :=
  fold_left (fun a k => i64 (a + GetStakeModifierSelectionIntervalSection k)) (map Z.of_nat (seq 0 (S nRound))) start.

Record selected (m : Z) (l : list (Z * uint256)) (start : Z) (picks : list CBlockIndex) (new : Z) : Prop := {
  sel_distinct : NoDup (bi_hash <$> picks);
  sel_least k p : picks !! k = Some p -> least_left m l (stop_at start k) (list_to_set (bi_hash <$> take k picks)) p;
  sel_positive : 0 <= new;
  sel_bits k : Z.testbit new (Z.of_nat k) = match picks !! k with Some p => fEntropyBit (bi_stake p) | None => false end }.

Lemma left_over (l : list (Z * uint256)) (picks : list CBlockIndex) :
  NoDup l.*2 -> NoDup (bi_hash <$> picks) -> (length picks < length l)%nat -> exists x, x ∈ l /\ x.2 ∉ (list_to_set (bi_hash <$> picks) : gset Z).
Proof.
  intros Hn Hp Hlen. destruct (decide (Forall (fun x : Z * uint256 => x.2 ∈ (list_to_set (bi_hash <$> picks) : gset Z)) l)) as [Hall|Hex].
  - exfalso. assert ((list_to_set l.*2 : gset Z) ⊆ list_to_set (bi_hash <$> picks)) as Hs.
    { intros h [x [-> Hx]]%elem_of_list_to_set%list_elem_of_fmap. rewrite Forall_forall in Hall. by apply Hall. }
    apply subseteq_size in Hs. rewrite !size_list_to_set, !length_fmap in Hs by done. lia.
  - apply not_Forall_Exists in Hex; [|intros ?; apply _]. apply Exists_exists in Hex as (x & Hx & Hn'). by exists x.
Qed.

Lemma rounds_select m l start n :
  listed l -> by_time l -> NoDup l.*2 -> (n <= length l)%nat ->
  exists picks s,
    foldl (fun s nRound => s ≫= fun s => select_round mapBlockIndex m l s nRound)
      (Some {| sl_new := 0; sl_stop := start; sl_blocks := ∅ |}) (map Z.of_nat (seq 0 n)) = Some s /\
    length picks = n /\ sl_blocks s = list_to_set (bi_hash <$> picks) /\
    sl_stop s = fold_left (fun a k => i64 (a + GetStakeModifierSelectionIntervalSection k)) (map Z.of_nat (seq 0 n)) start /\
    selected m l start picks (sl_new s).
Proof.
  intros Hl Hs Hnd. induction n as [|n IH]; intros Hn.
  { exists [], {| sl_new := 0; sl_stop := start; sl_blocks := ∅ |}. split_and!; [done..|]. split; [constructor|done|done|].
    intros k. by rewrite Z.bits_0. }
  destruct IH as (picks & s & E & Hlen & Hb & Hstop & [S1 S2 S3 S4]); [lia|].
  destruct (select_least l (stop_at start n) m (list_to_set (bi_hash <$> picks))) as (h & p & Es & Hp); [done|done|by apply left_over; [|done|lia]|].
  assert (stop_at start n = i64 (sl_stop s + GetStakeModifierSelectionIntervalSection (Z.of_nat n))) as Hst.
  { unfold stop_at. rewrite seq_S, map_app, fold_left_app, Hstop. done. }
  rewrite seq_S, map_app, foldl_app, E. cbn [map foldl mbind option_bind plus]. unfold select_round. cbv zeta. rewrite <-Hst, Hb, Es.
  eexists (picks ++ [p]), _. split; [done|]. cbn [sl_blocks sl_stop sl_new]. split; [rewrite length_app; cbn; lia|].
  split; [rewrite fmap_app, list_to_set_app_L; cbn; set_solver|]. split; [rewrite fold_left_app, <-Hstop; exact Hst|]. destruct Hp as (P1 & P2 & P3).
  assert (0 <= Z.shiftl (Z.b2z (fEntropyBit (bi_stake p))) (Z.of_nat n)) as Hsh by (apply Z.shiftl_nonneg; by destruct (fEntropyBit _)). split.
  - rewrite fmap_app. apply NoDup_app. split; [done|]. split; [|apply NoDup_singleton]. intros x Hx ->%list_elem_of_singleton.
    apply P2. by apply elem_of_list_to_set.
  - intros k q Hk. apply lookup_app_Some in Hk as [Hk|[Hk1 Hk2]].
    + rewrite take_app_le by (apply lookup_lt_Some in Hk; lia). by apply S2.
    + apply list_lookup_singleton_Some in Hk2 as [Hk2 <-]. assert (k = n) as -> by lia. rewrite take_app_le, take_ge by lia. done.
  - apply Z.lor_nonneg. done.
  - intros k. rewrite Z.lor_spec, S4, Z.shiftl_spec by lia. destruct (decide (k < n)%nat) as [Hk|Hk].
    + rewrite lookup_app_l by lia. rewrite Z.testbit_neg_r by lia. apply orb_false_r.
    + rewrite lookup_app_r, (lookup_ge_None_2 picks) by lia. cbn [orb]. destruct (decide (k = n)) as [->|Hne].
      * rewrite Z.sub_diag, Z.b2z_bit0, Hlen, Nat.sub_diag. done.
      * replace (k - length picks)%nat with (S (k - n - 1))%nat by lia. cbn.
        destruct (fEntropyBit _); [|apply Z.bits_0]. apply Z.bits_above_log2; [done|]. change (Z.log2 (Z.b2z true)) with 0. lia.
Qed.

(** The index has the blocks of the chain, each under its own hash. *)
Definition chain_indexed (c : chain) : Prop :=
  NoDup (bi_hash <$> c) /\ forall p, p ∈ c -> entry mapBlockIndex (bi_hash p) = Some p.

Lemma candidates_prefix start c : exists k, candidates start c = (fun p => (bi_nTime p, bi_hash p)) <$> take k c.
Proof.
  induction c as [|p c [k IH]]; [by exists 0%nat|]. cbn [candidates]. destruct (start <=? bi_nTime p); [exists (S k)|by exists 0%nat].
  by rewrite IH.
Qed.

#[local] Instance pair_le_trans : Transitive pair_le.
Proof. intros a b c [H1'|[H1' H1'']] [H2'|[H2' H2'']]; unfold pair_le; lia. Qed.
#[local] Instance pair_le_total : Total pair_le.
Proof. intros a b. unfold pair_le. lia. Qed.

Lemma candidates_sorted start c l :
  chain_indexed c -> l = merge_sort pair_le (rev (candidates start c)) -> listed l /\ by_time l /\ NoDup l.*2.
Proof.
  intros [Hn Hi] ->. destruct (candidates_prefix start c) as [k Ek].
  assert (merge_sort pair_le (rev (candidates start c)) ≡ₚ candidates start c) as Hp by (rewrite merge_sort_Permutation, rev_alt; apply reverse_Permutation).
  split_and!.
  - intros x Hx. rewrite Hp, Ek in Hx. apply list_elem_of_fmap in Hx as (p & -> & Hx). exists p. split; [|done]. cbn. apply Hi.
    rewrite <-(take_drop k c). apply elem_of_app. by left.
  - assert (StronglySorted pair_le (merge_sort pair_le (rev (candidates start c)))) as Hs by (apply StronglySorted_merge_sort; apply _).
    clear Hp. induction Hs as [|x l _ IH Hx]; constructor; [done|]. apply (Forall_impl _ _ _ Hx). intros y [|]; lia.
  - rewrite Hp, Ek, <-list_fmap_compose. change (NoDup (bi_hash <$> take k c)). rewrite fmap_take. rewrite <-(take_drop k (bi_hash <$> c)) in Hn.
    apply NoDup_app in Hn as (Hn & _). exact Hn.
Qed.

(** C33. On a chain whose blocks stand in the index under their own, different hashes
    and which has a last generated modifier, [ComputeNextStakeModifier] does not fail.
    Either it keeps the last modifier, while the interval of its minute lasts, or it
    makes a new one: of as many of the recent blocks as there are, at most 64, all
    different, each the one of least hash among those not yet taken that are in its
    round's time, or an earliest one not yet taken when none is; their entropy bits are
    its bits. *)
Theorem next_modifier_spec p pprev last lastTime :
  chain_indexed (p :: pprev) -> GetLastStakeModifier (p :: pprev) = Some (last, lastTime) ->
  let minute t := Z.quot t nModifierInterval in
  let start := minute (bi_nTime p) * nModifierInterval - GetStakeModifierSelectionInterval in
  let l := merge_sort pair_le (rev (candidates start (p :: pprev))) in
  (minute (bi_nTime p) <= minute lastTime /\ ComputeNextStakeModifier mapBlockIndex (p :: pprev) = Some (last, false)) \/
  (minute lastTime < minute (bi_nTime p) /\ exists new picks,
     ComputeNextStakeModifier mapBlockIndex (p :: pprev) = Some (new, true) /\ 0 <= new < 2 ^ 64 /\
     length picks = Nat.min 64 (length l) /\ selected last l start picks new).
Proof.
  intros Hc Hlast minute start l. destruct (candidates_sorted start _ l Hc eq_refl) as (L1 & L2 & L3).
  unfold ComputeNextStakeModifier. rewrite Hlast. fold (minute (bi_nTime p)) (minute lastTime). cbv zeta. fold start. fold l.
  destruct (Z.leb_spec (minute (bi_nTime p)) (minute lastTime)); [by left|]. right. split; [done|].
  destruct (rounds_select last l start (Nat.min 64 (length l)) L1 L2 L3 ltac:(lia)) as (picks & s & E & Hlen & _ & _ & Hs).
  rewrite E. exists (sl_new s), picks. split; [done|]. split; [|done]. split; [by destruct Hs|].
  apply lt_pow2_of_bits; [by destruct Hs|lia|]. intros i Hi.
  replace i with (Z.of_nat (Z.to_nat i)) by lia. rewrite (sel_bits _ _ _ _ _ Hs), lookup_ge_None_2; [done|]. rewrite Hlen. lia.
Qed.

End selection.

(** ** The modifier a kernel is hashed with *)

Section walk.
Context `{Sha256}.
Context (mapBlockIndex : block_map) (pnext : gmap Z Z).

(** The links to the next blocks lead to indexed blocks that are higher. *)
Definition links_up : Prop := forall h p h',
  entry mapBlockIndex h = Some p -> pnext !! bi_hash p = Some h' ->
  exists q, entry mapBlockIndex h' = Some q /\ bi_hash q = h' /\ nHeight p < nHeight q.

(** The blocks [l] come after [p] one by one. *)
Fixpoint follows (p : CBlockIndex) (l : list CBlockIndex) : Prop :=
  match l with
  | [] => True
  | q :: l' => pnext !! bi_hash p = Some (bi_hash q) /\ entry mapBlockIndex (bi_hash q) = Some q /\ follows q l'
  end.
(** The time of the last modifier generated in [l]. *)
Definition last_time (t : Z) (l : list CBlockIndex) : Z :=
  fold_left (fun t q => if fStakeModifier (bi_stake q) then bi_nTime q else t) l t.
Definition end_of (p : CBlockIndex) (l : list CBlockIndex) : CBlockIndex := default p (last l).

Lemma end_of_cons p q l : end_of p (q :: l) = end_of q l.
Proof. unfold end_of. destruct l as [|r l]; [done|]. rewrite last_cons_cons. destruct (last (r :: l)) eqn:E; [done|]. by apply last_None in E. Qed.

(** Enough fuel: every turn reaches a block that was not seen. *)
Lemma walk_spec fuel limit t p (seen : gset Z) :
  links_up -> (exists h, entry mapBlockIndex h = Some p) ->
  (forall h, h ∈ seen -> exists r, entry mapBlockIndex h = Some r /\ nHeight r <= nHeight p) ->
  (base.size mapBlockIndex < base.size seen + fuel)%nat ->
  match modifier_walk fuel mapBlockIndex pnext limit t p with
  | Accept m => exists l, follows p l /\ m = nStakeModifier (bi_stake (end_of p l)) /\ limit <= last_time t l /\
      forall k, (k < length l)%nat -> last_time t (take k l) < limit
  | Reject _ => exists l, follows p l /\ last_time t l < limit /\ pnext !! bi_hash (end_of p l) = None
  | Throws => False
  end.
Proof.
  intros Hup. revert t p seen. induction fuel as [|fuel IH]; intros t p seen (hp & Ep) Hseen Hsize.
  { assert (seen ⊆ dom mapBlockIndex) as Hs.
    { intros h (r & Er & _)%Hseen. unfold entry in Er. apply elem_of_dom. destruct (mapBlockIndex !! h); [by eexists|done]. }
    apply subseteq_size in Hs. rewrite size_dom in Hs. lia. }
  cbn [modifier_walk]. destruct (Z.ltb_spec t limit) as [Hlt|Hge].
  2:{ exists []. split_and!; [done|done|done|]. intros k Hk. cbn in Hk. lia. }
  destruct (pnext !! bi_hash p) as [h|] eqn:En; [|by exists []]. destruct (Hup _ _ _ Ep En) as (q & Eq & Eh & Hht). rewrite Eq.
  assert (h ∉ seen) as Hn by (intros (r & Er & Hr)%Hseen; rewrite Eq in Er; injection Er as <-; lia).
  assert (forall x, x ∈ {[ h ]} ∪ seen -> exists r, entry mapBlockIndex x = Some r /\ nHeight r <= nHeight q) as Hseen'.
  { intros x [->%elem_of_singleton|(r & Er & Hr)%Hseen]%elem_of_union; [by exists q|]. exists r. split; [done|lia]. }
  assert (base.size mapBlockIndex < base.size ({[ h ]} ∪ seen) + fuel)%nat as Hsize' by (rewrite size_union, size_singleton by set_solver; lia).
  specialize (IH (if fStakeModifier (bi_stake q) then bi_nTime q else t) q _ (ex_intro _ h Eq) Hseen' Hsize'). cbv zeta.
  destruct (modifier_walk fuel _ _ _ _ q) as [m|d|]; [| |done].
  - destruct IH as (l & Hf & Hm & Hl & Hk). exists (q :: l). split; [cbn; rewrite Eh; done|]. split; [by rewrite end_of_cons|].
    split; [exact Hl|]. intros [|k] Hlen; [exact Hlt|]. apply Hk. cbn in Hlen. lia.
  - destruct IH as (l & Hf & Hl & Hnx). exists (q :: l). split; [cbn; rewrite Eh; done|]. split; [exact Hl|]. by rewrite end_of_cons.
Qed.

(** The search of the modifier of a kernel ends: it takes the modifier of the first
    block, going up from the block of the stake, at which the last modifier generated
    on the way is a selection interval younger than the stake; it fails only where the
    block of the stake is unknown or the best chain ends before. *)
Theorem kernel_modifier_spec hashBlockFrom :
  links_up ->
  match GetKernelStakeModifier mapBlockIndex pnext hashBlockFrom with
  | Accept m => exists from l, entry mapBlockIndex hashBlockFrom = Some from /\ follows from l /\
      m = nStakeModifier (bi_stake (end_of from l)) /\
      bi_nTime from + GetStakeModifierSelectionInterval <= last_time (bi_nTime from) l /\
      forall k, (k < length l)%nat -> last_time (bi_nTime from) (take k l) < bi_nTime from + GetStakeModifierSelectionInterval
  | Reject _ => entry mapBlockIndex hashBlockFrom = None \/ exists from l, entry mapBlockIndex hashBlockFrom = Some from /\
      follows from l /\ last_time (bi_nTime from) l < bi_nTime from + GetStakeModifierSelectionInterval /\
      pnext !! bi_hash (end_of from l) = None
  | Throws => False
  end.
Proof.
  intros Hup. unfold GetKernelStakeModifier. destruct (entry mapBlockIndex hashBlockFrom) as [from|] eqn:E; [|by left].
  pose proof (walk_spec (S (base.size mapBlockIndex)) (bi_nTime from + GetStakeModifierSelectionInterval) (bi_nTime from) from ∅ Hup
    (ex_intro _ hashBlockFrom E) ltac:(set_solver) ltac:(lia)) as Hw.
  destruct (modifier_walk _ _ _ _ _ _) as [m|d|]; [|right|done]; destruct Hw as (l & Hw); by exists from, l.
Qed.

End walk.

(** ** Instances

    Three blocks a day apart; the first and the last generated a modifier. *)

Section witnesses.
#[local] Instance toy_sha : Sha256 := toy_sha256.
#[local] Existing Instance z_bn.
#[local] Existing Instance z_bn_laws.
#[local] Existing Instance z_arith.
#[local] Existing Instance z_arith_laws.

Definition staked (h hash t m : Z) (fModifier : bool) : CBlockIndex :=
  {| nHeight := h; bi_nFile := 1; bi_nBlockPos := 0; bi_hash := hash; bi_nTime := t; bi_nBits := 0x1e0fffff; bi_fStake := false;
     nChainTrust := h;
     bi_stake := {| fEntropyBit := Z.odd hash; fStakeModifier := fModifier; nStakeModifier := m; nStakeModifierChecksum := 0;
                    hashProofOfStake := 0; prevoutStake := {| hash := 0; n := UINT_MAX |}; nStakeTime := 0 |} |}.
Definition k0 := staked 0 11 1000 5 true.
Definition k1 := staked 1 12 90000 5 false.
Definition k2 := staked 2 13 180000 9 true.
Definition three_blocks : block_map := {[ 11 := [k0]; 12 := [k1; k0]; 13 := [k2; k1; k0] ]}.
Definition three_links : gmap Z Z := {[ 11 := 12; 12 := 13 ]}.

Lemma three_entries h p : entry three_blocks h = Some p -> h = bi_hash p /\ (p = k0 \/ p = k1 \/ p = k2).
Proof.
  unfold entry, three_blocks. destruct (decide (h = 11)) as [->|]; [vm_compute; intros [= <-]; auto|].
  destruct (decide (h = 12)) as [->|]; [vm_compute; intros [= <-]; auto|]. destruct (decide (h = 13)) as [->|]; [vm_compute; intros [= <-]; auto|].
  by rewrite !lookup_insert_ne, lookup_singleton_ne.
Qed.

Lemma three_links_up : links_up three_blocks three_links.
Proof.
  intros h p h' (_ & [->|[->| ->]])%three_entries; vm_compute; intros [= <-]; eexists; repeat split; reflexivity.
Qed.

Lemma three_indexed : chain_indexed three_blocks [k1; k0].
Proof.
  split; [vm_compute; repeat constructor; set_solver|]. intros p Hp. rewrite !elem_of_cons, elem_of_nil in Hp.
  destruct Hp as [->|[->|[]]]; vm_compute; reflexivity.
Qed.

Lemma kernel_modifier_spec_witness : GetKernelStakeModifier three_blocks three_links 11 <> Throws.
Proof. intros E. pose proof (kernel_modifier_spec three_blocks three_links 11 three_links_up) as Hk. by rewrite E in Hk. Defined.

Lemma next_modifier_spec_witness : exists m, ComputeNextStakeModifier three_blocks [k1; k0] = Some (m, true) /\ 0 <= m < 2 ^ 64.
Proof.
  destruct (next_modifier_spec three_blocks k1 [k0] 5 1000 three_indexed eq_refl) as [[Hle _]|(_ & new & picks & E & Hr & _)].
  - exfalso. revert Hle. vm_compute. intros Hle. by apply Hle.
  - exists new. split; [exact E|exact Hr].
Defined.

(** A thousand coins of the first block, searched for a minute and a day later. *)
Definition staked_tx : CTransaction :=
  {| nVersion := 1; nTime := 1000; vin := []; vout := [{| nValue := 1000 * COIN; scriptPubKey := [OP_1] |}]; nLockTime := 0; mwTx := null_mwTx |}.
Definition searched (nTimeTx nHashDrift : Z) (fCheck : bool) : outcome (Z * uint256) :=
  CheckStakeKernelHash three_blocks three_links 0x1e0fffff (11, 1000) 81 staked_tx {| hash := 7; n := 0 |} nTimeTx nHashDrift fCheck.
Definition searched_hash : uint256 := match searched 90000 60 false with Accept (_, h) => h | _ => 0 end.

Lemma searched_hit : searched 90000 60 false = Accept (90060, searched_hash).
Proof. vm_compute. reflexivity. Qed.

Lemma kernel_search_checks_witness : searched 90060 0 true = Accept (90060, searched_hash).
Proof.
  apply (kernel_search_checks three_blocks three_links 0x1e0fffff (11, 1000) 81 staked_tx {| hash := 7; n := 0 |} 90000 60
           90060 searched_hash {| nValue := 1000 * COIN; scriptPubKey := [OP_1] |} searched_hit);
    vm_compute; first [reflexivity|split; [discriminate|first [reflexivity|discriminate]]].
Defined.

End witnesses.

End Kernel.
