(* ===== verification/Index.v ===== *)
(** * The index of blocks and the acceptance of a block ([src/main.cpp], [src/checkpoints.cpp])

    [AcceptBlock] with its rules, [AddToBlockIndex], and the checkpoints they consult:
    the hardened ones and the synchronised one with the one that is pending.  The
    index gives for a hash the entry and those that [pprev] leads to.  Where
    [WriteToDisk] put a block is an argument, absent where it failed. *)

From Stdlib Require Import Strings.String.
From S2P Require Import Prelude Crypto Serialize BigNum BigArith Script Interpreter Standard Mmr MwModels Transactions.
From S2P Require Import Sighash MwState Secp MwCrypto Bulletproofs MwValidation TxInputs Peg TxChecks MemPool Extension Merkle Base58 Targets Blocks Supply Chain Kernel.
Import Stream BigNum BigArith Script Interpreter Standard MwModels Sighash MwState MwCrypto MwValidation Transactions TxInputs Peg TxChecks.
Import MemPool Extension Merkle Targets Blocks Supply Chain Kernel.

Module Index.

Abbreviation chain := (list CBlockIndex) (only parsing).
Abbreviation block_map := (gmap Z (list CBlockIndex)) (only parsing).

Inductive CPMode := STRICT | ADVISORY | PERMISSIVE.
#[export] Instance cpmode_eq_dec : EqDecision CPMode.
Proof. solve_decision. Defined.

Record node := {
  nd_chain : chain_state; mapBlockIndex : block_map;
  hashSyncCheckpoint : uint256; hashPendingCheckpoint : uint256; hashInvalidCheckpoint : uint256 }.
Record node_env := { ne_chain : chain_env; read_header : Z -> Z -> option CBlockHeader; CheckpointsMode : CPMode }.

Definition LAST_POW_BLOCK : Z := 500.
Definition MODIFIER_INTERVAL_SWITCH : Z := 20.
Definition header_CURRENT_VERSION : Z := 1.

(** ** Hardened checkpoints *)

Definition hashGenesisBlock : uint256 := 0x000001b8e7e172fd4b860cd42ae50de44334d4969376871eab0d9e58e48525b2.
Definition hardened : list (Z * uint256) :=
  [(0, hashGenesisBlock); (2500, 0x6265acfb7a329e42d79b1ea0c275029e1a7fcb924d69d26107a83c89a36791f5)].
Definition hardenedTestnet : list (Z * uint256) := [(0, hashGenesisBlock)].
Definition mapCheckpoints (fTestNet : bool) : gmap Z uint256 := list_to_map (if fTestNet then hardenedTestnet else hardened).
Definition CheckHardened (fTestNet : bool) (nHeight : Z) (hash : uint256) : bool :=
  match mapCheckpoints fTestNet !! nHeight with None => true | Some h => hash =? h end.

(** ** The synchronised checkpoint *)

Definition with_chain (nd : node) (s : chain_state) : node :=
  {| nd_chain := s; mapBlockIndex := mapBlockIndex nd; hashSyncCheckpoint := hashSyncCheckpoint nd;
     hashPendingCheckpoint := hashPendingCheckpoint nd; hashInvalidCheckpoint := hashInvalidCheckpoint nd |}.
Definition with_checkpoints (nd : node) (sync pending invalid : uint256) : node :=
  {| nd_chain := nd_chain nd; mapBlockIndex := mapBlockIndex nd; hashSyncCheckpoint := sync;
     hashPendingCheckpoint := pending; hashInvalidCheckpoint := invalid |}.

Definition top_hash (c : chain) : uint256 := match c with e :: _ => bi_hash e | [] => 0 end.

Definition IsInMainChain (nd : node) (pindex : chain) : bool :=
  bool_decide (is_Some (cs_pnext (nd_chain nd) !! top_hash pindex)) || same pindex (pindexBest (nd_chain nd)).

(** [Throws] stands for the assertion that the checkpoint is in the index. *)
Definition CheckSync (fTestNet : bool) (nd : node) (hashBlock : uint256) (pindexPrev : chain) : outcome bool :=
  if fTestNet then Accept true
  else
    match mapBlockIndex nd !! hashSyncCheckpoint nd, pindexPrev with
    | Some (pindexSync :: _), p :: _ =>
        let nHeight' := nHeight p + 1 in
        if nHeight pindexSync <? nHeight' then
          match lower (nHeight pindexSync) pindexPrev with
          | Some (q :: _) => Accept (negb ((nHeight q <? nHeight pindexSync) || negb (bi_hash q =? hashSyncCheckpoint nd)))
          | _ => Accept false
          end
        else if (nHeight' =? nHeight pindexSync) && negb (hashBlock =? hashSyncCheckpoint nd) then Accept false
        else Accept (negb ((nHeight' <? nHeight pindexSync) && negb (bool_decide (is_Some (mapBlockIndex nd !! hashBlock)))))
    | _, _ => Throws
    end.

Definition ValidateSyncCheckpoint (nd : node) (hashCheckpoint : uint256) : node * bool :=
  let invalid := with_checkpoints nd (hashSyncCheckpoint nd) (hashPendingCheckpoint nd) hashCheckpoint in
  match mapBlockIndex nd !! hashSyncCheckpoint nd, mapBlockIndex nd !! hashCheckpoint with
  | Some ((sync :: _) as pindexSync), Some ((recv :: _) as pindexRecv) =>
      if nHeight recv <=? nHeight sync then
        match lower (nHeight recv) pindexSync with
        | None => (nd, false)
        | Some pindex => if top_hash pindex =? hashCheckpoint then (nd, false) else (invalid, false)
        end
      else
        match lower (nHeight sync) pindexRecv with
        | None => (nd, false)
        | Some pindex => if top_hash pindex =? hashSyncCheckpoint nd then (nd, true) else (invalid, false)
        end
  | _, _ => (nd, false)
  end.

Section index.
Context `{OpenSSLBN} `{OpenSSLBNArith} `{Sha256} `{ScriptHashes} `{OpenSSLEC} `{Secp256k1} `{HeaderHash}.

(** The part [AcceptPendingSyncCheckpoint] and [ProcessSyncCheckpoint] share: the best
    chain is changed to one with the checkpoint, which is then written. *)
Definition switch_to (env : node_env) (nd : node) (pindexCheckpoint : chain) (hashCheckpoint : uint256) : node * outcome unit :=
  let written nd := with_checkpoints nd hashCheckpoint 0 (hashInvalidCheckpoint nd) in
  if IsInMainChain nd pindexCheckpoint then (written nd, Accept tt)
  else
    match head pindexCheckpoint ≫= read_block (ne_chain env) with
    | None => (nd, Reject 0)
    | Some b =>
        let '(s, r) := SetBestChain (ne_chain env) (nd_chain nd) b pindexCheckpoint in
        match r with
        | Accept _ => (written (with_chain nd s), Accept tt)
        | Reject _ => (with_checkpoints (with_chain nd s) (hashSyncCheckpoint nd) (hashPendingCheckpoint nd) hashCheckpoint, Reject 0)
        | Throws => (with_chain nd s, Throws)
        end
    end.

Definition AcceptPendingSyncCheckpoint (env : node_env) (nd : node) : node * outcome unit :=
  match (if hashPendingCheckpoint nd =? 0 then None else mapBlockIndex nd !! hashPendingCheckpoint nd) with
  | None => (nd, Reject 0)
  | Some pindexCheckpoint =>
      let '(nd, fValid) := ValidateSyncCheckpoint nd (hashPendingCheckpoint nd) in
      if negb fValid then (with_checkpoints nd (hashSyncCheckpoint nd) 0 (hashInvalidCheckpoint nd), Reject 0)
      else switch_to env nd pindexCheckpoint (hashPendingCheckpoint nd)
  end.

(** The key the messages with checkpoints are signed with. *)
Definition strMasterPubKey : bytes := rev (le_bytes 65
  0x0451f094290d7186c8b2ec98b3db33c5d06628ec8b8895f9d631b9f2c6e3f3bab4521c6773a705b1ff3b34bb7f806b8aabde682fe9a01737b6e425864f5e0f58e9).
Definition c_unsigned_checkpoint : codec (Z * uint256) := c_sint 4 ⊗ c_uint256.

(** The checkpoint of a message that the master key has signed. *)
Definition CheckSignature (vchMsg vchSig : bytes) : outcome uint256 :=
  match SetPubKey strMasterPubKey with
  | None => Reject 0
  | Some key =>
      if negb (Sighash.Verify key (sha256_twice vchMsg) vchSig) then Reject 0
      else match Unserialize c_unsigned_checkpoint vchMsg with Some (_, hashCheckpoint, _) => Accept hashCheckpoint | None => Throws end
  end.

Definition ProcessSyncCheckpoint (env : node_env) (nd : node) (vchMsg vchSig : bytes) : node * outcome unit :=
  match CheckSignature vchMsg vchSig with
  | Reject d => (nd, Reject d)
  | Throws => (nd, Throws)
  | Accept hashCheckpoint =>
      match mapBlockIndex nd !! hashCheckpoint with
      | None => (with_checkpoints nd (hashSyncCheckpoint nd) hashCheckpoint (hashInvalidCheckpoint nd), Reject 0)
      | Some pindexCheckpoint =>
          let '(nd, fValid) := ValidateSyncCheckpoint nd hashCheckpoint in
          if negb fValid then (nd, Reject 0) else switch_to env nd pindexCheckpoint hashCheckpoint
      end
  end.

(** The last of the hardened checkpoints that is on the best chain. *)
Fixpoint reset_loop (nd : node) (l : list (Z * uint256)) : node * outcome unit :=
  match l with
  | [] => (nd, Reject 0)
  | (_, h) :: l =>
      match mapBlockIndex nd !! h with
      | Some c =>
          if IsInMainChain nd c then (with_checkpoints nd h (hashPendingCheckpoint nd) (hashInvalidCheckpoint nd), Accept tt)
          else reset_loop nd l
      | None => reset_loop nd l
      end
  end.

Definition ResetSyncCheckpoint (env : node_env) (nd : node) : node * outcome unit :=
  let h := default 0 (snd <$> last hardened) in
  match mapBlockIndex nd !! h with
  | None => reset_loop (with_checkpoints nd (hashSyncCheckpoint nd) h (hashInvalidCheckpoint nd)) (rev hardened)
  | Some c =>
      if IsInMainChain nd c then reset_loop nd (rev hardened)
      else
        match head c ≫= read_block (ne_chain env) with
        | None => (nd, Reject 0)
        | Some b =>
            let '(s, r) := SetBestChain (ne_chain env) (nd_chain nd) b c in
            match r with
            | Accept _ => reset_loop (with_chain nd s) (rev hardened)
            | Reject _ => (with_chain nd s, Reject 0)
            | Throws => (with_chain nd s, Throws)
            end
        end
  end.

(** ** [AddToBlockIndex] *)

Definition u256 (z : Z) : Z := z mod 2 ^ 256.

(** The constructor of [CBlockIndex] and the fields that are set after it. *)
Definition new_entry (mapBlockIndex : block_map) (pprev : chain) (nFile nBlockPos : Z) (hashProof : uint256) (b : CBlock)
    : outcome CBlockIndex :=
  let hash := GetBlockHash b in
  match ComputeNextStakeModifier mapBlockIndex pprev with
  | None => Reject 0
  | Some (m, fGenerated) =>
      let stake := default ({| Transactions.hash := 0; n := UINT_MAX |}, 0) (stake_seen b) in
      let make checksum := {|
        nHeight := match pprev with p :: _ => nHeight p + 1 | [] => 0 end;
        bi_nFile := nFile; bi_nBlockPos := nBlockPos; bi_hash := hash; bi_nTime := bk_nTime (header b); bi_nBits := nBits (header b);
        bi_fStake := IsProofOfStake b;
        nChainTrust := u256 (match pprev with p :: _ => nChainTrust p | [] => 0 end + GetBlockTrust (nBits (header b)));
        bi_stake := {| fEntropyBit := Z.testbit hash 0; fStakeModifier := fGenerated; nStakeModifier := m;
                       nStakeModifierChecksum := checksum; hashProofOfStake := hashProof;
                       prevoutStake := stake.1; nStakeTime := stake.2 |} |} in
      let* checksum := GetStakeModifierChecksum (make 0 :: pprev) in
      Accept (make checksum)
  end.

(** The state with the entry in the index and its stake among those seen. *)
Definition with_entry (nd : node) (pprev : chain) (e : CBlockIndex) (b : CBlock) : node :=
  let s := nd_chain nd in
  let w := cs_work s in
  let seen := match stake_seen b with Some k => {[ k ]} ∪ w_setStakeSeen w | None => w_setStakeSeen w end in
  {| nd_chain := {|
       cs_work := {| w_db := w_db w; w_mw := w_mw w; w_moneys := w_moneys w; w_setStakeSeen := seen |};
       cs_hashBestChain := cs_hashBestChain s; pindexGenesisBlock := pindexGenesisBlock s; pindexBest := pindexBest s;
       cs_pnext := cs_pnext s; cs_mempool := cs_mempool s; nBestInvalidTrust := nBestInvalidTrust s |};
     mapBlockIndex := <[bi_hash e := e :: pprev]> (mapBlockIndex nd);
     hashSyncCheckpoint := hashSyncCheckpoint nd; hashPendingCheckpoint := hashPendingCheckpoint nd;
     hashInvalidCheckpoint := hashInvalidCheckpoint nd |}.

Definition AddToBlockIndex (env : node_env) (nd : node) (nFile nBlockPos : Z) (hashProof : uint256) (b : CBlock) : node * outcome unit :=
  if bool_decide (is_Some (mapBlockIndex nd !! GetBlockHash b)) then (nd, Reject 0)
  else
    let pprev := default [] (mapBlockIndex nd !! hashPrevBlock (header b)) in
    match new_entry (mapBlockIndex nd) pprev nFile nBlockPos hashProof b with
    | Reject d => (nd, Reject d)
    | Throws => (nd, Throws)
    | Accept e =>
        let nd := with_entry nd pprev e b in
        if best_trust (nd_chain nd) <? nChainTrust e then
          let '(s, r) := SetBestChain (ne_chain env) (nd_chain nd) b (e :: pprev) in (with_chain nd s, r)
        else (nd, Accept tt)
    end.

(** ** [AcceptBlock] *)

Definition starts_with (expect s : bytes) : bool := (len expect <=? len s) && bool_decide (take (length expect) s = expect).

(** The rules, up to the writing of the block; [hashProofOfStake].  The comparison of
    inputs and outputs of blocks without stake above height 10000 is never reached,
    since such blocks are refused above [LAST_POW_BLOCK]. *)
Definition accept_rules (env : node_env) (nd : node) (pindexPrev : chain) (b : CBlock) : outcome uint256 :=
  let cenv := ne_chain env in
  let s := nd_chain nd in
  let testnet := fTestNet (ce_block cenv) in
  match pindexPrev, vtx b with
  | p :: _, ({| vin := i0 :: _ |} as tx0) :: rest =>
      let nHeight' := nHeight p + 1 in
      if IsProofOfWork b && (LAST_POW_BLOCK <? nHeight') then Reject 100
      else if IsProofOfStake b && (nHeight' <? MODIFIER_INTERVAL_SWITCH) then Reject 100
      else if bk_nVersion (header b) <? header_CURRENT_VERSION then Reject 100
      else if negb (nBits (header b) =? GetNextTargetRequired testnet pindexPrev (IsProofOfStake b)) then Reject 100
      else if (GetBlockTime b <=? GetMedianTimePast pindexPrev) || (GetBlockTime b + GetClockDrift <? bi_nTime p) then Reject 0
      else if negb (forallb (fun tx => IsFinal (best_height s) (nAdjustedTime (ce_block cenv)) tx nHeight' (GetBlockTime b)) (vtx b)) then Reject 10
      else if negb (CheckHardened testnet nHeight' (GetBlockHash b)) then Reject 100
      else
        let* hashProof :=
          (if IsProofOfStake b then
             match rest with
             | [] => Throws
             | tx1 :: _ =>
                 match CheckProofOfStake (mapBlockIndex nd) (cs_pnext s) (work_store cenv (cs_mempool s) (cs_work s)) (read_header env) tx1 (nBits (header b)) with
                 | Accept h => Accept h
                 | Reject _ => Reject 0
                 | Throws => Throws
                 end
             end
           else Accept 0) in
        let* cpSatisfies := CheckSync testnet nd (GetBlockHash b) pindexPrev in
        if bool_decide (CheckpointsMode env = STRICT) && negb cpSatisfies then Reject 0
        else if negb (starts_with (push_int64 nHeight') (scriptSig i0)) then Reject 100
        else Accept hashProof
  | _, _ => Throws
  end.

Definition AcceptBlock (env : node_env) (nd : node) (disk : option (Z * Z)) (b : CBlock) : node * outcome unit :=
  if bool_decide (is_Some (mapBlockIndex nd !! GetBlockHash b)) then (nd, Reject 0)
  else
    match mapBlockIndex nd !! hashPrevBlock (header b) with
    | None => (nd, Reject 10)
    | Some pindexPrev =>
        match accept_rules env nd pindexPrev b with
        | Reject d => (nd, Reject d)
        | Throws => (nd, Throws)
        | Accept hashProof =>
            match disk with
            | None => (nd, Reject 0)
            | Some (nFile, nBlockPos) =>
                let '(nd, r) := AddToBlockIndex env nd nFile nBlockPos hashProof b in
                match r with
                | Accept _ => let '(nd, r) := AcceptPendingSyncCheckpoint env nd in (nd, match r with Throws => Throws | _ => Accept tt end)
                | Reject _ => (nd, Reject 0)
                | Throws => (nd, Throws)
                end
            end
        end
    end.

End index.

(** * Properties *)

(** ** The shape of the index *)

Section shape.
Context `{OpenSSLBN} `{OpenSSLBNArith} `{Sha256} `{ScriptHashes} `{OpenSSLEC} `{Secp256k1} `{HeaderHash}.

(** An entry under its hash, its height and trust those of the block below and its own. *)
Definition entry_ok (idx : block_map) (h : uint256) (c : chain) : Prop :=
  match c with
  | [] => False
  | e :: pprev =>
      bi_hash e = h /\ nHeight e = len pprev /\
      match pprev with
      | [] => True
      | p :: _ => idx !! bi_hash p = Some pprev /\ nChainTrust e = u256 (nChainTrust p + GetBlockTrust (bi_nBits e))
      end
  end.

(** One first block, below all the others. *)
Record index_ok (idx : block_map) (g : CBlockIndex) : Prop := {
  ix_entries : forall h c, idx !! h = Some c -> entry_ok idx h c;
  ix_first : idx !! bi_hash g = Some [g];
  ix_only : forall h e, idx !! h = Some [e] -> e = g }.

Record node_ok (g : CBlockIndex) (nd : node) : Prop := {
  nk_index : index_ok (mapBlockIndex nd) g;
  nk_best : exists h, mapBlockIndex nd !! h = Some (pindexBest (nd_chain nd));
  nk_started : pindexGenesisBlock (nd_chain nd) <> None }.

Lemma entry_hash idx g h c : index_ok idx g -> idx !! h = Some c -> exists e pprev, c = e :: pprev /\ idx !! bi_hash e = Some c.
Proof. intros Hi Hc. pose proof (ix_entries _ _ Hi _ _ Hc) as He. destruct c as [|e pprev]; [done|]. destruct He as (<- & _). by exists e, pprev. Qed.

(** The chains below an entry are in the index as well. *)
Lemma index_suffix idx g c l x y : index_ok idx g -> idx !! bi_hash x = Some (x :: c) -> x :: c = l ++ y -> y <> [] ->
  exists e pprev, y = e :: pprev /\ idx !! bi_hash e = Some y.
Proof.
  intros Hi. revert x c. induction l as [|z l IH]; intros x c Hx E Hy; cbn in E.
  { subst y. by exists x, c. }
  injection E as <- E. pose proof (ix_entries _ _ Hi _ _ Hx) as (_ & _ & Hp). destruct c as [|p c]; [by destruct l, y|].
  destruct Hp as [Hp _]. by apply (IH p c).
Qed.

Lemma index_numbered idx g c : index_ok idx g -> forall h, idx !! h = Some c -> numbered c /\ last c = Some g.
Proof.
  intros Hi. induction c as [|e c IH]; intros h Hc; pose proof (ix_entries _ _ Hi _ _ Hc) as He; [done|].
  destruct He as (_ & Hn & Hp). destruct c as [|p c].
  - split; [done|]. cbn. f_equal. by apply (ix_only _ _ Hi h).
  - destruct Hp as [Hp _]. destruct (IH _ Hp) as [Hn' Hl]. split; [done|]. by rewrite last_cons_cons.
Qed.

Lemma index_agree idx g h1 h2 c d : index_ok idx g -> idx !! h1 = Some c -> idx !! h2 = Some d -> agree c d.
Proof.
  intros Hi Hc Hd l1 x l2 y -> -> Hs.
  destruct (entry_hash _ _ _ _ Hi Hc) as (e1 & p1 & E1 & H1'). destruct (entry_hash _ _ _ _ Hi Hd) as (e2 & p2 & E2 & H2').
  rewrite E1 in H1'. rewrite E2 in H2'. destruct x as [|x xs], y as [|y ys]; [done|done|done|].
  destruct (index_suffix _ _ _ l1 _ (x :: xs) Hi H1' ltac:(congruence)) as (? & ? & [= <- <-] & Hx); [done|].
  destruct (index_suffix _ _ _ l2 _ (y :: ys) Hi H2' ltac:(congruence)) as (? & ? & [= <- <-] & Hy); [done|].
  cbn in Hs. apply Z.eqb_eq in Hs. rewrite Hs, Hy in Hx. by injection Hx as -> ->.
Qed.

(** Any two entries are tips of branches of one tree. *)
Lemma index_branches idx g h1 h2 c d : index_ok idx g -> idx !! h1 = Some c -> idx !! h2 = Some d -> branches c d.
Proof.
  intros Hi Hc Hd. destruct (index_numbered _ _ _ Hi _ Hc), (index_numbered _ _ _ Hi _ Hd). split; [done| |by exists g].
  split_and!; by eapply index_agree.
Qed.

(** ** What a change of the best chain leaves *)

Lemma inner_best env s b new s' r :
  SetBestChainInner env s b new = (s', r) -> pindexBest s' = pindexBest s /\ pindexGenesisBlock s' = pindexGenesisBlock s.
Proof. unfold SetBestChainInner. destruct (connect_block _ _ _ _ _) as [w [u|d|]]; by intros [= <- <-]. Qed.

Lemma postponed_best env l s :
  pindexBest (postponed env s l) = pindexBest s /\ pindexGenesisBlock (postponed env s l) = pindexGenesisBlock s.
Proof.
  revert s. induction l as [|[|e pprev] l IH]; intros s; [done..|]. cbn [postponed]. destruct (read_block env e) as [b|]; [|done].
  destruct (SetBestChainInner env s b (e :: pprev)) as [s1 r] eqn:E. apply inner_best in E as [E1 E2].
  destruct r; [|by rewrite E1, E2..]. destruct (IH s1) as [-> ->]. by rewrite E1, E2.
Qed.

Lemma Reorganize_best env s new s' r :
  Reorganize env s new = (s', r) -> pindexBest s' = pindexBest s /\ pindexGenesisBlock s' = pindexGenesisBlock s.
Proof. unfold Reorganize. destruct (reorganize _ _ _ _ _) as [w [[[f vR] vD]|d|]]; by intros [= <- <-]. Qed.

Lemma SetBestChain_best env s b new s' r :
  SetBestChain env s b new = (s', r) ->
  pindexBest s' = match r with Accept _ => new | _ => pindexBest s end /\ (pindexGenesisBlock s <> None -> pindexGenesisBlock s' <> None).
Proof.
  unfold SetBestChain. destruct new as [|e pprev]; [by intros [= <- <-]|]. destruct (_ && _); [by intros [= <- <-]|].
  destruct (_ =? _).
  - destruct (SetBestChainInner _ _ _ _) as [s1 r1] eqn:E. apply inner_best in E as [E1 E2].
    destruct r1; intros [= <- <-]; [|by rewrite E1, E2..]. cbn. by rewrite E2.
  - destruct (intermediate _ _) as [later first]. destruct (Reorganize _ _ _) as [s1 r1] eqn:E. apply Reorganize_best in E as [E1 E2].
    destruct r1; intros [= <- <-]; [|done..]. cbn. destruct (postponed_best env (rev later) s1) as [_ ->]. by rewrite E2.
Qed.

(** ** Additions *)

Lemma new_entry_fields idx pprev f p hp b e :
  new_entry idx pprev f p hp b = Accept e ->
  bi_hash e = GetBlockHash b /\ nHeight e = match pprev with q :: _ => nHeight q + 1 | [] => 0 end /\
  bi_nBits e = nBits (header b) /\ hashProofOfStake (bi_stake e) = hp /\
  nChainTrust e = u256 (match pprev with q :: _ => nChainTrust q | [] => 0 end + GetBlockTrust (nBits (header b))).
Proof.
  unfold new_entry. destruct (ComputeNextStakeModifier _ _) as [[m fg]|]; [|done]. cbv zeta. intros (cs & _ & E)%bind_accept.
  apply Accept_inj in E as <-. cbn [bi_hash nHeight bi_nBits bi_stake hashProofOfStake nChainTrust]. split_and!; reflexivity.
Qed.

Lemma index_insert idx g e h pprev :
  index_ok idx g -> idx !! bi_hash e = None -> idx !! h = Some pprev ->
  nHeight e = match pprev with q :: _ => nHeight q + 1 | [] => 0 end ->
  nChainTrust e = u256 (match pprev with q :: _ => nChainTrust q | [] => 0 end + GetBlockTrust (bi_nBits e)) ->
  index_ok (<[bi_hash e := e :: pprev]> idx) g.
Proof.
  intros Hi Hnew Hp Hh Ht. destruct (entry_hash _ _ _ _ Hi Hp) as (q & rest & -> & Hq).
  assert (forall k c, idx !! k = Some c -> <[bi_hash e := e :: q :: rest]> idx !! k = Some c) as Hmono.
  { intros k c Hk. rewrite lookup_insert_ne; [done|]. intros <-. by rewrite Hnew in Hk. }
  split.
  - intros k c [[<- <-]|[_ Hk]]%lookup_insert_Some.
    + pose proof (ix_entries _ _ Hi _ _ Hp) as (_ & Hn & _). split; [done|]. split; [rewrite Hh, Hn, len_cons; lia|]. split; [by apply Hmono|done].
    + pose proof (ix_entries _ _ Hi _ _ Hk) as He. destruct c as [|x c]; [done|]. destruct He as (E1 & E2 & E3).
      split; [done|]. split; [done|]. destruct c as [|y c]; [done|]. destruct E3 as [E3 E4]. split; [by apply Hmono|done].
  - by apply Hmono, (ix_first _ _ Hi).
  - intros k x [[<- E]|[_ Hk]]%lookup_insert_Some; [by injection E|by apply (ix_only _ _ Hi k)].
Qed.

Lemma add_ok g env nd f p hp b nd' r :
  AddToBlockIndex env nd f p hp b = (nd', r) -> node_ok g nd -> is_Some (mapBlockIndex nd !! hashPrevBlock (header b)) ->
  node_ok g nd' /\ mapBlockIndex nd ⊆ mapBlockIndex nd' /\ best_trust (nd_chain nd) <= best_trust (nd_chain nd') /\
  hashPendingCheckpoint nd' = hashPendingCheckpoint nd /\
  (r = Accept tt -> exists e pprev, mapBlockIndex nd !! hashPrevBlock (header b) = Some pprev /\ mapBlockIndex nd' !! GetBlockHash b = Some (e :: pprev) /\
     hashProofOfStake (bi_stake e) = hp /\ best_trust (nd_chain nd') = Z.max (best_trust (nd_chain nd)) (nChainTrust e)).
Proof.
  intros E [Hi Hb Hg] [pprev Hp]. unfold AddToBlockIndex in E. destruct (bool_decide_reflect (is_Some (mapBlockIndex nd !! GetBlockHash b))) as [Hin|Hin].
  { injection E as <- <-. split; [done|]. split; [done|]. split; [lia|]. by split. }
  rewrite Hp in E. change (default [] (Some pprev)) with pprev in E. destruct (new_entry _ _ _ _ _ _) as [e|d|] eqn:Ee;
    [|by injection E as <- <-; (split; [done|]); (split; [done|]); (split; [lia|])..].
  destruct (new_entry_fields _ _ _ _ _ _ _ Ee) as (E1 & E2 & E3 & E4 & E7). rewrite <-E1 in Hin. apply eq_None_not_Some in Hin.
  assert (node_ok g (with_entry nd pprev e b)) as Hok.
  { split; [eapply index_insert; [done|done|exact Hp|done|by rewrite E3]| |done]. destruct Hb as [h Hb]. exists h. cbn.
    rewrite lookup_insert_ne; [done|]. intros <-. by rewrite Hin in Hb. }
  assert (mapBlockIndex nd ⊆ mapBlockIndex (with_entry nd pprev e b)) as Hsub by (by apply insert_subseteq).
  assert (mapBlockIndex (with_entry nd pprev e b) !! GetBlockHash b = Some (e :: pprev)) as Hnew by (rewrite <-E1; apply lookup_insert_eq).
  cbv zeta in E. destruct (Z.ltb_spec (best_trust (nd_chain (with_entry nd pprev e b))) (nChainTrust e)) as [Hlt|Hge].
  - destruct (SetBestChain _ _ _ _) as [s' r'] eqn:Es. apply SetBestChain_best in Es as [Es1 Es2]. injection E as <- <-.
    split; [split; [apply Hok| |by apply Es2]|].
    { cbn [nd_chain with_chain mapBlockIndex]. rewrite Es1. destruct r'; [by exists (GetBlockHash b)|apply Hok..]. }
    split; [exact Hsub|]. unfold best_trust in *. cbn [nd_chain with_chain]. rewrite Es1.
    change (pindexBest (nd_chain (with_entry nd pprev e b))) with (pindexBest (nd_chain nd)) in *.
    split; [destruct r'; cbv iota beta; lia|]. split; [done|]. intros ->. exists e, pprev. split_and!; [done..|]. cbv iota beta. lia.
  - injection E as <- <-. change (best_trust (nd_chain (with_entry nd pprev e b))) with (best_trust (nd_chain nd)) in *.
    split; [done|]. split; [done|]. split; [lia|]. split; [done|]. intros _. exists e, pprev. split_and!; [done..|]. lia.
Qed.

Lemma validate_index nd h nd' v : ValidateSyncCheckpoint nd h = (nd', v) -> nd_chain nd' = nd_chain nd /\ mapBlockIndex nd' = mapBlockIndex nd.
Proof.
  unfold ValidateSyncCheckpoint. cbv zeta. destruct (mapBlockIndex nd !! _) as [[|x c]|]; [by intros [= <- <-]| |by intros [= <- <-]].
  destruct (mapBlockIndex nd !! h) as [[|y d]|]; [by intros [= <- <-]| |by intros [= <- <-]].
  destruct (_ <=? _); destruct (lower _ _); try destruct (_ =? _); by intros [= <- <-].
Qed.

Lemma validate_pending nd h nd' v :
  ValidateSyncCheckpoint nd h = (nd', v) -> hashPendingCheckpoint nd' = hashPendingCheckpoint nd /\ hashSyncCheckpoint nd' = hashSyncCheckpoint nd.
Proof.
  unfold ValidateSyncCheckpoint. cbv zeta. destruct (mapBlockIndex nd !! _) as [[|x c]|]; [by intros [= <- <-]| |by intros [= <- <-]].
  destruct (mapBlockIndex nd !! h) as [[|y d]|]; [by intros [= <- <-]| |by intros [= <- <-]].
  destruct (_ <=? _); destruct (lower _ _); try destruct (_ =? _); by intros [= <- <-].
Qed.

Lemma pending_index env nd nd' r : AcceptPendingSyncCheckpoint env nd = (nd', r) -> mapBlockIndex nd' = mapBlockIndex nd.
Proof.
  unfold AcceptPendingSyncCheckpoint. destruct (hashPendingCheckpoint nd =? 0); [by intros [= <- <-]|].
  destruct (mapBlockIndex nd !! hashPendingCheckpoint nd) as [c|]; [|by intros [= <- <-]]. destruct (ValidateSyncCheckpoint nd _) as [nd1 v] eqn:Ev.
  apply validate_index in Ev as [_ <-]. destruct v; cbn [negb]; [|by intros [= <- <-]]. unfold switch_to. destruct (IsInMainChain _ _); [by intros [= <- <-]|].
  destruct (head c ≫= _); [|by intros [= <- <-]]. destruct (SetBestChain _ _ _ _) as [s [| |]]; by intros [= <- <-].
Qed.

(** What a change of the best chain to an entry of the index leaves. *)
Lemma set_best_ok g env nd b h c s r :
  SetBestChain env (nd_chain nd) b c = (s, r) -> node_ok g nd -> mapBlockIndex nd !! h = Some c -> node_ok g (with_chain nd s).
Proof.
  intros [Es1 Es2]%SetBestChain_best [N1 N2 N3] Hc. split; [done| |by apply Es2]. cbn. rewrite Es1. destruct r; [by exists h|done..].
Qed.

Lemma checkpoints_ok g nd sync pending invalid : node_ok g nd -> node_ok g (with_checkpoints nd sync pending invalid).
Proof. by intros []. Qed.

Lemma validate_ok g nd h nd' v : ValidateSyncCheckpoint nd h = (nd', v) -> node_ok g nd -> node_ok g nd'.
Proof. intros [E1 E2]%validate_index []. split; by rewrite ?E1, ?E2. Qed.

Lemma switch_ok g env nd h c nd' r :
  switch_to env nd c h = (nd', r) -> node_ok g nd -> mapBlockIndex nd !! h = Some c ->
  node_ok g nd' /\ mapBlockIndex nd' = mapBlockIndex nd.
Proof.
  unfold switch_to. intros E Hok Hc. destruct (IsInMainChain nd c); [injection E as <- <-; split; [by apply checkpoints_ok|done]|].
  destruct (head c ≫= _) as [b|]; [|by injection E as <- <-]. destruct (SetBestChain _ _ _ _) as [s r'] eqn:Es.
  pose proof (set_best_ok g _ _ _ _ _ _ _ Es Hok Hc) as Hs.
  destruct r'; injection E as <- <-; (split; [by try apply checkpoints_ok|done]).
Qed.

Lemma pending_ok g env nd nd' r :
  AcceptPendingSyncCheckpoint env nd = (nd', r) -> node_ok g nd ->
  node_ok g nd' /\ mapBlockIndex nd' = mapBlockIndex nd /\ (hashPendingCheckpoint nd = 0 -> nd' = nd /\ r = Reject 0).
Proof.
  unfold AcceptPendingSyncCheckpoint. intros E Hok. destruct (Z.eqb_spec (hashPendingCheckpoint nd) 0) as [Hz|Hz]; [by injection E as <- <-|].
  destruct (mapBlockIndex nd !! hashPendingCheckpoint nd) as [c|] eqn:Hc; [|by injection E as <- <-].
  destruct (ValidateSyncCheckpoint nd _) as [nd1 v] eqn:Ev. pose proof (validate_ok g _ _ _ _ Ev Hok) as Hok1.
  destruct (validate_pending _ _ _ _ Ev) as [V3 _]. apply validate_index in Ev as [V1 V2].
  destruct v; cbn [negb] in E; [|injection E as <- <-; by split_and!; [apply checkpoints_ok|..]].
  destruct (switch_ok g _ _ _ _ _ _ E Hok1) as [Hok2 Hi]; [by rewrite V2, V3|]. split; [done|]. split; [congruence|done].
Qed.

Lemma process_sync_ok g env nd vchMsg vchSig nd' r :
  ProcessSyncCheckpoint env nd vchMsg vchSig = (nd', r) -> node_ok g nd -> node_ok g nd' /\ mapBlockIndex nd' = mapBlockIndex nd.
Proof.
  unfold ProcessSyncCheckpoint. intros E Hok. destruct (CheckSignature _ _) as [h|d|]; [|by injection E as <- <-..].
  destruct (mapBlockIndex nd !! h) as [c|] eqn:Hc; [|injection E as <- <-; split; [by apply checkpoints_ok|done]].
  destruct (ValidateSyncCheckpoint nd h) as [nd1 v] eqn:Ev. pose proof (validate_ok g _ _ _ _ Ev Hok) as Hok1. apply validate_index in Ev as [V1 V2].
  destruct v; cbn [negb] in E; [|by injection E as <- <-]. destruct (switch_ok g _ _ _ _ _ _ E Hok1) as [Hok2 Hi]; [by rewrite V2|].
  split; [done|congruence].
Qed.

Lemma reset_loop_ok g nd l nd' r : reset_loop nd l = (nd', r) -> node_ok g nd -> node_ok g nd' /\ mapBlockIndex nd' = mapBlockIndex nd.
Proof.
  intros E Hok. induction l as [|[k h] l IH]; cbn [reset_loop] in E; [by injection E as <- <-|].
  destruct (mapBlockIndex nd !! h) as [c|]; [|by apply IH]. destruct (IsInMainChain nd c); [|by apply IH].
  injection E as <- <-. split; [by apply checkpoints_ok|done].
Qed.

Lemma reset_ok g env nd nd' r : ResetSyncCheckpoint env nd = (nd', r) -> node_ok g nd -> node_ok g nd' /\ mapBlockIndex nd' = mapBlockIndex nd.
Proof.
  unfold ResetSyncCheckpoint. set (h := default 0 _). intros E Hok. destruct (mapBlockIndex nd !! h) as [c|] eqn:Hc.
  - destruct (IsInMainChain nd c); [by eapply reset_loop_ok|]. destruct (head c ≫= _) as [b|]; [|by injection E as <- <-].
    destruct (SetBestChain _ _ _ _) as [s r'] eqn:Es. pose proof (set_best_ok g _ _ _ _ _ _ _ Es Hok Hc) as Hs.
    destruct r'; [|by injection E as <- <-..]. by apply (reset_loop_ok g _ _ _ _ E) in Hs.
  - apply (reset_loop_ok g _ _ _ _ E). by apply checkpoints_ok.
Qed.

(** ** The nodes that blocks lead to *)

Inductive node_step (nd nd' : node) : Prop :=
  | step_block env disk b r : AcceptBlock env nd disk b = (nd', r) -> node_step nd nd'
  | step_checkpoint env vchMsg vchSig r : ProcessSyncCheckpoint env nd vchMsg vchSig = (nd', r) -> node_step nd nd'
  | step_reset env r : ResetSyncCheckpoint env nd = (nd', r) -> node_step nd nd'.

Lemma accept_ok g env nd disk b nd' r :
  AcceptBlock env nd disk b = (nd', r) -> node_ok g nd ->
  node_ok g nd' /\ mapBlockIndex nd ⊆ mapBlockIndex nd' /\ (hashPendingCheckpoint nd = 0 -> best_trust (nd_chain nd) <= best_trust (nd_chain nd')).
Proof.
  intros E Hok. unfold AcceptBlock in E. destruct (bool_decide _); [injection E as <- <-; split_and!; [done|done|lia]|].
  destruct (mapBlockIndex nd !! hashPrevBlock (header b)) as [pprev|] eqn:Hp; [|injection E as <- <-; split_and!; [done|done|lia]].
  destruct (accept_rules _ _ _ _) as [hp|d|]; [|injection E as <- <-; split_and!; [done|done|lia]..].
  destruct disk as [[f p]|]; [|injection E as <- <-; split_and!; [done|done|lia]].
  destruct (AddToBlockIndex _ _ _ _ _ _) as [nd1 r1] eqn:Ea. destruct (add_ok g _ _ _ _ _ _ _ _ Ea Hok) as (Hok1 & Hsub & Ht & Hpend & _); [by rewrite Hp|].
  destruct r1; [|by injection E as <- <-; split_and!..]. destruct (AcceptPendingSyncCheckpoint env nd1) as [nd2 r2] eqn:Ep. injection E as <- <-.
  destruct (pending_ok g _ _ _ _ Ep Hok1) as (Hok2 & Hi & Hz). split; [done|]. rewrite Hi. split; [done|].
  intros H0'. destruct Hz as [-> _]; [congruence|exact Ht].
Qed.

(** The only entry a block can add is its own. *)
Lemma accept_index env nd disk b nd' r k :
  AcceptBlock env nd disk b = (nd', r) -> k <> GetBlockHash b -> mapBlockIndex nd' !! k = mapBlockIndex nd !! k.
Proof.
  intros E Hk. unfold AcceptBlock in E. destruct (bool_decide _); [by injection E as <- <-|].
  destruct (mapBlockIndex nd !! hashPrevBlock (header b)); [|by injection E as <- <-].
  destruct (accept_rules _ _ _ _) as [hp|d|]; [|by injection E as <- <-..]. destruct disk as [[f p]|]; [|by injection E as <- <-].
  destruct (AddToBlockIndex _ _ _ _ _ _) as [nd1 r1] eqn:Ea. assert (mapBlockIndex nd1 !! k = mapBlockIndex nd !! k) as Hnd1.
  { unfold AddToBlockIndex in Ea. destruct (bool_decide _); [by injection Ea as <- <-|]. destruct (new_entry _ _ _ _ _ _) as [e|d|] eqn:Ee;
      [|by injection Ea as <- <-..]. apply new_entry_fields in Ee as (Eh & _). cbv zeta in Ea.
    assert (forall pprev, mapBlockIndex (with_entry nd pprev e b) !! k = mapBlockIndex nd !! k) as Hw by (intros; cbn; rewrite Eh, lookup_insert_ne by done; done).
    destruct (_ <? _); [destruct (SetBestChain _ _ _ _)|]; injection Ea as <- <-; apply Hw. }
  rewrite <-Hnd1. destruct r1; [|by injection E as <- <-..]. destruct (AcceptPendingSyncCheckpoint env nd1) as [nd2 r2] eqn:Ep.
  injection E as <- <-. by rewrite (pending_index _ _ _ _ Ep).
Qed.

Lemma node_step_ok g nd nd' : node_step nd nd' -> node_ok g nd -> node_ok g nd' /\ mapBlockIndex nd ⊆ mapBlockIndex nd'.
Proof.
  intros [env disk b r E|env m sig r E|env r E] Hok.
  - by destruct (accept_ok g _ _ _ _ _ _ E Hok) as (? & ? & _).
  - by destruct (process_sync_ok g _ _ _ _ _ _ E Hok) as [? ->].
  - by destruct (reset_ok g _ _ _ _ E Hok) as [? ->].
Qed.

(** C7. Whatever blocks are handed to [AcceptBlock] and whatever checkpoint messages and
    resets arrive, a node whose index is a tree on a first block keeps it one: an
    entry's height is the number of entries below it, its trust that of the one below
    and its own, modulo 2^256; two entries share all below their fork; the best chain is
    one of them; and no entry is lost. *)
Theorem index_always_tree g nd0 nd :
  node_ok g nd0 -> rtc node_step nd0 nd ->
  (forall h c, mapBlockIndex nd !! h = Some c -> entry_ok (mapBlockIndex nd) h c) /\
  (forall h1 h2 c d, mapBlockIndex nd !! h1 = Some c -> mapBlockIndex nd !! h2 = Some d -> branches c d) /\
  (exists h, mapBlockIndex nd !! h = Some (pindexBest (nd_chain nd))) /\ mapBlockIndex nd0 ⊆ mapBlockIndex nd.
Proof.
  intros H0' Hr. enough (node_ok g nd /\ mapBlockIndex nd0 ⊆ mapBlockIndex nd) as [[Hi Hb _] Hsub].
  { split; [apply Hi|]. split; [intros h1 h2 c d; by apply (index_branches _ g)|done]. }
  induction Hr as [nd|nd nd1 nd2 E _ IH]; [done|]. destruct (node_step_ok g _ _ E H0') as (Hok & Hsub). destruct (IH Hok) as [Hok2 Hsub2]. split; [done|by etransitivity].
Qed.

(** What a block must satisfy on the block below it. *)
Record follows_rules (env : node_env) (nd : node) (p : CBlockIndex) (pprev : chain) (b : CBlock) (hashProof : uint256) : Prop := {
  fr_work : IsProofOfStake b = false -> nHeight p + 1 <= LAST_POW_BLOCK;
  fr_stake : IsProofOfStake b = true -> MODIFIER_INTERVAL_SWITCH <= nHeight p + 1 /\ exists tx0 tx1 rest, vtx b = tx0 :: tx1 :: rest /\
    CheckProofOfStake (mapBlockIndex nd) (cs_pnext (nd_chain nd))
      (work_store (ne_chain env) (cs_mempool (nd_chain nd)) (cs_work (nd_chain nd))) (read_header env) tx1 (nBits (header b)) = Accept hashProof;
  fr_target : nBits (header b) = GetNextTargetRequired (fTestNet (ce_block (ne_chain env))) (p :: pprev) (IsProofOfStake b);
  fr_time : GetMedianTimePast (p :: pprev) < GetBlockTime b /\ bi_nTime p <= GetBlockTime b + GetClockDrift;
  fr_final tx : tx ∈ vtx b -> IsFinal (best_height (nd_chain nd)) (nAdjustedTime (ce_block (ne_chain env))) tx (nHeight p + 1) (GetBlockTime b) = true;
  fr_hardened : CheckHardened (fTestNet (ce_block (ne_chain env))) (nHeight p + 1) (GetBlockHash b) = true;
  fr_sync : CheckpointsMode env = STRICT -> CheckSync (fTestNet (ce_block (ne_chain env))) nd (GetBlockHash b) (p :: pprev) = Accept true;
  fr_height : exists tx0 rest i0 ins, vtx b = tx0 :: rest /\ vin tx0 = i0 :: ins /\ starts_with (push_int64 (nHeight p + 1)) (scriptSig i0) = true }.

Lemma accept_rules_sound env nd p pprev b hashProof :
  accept_rules env nd (p :: pprev) b = Accept hashProof -> follows_rules env nd p pprev b hashProof.
Proof.
  unfold accept_rules. destruct (vtx b) as [|[tv tt vi vo tl tm] rest] eqn:Ev; [done|]. destruct vi as [|i0 ins] eqn:Ei; [done|]. cbv zeta.
  destruct (IsProofOfWork b && _) eqn:C1; [done|]. destruct (IsProofOfStake b && _) eqn:C2; [done|]. destruct (_ <? header_CURRENT_VERSION); [done|].
  destruct (negb (nBits _ =? _)) eqn:C3; [done|]. destruct (_ || _) eqn:C4; [done|]. destruct (negb (forallb _ _)) eqn:C5; [done|].
  destruct (negb (CheckHardened _ _ _)) eqn:C6; [done|]. intros (hp & Eh & E)%bind_accept. apply bind_accept in E as (cp & Es & E).
  destruct (bool_decide (CheckpointsMode env = STRICT) && negb cp) eqn:C7; [done|]. destruct (negb (starts_with _ _)) eqn:C8; [done|].
  apply Accept_inj in E as <-. rewrite negb_false_iff in *. apply orb_false_iff in C4 as [C4 C4']. split.
  - intros Hp. unfold IsProofOfWork in C1. rewrite Hp in C1. cbn in C1. lia.
  - intros Hp. rewrite Hp in C2, Eh. cbn in C2. split; [lia|]. destruct rest as [|tx1 rest]; [done|]. eexists _, tx1, rest. split; [done|].
    destruct (CheckProofOfStake _ _ _ _ _ _); [|done..]. by apply Accept_inj in Eh as ->.
  - by apply Z.eqb_eq.
  - lia.
  - intros tx Htx. rewrite forallb_forall in C5. apply C5. rewrite Ev in Htx. by apply list_elem_of_In.
  - done.
  - intros Hm. rewrite bool_decide_true in C7 by done. destruct cp; [done|discriminate C7].
  - by eexists _, rest, i0, ins.
Qed.

Lemma block_accepted g env nd disk b nd' :
  AcceptBlock env nd disk b = (nd', Accept tt) -> node_ok g nd ->
  exists p pprev e, mapBlockIndex nd !! hashPrevBlock (header b) = Some (p :: pprev) /\
    mapBlockIndex nd !! GetBlockHash b = None /\ mapBlockIndex nd' !! GetBlockHash b = Some (e :: p :: pprev) /\
    follows_rules env nd p pprev b (hashProofOfStake (bi_stake e)) /\
    (hashPendingCheckpoint nd = 0 -> best_trust (nd_chain nd') = Z.max (best_trust (nd_chain nd)) (nChainTrust e)).
Proof.
  intros E Hok. unfold AcceptBlock in E. destruct (bool_decide_reflect (is_Some (mapBlockIndex nd !! GetBlockHash b))) as [Hin|Hin]; [done|].
  destruct (mapBlockIndex nd !! hashPrevBlock (header b)) as [c|] eqn:Hp; [|done].
  destruct (entry_hash _ _ _ _ (nk_index _ _ Hok) Hp) as (p & pprev & -> & _).
  destruct (accept_rules _ _ _ _) as [hp|d|] eqn:Er; [|done..]. destruct disk as [[f q]|]; [|done].
  destruct (AddToBlockIndex _ _ _ _ _ _) as [nd1 r1] eqn:Ea. destruct (add_ok g _ _ _ _ _ _ _ _ Ea Hok) as (Hok1 & _ & _ & Hpend & Hnew); [by rewrite Hp|].
  destruct r1 as [[]| |]; [|done..]. destruct (AcceptPendingSyncCheckpoint env nd1) as [nd2 r2] eqn:Ep. injection E as <- _.
  destruct (Hnew eq_refl) as (e & c & Ec & Hc & Ee & Ht). rewrite Hp in Ec. injection Ec as <-.
  destruct (pending_ok g _ _ _ _ Ep Hok1) as (_ & Hi & Hz). exists p, pprev, e. rewrite Hi. split; [done|]. split; [by apply eq_None_not_Some|].
  split; [done|]. split; [rewrite Ee; by apply accept_rules_sound|]. intros H0'. by destruct Hz as [-> _]; [congruence|].
Qed.

(** C6. A block that [AcceptBlock] accepts, at a node whose index is a tree with the
    best chain in it, follows a block of the index and was not in it, and keeps the
    rules on its place: kind and height, target, times, final transactions, hardened and
    (in strict mode) synchronised checkpoints, the kernel of its stake and the height in
    its coinbase. It then stands in the index on that block, and, where no checkpoint is
    pending, the best chain has the trust of the better of the two. *)
Theorem accept_block_rules g env nd disk b nd' :
  AcceptBlock env nd disk b = (nd', Accept tt) -> node_ok g nd ->
  exists p pprev e, mapBlockIndex nd !! hashPrevBlock (header b) = Some (p :: pprev) /\
    mapBlockIndex nd !! GetBlockHash b = None /\ mapBlockIndex nd' !! GetBlockHash b = Some (e :: p :: pprev) /\
    follows_rules env nd p pprev b (hashProofOfStake (bi_stake e)) /\
    (hashPendingCheckpoint nd = 0 -> best_trust (nd_chain nd') = Z.max (best_trust (nd_chain nd)) (nChainTrust e)).
Proof. apply block_accepted. Qed.

(** ** The synchronised checkpoint only moves up *)

Lemma lower_ends h c c' : lower h c = Some c' -> ends c c' /\ c' <> [].
Proof.
  induction c as [|p c IH]; [done|]. cbn [lower]. destruct (h <? nHeight p).
  - intros [[l ->] Hne]%IH. split; [by exists (p :: l)|done].
  - intros [= <-]. split; [by exists []|done].
Qed.

Lemma index_lower idx g k c h c' : index_ok idx g -> idx !! k = Some c -> lower h c = Some c' -> ends c c' /\ idx !! top_hash c' = Some c'.
Proof.
  intros Hi Hc Hl. destruct (lower_ends _ _ _ Hl) as [[l E] Hne]. split; [by exists l|].
  destruct (entry_hash _ _ _ _ Hi Hc) as (e & p & -> & He). by destruct (index_suffix _ _ _ _ _ _ Hi He E Hne) as (x & y & -> & Hx).
Qed.

Lemma validate_ends g nd h nd' c :
  ValidateSyncCheckpoint nd h = (nd', true) -> node_ok g nd -> mapBlockIndex nd !! h = Some c ->
  exists cs, mapBlockIndex nd !! hashSyncCheckpoint nd = Some cs /\ ends c cs.
Proof.
  unfold ValidateSyncCheckpoint. cbv zeta. intros E Hok Hc. rewrite Hc in E. destruct (mapBlockIndex nd !! hashSyncCheckpoint nd) as [[|x cs]|] eqn:Hs; [done| |done].
  destruct c as [|y c]; [done|]. destruct (_ <=? _); [by destruct (lower _ _) as [d|]; [destruct (_ =? _)|]|].
  destruct (lower _ _) as [d|] eqn:El; [|done]. destruct (Z.eqb_spec (top_hash d) (hashSyncCheckpoint nd)) as [Ed|]; [|done].
  destruct (index_lower _ _ _ _ _ _ (nk_index _ _ Hok) Hc El) as [He Hd]. rewrite Ed, Hs in Hd. injection Hd as <-. by exists (x :: cs).
Qed.

Lemma check_sync_ends g nd k hashBlock p pprev cs :
  CheckSync false nd hashBlock (p :: pprev) = Accept true -> node_ok g nd -> mapBlockIndex nd !! hashSyncCheckpoint nd = Some cs ->
  mapBlockIndex nd !! k = Some (p :: pprev) -> mapBlockIndex nd !! hashBlock = None -> ends (p :: pprev) cs.
Proof.
  unfold CheckSync. intros E Hok Hs Hp Hb. rewrite Hs in E. destruct cs as [|x cs]; [done|]. cbv zeta in E.
  destruct (Z.ltb_spec (nHeight x) (nHeight p + 1)) as [Hlt|Hge].
  - destruct (lower _ _) as [[|q d]|] eqn:El; [done| |done]. apply Accept_inj, negb_true_iff, orb_false_iff in E as [_ E].
    apply negb_false_iff, Z.eqb_eq in E. destruct (index_lower _ _ _ _ _ _ (nk_index _ _ Hok) Hp El) as [He Hd].
    cbn [top_hash] in Hd. rewrite E, Hs in Hd. by injection Hd as -> ->.
  - destruct (_ && negb (hashBlock =? _)) eqn:E1; [done|]. apply Accept_inj, negb_true_iff in E. rewrite Hb, bool_decide_false in E by (by intros []).
    rewrite andb_true_r in E. apply Z.ltb_ge in E. assert (nHeight p + 1 = nHeight x) as Eh by lia. rewrite Eh, Z.eqb_refl in E1.
    apply negb_false_iff, Z.eqb_eq in E1. by rewrite E1, Hs in Hb.
Qed.

Lemma switch_sync env nd c h nd' r :
  switch_to env nd c h = (nd', r) -> hashSyncCheckpoint nd' = hashSyncCheckpoint nd \/ hashSyncCheckpoint nd' = h.
Proof.
  unfold switch_to. destruct (IsInMainChain nd c); [intros [= <- <-]; by right|]. destruct (head c ≫= _); [|intros [= <- <-]; by left].
  destruct (SetBestChain _ _ _ _) as [s [| |]]; intros [= <- <-]; (by left) || by right.
Qed.

Lemma add_sync env nd f p hp b nd' r : AddToBlockIndex env nd f p hp b = (nd', r) -> hashSyncCheckpoint nd' = hashSyncCheckpoint nd.
Proof.
  unfold AddToBlockIndex. destruct (bool_decide _); [by intros [= <- <-]|]. destruct (new_entry _ _ _ _ _ _) as [e| |]; [|by intros [= <- <-]..].
  cbv zeta. destruct (_ <? _); [destruct (SetBestChain _ _ _ _)|]; by intros [= <- <-].
Qed.

(** The checkpoint that is valid and switched to is above the one it replaces. *)
Lemma switch_ends g env nd c h nd1 nd' r cs :
  ValidateSyncCheckpoint nd h = (nd1, true) -> switch_to env nd1 c h = (nd', r) -> node_ok g nd -> mapBlockIndex nd !! h = Some c ->
  mapBlockIndex nd !! hashSyncCheckpoint nd = Some cs ->
  exists c', mapBlockIndex nd' !! hashSyncCheckpoint nd' = Some c' /\ ends c' cs.
Proof.
  intros Ev E Hok Hc Hs. destruct (validate_ends g _ _ _ _ Ev Hok Hc) as (cs' & Hs' & He). rewrite Hs in Hs'. injection Hs' as <-.
  pose proof (validate_ok g _ _ _ _ Ev Hok) as Hok1. destruct (validate_pending _ _ _ _ Ev) as [_ V3]. apply validate_index in Ev as [_ V2].
  destruct (switch_ok g _ _ _ _ _ _ E Hok1) as [_ Hi]; [by rewrite V2|]. rewrite Hi, V2.
  apply switch_sync in E as [->| ->]; [rewrite V3; exists cs; split; [done|by exists []]|by exists c].
Qed.

Lemma pending_ends g env nd nd' r cs :
  AcceptPendingSyncCheckpoint env nd = (nd', r) -> node_ok g nd -> mapBlockIndex nd !! hashSyncCheckpoint nd = Some cs ->
  exists c', mapBlockIndex nd' !! hashSyncCheckpoint nd' = Some c' /\ ends c' cs.
Proof.
  unfold AcceptPendingSyncCheckpoint. intros E Hok Hs. assert (ends cs cs) as Hcs by (by exists []).
  destruct (hashPendingCheckpoint nd =? 0); [injection E as <- <-; by exists cs|].
  destruct (mapBlockIndex nd !! hashPendingCheckpoint nd) as [c|] eqn:Hc; [|injection E as <- <-; by exists cs].
  destruct (ValidateSyncCheckpoint nd _) as [nd1 v] eqn:Ev. destruct v; cbn [negb] in E.
  - rewrite (proj1 (validate_pending _ _ _ _ Ev)) in E. by eapply switch_ends.
  - destruct (validate_pending _ _ _ _ Ev) as [_ V3]. apply validate_index in Ev as [_ V2]. injection E as <- <-. cbn. rewrite V2, V3. by exists cs.
Qed.

(** C8. At a node whose index is a tree and holds the block of the synchronised
    checkpoint: in strict mode on the main network [AcceptBlock] accepts blocks above
    the checkpoint only, and neither a block nor a signed checkpoint message, accepted
    or not, moves the checkpoint anywhere but to a block above it. *)
Theorem checkpoint_locks g nd cs :
  node_ok g nd -> mapBlockIndex nd !! hashSyncCheckpoint nd = Some cs ->
  (forall env disk b nd', AcceptBlock env nd disk b = (nd', Accept tt) -> CheckpointsMode env = STRICT -> fTestNet (ce_block (ne_chain env)) = false ->
     exists c, mapBlockIndex nd' !! GetBlockHash b = Some c /\ ends c cs) /\
  (forall env disk b nd' r, AcceptBlock env nd disk b = (nd', r) ->
     exists c, mapBlockIndex nd' !! hashSyncCheckpoint nd' = Some c /\ ends c cs) /\
  (forall env vchMsg vchSig nd' r, ProcessSyncCheckpoint env nd vchMsg vchSig = (nd', r) ->
     exists c, mapBlockIndex nd' !! hashSyncCheckpoint nd' = Some c /\ ends c cs).
Proof.
  intros Hok Hs. split_and!.
  - intros env disk b nd' E Hm Ht. destruct (block_accepted g _ _ _ _ _ E Hok) as (p & pprev & e & Hp & Hb & He & Hr & _).
    exists (e :: p :: pprev). split; [done|]. pose proof (fr_sync _ _ _ _ _ _ Hr Hm) as Hc. rewrite Ht in Hc.
    destruct (check_sync_ends g _ _ _ _ _ _ Hc Hok Hs Hp Hb) as [l ->]. by exists (e :: l).
  - intros env disk b nd' r E. assert (ends cs cs) as Hcs by (by exists []). unfold AcceptBlock in E. destruct (bool_decide _); [injection E as <- <-; by exists cs|].
    destruct (mapBlockIndex nd !! hashPrevBlock (header b)) as [pprev|] eqn:Hp; [|injection E as <- <-; by exists cs].
    destruct (accept_rules _ _ _ _) as [hp|d|]; [|injection E as <- <-; by exists cs..]. destruct disk as [[f p]|]; [|injection E as <- <-; by exists cs].
    destruct (AddToBlockIndex _ _ _ _ _ _) as [nd1 r1] eqn:Ea. destruct (add_ok g _ _ _ _ _ _ _ _ Ea Hok) as (Hok1 & Hsub & _); [by rewrite Hp|].
    apply add_sync in Ea. rewrite <-Ea in Hs. apply (lookup_weaken _ _ _ _ Hs) in Hsub.
    destruct r1; [|injection E as <- <-; by exists cs..]. destruct (AcceptPendingSyncCheckpoint env nd1) as [nd2 r2] eqn:Ep. injection E as <- <-.
    exact (pending_ends g _ _ _ _ _ Ep Hok1 Hsub).
  - intros env m sig nd' r E. assert (ends cs cs) as Hcs by (by exists []). unfold ProcessSyncCheckpoint in E.
    destruct (CheckSignature _ _) as [h|d|]; [|injection E as <- <-; by exists cs..].
    destruct (mapBlockIndex nd !! h) as [c|] eqn:Hc; [|injection E as <- <-; by exists cs]. destruct (ValidateSyncCheckpoint nd h) as [nd1 v] eqn:Ev.
    destruct v; cbn [negb] in E; [by eapply switch_ends|]. destruct (validate_pending _ _ _ _ Ev) as [_ V3]. apply validate_index in Ev as [_ V2].
    injection E as <- <-. rewrite V2, V3. by exists cs.
Qed.

End shape.

(** ** Instances

    A node with the first block alone, and the block of the first coins. *)

Section witnesses.
#[local] Instance toy_sha : Sha256 := toy_sha256.
#[local] Existing Instance z_bn.
#[local] Existing Instance z_arith.
#[local] Existing Instance toy_hashes.
#[local] Existing Instance toy_ec.
#[local] Existing Instance log_secp.
#[local] Existing Instance nonce_hash.

Definition first_entry : CBlockIndex := staked 0 1 1699990000 0 true.
Definition first_coins : CTransaction :=
  plain_tx [{| prevout := {| hash := 0; n := UINT_MAX |}; scriptSig := [81; 7]; nSequence := UINT_MAX |}] [sample_output (1000 * COIN)].
Definition first_block : CBlock :=
  {| header := {| bk_nVersion := 1; hashPrevBlock := 1; hashMerkleRoot := BuildMerkleTree [GetHash first_coins]; bk_nTime := 1700000000;
                  nBits := 0x1e0fffff; nNonce := 11 |};
     vtx := [first_coins]; vchBlockSig := []; mwExtBlock := null_mwBlock |}.
Definition first_node : node := {|
  nd_chain := {|
    cs_work := {| w_db := ∅; w_mw := fresh_state; w_moneys := ∅; w_setStakeSeen := ∅ |};
    cs_hashBestChain := 1; pindexGenesisBlock := Some 1; pindexBest := [first_entry]; cs_pnext := ∅; cs_mempool := empty_pool; nBestInvalidTrust := 0 |};
  mapBlockIndex := {[ 1 := [first_entry] ]}; hashSyncCheckpoint := 1; hashPendingCheckpoint := 0; hashInvalidCheckpoint := 0 |}.
Definition first_env : node_env := {| ne_chain := toy_env 0; read_header := fun _ _ => None; CheckpointsMode := STRICT |}.
Definition accepted_first : node * outcome unit := AcceptBlock first_env first_node (Some (1, 11)) first_block.

Lemma first_node_ok : node_ok first_entry first_node.
Proof.
  split; [split|by exists 1|cbn [pindexGenesisBlock nd_chain first_node]; discriminate].
  - intros h c Hc. cbn [mapBlockIndex first_node] in Hc. apply lookup_singleton_Some in Hc as [<- <-]. repeat split; reflexivity.
  - reflexivity.
  - intros h e He. cbn [mapBlockIndex first_node] in He. apply lookup_singleton_Some in He as [_ E]. by injection E.
Qed.

Lemma accepts_first : accepted_first = (accepted_first.1, Accept tt).
Proof. assert (accepted_first.2 = Accept tt) as E by (vm_compute; reflexivity). rewrite <-E. apply surjective_pairing. Qed.

Lemma index_always_tree_witness :
  exists h, mapBlockIndex accepted_first.1 !! h = Some (pindexBest (nd_chain accepted_first.1)).
Proof.
  apply (index_always_tree first_entry first_node accepted_first.1 first_node_ok).
  apply rtc_once. exact (step_block _ _ first_env (Some (1, 11)) first_block (Accept tt) accepts_first).
Defined.

Lemma accept_block_rules_witness : exists e p pprev, mapBlockIndex accepted_first.1 !! GetBlockHash first_block = Some (e :: p :: pprev).
Proof.
  destruct (accept_block_rules first_entry first_env first_node (Some (1, 11)) first_block accepted_first.1 accepts_first first_node_ok)
    as (p & pprev & e & _ & _ & E & _).
  by exists e, p, pprev.
Defined.

Lemma checkpoint_locks_witness : exists c, mapBlockIndex accepted_first.1 !! GetBlockHash first_block = Some c /\ ends c [first_entry].
Proof.
  destruct (checkpoint_locks first_entry first_node [first_entry] first_node_ok) as (L & _ & _); [reflexivity|].
  exact (L first_env (Some (1, 11)) first_block accepted_first.1 accepts_first eq_refl eq_refl).
Defined.

End witnesses.

End Index.
