(* ===== verification/Orphans.v ===== *)
(** * The receipt of a block and the orphans ([src/main.cpp], [src/checkpoints.cpp])

    [ProcessBlock]: the checks before a block is accepted, the blocks kept until the
    one they follow arrives, and their adoption.  Where [WriteToDisk] would put a
    block, and whether the node is still downloading, are arguments.  What is asked
    of peers is outside the state. *)

From Stdlib Require Import Strings.String.
From S2P Require Import Prelude Crypto Serialize BigNum BigArith Script Interpreter Standard Mmr MwModels Transactions.
From S2P Require Import Sighash MwState Secp MwCrypto Bulletproofs MwValidation TxInputs Peg TxChecks MemPool Extension Merkle Base58 Targets Blocks Supply Chain Kernel Index.
Import Stream BigNum BigArith Script Interpreter Standard MwModels Sighash MwState MwCrypto MwValidation Transactions TxInputs Peg TxChecks.
Import MemPool Extension Merkle Targets Blocks Supply Chain Kernel Index.

Module Orphans.

(** [mapOrphanBlocksByPrev] is a multimap: the blocks of a key in the order of their
    insertion. *)
Record orphans := {
  mapOrphanBlocks : gmap Z CBlock; mapOrphanBlocksByPrev : gmap Z (list CBlock); setStakeSeenOrphan : gset (COutPoint * Z) }.
Record full_node := { fn_node : node; fn_orphans : orphans }.
Record process_env := { pe_node : node_env; place : CBlock -> option (Z * Z); fInitialBlockDownload : bool }.

Definition GetProofOfStake (b : CBlock) : COutPoint * Z := default ({| hash := 0; n := UINT_MAX |}, 0) (stake_seen b).

(** [while (mapOrphanBlocks.count(prev))]; [None] where it does not end. *)
Fixpoint wanted_loop (fuel : nat) (mapOrphanBlocks : gmap Z CBlock) (b : CBlock) : option uint256 :=
  match fuel with
  | O => None
  | S fuel =>
      match mapOrphanBlocks !! hashPrevBlock (header b) with
      | Some b => wanted_loop fuel mapOrphanBlocks b
      | None => Some (hashPrevBlock (header b))
      end
  end.
Definition WantedByOrphan (o : orphans) (b : CBlock) : option uint256 :=
  wanted_loop (S (base.size (mapOrphanBlocks o))) (mapOrphanBlocks o) b.

Definition WantedByPendingSyncCheckpoint (nd : node) (o : orphans) (hashBlock : uint256) : outcome bool :=
  if hashPendingCheckpoint nd =? 0 then Accept false
  else if hashBlock =? hashPendingCheckpoint nd then Accept true
  else
    match mapOrphanBlocks o !! hashPendingCheckpoint nd with
    | None => Accept false
    | Some b => match WantedByOrphan o b with Some h => Accept (hashBlock =? h) | None => Throws end
    end.

Section process.
Context `{OpenSSLBN} `{OpenSSLBNArith} `{Sha256} `{ScriptHashes} `{OpenSSLEC} `{Secp256k1} `{HeaderHash}.

(** ** The checks *)

Definition known (nd : node) (h : uint256) : bool := bool_decide (is_Some (mapBlockIndex nd !! h)).
Definition awaited (o : orphans) (h : uint256) : bool := bool_decide (is_Some (mapOrphanBlocksByPrev o !! h)).

(** [fAllowDuplicate] *)
Definition allow_duplicate (fInitial : bool) (nd : node) (o : orphans) (b : CBlock) (fWanted : bool) : bool :=
  awaited o (GetBlockHash b) || fWanted ||
  (fInitial && known nd (hashPrevBlock (header b))) ||
  (known nd (hashPrevBlock (header b)) && negb (hashPrevBlock (header b) =? top_hash (pindexBest (nd_chain nd)))).

(** A block off the best chain needs the work that could follow the checkpoint. *)
Definition enough_work (fTestNet : bool) (nd : node) (b : CBlock) (fWanted : bool) : bool :=
  match mapBlockIndex nd !! hashSyncCheckpoint nd with
  | Some ((c :: _) as pcheckpoint) =>
      if negb (hashPrevBlock (header b) =? top_hash (pindexBest (nd_chain nd))) && negb fWanted then
        let deltaTime := i64 (GetBlockTime b - bi_nTime c) in
        let nBase := match GetLastBlockIndex pcheckpoint (IsProofOfStake b) with e :: _ => bi_nBits e | [] => 0 end in
        let bnRequired := SetCompact (if IsProofOfStake b then ComputeMinStake nBase deltaTime else ComputeMinWork fTestNet nBase deltaTime) in
        negb (bn_gt (SetCompact (nBits (header b))) bnRequired)
      else true
  | _ => true
  end.

Definition process_checks (env : process_env) (nd : node) (o : orphans) (b : CBlock) : outcome unit :=
  let benv := ce_block (ne_chain (pe_node env)) in
  if known nd (GetBlockHash b) then Reject 0
  else if bool_decide (is_Some (mapOrphanBlocks o !! GetBlockHash b)) then Reject 0
  else
    let* fWanted := WantedByPendingSyncCheckpoint nd o (GetBlockHash b) in
    if IsProofOfStake b && bool_decide (GetProofOfStake b ∈ w_setStakeSeen (cs_work (nd_chain nd))) &&
       negb (allow_duplicate (fInitialBlockDownload env) nd o b fWanted) then Reject 0
    else
      let* _ := CheckBlock benv true true true b in
      if negb (enough_work (fTestNet benv) nd b fWanted) then Reject 100 else Accept tt.

(** ** Orphans *)

Definition add_orphan (o : orphans) (b : CBlock) : orphans := {|
  mapOrphanBlocks := <[GetBlockHash b := b]> (mapOrphanBlocks o);
  mapOrphanBlocksByPrev :=
    <[hashPrevBlock (header b) := default [] (mapOrphanBlocksByPrev o !! hashPrevBlock (header b)) ++ [b]]> (mapOrphanBlocksByPrev o);
  setStakeSeenOrphan := if IsProofOfStake b then {[ GetProofOfStake b ]} ∪ setStakeSeenOrphan o else setStakeSeenOrphan o |}.

Definition keep_orphan (nd : node) (o : orphans) (b : CBlock) : outcome orphans :=
  let* fWanted := WantedByPendingSyncCheckpoint nd o (GetBlockHash b) in
  if IsProofOfStake b && bool_decide (GetProofOfStake b ∈ setStakeSeenOrphan o) && negb (awaited o (GetBlockHash b)) && negb fWanted
  then Reject 0 else Accept (add_orphan o b).

Definition forget_orphan (o : orphans) (b : CBlock) : orphans := {|
  mapOrphanBlocks := delete (GetBlockHash b) (mapOrphanBlocks o); mapOrphanBlocksByPrev := mapOrphanBlocksByPrev o;
  setStakeSeenOrphan := setStakeSeenOrphan o ∖ {[ GetProofOfStake b ]} |}.

Definition pushed (r : outcome unit) (b : CBlock) : list uint256 := match r with Accept _ => [GetBlockHash b] | _ => [] end.

(** The inner loop over the orphans of a block: the hashes to push on the queue. *)
Fixpoint adopt_all (env : process_env) (l : list CBlock) (fn : full_node) : full_node * outcome (list uint256) :=
  match l with
  | [] => (fn, Accept [])
  | b :: l' =>
      let '(nd, r) := AcceptBlock (pe_node env) (fn_node fn) (place env b) b in
      match r with
      | Throws => ({| fn_node := nd; fn_orphans := fn_orphans fn |}, Throws)
      | _ =>
          let '(fn, more) := adopt_all env l' {| fn_node := nd; fn_orphans := forget_orphan (fn_orphans fn) b |} in
          (fn, obind more (fun more => Accept (pushed r b ++ more)))
      end
  end.

(** [mapOrphanBlocksByPrev.erase(hashPrev)] *)
Definition erase_prev (fn : full_node) (hashPrev : uint256) : full_node := {|
  fn_node := fn_node fn;
  fn_orphans := {| mapOrphanBlocks := mapOrphanBlocks (fn_orphans fn);
                   mapOrphanBlocksByPrev := delete hashPrev (mapOrphanBlocksByPrev (fn_orphans fn));
                   setStakeSeenOrphan := setStakeSeenOrphan (fn_orphans fn) |} |}.

(** The work queue; [None] where the fuel does not reach its end. *)
Fixpoint adopt_loop (fuel : nat) (env : process_env) (vWorkQueue : list uint256) (fn : full_node) : option (full_node * outcome unit) :=
  match vWorkQueue with
  | [] => Some (fn, Accept tt)
  | hashPrev :: queue =>
      match fuel with
      | O => None
      | S fuel =>
          let '(fn, r) := adopt_all env (default [] (mapOrphanBlocksByPrev (fn_orphans fn) !! hashPrev)) fn in
          match r with
          | Accept more => adopt_loop fuel env (queue ++ more) (erase_prev fn hashPrev)
          | Reject d => Some (fn, Reject d)
          | Throws => Some (fn, Throws)
          end
      end
  end.

Definition orphan_count (o : orphans) : nat := map_fold (fun _ l k => (length l + k)%nat) O (mapOrphanBlocksByPrev o).

(** ** [ProcessBlock] *)

Definition ProcessBlock (env : process_env) (fn : full_node) (b : CBlock) : option (full_node * outcome unit) :=
  let nd := fn_node fn in
  let o := fn_orphans fn in
  match process_checks env nd o b with
  | Reject d => Some (fn, Reject d)
  | Throws => Some (fn, Throws)
  | Accept _ =>
      if negb (known nd (hashPrevBlock (header b))) then
        match keep_orphan nd o b with
        | Accept o => Some ({| fn_node := nd; fn_orphans := o |}, Accept tt)
        | Reject d => Some (fn, Reject d)
        | Throws => Some (fn, Throws)
        end
      else
        let '(nd, r) := AcceptBlock (pe_node env) nd (place env b) b in
        let fn := {| fn_node := nd; fn_orphans := o |} in
        match r with
        | Accept _ => adopt_loop (S (orphan_count o)) env [GetBlockHash b] fn
        | Reject d => Some (fn, Reject 0)
        | Throws => Some (fn, Throws)
        end
  end.

End process.

(** * Properties *)

Section laws.
Context `{OpenSSLBN} `{OpenSSLBNArith} `{Sha256} `{ScriptHashes} `{OpenSSLEC} `{Secp256k1} `{HeaderHash}.

(** The two maps hold the same blocks, each under its hash and under the hash of the
    block it follows; so the pointers of one are never those of a deleted block. *)
Record orphans_ok (o : orphans) : Prop := {
  oo_hash h b : mapOrphanBlocks o !! h = Some b ->
    GetBlockHash b = h /\ exists l, mapOrphanBlocksByPrev o !! hashPrevBlock (header b) = Some l /\ b ∈ l;
  oo_prev k l b : mapOrphanBlocksByPrev o !! k = Some l -> b ∈ l ->
    hashPrevBlock (header b) = k /\ mapOrphanBlocks o !! GetBlockHash b = Some b }.

Lemma add_orphan_ok o b : orphans_ok o -> mapOrphanBlocks o !! GetBlockHash b = None -> orphans_ok (add_orphan o b).
Proof.
  intros [O1 O2] Hb. split; cbn [mapOrphanBlocks mapOrphanBlocksByPrev add_orphan].
  - intros h c [[<- <-]|[Hne Hc]]%lookup_insert_Some.
    + split; [done|]. rewrite lookup_insert_eq. eexists. split; [done|]. apply elem_of_app. right. by apply list_elem_of_singleton.
    + destruct (O1 _ _ Hc) as (Eh & l & El & Hl). split; [done|]. destruct (decide (hashPrevBlock (header b) = hashPrevBlock (header c))) as [Ep|Ep].
      * rewrite Ep, lookup_insert_eq, El. eexists. split; [done|]. apply elem_of_app. by left.
      * rewrite lookup_insert_ne by done. by exists l.
  - intros k l c [[<- <-]|[Hne Hl]]%lookup_insert_Some Hc.
    + apply elem_of_app in Hc as [Hc| ->%list_elem_of_singleton]; [|by rewrite lookup_insert_eq].
      destruct (mapOrphanBlocksByPrev o !! _) as [l|] eqn:El; [|by apply not_elem_of_nil in Hc]. destruct (O2 _ _ _ El Hc) as [E1 E2].
      split; [done|]. rewrite lookup_insert_ne; [done|]. intros E. by rewrite E, E2 in Hb.
    + destruct (O2 _ _ _ Hl Hc) as [E1 E2]. split; [done|]. rewrite lookup_insert_ne; [done|]. intros E. by rewrite E, E2 in Hb.
Qed.

(** A block that was put into the index though its acceptance failed. *)
Definition failed (k : uint256) : Prop := exists env nd disk b nd' d, AcceptBlock env nd disk b = (nd', Reject d) /\
  GetBlockHash b = k /\ mapBlockIndex nd !! k = None /\ is_Some (mapBlockIndex nd' !! k).

Lemma accept_known env nd disk b nd' r k :
  AcceptBlock env nd disk b = (nd', r) -> r <> Throws -> is_Some (mapBlockIndex nd' !! k) ->
  is_Some (mapBlockIndex nd !! k) \/ k ∈ pushed r b \/ failed k.
Proof.
  intros E Hr Hk. destruct (decide (k = GetBlockHash b)) as [->|Hne]; [|left; by rewrite <-(accept_index _ _ _ _ _ _ _ E Hne)].
  destruct (mapBlockIndex nd !! GetBlockHash b) eqn:Eb; [by left|]. right. destruct r as [u|d|]; [left; by apply list_elem_of_singleton| |done].
  right. by exists env, nd, disk, b, nd', d.
Qed.

Lemma adopt_all_spec g env l fn fn' r :
  adopt_all env l fn = (fn', r) -> node_ok g (fn_node fn) ->
  node_ok g (fn_node fn') /\
  match r with
  | Accept more =>
      (length more <= length l)%nat /\ mapOrphanBlocksByPrev (fn_orphans fn') = mapOrphanBlocksByPrev (fn_orphans fn) /\
      (forall h, mapOrphanBlocks (fn_orphans fn') !! h =
         if bool_decide (h ∈ GetBlockHash <$> l) then None else mapOrphanBlocks (fn_orphans fn) !! h) /\
      (forall k, is_Some (mapBlockIndex (fn_node fn') !! k) -> is_Some (mapBlockIndex (fn_node fn) !! k) \/ k ∈ more \/ failed k)
  | Reject _ => False
  | Throws => True
  end.
Proof.
  revert fn fn' r. induction l as [|b l IH]; intros fn fn' r E Hok; cbn [adopt_all] in E.
  { injection E as <- <-. split; [done|]. split_and!; [done|done| |by intros k; left]. intros h. rewrite bool_decide_false; [done|]. apply not_elem_of_nil. }
  destruct (AcceptBlock _ _ _ _) as [nd r1] eqn:Ea. destruct (accept_ok g _ _ _ _ _ _ Ea Hok) as (Hok1 & _).
  destruct (adopt_all env l _) as [fn2 r2] eqn:E2 in E.
  assert (r1 = Throws /\ fn_node fn' = nd /\ r = Throws \/ r1 <> Throws /\ fn' = fn2 /\ r = obind r2 (fun more => Accept (pushed r1 b ++ more)))
    as [(-> & -> & ->)|(Hr1 & -> & ->)] by (destruct r1; injection E as <- <-; [by right..|by left]); [done|].
  destruct (IH _ _ _ E2 Hok1) as [Hok2 Hm]. split; [done|]. destruct r2 as [more|d|]; [|done..]. destruct Hm as (M1 & M2 & M3 & M4). cbn [obind].
  split; [rewrite length_app; assert (length (pushed r1 b) <= 1)%nat by (destruct r1; cbn; lia); cbn [length]; lia|]. split; [done|]. split.
  - intros h. rewrite M3. cbn [mapOrphanBlocks forget_orphan fn_orphans]. rewrite fmap_cons.
    destruct (decide (h = GetBlockHash b)) as [->|Hne].
    + rewrite lookup_delete_eq. rewrite (bool_decide_true (_ ∈ _ :: _)) by set_solver. by case_bool_decide.
    + rewrite lookup_delete_ne by done. apply (f_equal (fun c : bool => if c then _ else _)). apply bool_decide_ext. set_solver.
  - intros k [Hk|[Hk|Hk]]%M4; [|right; left; apply elem_of_app; by right|by right; right].
    destruct (accept_known _ _ _ _ _ _ _ Ea Hr1 Hk) as [|[|]]; [by left|right; left; apply elem_of_app; by left|by right; right].
Qed.

Lemma orphan_count_delete o k l : mapOrphanBlocksByPrev o !! k = Some l ->
  orphan_count o = (length l + map_fold (fun _ l k => (length l + k)%nat) O (delete k (mapOrphanBlocksByPrev o)))%nat.
Proof. intros Hl. unfold orphan_count. apply (map_fold_delete_L (fun _ (l : list CBlock) k => (length l + k)%nat)); [intros; lia|done]. Qed.

(** The orphans of a block leave with their key. *)
Lemma erase_prev_ok fn fn' k l :
  orphans_ok (fn_orphans fn) -> mapOrphanBlocksByPrev (fn_orphans fn') = mapOrphanBlocksByPrev (fn_orphans fn) ->
  l = default [] (mapOrphanBlocksByPrev (fn_orphans fn) !! k) ->
  (forall h, mapOrphanBlocks (fn_orphans fn') !! h =
     if bool_decide (h ∈ GetBlockHash <$> l) then None else mapOrphanBlocks (fn_orphans fn) !! h) ->
  orphans_ok (fn_orphans (erase_prev fn' k)) /\
  (length l + orphan_count (fn_orphans (erase_prev fn' k)) = orphan_count (fn_orphans fn))%nat.
Proof.
  intros [O1 O2] Hp -> Hm. set (l := default [] _) in *. split.
  - split; cbn [fn_orphans erase_prev mapOrphanBlocks mapOrphanBlocksByPrev]; rewrite Hp.
    + intros h b. rewrite Hm. destruct (bool_decide_reflect (h ∈ GetBlockHash <$> l)) as [|Hn]; [done|]. intros Hb.
      destruct (O1 _ _ Hb) as (Eh & l' & El & Hl). split; [done|]. exists l'. split; [|done]. rewrite lookup_delete_ne; [done|]. intros ->.
      apply Hn. unfold l. rewrite El. apply list_elem_of_fmap. by exists b.
    + intros k' l' b [Hne Hl]%lookup_delete_Some Hb. destruct (O2 _ _ _ Hl Hb) as [E1 E2]. split; [done|]. rewrite Hm.
      destruct (bool_decide_reflect (GetBlockHash b ∈ GetBlockHash <$> l)) as [Hin|]; [|done]. exfalso.
      apply list_elem_of_fmap in Hin as (c & Ec & Hc). unfold l in Hc. destruct (mapOrphanBlocksByPrev (fn_orphans fn) !! k) as [lk|] eqn:Ek; [|by apply not_elem_of_nil in Hc].
      destruct (O2 _ _ _ Ek Hc) as [E3 E4]. rewrite <-Ec, E2 in E4. injection E4 as <-. congruence.
  - cbn [fn_orphans erase_prev]. unfold orphan_count at 1. cbn [mapOrphanBlocksByPrev]. rewrite Hp. unfold l.
    destruct (mapOrphanBlocksByPrev (fn_orphans fn) !! k) as [lk|] eqn:Ek; [by rewrite (orphan_count_delete _ _ _ Ek)|]. by rewrite delete_id.
Qed.

(** What waits for a block of the index waited for it before, or is still to be taken
    up, or its block failed. *)
Definition waiting (idx : gmap Z (list CBlockIndex)) (queue : list uint256) (fn : full_node) : Prop :=
  forall k, is_Some (mapOrphanBlocksByPrev (fn_orphans fn) !! k) -> is_Some (mapBlockIndex (fn_node fn) !! k) ->
    is_Some (idx !! k) \/ k ∈ queue \/ failed k.

Lemma adopt_loop_spec g env idx fuel queue fn :
  (length queue + orphan_count (fn_orphans fn) <= fuel)%nat -> node_ok g (fn_node fn) -> orphans_ok (fn_orphans fn) -> waiting idx queue fn ->
  exists fn' r, adopt_loop fuel env queue fn = Some (fn', r) /\ node_ok g (fn_node fn') /\
    match r with Accept _ => orphans_ok (fn_orphans fn') /\ waiting idx [] fn' | Reject _ => False | Throws => True end.
Proof.
  revert queue fn. induction fuel as [|fuel IH]; intros [|k queue] fn Hf Hok Ho Hw; [by exists fn, (Accept tt)|cbn in Hf; lia|by exists fn, (Accept tt)|].
  cbn [adopt_loop]. destruct (adopt_all env _ fn) as [fn1 r1] eqn:Ea. destruct (adopt_all_spec g _ _ _ _ _ Ea Hok) as [Hok1 Hm].
  destruct r1 as [more|d|]; [|done|by exists fn1, Throws]. destruct Hm as (M1 & M2 & M3 & M4).
  destruct (erase_prev_ok fn fn1 k _ Ho M2 eq_refl M3) as [Ho1 Hc]. apply IH; [|exact Hok1|exact Ho1|].
  - cbn [length] in Hf. rewrite length_app. lia.
  - intros h. cbn [fn_orphans fn_node erase_prev mapOrphanBlocksByPrev]. rewrite M2. intros [lh [Hne Hl]%lookup_delete_Some] [Hk|[Hk|Hk]]%M4.
    + destruct (Hw h) as [|[Hq|]]; [by exists lh|done|by left| |by right; right]. apply elem_of_cons in Hq as [->|Hq]; [done|].
      right. left. apply elem_of_app. by left.
    + right. left. apply elem_of_app. by right.
    + by right; right.
Qed.


End laws.

(** ** Instances

    The second block arrives before the first one it follows. *)

Section witnesses.
#[local] Instance toy_sha : Sha256 := toy_sha256.
#[local] Existing Instance z_bn.
#[local] Existing Instance z_arith.
#[local] Existing Instance toy_hashes.
#[local] Existing Instance toy_ec.
#[local] Existing Instance log_secp.
#[local] Existing Instance nonce_hash.

Definition second_coins : CTransaction :=
  plain_tx [{| prevout := {| hash := 0; n := UINT_MAX |}; scriptSig := [82; 7]; nSequence := UINT_MAX |}] [sample_output 0].
Definition second_block : CBlock :=
  {| header := {| bk_nVersion := 1; hashPrevBlock := 11; hashMerkleRoot := BuildMerkleTree [GetHash second_coins]; bk_nTime := 1700000030;
                  nBits := 0x1e0fffff; nNonce := 12 |};
     vtx := [second_coins]; vchBlockSig := []; mwExtBlock := null_mwBlock |}.
Definition process_first : process_env :=
  {| pe_node := first_env; place := fun b => Some (1, GetBlockHash b); fInitialBlockDownload := false |}.
Definition no_orphans : orphans := {| mapOrphanBlocks := ∅; mapOrphanBlocksByPrev := ∅; setStakeSeenOrphan := ∅ |}.
Definition one_orphan : full_node := {| fn_node := first_node; fn_orphans := add_orphan no_orphans second_block |}.

(** It is kept, and taken up with the first. *)
Example second_is_kept :
  match ProcessBlock process_first {| fn_node := first_node; fn_orphans := no_orphans |} second_block with
  | Some (fn, Accept _) => (known (fn_node fn) 12, awaited (fn_orphans fn) 11) | _ => (true, false)
  end = (false, true).
Proof. vm_compute. reflexivity. Qed.
Example second_is_adopted :
  match ProcessBlock process_first one_orphan first_block with
  | Some (fn, Accept _) => (map bi_hash (pindexBest (nd_chain (fn_node fn))), awaited (fn_orphans fn) 11) | _ => ([], true)
  end = ([12; 11; 1], false).
Proof. vm_compute. reflexivity. Qed.

Lemma no_orphans_ok : orphans_ok no_orphans.
Proof. split; intros *; cbn [mapOrphanBlocks mapOrphanBlocksByPrev no_orphans]; rewrite lookup_empty; discriminate. Qed.


End witnesses.

End Orphans.
