(* ===== verification/Database.v ===== *)
(** * The database of the index of transactions ([src/txdb-leveldb.h], [src/txdb-leveldb.cpp])

    [CTxDB]: reads and writes of encoded keys and values, straight to LevelDB or into
    the batch of a transaction, and the entries kept by name.  LevelDB is a class of
    operations with its documented laws. *)

From Stdlib Require Import Strings.String.
From S2P Require Import Prelude Crypto Serialize Mmr MwModels Transactions Sighash TxInputs Base58.
Import Stream MwModels Transactions TxInputs Base58.

Module Database.

(** ** LevelDB *)

Inductive status := Ok (value : bytes) | NotFound | Failed.
Inductive batch_op := Put (key value : bytes) | Delete (key : bytes).

(** The second component of a write says whether its status is [ok]; [NewIterator]
    gives the items in key order with its final status. *)
Class LevelDB (db : Type) := {
  Get : db -> bytes -> status;
  DBPut : db -> bytes -> bytes -> db * bool;
  DBDelete : db -> bytes -> db * bool;
  DBWrite : db -> list batch_op -> db * bool;
  NewIterator : db -> list (bytes * bytes) * bool }.

Definition apply_op (m : gmap bytes bytes) (o : batch_op) : gmap bytes bytes :=
  match o with Put k v => <[k := v]> m | Delete k => delete k m end.
Definition apply_batch (m : gmap bytes bytes) (ops : list batch_op) : gmap bytes bytes := fold_left apply_op ops m.

(** A batch is written as a whole or not at all. *)
Class LevelDBLaws (db : Type) `{LevelDB db} := {
  contents : db -> gmap bytes bytes;
  get_ok d k v : Get d k = Ok v -> contents d !! k = Some v;
  get_missing d k : Get d k = NotFound -> contents d !! k = None;
  put_ok d k v d' : DBPut d k v = (d', true) -> contents d' = <[k := v]> (contents d);
  delete_ok d k d' : DBDelete d k = (d', true) -> contents d' = delete k (contents d);
  write_ok d ops d' : DBWrite d ops = (d', true) -> contents d' = apply_batch (contents d) ops;
  write_failed d ops d' : DBWrite d ops = (d', false) -> contents d' = contents d \/ contents d' = apply_batch (contents d) ops;
  iterator_ok d l : NewIterator d = (l, true) -> NoDup l.*1 /\ list_to_map l = contents d }.

(** ** [CTxDB] *)

Record CTxDB (db : Type) := { pdb : db; activeBatch : option (list batch_op); fReadOnly : bool }.
Arguments pdb {db}.
Arguments activeBatch {db}.
Arguments fReadOnly {db}.

(** [CBatchScanner]: what the last operation on the key was. *)
Record CBatchScanner := { deleted : bool; foundValue : bytes; foundEntry : bool }.
Definition scan_op (needle : bytes) (s : CBatchScanner) (o : batch_op) : CBatchScanner :=
  match o with
  | Put k v => if bool_decide (k = needle) then {| deleted := false; foundValue := v; foundEntry := true |} else s
  | Delete k => if bool_decide (k = needle) then {| deleted := true; foundValue := foundValue s; foundEntry := true |} else s
  end.
Definition ScanBatch (key : bytes) (ops : list batch_op) : CBatchScanner :=
  fold_left (scan_op key) ops {| deleted := false; foundValue := []; foundEntry := false |}.

Section txdb.
Context {db : Type} `{LevelDB db}.

Definition with_pdb (t : CTxDB db) (d : db) : CTxDB db := {| pdb := d; activeBatch := activeBatch t; fReadOnly := fReadOnly t |}.
Definition with_batch (t : CTxDB db) (b : option (list batch_op)) : CTxDB db := {| pdb := pdb t; activeBatch := b; fReadOnly := fReadOnly t |}.

Definition get_value (d : db) (k : bytes) : option bytes := match Get d k with Ok v => Some v | _ => None end.
Definition read_value (t : CTxDB db) (k : bytes) : option bytes :=
  match activeBatch t with
  | None => get_value (pdb t) k
  | Some ops =>
      let s := ScanBatch k ops in
      if deleted s then None else if foundEntry s then Some (foundValue s) else get_value (pdb t) k
  end.

(** [Throws] stands for the assertion that the database may be written. *)
Definition write_value (t : CTxDB db) (k v : bytes) : CTxDB db * outcome bool :=
  if fReadOnly t then (t, Throws)
  else
    match activeBatch t with
    | Some ops => (with_batch t (Some (ops ++ [Put k v])), Accept true)
    | None => let '(d, ok) := DBPut (pdb t) k v in (with_pdb t d, Accept ok)
    end.
Definition erase_value (t : CTxDB db) (k : bytes) : CTxDB db * outcome bool :=
  if fReadOnly t then (t, Throws)
  else
    match activeBatch t with
    | Some ops => (with_batch t (Some (ops ++ [Delete k])), Accept true)
    | None => let '(d, ok) := DBDelete (pdb t) k in (with_pdb t d, Accept ok)
    end.

Definition Read {K T} (ck : codec K) (ct : codec T) (t : CTxDB db) (key : K) : option T :=
  read_value t (Serialize ck key) ≫= fun v => fst <$> Unserialize ct v.
Definition Write {K T} (ck : codec K) (ct : codec T) (t : CTxDB db) (key : K) (value : T) : CTxDB db * outcome bool :=
  write_value t (Serialize ck key) (Serialize ct value).
Definition Erase {K} (ck : codec K) (t : CTxDB db) (key : K) : CTxDB db * outcome bool := erase_value t (Serialize ck key).
Definition Exists {K} (ck : codec K) (t : CTxDB db) (key : K) : bool :=
  let k := Serialize ck key in
  let in_batch := match activeBatch t with Some ops => let s := ScanBatch k ops in foundEntry s && negb (deleted s) | None => false end in
  in_batch || match Get (pdb t) k with NotFound => false | _ => true end.

Definition TxnBegin (t : CTxDB db) : CTxDB db * outcome bool :=
  match activeBatch t with Some _ => (t, Throws) | None => (with_batch t (Some []), Accept true) end.
Definition TxnCommit (t : CTxDB db) : CTxDB db * outcome bool :=
  match activeBatch t with
  | None => (t, Throws)
  | Some ops => let '(d, ok) := DBWrite (pdb t) ops in (with_batch (with_pdb t d) None, Accept ok)
  end.
Definition TxnAbort (t : CTxDB db) : CTxDB db * outcome bool := (with_batch t None, Accept true).

End txdb.

(** ** The entries *)

Definition CLIENT_VERSION : Z := 1000000 * 4 + 10000 * 2 + 100 * 0.

(** [FLATDATA] of three words of memory, on a little-endian machine. *)
Definition c_pos : codec CDiskTxPos :=
  c_record (c_uint 4 ⊗ c_uint 4 ⊗ c_uint 4) (fun p => (nFile p, nBlockPos p, nTxPos p))
    (fun '(f, b, x) => {| nFile := f; nBlockPos := b; nTxPos := x |}).

(** The version is written and, when read, forgotten. *)
Definition c_index : codec CTxIndex :=
  c_record (c_sint 4 ⊗ c_pos ⊗ c_vector c_pos) (fun x => (CLIENT_VERSION, pos x, vSpent x))
    (fun '(_, p, v) => {| pos := p; vSpent := v |}).

Definition c_key : codec (bytes * uint256) := c_string ⊗ c_uint256.

Section entries.
Context {db : Type} `{LevelDB db} `{Sha256}.

Definition ReadTxIndex (t : CTxDB db) (h : uint256) : option CTxIndex := Read c_key c_index t (chars "tx", h).
Definition UpdateTxIndex (t : CTxDB db) (h : uint256) (txindex : CTxIndex) : CTxDB db * outcome bool :=
  Write c_key c_index t (chars "tx", h) txindex.
Definition AddTxIndex (t : CTxDB db) (tx : CTransaction) (p : CDiskTxPos) : CTxDB db * outcome bool :=
  Write c_key c_index t (chars "tx", GetHash tx) (new_index p (len (vout tx))).
Definition EraseTxIndex (t : CTxDB db) (tx : CTransaction) : CTxDB db * outcome bool := Erase c_key t (chars "tx", GetHash tx).
Definition ContainsTx (t : CTxDB db) (h : uint256) : bool := Exists c_key t (chars "tx", h).
Definition ReadHashBestChain (t : CTxDB db) : option uint256 := Read c_string c_uint256 t (chars "hashBestChain").
Definition WriteHashBestChain (t : CTxDB db) (h : uint256) : CTxDB db * outcome bool := Write c_string c_uint256 t (chars "hashBestChain") h.
Definition ReadSyncCheckpoint (t : CTxDB db) : option uint256 := Read c_string c_uint256 t (chars "hashSyncCheckpoint").
Definition WriteSyncCheckpoint (t : CTxDB db) (h : uint256) : CTxDB db * outcome bool := Write c_string c_uint256 t (chars "hashSyncCheckpoint") h.
Definition ReadCheckpointPubKey (t : CTxDB db) : option bytes := Read c_string c_string t (chars "strCheckpointPubKey").
Definition WriteCheckpointPubKey (t : CTxDB db) (s : bytes) : CTxDB db * outcome bool := Write c_string c_string t (chars "strCheckpointPubKey") s.
Definition ReadVersion (t : CTxDB db) : option Z := Read c_string (c_sint 4) t (chars "version").
Definition WriteVersion (t : CTxDB db) (v : Z) : CTxDB db * outcome bool := Write c_string (c_sint 4) t (chars "version") v.

(** [ReadDiskTx]; [ReadFromDisk] reads the transaction at a place in the block files. *)
Definition ReadDiskTx (ReadFromDisk : CDiskTxPos -> option CTransaction) (t : CTxDB db) (h : uint256) : option (CTransaction * CTxIndex) :=
  ReadTxIndex t h ≫= fun txindex => (fun tx => (tx, txindex)) <$> ReadFromDisk (pos txindex).

End entries.

(** * Properties *)

(** ** What a transaction promises

    The specification: the entries on disk and, within a transaction, those it sees. *)
Record session := { disk : gmap bytes bytes; pending : option (gmap bytes bytes) }.
Definition current (s : session) : gmap bytes bytes := default (disk s) (pending s).

Inductive db_op := OWrite (k v : bytes) | OErase (k : bytes) | OBegin | OCommit | OAbort.

Definition change (s : session) (f : gmap bytes bytes -> gmap bytes bytes) : session :=
  match pending s with
  | Some w => {| disk := disk s; pending := Some (f w) |}
  | None => {| disk := f (disk s); pending := None |}
  end.
Definition session_step (s : session) (o : db_op) : session :=
  match o with
  | OWrite k v => change s <[k := v]>
  | OErase k => change s (delete k)
  | OBegin => {| disk := disk s; pending := Some (disk s) |}
  | OCommit => {| disk := current s; pending := None |}
  | OAbort => {| disk := disk s; pending := None |}
  end.

Section laws.
Context {db : Type} `{Laws' : LevelDBLaws db} `{Sha256}.

Definition txdb_step (t : CTxDB db) (o : db_op) : CTxDB db * outcome bool :=
  match o with
  | OWrite k v => write_value t k v
  | OErase k => erase_value t k
  | OBegin => TxnBegin t
  | OCommit => TxnCommit t
  | OAbort => TxnAbort t
  end.
(** The steps that all succeed. *)
Fixpoint txdb_run (t : CTxDB db) (l : list db_op) : option (CTxDB db) :=
  match l with
  | [] => Some t
  | o :: l => match txdb_step t o with (t, Accept true) => txdb_run t l | _ => None end
  end.

Definition abstract (t : CTxDB db) : session :=
  {| disk := contents (pdb t); pending := apply_batch (contents (pdb t)) <$> activeBatch t |}.
Definition view (t : CTxDB db) : gmap bytes bytes := current (abstract t).

Lemma apply_batch_snoc m ops o : apply_batch m (ops ++ [o]) = apply_op (apply_batch m ops) o.
Proof. unfold apply_batch. by rewrite fold_left_app. Qed.

Lemma scan_snoc k ops o : ScanBatch k (ops ++ [o]) = scan_op k (ScanBatch k ops) o.
Proof. unfold ScanBatch. by rewrite fold_left_app. Qed.

(** The scan of a batch finds what its operations leave of a key. *)
Lemma scan_batch_spec m ops k :
  let s := ScanBatch k ops in
  apply_batch m ops !! k = (if deleted s then None else if foundEntry s then Some (foundValue s) else m !! k) /\
  (deleted s = true -> foundEntry s = true).
Proof.
  induction ops as [|o ops [IH1 IH2]] using rev_ind; [done|]. cbv zeta in *. rewrite apply_batch_snoc, scan_snoc.
  destruct o as [k' v|k']; cbn [apply_op scan_op]; case_bool_decide as Hk; cbn [deleted foundEntry foundValue].
  - subst. by rewrite lookup_insert_eq.
  - by rewrite lookup_insert_ne.
  - subst. by rewrite lookup_delete_eq.
  - by rewrite lookup_delete_ne.
Qed.

(** The reads of LevelDB do not fail. *)
Definition healthy (d : db) : Prop := forall k, Get d k <> Failed.

Lemma get_value_spec d k : healthy d -> get_value d k = contents d !! k.
Proof.
  intros Hd. unfold get_value. specialize (Hd k). destruct (Get d k) as [v| |] eqn:E; [|by rewrite (get_missing _ _ E)|done].
  by rewrite (get_ok _ _ _ E).
Qed.

Lemma read_value_spec t k : healthy (pdb t) -> read_value t k = view t !! k.
Proof.
  intros Hd. unfold read_value, view, current, abstract. cbn [pending disk]. destruct (activeBatch t) as [ops|]; cbn; [|by apply get_value_spec].
  destruct (scan_batch_spec (contents (pdb t)) ops k) as [-> _]. by rewrite get_value_spec.
Qed.

Lemma read_value_sound t k v : read_value t k = Some v -> view t !! k = Some v.
Proof.
  unfold read_value, view, current, abstract. cbn [pending disk]. destruct (activeBatch t) as [ops|]; cbn.
  - destruct (scan_batch_spec (contents (pdb t)) ops k) as [-> _]. destruct (deleted _); [done|]. destruct (foundEntry _); [done|].
    unfold get_value. destruct (Get _ _) eqn:E; [|done..]. intros [= <-]. by apply get_ok.
  - unfold get_value. destruct (Get _ _) eqn:E; [|done..]. intros [= <-]. by apply get_ok.
Qed.

Lemma txdb_step_refines t o t' : txdb_step t o = (t', Accept true) -> abstract t' = session_step (abstract t) o.
Proof.
  destruct o as [k v|k| | |]; cbn [txdb_step session_step].
  - unfold write_value. destruct (fReadOnly t); [done|]. destruct (activeBatch t) as [ops|] eqn:Eb.
    + intros [= <-]. unfold abstract, change. cbn. rewrite Eb. cbn. by rewrite apply_batch_snoc.
    + destruct (DBPut _ _ _) as [d ok] eqn:E. intros [= <- ->]. apply put_ok in E. unfold abstract, change. cbn. by rewrite Eb, E.
  - unfold erase_value. destruct (fReadOnly t); [done|]. destruct (activeBatch t) as [ops|] eqn:Eb.
    + intros [= <-]. unfold abstract, change. cbn. rewrite Eb. cbn. by rewrite apply_batch_snoc.
    + destruct (DBDelete _ _) as [d ok] eqn:E. intros [= <- ->]. apply delete_ok in E. unfold abstract, change. cbn. by rewrite Eb, E.
  - unfold TxnBegin. destruct (activeBatch t) eqn:Eb; [done|]. intros [= <-]. unfold abstract. cbn. done.
  - unfold TxnCommit. destruct (activeBatch t) as [ops|] eqn:Eb; [|done]. destruct (DBWrite _ _) as [d ok] eqn:E. intros [= <- ->].
    apply write_ok in E. unfold abstract, current. cbn. by rewrite Eb, E.
  - intros [= <-]. done.
Qed.

(** C10. After any begins, writes, deletions, commits and aborts that all succeed, by
    the laws of LevelDB, the disk holds what was committed, and a read that finds a
    value finds what the open transaction's changes make of the disk; where the reads of
    LevelDB do not fail, a read finds exactly that. A commit that fails has written all
    of the transaction or none of it. *)
Theorem txdb_refines t l t' :
  txdb_run t l = Some t' ->
  abstract t' = fold_left session_step l (abstract t) /\
  (forall k v, read_value t' k = Some v -> current (fold_left session_step l (abstract t)) !! k = Some v) /\
  (healthy (pdb t') -> forall k, read_value t' k = current (fold_left session_step l (abstract t)) !! k) /\
  (forall t2, TxnCommit t' = (t2, Accept false) ->
     pending (abstract t2) = None /\ (disk (abstract t2) = disk (abstract t') \/ disk (abstract t2) = current (abstract t'))).
Proof.
  intros E. assert (abstract t' = fold_left session_step l (abstract t)) as Ha.
  { revert t E. induction l as [|o l IH]; intros t E; cbn [txdb_run] in E; [by injection E as <-|].
    destruct (txdb_step t o) as [t1 [[]|d|]] eqn:Es; [|done..]. cbn [fold_left]. rewrite <-(txdb_step_refines _ _ _ Es). by apply IH. }
  rewrite <-Ha. split; [done|]. split; [intros k v; apply read_value_sound|]. split; [intros Hd k; by apply read_value_spec|].
  intros t2. unfold TxnCommit. destruct (activeBatch t') as [ops|] eqn:Eb; [|done]. destruct (DBWrite _ _) as [d ok] eqn:Ew. intros [= <- ->].
  split; [done|]. unfold abstract, current. cbn. rewrite Eb. exact (write_failed _ _ _ Ew).
Qed.

(** A key a transaction erased still exists where the disk has it. *)
Lemma exists_spec {K} (ck : codec K) t key :
  healthy (pdb t) -> Exists ck t key = bool_decide (is_Some (view t !! Serialize ck key) \/ is_Some (contents (pdb t) !! Serialize ck key)).
Proof.
  intros Hd. unfold Exists, view, current, abstract. cbn [pending disk]. set (k := Serialize ck key).
  assert (match Get (pdb t) k with NotFound => false | _ => true end = bool_decide (is_Some (contents (pdb t) !! k))) as ->.
  { specialize (Hd k). destruct (Get (pdb t) k) eqn:E; [|by rewrite (get_missing _ _ E)|done]. rewrite (get_ok _ _ _ E). by rewrite bool_decide_true. }
  destruct (activeBatch t) as [ops|]; cbn [fmap option_fmap option_map default].
  - destruct (scan_batch_spec (contents (pdb t)) ops k) as [E _]. unfold id. rewrite E. clear E. destruct (deleted _), (foundEntry _); cbn [andb negb orb].
    3: (symmetry; apply bool_decide_eq_true; left; by eexists).
    all: apply bool_decide_ext; split; [by right|]; by intros [[? [=]]|].
  - apply bool_decide_ext. unfold id. tauto.
Qed.

(** ** The index of transactions *)

#[export] Instance pos_fields : Fields (fun p => (nFile p, nBlockPos p, nTxPos p)) (fun '(f, b, x) => {| nFile := f; nBlockPos := b; nTxPos := x |}).
Proof. split; [by intros []|by intros [[] ?]]. Qed.
#[export] Instance pos_laws : Laws c_pos := _.

Lemma index_unserialize x s : wf c_index x -> Unserialize c_index (Serialize c_index x ++ s) = Some (x, s).
Proof.
  intros Hx. unfold c_index, c_record. cbn [Unserialize Serialize]. erewrite bind_ret by (by apply unserialize_serialize).
  unfold ret. by destruct x.
Qed.

Definition tx_key (h : uint256) : bytes := Serialize c_key (chars "tx", h).
Definition u256_ok (h : uint256) : Prop := 0 <= h < 2 ^ 256.

Lemma tx_key_wf h : u256_ok h -> wf c_key (chars "tx", h).
Proof. intros Hh. split; [|exact Hh]. split; [by vm_compute|]. apply (bool_decide_unpack _). by vm_compute. Qed.

Lemma tx_key_inj h1 h2 : u256_ok h1 -> u256_ok h2 -> tx_key h1 = tx_key h2 -> h1 = h2.
Proof. intros H1 H2 E. apply (Sighash.codec_serialize_inj c_key) in E; [congruence|by apply tx_key_wf..]. Qed.

(** The entries a session shows are those of a map, the index of [TxInputs]. *)
Definition represents (m : gmap Z CTxIndex) (w : gmap bytes bytes) : Prop :=
  forall h, u256_ok h -> w !! tx_key h = Serialize c_index <$> m !! h /\ (forall x, m !! h = Some x -> wf c_index x).

Lemma represents_insert m w h x : represents m w -> u256_ok h -> wf c_index x -> represents (<[h := x]> m) (<[tx_key h := Serialize c_index x]> w).
Proof.
  intros Hm Hh Hx k Hk. destruct (decide (k = h)) as [->|Hne].
  - rewrite !lookup_insert_eq. split; [done|]. by intros ? [= <-].
  - rewrite !lookup_insert_ne; [by apply Hm|done|]. intros E. apply Hne. symmetry. by apply tx_key_inj.
Qed.

Lemma represents_delete m w h : represents m w -> u256_ok h -> represents (delete h m) (delete (tx_key h) w).
Proof.
  intros Hm Hh k Hk. destruct (decide (k = h)) as [->|Hne].
  - rewrite !lookup_delete_eq. done.
  - rewrite !lookup_delete_ne; [by apply Hm|done|]. intros E. apply Hne. symmetry. by apply tx_key_inj.
Qed.

(** Within a transaction: the index it sees and the one an abort gives back. *)
Definition tx_index (t : CTxDB db) (seen stored : gmap Z CTxIndex) : Prop :=
  represents seen (view t) /\ represents stored (contents (pdb t)).

Lemma tx_index_change t o f seen stored t' m :
  txdb_step t o = (t', Accept true) -> session_step (abstract t) o = change (abstract t) f ->
  tx_index t seen stored -> represents m (f (view t)) ->
  tx_index t' m (if bool_decide (is_Some (activeBatch t)) then stored else m).
Proof.
  intros E Eo [Hs Hd] Hm. apply txdb_step_refines in E. rewrite Eo in E.
  assert (disk (abstract t') = contents (pdb t')) as Ed by done. unfold tx_index, view. rewrite <-Ed, E. unfold view, abstract, change in *.
  cbn [pending disk] in *. destruct (activeBatch t) as [ops|]; [rewrite bool_decide_true by eauto|rewrite bool_decide_false by (by intros [])]; done.
Qed.

(** C11. Where the reads of LevelDB do not fail and the database represents the map of
    spent outputs that the model of the node uses, for transaction hashes of 256 bits
    and entries that fit their encoding: reads give the entries of the map, an update
    that succeeds inserts and an erasure deletes; a commit stores what the transaction
    saw, and an abort gives back what was stored. *)
Theorem tx_index_refines t seen stored :
  tx_index t seen stored -> healthy (pdb t) ->
  (forall h, u256_ok h -> ReadTxIndex t h = TxInputs.ReadTxIndex seen h) /\
  (forall h x t', u256_ok h -> wf c_index x -> UpdateTxIndex t h x = (t', Accept true) ->
     let m := TxInputs.UpdateTxIndex seen h x in tx_index t' m (if bool_decide (is_Some (activeBatch t)) then stored else m)) /\
  (forall tx t', u256_ok (GetHash tx) -> EraseTxIndex t tx = (t', Accept true) ->
     let m := TxInputs.EraseTxIndex seen tx in tx_index t' m (if bool_decide (is_Some (activeBatch t)) then stored else m)) /\
  (forall t', TxnBegin t = (t', Accept true) -> seen = stored -> tx_index t' seen stored) /\
  (forall t', TxnCommit t = (t', Accept true) -> tx_index t' seen seen) /\
  (forall t', TxnAbort t = (t', Accept true) -> tx_index t' stored stored).
Proof.
  intros Hti Hd. pose proof Hti as [Hs Ho]. split_and!.
  - intros h Hh. unfold ReadTxIndex, Read. rewrite read_value_spec by done. destruct (Hs h Hh) as [E Hw]. fold (tx_key h). rewrite E. unfold TxInputs.ReadTxIndex.
    destruct (seen !! h) as [x|]; [|done]. change (fst <$> Unserialize c_index (Serialize c_index x) = Some x). pose proof (index_unserialize x [] (Hw x eq_refl)) as Hu. rewrite app_nil_r in Hu. by rewrite Hu.
  - intros h x t' Hh Hx E. apply (tx_index_change t (OWrite (tx_key h) (Serialize c_index x)) _ seen stored _ _ E eq_refl Hti). by apply represents_insert.
  - intros tx t' Hh E. apply (tx_index_change t (OErase (tx_key (GetHash tx))) _ seen stored _ _ E eq_refl Hti). by apply represents_delete.
  - intros t' E <-. apply (txdb_step_refines t OBegin) in E. unfold tx_index, view, current. change (contents (pdb t')) with (disk (abstract t')). by rewrite E.
  - intros t' E. apply (txdb_step_refines t OCommit) in E. unfold tx_index, view, current. change (contents (pdb t')) with (disk (abstract t')). by rewrite E.
  - intros t' E. apply (txdb_step_refines t OAbort) in E. unfold tx_index, view, current. change (contents (pdb t')) with (disk (abstract t')). by rewrite E.
Qed.

End laws.

(** ** Instances

    A map of byte strings as the database; its writes never fail. *)
#[export] Instance map_db : LevelDB (gmap bytes bytes) := {
  Get m k := match m !! k with Some v => Ok v | None => NotFound end;
  DBPut m k v := (<[k := v]> m, true);
  DBDelete m k := (delete k m, true);
  DBWrite m ops := (apply_batch m ops, true);
  NewIterator m := (map_to_list m, true) }.
#[export] Instance map_db_laws : LevelDBLaws (gmap bytes bytes).
Proof.
  refine {| contents := fun m : gmap bytes bytes => m |}.
  - intros d k v. cbn. destruct (d !! k) eqn:E; [|done]. by intros [= <-].
  - intros d k. cbn. by destruct (d !! k) eqn:E.
  - by intros d k v d' [= <-].
  - by intros d k d' [= <-].
  - by intros d ops d' [= <-].
  - intros d ops d' [=].
  - intros d l [= <-]. split; [apply NoDup_fst_map_to_list|apply list_to_map_to_list].
Defined.

Lemma map_db_healthy (m : gmap bytes bytes) : healthy m.
Proof. intros k. cbn. by destruct (m !! k). Qed.

Definition empty_txdb : CTxDB (gmap bytes bytes) := {| pdb := ∅; activeBatch := None; fReadOnly := false |}.
Definition some_index : CTxIndex := new_index {| nFile := 1; nBlockPos := 8; nTxPos := 89 |} 2.

(** A transaction that replaces an entry and drops another, seen before it is committed. *)
Definition two_keys : CTxDB (gmap bytes bytes) := with_pdb empty_txdb {[ [1] := [10]; [2] := [20] ]}.
Example erased_still_exists :
  match txdb_run two_keys [OBegin; OErase [1]; OWrite [2] [21]] with
  | Some t => (read_value t [1], read_value t [2], Exists (c_flat 1) t [1], get_value (pdb t) [2])
  | None => (None, None, false, None)
  end = (None, Some [21], true, Some [20]).
Proof. vm_compute. reflexivity. Qed.

Definition committed : CTxDB (gmap bytes bytes) :=
  default empty_txdb (txdb_run two_keys [OBegin; OErase [1]; OWrite [2] [21]; OCommit]).
Lemma committed_runs : txdb_run two_keys [OBegin; OErase [1]; OWrite [2] [21]; OCommit] = Some committed.
Proof. vm_compute. reflexivity. Qed.

Lemma txdb_refines_witness : disk (abstract committed) = {[ [2] := [21] ]}.
Proof.
  destruct (txdb_refines two_keys [OBegin; OErase [1]; OWrite [2] [21]; OCommit] committed committed_runs) as (E & _).
  transitivity (disk (fold_left session_step [OBegin; OErase [1]; OWrite [2] [21]; OCommit] (abstract two_keys))); [exact (f_equal disk E)|].
  vm_compute. reflexivity.
Defined.

Lemma some_index_wf : wf c_index some_index.
Proof.
  assert (forall p : CDiskTxPos, u32 (nFile p) = nFile p -> u32 (nBlockPos p) = nBlockPos p -> u32 (nTxPos p) = nTxPos p -> wf c_pos p) as Hp.
  { intros p E1 E2 E3. assert (forall z, u32 z = z -> wf (c_uint 4) z) as Hu by (intros z <-; apply Z.mod_pos_bound; lia).
    split; [split|]; by apply Hu. }
  split; [split; [|by apply Hp]|split; [done|]].
  - change (- 2 ^ 31 <= CLIENT_VERSION < 2 ^ 31). unfold CLIENT_VERSION. lia.
  - repeat constructor; by apply Hp.
Qed.

Section witnesses.
#[local] Instance toy_sha : Sha256 := toy_sha256.

Lemma empty_represents : represents ∅ (∅ : gmap bytes bytes).
Proof. intros h _. rewrite !lookup_empty. done. Qed.

Lemma empty_tx_index : tx_index empty_txdb ∅ ∅.
Proof. split; exact empty_represents. Qed.

Lemma tx_index_refines_witness : let t := (UpdateTxIndex empty_txdb 5 some_index).1 in ReadTxIndex t 5 = Some some_index.
Proof.
  cbv zeta.
  destruct (tx_index_refines empty_txdb ∅ ∅ empty_tx_index (map_db_healthy _)) as (_ & U & _).
  pose proof (U 5 some_index _ ltac:(done) some_index_wf eq_refl) as Ht. destruct (tx_index_refines _ _ _ Ht (map_db_healthy _)) as (R & _).
  exact (R 5 ltac:(done)).
Defined.

End witnesses.

End Database.
