(* ===== verification/MwStore.v ===== *)
(** * The extension state on disk ([src/mw/state/mw_state.cpp])

    [SaveToDB] and [LoadFromDB]: the entries a state is saved as, in one batch, and
    the state that is read back from what the database holds. *)

From Stdlib Require Import Strings.String.
From S2P Require Import Prelude Crypto Serialize Mmr MwModels Transactions Sighash TxInputs Base58 MwState Database.
Import Stream Mmr MwModels Base58 MwState Database.

Module MwStore.

Definition DB_PREFIX_OUTPUT : bytes := chars "o".
Definition DB_PREFIX_MMRINDEX : bytes := chars "i".
Definition DB_PREFIX_KERNEL : bytes := chars "k".
Definition DB_PREFIX_SPENT : bytes := chars "p".
Definition DB_KEY_MMR : bytes := chars "m".
Definition DB_KEY_META : bytes := chars "s".
Definition DB_KEY_VERSION : bytes := chars "v".
Definition DB_KEY_KERNEL_COUNT : bytes := chars "c".
Definition MWSTATE_DB_VERSION : Z := 1.

Definition c_mmr : codec CMMR :=
  c_record (c_vector c_uint256 ⊗ c_uint 8) (fun m => (vNodes m, nLeaves m)) (fun '(v, n) => {| vNodes := v; nLeaves := n |}).
Definition c_meta : codec (uint256 * Z * Z) := c_uint256 ⊗ c_sint 4 ⊗ c_sint 8.

Definition MakeKey (prefix : bytes) (commit : Commitment) : bytes := prefix ++ commit.
Definition MakeKey_index (prefix : bytes) (nIndex : Z) : bytes := prefix ++ le_bytes 8 nIndex.

(** ** Saving *)

(** The index of a commitment, where it has one. *)
Definition index_entry (s : CMWState) (c : Commitment) : list (bytes * bytes) :=
  match mapMMRIndex s !! c with Some i => [(MakeKey DB_PREFIX_MMRINDEX c, le_bytes 8 i)] | None => [] end.

(** The keys and values of the batch, in its order. *)
Definition save_entries (s : CMWState) : list (bytes * bytes) :=
  [(DB_KEY_VERSION, Serialize (c_sint 4) MWSTATE_DB_VERSION);
   (DB_KEY_META, Serialize c_meta (hashLatestMWBlock s, s_nHeight s, nMWEBSupply s));
   (DB_KEY_MMR, Serialize c_mmr (mmr s))] ++
  concat (map (fun p => (MakeKey DB_PREFIX_OUTPUT p.1, Serialize c_output p.2) :: index_entry s p.1) (in_order (mapOutputs s))) ++
  concat (map (fun c => (MakeKey DB_PREFIX_SPENT c, []) :: index_entry s c) (set_in_order (setSpent s))) ++
  [(DB_KEY_KERNEL_COUNT, le_bytes 8 (len (vKernelExcesses s)))] ++
  imap (fun i k => (MakeKey_index DB_PREFIX_KERNEL (Z.of_nat i), Serialize c_commitment k)) (vKernelExcesses s).
Definition save_batch (s : CMWState) : list batch_op := map (fun e => Put e.1 e.2) (save_entries s).

Section store.
Context {db : Type} `{LevelDB db}.

(** The database at the path, absent where it does not open. *)
Definition SaveToDB (pdb : option db) (s : CMWState) : option db * bool :=
  match pdb with
  | None => (None, false)
  | Some d => let '(d, ok) := DBWrite d (save_batch s) in (Some d, ok)
  end.

(** ** Loading

    What a load that fails leaves in the members is not kept. *)

(** An entry that may be missing; [None] where it cannot be read. *)
Definition load_entry {T} (c : codec T) (d : db) (key : bytes) : option (option T) :=
  match Get d key with
  | Ok v => match Unserialize c v with Some (x, _) => Some (Some x) | None => None end
  | NotFound => Some None
  | Failed => None
  end.

Fixpoint load_kernels (d : db) (i : Z) (n : nat) : option (list Commitment) :=
  match n with
  | O => Some []
  | S n =>
      match Get d (MakeKey_index DB_PREFIX_KERNEL i) with
      | Ok v =>
          match Unserialize c_commitment v with
          | Some (excess, _) => (fun l => excess :: l) <$> load_kernels d (i + 1) n
          | None => None
          end
      | _ => None
      end
  end.

Definition load_kernel_list (d : db) : option (list Commitment) :=
  match Get d DB_KEY_KERNEL_COUNT with
  | Ok v => match Unserialize (c_uint 8) v with Some (nKernelCount, _) => load_kernels d 0 (Z.to_nat nKernelCount) | None => None end
  | _ => Some []
  end.

Record loaded := { ld_outputs : gmap bytes CMWOutput; ld_index : gmap bytes Z; ld_spent : gset bytes }.

(** An item under one of the prefixes, before a commitment. *)
Definition load_item (r : loaded) (item : bytes * bytes) : option loaded :=
  match item.1 with
  | [] => Some r
  | cPrefix :: commit =>
      if bool_decide ([cPrefix] = DB_PREFIX_OUTPUT) && (len item.1 =? 1 + Z.of_nat COMMITMENT_SIZE) then
        match Unserialize c_output item.2 with
        | Some (output, _) => Some {| ld_outputs := <[commit := output]> (ld_outputs r); ld_index := ld_index r; ld_spent := ld_spent r |}
        | None => None
        end
      else if bool_decide ([cPrefix] = DB_PREFIX_MMRINDEX) && (len item.1 =? 1 + Z.of_nat COMMITMENT_SIZE) then
        match Unserialize (c_uint 8) item.2 with
        | Some (nIdx, _) => Some {| ld_outputs := ld_outputs r; ld_index := <[commit := nIdx]> (ld_index r); ld_spent := ld_spent r |}
        | None => None
        end
      else if bool_decide ([cPrefix] = DB_PREFIX_SPENT) && (len item.1 =? 1 + Z.of_nat COMMITMENT_SIZE) then
        Some {| ld_outputs := ld_outputs r; ld_index := ld_index r; ld_spent := {[ commit ]} ∪ ld_spent r |}
      else Some r
  end.

Definition no_items : loaded := {| ld_outputs := ∅; ld_index := ∅; ld_spent := ∅ |}.
Definition load_items (l : list (bytes * bytes)) (r : loaded) : option loaded :=
  fold_left (fun r item => r ≫= fun r => load_item r item) l (Some r).

Definition LoadFromDB (pdb : option db) (s : CMWState) : option CMWState :=
  match pdb with
  | None => None
  | Some d =>
      load_entry (c_sint 4) d DB_KEY_VERSION ≫= fun nVersion =>
      if match nVersion with Some v => negb (v =? MWSTATE_DB_VERSION) | None => false end then None
      else
        load_entry c_meta d DB_KEY_META ≫= fun meta =>
        load_entry c_mmr d DB_KEY_MMR ≫= fun m =>
        load_kernel_list d ≫= fun kernels =>
        let '(l, ok) := NewIterator d in
        load_items l no_items ≫= fun r =>
        if negb ok then None
        else
          let '(h, n, supply) := default (0, 0, 0) meta in
          Some {| mapOutputs := ld_outputs r; setSpent := ld_spent r; mmr := default empty_mmr m; mapMMRIndex := ld_index r;
                  vKernelExcesses := kernels; hashLatestMWBlock := h; s_nHeight := n; nMWEBSupply := supply;
                  mapBlockUndo := mapBlockUndo s; dqUndoOrder := dqUndoOrder s |}
  end.

End store.

(** * Properties *)

#[export] Instance mmr_fields : Fields (fun m => (vNodes m, nLeaves m)) (fun '(v, n) => {| vNodes := v; nLeaves := n |}).
Proof. split; [by intros []|by intros []]. Qed.
#[export] Instance mmr_laws : Laws c_mmr := _.
#[export] Instance meta_laws : Laws c_meta := _.

(** ** What is written *)

Inductive entry_of (s : CMWState) : bytes -> bytes -> Prop :=
  | e_version : entry_of s DB_KEY_VERSION (Serialize (c_sint 4) MWSTATE_DB_VERSION)
  | e_meta : entry_of s DB_KEY_META (Serialize c_meta (hashLatestMWBlock s, s_nHeight s, nMWEBSupply s))
  | e_mmr : entry_of s DB_KEY_MMR (Serialize c_mmr (mmr s))
  | e_output c o : mapOutputs s !! c = Some o -> entry_of s (111 :: c) (Serialize c_output o)
  | e_index c i : mapMMRIndex s !! c = Some i -> is_Some (mapOutputs s !! c) \/ c ∈ setSpent s -> entry_of s (105 :: c) (le_bytes 8 i)
  | e_spent c : c ∈ setSpent s -> entry_of s (112 :: c) []
  | e_count : entry_of s DB_KEY_KERNEL_COUNT (le_bytes 8 (len (vKernelExcesses s)))
  | e_kernel i k b : vKernelExcesses s !! i = Some k -> b = le_bytes 8 (Z.of_nat i) -> entry_of s (107 :: b) (Serialize c_commitment k).

Lemma index_entry_spec s c e : e ∈ index_entry s c <-> exists i, mapMMRIndex s !! c = Some i /\ e = (105 :: c, le_bytes 8 i).
Proof.
  unfold index_entry. destruct (mapMMRIndex s !! c) as [i|].
  - rewrite list_elem_of_singleton. split; [intros ->; by exists i|]. by intros (? & [= <-] & ->).
  - split; [by intros ?%not_elem_of_nil|]. by intros (? & ? & _).
Qed.

Lemma in_order_spec {T} (m : gmap bytes T) c x : (c, x) ∈ in_order m <-> m !! c = Some x.
Proof. unfold in_order. rewrite std_sort_permutation. apply elem_of_map_to_list. Qed.

Lemma concat_spec {A B} (f : A -> list B) l y : y ∈ concat (map f l) <-> exists x, x ∈ l /\ y ∈ f x.
Proof.
  rewrite list_elem_of_In, in_concat. split.
  - intros (k & (x & <- & Hx)%in_map_iff & Hy). exists x. by rewrite !list_elem_of_In.
  - intros (x & Hx%list_elem_of_In & Hy%list_elem_of_In). exists (f x). split; [by apply in_map|done].
Qed.

Lemma save_entries_spec s k v : (k, v) ∈ save_entries s <-> entry_of s k v.
Proof.
  unfold save_entries. rewrite !elem_of_app, !concat_spec. split.
  - intros [H1|[(p & Hp & H1)|[(c & Hc & H1)|[H1|H1]]]].
    + repeat (apply elem_of_cons in H1 as [[= -> ->]|H1]; [constructor|]). by apply not_elem_of_nil in H1.
    + destruct p as [c o]. apply in_order_spec in Hp. apply elem_of_cons in H1 as [[= -> ->]|H1]; [by constructor|].
      apply index_entry_spec in H1 as (i & Hi & [= -> ->]). constructor; [done|]. left. by exists o.
    + unfold set_in_order in Hc. rewrite std_sort_permutation, elem_of_elements in Hc. apply elem_of_cons in H1 as [[= -> ->]|H1]; [by constructor|].
      apply index_entry_spec in H1 as (i & Hi & [= -> ->]). constructor; [done|by right].
    + apply list_elem_of_singleton in H1 as [= -> ->]. constructor.
    + apply elem_of_lookup_imap in H1 as (i & x & [= -> ->] & Hx). by apply (e_kernel s i).
  - destruct 1 as [| | |c o Ho|c i Hi [[o Ho]|Hc]|c Hc| |i x b Hx ->].
    1-3: left; rewrite !elem_of_cons; tauto.
    + right; left. exists (c, o). rewrite in_order_spec. split; [done|]. apply elem_of_cons. by left.
    + right; left. exists (c, o). rewrite in_order_spec. split; [done|]. apply elem_of_cons. right. apply index_entry_spec. by exists i.
    + right; right; left. exists c. unfold set_in_order. rewrite std_sort_permutation, elem_of_elements. split; [done|].
      apply elem_of_cons. right. apply index_entry_spec. by exists i.
    + right; right; left. exists c. unfold set_in_order. rewrite std_sort_permutation, elem_of_elements. split; [done|]. apply elem_of_cons. by left.
    + right; right; right; left. by apply list_elem_of_singleton.
    + right; right; right; right. apply elem_of_lookup_imap. by exists i, x.
Qed.

(** What fits the encodings. *)
Record storable (s : CMWState) : Prop := {
  st_outputs c o : mapOutputs s !! c = Some o -> length c = COMMITMENT_SIZE /\ wf c_output o;
  st_index c i : mapMMRIndex s !! c = Some i -> length c = COMMITMENT_SIZE /\ 0 <= i < 2 ^ 64;
  st_spent c : c ∈ setSpent s -> length c = COMMITMENT_SIZE;
  st_mmr : wf c_mmr (mmr s);
  st_meta : wf c_meta (hashLatestMWBlock s, s_nHeight s, nMWEBSupply s);
  st_kernels : Forall (wf c_commitment) (vKernelExcesses s);
  st_count : len (vKernelExcesses s) < 2 ^ 64 }.

Lemma entry_functional s k v1 v2 : storable s -> entry_of s k v1 -> entry_of s k v2 -> v1 = v2.
Proof.
  intros Hs H1 H2. destruct H1 as [| | |c o Ho|c i Hi _|c Hc| |i x b Hx Hb]; inversion H2 as [Hk|Hk|Hk|c' o' Ho' Hk|c' i' Hi' _ Hk|c' Hc' Hk|Hk|i' x' b' Hx' Hk Hb']; subst; try done; try congruence.
  pose proof (lookup_lt_Some _ _ _ Hx). pose proof (lookup_lt_Some _ _ _ Hx'). pose proof (st_count _ Hs) as Hc. unfold len in Hc.
  match goal with E : le_bytes 8 _ = le_bytes 8 _ |- _ =>
    apply (f_equal le_value) in E; rewrite !le_value_bytes_id in E by (cbn; lia); apply Nat2Z.inj in E; subst end. congruence.
Qed.

Lemma batch_lookup m l k v :
  (k, v) ∈ l -> (forall v', (k, v') ∈ l -> v' = v) -> apply_batch m (map (fun e => Put e.1 e.2) l) !! k = Some v.
Proof.
  intros Hin Hf. induction l as [|[k1 v1] l IH] using rev_ind; [by apply not_elem_of_nil in Hin|].
  rewrite map_app. cbn [map fst snd]. rewrite apply_batch_snoc. cbn [apply_op]. destruct (decide (k1 = k)) as [->|Hne].
  - rewrite lookup_insert_eq. f_equal. apply Hf, elem_of_app. right. by apply list_elem_of_singleton.
  - rewrite lookup_insert_ne by done. apply IH.
    + apply elem_of_app in Hin as [|E]; [done|]. apply list_elem_of_singleton in E as [= -> ->]. done.
    + intros v' Hv'. apply Hf, elem_of_app. by left.
Qed.

Lemma batch_other m l k : (forall v, (k, v) ∉ l) -> apply_batch m (map (fun e => Put e.1 e.2) l) !! k = m !! k.
Proof.
  intros Hn. induction l as [|[k1 v1] l IH] using rev_ind; [done|].
  rewrite map_app. cbn [map fst snd]. rewrite apply_batch_snoc. cbn [apply_op]. rewrite lookup_insert_ne.
  - apply IH. intros v Hv. apply (Hn v), elem_of_app. by left.
  - intros ->. apply (Hn v1), elem_of_app. right. by apply list_elem_of_singleton.
Qed.

(** The keys and values a save leaves, over those that were there. *)
Lemma saved_key m s k v : storable s -> entry_of s k v -> apply_batch m (save_batch s) !! k = Some v.
Proof.
  intros Hs He. apply batch_lookup; [by apply save_entries_spec|]. intros v' Hv'%save_entries_spec. by eapply entry_functional.
Qed.
Lemma saved_other m s k : (forall v, ~ entry_of s k v) -> apply_batch m (save_batch s) !! k = m !! k.
Proof. intros Hn. apply batch_other. intros v Hv%save_entries_spec. by apply (Hn v). Qed.

(** ** The items of a database *)

(** The outputs, indices and spent commitments among the entries of a database. *)
Record holds (m : gmap bytes bytes) (O : gmap bytes CMWOutput) (I : gmap bytes Z) (P : gset bytes) : Prop := {
  ho_outputs c : m !! (111 :: c) = Serialize c_output <$> O !! c;
  ho_index c : m !! (105 :: c) = le_bytes 8 <$> I !! c;
  ho_spent c : m !! (112 :: c) = if bool_decide (c ∈ P) then Some [] else None;
  ho_outputs_ok c o : O !! c = Some o -> length c = COMMITMENT_SIZE /\ wf c_output o;
  ho_index_ok c i : I !! c = Some i -> length c = COMMITMENT_SIZE /\ 0 <= i < 2 ^ 64;
  ho_spent_ok c : c ∈ P -> length c = COMMITMENT_SIZE }.

(** The index is written of the commitments that are outputs or spent. *)
Definition saved_index (s : CMWState) : gmap bytes Z :=
  filter (fun p => is_Some (mapOutputs s !! p.1) \/ p.1 ∈ setSpent s) (mapMMRIndex s).

Lemma saved_index_spec s c i : saved_index s !! c = Some i <-> mapMMRIndex s !! c = Some i /\ (is_Some (mapOutputs s !! c) \/ c ∈ setSpent s).
Proof. apply map_lookup_filter_Some. Qed.

Lemma save_holds m O I P s :
  holds m O I P -> storable s -> holds (apply_batch m (save_batch s)) (mapOutputs s ∪ O) (saved_index s ∪ I) (setSpent s ∪ P).
Proof.
  intros [H1 H2 H3 H4 H5 H6] Hs. split.
  - intros c. destruct (mapOutputs s !! c) as [o|] eqn:E.
    + rewrite (lookup_union_Some_l _ _ _ _ E). apply saved_key; [done|by constructor].
    + rewrite lookup_union_r by done. rewrite saved_other; [done|]. intros v Hv. inversion Hv; congruence.
  - intros c. destruct (saved_index s !! c) as [i|] eqn:E.
    + rewrite (lookup_union_Some_l _ _ _ _ E). apply saved_index_spec in E as [E1 E2]. apply saved_key; [done|by constructor].
    + rewrite lookup_union_r by done. rewrite saved_other; [done|]. intros v Hv. inversion Hv as [| | | |c' i Hi Hc| | |]; subst.
      assert (saved_index s !! c = Some i) by (by apply saved_index_spec). congruence.
  - intros c. destruct (decide (c ∈ setSpent s)) as [Hc|Hc].
    + rewrite bool_decide_true by set_solver. apply saved_key; [done|by constructor].
    + rewrite saved_other; [|intros v Hv; by inversion Hv]. rewrite H3. case_bool_decide; case_bool_decide; set_solver.
  - intros c o [?|[_ ?]]%lookup_union_Some_raw; [by apply (st_outputs _ Hs)|by apply H4].
  - intros c i [E|[_ ?]]%lookup_union_Some_raw; [|by apply H5]. apply saved_index_spec in E as [E _]. by apply (st_index _ Hs).
  - intros c [?|?]%elem_of_union; [by apply (st_spent _ Hs)|by apply H6].
Qed.

Lemma load_item_other r k v : (forall c, k <> 111 :: c /\ k <> 105 :: c /\ k <> 112 :: c) -> load_item r (k, v) = Some r.
Proof.
  intros Hk. unfold load_item. cbn [fst snd]. destruct k as [|p c]; [done|]. destruct (Hk c) as (N1 & N2 & N3).
  assert (forall q, p :: c <> q :: c -> bool_decide ([p] = [q]) = false) as Hq by (intros q Hq; apply bool_decide_false; congruence).
  change DB_PREFIX_OUTPUT with [111]. change DB_PREFIX_MMRINDEX with [105]. change DB_PREFIX_SPENT with [112]. by rewrite !Hq.
Qed.

Lemma key_size (c : bytes) p : length c = COMMITMENT_SIZE -> (len (p :: c) =? 1 + Z.of_nat COMMITMENT_SIZE) = true.
Proof. intros Hc. rewrite len_cons. unfold len. rewrite Hc. reflexivity. Qed.

Lemma parse_whole {A} (c : codec A) `{Laws A c} x : wf c x -> Unserialize c (Serialize c x) = Some (x, []).
Proof. intros Hx. pose proof (unserialize_serialize x [] Hx) as E. by rewrite app_nil_r in E. Qed.

Lemma load_item_output r c o :
  length c = COMMITMENT_SIZE -> wf c_output o ->
  load_item r (111 :: c, Serialize c_output o) = Some {| ld_outputs := <[c := o]> (ld_outputs r); ld_index := ld_index r; ld_spent := ld_spent r |}.
Proof.
  intros Hc Ho. unfold load_item. cbn [fst snd]. rewrite key_size by done. rewrite (parse_whole c_output) by done. reflexivity.
Qed.
Lemma load_item_index r c i :
  length c = COMMITMENT_SIZE -> 0 <= i < 2 ^ 64 ->
  load_item r (105 :: c, le_bytes 8 i) = Some {| ld_outputs := ld_outputs r; ld_index := <[c := i]> (ld_index r); ld_spent := ld_spent r |}.
Proof.
  intros Hc Hi. unfold load_item. cbn [fst snd]. rewrite key_size by done. change (le_bytes 8 i) with (Serialize (c_uint 8) i). rewrite (parse_whole (c_uint 8)) by done. reflexivity.
Qed.
Lemma load_item_spent r c :
  length c = COMMITMENT_SIZE -> load_item r (112 :: c, []) = Some {| ld_outputs := ld_outputs r; ld_index := ld_index r; ld_spent := {[ c ]} ∪ ld_spent r |}.
Proof. intros Hc. unfold load_item. cbn [fst snd]. rewrite key_size by done. reflexivity. Qed.

(** What the items without the first one hold. *)
Lemma holds_delete m O I P k v :
  holds (<[k := v]> m) O I P -> m !! k = None ->
  (exists c o, k = 111 :: c /\ v = Serialize c_output o /\ O !! c = Some o /\ holds m (delete c O) I P) \/
  (exists c i, k = 105 :: c /\ v = le_bytes 8 i /\ I !! c = Some i /\ holds m O (delete c I) P) \/
  (exists c, k = 112 :: c /\ v = [] /\ c ∈ P /\ holds m O I (P ∖ {[ c ]})) \/
  (forall c, k <> 111 :: c /\ k <> 105 :: c /\ k <> 112 :: c) /\ holds m O I P.
Proof.
  intros [H1 H2 H3 H4 H5 H6] Hk.
  assert (forall q, q <> k -> <[k := v]> m !! q = m !! q) as Hm by (intros q Hq; by rewrite lookup_insert_ne).
  destruct k as [|p c]; [right; right; right; split; [done|]; split; try done; intros c; rewrite <-Hm; done|].
  destruct (decide (p = 111)) as [->|N1]; [left|destruct (decide (p = 105)) as [->|N2]; [right; left|destruct (decide (p = 112)) as [->|N3]; right; right; [left|right]]].
  - pose proof (H1 c) as E. rewrite lookup_insert_eq in E. destruct (O !! c) as [o|] eqn:Eo; [|done]. injection E as ->. exists c, o. split_and!; try done.
    split; try done.
    + intros c'. destruct (decide (c' = c)) as [->|Hne]; [by rewrite lookup_delete_eq, Hk|]. rewrite lookup_delete_ne by done. rewrite <-Hm by congruence. apply H1.
    + intros c'. rewrite <-Hm by done. apply H2.
    + intros c'. rewrite <-Hm by done. apply H3.
    + intros c' o' [_ E]%lookup_delete_Some. by apply H4.
  - pose proof (H2 c) as E. rewrite lookup_insert_eq in E. destruct (I !! c) as [i|] eqn:Ei; [|done]. injection E as ->. exists c, i. split_and!; try done.
    split; try done.
    + intros c'. rewrite <-Hm by done. apply H1.
    + intros c'. destruct (decide (c' = c)) as [->|Hne]; [by rewrite lookup_delete_eq, Hk|]. rewrite lookup_delete_ne by done. rewrite <-Hm by congruence. apply H2.
    + intros c'. rewrite <-Hm by done. apply H3.
    + intros c' i' [_ E]%lookup_delete_Some. by apply H5.
  - pose proof (H3 c) as E. rewrite lookup_insert_eq in E. case_bool_decide as Hc; [|done]. injection E as ->. exists c. split_and!; try done.
    split; try done.
    + intros c'. rewrite <-Hm by done. apply H1.
    + intros c'. rewrite <-Hm by done. apply H2.
    + intros c'. destruct (decide (c' = c)) as [->|Hne]; [rewrite bool_decide_false by set_solver; done|]. rewrite <-Hm by congruence. rewrite H3.
      case_bool_decide; case_bool_decide; set_solver.
    + intros c' Hc'. apply H6. set_solver.
  - split; [intros c'; split_and!; congruence|]. split; try done; intros c'; rewrite <-Hm by congruence; auto.
Qed.

Lemma union_insert_delete {T} (m : gmap bytes T) c x r : m !! c = Some x -> delete c m ∪ <[c := x]> r = m ∪ r.
Proof.
  intros Hc. apply map_eq. intros k. destruct (decide (k = c)) as [->|Hne].
  - rewrite lookup_union_r by apply lookup_delete_eq. by rewrite lookup_insert_eq, (lookup_union_Some_l _ _ _ _ Hc).
  - rewrite !lookup_union, lookup_delete_ne, lookup_insert_ne by done. done.
Qed.

Lemma load_items_cons e l r r' : load_item r e = Some r' -> load_items (e :: l) r = load_items l r'.
Proof. intros E. unfold load_items. cbn [fold_left mbind option_bind]. by rewrite E. Qed.

Lemma load_items_spec l O I P r :
  holds (list_to_map l) O I P -> NoDup l.*1 ->
  load_items l r = Some {| ld_outputs := O ∪ ld_outputs r; ld_index := I ∪ ld_index r; ld_spent := P ∪ ld_spent r |}.
Proof.
  revert O I P r. induction l as [|[k v] l IH]; intros O I P r Hh Hn.
  - destruct Hh as [H1 H2 H3 _ _ _].
    assert (O = ∅) as -> by (apply map_empty; intros c; specialize (H1 c); cbn in H1; rewrite lookup_empty in H1; by destruct (O !! c)).
    assert (I = ∅) as -> by (apply map_empty; intros c; specialize (H2 c); cbn in H2; rewrite lookup_empty in H2; by destruct (I !! c)).
    assert (P = ∅) as -> by (apply elem_of_equiv_empty_L; intros c Hc; specialize (H3 c); by rewrite bool_decide_true in H3).
    rewrite !(left_id_L ∅ (∪)). by destruct r.
  - rewrite fmap_cons in Hn. apply NoDup_cons in Hn as [Hk Hn]. rewrite list_to_map_cons in Hh. cbn [fst snd] in Hk. pose proof Hh as Hok. apply holds_delete in Hh; [|by apply not_elem_of_list_to_map_1].
    destruct Hh as [(c & o & -> & -> & Hc & Hh)|[(c & i & -> & -> & Hc & Hh)|[(c & -> & -> & Hc & Hh)|[Hk' Hh]]]].
    + destruct (ho_outputs_ok _ _ _ _ Hok c o Hc) as [Hl Hw]. erewrite load_items_cons by (by apply load_item_output). erewrite IH by done.
      cbn [ld_outputs ld_index ld_spent]. by rewrite union_insert_delete.
    + destruct (ho_index_ok _ _ _ _ Hok c i Hc) as [Hl Hw]. erewrite load_items_cons by (by apply load_item_index). erewrite IH by done.
      cbn [ld_outputs ld_index ld_spent]. by rewrite union_insert_delete.
    + pose proof (ho_spent_ok _ _ _ _ Hok c Hc) as Hl. erewrite load_items_cons by (by apply load_item_spent). erewrite IH by done.
      cbn [ld_outputs ld_index ld_spent]. f_equal. f_equal. apply set_eq. intros x. destruct (decide (x = c)); set_solver.
    + erewrite load_items_cons by (by apply load_item_other). by apply IH.
Qed.

(** ** Saves and a load *)

Section laws.
Context {db : Type} `{Laws' : LevelDBLaws db}.

(** Saves that all succeed. *)
Fixpoint save_all (d : db) (l : list CMWState) : option db :=
  match l with
  | [] => Some d
  | s :: l => match SaveToDB (Some d) s with (Some d, true) => save_all d l | _ => None end
  end.

Definition saves (m : gmap bytes bytes) (l : list CMWState) : gmap bytes bytes :=
  fold_left (fun m s => apply_batch m (save_batch s)) l m.
Definition merged {T} `{Union T, Empty T} (f : CMWState -> T) (l : list CMWState) : T := fold_left (fun m s => f s ∪ m) l ∅.

Lemma save_all_contents d l d' : save_all d l = Some d' -> contents d' = saves (contents d) l.
Proof.
  revert d. induction l as [|s l IH]; intros d; cbn [save_all SaveToDB]; [by intros [= <-]|].
  destruct (DBWrite d (save_batch s)) as [d1 ok] eqn:E. destruct ok; [|done]. intros E'. rewrite (IH _ E'), (write_ok _ _ _ E). done.
Qed.

Lemma saves_hold l : Forall storable l -> holds (saves ∅ l) (merged mapOutputs l) (merged saved_index l) (merged setSpent l).
Proof.
  induction l as [|s l IH] using rev_ind.
  - intros _. split; unfold saves, merged; cbn [fold_left]; intros *; rewrite ?lookup_empty; done.
  - intros [Hl Hs]%Forall_app. unfold saves, merged. rewrite !fold_left_app. cbn [fold_left]. apply save_holds; [by apply IH|by inversion Hs].
Qed.

Lemma get_stored d k v : healthy d -> contents d !! k = Some v -> Get d k = Ok v.
Proof.
  intros Hd E. specialize (Hd k). destruct (Get d k) as [v'| |] eqn:Eg; [|by rewrite (get_missing _ _ Eg) in E|done].
  apply get_ok in Eg. congruence.
Qed.

Section one.
Context (d : db) (m : gmap bytes bytes) (s : CMWState) (Hd : healthy d) (Hs : storable s) (Hm : contents d = apply_batch m (save_batch s)).

Lemma stored_entry k v : entry_of s k v -> Get d k = Ok v.
Proof using All. intros He. apply get_stored; [done|]. rewrite Hm. by apply saved_key. Qed.

Lemma load_entry_stored {T} (c : codec T) `{Laws T c} k x : entry_of s k (Serialize c x) -> wf c x -> load_entry c d k = Some (Some x).
Proof using All. intros He Hx. unfold load_entry. rewrite (stored_entry _ _ He). by rewrite (parse_whole c). Qed.

Lemma load_kernels_stored l1 l2 : vKernelExcesses s = l1 ++ l2 -> load_kernels d (len l1) (length l2) = Some l2.
Proof using All.
  revert l1. induction l2 as [|k l2 IH]; intros l1 E; [done|]. cbn [load_kernels length].
  assert (vKernelExcesses s !! length l1 = Some k) as Hk by (rewrite E; by apply list_lookup_middle).
  change (MakeKey_index DB_PREFIX_KERNEL (len l1)) with (107 :: le_bytes 8 (Z.of_nat (length l1))). rewrite (stored_entry _ _ (e_kernel s _ _ _ Hk eq_refl)).
  rewrite (parse_whole c_commitment) by (by apply (Forall_lookup_1 _ _ _ _ (st_kernels _ Hs) Hk)).
  specialize (IH (l1 ++ [k])). rewrite len_app in IH. change (len [k]) with 1 in IH. rewrite IH; [done|]. by rewrite <-app_assoc.
Qed.

Lemma load_kernel_list_stored : load_kernel_list d = Some (vKernelExcesses s).
Proof using All.
  unfold load_kernel_list. rewrite (stored_entry _ _ (e_count s)). change (le_bytes 8 (len (vKernelExcesses s))) with (Serialize (c_uint 8) (len (vKernelExcesses s))).
  rewrite (parse_whole (c_uint 8)) by (split; [apply len_pos|apply Hs]). unfold len at 1. rewrite Nat2Z.id.
  exact (load_kernels_stored [] (vKernelExcesses s) eq_refl).
Qed.

End one.

(** C16. Save states into an empty database one after another, the states of a size that
    fits the encodings, the saves all successful and the reads of LevelDB not failing.
    [LoadFromDB] then gives the last one as it was, but for the undo records, which stay
    those of the state that loads, and for the indices of commitments that are neither
    outputs nor spent, which are not saved. A save erases nothing: outputs, spent
    commitments and indices of the earlier saves that the last one lacks are loaded as
    well, spent outputs among them. *)
Theorem saves_load d0 before s d t :
  contents d0 = ∅ -> save_all d0 (before ++ [s]) = Some d -> Forall storable (before ++ [s]) -> healthy d -> (NewIterator d).2 = true ->
  LoadFromDB (Some d) t = Some {|
    mapOutputs := mapOutputs s ∪ merged mapOutputs before; setSpent := setSpent s ∪ merged setSpent before; mmr := mmr s;
    mapMMRIndex := saved_index s ∪ merged saved_index before; vKernelExcesses := vKernelExcesses s;
    hashLatestMWBlock := hashLatestMWBlock s; s_nHeight := s_nHeight s; nMWEBSupply := nMWEBSupply s;
    mapBlockUndo := mapBlockUndo t; dqUndoOrder := dqUndoOrder t |}.
Proof.
  intros H0' E%save_all_contents Hl Hd Hi. rewrite H0' in E. pose proof (saves_hold _ Hl) as Hh. rewrite <-E in Hh.
  unfold saves in E. rewrite fold_left_app in E. cbn [fold_left] in E. unfold merged in Hh. rewrite !fold_left_app in Hh. cbn [fold_left] in Hh.
  apply Forall_app in Hl as [_ Hs]. apply Forall_inv in Hs. unfold LoadFromDB.
  rewrite (load_entry_stored d _ s Hd Hs E (c_sint 4) DB_KEY_VERSION MWSTATE_DB_VERSION (e_version s)) by (vm_compute; split; [discriminate|reflexivity]).
  rewrite (load_entry_stored d _ s Hd Hs E c_meta DB_KEY_META _ (e_meta s)) by apply Hs.
  rewrite (load_entry_stored d _ s Hd Hs E c_mmr DB_KEY_MMR _ (e_mmr s)) by apply Hs.
  rewrite (load_kernel_list_stored d _ s Hd Hs E). cbn [mbind option_bind]. change (negb (MWSTATE_DB_VERSION =? MWSTATE_DB_VERSION)) with false. cbv iota.
  destruct (NewIterator d) as [l ok] eqn:El. cbn [snd] in Hi. subst ok. apply iterator_ok in El as [Hn Hl]. rewrite <-Hl in Hh.
  rewrite (load_items_spec _ _ _ _ no_items Hh Hn). cbn [mbind option_bind negb ld_outputs ld_index ld_spent no_items]. rewrite !(right_id_L ∅ (∪)). done.
Qed.

End laws.

(** ** Instances

    An output is saved, spent and saved again: the load finds it unspent, and spent. *)

Section witnesses.
#[local] Instance toy_sha : Sha256 := toy_sha256.

Definition kept_output : CMWOutput :=
  {| o_commitment := 8 :: replicate 32 1; senderPubKey := 2 :: replicate 32 1; receiverPubKey := 3 :: replicate 32 1; rangeProof := []; o_nFeatures := 0 |}.
Definition kept_commitment : Commitment := 8 :: replicate 32 1.
Definition with_output : CMWState := (AddOutput fresh_state kept_output).1.
Definition spent_output : CMWState := (SpendOutput with_output kept_commitment).1.
Definition saved_twice : gmap bytes bytes := default ∅ (save_all ∅ [with_output; spent_output]).

Example spent_output_returns :
  match LoadFromDB (Some saved_twice) fresh_state with
  | Some s => (HasOutput s kept_commitment, bool_decide (kept_commitment ∈ setSpent s), HasOutput spent_output kept_commitment)
  | None => (false, false, false)
  end = (true, true, false).
Proof. vm_compute. reflexivity. Qed.

Lemma saved_twice_saved : save_all (∅ : gmap bytes bytes) [with_output; spent_output] = Some saved_twice.
Proof. reflexivity. Qed.

Lemma fixed_wf n l : length l = n -> forallb (fun b => (0 <=? b) && (b <? 256)) l = true -> wf (c_flat n) l.
Proof. intros Hl Hb. split; [done|]. apply Forall_forall. intros b Hin. rewrite forallb_forall in Hb. apply list_elem_of_In, Hb in Hin. unfold byte_ok. lia. Qed.

Lemma kept_output_wf : wf c_output kept_output.
Proof. split; [split; [split; [split|]|]|]; cbn [fst snd]; [by apply fixed_wf..|split; [by vm_compute|by constructor]|by vm_compute]. Qed.

Lemma with_output_storable : storable with_output.
Proof.
  assert (mapOutputs with_output = {[ kept_commitment := kept_output ]}) as Eo by (vm_compute; reflexivity).
  assert (mapMMRIndex with_output = {[ kept_commitment := 0 ]}) as Ei by (vm_compute; reflexivity).
  assert (setSpent with_output = ∅) as Es by (vm_compute; reflexivity).
  split.
  - rewrite Eo. intros c o [<- <-]%lookup_singleton_Some. split; [done|exact kept_output_wf].
  - rewrite Ei. intros c i [<- <-]%lookup_singleton_Some. split; [done|lia].
  - rewrite Es. by intros c ?%not_elem_of_empty.
  - split; [|by vm_compute]. split; [by vm_compute|]. apply Forall_forall. intros h Hh. apply list_elem_of_In in Hh.
    vm_compute in Hh. destruct Hh as [<-|[]]. by vm_compute.
  - by repeat split.
  - constructor.
  - by vm_compute.
Qed.

Lemma spent_output_storable : storable spent_output.
Proof.
  destruct with_output_storable as [S1 S2 S3 S4 S5 S6 S7].
  assert (setSpent spent_output = {[ kept_commitment ]}) as Es by (vm_compute; reflexivity).
  assert (mapOutputs spent_output = ∅) as Eo by (vm_compute; reflexivity).
  split; [rewrite Eo; intros c o; by rewrite lookup_empty|exact S2| |exact S4|exact S5|exact S6|exact S7].
  rewrite Es. by intros c ->%elem_of_singleton.
Qed.

Lemma saves_load_witness :
  exists s, LoadFromDB (Some saved_twice) fresh_state = Some s /\ mapOutputs s !! kept_commitment = Some kept_output.
Proof.
  eexists. split.
  - apply (saves_load (∅ : gmap bytes bytes) [with_output] spent_output saved_twice fresh_state); [done|exact saved_twice_saved| |apply map_db_healthy|reflexivity].
    apply Forall_cons. split; [exact with_output_storable|]. apply Forall_singleton. exact spent_output_storable.
  - vm_compute. reflexivity.
Defined.

End witnesses.

End MwStore.
