(* ===== verification/Containers.v ===== *)
(** * Bounded containers ([src/limitedmap.h], [src/mruset.h])

    A map that drops the entry of least value, and a set that drops the element that
    was inserted first. *)

From S2P Require Import Prelude Crypto Serialize Mmr MwModels Transactions Sighash TxInputs.
Import TxInputs.

Module Containers.

(** ** [limitedmap]

    [rmap] is a multimap from the values to the iterators of [map]: the keys by their
    values, those of one value in the order of their insertion. *)
Section limitedmap.
Context {K : Type} `{Countable K}.

Record limitedmap := { lm_map : gmap K Z; rmap : list (Z * K); lm_nMaxSize : Z }.

Definition new_limitedmap (nMaxSizeIn : Z) : limitedmap := {| lm_map := ∅; rmap := []; lm_nMaxSize := nMaxSizeIn |}.
Definition lm_size (m : limitedmap) : Z := Z.of_nat (base.size (lm_map m)).

(** [rmap.insert], after the entries of the same value. *)
Fixpoint rmap_insert (v : Z) (k : K) (l : list (Z * K)) : list (Z * K) :=
  match l with
  | [] => [(v, k)]
  | e :: l' => if e.1 <=? v then e :: rmap_insert v k l' else (v, k) :: l
  end.

(** The first entry of the range of [v] that points to [k] is left out; [None] where
    there is none. *)
Fixpoint rmap_remove (v : Z) (k : K) (l : list (Z * K)) : option (list (Z * K)) :=
  match l with
  | [] => None
  | e :: l' => if (e.1 =? v) && bool_decide (e.2 = k) then Some l' else cons e <$> rmap_remove v k l'
  end.

(** [map.erase(rmap.begin()->second); rmap.erase(rmap.begin())]; [Throws] stands for
    what is undefined, here the first entry of an empty multimap, and for assertions
    that fail. *)
Definition drop_first (m : limitedmap) : outcome limitedmap :=
  match rmap m with
  | [] => Throws
  | e :: l => Accept {| lm_map := delete e.2 (lm_map m); rmap := l; lm_nMaxSize := lm_nMaxSize m |}
  end.

Definition lm_insert (m : limitedmap) (k : K) (v : Z) : outcome limitedmap :=
  if bool_decide (is_Some (lm_map m !! k)) then Accept m
  else
    let m := {| lm_map := <[k := v]> (lm_map m); rmap := rmap m; lm_nMaxSize := lm_nMaxSize m |} in
    let* m := (if negb (lm_nMaxSize m =? 0) && (lm_size m =? lm_nMaxSize m) then drop_first m else Accept m) in
    Accept {| lm_map := lm_map m; rmap := rmap_insert v k (rmap m); lm_nMaxSize := lm_nMaxSize m |}.

Definition lm_erase (m : limitedmap) (k : K) : outcome limitedmap :=
  match lm_map m !! k with
  | None => Accept m
  | Some v =>
      match rmap_remove v k (rmap m) with
      | Some l => Accept {| lm_map := delete k (lm_map m); rmap := l; lm_nMaxSize := lm_nMaxSize m |}
      | None => Throws
      end
  end.

Definition lm_update (m : limitedmap) (k : K) (v : Z) : outcome limitedmap :=
  match lm_map m !! k with
  | None => Accept m
  | Some old =>
      match rmap_remove old k (rmap m) with
      | Some l => Accept {| lm_map := <[k := v]> (lm_map m); rmap := rmap_insert v k l; lm_nMaxSize := lm_nMaxSize m |}
      | None => Throws
      end
  end.

(** [while (map.size() > s)] *)
Fixpoint shrink (fuel : nat) (s : Z) (m : limitedmap) : outcome limitedmap :=
  if s <? lm_size m then
    match fuel with
    | O => Throws
    | S fuel => let* m := drop_first m in shrink fuel s m
    end
  else Accept m.
Definition lm_max_size (m : limitedmap) (s : Z) : outcome limitedmap :=
  let* m := (if s =? 0 then Accept m else shrink (base.size (lm_map m)) s m) in
  Accept {| lm_map := lm_map m; rmap := rmap m; lm_nMaxSize := s |}.

End limitedmap.

(** ** [mruset] *)
Section mruset.
Context {T : Type} `{Countable T}.

Record mruset := { mru_set : gset T; queue : list T; mru_nMaxSize : Z }.

Definition new_mruset (nMaxSizeIn : Z) : mruset := {| mru_set := ∅; queue := []; mru_nMaxSize := nMaxSizeIn |}.

Definition pop_front (m : mruset) : outcome mruset :=
  match queue m with
  | [] => Throws
  | x :: q => Accept {| mru_set := mru_set m ∖ {[ x ]}; queue := q; mru_nMaxSize := mru_nMaxSize m |}
  end.

(** The set and whether the element is new. *)
Definition mru_insert (m : mruset) (x : T) : outcome (mruset * bool) :=
  if bool_decide (x ∈ mru_set m) then Accept (m, false)
  else
    let m := {| mru_set := {[ x ]} ∪ mru_set m; queue := queue m; mru_nMaxSize := mru_nMaxSize m |} in
    let* m := (if negb (mru_nMaxSize m =? 0) && (len (queue m) =? mru_nMaxSize m) then pop_front m else Accept m) in
    Accept ({| mru_set := mru_set m; queue := queue m ++ [x]; mru_nMaxSize := mru_nMaxSize m |}, true).

Fixpoint mru_shrink (fuel : nat) (s : Z) (m : mruset) : outcome mruset :=
  if s <? len (queue m) then
    match fuel with
    | O => Throws
    | S fuel => let* m := pop_front m in mru_shrink fuel s m
    end
  else Accept m.
Definition mru_max_size (m : mruset) (s : Z) : outcome mruset :=
  let* m := (if s =? 0 then Accept m else mru_shrink (length (queue m)) s m) in
  Accept {| mru_set := mru_set m; queue := queue m; mru_nMaxSize := s |}.

End mruset.

Arguments limitedmap K {_ _}.
Arguments mruset T {_ _}.

(** * Properties *)

(** ** [limitedmap] *)
Section limitedmap_laws.
Context {K : Type} `{Countable K}.
Implicit Types (m : limitedmap K) (l : list (Z * K)).

Definition value_le (a b : Z * K) : Prop := a.1 <= b.1.

(** [rmap] lists the entries of [map] by their values. *)
Record lm_ok m : Prop := {
  lo_sorted : StronglySorted value_le (rmap m);
  lo_entries : rmap m ≡ₚ prod_swap <$> map_to_list (lm_map m) }.

(** The bound that insertions keep: one entry below the size that was asked for. *)
Definition lm_bounded m : Prop := lm_nMaxSize m = 0 \/ 2 <= lm_nMaxSize m /\ lm_size m < lm_nMaxSize m.

Lemma rmap_insert_perm v k l : rmap_insert v k l ≡ₚ (v, k) :: l.
Proof.
  induction l as [|e l IH]; [done|]. cbn [rmap_insert]. destruct (e.1 <=? v); [|done]. rewrite IH. apply Permutation_swap.
Qed.

Lemma rmap_insert_sorted v k l : StronglySorted value_le l -> StronglySorted value_le (rmap_insert v k l).
Proof.
  induction 1 as [|e l Hl IH He]; [repeat constructor|]. cbn [rmap_insert]. destruct (Z.leb_spec e.1 v) as [Hv|Hv].
  - constructor; [done|]. rewrite rmap_insert_perm. by constructor.
  - constructor; [by constructor|]. constructor; [unfold value_le; cbn [fst]; lia|]. eapply Forall_impl; [exact He|]. unfold value_le. cbn [fst]. intros x. lia.
Qed.

Lemma rmap_remove_spec v k l :
  StronglySorted value_le l -> (v, k) ∈ l ->
  exists l', rmap_remove v k l = Some l' /\ l ≡ₚ (v, k) :: l' /\ StronglySorted value_le l'.
Proof.
  induction 1 as [|e l Hl IH He]; [by intros ?%not_elem_of_nil|]. intros Hin. cbn [rmap_remove].
  destruct (decide (e = (v, k))) as [->|Hne].
  - cbn [fst snd]. rewrite Z.eqb_refl, bool_decide_true by done. by exists l.
  - assert (((e.1 =? v) && bool_decide (e.2 = k)) = false) as ->.
    { apply andb_false_iff. destruct (Z.eqb_spec e.1 v); [right|by left]. apply bool_decide_false. intros <-. apply Hne. by destruct e; cbn in *; subst. }
    apply elem_of_cons in Hin as [Hin|Hin]; [by destruct Hne|]. destruct (IH Hin) as (l' & -> & Hp & Hs). exists (e :: l'). split; [done|]. split.
    + rewrite Hp. apply Permutation_swap.
    + constructor; [done|]. rewrite Hp in He. by inversion He.
Qed.

Lemma lm_entry m v k : lm_ok m -> (v, k) ∈ rmap m <-> lm_map m !! k = Some v.
Proof.
  intros Hm. rewrite (lo_entries _ Hm), list_elem_of_fmap. split.
  - intros ([k' v'] & [= -> ->] & Hin). by apply elem_of_map_to_list.
  - intros E. exists (k, v). split; [done|]. by apply elem_of_map_to_list.
Qed.

Lemma lm_length m : lm_ok m -> len (rmap m) = lm_size m.
Proof. intros Hm. unfold len, lm_size. by rewrite (lo_entries _ Hm), length_fmap, length_map_to_list. Qed.

(** The entry of least value leaves. *)
Lemma drop_first_ok m :
  lm_ok m -> 0 < lm_size m ->
  exists v k m', drop_first m = Accept m' /\ lm_ok m' /\ lm_map m !! k = Some v /\ lm_map m' = delete k (lm_map m) /\
    (forall k' v', lm_map m !! k' = Some v' -> v <= v') /\ lm_nMaxSize m' = lm_nMaxSize m /\ lm_size m' = lm_size m - 1.
Proof.
  intros Hm Hs. pose proof (lm_length _ Hm) as Hl. unfold drop_first. destruct (rmap m) as [|[v k] l] eqn:E; [change (len (@nil (Z * K))) with 0 in Hl; lia|].
  assert (lm_map m !! k = Some v) as Hk by (apply lm_entry; [done|]; rewrite E; apply elem_of_cons; by left).
  pose proof (lo_sorted _ Hm) as Hsrt. rewrite E in Hsrt. inversion Hsrt as [|? ? Hsl Hmin]; subst.
  eexists v, k, _. split; [done|]. cbn [snd]. split.
  - split; [done|]. cbn [rmap lm_map]. apply (Permutation_cons_inv (a := (v, k))). rewrite <-E, (lo_entries _ Hm), <-(map_to_list_delete _ _ _ Hk). done.
  - split; [done|]. split; [done|]. split; [|split; [done|]].
    + intros k' v' Hk'%lm_entry; [|done]. rewrite E in Hk'. apply elem_of_cons in Hk' as [[= -> ->]|Hk']; [lia|].
      rewrite Forall_forall in Hmin. by apply (Hmin (v', k')).
    + unfold lm_size. cbn [lm_map]. rewrite map_size_delete, Hk. unfold lm_size in Hs. lia.
Qed.

Lemma shrink_ok fuel s m :
  lm_ok m -> 0 <= s -> (base.size (lm_map m) <= fuel)%nat ->
  exists m', shrink fuel s m = Accept m' /\ lm_ok m' /\ lm_map m' ⊆ lm_map m /\ lm_nMaxSize m' = lm_nMaxSize m /\ lm_size m' = Z.min (lm_size m) s /\
    (forall k v k' v', lm_map m !! k = Some v -> lm_map m' !! k = None -> lm_map m' !! k' = Some v' -> v <= v').
Proof.
  revert m. induction fuel as [|fuel IH]; intros m Hm Hs Hf; cbn [shrink]; destruct (Z.ltb_spec s (lm_size m)) as [Hlt|Hge].
  - unfold lm_size in Hlt. lia.
  - exists m. split_and!; try done; [lia|congruence].
  - destruct (drop_first_ok m Hm ltac:(lia)) as (v & k & m1 & -> & Hm1 & Hk & E1 & Hmin & E2 & E3). cbn [obind].
    destruct (IH m1 Hm1 Hs) as (m' & -> & Hm' & Hsub & E4 & E5 & Hleast); [rewrite E1, map_size_delete, Hk; lia|].
    assert (lm_map m1 ⊆ lm_map m) as Hsub1 by (rewrite E1; apply delete_subseteq).
    exists m'. split_and!; try done; [by etransitivity|congruence|lia|]. intros k1 v1 k' v' Hk1 Hn1 Hk'.
    destruct (decide (k1 = k)) as [->|Hne].
    + replace v1 with v by congruence. apply (Hmin k'). by eapply lookup_weaken, transitivity.
    + apply (Hleast k1 v1 k' v'); [|done..]. by rewrite E1, lookup_delete_ne.
  - exists m. split_and!; try done; [lia|congruence].
Qed.

Lemma add_entry m k v : lm_ok m -> lm_map m !! k = None ->
  lm_ok {| lm_map := <[k := v]> (lm_map m); rmap := rmap_insert v k (rmap m); lm_nMaxSize := lm_nMaxSize m |}.
Proof.
  intros Hm Hk. split; cbn [rmap lm_map]; [apply rmap_insert_sorted, Hm|]. by rewrite rmap_insert_perm, (lo_entries _ Hm), map_to_list_insert.
Qed.

Lemma remove_entry m k v : lm_ok m -> lm_map m !! k = Some v ->
  exists l, rmap_remove v k (rmap m) = Some l /\ lm_ok {| lm_map := delete k (lm_map m); rmap := l; lm_nMaxSize := lm_nMaxSize m |}.
Proof.
  intros Hm Hk. destruct (rmap_remove_spec v k (rmap m)) as (l & E & Hp & Hs); [apply Hm|by apply lm_entry|]. exists l. split; [done|].
  split; [done|]. cbn [rmap lm_map]. apply (Permutation_cons_inv (a := (v, k))). by rewrite <-Hp, (lo_entries _ Hm), <-(map_to_list_delete _ _ _ Hk).
Qed.

(** The entry a full map drops is not the new one, which [rmap] does not have yet. *)
Lemma evict_ok m k v : lm_ok m -> lm_map m !! k = None -> 0 < lm_size m ->
  exists kd vd m', drop_first {| lm_map := <[k := v]> (lm_map m); rmap := rmap m; lm_nMaxSize := lm_nMaxSize m |} = Accept m' /\
    lm_map m !! kd = Some vd /\ (forall k' v', lm_map m !! k' = Some v' -> vd <= v') /\
    lm_map m' = <[k := v]> (delete kd (lm_map m)) /\ lm_nMaxSize m' = lm_nMaxSize m /\
    lm_ok {| lm_map := lm_map m'; rmap := rmap_insert v k (rmap m'); lm_nMaxSize := lm_nMaxSize m' |} /\ lm_size m' = lm_size m.
Proof.
  intros Hm Hk Hs. destruct (drop_first_ok m Hm Hs) as (vd & kd & m1 & E & Hm1 & Hkd & E1 & Hmin & E2 & E3).
  unfold drop_first in *. cbn [rmap lm_map lm_nMaxSize]. destruct (rmap m) as [|[v0 k0] l] eqn:El; [done|]. apply Accept_inj in E as <-. cbn [snd lm_map rmap lm_nMaxSize] in *.
  assert (kd <> k) as Hne by congruence.
  assert (delete k0 (<[k := v]> (lm_map m)) = <[k := v]> (delete kd (lm_map m))) as Ed.
  { assert (k0 <> k) as Hne0.
    { intros ->. pose proof (proj1 (lm_entry m v0 k Hm)) as He. rewrite El in He. rewrite He in Hk; [done|]. apply elem_of_cons. by left. }
    by rewrite delete_insert_ne, E1 by done. }
  eexists kd, vd, _. split; [done|]. cbn [lm_map rmap lm_nMaxSize]. split; [done|]. split; [done|]. split; [exact Ed|]. split; [done|].
  assert (delete kd (lm_map m) !! k = None) as Hn by (by rewrite lookup_delete_ne).
  split.
  - rewrite Ed. rewrite E1 in Hm1. pose proof (add_entry _ k v Hm1 Hn) as Ha. exact Ha.
  - unfold lm_size in *. cbn [lm_map] in *. rewrite Ed, map_size_insert_None, map_size_delete, Hkd by done. lia.
Qed.

(** A limited map of at least two entries never reaches its size: an insertion of a
    new key into one that is one entry short of it drops an entry of least value; no
    operation breaks the correspondence of the two maps or runs into what is
    undefined. *)
Theorem limitedmap_bounded m k v :
  lm_ok m -> lm_bounded m ->
  (exists m', lm_insert m k v = Accept m' /\ lm_ok m' /\ lm_bounded m' /\
     (is_Some (lm_map m !! k) /\ m' = m \/
      lm_map m !! k = None /\ (lm_nMaxSize m = 0 \/ lm_size m + 1 < lm_nMaxSize m) /\ lm_map m' = <[k := v]> (lm_map m) \/
      lm_map m !! k = None /\ lm_size m + 1 = lm_nMaxSize m /\ exists kd vd, lm_map m !! kd = Some vd /\ (forall k' v', lm_map m !! k' = Some v' -> vd <= v') /\
        lm_map m' = <[k := v]> (delete kd (lm_map m)))) /\
  (exists m', lm_erase m k = Accept m' /\ lm_ok m' /\ lm_bounded m' /\ lm_map m' = delete k (lm_map m)) /\
  (exists m', lm_update m k v = Accept m' /\ lm_ok m' /\ lm_bounded m' /\
     lm_map m' = if bool_decide (is_Some (lm_map m !! k)) then <[k := v]> (lm_map m) else lm_map m) /\
  (forall s, 0 <= s -> exists m', lm_max_size m s = Accept m' /\ lm_ok m' /\ lm_map m' ⊆ lm_map m /\ lm_nMaxSize m' = s /\ (s <> 0 -> lm_size m' = Z.min (lm_size m) s)).
Proof.
  intros Hm Hb. split_and!.
  - unfold lm_insert. case_bool_decide as Hk; [exists m; split_and!; [done..|by left]|]. apply eq_None_not_Some in Hk.
    set (m1 := {| lm_map := <[k := v]> (lm_map m); rmap := _; lm_nMaxSize := _ |}). cbv zeta.
    assert (lm_size m1 = lm_size m + 1) as E1 by (unfold lm_size, m1; cbn [lm_map]; rewrite map_size_insert_None by done; lia).
    rewrite E1. change (lm_nMaxSize m1) with (lm_nMaxSize m). destruct (negb (lm_nMaxSize m =? 0) && (lm_size m + 1 =? lm_nMaxSize m)) eqn:Ef.
    + apply andb_true_iff in Ef as [Ef1 Ef2]. apply negb_true_iff, Z.eqb_neq in Ef1. apply Z.eqb_eq in Ef2. destruct Hb as [Hb|[Hb1 Hb2]]; [done|].
      destruct (evict_ok m k v Hm Hk ltac:(lia)) as (kd & vd & m' & E & Hkd & Hmin & Em & En & Hok & Es). unfold m1. rewrite E. cbn [obind].
      eexists. split; [done|]. split; [done|]. split; [right; change (lm_size _) with (lm_size m'); cbn [lm_nMaxSize]; lia|].
      right. right. split; [done|]. split; [done|]. exists kd, vd. by split_and!.
    + cbn [obind]. set (m2 := {| lm_map := lm_map m1; rmap := _; lm_nMaxSize := _ |}).
      assert (lm_size m2 = lm_size m + 1 /\ lm_nMaxSize m2 = lm_nMaxSize m /\ lm_map m2 = <[k := v]> (lm_map m)) as (E2 & E3 & E4) by done.
      exists m2. split; [done|]. split; [exact (add_entry m k v Hm Hk)|]. unfold lm_bounded. rewrite E2, E3, E4. apply andb_false_iff in Ef.
      destruct Hb as [Hb|[Hb1 Hb2]]; [split; [by left|]; right; left; by split_and!; [|left|]|].
      destruct Ef as [Ef|Ef]; [apply negb_false_iff, Z.eqb_eq in Ef; lia|]. apply Z.eqb_neq in Ef.
      split; [right; lia|]. right. left. split_and!; [done|right; lia|done].
  - unfold lm_erase. destruct (lm_map m !! k) as [v0|] eqn:Hk; [|exists m; split_and!; [done..|by rewrite delete_id]].
    destruct (remove_entry m k v0 Hm Hk) as (l & -> & Hok). eexists. split_and!; [done|done| |done].
    unfold lm_bounded, lm_size. cbn [lm_map lm_nMaxSize]. destruct Hb as [Hb|[Hb1 Hb2]]; [by left|right]. rewrite map_size_delete, Hk. unfold lm_size in Hb2. lia.
  - unfold lm_update. destruct (lm_map m !! k) as [v0|] eqn:Hk; [|exists m; split_and!; [done..|by rewrite bool_decide_false by (by intros [])]].
    destruct (remove_entry m k v0 Hm Hk) as (l & -> & Hok). eexists. split_and!; [done| | |by rewrite bool_decide_true by eauto].
    + pose proof (add_entry _ k v Hok (lookup_delete_eq _ _)) as Ha. cbn [lm_map rmap lm_nMaxSize] in Ha. by rewrite insert_delete_eq in Ha.
    + unfold lm_bounded, lm_size. cbn [lm_map lm_nMaxSize]. destruct Hb as [Hb|[Hb1 Hb2]]; [by left|right]. rewrite map_size_insert_Some by (by rewrite Hk). by split.
  - intros s Hs. unfold lm_max_size. destruct (Z.eqb_spec s 0) as [->|Hne]; cbn [obind].
    + eexists. split; [done|]. split; [by destruct Hm|]. by split_and!.
    + destruct (shrink_ok (base.size (lm_map m)) s m Hm Hs ltac:(done)) as (m' & -> & Hm' & Hsub & En & Es & _). cbn [obind].
      eexists. split; [done|]. split; [by destruct Hm'|]. by split_and!.
Qed.

End limitedmap_laws.

(** ** [mruset] *)
Section mruset_laws.
Context {T : Type} `{Countable T}.
Implicit Types m : mruset T.

Record mru_ok m : Prop := {
  mo_distinct : NoDup (queue m);
  mo_set : mru_set m = list_to_set (queue m) }.

Lemma pop_front_ok m x q : mru_ok m -> queue m = x :: q ->
  mru_ok {| mru_set := mru_set m ∖ {[ x ]}; queue := q; mru_nMaxSize := mru_nMaxSize m |}.
Proof.
  intros [Hd Hs] E. rewrite E in Hd, Hs. apply NoDup_cons in Hd as [Hx Hd]. split; [done|]. cbn [mru_set queue]. rewrite Hs. cbn [list_to_set].
  apply set_eq. intros y. rewrite elem_of_difference, elem_of_union, elem_of_singleton, elem_of_list_to_set. split; [tauto|].
  intros Hy. split; [by right|]. by intros ->.
Qed.

Lemma push_back_ok m x : mru_ok m -> x ∉ mru_set m ->
  mru_ok {| mru_set := {[ x ]} ∪ mru_set m; queue := queue m ++ [x]; mru_nMaxSize := mru_nMaxSize m |}.
Proof.
  intros [Hd Hs] Hx. split; cbn [mru_set queue].
  - apply NoDup_app. split; [done|]. split; [|apply NoDup_singleton]. intros y Hy ->%list_elem_of_singleton. apply Hx. rewrite Hs. by apply elem_of_list_to_set.
  - rewrite list_to_set_app_L, Hs. cbn [list_to_set]. set_solver.
Qed.

Lemma mru_shrink_ok fuel s m : mru_ok m -> 0 <= s -> (length (queue m) <= fuel)%nat ->
  exists m', mru_shrink fuel s m = Accept m' /\ mru_ok m' /\ queue m' = drop (Z.to_nat (len (queue m) - s)) (queue m).
Proof.
  revert m. induction fuel as [|fuel IH]; intros m Hm Hs Hf; cbn [mru_shrink]; destruct (Z.ltb_spec s (len (queue m))) as [Hlt|Hge].
  - unfold len in Hlt. lia.
  - exists m. split_and!; [done..|]. by replace (Z.to_nat _) with O by lia.
  - unfold pop_front. destruct (queue m) as [|x q] eqn:E; [change (len (@nil T)) with 0 in Hlt; lia|]. cbn [obind].
    destruct (IH _ (pop_front_ok _ _ _ Hm E) Hs) as (m' & -> & Hm' & Eq); [cbn in *; lia|]. exists m'. split_and!; [done..|].
    rewrite Eq. cbn [queue]. rewrite len_cons in *. replace (Z.to_nat (1 + len q - s)) with (S (Z.to_nat (len q - s))) by lia. done.
  - exists m. split_and!; [done..|]. by replace (Z.to_nat _) with O by lia.
Qed.

(** A set of most recent elements holds exactly the elements of its queue, each
    once, at most as many as its size: an insertion changes nothing where the element
    is there, and else appends it, in place of the oldest where the set is full; a
    new size keeps the most recent. *)
Theorem mruset_recent m x :
  mru_ok m -> mru_nMaxSize m = 0 \/ 0 < mru_nMaxSize m /\ len (queue m) <= mru_nMaxSize m ->
  (exists m', mru_insert m x = Accept (m', bool_decide (x ∉ mru_set m)) /\ mru_ok m' /\ x ∈ mru_set m' /\
     mru_nMaxSize m' = mru_nMaxSize m /\ (mru_nMaxSize m = 0 \/ len (queue m') <= mru_nMaxSize m) /\
     queue m' = if bool_decide (x ∈ mru_set m) then queue m
                else if negb (mru_nMaxSize m =? 0) && (len (queue m) =? mru_nMaxSize m) then drop 1 (queue m) ++ [x] else queue m ++ [x]) /\
  (forall s, 0 <= s -> exists m', mru_max_size m s = Accept m' /\ mru_ok m' /\ mru_nMaxSize m' = s /\
     queue m' = if s =? 0 then queue m else drop (Z.to_nat (len (queue m) - s)) (queue m)).
Proof.
  intros Hm Hb. split.
  - unfold mru_insert. case_bool_decide as Hx.
    { exists m. split_and!; try done; [by rewrite bool_decide_false by tauto|destruct Hb as [|[]]; [by left|by right]]. }
    cbn [mru_nMaxSize queue mru_set]. rewrite (bool_decide_true (x ∉ _)) by done.
    destruct (negb (mru_nMaxSize m =? 0) && (len (queue m) =? mru_nMaxSize m)) eqn:Ef.
    + apply andb_true_iff in Ef as [Ef1 Ef2]. apply negb_true_iff, Z.eqb_neq in Ef1. apply Z.eqb_eq in Ef2. unfold pop_front. cbn [queue].
      destruct (queue m) as [|y q] eqn:E; [change (len (@nil T)) with 0 in Ef2; lia|]. cbn [obind mru_set queue mru_nMaxSize].
      assert (y <> x) as Hne by (intros ->; apply Hx; rewrite (mo_set _ Hm), E; cbn; set_solver).
      pose proof (push_back_ok _ x (pop_front_ok _ _ _ Hm E)) as Hp. cbn [mru_set queue mru_nMaxSize] in Hp.
      replace ({[x]} ∪ mru_set m ∖ {[y]}) with (({[x]} ∪ mru_set m) ∖ {[y]}) in Hp by set_solver.
      eexists. split; [done|]. split; [apply Hp; set_solver|]. cbn [mru_set queue mru_nMaxSize]. split; [set_solver|]. split; [done|].
      split; [|done]. rewrite len_app. rewrite len_cons in Ef2. change (len [x]) with 1. right. lia.
    + cbn [obind mru_set queue mru_nMaxSize]. eexists. split; [done|]. split; [by apply push_back_ok|]. cbn [mru_set queue mru_nMaxSize].
      split; [set_solver|]. split; [done|]. split; [|done]. rewrite len_app. change (len [x]) with 1. apply andb_false_iff in Ef.
      destruct Hb as [|[Hb1 Hb2]]; [by left|]. right. destruct Ef as [Ef|Ef]; [apply negb_false_iff, Z.eqb_eq in Ef; lia|apply Z.eqb_neq in Ef; lia].
  - intros s Hs. unfold mru_max_size. destruct (Z.eqb_spec s 0) as [->|Hne]; cbn [obind].
    + eexists. split; [done|]. split; [by destruct Hm|]. done.
    + destruct (mru_shrink_ok (length (queue m)) s m Hm Hs ltac:(done)) as (m' & -> & Hm' & Eq). cbn [obind].
      eexists. split; [done|]. split; [by destruct Hm'|]. done.
Qed.

End mruset_laws.

(** ** Instances *)

(** A map of one entry is undefined at its first insertion, and one that was cut to
    its size grows past it from then on. *)
Example limitedmap_of_one : lm_insert (new_limitedmap (K := Z) 1) 7 1 = Throws.
Proof. vm_compute. reflexivity. Qed.
Definition cut_to_one : outcome (limitedmap Z) :=
  let* m := lm_insert (new_limitedmap 0) 7 1 in
  let* m := lm_max_size m 1 in
  let* m := lm_insert m 8 2 in
  lm_insert m 9 3.
Example cut_grows : match cut_to_one with Accept m => (lm_size m, lm_nMaxSize m) | _ => (0, 0) end = (3, 1).
Proof. vm_compute. reflexivity. Qed.

Definition two_entries : limitedmap Z := {| lm_map := {[ 7 := 5; 8 := 2 ]}; rmap := [(2, 8); (5, 7)]; lm_nMaxSize := 3 |}.
Lemma two_entries_ok : lm_ok two_entries.
Proof. split; [repeat constructor; unfold value_le; cbn; lia|]. vm_compute. apply Permutation_swap || reflexivity. Qed.

(** The new entry takes the place of the one of least value. *)
Lemma limitedmap_bounded_witness : exists m', lm_insert two_entries 9 1 = Accept m' /\ lm_bounded m'.
Proof.
  destruct (limitedmap_bounded two_entries 9 1 two_entries_ok) as ((m' & E & _ & Hb & _) & _); [by right|]. by exists m'.
Defined.

Definition three_recent : mruset Z := {| mru_set := {[ 1; 2; 3 ]}; queue := [1; 2; 3]; mru_nMaxSize := 3 |}.
Lemma three_recent_ok : mru_ok three_recent.
Proof. split; [apply (bool_decide_unpack _); vm_compute; exact I|vm_compute; reflexivity]. Qed.

Lemma mruset_recent_witness : exists m', mru_insert three_recent 4 = Accept (m', true) /\ queue m' = [2; 3; 4].
Proof.
  destruct (mruset_recent three_recent 4 three_recent_ok) as ((m' & E & _ & _ & _ & _ & Q) & _); [by right|]. exists m'. split; [exact E|exact Q].
Defined.

End Containers.
