(* ===== verification/Bloom.v ===== *)
(** * Bloom filters of peers ([src/bloom.h], [src/bloom.cpp], [src/hash.cpp])

    The filter a peer sets, what it contains, and the check of a transaction against
    it, which adds the outputs that interest the peer.  The constructor that sizes a
    filter from a false positive rate computes with floating point numbers and runs
    only in wallets of peers; filters come off the network. *)

From S2P Require Import Prelude Crypto Serialize Mmr BigNum Script Interpreter Standard MwModels Transactions Sighash TxInputs.
Import Stream Script Standard MwModels Transactions TxInputs.

Module Bloom.

(** ** [MurmurHash3] *)

Definition ROTL32 (x r : Z) : Z := u32 (Z.lor (Z.shiftl x r) (Z.shiftr x (32 - r))).

(** [k1 *= c1; k1 = ROTL32(k1,15); k1 *= c2] *)
Definition scramble (k1 : Z) : Z := u32 (ROTL32 (u32 (k1 * 0xcc9e2d51)) 15 * 0x1b873593).
Definition mix (h1 k1 : Z) : Z := u32 (ROTL32 (Z.lxor h1 (scramble k1)) 13 * 5 + 0xe6546b64).

(** The blocks of four bytes, and what is left. *)
Fixpoint murmur_blocks (h1 : Z) (l : bytes) : Z * bytes :=
  match l with
  | a :: b :: c :: d :: l => murmur_blocks (mix h1 (le_value [a; b; c; d])) l
  | tail => (h1, tail)
  end.

Definition MurmurHash3 (nHashSeed : Z) (vDataToHash : bytes) : Z :=
  let '(h1, tail) := murmur_blocks nHashSeed vDataToHash in
  let h1 := match tail with [] => h1 | _ => Z.lxor h1 (scramble (le_value tail)) end in
  let h1 := Z.lxor h1 (u32 (len vDataToHash)) in
  let h1 := Z.lxor h1 (Z.shiftr h1 16) in
  let h1 := u32 (h1 * 0x85ebca6b) in
  let h1 := Z.lxor h1 (Z.shiftr h1 13) in
  let h1 := u32 (h1 * 0xc2b2ae35) in
  Z.lxor h1 (Z.shiftr h1 16).

(** ** The filter *)

Definition MAX_BLOOM_FILTER_SIZE : Z := 36000.
Definition MAX_HASH_FUNCS : Z := 50.
Definition BLOOM_UPDATE_NONE : Z := 0.
Definition BLOOM_UPDATE_ALL : Z := 1.
Definition BLOOM_UPDATE_P2PUBKEY_ONLY : Z := 2.
Definition BLOOM_UPDATE_MASK : Z := 3.

Record CBloomFilter := { vData : bytes; isFull : bool; isEmpty : bool; nHashFuncs : Z; nTweak : Z; nFlags : Z }.

Definition bit_mask (i : Z) : Z := at_ 0 [0x01; 0x02; 0x04; 0x08; 0x10; 0x20; 0x40; 0x80] i.

(** The remainder by the number of bits; a filter without data is full and never hashes. *)
Definition Hash (f : CBloomFilter) (nHashNum : Z) (vDataToHash : bytes) : Z :=
  MurmurHash3 (u32 (nHashNum * 0xFBA4C795 + nTweak f)) vDataToHash mod (len (vData f) * 8).

Definition hash_numbers (f : CBloomFilter) : list Z := map Z.of_nat (seq 0 (Z.to_nat (nHashFuncs f))).

(** [vData[nIndex >> 3] |= bit_mask[7 & nIndex]] *)
Definition set_bit (v : bytes) (nIndex : Z) : bytes :=
  <[Z.to_nat (Z.shiftr nIndex 3) := Z.lor (at_ 0 v (Z.shiftr nIndex 3)) (bit_mask (Z.land 7 nIndex))]> v.
Definition test_bit (v : bytes) (nIndex : Z) : bool :=
  negb (Z.land (at_ 0 v (Z.shiftr nIndex 3)) (bit_mask (Z.land 7 nIndex)) =? 0).

Definition insert (f : CBloomFilter) (vKey : bytes) : CBloomFilter :=
  if isFull f then f
  else {| vData := fold_left (fun v i => set_bit v (Hash f i vKey)) (hash_numbers f) (vData f); isFull := isFull f; isEmpty := false;
          nHashFuncs := nHashFuncs f; nTweak := nTweak f; nFlags := nFlags f |}.
Definition insert_outpoint (f : CBloomFilter) (outpoint : COutPoint) : CBloomFilter := insert f (Serialize c_outpoint outpoint).

Definition contains (f : CBloomFilter) (vKey : bytes) : bool :=
  if isFull f then true
  else if isEmpty f then false
  else forallb (fun i => test_bit (vData f) (Hash f i vKey)) (hash_numbers f).
Definition contains_outpoint (f : CBloomFilter) (outpoint : COutPoint) : bool := contains f (Serialize c_outpoint outpoint).
Definition contains_hash (f : CBloomFilter) (h : uint256) : bool := contains f (uint256_bytes h).

Definition IsWithinSizeConstraints (f : CBloomFilter) : bool :=
  (len (vData f) <=? MAX_BLOOM_FILTER_SIZE) && (nHashFuncs f <=? MAX_HASH_FUNCS).

Definition UpdateEmptyFull (f : CBloomFilter) : CBloomFilter :=
  {| vData := vData f; isFull := forallb (fun b => b =? 0xff) (vData f); isEmpty := forallb (fun b => b =? 0) (vData f);
     nHashFuncs := nHashFuncs f; nTweak := nTweak f; nFlags := nFlags f |}.

(** What is read off the network; [isFull] is set by the constructor, [isEmpty] is not. *)
Definition c_filter (isEmpty' : bool) : codec CBloomFilter :=
  c_record (c_bytes ⊗ c_uint 4 ⊗ c_uint 4 ⊗ c_uint 1) (fun f => (vData f, nHashFuncs f, nTweak f, nFlags f))
    (fun '(v, n, t, g) => {| vData := v; isFull := true; isEmpty := isEmpty'; nHashFuncs := n; nTweak := t; nFlags := g |}).

(** The [filterload] and [filteradd] messages: the filter of the peer, [None] where
    it has none, and whether it misbehaves. *)
Definition filterload (pfilter : option CBloomFilter) (filter : CBloomFilter) : option CBloomFilter * bool :=
  if negb (IsWithinSizeConstraints filter) then (pfilter, true) else (Some (UpdateEmptyFull filter), false).
Definition filteradd (pfilter : option CBloomFilter) (v : bytes) : option CBloomFilter * bool :=
  if 520 <? len v then (pfilter, true) else match pfilter with Some f => (Some (insert f v), false) | None => (None, true) end.

(** ** [IsRelevantAndUpdate] *)

(** The loop over a script: whether it pushes something the filter contains. *)
Definition script_hit (f : CBloomFilter) (script : bytes) : bool :=
  scan (length script) (fun _ _ data _ => if negb (len data =? 0) && contains f data then inr true else inl tt)
    (fun _ => false) (fun _ => false) tt script.

Definition output_one (hash : uint256) (r : CBloomFilter * bool) (o : Z * CTxOut) : CBloomFilter * bool :=
  let f := r.1 in
  if script_hit f (scriptPubKey o.2) then
    (if Z.land (nFlags f) BLOOM_UPDATE_MASK =? BLOOM_UPDATE_ALL then insert_outpoint f {| hash := hash; n := o.1 |}
     else if Z.land (nFlags f) BLOOM_UPDATE_MASK =? BLOOM_UPDATE_P2PUBKEY_ONLY then
       match Solver (scriptPubKey o.2) with
       | (true, TX_PUBKEY, _) | (true, TX_MULTISIG, _) => insert_outpoint f {| hash := hash; n := o.1 |}
       | _ => f
       end
     else f, true)
  else r.

Definition input_hit (f : CBloomFilter) (txin : CTxIn) : bool := contains_outpoint f (prevout txin) || script_hit f (scriptSig txin).

Definition IsRelevantAndUpdate (f : CBloomFilter) (tx : CTransaction) (hash : uint256) : CBloomFilter * bool :=
  if isFull f then (f, true)
  else if isEmpty f then (f, false)
  else
    let '(f, fFound) := fold_left (output_one hash) (zip (map Z.of_nat (seq 0 (length (vout tx)))) (vout tx)) (f, contains_hash f hash) in
    if fFound then (f, true) else (f, existsb (input_hit f) (vin tx)).

(** Values of the reference implementation of the hash. *)
Example murmur_empty : map (fun s => MurmurHash3 s []) [0; 0xFBA4C795; 0xffffffff] = [0; 0x6a396f08; 0x81f16f39].
Proof. vm_compute. reflexivity. Qed.
Example murmur_bytes : map (MurmurHash3 0) [[0]; [0xff]; [0; 0x11]; [0; 0x11; 0x22]; [0; 0x11; 0x22; 0x33]; [0; 0x11; 0x22; 0x33; 0x44]] =
  [0x514e28b7; 0xfd6cf10d; 0x16c6b7ab; 0x8eb51c3d; 0xb4471bf8; 0xe2301fa8].
Proof. vm_compute. reflexivity. Qed.

(** * Properties *)

(** A filter that is not full has data, so the remainder is taken by a number of bits. *)
Definition filter_ok (f : CBloomFilter) : Prop := isFull f = false -> vData f <> [].

Lemma update_ok f : filter_ok (UpdateEmptyFull f).
Proof. unfold filter_ok, UpdateEmptyFull. cbn. intros E Hv. by rewrite Hv in E. Qed.

Lemma bit_mask_pow i : bit_mask (Z.land 7 i) = 2 ^ (i mod 8).
Proof.
  rewrite Z.land_comm. change 7 with (Z.ones 3). rewrite Z.land_ones by lia. change (2 ^ 3) with 8.
  pose proof (Z.mod_pos_bound i 8 ltac:(lia)) as Hm. remember (i mod 8) as j.
  assert (j = 0 \/ j = 1 \/ j = 2 \/ j = 3 \/ j = 4 \/ j = 5 \/ j = 6 \/ j = 7) as Hj by lia.
  clear Heqj. destruct Hj as [->|[->|[->|[->|[->|[->|[->| ->]]]]]]]; reflexivity.
Qed.

Lemma test_bit_spec v i : test_bit v i = Z.testbit (at_ 0 v (Z.shiftr i 3)) (i mod 8).
Proof.
  unfold test_bit. rewrite bit_mask_pow. set (j := i mod 8). assert (0 <= j) by (apply Z.mod_pos_bound; lia). set (x := at_ 0 v _).
  destruct (Z.testbit x j) eqn:E.
  - apply negb_true_iff, Z.eqb_neq. intros Hz. apply (f_equal (fun z => Z.testbit z j)) in Hz.
    rewrite Z.land_spec, Z.pow2_bits_true, E, Z.bits_0 in Hz by done. done.
  - apply negb_false_iff, Z.eqb_eq. apply Z.bits_inj'. intros k Hk. rewrite Z.land_spec, Z.bits_0.
    destruct (decide (k = j)) as [->|Hne]; [by rewrite E|]. rewrite Z.pow2_bits_false by done. apply andb_false_r.
Qed.

Lemma index_in_range (v : bytes) i : 0 <= i < len v * 8 -> 0 <= Z.shiftr i 3 < len v.
Proof. rewrite Z.shiftr_div_pow2 by lia. change (2 ^ 3) with 8. intros. split; [apply Z.div_pos; lia|apply Z.div_lt_upper_bound; lia]. Qed.

Lemma set_bit_length v i : len (set_bit v i) = len v.
Proof. unfold len, set_bit. by rewrite length_insert. Qed.

(** A bit is set by [set_bit] and the others stay. *)
Lemma set_bit_test v i k : 0 <= i < len v * 8 -> 0 <= k < len v * 8 -> test_bit (set_bit v i) k = (k =? i) || test_bit v k.
Proof.
  intros Hi Hk. rewrite !test_bit_spec. pose proof (index_in_range _ _ Hi) as Ri. pose proof (index_in_range _ _ Hk) as Rk.
  assert (at_ 0 (set_bit v i) (Z.shiftr k 3) =
    if Z.shiftr k 3 =? Z.shiftr i 3 then Z.lor (at_ 0 v (Z.shiftr i 3)) (2 ^ (i mod 8)) else at_ 0 v (Z.shiftr k 3)) as ->.
  { unfold set_bit. rewrite bit_mask_pow. destruct (Z.eqb_spec (Z.shiftr k 3) (Z.shiftr i 3)) as [->|Hne].
    - apply at_lookup; [lia|]. apply list_lookup_insert_eq. unfold len in Ri. lia.
    - apply at_insert_ne; lia. }
  pose proof (Z.mod_pos_bound i 8 ltac:(lia)). pose proof (Z.mod_pos_bound k 8 ltac:(lia)).
  rewrite !Z.shiftr_div_pow2 in * by lia. change (2 ^ 3) with 8 in *. pose proof (Z.div_mod i 8 ltac:(lia)). pose proof (Z.div_mod k 8 ltac:(lia)).
  destruct (Z.eqb_spec (k / 8) (i / 8)) as [Ed|Ed].
  - rewrite Z.lor_spec, Z.pow2_bits_eqb by lia. rewrite Ed. rewrite orb_comm. f_equal. destruct (Z.eqb_spec (i mod 8) (k mod 8)); symmetry; [apply Z.eqb_eq|apply Z.eqb_neq]; lia.
  - destruct (Z.eqb_spec k i) as [->|]; [done|]. done.
Qed.

Lemma hash_range f i k : vData f <> [] -> 0 <= Hash f i k < len (vData f) * 8.
Proof. intros Hv. apply Z.mod_pos_bound. destruct (vData f) as [|x v]; [done|]. rewrite len_cons. pose proof (len_pos v). lia. Qed.

Lemma set_bits_test v l k : Forall (fun i => 0 <= i < len v * 8) l -> 0 <= k < len v * 8 ->
  let w := fold_left set_bit l v in len w = len v /\ test_bit w k = bool_decide (k ∈ l) || test_bit v k.
Proof.
  cbv zeta. intros Hl Hk. revert v Hl Hk. induction l as [|i l IH]; intros v Hl Hk; cbn [fold_left].
  { split; [done|]. rewrite bool_decide_false by apply not_elem_of_nil. done. }
  apply Forall_cons in Hl as [Hi Hl]. destruct (IH (set_bit v i)) as [E1 E2]; rewrite ?set_bit_length; [done|done|].
  rewrite set_bit_length in E1. split; [done|]. rewrite E2, set_bit_test by done. rewrite orb_assoc. f_equal.
  destruct (Z.eqb_spec k i) as [->|Hne]; [rewrite orb_true_r; symmetry; apply bool_decide_eq_true; apply elem_of_cons; by left|].
  rewrite orb_false_r. apply bool_decide_ext. rewrite elem_of_cons. tauto.
Qed.

Lemma forallb_same {A} (p q : A -> bool) l : (forall x, p x = q x) -> forallb p l = forallb q l.
Proof. intros E. induction l as [|x l IH]; [done|]. cbn [forallb]. by rewrite E, IH. Qed.

(** What an insertion leaves: nothing that was contained is lost. *)
Lemma insert_spec f k : filter_ok f ->
  filter_ok (insert f k) /\ isFull (insert f k) = isFull f /\ isEmpty (insert f k) = (isFull f && isEmpty f) /\
  nFlags (insert f k) = nFlags f /\ contains (insert f k) k = true /\ (forall k', contains f k' = true -> contains (insert f k) k' = true).
Proof.
  intros Hf. unfold insert. destruct (isFull f) eqn:Ef.
  { split_and!; try done; by unfold contains; rewrite Ef. }
  specialize (Hf Ef). set (f' := {| vData := _; isFull := _; isEmpty := _; nHashFuncs := _; nTweak := _; nFlags := _ |}).
  set (l := map (fun i => Hash f i k) (hash_numbers f)).
  assert (vData f' = fold_left set_bit l (vData f)) as Ev.
  { unfold f', l. cbn [vData]. generalize (vData f). induction (hash_numbers f) as [|i is' IH]; [done|]. intros v. cbn [fold_left map]. apply IH. }
  assert (Forall (fun i => 0 <= i < len (vData f) * 8) l) as Hl.
  { apply Forall_forall. intros i (j & -> & _)%list_elem_of_fmap. by apply hash_range. }
  assert (len (vData f') = len (vData f)) as El by (rewrite Ev; by destruct (set_bits_test (vData f) l (Hash f 0 k) Hl (hash_range f 0 k Hf))).
  assert (forall i x, Hash f' i x = Hash f i x) as Eh by (intros i x; unfold Hash; by rewrite El).
  assert (forall i x, test_bit (vData f') (Hash f i x) = bool_decide (Hash f i x ∈ l) || test_bit (vData f) (Hash f i x)) as Et.
  { intros i x. rewrite Ev. by apply (set_bits_test (vData f) l (Hash f i x) Hl), hash_range. }
  assert (forall x, contains f' x = forallb (fun i => test_bit (vData f') (Hash f i x)) (hash_numbers f)) as Ec.
  { intros x. unfold contains. change (isFull f') with false. change (isEmpty f') with false. cbv iota. change (hash_numbers f') with (hash_numbers f).
    apply forallb_same. intros i. by rewrite Eh. }
  split; [intros _ E; rewrite E in El; destruct (vData f) as [|x v]; [done|rewrite len_cons in El; change (len (@nil Z)) with 0 in El; pose proof (len_pos v); lia]|].
  split; [done|]. split; [done|]. split; [done|]. split.
  - rewrite Ec. apply forallb_forall. intros i Hi. rewrite Et, bool_decide_true; [done|]. apply list_elem_of_fmap. exists i. split; [done|]. by apply list_elem_of_In.
  - intros x Hx. rewrite Ec. unfold contains in Hx. rewrite Ef in Hx. destruct (isEmpty f); [done|]. rewrite forallb_forall in Hx. apply forallb_forall.
    intros i Hi. rewrite Et, Hx by done. apply orb_true_r.
Qed.

Lemma insert_contains f k : filter_ok f -> contains (insert f k) k = true.
Proof. intros Hf. by destruct (insert_spec f k Hf) as (_ & _ & _ & _ & ? & _). Qed.

(** A filter that contains all another one does, and more. *)
Record grows (f g : CBloomFilter) : Prop := {
  gr_ok : filter_ok f -> filter_ok g;
  gr_full : isFull g = isFull f;
  gr_flags : nFlags g = nFlags f;
  gr_contains k : filter_ok f -> contains f k = true -> contains g k = true }.

Lemma grows_refl f : grows f f.
Proof. by split. Qed.
Lemma grows_trans f g h : grows f g -> grows g h -> grows f h.
Proof. intros [A1 A2 A3 A4] [B1 B2 B3 B4]. split; [auto|congruence|congruence|auto]. Qed.
Lemma insert_grows f k : filter_ok f -> grows f (insert f k).
Proof. intros Hf. destruct (insert_spec f k Hf) as (H1 & H2 & _ & H4 & _ & H6). split; auto. Qed.

Lemma script_hit_mono f g s : (forall k, contains f k = true -> contains g k = true) -> script_hit f s = true -> script_hit g s = true.
Proof.
  intros Hm. unfold script_hit. generalize (length s) as fuel. intros fuel. revert s. induction fuel as [|fuel IH]; intros [|b s]; cbn [scan]; try done.
  destruct (GetOp (b :: s)) as [[[opcode data] pc]|]; [|done]. destruct (negb (len data =? 0)); [|apply IH]. cbn [andb].
  destruct (contains f data) eqn:Ec; [by rewrite (Hm _ Ec)|]. intros Hs. destruct (contains g data); [done|by apply IH].
Qed.

Lemma output_one_grows h r o : filter_ok r.1 -> grows r.1 (output_one h r o).1 /\ (r.2 = true -> (output_one h r o).2 = true).
Proof.
  intros Hr. unfold output_one. cbv zeta. destruct (script_hit r.1 _); [|split; [apply grows_refl|done]]. cbn [fst snd]. split; [|done].
  destruct (_ =? BLOOM_UPDATE_ALL); [by apply insert_grows|]. destruct (_ =? BLOOM_UPDATE_P2PUBKEY_ONLY); [|apply grows_refl].
  destruct (Solver _) as [[[] []] ?]; try apply grows_refl; by apply insert_grows.
Qed.

Lemma outputs_grow h l r : filter_ok r.1 -> grows r.1 (fold_left (output_one h) l r).1 /\ (r.2 = true -> (fold_left (output_one h) l r).2 = true).
Proof.
  revert r. induction l as [|o l IH]; intros r Hr; cbn [fold_left]; [split; [apply grows_refl|done]|].
  destruct (output_one_grows h r o Hr) as [G1 F1]. destruct (IH _ (gr_ok _ _ G1 Hr)) as [G2 F2]. split; [by eapply grows_trans|auto].
Qed.

(** An output the filter hits is found and its place is put into the filter. *)
Lemma outputs_follow h l r i o : filter_ok r.1 -> Z.land (nFlags r.1) BLOOM_UPDATE_MASK = BLOOM_UPDATE_ALL -> (i, o) ∈ l -> script_hit r.1 (scriptPubKey o) = true ->
  let r' := fold_left (output_one h) l r in r'.2 = true /\ contains_outpoint r'.1 {| hash := h; n := i |} = true.
Proof.
  cbv zeta. revert r. induction l as [|[j q] l IH]; intros r Hr Hu Hin Hh; [by apply not_elem_of_nil in Hin|]. cbn [fold_left].
  destruct (output_one_grows h r (j, q) Hr) as [G F]. pose proof (gr_ok _ _ G Hr) as Hr1. apply elem_of_cons in Hin as [[= <- <-]|Hin].
  - destruct (outputs_grow h l _ Hr1) as [G2 F2].
    assert (output_one h r (i, o) = (insert_outpoint r.1 {| hash := h; n := i |}, true)) as E by (unfold output_one; cbn [fst snd]; by rewrite Hh, Hu).
    rewrite E in *. split; [by apply F2|]. apply (gr_contains _ _ G2); [done|]. by apply insert_contains.
  - apply IH; [done|by rewrite (gr_flags _ _ G)|done|]. apply (script_hit_mono r.1); [|done]. intros k. by apply (gr_contains _ _ G).
Qed.

Lemma contains_usable f k : contains f k = true -> isFull f = false -> isEmpty f = false.
Proof. unfold contains. intros E Hf. rewrite Hf in E. by destruct (isEmpty f). Qed.

Lemma script_hit_usable f s : script_hit f s = true -> isFull f = false -> isEmpty f = false.
Proof.
  intros E Hf. destruct (isEmpty f) eqn:Ee; [|done]. exfalso. revert E. unfold script_hit. generalize (length s) as fuel. intros fuel. revert s.
  induction fuel as [|fuel IH]; intros [|b s]; cbn [scan]; try done. destruct (GetOp (b :: s)) as [[[opcode data] pc]|]; [|done].
  assert (contains f data = false) as -> by (unfold contains; by rewrite Hf, Ee). rewrite andb_false_r. apply IH.
Qed.

(** A filter forgets nothing: what was inserted it contains for good.  So a peer
    that asks for it follows coins: a transaction with an output whose script pushes
    something the filter contains is relevant, and from then on so is every
    transaction that spends this output. *)
Theorem bloom_follows f tx h i o :
  filter_ok f -> Z.land (nFlags f) BLOOM_UPDATE_MASK = BLOOM_UPDATE_ALL ->
  vout tx !! i = Some o -> script_hit f (scriptPubKey o) = true ->
  exists f', IsRelevantAndUpdate f tx h = (f', true) /\ filter_ok f' /\ (forall k, contains f k = true -> contains f' k = true) /\
    (forall k, contains (insert f' k) k = true) /\
    forall tx2 h2 txin, txin ∈ vin tx2 -> prevout txin = {| hash := h; n := Z.of_nat i |} -> (IsRelevantAndUpdate f' tx2 h2).2 = true.
Proof.
  intros Hf Hu Ho Hh. unfold IsRelevantAndUpdate at 1. destruct (isFull f) eqn:Ef.
  { exists f. split; [done|]. split; [done|]. split; [done|]. split; [intros k; by apply insert_contains|]. intros tx2 h2 txin _ _. unfold IsRelevantAndUpdate. by rewrite Ef. }
  rewrite (script_hit_usable _ _ Hh Ef). set (l := zip _ (vout tx)).
  assert ((Z.of_nat i, o) ∈ l) as Hin.
  { apply list_elem_of_lookup. exists i. unfold l. rewrite lookup_zip_with, list_lookup_fmap, lookup_seq_lt by (by eapply lookup_lt_Some). cbn. by rewrite Ho. }
  destruct (outputs_follow h l (f, contains_hash f h) (Z.of_nat i) o Hf Hu Hin Hh) as [E1 E2]. destruct (outputs_grow h l (f, contains_hash f h) Hf) as [G _].
  destruct (fold_left _ l _) as [f' found]. cbn [fst snd] in *. subst found. exists f'. pose proof (gr_ok _ _ G Hf) as Hf'.
  split; [done|]. split; [done|]. split; [intros k; by apply (gr_contains _ _ G)|]. split; [intros k; by apply insert_contains|].
  intros tx2 h2 txin Htx Ep. unfold IsRelevantAndUpdate. destruct (isFull f') eqn:Ef'; [done|]. rewrite (contains_usable _ _ E2 Ef').
  set (l2 := zip _ (vout tx2)). destruct (outputs_grow h2 l2 (f', contains_hash f' h2) Hf') as [G2 _]. destruct (fold_left _ l2 _) as [f2 found]. cbn [fst] in G2.
  destruct found; [done|]. cbn [snd]. apply existsb_exists. exists txin. split; [by apply list_elem_of_In|]. unfold input_hit. rewrite Ep.
  unfold contains_outpoint. by rewrite (gr_contains _ _ G2 _ Hf' E2).
Qed.

(** ** Instances *)

Definition loaded_filter : CBloomFilter :=
  insert (UpdateEmptyFull {| vData := [0; 0; 1]; isFull := true; isEmpty := false; nHashFuncs := 2; nTweak := 5; nFlags := BLOOM_UPDATE_ALL |}) [7].
Definition paying : CTransaction :=
  {| nVersion := 1; nTime := 0; vin := []; vout := [{| nValue := 5; scriptPubKey := [1; 9] |}; {| nValue := 6; scriptPubKey := [1; 7] |}]; nLockTime := 0; mwTx := null_mwTx |}.
Definition spending : CTransaction :=
  {| nVersion := 1; nTime := 0; vin := [{| prevout := {| hash := 3; n := 1 |}; scriptSig := []; nSequence := 0 |}]; vout := []; nLockTime := 0; mwTx := null_mwTx |}.

(** Without the first one, the second is of no interest. *)
Example spending_alone : (IsRelevantAndUpdate loaded_filter spending 4).2 = false.
Proof. vm_compute. reflexivity. Qed.
(** A filter of zeros finds nothing, and one without data everything. *)
Example zero_filter : map (fun v => contains (UpdateEmptyFull {| vData := v; isFull := true; isEmpty := false; nHashFuncs := 0; nTweak := 0; nFlags := 0 |}) [7])
  [[0]; [1]; []; [255]] = [false; true; true; true].
Proof. vm_compute. reflexivity. Qed.

Lemma bloom_follows_witness : exists f', IsRelevantAndUpdate loaded_filter paying 3 = (f', true) /\ (IsRelevantAndUpdate f' spending 4).2 = true.
Proof.
  assert (filter_ok loaded_filter) as Hf by (apply insert_spec, update_ok).
  destruct (bloom_follows loaded_filter paying 3 1 {| nValue := 6; scriptPubKey := [1; 7] |} Hf) as (f' & E & _ & _ & _ & Hr); [reflexivity..|].
  exists f'. split; [exact E|]. apply (Hr spending 4 {| prevout := {| hash := 3; n := 1 |}; scriptSig := []; nSequence := 0 |}); [|reflexivity].
  cbn. apply elem_of_cons. by left.
Defined.

End Bloom.
