(* ===== verification/Keys.v ===== *)
(** * Keys ([src/key.h], [src/key.cpp])

    [CKey]: a private key or a public one, its secret, its public key as bytes and
    the signatures it makes.  OpenSSL's curve functions are the class [OpenSSLKeys]
    over the [OpenSSLEC] of Sighash.v, whose [eckey] is a point of secp256k1; memory
    is never exhausted.  Signatures that recover the key, and private keys in DER,
    are not modelled. *)

From S2P Require Import Prelude Crypto BigNum Script Interpreter Sighash.
Import BigNum Interpreter Sighash.

Module Keys.

(** The order of the group. *)
Definition order : Z := 0xFFFFFFFFFFFFFFFFFFFFFFFFFFFFFFFEBAAEDCE6AF48A03BBFD25E8CD0364141.

(** ** OpenSSL *)

Inductive conv_form := COMPRESSED | UNCOMPRESSED | HYBRID.

(** The multiples of the generator, the bytes of a point, the two numbers of a
    signature by the private key with a random draw, and their DER encoding. *)
Class OpenSSLKeys `{OpenSSLEC} := {
  EC_POINT_mul : Z -> eckey;
  i2o_ECPublicKey : conv_form -> eckey -> bytes;
  ECDSA_do_sign : Z -> bytes -> Z -> option (Z * Z);
  i2d_ECDSA_SIG : Z -> Z -> bytes
}.

(** [o2i_ECPublicKey] keeps the form of what it read as that of the key. *)
Definition read_form (vch : bytes) : conv_form :=
  if Z.land (at_ 0 vch 0) 0xfe =? 2 then COMPRESSED
  else if Z.land (at_ 0 vch 0) 0xfe =? 4 then UNCOMPRESSED else HYBRID.

(** An INTEGER and a SEQUENCE of two of them in DER: the shortest two's complement,
    most significant byte first. *)
Definition der_int (z : Z) : bytes := let b := rev (num_bytes z) in [0x02; len b] ++ b.
Definition der_sig (r s : Z) : bytes := let b := der_int r ++ der_int s in [0x30; len b] ++ b.

Definition secret_ok (d : Z) : Prop := 0 < d < order.

Class KeysLaws `{OpenSSLKeys} : Prop := {
  i2o_compressed d : secret_ok d -> let b := i2o_ECPublicKey COMPRESSED (EC_POINT_mul d) in
    bytes_ok b /\ len b = 33 /\ (at_ 0 b 0 = 2 \/ at_ 0 b 0 = 3);
  i2o_uncompressed d : secret_ok d -> let b := i2o_ECPublicKey UNCOMPRESSED (EC_POINT_mul d) in
    bytes_ok b /\ len b = 65 /\ at_ 0 b 0 = 4;
  o2i_i2o d f : secret_ok d -> o2i_ECPublicKey (i2o_ECPublicKey f (EC_POINT_mul d)) = Some (EC_POINT_mul d);
  do_sign_ok rnd h d : secret_ok d -> exists r s, ECDSA_do_sign rnd h d = Some (r, s);
  do_sign_range rnd h d r s : ECDSA_do_sign rnd h d = Some (r, s) -> 0 < r < order /\ 0 < s < order;
  do_sign_verifies rnd h d r s : secret_ok d -> ECDSA_do_sign rnd h d = Some (r, s) ->
    ECDSA_verify h (i2d_ECDSA_SIG r s) (EC_POINT_mul d) = 1;
  verify_negated h r s P : 0 < r < order -> 0 < s < order ->
    ECDSA_verify h (i2d_ECDSA_SIG r (order - s)) P = ECDSA_verify h (i2d_ECDSA_SIG r s) P;
  i2d_der r s : 0 < r < order -> 0 < s < order -> i2d_ECDSA_SIG r s = der_sig r s
}.

(** ** [CKey] *)

Section ckey.
Context `{OpenSSLKeys}.

Record EC_KEY := { priv_key : option Z; pub_key : option eckey; form : conv_form }.
Record CKey := { pkey : EC_KEY; fSet : bool; fCompressedPubKey : bool }.

(** [EC_KEY_new_by_curve_name] *)
Definition new_key : EC_KEY := {| priv_key := None; pub_key := None; form := UNCOMPRESSED |}.

Definition SetCompressedPubKey (k : CKey) : CKey :=
  {| pkey := {| priv_key := priv_key (pkey k); pub_key := pub_key (pkey k); form := COMPRESSED |};
     fSet := fSet k; fCompressedPubKey := true |}.

(** [CKey::CKey] and [CKey::Reset] *)
Definition Reset : CKey := {| pkey := new_key; fSet := false; fCompressedPubKey := false |}.

(** The copy: [fCompressedPubKey] is not set by the constructor, where memory holds
    what it held, and not changed by the assignment. *)
Definition copy (uninitialised : bool) (b : CKey) : CKey :=
  {| pkey := pkey b; fSet := fSet b; fCompressedPubKey := uninitialised |}.
Definition assign (k b : CKey) : CKey := {| pkey := pkey b; fSet := fSet b; fCompressedPubKey := fCompressedPubKey k |}.

Definition IsNull (k : CKey) : bool := negb (fSet k).
Definition IsCompressed (k : CKey) : bool := fCompressedPubKey k.

Definition EC_KEY_regenerate_key (eckey : EC_KEY) (priv : Z) : EC_KEY :=
  {| priv_key := Some priv; pub_key := Some (EC_POINT_mul priv); form := form eckey |}.

(** [EC_KEY_generate_key] draws the private key. *)
Definition MakeNewKey (rnd : Z) (fCompressed : bool) (k : CKey) : CKey :=
  let k := {| pkey := EC_KEY_regenerate_key (pkey k) rnd; fSet := fSet k; fCompressedPubKey := fCompressedPubKey k |} in
  let k := if fCompressed then SetCompressedPubKey k else k in
  {| pkey := pkey k; fSet := true; fCompressedPubKey := fCompressedPubKey k |}.

(** [None] is a [key_error]. *)
Definition SetSecret (vchSecret : bytes) (fCompressed : bool) (k : CKey) : option CKey :=
  if negb (len vchSecret =? 32) then None
  else
    let k' := {| pkey := EC_KEY_regenerate_key new_key (be_value vchSecret); fSet := true;
                 fCompressedPubKey := fCompressedPubKey k |} in
    Some (if fCompressed || fCompressedPubKey k then SetCompressedPubKey k' else k').

(** Without a private key the null pointer is read: [None]. *)
Definition GetSecret (k : CKey) : option (bytes * bool) :=
  match priv_key (pkey k) with
  | None => None
  | Some bn => if bn <? 2 ^ 256 then Some (be_bytes 32 bn, fCompressedPubKey k) else None
  end.

(** A private key stays where the bytes are a public key; else the key is reset. *)
Definition SetPubKey (vchPubKey : bytes) (k : CKey) : CKey * bool :=
  match o2i_ECPublicKey vchPubKey with
  | Some p =>
      let k := {| pkey := {| priv_key := priv_key (pkey k); pub_key := Some p; form := read_form vchPubKey |};
                  fSet := true; fCompressedPubKey := fCompressedPubKey k |} in
      (if len vchPubKey =? 33 then SetCompressedPubKey k else k, true)
  | None => (Reset, false)
  end.

Definition GetPubKey (k : CKey) : option bytes :=
  match pub_key (pkey k) with
  | Some p => Some (i2o_ECPublicKey (form (pkey k)) p)
  | None => None
  end.

(** The larger [s] is replaced by its negation. *)
Definition low_s (s : Z) : Z := if order / 2 <? s then order - s else s.

(** [None] where the signature could not be made. *)
Definition Sign (rnd : Z) (h : uint256) (k : CKey) : option bytes :=
  match priv_key (pkey k) with
  | None => None
  | Some d =>
      match ECDSA_do_sign rnd (uint256_bytes h) d with
      | None => None
      | Some (r, s) => Some (i2d_ECDSA_SIG r (low_s s))
      end
  end.

Definition VerifyKey (h : uint256) (vchSig : bytes) (k : CKey) : bool :=
  match pub_key (pkey k) with Some p => Verify p h vchSig | None => false end.
End ckey.
#[global] Arguments EC_KEY {_}.
#[global] Arguments CKey {_}.

(** * Properties *)

(** ** DER *)

Lemma num_length_bits z : 0 < z -> num_length z = Z.to_nat ((Z.log2 z + 1) / 8 + 1).
Proof. intros Hz. unfold num_length. destruct (Z.eqb_spec z 0); [lia|]. by rewrite Z.abs_eq by lia. Qed.

Lemma num_bytes_le z : 0 < z -> num_bytes z = le_bytes (num_length z) z.
Proof. intros Hz. unfold num_bytes. destruct (Z.ltb_spec z 0); [lia|]. by rewrite Z.add_0_r, Z.abs_eq by lia. Qed.

(** Two most significant bytes of the shortest two's complement. *)
Lemma num_bytes_top z :
  0 < z -> exists b l, rev (num_bytes z) = b :: l /\ b < 128 /\ byte_ok b /\
    match l with [] => True | c :: _ => byte_ok c /\ (b = 0 -> 128 <= c) end.
Proof.
  intros Hz. rewrite num_bytes_le, num_length_bits by done. pose proof (Z.log2_nonneg z).
  pose proof (Z.log2_spec z Hz) as [Hlow Hup].
  set (q := (Z.log2 z + 1) / 8). assert (8 * q <= Z.log2 z + 1 < 8 * q + 8) as Hq by
    (unfold q; pose proof (Z.div_mod (Z.log2 z + 1) 8 ltac:(lia)); pose proof (Z.mod_pos_bound (Z.log2 z + 1) 8 ltac:(lia)); lia).
  assert (0 <= q) as Hq0 by lia. clearbody q.
  replace (Z.to_nat (q + 1)) with (S (Z.to_nat q)) by lia.
  fold (be_bytes (S (Z.to_nat q)) z). rewrite be_bytes_succ, Z2Nat.id by done.
  assert (z < 2 ^ (8 * q + 7)) as Hz7 by (eapply Z.lt_le_trans; [exact Hup|apply Z.pow_le_mono_r; lia]).
  assert (z / 2 ^ (8 * q) < 128) as Htop.
  { apply Z.div_lt_upper_bound; [by apply Z.pow_pos_nonneg; lia|].
    change 128 with (2 ^ 7). rewrite <-Z.pow_add_r by lia. done. }
  assert (0 <= z / 2 ^ (8 * q)) by (apply Z.div_pos; [lia|apply Z.pow_pos_nonneg; lia]).
  rewrite Z.mod_small by lia. eexists _, _. split; [done|]. split; [done|]. split; [unfold byte_ok; lia|].
  destruct (Z.to_nat q) as [|n] eqn:En; [done|]. rewrite be_bytes_succ. split.
  { unfold byte_ok. apply Z.mod_pos_bound. lia. }
  intros E. apply Z.div_small_iff in E; [|pose proof (Z.pow_pos_nonneg 2 (8 * q)); lia].
  assert (q = Z.of_nat n + 1) as -> by lia.
  assert (Z.log2 z < 8 * (Z.of_nat n + 1)) as Hlog by (apply Z.log2_lt_pow2; lia).
  assert (2 ^ (8 * Z.of_nat n + 7) <= z) as Hge by (etransitivity; [|exact Hlow]; apply Z.pow_le_mono_r; lia).
  replace (8 * (Z.of_nat n + 1)) with (8 * Z.of_nat n + 8) in * by lia. rewrite Z.pow_add_r in E by lia.
  rewrite Z.pow_add_r in Hge by lia. change (2 ^ 8) with 256 in *. change (2 ^ 7) with 128 in *.
  assert (0 < 2 ^ (8 * Z.of_nat n)) by (apply Z.pow_pos_nonneg; lia).
  assert (z / 2 ^ (8 * Z.of_nat n) < 256) by (apply Z.div_lt_upper_bound; lia).
  assert (128 <= z / 2 ^ (8 * Z.of_nat n)) by (apply Z.div_le_lower_bound; lia).
  rewrite Z.mod_small by lia. done.
Qed.

Lemma num_bytes_len_order z : 0 < z < order -> 1 <= len (rev (num_bytes z)) <= 33.
Proof.
  intros Hz. unfold len. rewrite length_rev, num_bytes_length.
  assert (num_length z <= 33)%nat.
  { apply num_length_le. rewrite Z.abs_eq by lia. etransitivity; [apply Hz|]. by vm_compute. }
  unfold num_length in *. destruct (Z.eqb_spec z 0); [lia|]. pose proof (Z.log2_nonneg (Z.abs z)).
  pose proof (Z.div_pos (Z.log2 (Z.abs z) + 1) 8). lia.
Qed.

(** The test of one integer passes on a shortest two's complement. *)
Lemma canonical_integer_der z pre post :
  0 < z -> canonical_integer (pre ++ der_int z ++ post) (len pre + 2) (len (rev (num_bytes z))) = true.
Proof.
  intros Hz. destruct (num_bytes_top z Hz) as (b & l & Eb & Hb & Hbok & Hl). unfold der_int. rewrite Eb.
  unfold canonical_integer. replace (len pre + 2 - 2) with (len pre + 0) by lia.
  replace (len pre + 2 + 1) with (len pre + 3) by lia. cbn [app]. rewrite !at_app_r by lia.
  change (at_ 0 (2 :: ?x) 0) with 2. change (at_ 0 (2 :: ?n :: b :: ?x) 2) with b. change (2 =? 2) with true. cbn [negb].
  rewrite len_cons. pose proof (len_pos l). destruct (Z.eqb_spec (1 + len l) 0); [lia|].
  assert (Z.land b 128 = 0) as ->.
  { rewrite Z.land_comm. apply Z.bits_inj'. intros i Hi. rewrite Z.land_spec, Z.bits_0.
    destruct (Z.eqb_spec i 7) as [->|Hne].
    - rewrite (testbit_high b 7 7) by (unfold byte_ok in Hbok; lia). apply andb_false_r.
    - change 128 with (2 ^ 7). rewrite Z.pow2_bits_false by done. done. }
  change (0 =? 0) with true. cbn [negb]. destruct l as [|c l]; [reflexivity|]. destruct Hl as [Hc Hbc].
  change (at_ 0 (2 :: ?n :: b :: (c :: ?x) ++ ?y) 3) with c. destruct (Z.eqb_spec b 0) as [E|]; [|by rewrite andb_false_r].
  specialize (Hbc E). assert ((Z.land c 128 =? 0) = false) as ->; [|by rewrite andb_false_r].
  apply Z.eqb_neq. intros E0. assert (Z.testbit (Z.land c 128) 7 = false) as Ht by (by rewrite E0).
  rewrite Z.land_spec in Ht. change (Z.testbit 128 7) with true in Ht. rewrite andb_true_r in Ht.
  rewrite Z.testbit_false in Ht by lia. unfold byte_ok in Hc. change (2 ^ 7) with 128 in Ht.
  assert (c / 128 = 1) as Ec by (symmetry; apply (Z.div_unique c 128 1 (c - 128)); lia). by rewrite Ec in Ht.
Qed.

(** The hash types a canonical signature may have. *)
Definition hash_type_ok (nHashType : Z) : Prop := byte_ok nHashType /\ 1 <= Z.land nHashType 0x7f <= 3.

Lemma der_sig_canonical r s ht :
  0 < r < order -> 0 < s <= order / 2 -> hash_type_ok ht -> IsCanonicalSignature (der_sig r s ++ [ht]) = true.
Proof.
  intros Hr Hs [Hht Ht]. assert (order / 2 < order) as Hhalf by (by vm_compute).
  pose proof (num_bytes_len_order r Hr) as HR.
  assert (1 <= len (rev (num_bytes s)) <= 32) as HS.
  { split; [apply num_bytes_len_order; lia|]. unfold len. rewrite length_rev. fold (len (num_bytes s)).
    apply (num_bytes_len s 32). rewrite Z.abs_eq by lia. eapply Z.le_lt_trans; [apply Hs|]. by vm_compute. }
  set (sig := der_sig r s ++ [ht]).
  set (R := rev (num_bytes r)) in *. set (S_ := rev (num_bytes s)) in *.
  assert (sig = [0x30; 4 + len R + len S_] ++ der_int r ++ (der_int s ++ [ht])) as E1.
  { unfold sig, der_sig. rewrite <-!app_assoc. cbn [app]. do 2 f_equal. unfold der_int. fold R S_. lens. lia. }
  assert (sig = ([0x30; 4 + len R + len S_] ++ der_int r) ++ der_int s ++ [ht]) as E2 by (by rewrite E1, <-!app_assoc).
  assert (len (der_int r) = 2 + len R) as Hdr by (unfold der_int; fold R; lens; lia).
  assert (len (der_int s) = 2 + len S_) as Hds by (unfold der_int; fold S_; lens; lia).
  assert (len sig = 7 + len R + len S_) as Hlen by (rewrite E1; lens; lia).
  unfold IsCanonicalSignature. rewrite Hlen.
  assert (at_ 0 sig 0 = 0x30) as -> by (by rewrite E1).
  assert (at_ 0 sig 1 = 4 + len R + len S_) as -> by (by rewrite E1).
  assert (at_ 0 sig 3 = len R) as -> by (rewrite E1; unfold der_int; fold R; reflexivity).
  assert (at_ 0 sig (5 + len R) = len S_) as ->.
  { rewrite E2. replace (5 + len R) with (len ([0x30; 4 + len R + len S_] ++ der_int r) + 1) by (lens; lia).
    rewrite at_app_r by lia. reflexivity. }
  assert (at_ 0 sig (7 + len R + len S_ - 1) = ht) as ->.
  { rewrite E2, app_assoc. replace (7 + len R + len S_ - 1) with
      (len (([0x30; 4 + len R + len S_] ++ der_int r) ++ der_int s) + 0) by (lens; lia). by rewrite at_app_r. }
  assert (canonical_integer sig 4 (len R) = true) as ->.
  { rewrite E1. exact (canonical_integer_der r [0x30; 4 + len R + len S_] (der_int s ++ [ht]) ltac:(lia)). }
  assert (canonical_integer sig (6 + len R) (len S_) = true) as ->.
  { rewrite E2. replace (6 + len R) with (len ([0x30; 4 + len R + len S_] ++ der_int r) + 2) by (lens; lia).
    apply canonical_integer_der. lia. }
  cbn [negb]. change (48 =? 48) with true. cbn [negb].
  repeat match goal with |- context [?a <? ?b] => replace (a <? b) with false by lia end.
  replace (4 + len R + len S_ =? 7 + len R + len S_ - 3) with true by lia.
  replace (7 + len R + len S_ <=? 5 + len R) with false by lia.
  replace (len R + len S_ + 7 =? 7 + len R + len S_) with true by lia. done.
Qed.

(** ** Keys that hold a secret *)

Section plain.
Context `{KeysLaws}.

(** The key of a number. *)
Definition form_of (fCompressed : bool) : conv_form := if fCompressed then COMPRESSED else UNCOMPRESSED.
Definition plain_key (d : Z) (c : bool) : CKey :=
  {| pkey := {| priv_key := Some d; pub_key := Some (EC_POINT_mul d); form := form_of c |}; fSet := true; fCompressedPubKey := c |}.
Definition pub_of (d : Z) (c : bool) : bytes := i2o_ECPublicKey (form_of c) (EC_POINT_mul d).

Lemma SetSecret_plain vch c : len vch = 32 -> SetSecret vch c Reset = Some (plain_key (be_value vch) c).
Proof. intros Hl. unfold SetSecret. rewrite Hl. by destruct c. Qed.

Lemma be_value_range vch : bytes_ok vch -> len vch = 32 -> 0 <= be_value vch < 2 ^ 256.
Proof.
  intros Hb Hl. unfold be_value. pose proof (le_value_range (rev vch) ltac:(by apply Forall_rev)) as Hr.
  rewrite length_rev in Hr. unfold len in Hl. by replace (length vch) with 32%nat in Hr by lia.
Qed.

Lemma be_bytes_value vch : bytes_ok vch -> be_bytes (length vch) (be_value vch) = vch.
Proof.
  intros Hb. unfold be_bytes, be_value. rewrite <-(length_rev vch), le_bytes_value by by apply Forall_rev.
  apply rev_involutive.
Qed.

Lemma GetSecret_plain vch c : bytes_ok vch -> len vch = 32 -> GetSecret (plain_key (be_value vch) c) = Some (vch, c).
Proof.
  intros Hb Hl. unfold GetSecret. cbn [pkey plain_key priv_key fCompressedPubKey].
  pose proof (be_value_range vch Hb Hl). destruct (Z.ltb_spec (be_value vch) (2 ^ 256)); [|lia].
  do 2 f_equal. rewrite <-(be_bytes_value vch) at 2 by done. f_equal. unfold len in Hl. lia.
Qed.

Lemma GetPubKey_plain d c : GetPubKey (plain_key d c) = Some (pub_of d c).
Proof. done. Qed.

Lemma pub_of_facts d c :
  secret_ok d ->
  bytes_ok (pub_of d c) /\ len (pub_of d c) = (if c then 33 else 65) /\ IsCanonicalPubKey (pub_of d c) = true /\
  at_ 0 (pub_of d c) 0 <> 0x30 /\ read_form (pub_of d c) = form_of c.
Proof.
  intros Hd. unfold pub_of, IsCanonicalPubKey, read_form. destruct c; cbn [form_of].
  - destruct (i2o_compressed d Hd) as (Hb & Hl & Hh). rewrite Hl.
    destruct Hh as [Hh|Hh]; rewrite Hh; split_and!; done || (by vm_compute).
  - destruct (i2o_uncompressed d Hd) as (Hb & Hl & Hh). rewrite Hl, Hh. split_and!; done || (by vm_compute).
Qed.

(** A public key that is read and given a secret is the key of the secret, in the
    form of the public key. *)
Lemma SetSecret_SetPubKey vch d c :
  secret_ok d -> len vch = 32 -> SetSecret vch false (SetPubKey (pub_of d c) Reset).1 = Some (plain_key (be_value vch) c).
Proof.
  intros Hd Hl. unfold SetPubKey. unfold pub_of at 1. rewrite o2i_i2o by done. destruct (pub_of_facts _ c Hd) as (_ & Hlen & _).
  rewrite Hlen. destruct c; unfold SetSecret; by rewrite Hl.
Qed.

(** A key signs: the signature verifies with the public key's bytes, and with a hash
    type behind it is canonical. *)
Lemma Sign_plain rnd h d c :
  secret_ok d -> exists vchSig, Sign rnd h (plain_key d c) = Some vchSig /\ verified h vchSig (pub_of d c) = true /\
    at_ 0 vchSig 0 = 0x30 /\ forall ht, hash_type_ok ht -> IsCanonicalSignature (vchSig ++ [ht]) = true.
Proof.
  intros Hd. destruct (do_sign_ok rnd (uint256_bytes h) d Hd) as (r & s & E).
  destruct (do_sign_range _ _ _ _ _ E) as [Hr Hs].
  assert (0 < low_s s <= order / 2 /\ low_s s < order) as [Hlow Hlt].
  { unfold low_s. assert (order = 2 * (order / 2) + 1) as Ho by (by vm_compute). destruct (Z.ltb_spec (order / 2) s); lia. }
  exists (i2d_ECDSA_SIG r (low_s s)). unfold Sign. cbn [pkey plain_key priv_key]. rewrite E. split; [done|].
  rewrite i2d_der by lia. split_and!; [|done|intros; by apply der_sig_canonical].
  rewrite <-i2d_der by lia. unfold verified, Sighash.SetPubKey, pub_of. rewrite o2i_i2o by done.
  unfold Verify. apply Z.eqb_eq. pose proof (do_sign_verifies _ _ _ _ _ Hd E) as Ev.
  unfold low_s. destruct (order / 2 <? s); [|done]. by rewrite verify_negated.
Qed.
End plain.

(** ** Instances *)

(** The points are the numbers; a signature is good when its [r] is the sum of the
    hash and the number of the key. *)
Definition toy_r (h : bytes) (d : Z) : Z := 1 + (le_value h + d) mod (order - 1).
Definition toy_point : OpenSSLEC := {|
  eckey := Z;
  o2i_ECPublicKey vch := if (len vch =? 33) || (len vch =? 65) then Some (be_value (take 32 (drop 1 vch))) else None;
  ECDSA_verify h sig P := if be_value (take (Z.to_nat (at_ 0 sig 3)) (drop 4 sig)) =? toy_r h P then 1 else 0
|}.
Definition toy_keys : OpenSSLKeys (H := toy_point) := {|
  EC_POINT_mul d := d : eckey (OpenSSLEC := toy_point);
  i2o_ECPublicKey f (P : Z) :=
    match f with COMPRESSED => 2 :: be_bytes 32 P | UNCOMPRESSED => 4 :: be_bytes 32 P ++ be_bytes 32 0
    | HYBRID => 6 :: be_bytes 32 P ++ be_bytes 32 0 end;
  ECDSA_do_sign rnd h d := Some (toy_r h d, 1 + rnd mod (order - 1));
  i2d_ECDSA_SIG := der_sig
|}.

Lemma secp_order_bound : order < 2 ^ 256. Proof. by vm_compute. Qed.

Lemma toy_r_range h d : 0 < toy_r h d < order.
Proof. unfold toy_r. assert (1 < order - 1) by (by vm_compute). pose proof (Z.mod_pos_bound (le_value h + d) (order - 1)). lia. Qed.

Lemma be_value_num_bytes z : 0 < z -> be_value (rev (num_bytes z)) = z.
Proof.
  intros Hz. unfold be_value. rewrite rev_involutive, num_bytes_le, num_length_bits by done.
  apply le_value_bytes_id. split; [lia|]. pose proof (Z.log2_nonneg z). rewrite Z2Nat.id by (pose proof (Z.div_pos (Z.log2 z + 1) 8); lia).
  eapply Z.lt_le_trans; [apply (Z.log2_spec z Hz)|]. apply Z.pow_le_mono_r; [lia|].
  pose proof (Z.div_mod (Z.log2 z + 1) 8 ltac:(lia)). pose proof (Z.mod_pos_bound (Z.log2 z + 1) 8 ltac:(lia)). lia.
Qed.

(** The first integer of a signature. *)
Lemma der_sig_r r s : 0 < r -> be_value (take (Z.to_nat (at_ 0 (der_sig r s) 3)) (drop 4 (der_sig r s))) = r.
Proof.
  intros Hr. unfold der_sig, der_int. change (at_ 0 ([48; ?n] ++ ([2; ?m] ++ ?b) ++ ?c) 3) with m.
  change (drop 4 ([48; ?n] ++ ([2; ?m] ++ ?b) ++ ?c)) with (b ++ c).
  unfold len. rewrite Nat2Z.id, take_app_length. by apply be_value_num_bytes.
Qed.

Lemma toy_keys_laws : KeysLaws (H0 := toy_keys).
Proof.
  assert (forall d, secret_ok d -> 0 <= d < 2 ^ (8 * Z.of_nat 32)) as Hrange.
  { intros d Hd. pose proof secp_order_bound. change (8 * Z.of_nat 32) with 256. unfold secret_ok in Hd. lia. }
  assert (forall n z, bytes_ok (be_bytes n z)) as Hok by (intros; apply Forall_rev, le_bytes_ok).
  assert (forall n z, len (be_bytes n z) = Z.of_nat n) as Hlen by (intros; unfold len; by rewrite be_bytes_length).
  split; cbn [o2i_ECPublicKey ECDSA_verify EC_POINT_mul i2o_ECPublicKey ECDSA_do_sign i2d_ECDSA_SIG toy_keys toy_point].
  - intros d Hd. split_and!; [constructor; [done|apply Hok]|lens; by rewrite Hlen|by left].
  - intros d Hd. split_and!; [constructor; [done|by apply bytes_ok_app]|lens; by rewrite !Hlen|done].
  - intros d f Hd. destruct f; lens; rewrite ?Hlen; change (drop 1 (?x :: ?l)) with l.
    all: match goal with |- (if ?b then _ else _) = _ => change b with true end; f_equal.
    1: rewrite take_ge by (by rewrite be_bytes_length).
    2-3: rewrite take_app_length' by (by rewrite be_bytes_length).
    all: apply num_be_value_bytes; by apply Hrange.
  - intros. by eexists _, _.
  - intros rnd h d r s [= <- <-]. split; [apply toy_r_range|]. assert (1 < order - 1) by (by vm_compute).
    pose proof (Z.mod_pos_bound rnd (order - 1)). lia.
  - intros rnd h d r s Hd [= <- <-]. rewrite der_sig_r by apply toy_r_range. by rewrite Z.eqb_refl.
  - intros h r s P Hr Hs. by rewrite !der_sig_r by lia.
  - done.
Qed.

#[local] Existing Instance toy_point.
#[local] Existing Instance toy_keys.

(** A copy of a compressed key hands out its secret as that of an uncompressed one
    where the uninitialised flag is not set. *)
Example copy_forgets_compression :
  let k := MakeNewKey 5 true Reset in
  GetPubKey (copy false k) = GetPubKey k /\ GetSecret (copy false k) <> GetSecret k.
Proof. vm_compute. split; [reflexivity|discriminate]. Qed.

End Keys.
