(* ===== verification/Stealth.v ===== *)
(** * Stealth payments ([src/stealth.h], [src/stealth.cpp], [src/ephemeral-guard.h])

    Addresses of a scan key and a spend key, payments to them with an ephemeral key,
    their detection and the secret that spends them, over the keys of [Keys] and the
    points of [Points]; and the filter that keeps an ephemeral key from being drawn
    twice.  The sizes of the filter, which its constructor computes with floating
    point numbers, are arguments. *)

From S2P Require Import Prelude Crypto BigNum BigArith Script Interpreter Standard Sighash Base58 Bloom Keys Secp Points.
Import BigNum BigArith Interpreter Standard Keys.

Module Stealth.

(** ** The filter of ephemeral keys *)

Record EphemeralKeyGuard := { m_bits : Z; m_k : Z; m_data : bytes }.

Definition new_guard (bits k : Z) : EphemeralKeyGuard :=
  {| m_bits := bits; m_k := k; m_data := replicate (Z.to_nat ((bits + 7) / 8)) 0 |}.

Definition mix (x : Z) : Z :=
  let x := u64 (Z.lxor x (Z.shiftr x 30) * 0xBF58476D1CE4E5B9) in
  let x := u64 (Z.lxor x (Z.shiftr x 27) * 0x94D049BB133111EB) in
  Z.lxor x (Z.shiftr x 31).

Definition hashKey (R : bytes) : Z * Z :=
  let a := fold_left (fun a b => u64 (Z.lxor a b * 0x100000001b3)) R 0xcbf29ce484222325 in
  let b := u64 (a + 0x9E3779B97F4A7C15) in
  (mix a, Z.lor (mix b) 1).

Definition getBit (data : bytes) (i : Z) : bool := negb (Z.land (Z.shiftr (at_ 0 data (Z.shiftr i 3)) (Z.land i 7)) 1 =? 0).
Definition setBit (data : bytes) (i : Z) : bytes :=
  <[Z.to_nat (Z.shiftr i 3) := Z.lor (at_ 0 data (Z.shiftr i 3)) (u8 (Z.shiftl 1 (Z.land i 7)))]> data.

(** The bits the loops visit. *)
Definition bits_of (g : EphemeralKeyGuard) (R : bytes) : list Z :=
  let '(h1, h2) := hashKey R in
  map (fun i => u64 (h1 + u64 (Z.of_nat i * h2)) mod m_bits g) (seq 0 (Z.to_nat (m_k g))).

Definition WouldReuse (g : EphemeralKeyGuard) (R : bytes) : bool := forallb (getBit (m_data g)) (bits_of g R).
Definition Record_ (g : EphemeralKeyGuard) (R : bytes) : EphemeralKeyGuard :=
  {| m_bits := m_bits g; m_k := m_k g; m_data := fold_left setBit (bits_of g R) (m_data g) |}.

(** ** Addresses *)

Definition STEALTH_VERSION : Z := 0x28.
Record CStealthAddress := { scanPubKey : bytes; spendPubKey : bytes; label : bytes }.

(** [CPubKey::IsValid] and [CPubKey::IsCompressed] *)
Definition pub_IsValid (k : bytes) : bool := (len k =? 33) || (len k =? 65).
Definition pub_IsCompressed (k : bytes) : bool := len k =? 33.

Definition IsValid (a : CStealthAddress) : bool :=
  pub_IsValid (scanPubKey a) && pub_IsCompressed (scanPubKey a) &&
  pub_IsValid (spendPubKey a) && pub_IsCompressed (spendPubKey a).

Section stealth.
Context `{OpenSSLBN} `{OpenSSLBNArith} `{OpenSSLKeys} `{OpenSSLPoints} `{Sha256} `{ScriptHashes}.

Definition Encoded (a : CStealthAddress) : bytes :=
  if negb (IsValid a) then []
  else Base58.EncodeBase58Check (STEALTH_VERSION :: scanPubKey a ++ spendPubKey a).

Definition SetEncoded (addr : bytes) (a : CStealthAddress) : CStealthAddress * bool :=
  match Base58.DecodeBase58Check addr with
  | None => (a, false)
  | Some vchRaw =>
    if negb (len vchRaw =? 67) then (a, false)
    else if negb (at_ 0 vchRaw 0 =? STEALTH_VERSION) then (a, false)
    else
      let a := {| scanPubKey := take 33 (drop 1 vchRaw); spendPubKey := take 33 (drop 34 vchRaw); label := label a |} in
      (a, IsValid a)
  end.

(** ** Points *)

Definition PointToCompressedBytes (P : EC_POINT) : option bytes :=
  let b := EC_POINT_point2oct P in if negb (len b =? 33) then None else Some b.

Definition CompressedBytesToPoint (vchPubKey : bytes) : option EC_POINT :=
  if negb (len vchPubKey =? 33) then None else EC_POINT_oct2point vchPubKey.

(** The hash of the first coordinate.  [None] outside is the null pointer a key
    without a secret is read through, [None] inside the result false. *)
Definition ComputeStealthSharedSecret (privkey : CKey) (pubkey : bytes) : option (option uint256) :=
  if negb (pub_IsValid pubkey) || negb (pub_IsCompressed pubkey) then Some None
  else
    match GetSecret privkey with
    | None => None
    | Some (vchSecret, _) =>
      Some match CompressedBytesToPoint pubkey with
           | None => None
           | Some peer =>
             match affine_x (mul_point peer (be_value vchSecret)) with
             | None => None
             | Some x => Some (sha256_once (be_bytes 32 x))
             end
           end
    end.

(** The number added to the spend key: the hash of the shared secret. *)
Definition stealth_scalar (sharedSecret : uint256) : Z := be_value (sha256 (uint256_bytes sharedSecret)).

(** The public key and its identifier. *)
Definition DeriveStealthDestination (spendPub : bytes) (sharedSecret : uint256) : option (bytes * bytes) :=
  if negb (pub_IsValid spendPub) || negb (pub_IsCompressed spendPub) then None
  else
    match CompressedBytesToPoint spendPub with
    | None => None
    | Some P =>
      match PointToCompressedBytes (EC_POINT_add P (mul_generator (stealth_scalar sharedSecret))) with
      | None => None
      | Some vchDest => Some (vchDest, GetID vchDest)
      end
    end.

Definition DeriveStealthSpendKey (spendSecret : CKey) (sharedSecret : uint256) (destKey : CKey) : option CKey :=
  match GetSecret spendSecret with
  | None => None
  | Some (vchSpendSecret, _) =>
    SetSecret (be_bytes 32 ((be_value vchSpendSecret + stealth_scalar sharedSecret) mod order)) true destKey
  end.

(** ** Payments

    What a call that fails leaves in the payment or the key it was to fill is not
    kept. *)

Record CStealthPayment := { ephemeralPubKey : bytes; destKeyID : bytes; destPubKey : bytes }.

(** [EC_KEY_check_key] of OpenSSL, and [CKey::IsValid]; [None] is an exception. *)
Context (EC_KEY_check_key : EC_KEY -> bool).

Definition key_IsValid (k : CKey) : option bool :=
  if negb (fSet k) then Some false
  else if negb (EC_KEY_check_key (pkey k)) then Some false
  else
    match GetSecret k with
    | None => None
    | Some (secret, fCompr) =>
      match SetSecret secret fCompr Reset with
      | None => None
      | Some key2 =>
        match GetPubKey k, GetPubKey key2 with
        | Some a, Some b => Some (bool_decide (a = b))
        | _, _ => None
        end
      end
    end.

(** The keys are drawn from [rnd]; an invalid one ends the call. *)
Definition GenerateStealthAddress (rscan rspend : Z) (scan spend : CKey) : option (CKey * CKey * option CStealthAddress) :=
  let scan := MakeNewKey rscan true scan in
  let spend := MakeNewKey rspend true spend in
  match key_IsValid scan with
  | None => None
  | Some false => Some (scan, spend, None)
  | Some true =>
    match key_IsValid spend with
    | None => None
    | Some false => Some (scan, spend, None)
    | Some true =>
      match GetPubKey scan, GetPubKey spend with
      | Some ps, Some pp =>
        let a := {| scanPubKey := ps; spendPubKey := pp; label := [] |} in
        Some (scan, spend, if IsValid a then Some a else None)
      | _, _ => None
      end
    end
  end.

Definition MAX_EPHEMERAL_RETRIES : nat := 8.

(** The attempts: the key drawn and the filter after.  The inner [None] is false, and
    so is a draw of which there is none. *)
Fixpoint draw_ephemeral (attempts : nat) (rnd : list Z) (ephemeralKey : CKey) (g : EphemeralKeyGuard)
    : option (option (CKey * bytes) * EphemeralKeyGuard) :=
  match attempts, rnd with
  | S n, r :: rnd' =>
    let ephemeralKey := MakeNewKey r true ephemeralKey in
    match key_IsValid ephemeralKey with
    | None => None
    | Some false => Some (None, g)
    | Some true =>
      match GetPubKey ephemeralKey with
      | None => None
      | Some vchR =>
        if negb (WouldReuse g vchR) then Some (Some (ephemeralKey, vchR), Record_ g vchR)
        else draw_ephemeral n rnd' ephemeralKey g
      end
    end
  | _, _ => Some (None, g)
  end.

Definition PrepareStealthPayment (rnd : list Z) (address : CStealthAddress) (g : EphemeralKeyGuard)
    : option (option CStealthPayment * EphemeralKeyGuard) :=
  if negb (IsValid address) then Some (None, g)
  else
    match draw_ephemeral MAX_EPHEMERAL_RETRIES rnd Reset g with
    | None => None
    | Some (None, g) => Some (None, g)
    | Some (Some (ephemeralKey, vchR), g) =>
      match ComputeStealthSharedSecret ephemeralKey (scanPubKey address) with
      | None => None
      | Some None => Some (None, g)
      | Some (Some sharedSecret) =>
        Some (match DeriveStealthDestination (spendPubKey address) sharedSecret with
              | None => None
              | Some (dest, id) => Some {| ephemeralPubKey := vchR; destKeyID := id; destPubKey := dest |}
              end, g)
      end
    end.

Definition DetectStealthPayment (scanSecret : CKey) (ephemeralPub spendPub : bytes) (destKey : CKey) : option (option CKey) :=
  if negb (pub_IsValid ephemeralPub) || negb (pub_IsValid spendPub) then Some None
  else
    match ComputeStealthSharedSecret scanSecret ephemeralPub with
    | None => None
    | Some None => Some None
    | Some (Some sharedSecret) =>
      match DeriveStealthDestination spendPub sharedSecret with
      | None => Some None
      | Some (dest, _) => let '(k, ok) := SetPubKey dest destKey in Some (if ok then Some k else None)
      end
    end.
End stealth.

(** * Properties *)

(** ** The filter *)

Lemma land_7 i : Z.land i 7 = i mod 8.
Proof. change 7 with (Z.ones 3). by rewrite Z.land_ones by lia. Qed.

Lemma getBit_test v i : getBit v i = Bloom.test_bit v i.
Proof.
  rewrite Bloom.test_bit_spec. unfold getBit. rewrite land_7. pose proof (Z.mod_pos_bound i 8 ltac:(lia)).
  set (x := at_ 0 v _). change 1 with (Z.ones 1). rewrite Z.land_ones by lia. change (2 ^ 1) with 2.
  rewrite Zmod_odd, <-Z.bit0_odd, Z.shiftr_spec, Z.add_0_l by lia. by destruct (Z.testbit x (i mod 8)).
Qed.

Lemma setBit_set v i : setBit v i = Bloom.set_bit v i.
Proof.
  unfold setBit, Bloom.set_bit. rewrite Bloom.bit_mask_pow, land_7. pose proof (Z.mod_pos_bound i 8 ltac:(lia)).
  rewrite Z.shiftl_1_l, u8_id; [done|]. split; [apply Z.pow_nonneg; lia|]. change 256 with (2 ^ 8). apply Z.pow_lt_mono_r; lia.
Qed.

(** There are bits, and all have a place. *)
Definition guard_ok (g : EphemeralKeyGuard) : Prop := 0 < m_bits g <= len (m_data g) * 8.

Lemma new_guard_ok bits k : 64 <= bits -> guard_ok (new_guard bits k).
Proof.
  intros Hb. unfold guard_ok, new_guard, len. cbn [m_bits m_data]. rewrite length_replicate.
  pose proof (Z.div_mod (bits + 7) 8 ltac:(lia)). pose proof (Z.mod_pos_bound (bits + 7) 8 ltac:(lia)). lia.
Qed.

Lemma bits_range g R : guard_ok g -> Forall (fun i => 0 <= i < len (m_data g) * 8) (bits_of g R).
Proof.
  intros Hg. unfold bits_of. destruct (hashKey R) as [h1 h2]. apply Forall_map, Forall_forall. intros i _. cbv beta.
  unfold guard_ok in Hg. pose proof (Z.mod_pos_bound (u64 (h1 + u64 (Z.of_nat i * h2))) (m_bits g)). lia.
Qed.

Lemma record_data g R : m_data (Record_ g R) = fold_left Bloom.set_bit (bits_of g R) (m_data g).
Proof.
  change (m_data (Record_ g R)) with (fold_left setBit (bits_of g R) (m_data g)).
  generalize (m_data g). induction (bits_of g R) as [|i l IH]; intros v; [done|]. cbn [fold_left]. rewrite setBit_set. apply IH.
Qed.

Lemma record_spec g R R' :
  guard_ok g -> guard_ok (Record_ g R) /\
  (WouldReuse (Record_ g R) R = true) /\ (WouldReuse g R' = true -> WouldReuse (Record_ g R) R' = true).
Proof.
  intros Hg. pose proof (bits_range g R Hg) as Hr.
  assert (forall k, 0 <= k < len (m_data g) * 8 -> len (m_data (Record_ g R)) = len (m_data g) /\
    getBit (m_data (Record_ g R)) k = bool_decide (k ∈ bits_of g R) || getBit (m_data g) k) as Hs.
  { intros k Hk. rewrite !getBit_test, record_data. by apply Bloom.set_bits_test. }
  split; [|split].
  - unfold guard_ok in *. destruct (Hs 0) as [-> _]; [lia|]. done.
  - apply forallb_forall. intros k Hk. change (bits_of (Record_ g R) R) with (bits_of g R) in Hk. apply list_elem_of_In in Hk.
    destruct (Hs k) as [_ ->]; [by apply (proj1 (Forall_forall _ _) Hr)|]. by rewrite bool_decide_true.
  - unfold WouldReuse. rewrite !forallb_forall. intros Hw k Hk. change (bits_of (Record_ g R) R') with (bits_of g R') in Hk.
    specialize (Hw k Hk). apply list_elem_of_In in Hk.
    destruct (Hs k) as [_ ->]; [by apply (proj1 (Forall_forall _ _) (bits_range g R' Hg))|]. rewrite Hw. apply orb_true_r.
Qed.

(** ** Addresses as text *)

Lemma address_text_roundtrip `{OpenSSLBN} `{OpenSSLBNArith} `{!BNLaws} `{!BNArithLaws} `{Sha256} a b :
  IsValid a = true -> bytes_ok (scanPubKey a) -> bytes_ok (spendPubKey a) ->
  SetEncoded (Encoded a) b = ({| scanPubKey := scanPubKey a; spendPubKey := spendPubKey a; label := label b |}, true).
Proof.
  intros Hv Hs Hp. unfold Encoded. rewrite Hv. cbn [negb]. pose proof Hv as Hv'. unfold IsValid, pub_IsCompressed in Hv'. bool_prop.
  assert (length (scanPubKey a) = 33%nat) as L1 by (unfold len in *; lia). assert (length (spendPubKey a) = 33%nat) as L2 by (unfold len in *; lia).
  unfold SetEncoded. rewrite Base58.check_roundtrip.
  - rewrite len_cons, len_app. replace (len (scanPubKey a) + len (spendPubKey a) + 1) with 67 by lia.
    replace (1 + (len (scanPubKey a) + len (spendPubKey a))) with 67 by lia. cbn [Z.eqb negb]. change (67 =? 67) with true. cbn [negb].
    change (at_ 0 (STEALTH_VERSION :: scanPubKey a ++ spendPubKey a) 0) with STEALTH_VERSION. rewrite Z.eqb_refl. cbn [negb].
    change (drop 1 (STEALTH_VERSION :: scanPubKey a ++ spendPubKey a)) with (scanPubKey a ++ spendPubKey a).
    change (drop 34 (STEALTH_VERSION :: scanPubKey a ++ spendPubKey a)) with (drop 33 (scanPubKey a ++ spendPubKey a)).
    rewrite take_app_length', drop_app_length', (take_ge (spendPubKey a)) by lia.
    f_equal. unfold IsValid in *. cbn [scanPubKey spendPubKey]. exact Hv.
  - constructor; [by unfold byte_ok, STEALTH_VERSION|]. by apply bytes_ok_app.
  - rewrite len_cons, len_app. lia.
Qed.

(** ** Payments *)

(** Both interfaces write the public key of a number in its compressed form the same
    way. *)
Class CurveAgrees `{OpenSSLKeys} `{OpenSSLPoints} : Prop :=
  compressed_agrees d : secret_ok d -> i2o_ECPublicKey COMPRESSED (EC_POINT_mul d) = EC_POINT_point2oct (mul_generator d).

Lemma order_eq : order = ORDER.
Proof. by vm_compute. Qed.

Section received.
Context `{OpenSSLBN} `{OpenSSLBNArith} `{KeysLaws} `{OpenSSLPoints} `{!PointsLaws} `{!CurveAgrees} `{Sha256} `{ScriptHashes}.
Context (EC_KEY_check_key : EC_KEY -> bool).

Lemma secret_point d : secret_ok d -> mul_generator d <> infinity.
Proof. intros Hd. apply generator_nonzero, key_nonzero. rewrite <-order_eq. exact Hd. Qed.

Lemma secret_range d : secret_ok d -> 0 <= d < 2 ^ 256.
Proof. intros Hd. pose proof secp_order_bound. unfold secret_ok in Hd. lia. Qed.

Lemma pub_length d : secret_ok d -> len (pub_of d true) = 33.
Proof. intros Hd. by destruct (pub_of_facts d true Hd) as (_ & Hl & _). Qed.

Lemma read_pub d : secret_ok d -> CompressedBytesToPoint (pub_of d true) = Some (mul_generator d).
Proof.
  intros Hd. unfold CompressedBytesToPoint. rewrite pub_length by done. cbn [Z.eqb negb]. change (33 =? 33) with true. cbn [negb].
  unfold pub_of. cbn [form_of]. rewrite compressed_agrees by done. by apply oct2point_point2oct, secret_point.
Qed.

Lemma GetSecret_number d c : secret_ok d -> GetSecret (plain_key d c) = Some (be_bytes 32 d, c).
Proof.
  intros Hd. unfold GetSecret. cbn [pkey plain_key priv_key fCompressedPubKey]. pose proof (secret_range d Hd).
  by destruct (Z.ltb_spec d (2 ^ 256)); [|lia].
Qed.

Lemma be_number d : secret_ok d -> Secp.be_value (be_bytes 32 d) = d.
Proof. intros Hd. apply (num_be_value_bytes 32). by apply secret_range. Qed.

(** Both sides compute the same secret. *)
Lemma shared_same d e c c' :
  secret_ok d -> secret_ok e ->
  ComputeStealthSharedSecret (plain_key d c) (pub_of e true) = ComputeStealthSharedSecret (plain_key e c') (pub_of d true).
Proof.
  intros Hd He. unfold ComputeStealthSharedSecret, pub_IsValid, pub_IsCompressed. rewrite !pub_length, !GetSecret_number, !read_pub, !be_number by done.
  change (33 =? 33) with true. cbn [orb negb]. by rewrite shared_point.
Qed.

Lemma destination_of d s dest id :
  secret_ok d -> DeriveStealthDestination (pub_of d true) s = Some (dest, id) ->
  id = GetID dest /\ exists k, secret_ok k /\ k = (d + stealth_scalar s) mod order /\ pub_of k true = dest.
Proof.
  intros Hd. unfold DeriveStealthDestination, pub_IsValid, pub_IsCompressed. rewrite read_pub, pub_length by done.
  change (33 =? 33) with true. cbn [orb negb]. rewrite generator_add. unfold PointToCompressedBytes.
  destruct (Z.eqb_spec (len (EC_POINT_point2oct (mul_generator (d + stealth_scalar s)))) 33) as [Hl|]; [|done]. cbn [negb].
  intros [= <- <-]. split; [done|]. exists ((d + stealth_scalar s) mod order).
  assert (mul_generator (d + stealth_scalar s) <> infinity) as Hn by (apply point2oct_length; unfold len in Hl; lia).
  assert (secret_ok ((d + stealth_scalar s) mod order)) as Hk.
  { unfold secret_ok. pose proof (Z.mod_pos_bound (d + stealth_scalar s) order eq_refl).
    destruct (Z.eq_dec ((d + stealth_scalar s) mod order) 0) as [E|]; [|lia]. exfalso. apply Hn, generator_zero. by rewrite <-order_eq. }
  split; [done|]. split; [done|]. unfold pub_of. cbn [form_of]. rewrite compressed_agrees by done. f_equal.
  rewrite order_eq. apply generator_order.
Qed.

(** An ephemeral key is a number that was drawn, new to the filter and in it after. *)
Lemma draw_ephemeral_spec n rnd k0 g k R g' :
  Forall secret_ok rnd -> (exists d c, k0 = plain_key d c) \/ k0 = Reset ->
  draw_ephemeral EC_KEY_check_key n rnd k0 g = Some (Some (k, R), g') ->
  exists e, e ∈ rnd /\ k = plain_key e true /\ R = pub_of e true /\ WouldReuse g R = false /\ g' = Record_ g R.
Proof.
  intros Hr. revert n k0. induction Hr as [|e rnd He Hr IH]; intros [|n] k0 Hk; cbn [draw_ephemeral]; try done.
  assert (MakeNewKey e true k0 = plain_key e true) as -> by (by destruct Hk as [(d & c & ->)| ->]).
  destruct (key_IsValid _ _) as [[]|]; try done. rewrite GetPubKey_plain. destruct (WouldReuse g (pub_of e true)) eqn:Ew; cbn [negb].
  - intros Hd. destruct (IH n (plain_key e true) ltac:(left; eauto) Hd) as (e' & Hin & Hrest). exists e'. split; [by right|done].
  - intros [= <- <- <-]. exists e. split; [by left|done].
Qed.

(** C29. A stealth payment that [PrepareStealthPayment] makes to the address of a valid
    scan key and a valid spend key, both compressed, is received, whatever valid keys
    are drawn: with the scan key [DetectStealthPayment] detects it, and the public key
    detected is the one paid to; with the spend key [DeriveStealthSpendKey] gives the
    secret of that public key; and a filter of ephemeral keys with bits for all its
    positions held no trace of the payment's key before, holds it after, and loses
    nothing. *)
Theorem stealth_payment_received rnd a g p g' scan spend :
  Forall secret_ok rnd -> secret_ok scan -> secret_ok spend -> guard_ok g ->
  scanPubKey a = pub_of scan true -> spendPubKey a = pub_of spend true ->
  PrepareStealthPayment EC_KEY_check_key rnd a g = Some (Some p, g') ->
  (exists k, DetectStealthPayment (plain_key scan true) (ephemeralPubKey p) (spendPubKey a) Reset = Some (Some k) /\
    GetPubKey k = Some (destPubKey p)) /\
  (exists s d, ComputeStealthSharedSecret (plain_key scan true) (ephemeralPubKey p) = Some (Some s) /\
    DeriveStealthSpendKey (plain_key spend true) s Reset = Some (plain_key d true) /\ secret_ok d /\ pub_of d true = destPubKey p) /\
  destKeyID p = GetID (destPubKey p) /\ WouldReuse g (ephemeralPubKey p) = false /\ guard_ok g' /\
  WouldReuse g' (ephemeralPubKey p) = true /\ (forall R, WouldReuse g R = true -> WouldReuse g' R = true).
Proof.
  intros Hr Hs Hp Hg Ea Eb. unfold PrepareStealthPayment. destruct (IsValid a); [|done]. cbn [negb].
  destruct (draw_ephemeral _ _ rnd Reset g) as [[[[k R]|] g1]|] eqn:Ed; [|done..].
  apply draw_ephemeral_spec in Ed as (e & He & -> & -> & Ew & ->); [|done|by right].
  apply (proj1 (Forall_forall _ _) Hr) in He. rewrite Ea, Eb, (shared_same e scan true true He Hs).
  destruct (ComputeStealthSharedSecret (plain_key scan true) (pub_of e true)) as [[s|]|] eqn:Es; [|done..].
  destruct (DeriveStealthDestination (pub_of spend true) s) as [[dest id]|] eqn:Ede; [|done].
  intros E. apply Some_inj, pair_equal_spec in E as [E <-]. injection E as <-. cbn [ephemeralPubKey destPubKey destKeyID].
  destruct (destination_of _ _ _ _ Hp Ede) as (-> & d & Hd & Ed & Epub).
  destruct (record_spec g (pub_of e true) (pub_of e true) Hg) as (Hg' & Hre & _).
  split; [|split; [|split; [done|split; [done|split; [done|split; [done|]]]]]].
  - unfold DetectStealthPayment, pub_IsValid. rewrite !pub_length by done. change (33 =? 33) with true. cbn [orb negb]. rewrite Es, Ede.
    unfold SetPubKey. rewrite <-Epub. unfold pub_of at 1. rewrite o2i_i2o by done. rewrite pub_length by done. change (33 =? 33) with true.
    cbn. eexists. split; [done|]. done.
  - exists s, d. split; [done|]. split; [|done]. unfold DeriveStealthSpendKey. rewrite GetSecret_number by done.
    rewrite be_number by done. rewrite <-Ed, SetSecret_plain by (unfold len; by rewrite be_bytes_length). do 2 f_equal. exact (be_number d Hd).
  - intros R' HR'. by apply (record_spec g (pub_of e true) R' Hg).
Qed.
End received.

(** ** Witness *)

Section witnesses.
#[local] Existing Instance toy_point.
#[local] Existing Instance toy_keys.
#[local] Existing Instance toy_keys_laws.
#[local] Existing Instance residue_points.
#[local] Existing Instance toy_hashes.
#[local] Instance toy : Sha256 := toy_sha256.
#[local] Existing Instance z_bn.
#[local] Existing Instance z_arith.

#[local] Instance toy_agrees : CurveAgrees.
Proof.
  intros d Hd. unfold secret_ok in Hd. rewrite order_eq in Hd. cbn [EC_POINT_point2oct residue_points mul_generator].
  unfold residue_octets. assert (proj1_sig (to_residue d) = d) as -> by (apply (Z.mod_small d ORDER); lia).
  destruct (Z.eqb_spec d 0); [lia|]. reflexivity.
Qed.

Definition any_key (k : EC_KEY) : bool := true.
Definition to_pay : CStealthAddress := {| scanPubKey := pub_of 3 true; spendPubKey := pub_of 4 true; label := [] |}.
Definition used_guard : EphemeralKeyGuard := Record_ (new_guard 1000 4) (pub_of 5 true).
Definition paid : option (option CStealthPayment * EphemeralKeyGuard) := PrepareStealthPayment any_key [5; 6; 7] to_pay used_guard.
Definition no_payment : CStealthPayment := {| ephemeralPubKey := []; destKeyID := []; destPubKey := [] |}.
Definition paid_payment : CStealthPayment := match paid with Some (Some p, _) => p | _ => no_payment end.
Definition paid_guard : EphemeralKeyGuard := match paid with Some (_, g) => g | None => used_guard end.

Lemma paid_eq : PrepareStealthPayment any_key [5; 6; 7] to_pay used_guard = Some (Some paid_payment, paid_guard).
Proof. vm_compute. reflexivity. Qed.

(** The first draw was used before: the second one is taken. *)
Lemma stealth_payment_received_witness :
  ephemeralPubKey paid_payment = pub_of 6 true /\
  exists k, DetectStealthPayment (plain_key 3 true) (ephemeralPubKey paid_payment) (spendPubKey to_pay) Reset = Some (Some k) /\
    GetPubKey k = Some (destPubKey paid_payment).
Proof.
  split; [vm_compute; reflexivity|].
  destruct (stealth_payment_received any_key [5; 6; 7] to_pay used_guard paid_payment paid_guard 3 4) as [H1 _].
  - apply (bool_decide_unpack (Forall (fun d => 0 < d < order) [5; 6; 7])). vm_compute. exact I.
  - vm_compute. split; reflexivity.
  - vm_compute. split; reflexivity.
  - apply (record_spec _ _ []), new_guard_ok; lia.
  - reflexivity.
  - reflexivity.
  - exact paid_eq.
  - exact H1.
Defined.
End witnesses.

End Stealth.
