(* ===== verification/KeyStore.v ===== *)
(** * Stores of keys ([src/keystore.h], [src/keystore.cpp], [src/crypter.h], [src/crypter.cpp])

    The store of keys and scripts, the one that keeps its keys encrypted under a
    master key, and the passphrase of a wallet ([src/wallet.cpp]), under which the
    master key is kept.  AES and the derivation of keys are the class [OpenSSLEVP],
    [scrypt_salted_hash] is a parameter.  What the wallet file is told is outside the
    state.  A map is walked in the order of its keys. *)

From S2P Require Import Prelude Crypto BigNum Script Interpreter Standard Sighash Keys.
Import BigNum Interpreter Standard Sighash Keys.

Module KeyStore.

(** ** Encryption *)

(** AES-256 in CBC mode, from the initialisation to the final call, and the key and
    vector derived from data; [None] where a call fails. *)
Class OpenSSLEVP := {
  EVP_encrypt : bytes -> bytes -> bytes -> option bytes;
  EVP_decrypt : bytes -> bytes -> bytes -> option bytes;
  EVP_BytesToKey : bytes -> bytes -> Z -> Z * bytes * bytes;
  scrypt_salted_hash : bytes -> bytes -> uint256
}.

Class EVPLaws `{OpenSSLEVP} : Prop := {
  encrypt_decrypt k iv p : len k = 32 -> len iv = 16 ->
    exists c, EVP_encrypt k iv p = Some c /\ EVP_decrypt k iv c = Some p;
  derived_sizes salt data n : 1 <= n ->
    let '(i, k, iv) := EVP_BytesToKey salt data n in i = 32 /\ len k = 32 /\ len iv = 16
}.

Definition WALLET_CRYPTO_KEY_SIZE : Z := 32.
Definition WALLET_CRYPTO_SALT_SIZE : Z := 8.
Definition WALLET_CRYPTO_IV_SIZE : Z := 16.

Record CMasterKey := {
  vchCryptedKey : bytes; vchSalt : bytes; nDerivationMethod : Z; nDeriveIterations : Z;
  vchOtherDerivationParameters : bytes }.

(** [CMasterKey(nDerivationMethodIndex)] *)
Definition new_master_key (nDerivationMethodIndex : Z) : CMasterKey :=
  let m := if nDerivationMethodIndex =? 1 then (10000, 1) else (25000, 0) in
  {| vchCryptedKey := []; vchSalt := []; nDerivationMethod := m.2; nDeriveIterations := m.1;
     vchOtherDerivationParameters := [] |}.

Record CCrypter := { vchKey : bytes; vchIV : bytes; fKeySet : bool }.
Definition new_crypter : CCrypter := {| vchKey := replicate 32 0; vchIV := replicate 16 0; fKeySet := false |}.

Section crypter.
Context `{Sha256} `{OpenSSLEVP}.

(** The rounds after the first hash the data with the last result as the salt. *)
Definition scrypt_salted_multiround_hash (input salt : bytes) (nRounds : Z) : uint256 :=
  Nat.iter (Z.to_nat (nRounds - 1)) (fun h => scrypt_salted_hash input (uint256_bytes h)) (scrypt_salted_hash input salt).

Definition SetKeyFromPassphrase (strKeyData chSalt : bytes) (nRounds method : Z) (c : CCrypter) : CCrypter * bool :=
  if (nRounds <? 1) || negb (len chSalt =? WALLET_CRYPTO_SALT_SIZE) then (c, false)
  else
    let '(i, k, iv) :=
      if method =? 0 then EVP_BytesToKey chSalt strKeyData nRounds
      else if method =? 1 then
        EVP_BytesToKey chSalt (uint256_bytes (scrypt_salted_multiround_hash strKeyData chSalt nRounds)) nRounds
      else (0, vchKey c, vchIV c) in
    if negb (i =? WALLET_CRYPTO_KEY_SIZE)
    then ({| vchKey := replicate (length k) 0; vchIV := replicate (length iv) 0; fKeySet := fKeySet c |}, false)
    else ({| vchKey := k; vchIV := iv; fKeySet := true |}, true).

Definition SetKey (chNewKey chNewIV : bytes) (c : CCrypter) : CCrypter * bool :=
  if negb (len chNewKey =? WALLET_CRYPTO_KEY_SIZE) || negb (len chNewIV =? WALLET_CRYPTO_IV_SIZE) then (c, false)
  else ({| vchKey := chNewKey; vchIV := chNewIV; fKeySet := true |}, true).

Definition Encrypt (c : CCrypter) (vchPlaintext : bytes) : option bytes :=
  if negb (fKeySet c) then None else EVP_encrypt (vchKey c) (vchIV c) vchPlaintext.
Definition Decrypt (c : CCrypter) (vchCiphertext : bytes) : option bytes :=
  if negb (fKeySet c) then None else EVP_decrypt (vchKey c) (vchIV c) vchCiphertext.

(** The vector is the first half of the hash. *)
Definition EncryptSecret (vMasterKey vchPlaintext : bytes) (nIV : uint256) : option bytes :=
  let '(c, ok) := SetKey vMasterKey (take 16 (uint256_bytes nIV)) new_crypter in
  if negb ok then None else Encrypt c vchPlaintext.
Definition DecryptSecret (vMasterKey vchCiphertext : bytes) (nIV : uint256) : option bytes :=
  let '(c, ok) := SetKey vMasterKey (take 16 (uint256_bytes nIV)) new_crypter in
  if negb ok then None else Decrypt c vchCiphertext.
End crypter.

(** ** Stores *)

(** What signing asks of a store. *)
Class CKeyStore `{OpenSSLKeys} (store : Type) := {
  HaveKey : store -> bytes -> bool;
  GetKey : store -> bytes -> option CKey;
  GetPubKeyOf : store -> bytes -> option bytes;
  HaveCScript : store -> bytes -> bool;
  GetCScript : store -> bytes -> option bytes
}.

(** A map in the order of its keys, which are numbers of 160 bits. *)
Definition id_le {A} (x y : bytes * A) : Prop := le_value x.1 <= le_value y.1.
#[export] Instance id_le_dec {A} (x y : bytes * A) : Decision (id_le x y).
Proof. unfold id_le. apply _. Defined.
Definition entries {A} (m : gmap bytes A) : list (bytes * A) := merge_sort id_le (map_to_list m).

Record CBasicKeyStore := { mapKeys : gmap bytes (bytes * bool); mapScripts : gmap bytes bytes }.
Record CCryptoKeyStore := {
  basic : CBasicKeyStore; mapCryptedKeys : gmap bytes (bytes * bytes); vMasterKey : bytes; fUseCrypto : bool }.

Definition no_keys : CCryptoKeyStore :=
  {| basic := {| mapKeys := ∅; mapScripts := ∅ |}; mapCryptedKeys := ∅; vMasterKey := []; fUseCrypto := false |}.

Definition with_basic (b : CBasicKeyStore) (s : CCryptoKeyStore) : CCryptoKeyStore :=
  {| basic := b; mapCryptedKeys := mapCryptedKeys s; vMasterKey := vMasterKey s; fUseCrypto := fUseCrypto s |}.
Definition with_master (m : bytes) (s : CCryptoKeyStore) : CCryptoKeyStore :=
  {| basic := basic s; mapCryptedKeys := mapCryptedKeys s; vMasterKey := m; fUseCrypto := fUseCrypto s |}.
Definition with_crypto (s : CCryptoKeyStore) : CCryptoKeyStore :=
  {| basic := basic s; mapCryptedKeys := mapCryptedKeys s; vMasterKey := vMasterKey s; fUseCrypto := true |}.

Section stores.
Context `{Sha256} `{ScriptHashes} `{OpenSSLKeys} `{OpenSSLEVP}.

(** [CPubKey::GetHash] *)
Definition GetHash (vchPubKey : bytes) : uint256 := sha256_twice vchPubKey.

(** *** The plain store.  The result of an operation is absent where a [key_error]
    leaves it. *)

Definition AddKeyBasic (key : CKey) (s : CBasicKeyStore) : CBasicKeyStore * option bool :=
  match GetSecret key, GetPubKey key with
  | Some secret, Some pub =>
      ({| mapKeys := <[GetID pub := secret]> (mapKeys s); mapScripts := mapScripts s |}, Some true)
  | _, _ => (s, None)
  end.

Definition AddCScript (redeemScript : bytes) (s : CBasicKeyStore) : CBasicKeyStore :=
  {| mapKeys := mapKeys s; mapScripts := <[Hash160 redeemScript := redeemScript]> (mapScripts s) |}.

#[export] Instance basic_store : CKeyStore CBasicKeyStore := {
  HaveKey s address := bool_decide (is_Some (mapKeys s !! address));
  GetKey s address :=
    match mapKeys s !! address with None => None | Some (secret, fCompressed) => SetSecret secret fCompressed Reset end;
  GetPubKeyOf s address :=
    match mapKeys s !! address with
    | None => None
    | Some (secret, fCompressed) => match SetSecret secret fCompressed Reset with None => None | Some key => GetPubKey key end
    end;
  HaveCScript s h := bool_decide (is_Some (mapScripts s !! h));
  GetCScript s h := mapScripts s !! h
}.

(** *** The encrypted store *)

Definition IsCrypted (s : CCryptoKeyStore) : bool := fUseCrypto s.
Definition IsLocked (s : CCryptoKeyStore) : bool :=
  if negb (IsCrypted s) then false else match vMasterKey s with [] => true | _ => false end.

(** Keys that are not encrypted stand in the way. *)
Definition SetCrypted (s : CCryptoKeyStore) : CCryptoKeyStore * bool :=
  if fUseCrypto s then (s, true)
  else if negb (bool_decide (mapKeys (basic s) = ∅)) then (s, false)
  else (with_crypto s, true).

Definition Lock (s : CCryptoKeyStore) : CCryptoKeyStore * bool :=
  let '(s, ok) := SetCrypted s in if negb ok then (s, false) else (with_master [] s, true).

(** The key of an entry, decrypted. *)
Definition decrypt_key (master : bytes) (e : bytes * bytes) : option CKey :=
  let '(vchPubKey, vchCryptedSecret) := e in
  match DecryptSecret master vchCryptedSecret (GetHash vchPubKey) with
  | None => None
  | Some vchSecret =>
      if negb (len vchSecret =? 32) then None
      else SetSecret vchSecret false (SetPubKey vchPubKey Reset).1
  end.

(** The loop ends with the first key. *)
Definition Unlock (vMasterKeyIn : bytes) (s : CCryptoKeyStore) : CCryptoKeyStore * bool :=
  let '(s, ok) := SetCrypted s in
  if negb ok then (s, false)
  else
    match entries (mapCryptedKeys s) with
    | [] => (with_master vMasterKeyIn s, true)
    | (_, e) :: _ =>
        match decrypt_key vMasterKeyIn e with
        | None => (s, false)
        | Some key =>
            if bool_decide (GetPubKey key = Some e.1) then (with_master vMasterKeyIn s, true) else (s, false)
        end
    end.

Definition AddCryptedKey (vchPubKey vchCryptedSecret : bytes) (s : CCryptoKeyStore) : CCryptoKeyStore * bool :=
  let '(s, ok) := SetCrypted s in
  if negb ok then (s, false)
  else
    ({| basic := basic s; mapCryptedKeys := <[GetID vchPubKey := (vchPubKey, vchCryptedSecret)]> (mapCryptedKeys s);
        vMasterKey := vMasterKey s; fUseCrypto := fUseCrypto s |}, true).

Definition AddKey (key : CKey) (s : CCryptoKeyStore) : CCryptoKeyStore * option bool :=
  if negb (IsCrypted s) then let '(b, ok) := AddKeyBasic key (basic s) in (with_basic b s, ok)
  else if IsLocked s then (s, Some false)
  else
    match GetPubKey key, GetSecret key with
    | Some vchPubKey, Some (secret, _) =>
        match EncryptSecret (vMasterKey s) secret (GetHash vchPubKey) with
        | None => (s, Some false)
        | Some vchCryptedSecret => let '(s, ok) := AddCryptedKey vchPubKey vchCryptedSecret s in (s, Some ok)
        end
    | _, _ => (s, None)
    end.

Definition GetKeys (s : CCryptoKeyStore) : gset bytes :=
  if negb (IsCrypted s) then dom (mapKeys (basic s)) else dom (mapCryptedKeys s).

#[export] Instance crypto_store : CKeyStore CCryptoKeyStore := {
  HaveKey s address :=
    if negb (IsCrypted s) then HaveKey (basic s) address else bool_decide (is_Some (mapCryptedKeys s !! address));
  GetKey s address :=
    if negb (IsCrypted s) then GetKey (basic s) address
    else match mapCryptedKeys s !! address with None => None | Some e => decrypt_key (vMasterKey s) e end;
  GetPubKeyOf s address :=
    if negb (IsCrypted s) then GetPubKeyOf (basic s) address
    else match mapCryptedKeys s !! address with None => None | Some e => Some e.1 end;
  HaveCScript s h := HaveCScript (basic s) h;
  GetCScript s h := GetCScript (basic s) h
}.

(** The loop over the plain keys; where it fails the keys before stay encrypted and
    all the plain ones stay as well. *)
Fixpoint encrypt_loop (master : bytes) (l : list (bytes * (bytes * bool))) (s : CCryptoKeyStore)
    : CCryptoKeyStore * option bool :=
  match l with
  | [] => (with_basic {| mapKeys := ∅; mapScripts := mapScripts (basic s) |} s, Some true)
  | (_, (secret, fCompressed)) :: l =>
      match SetSecret secret fCompressed Reset with
      | None => (s, None)
      | Some key =>
          match GetPubKey key, GetSecret key with
          | Some vchPubKey, Some (secret, _) =>
              match EncryptSecret master secret (GetHash vchPubKey) with
              | None => (s, Some false)
              | Some vchCryptedSecret =>
                  let '(s, ok) := AddCryptedKey vchPubKey vchCryptedSecret s in
                  if negb ok then (s, Some false) else encrypt_loop master l s
              end
          | _, _ => (s, None)
          end
      end
  end.

Definition EncryptKeys (vMasterKeyIn : bytes) (s : CCryptoKeyStore) : CCryptoKeyStore * option bool :=
  if negb (bool_decide (mapCryptedKeys s = ∅)) || IsCrypted s then (s, Some false)
  else encrypt_loop vMasterKeyIn (entries (mapKeys (basic s))) (with_crypto s).
End stores.

(** ** The abstract machine

    A map of keys that is plain, locked or open.  It becomes locked when it is given
    a master key, after which only that key opens it; what is locked shows which keys
    there are and their public parts. *)

Inductive phase := Plain | Locked | Open.
Definition is_plain (p : phase) : bool := match p with Plain => true | _ => false end.
Definition is_locked (p : phase) : bool := match p with Locked => true | _ => false end.
Definition is_open (p : phase) : bool := match p with Open => true | _ => false end.

Record vault := { v_keys : gmap bytes (bytes * bool); v_scripts : gmap bytes bytes; v_phase : phase; v_master : bytes }.
Definition empty_vault : vault := {| v_keys := ∅; v_scripts := ∅; v_phase := Plain; v_master := [] |}.

Inductive event :=
  | EvAddKey (secret : bytes) (fCompressed : bool)
  | EvAddCScript (redeemScript : bytes)
  | EvEncryptKeys (master : bytes)
  | EvLock
  | EvUnlock (master : bytes).

Section machine.
Context `{Sha256} `{ScriptHashes} `{OpenSSLKeys} `{OpenSSLEVP}.

Definition key_id (secret : bytes) (c : bool) : bytes := GetID (pub_of (be_value secret) c).

Definition with_phase (p : phase) (master : bytes) (v : vault) : vault :=
  {| v_keys := v_keys v; v_scripts := v_scripts v; v_phase := p; v_master := master |}.

Definition vault_step (e : event) (v : vault) : vault * bool :=
  match e with
  | EvAddKey secret c =>
      match v_phase v with
      | Locked => (v, false)
      | _ => ({| v_keys := <[key_id secret c := (secret, c)]> (v_keys v); v_scripts := v_scripts v;
                 v_phase := v_phase v; v_master := v_master v |}, true)
      end
  | EvAddCScript s =>
      ({| v_keys := v_keys v; v_scripts := <[Hash160 s := s]> (v_scripts v); v_phase := v_phase v; v_master := v_master v |}, true)
  | EvEncryptKeys m => match v_phase v with Plain => (with_phase Locked m v, true) | _ => (v, false) end
  | EvLock =>
      match v_phase v with
      | Plain => if bool_decide (v_keys v = ∅) then (with_phase Locked [] v, true) else (v, false)
      | _ => (with_phase Locked (v_master v) v, true)
      end
  | EvUnlock m =>
      if bool_decide (v_keys v = ∅) then (with_phase Open m v, true)
      else match v_phase v with
           | Plain => (v, false)
           | _ => if bool_decide (m = v_master v) then (with_phase Open m v, true) else (v, false)
           end
  end.

(** The store; a [key_error] does not occur. *)
Definition store_step (e : event) (s : CCryptoKeyStore) : CCryptoKeyStore * bool :=
  match e with
  | EvAddKey secret c =>
      match SetSecret secret c Reset with
      | None => (s, false)
      | Some key => let '(s, ok) := AddKey key s in (s, default false ok)
      end
  | EvAddCScript redeem => (with_basic (AddCScript redeem (basic s)) s, true)
  | EvEncryptKeys m => let '(s, ok) := EncryptKeys m s in (s, default false ok)
  | EvLock => Lock s
  | EvUnlock m => Unlock m s
  end.

Fixpoint run {S : Type} (step : event -> S -> S * bool) (evs : list event) (s : S) : S * list bool :=
  match evs with
  | [] => (s, [])
  | e :: evs => let '(s, b) := step e s in let '(s, bs) := run step evs s in (s, b :: bs)
  end.

(** Secrets are 32 bytes of a number below the order, master keys are 32 bytes. *)
Definition event_ok (e : event) : Prop :=
  match e with
  | EvAddKey secret _ => bytes_ok secret /\ len secret = 32 /\ secret_ok (be_value secret)
  | EvEncryptKeys m | EvUnlock m => len m = 32
  | _ => True
  end.

(** What a store shows is what the machine holds. *)
Record shows (s : CCryptoKeyStore) (v : vault) : Prop := {
  shows_crypted : IsCrypted s = negb (is_plain (v_phase v));
  shows_locked : IsLocked s = is_locked (v_phase v);
  shows_have a : HaveKey s a = bool_decide (is_Some (v_keys v !! a));
  shows_key a : GetKey s a = if is_locked (v_phase v) then None
    else (fun k => plain_key (be_value k.1) k.2) <$> v_keys v !! a;
  shows_pub a : GetPubKeyOf s a = (fun k => pub_of (be_value k.1) k.2) <$> v_keys v !! a;
  shows_keys : GetKeys s = dom (v_keys v);
  shows_script h : GetCScript s h = v_scripts v !! h
}.

(** A key other than the master key decrypts the secret of a key of the store as well,
    or one with the same public key, and was tried. *)
Definition opens_wrongly (m' : bytes) (v : vault) : Prop :=
  m' <> v_master v /\ exists a secret c secret' ct,
    v_keys v !! a = Some (secret, c) /\
    let pub := pub_of (be_value secret) c in
    EncryptSecret (v_master v) secret (GetHash pub) = Some ct /\
    DecryptSecret m' ct (GetHash pub) = Some secret' /\ pub_of (be_value secret') c = pub.
Definition wrong_key_opens (evs : list event) : Prop :=
  exists evs1 m' evs2, evs = evs1 ++ EvUnlock m' :: evs2 /\ opens_wrongly m' (run vault_step evs1 empty_vault).1.
End machine.

(** * Properties *)

Section laws.
Context `{Sha256} `{ScriptHashes} `{KeysLaws} `{EVPLaws}.

Lemma iv_size h : len (take 16 (uint256_bytes h)) = 16.
Proof. unfold len. by rewrite length_take, uint256_bytes_length. Qed.

Lemma EncryptSecret_ok m p h :
  len m = 32 -> exists ct, EncryptSecret m p h = Some ct /\ DecryptSecret m ct h = Some p.
Proof.
  intros Hm. destruct (encrypt_decrypt m (take 16 (uint256_bytes h)) p Hm (iv_size h)) as (ct & He & Hd).
  exists ct. unfold EncryptSecret, DecryptSecret, SetKey. by rewrite Hm, iv_size.
Qed.

Lemma DecryptSecret_locked ct h : DecryptSecret [] ct h = None.
Proof. done. Qed.

(** ** The relation *)

Definition key_ok (a : bytes) (k : bytes * bool) : Prop :=
  bytes_ok k.1 /\ len k.1 = 32 /\ secret_ok (be_value k.1) /\ a = key_id k.1 k.2.

(** A key as it is kept. *)
Definition sealed (m : bytes) (k : bytes * bool) : bytes * bytes :=
  let pub := pub_of (be_value k.1) k.2 in (pub, default [] (EncryptSecret m k.1 (GetHash pub))).

Record related (s : CCryptoKeyStore) (v : vault) : Prop := {
  rel_scripts : mapScripts (basic s) = v_scripts v;
  rel_keys : map_Forall key_ok (v_keys v);
  rel_crypto : fUseCrypto s = negb (is_plain (v_phase v));
  rel_plain : mapKeys (basic s) = if is_plain (v_phase v) then v_keys v else ∅;
  rel_sealed : mapCryptedKeys s = if is_plain (v_phase v) then ∅ else sealed (v_master v) <$> v_keys v;
  rel_master : vMasterKey s = if is_open (v_phase v) then v_master v else [];
  rel_size : v_phase v = Open \/ (v_phase v = Locked /\ v_keys v <> ∅) -> len (v_master v) = 32
}.

Lemma related_empty : related no_keys empty_vault.
Proof. split; try done. intros [|[? _]]; done. Qed.

Lemma seal_key m a k :
  len m = 32 -> key_ok a k -> decrypt_key m (sealed m k) = Some (plain_key (be_value k.1) k.2).
Proof.
  intros Hm (Hb & Hl & Hd & _). unfold decrypt_key, sealed.
  destruct (EncryptSecret_ok m k.1 (GetHash (pub_of (be_value k.1) k.2)) Hm) as (ct & He & Hc).
  rewrite He. cbn [default]. unfold id. rewrite Hc, Hl. by apply SetSecret_SetPubKey.
Qed.

Lemma related_shows s v : related s v -> shows s v.
Proof.
  intros [Hs Hk Hc Hp He Hm Hz]. unfold IsCrypted in *.
  split; cbn [HaveKey GetKey GetPubKeyOf GetCScript crypto_store basic_store]; unfold IsLocked, GetKeys, IsCrypted; rewrite ?Hc.
  - done.
  - rewrite Hm. destruct (v_phase v) eqn:E; try done. specialize (Hz (or_introl eq_refl)). cbn.
    by destruct (v_master v).
  - intros a. rewrite Hp, He. destruct (v_phase v); cbn; rewrite ?lookup_fmap; try done.
    all: apply bool_decide_ext; destruct (v_keys v !! a); cbn; split; intros [? ?]; try done; by eexists.
  - intros a. rewrite Hp, He, Hm. destruct (v_phase v) eqn:E; cbn; rewrite ?lookup_fmap.
    all: destruct (v_keys v !! a) as [[sec c]|] eqn:Ea; cbn; try done.
    + destruct (Hk _ _ Ea) as (_ & Hl & _). by apply SetSecret_plain.
    + apply (seal_key (v_master v) a (sec, c)); [by apply Hz; left|by apply Hk].
  - intros a. rewrite Hp, He. destruct (v_phase v); cbn; rewrite ?lookup_fmap.
    all: destruct (v_keys v !! a) as [[sec c]|] eqn:Ea; cbn; try done.
    destruct (Hk _ _ Ea) as (_ & Hl & _). cbn in Hl. by rewrite SetSecret_plain.
  - rewrite Hp, He. destruct (v_phase v); cbn; by rewrite ?dom_fmap_L.
  - intros h. by rewrite Hs.
Qed.
(** ** Steps *)

Ltac fields :=
  cbn [basic mapCryptedKeys vMasterKey fUseCrypto mapKeys mapScripts with_basic with_master with_crypto
       v_keys v_scripts v_phase v_master with_phase is_plain is_locked is_open fst snd].

Lemma entries_perm {A} (m : gmap bytes A) : entries m ≡ₚ map_to_list m.
Proof. apply merge_sort_Permutation. Qed.

Lemma entries_empty {A} (m : gmap bytes A) : entries m = [] <-> m = ∅.
Proof.
  split; [|by intros ->]. intros E. apply map_to_list_empty_iff.
  apply Permutation_nil_r. by rewrite <-entries_perm, E.
Qed.

Lemma entries_elem {A} (m : gmap bytes A) a x : (a, x) ∈ entries m <-> m !! a = Some x.
Proof. by rewrite entries_perm, elem_of_map_to_list. Qed.

Lemma entries_map {A} (m : gmap bytes A) : list_to_map (entries m) = m.
Proof.
  rewrite <-(list_to_map_to_list m) at 2. apply list_to_map_proper; [|apply entries_perm].
  rewrite (fmap_Permutation fst _ _ (entries_perm m)). apply NoDup_fst_map_to_list.
Qed.

Lemma related_lock s v : related s v -> related (Lock s).1 (vault_step EvLock v).1 /\ (Lock s).2 = (vault_step EvLock v).2.
Proof.
  intros [Hs Hk Hc Hp He Hm Hz]. unfold Lock, SetCrypted. rewrite Hc, Hp. cbn [vault_step].
  destruct (v_phase v) eqn:E; cbn [negb is_plain is_locked is_open] in *.
  - destruct (bool_decide_reflect (v_keys v = ∅)) as [Hkeys|]; cbn [negb fst snd]; [|split; [|done]; fields; by split; rewrite ?E].
    split; [|done]. split; fields; rewrite ?Hp, ?Hkeys; try done.
    intros [|[_ ?]]; done.
  - split; [|done]. by split.
  - split; [|done]. split; fields; try done. intros [|[_ ?]]; [done|]. apply Hz. by left.
Qed.

Lemma related_add_key secret c s v :
  event_ok (EvAddKey secret c) -> related s v ->
  related (store_step (EvAddKey secret c) s).1 (vault_step (EvAddKey secret c) v).1 /\
  (store_step (EvAddKey secret c) s).2 = (vault_step (EvAddKey secret c) v).2.
Proof.
  intros (Hb & Hl & Hd) Hrel. pose proof (shows_locked _ _ (related_shows _ _ Hrel)) as Hlock.
  destruct Hrel as [Hs Hk Hc Hp He Hm Hz].
  assert (key_ok (key_id secret c) (secret, c)) as Hkey by done.
  cbn [store_step]. rewrite SetSecret_plain by done. unfold AddKey, AddKeyBasic, IsCrypted. rewrite Hlock, Hc.
  rewrite GetSecret_plain, GetPubKey_plain by done. cbn [vault_step].
  destruct (v_phase v) eqn:E; cbn [negb is_plain is_locked is_open] in *.
  - split; [|done]. split; fields; rewrite ?E; fields; try done; [|by rewrite Hp|intros [|[? _]]; done].
    by apply map_Forall_insert_2.
  - split; [|done]. fields. by split; rewrite ?E.
  - specialize (Hz (or_introl eq_refl)). rewrite Hm.
    destruct (EncryptSecret_ok (v_master v) secret (GetHash (pub_of (be_value secret) c)) Hz) as (ct & Hct & _).
    rewrite Hct. unfold AddCryptedKey, SetCrypted. rewrite Hc. cbn [negb fst snd default]. split; [|done].
    split; fields; rewrite ?E; fields; try done; [by apply map_Forall_insert_2|].
    rewrite fmap_insert, He. unfold sealed at 2. cbn [fst snd]. by rewrite Hct.
Qed.

Lemma encrypt_loop_ok m l s :
  len m = 32 -> fUseCrypto s = true -> NoDup l.*1 -> Forall (fun e => key_ok e.1 e.2) l ->
  encrypt_loop m l s =
    ({| basic := {| mapKeys := ∅; mapScripts := mapScripts (basic s) |};
        mapCryptedKeys := list_to_map (prod_map id (sealed m) <$> l) ∪ mapCryptedKeys s;
        vMasterKey := vMasterKey s; fUseCrypto := true |}, Some true).
Proof.
  intros Hm Hc Hnd Hl. revert s Hc. induction Hl as [|[a [secret c]] l (Hb & Hlen & Hd & Ha) Hl IH]; intros s Hc.
  - cbn [encrypt_loop]. change (list_to_map (prod_map id (sealed m) <$> [])) with (∅ : gmap bytes (bytes * bytes)).
    rewrite (left_id_L ∅ (∪)). destruct s. fields. cbn in Hc. by subst.
  - cbn [fst snd] in *. cbn [fmap list_fmap] in Hnd. apply NoDup_cons in Hnd as [Hn Hnd]. cbn [encrypt_loop].
    rewrite SetSecret_plain, GetPubKey_plain, GetSecret_plain by done.
    destruct (EncryptSecret_ok m secret (GetHash (pub_of (be_value secret) c)) Hm) as (ct & Hct & _).
    rewrite Hct. unfold AddCryptedKey, SetCrypted. rewrite Hc. cbn [negb]. rewrite IH by done.
    cbn [basic mapCryptedKeys vMasterKey]. do 2 f_equal. cbn [fmap list_fmap list_to_map foldr prod_map uncurry curry fst snd id].
    unfold sealed at 2. cbn [fst snd]. rewrite Hct. cbn [default]. unfold id. subst a. fold (key_id secret c).
    change (GetID (pub_of (be_value secret) c)) with (key_id secret c).
    rewrite <-insert_union_l, insert_union_r; [done|].
    apply not_elem_of_list_to_map_1. intros Hin. apply Hn. cbn in Hin. rewrite <-list_fmap_compose in Hin. exact Hin.
Qed.

Lemma seal_entries (m : bytes) (K : gmap bytes (bytes * bool)) :
  list_to_map (prod_map id (sealed m) <$> entries K) = sealed m <$> K.
Proof. by rewrite list_to_map_fmap, entries_map. Qed.

Lemma related_encrypt m s v :
  len m = 32 -> related s v ->
  related (store_step (EvEncryptKeys m) s).1 (vault_step (EvEncryptKeys m) v).1 /\
  (store_step (EvEncryptKeys m) s).2 = (vault_step (EvEncryptKeys m) v).2.
Proof.
  intros Hmlen [Hs Hk Hc Hp He Hm Hz]. cbn [store_step vault_step]. unfold EncryptKeys, IsCrypted. rewrite Hc.
  destruct (v_phase v) eqn:E; cbn [negb is_plain is_locked is_open] in *;
    [|rewrite orb_true_r; split; [|done]; fields; split; rewrite ?E; done..].
  rewrite bool_decide_eq_true_2 by done. cbn [negb orb]. rewrite Hp.
  assert (NoDup (entries (v_keys v)).*1) as Hnd
    by (rewrite (fmap_Permutation fst _ _ (entries_perm _)); apply NoDup_fst_map_to_list).
  assert (Forall (fun e => key_ok e.1 e.2) (entries (v_keys v))) as Hall.
  { apply Forall_forall. intros [a k] Hin%entries_elem. by apply Hk. }
  rewrite encrypt_loop_ok by done. split; [|done]. cbn [default fst]. split; fields; try done.
  rewrite seal_entries, He. by rewrite (right_id_L ∅ (∪)).
Qed.

(** The first key of a locked store shows whether a master key is the right one. *)
Lemma unlock_wrong m a secret c v :
  len (v_master v) = 32 -> v_keys v !! a = Some (secret, c) -> key_ok a (secret, c) -> m <> v_master v ->
  (exists key, decrypt_key m (sealed (v_master v) (secret, c)) = Some key /\
     GetPubKey key = Some (sealed (v_master v) (secret, c)).1) ->
  opens_wrongly m v.
Proof.
  intros Hlen Ha (Hb & Hl & Hd & _) Hne (key & Hkey & Hpub). split; [done|]. unfold decrypt_key, sealed in *. cbn [fst snd] in *.
  set (pub := pub_of (be_value secret) c) in *.
  destruct (EncryptSecret_ok (v_master v) secret (GetHash pub) Hlen) as (ct & Hct & _).
  rewrite Hct in Hkey. cbn [default] in Hkey. unfold id in Hkey.
  destruct (DecryptSecret m ct (GetHash pub)) as [secret'|] eqn:Hdec; [|done].
  destruct (Z.eqb_spec (len secret') 32) as [Hl'|]; [|done]. cbn [negb] in Hkey.
  unfold pub in Hkey at 1. rewrite SetSecret_SetPubKey in Hkey by done. injection Hkey as <-.
  rewrite GetPubKey_plain in Hpub. injection Hpub as Hpub. by exists a, secret, c, secret', ct.
Qed.

Lemma related_unlock m s v :
  len m = 32 -> related s v ->
  related (Unlock m s).1 (vault_step (EvUnlock m) v).1 /\ (Unlock m s).2 = (vault_step (EvUnlock m) v).2 \/
  opens_wrongly m v.
Proof.
  intros Hmlen Hrel. pose proof Hrel as [Hs Hk Hc Hp He Hm Hz]. unfold Unlock, SetCrypted. cbn [vault_step]. rewrite Hc.
  destruct (bool_decide_reflect (v_keys v = ∅)) as [Hempty|Hkeys].
  { assert (entries (mapCryptedKeys s) = []) as Hent
      by (apply entries_empty; rewrite He, Hempty; destruct (is_plain _); [done|apply fmap_empty]).
    assert (mapKeys (basic s) = ∅) as Hnone by (rewrite Hp; by destruct (is_plain _)).
    left. rewrite Hnone, bool_decide_eq_true_2 by done. cbn [negb].
    destruct (is_plain (v_phase v)); cbn [negb with_crypto mapCryptedKeys]; rewrite Hent; (split; [|done]);
      split; fields; rewrite ?Hempty; try done; by rewrite He, Hempty, ?fmap_empty. }
  destruct (v_phase v) eqn:E; cbn [negb is_plain is_locked is_open] in *.
  { left. rewrite Hp, bool_decide_eq_false_2 by done. cbn [negb]. split; [|done]. done. }
  all: assert (len (v_master v) = 32) as Hlen by (apply Hz; first [by left | by right]).
  all: destruct (entries (mapCryptedKeys s)) as [|[a e] l] eqn:Hent;
    [apply entries_empty in Hent; rewrite He in Hent; by apply fmap_empty_inv in Hent|].
  all: assert (mapCryptedKeys s !! a = Some e) as Ha by (apply entries_elem; rewrite Hent; left).
  all: rewrite He in Ha; apply lookup_fmap_Some in Ha as ([secret c] & <- & Ha); pose proof (Hk _ _ Ha) as Hkey.
  all: destruct (bool_decide_reflect (m = v_master v)) as [->|Hne].
  1, 3: left; rewrite (seal_key _ a) by done; rewrite GetPubKey_plain, bool_decide_eq_true_2 by done;
    (split; [|done]); by split; fields.
  all: destruct (decrypt_key m _) as [key|] eqn:Hdec; [|by left].
  all: destruct (bool_decide_reflect (GetPubKey key = Some (sealed (v_master v) (secret, c)).1)); [|by left].
  all: right; apply (unlock_wrong m a secret c); try done; by exists key.
Qed.

Lemma related_step e s v :
  event_ok e -> related s v ->
  related (store_step e s).1 (vault_step e v).1 /\ (store_step e s).2 = (vault_step e v).2 \/
  exists m, e = EvUnlock m /\ opens_wrongly m v.
Proof.
  intros He Hrel. destruct e as [secret c|redeem|m| |m].
  - left. by apply related_add_key.
  - left. destruct Hrel as [Hs ? ? ? ? ? ?]. split; [|done]. cbn [store_step vault_step fst].
    split; fields; try done. unfold AddCScript. fields. by rewrite Hs.
  - left. by apply related_encrypt.
  - left. by apply related_lock.
  - destruct (related_unlock m s v He Hrel) as [?|?]; [by left|right; by exists m].
Qed.

Lemma related_run evs s v :
  Forall event_ok evs -> related s v ->
  related (run store_step evs s).1 (run vault_step evs v).1 /\ (run store_step evs s).2 = (run vault_step evs v).2 \/
  exists evs1 m evs2, evs = evs1 ++ EvUnlock m :: evs2 /\ opens_wrongly m (run vault_step evs1 v).1.
Proof.
  intros Hevs. revert s v. induction Hevs as [|e evs He Hevs IH]; intros s v Hrel; [by left|].
  destruct (related_step e s v He Hrel) as [[Hstep Hans]|(m & -> & Hm)].
  2: { right. by exists [], m, evs. }
  destruct (IH _ _ Hstep) as [[Hrun Hbs]|(evs1 & m & evs2 & -> & Hm)].
  - left. cbn [run]. destruct (store_step e s) as [s1 b], (vault_step e v) as [v1 b']. cbn [fst snd] in *.
    destruct (run store_step evs s1), (run vault_step evs v1). cbn [fst snd] in *. by subst.
  - right. exists (e :: evs1), m, evs2. split; [done|]. cbn [run]. destruct (vault_step e v) as [v1 b']. cbn [fst] in *.
    by destruct (run vault_step evs1 v1).
Qed.

End laws.

(** ** Instances *)

#[local] Existing Instance toy_point.
#[local] Existing Instance toy_keys.
#[local] Existing Instance toy_keys_laws.
#[local] Existing Instance toy_hashes.
#[local] Instance toy_sha : Sha256 := toy_sha256.

(** The ciphertext holds a mix of the key and the vector, which decryption compares. *)
Definition toy_evp : OpenSSLEVP := {|
  EVP_encrypt k iv p := Some (toy_sha256 (k ++ iv) ++ p);
  EVP_decrypt k iv c := if bool_decide (take 32 c = toy_sha256 (k ++ iv)) then Some (drop 32 c) else None;
  EVP_BytesToKey salt data n := (32, toy_sha256 (salt ++ data), take 16 (toy_sha256 data));
  scrypt_salted_hash data salt := le_value (toy_sha256 (data ++ salt))
|}.
#[local] Existing Instance toy_evp.

Lemma toy_evp_laws : EVPLaws.
Proof.
  assert (forall l, length (toy_sha256 l) = 32%nat) as Hl by (intros; apply le_bytes_length).
  split; cbn [EVP_encrypt EVP_decrypt EVP_BytesToKey toy_evp].
  - intros k iv p _ _. eexists. split; [done|]. rewrite take_app_length', drop_app_length' by done.
    by rewrite bool_decide_eq_true_2.
  - intros salt data n _. unfold len. rewrite length_take, !Hl. done.
Qed.
#[local] Existing Instance toy_evp_laws.

(** A key is added, the store encrypted, opened with the wrong and the right master
    key, given another key and locked. *)
Definition toy_secret (n : Z) : bytes := be_bytes 32 n.
Definition toy_events : list event :=
  [EvAddKey (toy_secret 7) true; EvEncryptKeys (replicate 32 1); EvAddKey (toy_secret 8) false; EvUnlock (replicate 32 2);
   EvUnlock (replicate 32 1); EvAddKey (toy_secret 9) true; EvLock; EvUnlock (replicate 32 1)].

Lemma toy_secret_ok n c : 0 < n < 2 ^ 64 -> event_ok (EvAddKey (toy_secret n) c).
Proof.
  intros Hn. split_and!; [apply Forall_rev, le_bytes_ok|done|]. unfold toy_secret. rewrite num_be_value_bytes.
  - split; [lia|]. etransitivity; [apply Hn|]. by vm_compute.
  - split; [lia|]. etransitivity; [apply Hn|]. by vm_compute.
Qed.

Lemma toy_events_ok : Forall event_ok toy_events.
Proof. repeat (constructor; [first [done | by apply toy_secret_ok]|]). constructor. Qed.

(** The wrong key that was tried opens nothing. *)
Lemma toy_no_wrong_key : ~ wrong_key_opens toy_events.
Proof.
  intros (evs1 & m' & evs2 & E & Hne & a & secret & c & secret' & ct & Ha & Hct & Hdec & _).
  do 3 (destruct evs1 as [|? evs1]; [discriminate E|]; injection E as <- E).
  destruct evs1 as [|? evs1].
  { injection E as <- E.
    change (({[ key_id (toy_secret 7) true := (toy_secret 7, true) ]} : gmap bytes (bytes * bool)) !! a = Some (secret, c)) in Ha.
    apply lookup_singleton_Some in Ha as [_ [= <- <-]].
    assert (EncryptSecret (replicate 32 1) (toy_secret 7) (GetHash (pub_of (be_value (toy_secret 7)) true)) = Some ct) as Hct' by exact Hct.
    apply (Some_inj (A := bytes)) in Hct'. subst ct. vm_compute in Hdec. discriminate Hdec. }
  injection E as <- E. destruct evs1 as [|? evs1]; [injection E as <- E; by apply Hne|].
  injection E as <- E. do 2 (destruct evs1 as [|? evs1]; [discriminate E|]; injection E as <- E).
  destruct evs1 as [|? evs1]; [injection E as <- E; by apply Hne|].
  injection E as <- E. destruct evs1; discriminate E.
Qed.


End KeyStore.
