(* ===== verification/Passphrase.v ===== *)
(** * The passphrase of a wallet ([src/wallet.cpp])

    [EncryptWallet], [Unlock] and [ChangeWalletPassphrase] of [CWallet]: the master
    key of the store of keys is kept encrypted under a key derived from the passphrase.
    The master keys are listed by their numbers.  What is drawn at random and the
    numbers of rounds, which are measured, are arguments; the file of the wallet and
    the pool's own record of the new keys are outside the state. *)

From S2P Require Import Prelude Crypto BigNum Script Interpreter Standard Sighash Keys KeyStore.
Import BigNum Interpreter Standard Sighash Keys KeyStore.

Module Passphrase.

Record CWallet := { store : CCryptoKeyStore; mapMasterKeys : list (Z * CMasterKey); nMasterKeyMaxID : Z }.

Definition with_store (s : CCryptoKeyStore) (w : CWallet) : CWallet :=
  {| store := s; mapMasterKeys := mapMasterKeys w; nMasterKeyMaxID := nMasterKeyMaxID w |}.
Definition with_iterations (n : Z) (m : CMasterKey) : CMasterKey :=
  {| vchCryptedKey := vchCryptedKey m; vchSalt := vchSalt m; nDerivationMethod := nDerivationMethod m;
     nDeriveIterations := n; vchOtherDerivationParameters := vchOtherDerivationParameters m |}.
Definition with_crypted (c : bytes) (m : CMasterKey) : CMasterKey :=
  {| vchCryptedKey := c; vchSalt := vchSalt m; nDerivationMethod := nDerivationMethod m;
     nDeriveIterations := nDeriveIterations m; vchOtherDerivationParameters := vchOtherDerivationParameters m |}.
Definition with_salt (s : bytes) (m : CMasterKey) : CMasterKey :=
  {| vchCryptedKey := vchCryptedKey m; vchSalt := s; nDerivationMethod := nDerivationMethod m;
     nDeriveIterations := nDeriveIterations m; vchOtherDerivationParameters := vchOtherDerivationParameters m |}.

(** The number of rounds is at least 25000. *)
Definition clamp_iterations (m : CMasterKey) : CMasterKey :=
  if nDeriveIterations m <? 25000 then with_iterations 25000 m else m.

Section wallet.
Context `{Sha256} `{ScriptHashes} `{OpenSSLKeys} `{OpenSSLEVP}.

Definition derive (pass : bytes) (m : CMasterKey) (c : CCrypter) : CCrypter * bool :=
  SetKeyFromPassphrase pass (vchSalt m) (nDeriveIterations m) (nDerivationMethod m) c.

Fixpoint unlock_loop (pass : bytes) (l : list (Z * CMasterKey)) (crypter : CCrypter) (s : CCryptoKeyStore)
    : CCryptoKeyStore * bool :=
  match l with
  | [] => (s, false)
  | (_, m) :: l =>
      let '(crypter, ok) := derive pass m crypter in
      if negb ok then (s, false)
      else
        match Decrypt crypter (vchCryptedKey m) with
        | None => (s, false)
        | Some vMasterKey =>
            let '(s, ok) := KeyStore.Unlock vMasterKey s in
            if ok then (s, true) else unlock_loop pass l crypter s
        end
  end.

Definition Unlock (pass : bytes) (w : CWallet) : CWallet * bool :=
  if negb (IsLocked (store w)) then (w, false)
  else let '(s, ok) := unlock_loop pass (mapMasterKeys w) new_crypter (store w) in (with_store s w, ok).

(** The entry of a master key under a new passphrase; [n1] and [n2] are the rounds
    that are measured with the first and the second call. *)
Definition reencrypt (pass : bytes) (n1 n2 : Z) (vMasterKey : bytes) (m : CMasterKey) (crypter : CCrypter) : CMasterKey * bool :=
  let '(crypter, _) := derive pass m crypter in
  let m := with_iterations n1 m in
  let '(crypter, _) := derive pass m crypter in
  let m := clamp_iterations (with_iterations n2 m) in
  let '(crypter, ok) := derive pass m crypter in
  if negb ok then (m, false)
  else match Encrypt crypter vMasterKey with None => (m, false) | Some c => (with_crypted c m, true) end.

(** The loop: the store, the entries and the result. *)
Fixpoint change_loop (old new : bytes) (n1 n2 : Z) (fWasLocked : bool) (l : list (Z * CMasterKey)) (crypter : CCrypter)
    (s : CCryptoKeyStore) : CCryptoKeyStore * list (Z * CMasterKey) * bool :=
  match l with
  | [] => (s, [], false)
  | (id, m) :: l' =>
      let '(crypter, ok) := derive old m crypter in
      if negb ok then (s, l, false)
      else
        match Decrypt crypter (vchCryptedKey m) with
        | None => (s, l, false)
        | Some vMasterKey =>
            let '(s, ok) := KeyStore.Unlock vMasterKey s in
            if ok then
              let '(m, ok) := reencrypt new n1 n2 vMasterKey m crypter in
              if negb ok then (s, (id, m) :: l', false)
              else (if fWasLocked then (Lock s).1 else s, (id, m) :: l', true)
            else let '(s, l', ok) := change_loop old new n1 n2 fWasLocked l' crypter s in (s, (id, m) :: l', ok)
        end
  end.

Definition ChangeWalletPassphrase (old new : bytes) (n1 n2 : Z) (w : CWallet) : CWallet * bool :=
  let fWasLocked := IsLocked (store w) in
  let '(s, _) := Lock (store w) in
  let '(s, l, ok) := change_loop old new n1 n2 fWasLocked (mapMasterKeys w) new_crypter s in
  ({| store := s; mapMasterKeys := l; nMasterKeyMaxID := nMasterKeyMaxID w |}, ok).

(** [NewKeyPool]: a key is drawn for each place; [None] is the exception of
    [GenerateNewKey]. *)
Fixpoint generate_keys (fCompressed : bool) (draws : list Z) (s : CCryptoKeyStore) : option CCryptoKeyStore :=
  match draws with
  | [] => Some s
  | d :: draws =>
      match AddKey (MakeNewKey d fCompressed Reset) s with
      | (s, Some true) => generate_keys fCompressed draws s
      | _ => None
      end
  end.
Definition NewKeyPool (fCompressed : bool) (draws : list Z) (s : CCryptoKeyStore) : option (CCryptoKeyStore * bool) :=
  if IsLocked s then Some (s, false)
  else match generate_keys fCompressed draws s with None => None | Some s => Some (s, true) end.

(** [None] where the process ends, or by an exception. *)
Definition EncryptWallet (pass vMasterKey salt : bytes) (n1 n2 nDerivationMethodIndex : Z) (fCompressed : bool) (draws : list Z)
    (w : CWallet) : option (CWallet * bool) :=
  if IsCrypted (store w) then Some (w, false)
  else
    let m := with_salt salt (new_master_key nDerivationMethodIndex) in
    let '(crypter, _) := derive pass (with_iterations 25000 m) new_crypter in
    let m := with_iterations n1 m in
    let '(crypter, _) := derive pass m crypter in
    let m := clamp_iterations (with_iterations n2 m) in
    let '(crypter, ok) := derive pass m crypter in
    if negb ok then Some (w, false)
    else
      match Encrypt crypter vMasterKey with
      | None => Some (w, false)
      | Some c =>
          let id := nMasterKeyMaxID w + 1 in
          let l := mapMasterKeys w ++ [(id, with_crypted c m)] in
          match EncryptKeys vMasterKey (store w) with
          | (s, Some true) =>
              let w := {| store := (Lock s).1; mapMasterKeys := l; nMasterKeyMaxID := id |} in
              let w := (Unlock pass w).1 in
              match NewKeyPool fCompressed draws (store w) with
              | None => None
              | Some (s, _) => Some (with_store (Lock s).1 w, true)
              end
          | _ => None
          end
      end.
End wallet.

(** * Properties *)

Section laws.
Context `{Sha256} `{ScriptHashes} `{KeysLaws} `{EVPLaws}.

Definition entry_ok (m : CMasterKey) : Prop :=
  len (vchSalt m) = 8 /\ (nDerivationMethod m = 0 \/ nDerivationMethod m = 1) /\ 1 <= nDeriveIterations m.

(** Deriving a key works and does not depend on the crypter. *)
Lemma derive_ok pass m :
  entry_ok m -> exists c', (forall c, derive pass m c = (c', true)) /\ fKeySet c' = true /\ len (vchKey c') = 32 /\ len (vchIV c') = 16.
Proof.
  intros (Hs & Hm & Hn). unfold derive, SetKeyFromPassphrase.
  replace ((nDeriveIterations m <? 1) || negb (len (vchSalt m) =? WALLET_CRYPTO_SALT_SIZE)) with false
    by (rewrite Hs; unfold WALLET_CRYPTO_SALT_SIZE; lia).
  assert (forall data, exists c',
    (forall c, (let '(i, k, iv) := EVP_BytesToKey (vchSalt m) data (nDeriveIterations m) in
    if negb (i =? WALLET_CRYPTO_KEY_SIZE)
    then ({| vchKey := replicate (length k) 0; vchIV := replicate (length iv) 0; fKeySet := fKeySet c |}, false)
    else ({| vchKey := k; vchIV := iv; fKeySet := true |}, true)) = (c', true)) /\
    fKeySet c' = true /\ len (vchKey c') = 32 /\ len (vchIV c') = 16) as Hdata.
  { intros data. pose proof (derived_sizes (vchSalt m) data (nDeriveIterations m) Hn) as Hsz.
    destruct (EVP_BytesToKey _ _ _) as [[i k] iv]. destruct Hsz as (-> & Hk & Hiv). exists {| vchKey := k; vchIV := iv; fKeySet := true |}. done. }
  destruct Hm as [-> | ->]; cbn [Z.eqb].
  - destruct (Hdata pass) as (c' & Hc & Hf). by exists c'.
  - destruct (Hdata (uint256_bytes (scrypt_salted_multiround_hash pass (vchSalt m) (nDeriveIterations m)))) as (c' & Hc & Hf).
    by exists c'.
Qed.

(** An entry that gives the master key to a passphrase. *)
Definition wraps (pass master : bytes) (m : CMasterKey) : Prop :=
  entry_ok m /\ exists c', (forall c, derive pass m c = (c', true)) /\ Decrypt c' (vchCryptedKey m) = Some master.

Lemma with_crypted_wraps pass master m c :
  entry_ok m -> exists c' ct, derive pass m c = (c', true) /\ Encrypt c' master = Some ct /\ wraps pass master (with_crypted ct m).
Proof.
  intros Hm. destruct (derive_ok pass m Hm) as (c' & Hc & Hf & Hk & Hiv).
  destruct (encrypt_decrypt (vchKey c') (vchIV c') master Hk Hiv) as (ct & He & Hd).
  exists c', ct. unfold Encrypt, wraps, Decrypt. rewrite Hf. split_and!; [done|done|done|]. exists c'. split; [exact Hc|]. by rewrite Hf.
Qed.

Lemma clamp_ok n m :
  len (vchSalt m) = 8 -> nDerivationMethod m = 0 \/ nDerivationMethod m = 1 -> entry_ok (clamp_iterations (with_iterations n m)).
Proof.
  intros Hs Hm. unfold clamp_iterations. cbn [with_iterations nDeriveIterations].
  destruct (Z.ltb_spec n 25000); split_and!; cbn; done || lia.
Qed.

Lemma reencrypt_wraps pass n1 n2 master m c :
  entry_ok m -> exists m', reencrypt pass n1 n2 master m c = (m', true) /\ wraps pass master m'.
Proof.
  intros Hm. unfold reencrypt. destruct (derive pass m c) as [c1 ?]. destruct (derive _ _ c1) as [c2 ?].
  destruct (with_crypted_wraps pass master (clamp_iterations (with_iterations n2 (with_iterations n1 m))) c2) as (c' & ct & -> & He & Hw).
  { destruct Hm as (Hs & Hmeth & _). by apply clamp_ok. }
  cbn [negb]. rewrite He. by eexists.
Qed.

(** The wallet holds what the machine does, under a passphrase. *)
Definition kept (w : CWallet) (pass : bytes) (v : vault) : Prop :=
  related (store w) v /\ len (v_master v) = 32 /\ exists id m, mapMasterKeys w = [(id, m)] /\ wraps pass (v_master v) m.

Lemma unlock_master s v :
  related s v -> v_phase v <> Plain -> len (v_master v) = 32 ->
  related (KeyStore.Unlock (v_master v) s).1 (with_phase Open (v_master v) v) /\ (KeyStore.Unlock (v_master v) s).2 = true.
Proof.
  intros Hs Hp Hm. destruct (related_unlock (v_master v) s v Hm Hs) as [[Hr Ha]|[Hne _]]; [|done].
  cbn [vault_step] in *. rewrite (bool_decide_eq_true_2 (v_master v = v_master v)) in Hr, Ha by done.
  destruct (bool_decide (v_keys v = ∅)); [done|]. by destruct (v_phase v).
Qed.

Lemma lock_master s v :
  related s v -> v_phase v <> Plain -> related (Lock s).1 (with_phase Locked (v_master v) v) /\ (Lock s).2 = true.
Proof.
  intros Hs Hp. destruct (related_lock s v Hs) as [Hr Ha]. cbn [vault_step] in *. by destruct (v_phase v).
Qed.

Lemma unlock_kept w p v :
  kept w p v -> v_phase v = Locked ->
  kept (Unlock p w).1 p (with_phase Open (v_master v) v) /\ (Unlock p w).2 = true.
Proof.
  intros (Hs & Hm & id & m & Hl & Hw) Hp. pose proof Hw as (_ & c' & Hc & Hd). unfold Unlock.
  rewrite (shows_locked _ _ (related_shows _ _ Hs)), Hp. cbn [is_locked negb]. rewrite Hl. cbn [unlock_loop].
  rewrite Hc. cbn [negb]. rewrite Hd. destruct (unlock_master _ _ Hs ltac:(by rewrite Hp) Hm) as [Hr Ha].
  destruct (KeyStore.Unlock (v_master v) (store w)) as [s ok]. cbn [fst snd] in *. subst ok. split; [|done].
  split; [done|]. split; [done|]. by exists id, m.
Qed.

Lemma change_kept w p q n1 n2 v :
  kept w p v -> v_phase v <> Plain ->
  kept (ChangeWalletPassphrase p q n1 n2 w).1 q v /\ (ChangeWalletPassphrase p q n1 n2 w).2 = true.
Proof.
  intros (Hs & Hm & id & m & Hl & Hw) Hp. pose proof Hw as (Hok & c' & Hc & Hd). unfold ChangeWalletPassphrase.
  rewrite (shows_locked _ _ (related_shows _ _ Hs)), Hl.
  destruct (lock_master _ _ Hs Hp) as [Hlk _]. destruct (Lock (store w)) as [s ?]. cbn [fst change_loop] in *.
  rewrite Hc. cbn [negb]. rewrite Hd.
  destruct (unlock_master s _ Hlk ltac:(done) Hm) as [Hr Ha]. change (v_master (with_phase Locked (v_master v) v)) with (v_master v) in *.
  destruct (KeyStore.Unlock (v_master v) s) as [s1 ok]. cbn [fst snd] in *. subst ok.
  destruct (reencrypt_wraps q n1 n2 (v_master v) m c' Hok) as (m' & -> & Hw'). cbn [negb fst snd store mapMasterKeys].
  split; [|done]. split; [|split; [done|by exists id, m']]. cbn [store].
  destruct v as [K S ph mk]. cbn [v_phase v_master with_phase v_keys v_scripts] in *. destruct ph; cbn [is_locked] in *; [done| |done].
  exact (proj1 (lock_master _ _ Hr ltac:(done))).
Qed.
(** The machine with the keys that are drawn. *)
Definition draw_key (c : bool) (v : vault) (d : Z) : vault := (vault_step (EvAddKey (be_bytes 32 d) c) v).1.

Lemma draw_ok d : secret_ok d -> bytes_ok (be_bytes 32 d) /\ len (be_bytes 32 d) = 32 /\ be_value (be_bytes 32 d) = d.
Proof.
  intros Hd. split_and!; [apply Forall_rev, le_bytes_ok|unfold len; by rewrite be_bytes_length|].
  apply num_be_value_bytes. split; [unfold secret_ok in Hd; lia|]. etransitivity; [apply Hd|]. by vm_compute.
Qed.

Lemma draw_key_open c v d :
  v_phase v = Open -> v_phase (draw_key c v d) = Open /\ v_master (draw_key c v d) = v_master v.
Proof. intros Hp. unfold draw_key. cbn [vault_step]. by rewrite Hp. Qed.

Lemma draw_keys_open c draws v :
  v_phase v = Open -> v_phase (fold_left (draw_key c) draws v) = Open /\ v_master (fold_left (draw_key c) draws v) = v_master v.
Proof.
  revert v. induction draws as [|d draws IH]; intros v Hp; [done|]. cbn [fold_left].
  destruct (draw_key_open c v d Hp) as [Hp' <-]. by apply IH.
Qed.

Lemma generate_keys_related c draws s v :
  Forall secret_ok draws -> related s v -> v_phase v = Open ->
  exists s', generate_keys c draws s = Some s' /\ related s' (fold_left (draw_key c) draws v).
Proof.
  intros Hd. revert s v. induction Hd as [|d draws Hd Hds IH]; intros s v Hs Hp; [by exists s|].
  destruct (draw_ok d Hd) as (Hb & Hl & Hv).
  destruct (related_add_key (be_bytes 32 d) c s v) as [Hr Ha]; [split_and!; [done|done|by rewrite Hv]|done|].
  assert (MakeNewKey d c Reset = plain_key d c) as Hnew by (by destruct c).
  cbn [store_step] in *. rewrite SetSecret_plain, Hv in Hr, Ha by done.
  cbn [generate_keys fold_left]. rewrite Hnew. destruct (AddKey (plain_key d c) s) as [s1 ok].
  assert (ok = Some true) as ->.
  { destruct ok as [ok|]; cbn [snd vault_step] in Ha; rewrite Hp in Ha; cbn in Ha; by subst. }
  cbn [fst] in Hr. apply (IH s1 (draw_key c v d) Hr). by apply draw_key_open.
Qed.

Lemma encrypt_kept w p master salt n1 n2 idx c draws v :
  related (store w) v -> v_phase v = Plain -> mapMasterKeys w = [] -> len master = 32 -> len salt = 8 ->
  Forall secret_ok draws ->
  let v' := fold_left (draw_key c) draws (with_phase Open master v) in
  exists w', EncryptWallet p master salt n1 n2 idx c draws w = Some (w', true) /\ kept w' p (with_phase Locked master v').
Proof.
  intros Hs Hp Hl Hm Hsalt Hd v'. unfold EncryptWallet. rewrite (shows_crypted _ _ (related_shows _ _ Hs)), Hp. cbn [negb is_plain].
  set (m0 := with_salt salt (new_master_key idx)).
  destruct (derive p (with_iterations 25000 m0) new_crypter) as [c0 ?]. destruct (derive _ _ c0) as [c1 ?].
  destruct (with_crypted_wraps p master (clamp_iterations (with_iterations n2 (with_iterations n1 m0))) c1) as (c' & ct & -> & He & Hw).
  { apply clamp_ok; [done|]. unfold m0, new_master_key. destruct (idx =? 1); [by right|by left]. }
  cbn [negb]. rewrite He, Hl. cbn [app].
  destruct (related_encrypt master _ _ Hm Hs) as [Hr Ha]. cbn [store_step vault_step] in Hr, Ha. rewrite Hp in Hr, Ha.
  destruct (EncryptKeys master (store w)) as [s ok]. cbn [fst snd] in Hr, Ha.
  assert (ok = Some true) as -> by (destruct ok as [[]|]; cbn in Ha; done).
  destruct (lock_master s _ Hr ltac:(done)) as [Hlk _]. cbn [v_master with_phase] in Hlk.
  set (id := nMasterKeyMaxID w + 1). set (entry := with_crypted ct _) in *.
  assert (kept {| store := (Lock s).1; mapMasterKeys := [(id, entry)]; nMasterKeyMaxID := id |} p (with_phase Locked master v)) as Hk
    by (split; [exact Hlk|split; [exact Hm|by exists id, entry]]).
  destruct (unlock_kept _ _ _ Hk eq_refl) as [Hopen _]. destruct (Unlock p _) as [w1 ok]. cbn [fst] in Hopen.
  destruct Hopen as (Hopen & _ & Hentries). unfold NewKeyPool. cbn [fst].
  rewrite (shows_locked _ _ (related_shows _ _ Hopen)). cbn [v_phase with_phase is_locked].
  destruct (generate_keys_related c draws _ _ Hd Hopen eq_refl) as (s2 & -> & Hs2). destruct (draw_keys_open c draws (with_phase Open master v) eq_refl) as [Hp2 Hm2].
  change (with_phase Open (v_master (with_phase Locked master v)) (with_phase Locked master v)) with (with_phase Open master v) in *.
  fold v' in Hs2, Hp2, Hm2. cbn [v_master with_phase] in Hm2.
  eexists. split; [done|]. destruct (lock_master s2 v' Hs2 ltac:(by rewrite Hp2)) as [Hfin _]. rewrite Hm2 in Hfin.
  split; [exact Hfin|]. split; [exact Hm|]. exact Hentries.
Qed.

(** One change of the passphrase after the other, each with the one before. *)
Fixpoint change_all (pass : bytes) (l : list (bytes * Z * Z)) (w : CWallet) : option (CWallet * bytes) :=
  match l with
  | [] => Some (w, pass)
  | (new, n1, n2) :: l =>
      match ChangeWalletPassphrase pass new n1 n2 w with (w, true) => change_all new l w | _ => None end
  end.

Lemma change_all_kept l p w v :
  kept w p v -> v_phase v <> Plain -> exists w' p', change_all p l w = Some (w', p') /\ kept w' p' v.
Proof.
  revert p w. induction l as [|[[q n1] n2] l IH]; intros p w Hk Hp; [by exists w, p|].
  destruct (change_kept w p q n1 n2 v Hk Hp) as [Hk' Ha]. cbn [change_all].
  destruct (ChangeWalletPassphrase p q n1 n2 w) as [w1 ok]. cbn [fst snd] in *. subst ok. by apply IH.
Qed.

Definition plain_event (e : event) : Prop :=
  event_ok e /\ match e with EvAddKey _ _ | EvAddCScript _ => True | _ => False end.

Lemma plain_run evs v : Forall plain_event evs -> v_phase v = Plain -> v_phase (run vault_step evs v).1 = Plain.
Proof.
  intros Hevs. revert v. induction Hevs as [|e evs [_ He] Hevs IH]; intros v Hp; [done|]. cbn [run].
  destruct (vault_step e v) as [v1 b] eqn:E. specialize (IH v1). destruct (run vault_step evs v1). apply IH.
  destruct e; try done; cbn [vault_step] in E; rewrite ?Hp in E; by injection E as <- _.
Qed.

(** C18. A passphrase opens the wallet it encrypted, and after any changes the last one
    does. For a wallet of any valid keys and scripts, a drawn master key of 32 bytes, a
    drawn salt of 8 and valid keys drawn for the pool: encrypting succeeds and leaves
    the wallet locked; so does each change with the passphrase before it; and unlocking
    with the last passphrase gives out every key the wallet had and those drawn. It
    holds for all passphrases and times measured. *)
Theorem passphrase_opens evs max p master salt n1 n2 idx c draws changes :
  Forall plain_event evs -> len master = 32 -> len salt = 8 -> Forall secret_ok draws ->
  let w := {| store := (run store_step evs no_keys).1; mapMasterKeys := []; nMasterKeyMaxID := max |} in
  let v := fold_left (draw_key c) draws (with_phase Open master (run vault_step evs empty_vault).1) in
  exists w1 w2 p' w3, EncryptWallet p master salt n1 n2 idx c draws w = Some (w1, true) /\
    change_all p changes w1 = Some (w2, p') /\ shows (store w2) (with_phase Locked master v) /\
    Unlock p' w2 = (w3, true) /\ shows (store w3) v.
Proof.
  intros Hevs Hm Hsalt Hd w v.
  assert (related (store w) (run vault_step evs empty_vault).1) as Hs.
  { destruct (related_run evs no_keys empty_vault) as [[Hr _]|(e1 & m & e2 & -> & _)]; [|exact related_empty|exact Hr|].
    - eapply Forall_impl; [exact Hevs|]. by intros e [He _].
    - apply Forall_app in Hevs as [_ Hevs]. by apply Forall_cons in Hevs as [[_ ?] _]. }
  destruct (encrypt_kept w p master salt n1 n2 idx c draws _ Hs (plain_run evs empty_vault Hevs eq_refl) eq_refl Hm Hsalt Hd) as (w1 & He & Hk).
  fold v in Hk. destruct (change_all_kept changes p w1 _ Hk ltac:(done)) as (w2 & p' & Hc & Hk2).
  destruct (unlock_kept _ _ _ Hk2 eq_refl) as [Hk3 Hu]. destruct (Unlock p' w2) as [w3 ok] eqn:Eu. cbn [fst snd] in *. subst ok.
  exists w1, w2, p', w3. split_and!; [done|done|by apply related_shows, Hk2|done|].
  apply related_shows. destruct Hk3 as [Hk3 _]. cbn [v_master with_phase] in Hk3.
  destruct (draw_keys_open c draws (with_phase Open master (run vault_step evs empty_vault).1) eq_refl) as [Ho Hmv]. fold v in Ho, Hmv.
  destruct v as [K S ph mk]. cbn in *. by subst.
Qed.
End laws.

(** ** Instances *)

#[local] Existing Instance toy_point.
#[local] Existing Instance toy_keys.
#[local] Existing Instance toy_keys_laws.
#[local] Existing Instance toy_hashes.
#[local] Instance toy_sha_here : Sha256 := toy_sha256.
#[local] Existing Instance toy_evp.
#[local] Existing Instance toy_evp_laws.

(** A wallet with a key is encrypted under a passphrase, which is changed twice. *)
Definition toy_keys_added : list event := [EvAddKey (toy_secret 7) true].
Definition toy_salt : bytes := replicate 8 5.
Definition toy_changes : list (bytes * Z * Z) := [([2; 2], 1, 30000); ([3], 5, 6)].
Definition toy_wallet : CWallet :=
  {| store := (run store_step toy_keys_added no_keys).1; mapMasterKeys := []; nMasterKeyMaxID := 0 |}.
Definition toy_encrypted : option (CWallet * bool) :=
  EncryptWallet [1; 1] (replicate 32 9) toy_salt 40000 41000 0 true [11] toy_wallet.

Lemma passphrase_opens_witness :
  exists w1 w2 p' w3, toy_encrypted = Some (w1, true) /\ change_all [1; 1] toy_changes w1 = Some (w2, p') /\
    Unlock p' w2 = (w3, true) /\ HaveKey (store w3) (key_id (toy_secret 7) true) = true.
Proof.
  destruct (passphrase_opens toy_keys_added 0 [1; 1] (replicate 32 9) toy_salt 40000 41000 0 true [11] toy_changes)
    as (w1 & w2 & p' & w3 & He & Hc & _ & Hu & Hs).
  - constructor; [|constructor]. split; [by apply toy_secret_ok|done].
  - done.
  - done.
  - constructor; [|constructor]. split; vm_compute; reflexivity.
  - exists w1, w2, p', w3. split_and!; [exact He|exact Hc|exact Hu|].
    rewrite (shows_have _ _ Hs). vm_compute. reflexivity.
Defined.

(** A change with the wrong passphrase fails, and leaves a wallet that was open
    locked. *)
Example wrong_change_locks :
  match toy_encrypted with
  | Some (w1, _) =>
      let w2 := (Unlock [1; 1] w1).1 in
      let '(w3, ok) := ChangeWalletPassphrase [4] [5] 1 1 w2 in
      (IsLocked (store w2), ok, IsLocked (store w3)) = (false, false, true)
  | None => False
  end.
Proof. vm_compute. reflexivity. Qed.

End Passphrase.
