(* ===== verification/Signing.v ===== *)
(** * Signing ([src/script.cpp])

    The signature scripts a store of keys makes for standard outputs, what of an
    output is its own, and the combination of the signature scripts of several
    signers.  The random draws of the signatures are an argument, a draw for each key
    in the order of the script. *)

From S2P Require Import Prelude Crypto Serialize BigNum Script Interpreter Standard Transactions Sighash Keys KeyStore.
Import Stream BigNum Script Interpreter Standard Transactions Sighash Keys KeyStore.

Module Signing.

(** ** Making a signature script *)

Section signing.
Context `{OpenSSLBN} `{Sha256} `{ScriptHashes} `{OpenSSLKeys} `{!CKeyStore store}.

(** The script with what is added to it, and the result. *)
Definition Sign1 (rnd : Z) (address : bytes) (keystore : store) (h : uint256) (nHashType : Z) (scriptSigRet : bytes)
    : bytes * bool :=
  match GetKey keystore address with
  | None => (scriptSigRet, false)
  | Some key =>
      match Sign rnd h key with
      | None => (scriptSigRet, false)
      | Some vchSig => (scriptSigRet ++ push_data (vchSig ++ [u8 nHashType]), true)
      end
  end.

(** The loop of [SignN] over the keys: the script and the number of signatures. *)
Fixpoint sign_keys (rnd : nat -> Z) (keys : list bytes) (keystore : store) (h : uint256) (nHashType nRequired nSigned : Z)
    (scriptSigRet : bytes) : bytes * Z :=
  match keys with
  | [] => (scriptSigRet, nSigned)
  | pubkey :: keys =>
      if nSigned <? nRequired then
        let '(scriptSigRet, ok) := Sign1 (rnd O) (GetID pubkey) keystore h nHashType scriptSigRet in
        sign_keys (fun i => rnd (S i)) keys keystore h nHashType nRequired (if ok then nSigned + 1 else nSigned) scriptSigRet
      else (scriptSigRet, nSigned)
  end.

Definition SignN (rnd : nat -> Z) (multisigdata : list bytes) (keystore : store) (h : uint256) (nHashType : Z)
    (scriptSigRet : bytes) : bytes * bool :=
  let nRequired := at_ 0 (hd [] multisigdata) 0 in
  let '(s, nSigned) := sign_keys rnd (take (length multisigdata - 2) (drop 1 multisigdata)) keystore h nHashType nRequired 0
                         scriptSigRet in
  (s, nSigned =? nRequired).

(** [Solver] with a store: the script, the type and the result. *)
Definition SolverSign (rnd : nat -> Z) (keystore : store) (scriptPubKey : bytes) (h : uint256) (nHashType : Z)
    : bytes * txnouttype * bool :=
  let '(ok, whichType, vSolutions) := Solver scriptPubKey in
  if negb ok then ([], whichType, false)
  else
    match whichType with
    | TX_NONSTANDARD => ([], whichType, false)
    | TX_PUBKEY =>
        let '(s, ok) := Sign1 (rnd O) (GetID (hd [] vSolutions)) keystore h nHashType [] in (s, whichType, ok)
    | TX_PUBKEYHASH =>
        let keyID := hd [] vSolutions in
        let '(s, ok) := Sign1 (rnd O) keyID keystore h nHashType [] in
        if negb ok then (s, whichType, false)
        else (s ++ push_data (default [] (GetPubKeyOf keystore keyID)), whichType, true)
    | TX_SCRIPTHASH =>
        match GetCScript keystore (hd [] vSolutions) with
        | None => ([], whichType, false)
        | Some s => (s, whichType, true)
        end
    | TX_MULTISIG =>
        let '(s, ok) := SignN rnd vSolutions keystore h nHashType [OP_0] in (s, whichType, ok)
    | TX_NULL_DATA => ([], whichType, false)
    end.

(** The transaction with the signature script of an input. *)
Definition set_scriptSig (nIn : Z) (s : bytes) (t : CTransaction) : CTransaction :=
  with_vin (alter (with_scriptSig s) (Z.to_nat nIn) (vin t)) t.

Definition SignSignature (rnd : nat -> Z) (keystore : store) (fromPubKey : bytes) (txTo : CTransaction) (nIn nHashType : Z)
    : option (CTransaction * bool) :=
  if len (vin txTo) <=? nIn then None
  else
    let '(s, whichType, ok) := SolverSign rnd keystore fromPubKey (SignatureHash fromPubKey txTo nIn nHashType) nHashType in
    let txTo := set_scriptSig nIn s txTo in
    if negb ok then Some (txTo, false)
    else
      let verify (txTo : CTransaction) (s : bytes) :=
        match @VerifyScript _ _ _ (checker txTo nIn 0) s fromPubKey with None => None | Some ok => Some (txTo, ok) end in
      if decide (whichType = TX_SCRIPTHASH) then
        let subscript := s in
        let hash2 := SignatureHash subscript txTo nIn nHashType in
        let '(s, subType, ok) := SolverSign rnd keystore subscript hash2 nHashType in
        let fSolved := ok && negb (bool_decide (subType = TX_SCRIPTHASH)) in
        let s := s ++ push_data subscript in
        let txTo := set_scriptSig nIn s txTo in
        if negb fSolved then Some (txTo, false) else verify txTo s
      else verify txTo s.

(** With the transaction that is spent; [None] where an assertion fails. *)
Definition SignSignatureFrom (rnd : nat -> Z) (keystore : store) (txFrom txTo : CTransaction) (nIn nHashType : Z)
    : option (CTransaction * bool) :=
  match vin txTo !! Z.to_nat nIn with
  | None => None
  | Some txin =>
      match vout txFrom !! Z.to_nat (n (prevout txin)) with
      | None => None
      | Some txout =>
          if negb (hash (prevout txin) =? Transactions.GetHash txFrom) then None
          else SignSignature rnd keystore (scriptPubKey txout) txTo nIn nHashType
      end
  end.

(** ** What is a store's own *)

Definition HaveKeys (pubkeys : list bytes) (keystore : store) : Z :=
  len (List.filter (fun k => HaveKey keystore (GetID k)) pubkeys).

Definition IsMineDest (keystore : store) (dest : CTxDestination) : bool :=
  match dest with
  | CNoDestination => false
  | CKeyID h => HaveKey keystore h
  | CScriptID h => HaveCScript keystore h
  end.

(** [None] where the scripts of script hashes do not end. *)
Fixpoint IsMine (fuel : nat) (keystore : store) (scriptPubKey : bytes) : option bool :=
  match fuel with
  | O => None
  | S fuel =>
      let '(ok, whichType, vSolutions) := Solver scriptPubKey in
      if negb ok then Some false
      else
        match whichType with
        | TX_NONSTANDARD => Some false
        | TX_PUBKEY => Some (HaveKey keystore (GetID (hd [] vSolutions)))
        | TX_PUBKEYHASH => Some (HaveKey keystore (hd [] vSolutions))
        | TX_SCRIPTHASH =>
            match GetCScript keystore (hd [] vSolutions) with
            | None => Some false
            | Some subscript => IsMine fuel keystore subscript
            end
        | TX_MULTISIG =>
            let keys := take (length vSolutions - 2) (drop 1 vSolutions) in
            Some (HaveKeys keys keystore =? len keys)
        | TX_NULL_DATA => Some false
        end
  end.

(** [CAffectedKeysVisitor] *)
Fixpoint ExtractAffectedKeys (fuel : nat) (keystore : store) (scriptPubKey : bytes) (vKeys : list bytes) : option (list bytes) :=
  match fuel with
  | O => None
  | S fuel =>
      match ExtractDestinations scriptPubKey with
      | None => Some vKeys
      | Some (_, vDest, _) =>
          fold_left (fun acc dest =>
            match acc, dest with
            | None, _ => None
            | Some vKeys, CKeyID h => Some (if HaveKey keystore h then vKeys ++ [h] else vKeys)
            | Some vKeys, CScriptID h =>
                match GetCScript keystore h with None => Some vKeys | Some s => ExtractAffectedKeys fuel keystore s vKeys end
            | Some vKeys, CNoDestination => Some vKeys
            end) vDest (Some vKeys)
      end
  end.
End signing.

(** ** Combining signature scripts *)

Section combining.
Context `{OpenSSLBN} `{Sha256} `{ScriptHashes} `{OpenSSLEC}.

(** [allsigs], a [std::set]. *)
Fixpoint sig_insert (v : bytes) (l : list bytes) : list bytes :=
  match l with
  | [] => [v]
  | x :: l' => if vec_lt v x then v :: l else if vec_lt x v then x :: sig_insert v l' else l
  end.
Definition all_sigs (sigs1 sigs2 : list bytes) : list bytes :=
  fold_left (fun l v => match v with [] => l | _ => sig_insert v l end) (sigs1 ++ sigs2) [].

(** The inner loop: the first key without a signature that this one is good for. *)
Definition place_sig (good : bytes -> bytes -> bool) (pubkeys : list bytes) (sigs : gmap bytes bytes) (sig : bytes)
    : gmap bytes bytes :=
  match List.find (fun pubkey => negb (bool_decide (is_Some (sigs !! pubkey))) && good sig pubkey) pubkeys with
  | None => sigs
  | Some pubkey => <[pubkey := sig]> sigs
  end.

(** The second loop, with the number of signatures still required. *)
Fixpoint pick_sigs (sigs : gmap bytes bytes) (pubkeys : list bytes) (required : nat) : list bytes :=
  match pubkeys, required with
  | [], _ | _, O => []
  | pubkey :: pubkeys, S required' =>
      match sigs !! pubkey with
      | Some sig => sig :: pick_sigs sigs pubkeys required'
      | None => pick_sigs sigs pubkeys required
      end
  end.

Definition CombineMultisig (scriptPubKey : bytes) (txTo : CTransaction) (nIn : Z) (vSolutions sigs1 sigs2 : list bytes) : bytes :=
  let nSigsRequired := Z.to_nat (at_ 0 (hd [] vSolutions) 0) in
  let pubkeys := take (length vSolutions - 2) (drop 1 vSolutions) in
  let good sig pubkey := checker txTo nIn 0 sig pubkey scriptPubKey in
  let sigs := fold_left (place_sig good pubkeys) (all_sigs sigs1 sigs2) ∅ in
  let have := pick_sigs sigs pubkeys nSigsRequired in
  [OP_0] ++ PushAll have ++ replicate (nSigsRequired - length have) OP_0.

(** The stacks have their top, the back of the vectors, first; [PushAll] pushes from
    the bottom.  The recursion takes an element off both. *)
Fixpoint combine_stacks (scriptPubKey : bytes) (txTo : CTransaction) (nIn : Z) (txType : txnouttype) (vSolutions : list bytes)
    (stack1 stack2 : list bytes) : bytes :=
  let pushed s := PushAll (rev s) in
  match txType with
  | TX_NONSTANDARD => if len stack2 <=? len stack1 then pushed stack1 else pushed stack2
  | TX_PUBKEY | TX_PUBKEYHASH => match rev stack1 with [] | [] :: _ => pushed stack2 | _ => pushed stack1 end
  | TX_SCRIPTHASH =>
      match stack1, stack2 with
      | [], _ | [] :: _, _ => pushed stack2
      | _, [] | _, [] :: _ => pushed stack1
      | spk :: stack1, _ :: stack2 =>
          let '(_, txType2, vSolutions2) := Solver spk in
          combine_stacks spk txTo nIn txType2 vSolutions2 stack1 stack2 ++ push_data spk
      end
  | TX_MULTISIG => CombineMultisig scriptPubKey txTo nIn vSolutions (rev stack1) (rev stack2)
  | TX_NULL_DATA => []
  end.

(** [CTransaction()] *)
Definition new_tx (now : Z) : CTransaction :=
  {| nVersion := 1; nTime := now; vin := []; vout := []; nLockTime := 0; mwTx := null_mwTx |}.

Definition CombineSignatures (now : Z) (scriptPubKey : bytes) (txTo : CTransaction) (nIn : Z) (scriptSig1 scriptSig2 : bytes)
    : bytes :=
  let '(_, txType, vSolutions) := Solver scriptPubKey in
  let stack s := (@EvalScript _ _ _ (checker (new_tx now) 0 0) [] s).1 in
  combine_stacks scriptPubKey txTo nIn txType vSolutions (stack scriptSig1) (stack scriptSig2).
End combining.

(** * Properties *)

(** ** Scripts of pushes and opcodes *)

Inductive item := Push (v : bytes) | Code (c : Z).
Definition item_raw (i : item) : bytes := match i with Push v => push_data v | Code c => [c] end.
Definition build (l : list item) : bytes := concat (map item_raw l).
Definition code_ok (i : item) : Prop := match i with Push _ => True | Code c => OP_PUSHDATA4 < c end.

Lemma ops_build l :
  len (build l) < 2 ^ 32 - 4 -> Forall code_ok l -> (ops (build l)).2 = [] /\ map op_raw (ops (build l)).1 = map item_raw l.
Proof.
  intros Hl Hc. induction Hc as [|[v|c] l Hi Hc IH]; [done|..]; unfold build in *; cbn [map concat item_raw] in *; rewrite len_app in Hl.
  - pose proof (len_push_data v). pose proof (len_pos v). rewrite ops_push by (lens; lia).
    destruct IH as [Et Er]; [lia|]. destruct (ops (concat (map item_raw l))) as [o t]. cbn in *. by rewrite Er.
  - pose proof (len_pos [c]). destruct IH as [Et Er]; [lia|]. cbn [app]. rewrite ops_step, GetOp_opcode by done.
    destruct (ops (concat (map item_raw l))) as [o t]. cbn [fst snd map op_raw] in *. split; [done|]. f_equal; [|done].
    cbn [length]. by replace (S (length (concat (map item_raw l))) - length (concat (map item_raw l)))%nat with 1%nat by lia.
Qed.

Lemma push_data_inj v w : len v < 2 ^ 32 - 4 -> len w < 2 ^ 32 - 4 -> push_data v = push_data w -> v = w.
Proof.
  intros Hv Hw E. pose proof (GetOp_push v [] ltac:(by rewrite app_nil_r)) as E1.
  rewrite E, GetOp_push in E1 by by rewrite app_nil_r. by injection E1.
Qed.

(** A push that does not occur is not deleted. *)
Lemma delete_absent l v :
  len (build l) < 2 ^ 32 - 4 -> len v < 2 ^ 32 - 4 -> v <> [] -> Forall code_ok l ->
  Forall (fun i => match i with Push w => w <> v | Code _ => True end) l ->
  (FindAndDelete (build l) (push_data v)).1 = build l.
Proof.
  intros Hl Hv Hne Hc Habs. destruct (ops_build l Hl Hc) as [Et Er].
  rewrite (find_and_delete_filters _ (push_data v) (push_op v) v); [|lia|].
  2: { pose proof (GetOp_push v [] ltac:(by rewrite app_nil_r)) as E. by rewrite app_nil_r in E. }
  cbn [fst]. rewrite Et, app_nil_r. pose proof (ops_raw (build l)) as E. rewrite Et, app_nil_r in E. rewrite <-E at 2.
  f_equal. unfold kept. apply List.forallb_filter_id. apply forallb_forall. intros o Ho%list_elem_of_In.
  unfold is_op. apply negb_true_iff, bool_decide_eq_false. intros Eo.
  assert (op_raw o ∈ map op_raw (ops (build l)).1) as Hin by (apply list_elem_of_In, in_map, list_elem_of_In; done).
  rewrite Er, Eo in Hin. apply list_elem_of_In, in_map_iff in Hin as (i & Ei & Hin). apply list_elem_of_In in Hin.
  rewrite Forall_forall in Habs. specialize (Habs i Hin). destruct i as [w|c]; cbn [item_raw] in Ei.
  - apply Habs. apply push_data_inj; [|done|done].
    assert (len (push_data w) <= len (build l)).
    { apply list_elem_of_split in Hin as (l1 & l2 & ->). unfold build. rewrite map_app, concat_app. cbn [map concat item_raw]. lens.
      pose proof (len_pos (concat (map item_raw l1))). pose proof (len_pos (concat (map item_raw l2))). lia. }
    pose proof (len_push_data w). lia.
  - apply (f_equal len) in Ei. unfold push_data in Ei. rewrite len_app in Ei.
    pose proof (len_pos v). destruct v as [|b v]; [done|]. rewrite len_cons in *. pose proof (len_pos v).
    change (len [c]) with 1 in Ei. pose proof (len_pos (le_bytes 2 (u16 (1 + len v)))). pose proof (len_pos (le_bytes 4 (u32 (1 + len v)))).
    repeat case_match; rewrite ?len_cons, ?len_nil in Ei; lia.
Qed.

(** ** The evaluation of the templates *)

Section templates.
Context `{BNLaws} `{Sha256} `{ScriptHashes} `{SigChecker}.

Lemma eval_pay_to_key pub vchSig s :
  len pub <= 520 -> len s <= 900 ->
  EvalScript (vchSig :: s) (push_data pub ++ [OP_CHECKSIG]) =
    ((if check_one (FindAndDelete (push_data pub ++ [OP_CHECKSIG]) (push_data vchSig)).1 vchSig pub then vchTrue else vchFalse) :: s,
     true).
Proof.
  intros Hp Hs. pose proof (len_push_data_le pub). pose proof (len_pos pub). rewrite EvalScript_from by (lens; lia).
  set (script := push_data pub ++ [OP_CHECKSIG]) at 1 3. 
  rewrite (eval_step _ _ (push_op pub) pub [OP_CHECKSIG]) by (apply GetOp_push; lens; lia).
  rewrite step_push by (done || (unfold room; cbn [stack altstack]; lens; lia)). state_now.
  run_op. unfold checksig_op; closed_tests. cbn [stack with_nOpCount pbegincodehash].
  unfold push_result. no_overflow. state_now. done.
Qed.

Lemma small_bytes k : 1 <= k <= 16 -> num_bytes k = [k].
Proof.
  intros Hk. assert (k ∈ seqZ 1 16) as Hin by (apply elem_of_seqZ; lia).
  revert Hin. change (seqZ 1 16) with [1; 2; 3; 4; 5; 6; 7; 8; 9; 10; 11; 12; 13; 14; 15; 16].
  rewrite !elem_of_cons, elem_of_nil. intros Hin. decompose [or] Hin; subst; done.
Qed.

Lemma getvch_small k : 1 <= k <= 16 -> getvch (CBigNum_long k) = [k].
Proof.
  intros Hk. rewrite CBigNum_long_value by lia. rewrite getvch_bytes; rewrite small_bytes by done; [done|by vm_compute].
Qed.

Lemma CastToBigNum_small k : 1 <= k <= 16 -> CastToBigNum [k] = Some k.
Proof.
  intros Hk. unfold CastToBigNum. change (nMaxNumSize <? len [k]) with false. cbv iota.
  pose proof (small_bytes k Hk) as E. assert (getvch k = [k]) as Eg by (rewrite getvch_bytes; rewrite E; done).
  assert (setvch [k] = k) as Es by (rewrite <-Eg at 1; apply setvch_getvch; by rewrite E). by rewrite Es, Eg, Es.
Qed.

Lemma getint_small k : 1 <= k <= 16 -> getint k = k.
Proof. intros Hk. rewrite getint_value. lia. Qed.

Lemma step_small st k pc :
  1 <= k <= 16 -> forallb id (vfExec st) = true -> room st 1 ->
  step st (EncodeOP_N k) [] pc = inl (with_stack ([k] :: stack st) st).
Proof.
  intros Hk Hx Hroom. rewrite EncodeOP_N_range by done. unfold step, room in *. change (520 <? len []) with false. cbv iota.
  rewrite Hx. replace (OP_16 <? 80 + k) with false by (unfold OP_16; lia). cbn [andb].
  assert (disabled (80 + k) = false) as -> by (unfold disabled, OP_CAT, OP_SUBSTR, OP_LEFT, OP_RIGHT, OP_INVERT,
    OP_AND, OP_OR, OP_XOR, OP_2MUL, OP_2DIV, OP_MUL, OP_DIV, OP_MOD, OP_LSHIFT, OP_RSHIFT; lia).
  unfold dispatch. replace (80 + k <=? OP_PUSHDATA4) with false by (unfold OP_PUSHDATA4; lia). cbn [andb orb].
  unfold exec. replace ((80 + k =? OP_1NEGATE) || ((OP_1 <=? 80 + k) && (80 + k <=? OP_16))) with true
    by (unfold OP_1NEGATE, OP_1, OP_16; lia).
  replace (80 + k - (OP_1 - 1)) with k by (unfold OP_1; lia). rewrite getvch_small by done.
  cbn [with_stack stack altstack]. rewrite len_cons. by destruct (Z.ltb_spec 1000 (1 + len (stack st) + len (altstack st))); [lia|].
Qed.

(** The fold of the deletions of the signatures. *)
Definition strip_sigs (sigs : list bytes) (code : bytes) : bytes :=
  fold_left (fun code vchSig => (FindAndDelete code (push_data vchSig)).1) sigs code.

Lemma eval_multisig m keys sigs dummy s :
  1 <= m <= len keys -> len keys <= 16 -> len sigs = m -> Forall (fun k => pubkey_size k = true) keys -> len s <= 800 ->
  EvalScript (rev sigs ++ dummy :: s) (SetMultisig m keys) =
    ((if multisig (strip_sigs (rev sigs) (SetMultisig m keys)) (rev keys) (rev sigs) then vchTrue else vchFalse) :: s, true).
Proof.
  intros Hm Hn Hsigs Hkeys Hs. pose proof (push_keys_length keys Hkeys) as Hpush.
  assert (len (rev sigs) = m) as Hrs by (unfold len in *; by rewrite length_rev).
  assert (len (rev keys) = len keys) as Hrk by (unfold len; by rewrite length_rev).
  set (script := SetMultisig m keys) at 2. unfold SetMultisig. change (concat (map push_data keys)) with (PushAll keys).
  rewrite EvalScript_from by (cbn [app]; lens; lia). cbn [app].
  assert (forall k, 1 <= k <= 16 -> OP_PUSHDATA4 < EncodeOP_N k) as Hop
    by (intros k Hk; rewrite EncodeOP_N_range by done; unfold OP_PUSHDATA4; lia).
  rewrite (eval_step _ _ (EncodeOP_N m) [] (PushAll keys ++ [EncodeOP_N (len keys); OP_CHECKMULTISIG]))
    by (apply GetOp_opcode, Hop; lia).
  rewrite step_small by (done || lia || (unfold room; cbn [stack altstack]; lens; lia)). state_now.
  rewrite eval_pushes; [|done| |unfold room; cbn [stack altstack]; lens; lia|lens; lia].
  2: { eapply Forall_impl; [exact Hkeys|]. intros k Hk. unfold pubkey_size in Hk. lia. }
  state_now. rewrite (eval_step _ _ (EncodeOP_N (len keys)) [] [OP_CHECKMULTISIG]) by (apply GetOp_opcode, Hop; lia).
  rewrite step_small by (done || lia || (unfold room; cbn [stack altstack]; lens; lia)). state_now.
  run_op. unfold checkmultisig_op. cbn [stack with_nOpCount nOpCount pbegincodehash].
  set (st := [len keys] :: rev keys ++ [m] :: rev sigs ++ dummy :: s).
  assert (len st = 3 + len keys + m + len s) as Hst by (unfold st; lens; lia).
  assert (forall l1 (x : bytes) l2 i, len l1 = i -> at_ [] (l1 ++ x :: l2) i = x) as Hat.
  { intros l1 x l2 i <-. apply at_lookup; [apply len_pos|]. unfold len. rewrite Nat2Z.id. by rewrite list_lookup_middle. }
  change (at_ [] st 0) with [len keys]. pose proof (len_pos s). replace (len st <? 1) with false by lia.
  rewrite CastToBigNum_small, getint_small by lia.
  replace ((len keys <? 0) || (20 <? len keys)) with false by lia.
  replace (201 <? 0 + 1 + len keys) with false by lia. replace (len st <? 2 + len keys) with false by lia.
  assert (at_ [] st (1 + len keys) = [m]) as ->.
  { unfold st. change ([len keys] :: rev keys ++ [m] :: ?r) with (([len keys] :: rev keys) ++ [m] :: r). apply Hat. lens. lia. }
  rewrite CastToBigNum_small, getint_small by lia.
  replace ((m <? 0) || (len keys <? m)) with false by lia. replace (len st <? 3 + len keys + m) with false by lia.
  assert (take (Z.to_nat (len keys)) (drop 1 st) = rev keys) as ->.
  { unfold st. change (drop 1 (?x :: ?l)) with l. unfold len. rewrite Nat2Z.id. apply take_app_length'. by rewrite length_rev. }
  assert (take (Z.to_nat m) (drop (Z.to_nat (2 + len keys)) st) = rev sigs) as ->.
  { assert (drop (Z.to_nat (2 + len keys)) st = rev sigs ++ dummy :: s) as ->.
    { unfold st. change ([len keys] :: rev keys ++ [m] :: ?r) with ([len keys] :: rev keys ++ [[m]] ++ r).
      rewrite app_comm_cons, app_assoc. apply drop_app_length'. cbn [length app]. rewrite length_app, length_rev. unfold len. cbn [length]. lia. }
    apply take_app_length'. unfold len in *. lia. }
  assert (drop (Z.to_nat (3 + len keys + m)) st = s) as ->.
  { unfold st. replace ([len keys] :: rev keys ++ [m] :: rev sigs ++ dummy :: s)
      with (([len keys] :: rev keys ++ [m] :: rev sigs ++ [dummy]) ++ s) by (cbn [app]; by rewrite <-!app_assoc; cbn [app]; rewrite <-app_assoc).
    apply drop_app_length'. cbn [length]. rewrite !length_app. cbn [length]. rewrite length_app, !length_rev. unfold len in *. cbn [length]. lia. }
  fold (strip_sigs (rev sigs) script). unfold push_result. closed_tests. no_overflow. done.
Qed.
End templates.

(** ** The templates that are recognised *)

Lemma solver_pay_to_key pub : pubkey_size pub = true -> len pub <= 75 -> Solver (push_data pub ++ [OP_CHECKSIG]) = (true, TX_PUBKEY, [pub]).
Proof.
  intros Hp Hl. assert (33 <= len pub) as Hlow by (unfold pubkey_size in Hp; lia).
  assert (exists r, push_data pub = len pub :: r) as [r Er].
  { unfold push_data. replace (len pub <? OP_PUSHDATA1) with true by (unfold OP_PUSHDATA1; lia). rewrite u8_id by lia. by eexists. }
  unfold Solver. rewrite Er. cbn [app]. rewrite not_p2sh, not_return by (unfold OP_HASH160, OP_RETURN; lia).
  change (len pub :: r ++ [OP_CHECKSIG]) with ((len pub :: r) ++ [OP_CHECKSIG]). rewrite <-Er. unfold mTemplates. cbn [solve length].
  erewrite match_template_accept; [|apply GetOp_push; lens; lia|reflexivity|reflexivity|].
  2: { unfold match_op. closed_tests. by rewrite Hp. }
  erewrite match_template_accept; [|reflexivity..]. done.
Qed.

Lemma solver_key_hash h : len h = 20 -> Solver (pay_to_key_hash h) = (true, TX_PUBKEYHASH, [h]).
Proof.
  intros Hh. unfold pay_to_key_hash, push_hash. rewrite Hh. apply list_20 in Hh. do 20 destruct Hh as [? Hh]. by subst h.
Qed.

Lemma solver_script_hash h :
  len h = 20 -> Solver ([OP_HASH160] ++ push_hash h ++ [OP_EQUAL]) = (true, TX_SCRIPTHASH, [h]).
Proof. intros Hh. unfold push_hash. rewrite Hh. apply list_20 in Hh. do 20 destruct Hh as [? Hh]. by subst h. Qed.

Lemma canonical_pubkey_size pub :
  IsCanonicalPubKey pub = true -> pubkey_size pub = true /\ 33 <= len pub <= 65 /\ at_ 0 pub 0 <> 0x30.
Proof.
  unfold IsCanonicalPubKey, pubkey_size. intros Hp.
  destruct (Z.ltb_spec (len pub) 33); [done|]. destruct (Z.eqb_spec (at_ 0 pub 0) 4) as [E|].
  - rewrite E. split_and!; lia.
  - destruct ((at_ 0 pub 0 =? 2) || (at_ 0 pub 0 =? 3)) eqn:E; [|done]. split_and!; lia.
Qed.

Lemma canonical_signature_size vchSig : IsCanonicalSignature vchSig = true -> 9 <= len vchSig <= 73.
Proof.
  unfold IsCanonicalSignature. intros Hs. destruct (Z.ltb_spec (len vchSig) 9); [done|].
  destruct (Z.ltb_spec 73 (len vchSig)); [done|]. lia.
Qed.

(** ** Outputs *)

(** The outputs a wallet makes: to a key, its hash, some of several keys, directly or
    by the hash of the script. *)
Inductive payee := PayKey (pub : bytes) | PayKeyHash (h : bytes) | PayMultisig (nRequired : Z) (keys : list bytes).
Inductive output := Direct (p : payee) | Hashed (p : payee).

Definition payee_of (o : output) : payee := match o with Direct p | Hashed p => p end.
Definition keys_of (p : payee) : list bytes := match p with PayKey pub => [pub] | PayKeyHash _ => [] | PayMultisig _ keys => keys end.
Definition payee_ok (p : payee) : Prop :=
  match p with
  | PayKey pub => IsCanonicalPubKey pub = true
  | PayKeyHash h => len h = 20
  | PayMultisig m keys => 1 <= m <= len keys /\ len keys <= 16 /\ Forall (fun k => IsCanonicalPubKey k = true) keys
  end.
Definition type_of (p : payee) : txnouttype :=
  match p with PayKey _ => TX_PUBKEY | PayKeyHash _ => TX_PUBKEYHASH | PayMultisig _ _ => TX_MULTISIG end.

Section outputs.
Context `{OpenSSLBN} `{Sha256} `{ScriptHashes}.

Definition payee_script (p : payee) : bytes :=
  match p with
  | PayKey pub => push_data pub ++ [OP_CHECKSIG]
  | PayKeyHash h => (SetDestination (CKeyID h)).1
  | PayMultisig m keys => SetMultisig m keys
  end.
Definition output_script (o : output) : bytes :=
  match o with
  | Direct p => payee_script p
  | Hashed p => (SetDestination (CScriptID (Hash160 (payee_script p)))).1
  end.
Definition output_ok (o : output) : Prop :=
  payee_ok (payee_of o) /\ match o with Direct _ => True | Hashed p => len (payee_script p) <= 520 end.

Definition solutions (p : payee) : list bytes :=
  match p with PayKey pub => [pub] | PayKeyHash h => [h] | PayMultisig m keys => [m] :: keys ++ [[len keys]] end.

Lemma canonical_sizes keys :
  Forall (fun k => IsCanonicalPubKey k = true) keys -> Forall (fun k => pubkey_size k = true) keys.
Proof. intros Hk. eapply Forall_impl; [exact Hk|]. intros k Hc. by apply canonical_pubkey_size. Qed.

Lemma solver_payee p : payee_ok p -> Solver (payee_script p) = (true, type_of p, solutions p).
Proof.
  destruct p as [pub|h|m keys]; cbn [payee_ok payee_script type_of solutions].
  - intros Hp. destruct (canonical_pubkey_size pub Hp) as (Hs & Hl & _). apply solver_pay_to_key; [done|lia].
  - apply solver_key_hash.
  - intros (Hm & Hn & Hk). apply multisig_solved; [done|done|by apply canonical_sizes].
Qed.

(** The items of the script. *)
Definition payee_items (p : payee) : list item :=
  match p with
  | PayKey pub => [Push pub; Code OP_CHECKSIG]
  | PayKeyHash h => [Code OP_DUP; Code OP_HASH160; Push h; Code OP_EQUALVERIFY; Code OP_CHECKSIG]
  | PayMultisig m keys => Code (EncodeOP_N m) :: map Push keys ++ [Code (EncodeOP_N (len keys)); Code OP_CHECKMULTISIG]
  end.

Lemma build_pushes keys rest : build (map Push keys ++ rest) = PushAll keys ++ build rest.
Proof.
  unfold build, PushAll. rewrite map_app, concat_app. f_equal. by rewrite map_map.
Qed.

Lemma payee_items_script p : payee_ok p -> build (payee_items p) = payee_script p /\ Forall code_ok (payee_items p) /\ len (payee_script p) <= 2100.
Proof.
  destruct p as [pub|h|m keys]; cbn [payee_ok payee_script payee_items].
  - intros Hp. destruct (canonical_pubkey_size pub Hp) as (_ & Hl & _). pose proof (len_push_data_le pub).
    split_and!; [done|by repeat constructor|lens; lia].
  - intros Hh. split_and!; [|by repeat constructor|].
    + unfold build. cbn [map concat item_raw app SetDestination fst]. by rewrite push_hash_data.
    + cbn [SetDestination fst]. unfold push_hash. lens. lia.
  - intros (Hm & Hn & Hk). pose proof (push_keys_length keys (canonical_sizes _ Hk)). split_and!.
    + unfold SetMultisig. change (concat (map push_data keys)) with (PushAll keys).
      change (build (Code ?c :: ?l)) with (c :: build l). by rewrite build_pushes.
    + assert (forall k, 1 <= k <= 16 -> OP_PUSHDATA4 < EncodeOP_N k) as Hop
        by (intros k Hk'; rewrite EncodeOP_N_range by done; unfold OP_PUSHDATA4; lia).
      constructor; [apply Hop; lia|]. apply Forall_app. split; [apply Forall_map, Forall_true; done|].
      repeat constructor. apply Hop. lia.
    + unfold SetMultisig. change (concat (map push_data keys)) with (PushAll keys). lens. lia.
Qed.

(** What starts like a signature is none of the keys of a script. *)
Lemma signature_absent p vchSig :
  payee_ok p -> at_ 0 vchSig 0 = 0x30 -> len vchSig <= 73 -> match p with PayKeyHash h => h <> vchSig | _ => True end ->
  (FindAndDelete (payee_script p) (push_data vchSig)).1 = payee_script p.
Proof.
  intros Hp H0' Hl Hh. destruct (payee_items_script p Hp) as (Eb & Hc & Hlen). rewrite <-Eb in *.
  apply delete_absent; [lia|lia|by intros ->|done|].
  assert (forall k, IsCanonicalPubKey k = true -> k <> vchSig) as Hkey
    by (intros k Hk ->; by destruct (canonical_pubkey_size vchSig Hk) as (_ & _ & ?)).
  destruct p as [pub|h|m keys]; cbn [payee_ok payee_items] in *.
  - repeat constructor. by apply Hkey.
  - by repeat constructor.
  - destruct Hp as (_ & _ & Hk). constructor; [done|]. apply Forall_app. split; [|by repeat constructor].
    apply Forall_map. eapply Forall_impl; [exact Hk|]. intros k. apply Hkey.
Qed.
End outputs.

(** ** Signing what is one's own *)

Section own.
Context `{BNLaws} `{HashLaws} `{KeysLaws} `{!CKeyStore store}.

(** What a store promises: the key and the public key of an address it has are those
    of a secret with that address, and a script has the hash it is kept under. *)
Record sound_store (keystore : store) : Prop := {
  sound_key a : HaveKey keystore a = true -> exists d c, secret_ok d /\ GetKey keystore a = Some (plain_key d c) /\
    GetPubKeyOf keystore a = Some (pub_of d c) /\ GetID (pub_of d c) = a;
  sound_script h s : GetCScript keystore h = Some s -> Hash160 s = h
}.

(** Another public key, or another script, with the hash of one of the output. *)
Definition collision (keystore : store) (o : output) : Prop :=
  (exists pub pub', pub ∈ keys_of (payee_of o) /\ GetPubKeyOf keystore (GetID pub) = Some pub' /\ pub' <> pub) \/
  match o with
  | Direct _ => False
  | Hashed p => exists s, GetCScript keystore (Hash160 (payee_script p)) = Some s /\ s <> payee_script p
  end.

(** The signature that is made is the very hash that is paid to. *)
Definition signs_own_hash (rnd : nat -> Z) (keystore : store) (o : output) (tx : CTransaction) (nIn nHashType : Z) : Prop :=
  match payee_of o with
  | PayKeyHash h => exists key vchSig, GetKey keystore h = Some key /\
      Sign (rnd O) (SignatureHash (payee_script (payee_of o)) tx nIn nHashType) key = Some vchSig /\ vchSig ++ [u8 nHashType] = h
  | _ => False
  end.

(** A value of the signature script that is good for a key. *)
Definition good_sig (h : uint256) (ht : Z) (pub v : bytes) : Prop :=
  exists vchSig, v = vchSig ++ [ht] /\ verified h vchSig pub = true /\ IsCanonicalSignature v = true /\ at_ 0 v 0 = 0x30.

Lemma good_sig_size h ht pub v : good_sig h ht pub v -> len v <= 73.
Proof. intros (vchSig & -> & _ & Hc & _). apply canonical_signature_size in Hc. lia. Qed.

Lemma good_sig_head h ht pub v : good_sig h ht pub v -> at_ 0 v 0 = 0x30.
Proof. by intros (vchSig & -> & _ & _ & ?). Qed.

Lemma hash_type_u8 ht : hash_type_ok ht -> u8 ht = ht.
Proof. intros [Hb _]. by apply u8_id. Qed.

(** One key that is held. *)
Lemma Sign1_good rnd keystore a d c h ht s :
  hash_type_ok ht -> secret_ok d -> GetKey keystore a = Some (plain_key d c) ->
  exists v, Sign1 rnd a keystore h ht s = (s ++ push_data v, true) /\ good_sig h ht (pub_of d c) v /\
    exists raw, Sign rnd h (plain_key d c) = Some raw /\ v = raw ++ [ht].
Proof.
  intros Hht Hd Hk. unfold Sign1. rewrite Hk, hash_type_u8 by done.
  destruct (Sign_plain rnd h d c Hd) as (raw & Hs & Hv & H30 & Hcan). rewrite Hs. exists (raw ++ [ht]).
  split; [done|]. split; [|by exists raw]. exists raw. split_and!; [done|done|by apply Hcan|].
  destruct raw; [done|exact H30].
Qed.

(** The keys of a script that are held. *)
Definition held (keystore : store) (pub : bytes) : Prop :=
  exists d c, secret_ok d /\ GetKey keystore (GetID pub) = Some (plain_key d c) /\ pub_of d c = pub.

Lemma sign_keys_good rnd keys keystore h ht nRequired nSigned s :
  hash_type_ok ht -> Forall (held keystore) keys -> nSigned <= nRequired <= nSigned + len keys ->
  exists vs, sign_keys rnd keys keystore h ht nRequired nSigned s = (s ++ PushAll vs, nRequired) /\
    Forall2 (good_sig h ht) (take (Z.to_nat (nRequired - nSigned)) keys) vs.
Proof.
  intros Hht Hk. revert rnd nSigned s. induction Hk as [|pub keys (d & c & Hd & Hget & Hpub) Hk IH]; intros rnd nSigned s Hn; cbn [sign_keys].
  - rewrite len_nil in Hn. exists []. unfold PushAll. cbn [map concat]. rewrite app_nil_r, take_nil. split; [f_equal; lia|constructor].
  - rewrite len_cons in Hn. destruct (Z.ltb_spec nSigned nRequired).
    + destruct (Sign1_good (rnd O) keystore (GetID pub) d c h ht s Hht Hd Hget) as (v & -> & Hv & _). rewrite Hpub in Hv.
      destruct (IH (fun i => rnd (S i)) (nSigned + 1) (s ++ push_data v) ltac:(lia)) as (vs & -> & Hvs).
      exists (v :: vs). unfold PushAll. cbn [map concat]. rewrite app_assoc. split; [done|].
      replace (Z.to_nat (nRequired - nSigned)) with (S (Z.to_nat (nRequired - (nSigned + 1)))) by lia. by constructor.
    + exists []. unfold PushAll. cbn [map concat]. rewrite app_nil_r. replace (nRequired - nSigned) with 0 by lia. split; [f_equal; lia|constructor].
Qed.

(** A checker that agrees with the verification of a hash. *)
Definition checks (chk : SigChecker) (p : payee) (h : uint256) (ht : Z) : Prop :=
  forall vchSig pub, chk (vchSig ++ [ht]) pub (payee_script p) = verified h vchSig pub.

Lemma good_sig_checks chk p h ht pub v :
  checks chk p h ht -> good_sig h ht pub v -> IsCanonicalPubKey pub = true -> @check_one chk (payee_script p) v pub = true.
Proof.
  intros Hchk (raw & -> & Hv & Hc & _) Hp. unfold check_one. rewrite Hc, Hp. exact (eq_trans (Hchk raw pub) Hv).
Qed.

Lemma have_held keystore pub :
  sound_store keystore -> HaveKey keystore (GetID pub) = true ->
  held keystore pub \/ exists pub', GetPubKeyOf keystore (GetID pub) = Some pub' /\ pub' <> pub.
Proof.
  intros Hs Hk. destruct (sound_key _ Hs _ Hk) as (d & c & Hd & Hget & Hpub & _).
  destruct (decide (pub_of d c = pub)) as [E|Hne]; [left; by exists d, c|right; by exists (pub_of d c)].
Qed.

Lemma all_held keystore keys :
  sound_store keystore -> HaveKeys keys keystore = len keys ->
  Forall (held keystore) keys \/ exists pub pub', pub ∈ keys /\ GetPubKeyOf keystore (GetID pub) = Some pub' /\ pub' <> pub.
Proof.
  intros Hs. unfold HaveKeys. induction keys as [|pub keys IH]; [by left|]. cbn [List.filter].
  pose proof (List.filter_length_le (fun k => HaveKey keystore (GetID k)) keys) as Hle.
  destruct (HaveKey keystore (GetID pub)) eqn:E; rewrite ?len_cons; [|unfold len in *; lia]. intros Hl.
  destruct (have_held keystore pub Hs E) as [Hh|(pub' & Hp & Hne)].
  - destruct IH as [Hk|(q & q' & Hin & Hq)]; [lia|left; by constructor|]. right. exists q, q'. by split; [right|].
  - right. exists pub, pub'. by split; [left|].
Qed.
Definition owns (keystore : store) (p : payee) : bool :=
  match p with
  | PayKey pub => HaveKey keystore (GetID pub)
  | PayKeyHash h => HaveKey keystore h
  | PayMultisig _ keys => HaveKeys keys keystore =? len keys
  end.

Lemma multisig_keys (m n : bytes) keys : take (length (m :: keys ++ [n]) - 2) (drop 1 (m :: keys ++ [n])) = keys.
Proof.
  change (drop 1 (m :: ?l)) with l. cbn [length]. rewrite length_app. cbn [length].
  replace (S (length keys + 1) - 2)%nat with (length keys) by lia. apply take_app_length.
Qed.

Lemma IsMine_payee fuel keystore p : payee_ok p -> IsMine (S fuel) keystore (payee_script p) = Some (owns keystore p).
Proof.
  intros Hp. cbn [IsMine]. rewrite (solver_payee p Hp). cbn [negb]. destruct p as [pub|h|m keys]; cbn [type_of solutions hd owns]; try done.
  by rewrite multisig_keys.
Qed.

(** The values a signature script pushes for a payee, and what they do: on any stack
    the script leaves true on top. *)
Definition spends (keystore : store) (p : payee) (h : uint256) (ht : Z) (rnd : nat -> Z) : Prop :=
  exists vs, SolverSign rnd keystore (payee_script p) h ht = (PushAll vs, type_of p, true) /\
    Forall (fun v => len v <= 73) vs /\ len vs <= 20 /\
    forall chk : SigChecker, checks chk p h ht -> forall s, len s <= 800 ->
      @EvalScript _ _ _ chk (rev vs ++ s) (payee_script p) = (vchTrue :: s, true).

Lemma spends_key keystore pub h ht rnd :
  IsCanonicalPubKey pub = true -> hash_type_ok ht -> held keystore pub -> spends keystore (PayKey pub) h ht rnd.
Proof.
  intros Hp Hht (d & c & Hd & Hget & Hpub). destruct (canonical_pubkey_size pub Hp) as (_ & Hl & _).
  destruct (Sign1_good (rnd O) keystore (GetID pub) d c h ht [] Hht Hd Hget) as (v & Hs & Hv & _). rewrite Hpub in Hv.
  exists [v]. pose proof (good_sig_size _ _ _ _ Hv). split_and!.
  - unfold SolverSign. rewrite (solver_payee (PayKey pub) Hp). cbn [negb type_of solutions hd]. rewrite Hs.
    unfold PushAll. cbn [map concat app]. by rewrite app_nil_r.
  - by repeat constructor.
  - by vm_compute.
  - intros chk Hchk s Hlen. cbn [rev app payee_script]. rewrite eval_pay_to_key by lia.
    change (push_data pub ++ [OP_CHECKSIG]) with (payee_script (PayKey pub)).
    rewrite signature_absent by (done || by eapply good_sig_head). by rewrite (good_sig_checks chk (PayKey pub) h ht pub v).
Qed.

Lemma spends_key_hash keystore a h ht rnd :
  len a = 20 -> hash_type_ok ht -> sound_store keystore -> HaveKey keystore a = true ->
  spends keystore (PayKeyHash a) h ht rnd \/
  exists key vchSig, GetKey keystore a = Some key /\ Sign (rnd O) h key = Some vchSig /\ vchSig ++ [u8 ht] = a.
Proof.
  intros Ha Hht Hs Hk. destruct (sound_key _ Hs _ Hk) as (d & c & Hd & Hget & Hpub & Hid).
  destruct (Sign1_good (rnd O) keystore a d c h ht [] Hht Hd Hget) as (v & Hsign & Hv & raw & Hraw & Ev).
  destruct (decide (v = a)) as [E|Hne].
  { right. exists (plain_key d c), raw. rewrite hash_type_u8 by done. split_and!; [done|done|congruence]. }
  left. destruct (pub_of_facts d c Hd) as (_ & Hl & Hcan & _). pose proof (good_sig_size _ _ _ _ Hv).
  assert (len (pub_of d c) <= 65) as Hl65 by (rewrite Hl; by destruct c).
  exists [v; pub_of d c]. split_and!.
  - unfold SolverSign. rewrite (solver_payee (PayKeyHash a) Ha). cbn [negb type_of solutions hd]. rewrite Hsign, Hpub.
    cbn [negb default]. unfold PushAll. cbn [map concat app]. by rewrite app_nil_r.
  - repeat constructor; lia.
  - by vm_compute.
  - intros chk Hchk s Hlen. cbn [rev app]. change (payee_script (PayKeyHash a)) with (pay_to_key_hash a).
    rewrite eval_pay_to_key_hash_value by lia. unfold vch_eq. unfold GetID in Hid. rewrite Hid, bool_decide_eq_true_2 by done.
    change (pay_to_key_hash a) with (payee_script (PayKeyHash a)).
    rewrite signature_absent by (done || by eapply good_sig_head). by rewrite (good_sig_checks chk (PayKeyHash a) h ht (pub_of d c) v).
Qed.

Lemma strip_absent p vs :
  payee_ok p -> match p with PayKeyHash _ => False | _ => True end ->
  Forall (fun v => at_ 0 v 0 = 0x30 /\ len v <= 73) vs -> strip_sigs vs (payee_script p) = payee_script p.
Proof.
  intros Hp Hno Hvs. unfold strip_sigs. induction Hvs as [|v l [H30 Hl] Hall IH]; [done|]. cbn [fold_left].
  rewrite signature_absent; [done|done|done|done|by destruct p].
Qed.

Lemma good_sigs_look h ht keys vs :
  Forall2 (good_sig h ht) keys vs -> Forall (fun v => at_ 0 v 0 = 0x30 /\ len v <= 73) vs.
Proof.
  induction 1 as [|k v keys vs Hv Hvs IH]; [constructor|]. constructor; [|done].
  split; [by eapply good_sig_head|by eapply good_sig_size].
Qed.

Lemma Forall2_rev_both {A B} (P : A -> B -> Prop) l k : Forall2 P l k -> Forall2 P (rev l) (rev k).
Proof. induction 1; cbn [rev]; [constructor|]. apply Forall2_app; [done|by repeat constructor]. Qed.

Lemma spends_multisig keystore m keys h ht rnd :
  payee_ok (PayMultisig m keys) -> hash_type_ok ht -> Forall (held keystore) keys -> spends keystore (PayMultisig m keys) h ht rnd.
Proof.
  intros Hp Hht Hheld. pose proof Hp as (Hm & Hn & Hcan).
  destruct (sign_keys_good rnd keys keystore h ht m 0 [OP_0] Hht Hheld ltac:(lia)) as (vs & Hs & Hvs). rewrite Z.sub_0_r in Hvs.
  assert (len vs = m) as Hlvs.
  { unfold len. rewrite <-(Forall2_length _ _ _ Hvs), length_take. unfold len in *. lia. }
  exists ([] :: vs). split_and!.
  - unfold SolverSign. rewrite (solver_payee _ Hp). cbn [negb type_of solutions]. unfold SignN. rewrite multisig_keys. cbn [hd].
    change (at_ 0 [m] 0) with m. rewrite Hs, Z.eqb_refl. done.
  - constructor; [by vm_compute|]. clear -Hvs. induction Hvs; constructor; [by eapply good_sig_size|done].
  - rewrite len_cons. lia.
  - intros chk Hchk s Hlen. cbn [rev]. rewrite <-app_assoc. cbn [app payee_script].
    rewrite eval_multisig by (done || lia || by apply canonical_sizes).
    change (SetMultisig m keys) with (payee_script (PayMultisig m keys)). rewrite strip_absent by (done || by eapply Forall_rev, good_sigs_look).
    assert (@multisig chk (payee_script (PayMultisig m keys)) (rev keys) (rev vs) = true) as ->; [|done].
    apply multisig_matches; [rewrite !length_rev; unfold len in *; lia|].
    exists (rev (take (Z.to_nat m) keys)). split.
    + rewrite <-(take_drop (Z.to_nat m) keys) at 2. rewrite rev_app_distr. apply sublist_inserts_l. done.
    + apply Forall2_flip, Forall2_rev_both. assert (Forall (fun k => IsCanonicalPubKey k = true) (take (Z.to_nat m) keys)) as Hck
        by by apply Forall_take.
      revert Hck. clear -Hvs Hchk. induction Hvs as [|k v ks vs Hv Hvs IH]; intros Hck; [constructor|].
      apply Forall_cons in Hck as [Hk Hck]. constructor; [|by apply IH]. by eapply good_sig_checks.
Qed.

(** A payee that is the store's own is signed for. *)
Lemma own_spends keystore p h ht rnd :
  payee_ok p -> hash_type_ok ht -> sound_store keystore -> owns keystore p = true ->
  spends keystore p h ht rnd \/
  (exists pub pub', pub ∈ keys_of p /\ GetPubKeyOf keystore (GetID pub) = Some pub' /\ pub' <> pub) \/
  match p with
  | PayKeyHash a => exists key vchSig, GetKey keystore a = Some key /\ Sign (rnd O) h key = Some vchSig /\ vchSig ++ [u8 ht] = a
  | _ => False
  end.
Proof.
  intros Hp Hht Hs Hown. destruct p as [pub|a|m keys]; cbn [owns keys_of] in *.
  - destruct (have_held keystore pub Hs Hown) as [Hh|(pub' & Hq)]; [left; by apply spends_key|].
    right. left. exists pub, pub'. split; [by left|done].
  - destruct (spends_key_hash keystore a h ht rnd Hp Hht Hs Hown) as [?|?]; [by left|by right; right].
  - destruct (all_held keystore keys Hs ltac:(lia)) as [Hh|Hcol]; [left; by apply spends_multisig|by right; left].
Qed.
(** ** The hash does not cover the signature scripts *)

Lemma signed_tx_scriptSig code s tx nIn k ht :
  signed_tx code (with_vin (alter (with_scriptSig s) k (vin tx)) tx) nIn ht = signed_tx code tx nIn ht.
Proof.
  assert (map (with_scriptSig []) (alter (with_scriptSig s) k (vin tx)) = map (with_scriptSig []) (vin tx)) as E.
  { apply list_eq. intros i. rewrite !list_lookup_fmap, list_lookup_alter. destruct (decide (k = i)) as [->|]; by destruct (vin tx !! i). }
  unfold signed_tx. cbn [vin with_vin]. unfold len. rewrite length_alter, E. done.
Qed.

Lemma SignatureHash_set code s tx nIn ht : SignatureHash code (set_scriptSig nIn s tx) nIn ht = SignatureHash code tx nIn ht.
Proof. unfold SignatureHash, signature_preimage, set_scriptSig. by rewrite signed_tx_scriptSig. Qed.

Lemma set_scriptSig_twice nIn s s' tx : set_scriptSig nIn s (set_scriptSig nIn s' tx) = set_scriptSig nIn s tx.
Proof.
  unfold set_scriptSig. cbn [vin with_vin]. by rewrite list_alter_alter_eq.
Qed.

Lemma checker_checks p tx nIn ht s :
  hash_type_ok ht -> checks (checker (set_scriptSig nIn s tx) nIn 0) p (SignatureHash (payee_script p) tx nIn ht) ht.
Proof.
  intros _ vchSig pub. unfold checker, split_sig. rewrite last_snoc. cbn [Z.eqb]. rewrite removelast_last.
  by rewrite SignatureHash_set.
Qed.

Lemma len_PushAll vs : Forall (fun v => len v <= 73) vs -> len (PushAll vs) <= 78 * len vs.
Proof.
  induction 1 as [|v vs Hv Hvs IH]; [done|]. unfold PushAll in *. cbn [map concat]. pose proof (len_push_data_le v). lens. lia.
Qed.

Lemma sizes_520 vs : Forall (fun v : bytes => len v <= 73) vs -> Forall (fun v => len v <= 520) vs.
Proof. intros Hvs. eapply Forall_impl; [exact Hvs|]. cbn. lia. Qed.

Lemma payee_not_script_hash p : payee_ok p -> IsPayToScriptHash (payee_script p) = false.
Proof.
  intros Hp. pose proof (solver_payee p Hp) as E. unfold Solver in E. destruct (IsPayToScriptHash _); [|done]. by destruct p.
Qed.

Lemma script_hash_size s : len (Hash160 s) = 20.
Proof. unfold Hash160. destruct (ripemd160_size (uint256_bytes (sha256_once s))) as [Hl _]. unfold len. by rewrite Hl. Qed.

(** C14. What a store calls its own it can spend. Let the store be sound: the keys and
    public keys it has belong to their addresses, the scripts to their hashes. For an
    output to a canonical public key, to a hash of 20 bytes or to some of at most 16
    canonical keys, directly or by the hash of that script of at most 520 bytes, which
    [IsMine] accepts, [SignSignature] with the hash type for all, none or a single
    output, for an input the transaction has, makes a signature script that
    [VerifyScript] accepts, whatever is drawn at random; unless the store has another
    key or script with the hash of one of the output's, or the signature is itself the
    hash that is paid to. *)
Theorem mine_is_spendable fuel rnd keystore o tx nIn nHashType :
  sound_store keystore -> output_ok o -> 0 <= nIn < len (vin tx) -> hash_type_ok nHashType ->
  IsMine fuel keystore (output_script o) = Some true ->
  (exists s, SignSignature rnd keystore (output_script o) tx nIn nHashType = Some (set_scriptSig nIn s tx, true) /\
     @VerifyScript _ _ _ (checker (set_scriptSig nIn s tx) nIn 0) s (output_script o) = Some true) \/
  collision keystore o \/ signs_own_hash rnd keystore o tx nIn nHashType.
Proof.
  intros Hs [Hp Hsize] Hn Hht Hmine. destruct fuel as [|fuel]; [done|].
  unfold collision, signs_own_hash. destruct o as [p|p]; cbn [payee_of output_script] in *.
  - rewrite IsMine_payee in Hmine by done. injection Hmine as Hown.
    destruct (own_spends keystore p (SignatureHash (payee_script p) tx nIn nHashType) nHashType rnd Hp Hht Hs Hown)
      as [(vs & Hsolve & Hvs & Hlvs & Heval)|[Hcol|Hh]]; [left|by right; left; left|by right; right].
    exists (PushAll vs). pose proof (len_PushAll vs Hvs).
    assert (@VerifyScript _ _ _ (checker (set_scriptSig nIn (PushAll vs) tx) nIn 0) (PushAll vs) (payee_script p) = Some true) as Hv.
    { unfold VerifyScript. rewrite eval_push_all; [|by apply sizes_520|rewrite len_nil; lia|lia]. cbn [negb].
      rewrite Heval by (try apply checker_checks; done). cbn [negb]. change (CastToBool vchTrue) with true. cbn [negb].
      by rewrite payee_not_script_hash. }
    split; [|exact Hv]. unfold SignSignature. destruct (Z.leb_spec (len (vin tx)) nIn); [lia|]. rewrite Hsolve. cbn [negb].
    destruct (decide (type_of p = TX_SCRIPTHASH)) as [E|_]; [by destruct p|]. by rewrite Hv.
  - set (h := Hash160 (payee_script p)) in *. pose proof (script_hash_size (payee_script p)) as Hh. fold h in Hh.
    pose proof (solver_script_hash h Hh) as Hsol. cbn [SetDestination fst] in *. cbn [IsMine] in Hmine.
    rewrite Hsol in Hmine. cbn [negb hd] in Hmine.
    destruct (GetCScript keystore h) as [sub|] eqn:Esub; [|done].
    destruct (decide (sub = payee_script p)) as [->|Hne]; [|by right; left; right; exists sub].
    destruct fuel as [|fuel]; [done|]. rewrite IsMine_payee in Hmine by done. injection Hmine as Hown.
    destruct (own_spends keystore p (SignatureHash (payee_script p) tx nIn nHashType) nHashType rnd Hp Hht Hs Hown)
      as [(vs & Hsolve & Hvs & Hlvs & Heval)|[Hcol|Hx]]; [left|by right; left; left|by right; right].
    exists (PushAll (vs ++ [payee_script p])). pose proof (len_PushAll vs Hvs). pose proof (len_push_data_le (payee_script p)).
    assert (PushAll vs ++ push_data (payee_script p) = PushAll (vs ++ [payee_script p])) as Epush
      by (rewrite PushAll_app; unfold PushAll; cbn [map concat]; by rewrite app_nil_r).
    assert (len (PushAll (vs ++ [payee_script p])) <= 10000) as Hlen by (rewrite <-Epush, len_app; lia).
    set (s' := PushAll (vs ++ [payee_script p])) in *.
    assert (@VerifyScript _ _ _ (checker (set_scriptSig nIn s' tx) nIn 0) s' ([OP_HASH160] ++ push_hash h ++ [OP_EQUAL]) = Some true) as Hv.
    { pose proof (@verify_pay_to_script_hash _ _ _ (checker (set_scriptSig nIn s' tx) nIn 0) h vs (payee_script p) Hh) as E.
      cbn [SetDestination fst] in E. unfold s' in *. rewrite E; [|apply Forall_app; split; [by apply sizes_520|by repeat constructor]|lia|exact Hlen].
      unfold vch_eq. fold h. rewrite bool_decide_eq_true_2 by done. rewrite <-(app_nil_r (rev vs)).
      rewrite Heval by (try apply checker_checks; done). done. }
    split; [|exact Hv]. unfold SignSignature. destruct (Z.leb_spec (len (vin tx)) nIn); [lia|].
    unfold SolverSign at 1. rewrite Hsol. cbn [negb hd]. rewrite Esub. cbn [negb].
    destruct (decide (TX_SCRIPTHASH = TX_SCRIPTHASH)) as [_|]; [|done]. rewrite SignatureHash_set, Hsolve.
    rewrite bool_decide_eq_false_2 by by destruct p. cbn [negb andb]. rewrite Epush, set_scriptSig_twice. by rewrite Hv.
Qed.
End own.

(** ** Combining *)

Lemma vec_lt_total a b : vec_lt a b = false -> vec_lt b a = false -> a = b.
Proof.
  revert b. induction a as [|x a IH]; intros [|y b]; cbn [vec_lt]; try done.
  destruct (Z.ltb_spec x y), (Z.ltb_spec y x); try done. intros H1' H2'. f_equal; [lia|by apply IH].
Qed.

Lemma elem_of_sig_insert v x l : v ∈ sig_insert x l <-> v = x \/ v ∈ l.
Proof.
  induction l as [|y l IH]; cbn [sig_insert]; [by rewrite elem_of_cons|].
  destruct (vec_lt x y) eqn:E1; [by rewrite elem_of_cons|]. destruct (vec_lt y x) eqn:E2.
  - rewrite !elem_of_cons, IH. tauto.
  - apply vec_lt_total in E1; [|done]. subst y. rewrite elem_of_cons. tauto.
Qed.

Lemma elem_of_all_sigs v s1 s2 : v ∈ all_sigs s1 s2 <-> v ∈ s1 ++ s2 /\ v <> [].
Proof.
  unfold all_sigs. generalize (s1 ++ s2) as l. intros l.
  assert (forall acc, v ∈ fold_left (fun l v => match v with [] => l | _ => sig_insert v l end) l acc <->
    (v ∈ l /\ v <> []) \/ v ∈ acc) as Hgen.
  { induction l as [|x l IH]; intros acc; cbn [fold_left]; [set_solver|]. rewrite IH. destruct x as [|b x].
    - rewrite elem_of_cons. split; [set_solver|]. intros [[[-> | ?] ?]|?]; set_solver.
    - rewrite elem_of_sig_insert, elem_of_cons. split; [|set_solver]. intros [?|[->|?]]; [set_solver| |set_solver].
      left. by split; [left|]. }
  rewrite Hgen. set_solver.
Qed.

Section placing.
Variables (good : bytes -> bytes -> bool) (keys : list bytes).

(** Signatures are kept for keys they are good for, and a key that one is good for
    has one. *)
Definition placed (done_sigs : list bytes) (sigs : gmap bytes bytes) : Prop :=
  map_Forall (fun k v => k ∈ keys /\ good v k = true /\ v ∈ done_sigs) sigs /\
  forall v k, v ∈ done_sigs -> k ∈ keys -> good v k = true -> is_Some (sigs !! k).

Lemma place_sig_placed done_sigs sigs v :
  (forall k1 k2, k1 ∈ keys -> k2 ∈ keys -> good v k1 = true -> good v k2 = true -> k1 = k2) ->
  placed done_sigs sigs -> placed (done_sigs ++ [v]) (place_sig good keys sigs v).
Proof.
  intros Huniq [Hsigs Hdone]. unfold place_sig.
  assert (map_Forall (fun k v' => k ∈ keys /\ good v' k = true /\ v' ∈ done_sigs ++ [v]) sigs) as Hsigs'.
  { intros k v' Hk. destruct (Hsigs k v' Hk) as (? & ? & ?). split_and!; [done|done|]. apply elem_of_app. by left. }
  destruct (List.find _ keys) as [pub|] eqn:E.
  - apply List.find_some in E as [Hin%list_elem_of_In [_ Hg]%andb_true_iff]. split.
    + apply map_Forall_insert_2; [|done]. split_and!; [done|done|]. apply elem_of_app. right. by left.
    + intros v' k Hv' Hk Hgk. destruct (decide (k = pub)) as [->|Hne]; [rewrite lookup_insert_eq; by eexists|].
      rewrite lookup_insert_ne by done. apply elem_of_app in Hv' as [Hv'|Hv'%list_elem_of_singleton]; [by apply (Hdone v')|].
      subst v'. destruct Hne. by apply Huniq.
  - split; [done|]. intros v' k Hv' Hk Hgk. apply elem_of_app in Hv' as [Hv'|Hv'%list_elem_of_singleton]; [by apply (Hdone v')|].
    subst v'. pose proof (List.find_none _ _ E k (proj1 (list_elem_of_In _ _) Hk)) as Hn. cbv beta in Hn.
    rewrite Hgk, andb_true_r in Hn. by apply negb_false_iff, bool_decide_eq_true in Hn.
Qed.

Lemma place_all l :
  Forall (fun v => forall k1 k2, k1 ∈ keys -> k2 ∈ keys -> good v k1 = true -> good v k2 = true -> k1 = k2) l ->
  placed l (fold_left (place_sig good keys) l ∅).
Proof.
  intros Huniq. assert (placed [] ∅) as Hempty by (split; [apply map_Forall_empty|set_solver]).
  change l with ([] ++ l) at 1. revert Hempty. generalize (∅ : gmap bytes bytes) as sigs. generalize (@nil bytes) as d.
  induction Huniq as [|v l Hv Hl IH]; intros d sigs Hd; cbn [fold_left]; [by rewrite app_nil_r|].
  replace (d ++ v :: l) with ((d ++ [v]) ++ l) by by rewrite <-app_assoc. apply IH. by apply place_sig_placed.
Qed.
End placing.

Lemma pick_sigs_spec sigs keys required :
  exists ks, ks `sublist_of` keys /\ Forall2 (fun v k => sigs !! k = Some v) (pick_sigs sigs keys required) ks /\
    length (pick_sigs sigs keys required) =
      Nat.min required (length (List.filter (fun k => bool_decide (is_Some (sigs !! k))) keys)).
Proof.
  revert required. induction keys as [|k keys IH]; intros required; cbn [pick_sigs].
  { exists []. split_and!; [done|constructor|cbn; lia]. }
  destruct required as [|required].
  { exists []. split_and!; [apply sublist_nil_l|constructor|done]. }
  cbn [List.filter]. destruct (sigs !! k) as [v|] eqn:Ek.
  - rewrite bool_decide_eq_true_2 by by eexists. destruct (IH required) as (ks & Hks & Hf & Hl).
    exists (k :: ks). split_and!; [by apply sublist_skip|by constructor|]. cbn [length]. rewrite Hl. lia.
  - rewrite bool_decide_eq_false_2 by by intros [? ?]. destruct (IH (S required)) as (ks & Hks & Hf & Hl).
    exists ks. split_and!; [by apply sublist_cons|done|done].
Qed.

Lemma canonical_signature_head v : IsCanonicalSignature v = true -> at_ 0 v 0 = 0x30.
Proof.
  unfold IsCanonicalSignature. intros Hc. repeat (case_match; [done|]). 
  match goal with E : negb (at_ 0 v 0 =? 48) = false |- _ => apply negb_false_iff in E; lia end.
Qed.

Lemma filter_more {A} (f g : A -> bool) l :
  Forall (fun k => f k = true -> g k = true) l -> (length (List.filter f l) <= length (List.filter g l))%nat.
Proof.
  induction 1 as [|k l Hk Hl IH]; [done|]. cbn [List.filter].
  destruct (f k); [rewrite Hk by done|destruct (g k)]; cbn [length]; lia.
Qed.

Lemma combine_stacks_multisig `{OpenSSLBN} `{Sha256} `{ScriptHashes} `{OpenSSLEC} code tx nIn sols s1 s2 :
  combine_stacks code tx nIn TX_MULTISIG sols s1 s2 = CombineMultisig code tx nIn sols (rev s1) (rev s2).
Proof. by destruct s1, s2. Qed.

Lemma combine_stacks_hash `{OpenSSLBN} `{Sha256} `{ScriptHashes} `{OpenSSLEC} code tx nIn sols spk s1 s2 :
  spk <> [] ->
  combine_stacks code tx nIn TX_SCRIPTHASH sols (spk :: s1) (spk :: s2) =
    (let '(_, t, sols) := Solver spk in combine_stacks spk tx nIn t sols s1 s2 ++ push_data spk).
Proof. by destruct spk. Qed.

Section combine.
Context `{BNLaws} `{HashLaws} `{OpenSSLEC}.
Variables (tx : CTransaction) (nIn m : Z) (keys : list bytes).
Let p := PayMultisig m keys.
Let code := payee_script p.
Let good (v k : bytes) : bool := checker tx nIn 0 v k code.

(** The signers' values: empty or canonical signatures, none good for two keys, and
    together good for as many keys as are required. *)
Record signers (sigs1 sigs2 : list bytes) : Prop := {
  sig_ok : Forall (fun v => v = [] \/ IsCanonicalSignature v = true) (sigs1 ++ sigs2);
  sig_one_key : Forall (fun v => forall k1 k2, k1 ∈ keys -> k2 ∈ keys -> good v k1 = true -> good v k2 = true -> k1 = k2)
    (sigs1 ++ sigs2);
  sig_enough : m <= len (List.filter (fun k => existsb (fun v => good v k) (sigs1 ++ sigs2)) keys);
  sig_few : len sigs1 <= 20 /\ len sigs2 <= 20
}.

Hypothesis Hp : payee_ok p.

Lemma combined_values e1 e2 sigs1 sigs2 :
  signers sigs1 sigs2 -> e1 = [] -> e2 = [] ->
  exists have ks, CombineMultisig code tx nIn (solutions p) (e1 :: sigs1) (e2 :: sigs2) = PushAll ([] :: have) /\ len have = m /\
    Forall (fun v => IsCanonicalSignature v = true) have /\ ks `sublist_of` keys /\ Forall2 (fun v k => good v k = true) have ks.
Proof.
  intros [Hok Hone Hen _] -> ->. pose proof Hp as (Hm & Hn & _). unfold CombineMultisig, p, solutions. rewrite multisig_keys. cbn [hd].
  change (at_ 0 [m] 0) with m. fold good.
  assert (forall v, v ∈ all_sigs ([] :: sigs1) ([] :: sigs2) <-> v ∈ sigs1 ++ sigs2 /\ v <> []) as Hall.
  { intros v. rewrite elem_of_all_sigs. cbn [app]. rewrite elem_of_cons, !elem_of_app, elem_of_cons. tauto. }
  set (l := all_sigs ([] :: sigs1) ([] :: sigs2)) in *.
  assert (placed good keys l (fold_left (place_sig good keys) l ∅)) as [Hsigs Hdone].
  { apply place_all, Forall_forall. intros v [Hv _]%Hall. rewrite Forall_forall in Hone. by apply Hone. }
  set (sigs := fold_left (place_sig good keys) l ∅) in *.
  destruct (pick_sigs_spec sigs keys (Z.to_nat m)) as (ks & Hks & Hf & Hlen).
  assert (length (pick_sigs sigs keys (Z.to_nat m)) = Z.to_nat m) as Hfull.
  { rewrite Hlen. apply Nat.min_l. unfold len in Hen.
    assert (length (List.filter (fun k => existsb (fun v => good v k) (sigs1 ++ sigs2)) keys) <=
      length (List.filter (fun k => bool_decide (is_Some (sigs !! k))) keys))%nat; [|lia].
    apply filter_more, Forall_forall. intros k Hk (v & Hv%list_elem_of_In & Hg)%existsb_exists. apply bool_decide_eq_true.
    apply (Hdone v k); [|done|done]. apply Hall. split; [done|]. by intros ->. }
  exists (pick_sigs sigs keys (Z.to_nat m)), ks. rewrite Hfull, Nat.sub_diag. split_and!; [|unfold len; lia| |done|].
  - unfold PushAll. cbn [replicate map concat app]. by rewrite app_nil_r.
  - clear -Hf Hsigs Hall Hok. rewrite Forall_forall in Hok. induction Hf as [|v k vs ks Hv Hf IH]; [constructor|]. constructor; [|done].
    destruct (Hsigs k v Hv) as (_ & _ & [Hin Hne]%Hall). by destruct (Hok v Hin).
  - clear -Hf Hsigs. induction Hf as [|v k vs ks Hv Hf IH]; [constructor|]. constructor; [|done]. by destruct (Hsigs k v Hv) as (_ & ? & _).
Qed.

Lemma combined_eval have ks s :
  len have = m -> Forall (fun v => IsCanonicalSignature v = true) have -> ks `sublist_of` keys ->
  Forall2 (fun v k => good v k = true) have ks -> len s <= 800 ->
  @EvalScript _ _ _ (checker tx nIn 0) (rev ([] :: have) ++ s) code = (vchTrue :: s, true).
Proof.
  intros Hl Hc Hks Hf Hs. pose proof Hp as (Hm & Hn & Hcan). cbn [rev]. rewrite <-app_assoc. cbn [app].
  unfold code, p. cbn [payee_script]. rewrite eval_multisig by (done || lia || by apply canonical_sizes).
  change (SetMultisig m keys) with (payee_script (PayMultisig m keys)). rewrite strip_absent; [|done|done|].
  2: { apply Forall_rev. eapply Forall_impl; [exact Hc|]. intros v Hv. split; [by apply canonical_signature_head|].
       apply canonical_signature_size in Hv. lia. }
  assert (@multisig (checker tx nIn 0) (payee_script (PayMultisig m keys)) (rev keys) (rev have) = true) as ->; [|done].
  pose proof (Forall2_length _ _ _ Hf) as Hlf. pose proof (sublist_length _ _ Hks).
  apply multisig_matches; [rewrite !length_rev; lia|]. exists (rev ks). split.
  - clear -Hks. induction Hks as [|x l1 l2 Hl IH|x l1 l2 Hl IH]; [done|..]; cbn [rev].
    + by apply sublist_app.
    + by apply sublist_inserts_r.
  - apply Forall2_rev_both. assert (Forall (fun k => IsCanonicalPubKey k = true) ks) as Hck
      by (clear -Hks Hcan; induction Hks; repeat match goal with Hc : Forall _ (_ :: _) |- _ => apply Forall_cons in Hc as [? ?] end; auto).
    clear -Hf Hc Hck. induction Hf as [|v k vs ks Hv Hf IH]; [constructor|].
    apply Forall_cons in Hc as [Hcv Hc]. apply Forall_cons in Hck as [Hk Hck]. constructor; [|by apply IH].
    unfold check_one. rewrite Hcv, Hk. exact Hv.
Qed.

(** The signature script of a signer. *)
Definition signer_script (o : output) (sigs : list bytes) : bytes :=
  PushAll ([] :: sigs ++ match o with Direct _ => [] | Hashed p => [payee_script p] end).

Lemma signer_stack (chk : SigChecker) o sigs :
  output_ok o -> Forall (fun v => len v <= 73) sigs -> len sigs <= 20 ->
  @EvalScript _ _ _ chk [] (signer_script o sigs) =
    (match o with Direct _ => rev ([] :: sigs) | Hashed p => payee_script p :: rev ([] :: sigs) end, true) /\
  len (signer_script o sigs) <= 10000.
Proof.
  intros [_ Ho] Hs Hl. unfold signer_script. pose proof (len_PushAll ([] :: sigs) ltac:(by constructor)) as Hlen. rewrite len_cons in Hlen.
  destruct o as [q|q].
  - rewrite app_nil_r. split; [|lia]. rewrite eval_push_all, app_nil_r; [done|constructor; [done|by apply sizes_520]|rewrite len_nil, len_cons; lia|lia].
  - pose proof (len_push_data_le (payee_script q)).
    assert (len (PushAll (([] :: sigs) ++ [payee_script q])) <= 10000) as Hbound.
    { rewrite PushAll_app, len_app. unfold PushAll at 2. cbn [map concat]. rewrite app_nil_r. lia. }
    split; [|exact Hbound]. change ([] :: sigs ++ [payee_script q]) with (([] :: sigs) ++ [payee_script q]).
    rewrite eval_push_all, app_nil_r, rev_app_distr; [done| |lens; lia|exact Hbound].
    apply Forall_app. split; [constructor; [done|by apply sizes_520]|by repeat constructor].
Qed.

Lemma sig_sizes l : Forall (fun v => v = [] \/ IsCanonicalSignature v = true) l -> Forall (fun v => len v <= 73) l.
Proof.
  intros Hl. eapply Forall_impl; [exact Hl|]. intros v [->|Hv]; [by vm_compute|]. apply canonical_signature_size in Hv. lia.
Qed.

(** C15. Signers complete each other's work. Let an output pay to some of at most 16
    canonical keys, directly or by the hash of that script of at most 520 bytes, and let
    two signature scripts for it hold at most 20 values each, empty or canonical
    signatures, none good for two of the keys, and together good for as many keys as are
    required. The script that [CombineSignatures] makes of the two spends the output, in
    whatever order the signatures were made and however they are spread. *)
Theorem combine_completes now o sigs1 sigs2 :
  payee_of o = p -> output_ok o -> signers sigs1 sigs2 ->
  @VerifyScript _ _ _ (checker tx nIn 0)
    (CombineSignatures now (output_script o) tx nIn (signer_script o sigs1) (signer_script o sigs2)) (output_script o) = Some true.
Proof.
  intros Ep Ho Hsig. pose proof Hsig as [Hok _ _ [Hl1 Hl2]]. apply sig_sizes, Forall_app in Hok as [Hs1 Hs2].
  destruct (combined_values [] [] sigs1 sigs2 Hsig eq_refl eq_refl) as (have & ks & Ec & Hlen & Hcan & Hks & Hf).
  pose proof Hp as (Hm & Hn & _).
  assert (Forall (fun v => len v <= 73) ([] :: have)) as Hsz by (constructor; [by vm_compute|]; apply sig_sizes; eapply Forall_impl; [exact Hcan|by right]).
  assert (len ([] :: have) <= 20) as Hl20 by (rewrite len_cons; lia). pose proof (len_PushAll _ Hsz) as Hpl.
  unfold CombineSignatures. rewrite (proj1 (signer_stack _ o sigs1 Ho Hs1 Hl1)), (proj1 (signer_stack _ o sigs2 Ho Hs2 Hl2)). cbn [fst].
  destruct o as [q|q]; cbn [payee_of] in Ep; subst q; cbn [output_script].
  - rewrite (solver_payee p Hp). change (type_of p) with TX_MULTISIG. rewrite combine_stacks_multisig, !rev_involutive. fold code p. rewrite Ec.
    unfold VerifyScript. rewrite eval_push_all; [|by apply sizes_520|rewrite len_nil; lia|lia]. cbn [negb].
    rewrite (combined_eval have ks []) by (done || by vm_compute). cbn [negb]. change (CastToBool vchTrue) with true. cbn [negb].
    unfold code. by rewrite payee_not_script_hash.
  - destruct Ho as [_ Hsize]. fold p code in Hsize. fold code. set (h := Hash160 code). pose proof (script_hash_size code) as Hh. fold h in Hh.
    pose proof (solver_script_hash h Hh) as Hsol. cbn [SetDestination fst]. rewrite Hsol, combine_stacks_hash by done.
    pose proof (solver_payee p Hp) as Esol. fold code in Esol. rewrite Esol. change (type_of p) with TX_MULTISIG.
    rewrite combine_stacks_multisig, !rev_involutive. fold p. rewrite Ec.
    assert (PushAll ([] :: have) ++ push_data code = PushAll (([] :: have) ++ [code])) as ->
      by (rewrite (PushAll_app ([] :: have)); f_equal; unfold PushAll; cbn [map concat]; by rewrite app_nil_r).
    pose proof (@verify_pay_to_script_hash _ _ _ (checker tx nIn 0) h ([] :: have) code Hh) as E. cbn [SetDestination fst] in E.
    pose proof (len_push_data_le code). rewrite E.
    + unfold vch_eq. fold h. rewrite bool_decide_eq_true_2 by done. rewrite <-(app_nil_r (rev ([] :: have))).
      by rewrite (combined_eval have ks []) by (done || by vm_compute).
    + apply Forall_app. split; [by apply sizes_520|by repeat constructor].
    + lia.
    + rewrite PushAll_app, len_app. unfold PushAll at 2. cbn [map concat]. rewrite app_nil_r. lia.
Qed.
End combine.

(** ** The encrypted store keeps the promise *)

Section promise.
Context `{Sha256} `{ScriptHashes} `{KeysLaws} `{EVPLaws}.

Lemma run_scripts evs v :
  map_Forall (fun h s => Hash160 s = h) (v_scripts v) -> map_Forall (fun h s => Hash160 s = h) (v_scripts (run vault_step evs v).1).
Proof.
  revert v. induction evs as [|e evs IH]; intros v Hv; [done|]. cbn [run].
  destruct (vault_step e v) as [v1 b] eqn:E. specialize (IH v1). destruct (run vault_step evs v1). apply IH.
  destruct e; cbn [vault_step] in E; repeat case_match; injection E as <- _; cbn [v_scripts with_phase]; try done.
  all: by apply map_Forall_insert_2.
Qed.

Lemma unlocked_sound evs :
  Forall event_ok evs -> v_phase (run vault_step evs empty_vault).1 <> Locked -> ~ wrong_key_opens evs ->
  sound_store (run store_step evs no_keys).1.
Proof.
  intros Hevs Hp Hno. destruct (related_run evs _ _ Hevs related_empty) as [[Hrel _]|Hwrong]; [|by destruct Hno].
  pose proof (rel_keys _ _ Hrel) as Hkeys. pose proof (related_shows _ _ Hrel) as Hshows.
  assert (map_Forall (fun h s => Hash160 s = h) (v_scripts (run vault_step evs empty_vault).1)) as Hscripts by by apply run_scripts.
  split.
  - intros a Ha. rewrite (shows_have _ _ Hshows) in Ha. apply bool_decide_eq_true in Ha as [[secret c] Hk].
    destruct (Hkeys _ _ Hk) as (_ & _ & Hd & Hid). exists (be_value secret), c. split; [done|].
    rewrite (shows_key _ _ Hshows), (shows_pub _ _ Hshows), Hk. split_and!; [|done|done].
    destruct (v_phase (run vault_step evs empty_vault).1); done.
  - intros h s Hh. rewrite (shows_script _ _ Hshows) in Hh. by apply Hscripts in Hh.
Qed.
End promise.

(** ** Instances *)

#[local] Existing Instance z_bn.
#[local] Existing Instance z_bn_laws.
#[local] Existing Instance toy_point.
#[local] Existing Instance toy_keys.
#[local] Existing Instance toy_keys_laws.
#[local] Existing Instance toy_hashes.
#[local] Instance toy_sha_signing : Sha256 := toy_sha256.
#[local] Existing Instance toy_hash_laws.
#[local] Existing Instance toy_evp.
#[local] Existing Instance toy_evp_laws.

(** Two of three keys of a store, by the hash of the script, which the store knows. *)
Definition toy_pub (n : Z) : bytes := pub_of n true.
Definition toy_payee : payee := PayMultisig 2 [toy_pub 7; toy_pub 8; toy_pub 9].
Definition toy_signer : list event :=
  [EvAddKey (toy_secret 7) true; EvAddKey (toy_secret 8) true; EvAddKey (toy_secret 9) true;
   EvAddCScript (payee_script toy_payee)].
Definition toy_store : CCryptoKeyStore := (run store_step toy_signer no_keys).1.

Lemma toy_signer_ok : Forall event_ok toy_signer.
Proof. repeat (constructor; [first [by apply toy_secret_ok | done]|]). constructor. Qed.

Lemma toy_store_sound : sound_store toy_store.
Proof.
  apply unlocked_sound; [exact toy_signer_ok|by vm_compute|].
  intros (evs1 & m & evs2 & E & _). do 4 (destruct evs1 as [|? evs1]; [discriminate E|]; injection E as _ E).
  destruct evs1; discriminate E.
Qed.

Lemma toy_no_collision : ~ collision toy_store (Hashed toy_payee).
Proof.
  intros [(pub & pub' & Hin & Hp & Hne)|(s & Hs & Hne)].
  - assert (Forall (fun pub => GetPubKeyOf toy_store (GetID pub) = Some pub) (keys_of toy_payee)) as Hall
      by (repeat (constructor; [vm_compute; reflexivity|]); constructor).
    rewrite Forall_forall in Hall. rewrite (Hall _ Hin) in Hp. by injection Hp.
  - assert (GetCScript toy_store (Hash160 (payee_script toy_payee)) = Some (payee_script toy_payee)) as E by (vm_compute; reflexivity).
    rewrite E in Hs. by injection Hs.
Qed.

Lemma mine_is_spendable_witness :
  exists s, SignSignature (fun i => Z.of_nat i) toy_store (output_script (Hashed toy_payee)) sample_tx 0 SIGHASH_ALL =
    Some (set_scriptSig 0 s sample_tx, true).
Proof.
  destruct (mine_is_spendable 2 (fun i => Z.of_nat i) toy_store (Hashed toy_payee) sample_tx 0 SIGHASH_ALL) as [(s & Hs & _)|[Hc|Hh]].
  - exact toy_store_sound.
  - split; [|by vm_compute]. split_and!; [by vm_compute|by vm_compute|by vm_compute|].
    repeat (constructor; [vm_compute; reflexivity|]). constructor.
  - by vm_compute.
  - split; [by vm_compute|]. split; by vm_compute.
  - vm_compute. reflexivity.
  - exists s. exact Hs.
  - destruct (toy_no_collision Hc).
  - destruct Hh.
Defined.

(** The first and the third key of [toy_payee] sign apart from each other. *)
Definition toy_value (n : Z) : bytes :=
  default [] (Sign 5 (SignatureHash (payee_script toy_payee) sample_tx 0 SIGHASH_ALL) (plain_key n true)) ++ [SIGHASH_ALL].

Definition one_key (tx : CTransaction) (nIn m : Z) (keys sigs : list bytes) : bool :=
  forallb (fun v => forallb (fun k1 => forallb (fun k2 =>
    let good k := checker tx nIn 0 v k (payee_script (PayMultisig m keys)) in
    implb (good k1 && good k2) (bool_decide (k1 = k2))) keys) keys) sigs.

Lemma one_key_sound tx nIn m keys sigs :
  one_key tx nIn m keys sigs = true ->
  Forall (fun v => forall k1 k2, k1 ∈ keys -> k2 ∈ keys -> checker tx nIn 0 v k1 (payee_script (PayMultisig m keys)) = true ->
    checker tx nIn 0 v k2 (payee_script (PayMultisig m keys)) = true -> k1 = k2) sigs.
Proof.
  unfold one_key. intros Hone. rewrite forallb_forall in Hone. apply Forall_forall. intros v Hv%list_elem_of_In k1 k2 Hk1 Hk2 Hg1 Hg2.
  specialize (Hone v Hv). rewrite forallb_forall in Hone. specialize (Hone k1 (proj1 (list_elem_of_In _ _) Hk1)). cbv beta in Hone.
  rewrite forallb_forall in Hone. specialize (Hone k2 (proj1 (list_elem_of_In _ _) Hk2)). cbv beta zeta in Hone.
  rewrite Hg1, Hg2 in Hone. by apply bool_decide_eq_true in Hone.
Qed.

Lemma toy_signers : signers sample_tx 0 2 [toy_pub 7; toy_pub 8; toy_pub 9] [toy_value 9] [toy_value 7].
Proof.
  split.
  - repeat (constructor; [right; vm_compute; reflexivity|]). constructor.
  - apply one_key_sound. vm_compute. reflexivity.
  - vm_compute. discriminate.
  - split; vm_compute; discriminate.
Qed.

Lemma combine_completes_witness :
  @VerifyScript _ _ _ (checker sample_tx 0 0)
    (CombineSignatures 0 (output_script (Hashed toy_payee)) sample_tx 0 (signer_script (Hashed toy_payee) [toy_value 9])
      (signer_script (Hashed toy_payee) [toy_value 7])) (output_script (Hashed toy_payee)) = Some true.
Proof.
  assert (payee_ok toy_payee) as Hp.
  { split_and!; [by vm_compute|by vm_compute|by vm_compute|]. repeat (constructor; [vm_compute; reflexivity|]). constructor. }
  apply (combine_completes sample_tx 0 2 [toy_pub 7; toy_pub 8; toy_pub 9] Hp 0 (Hashed toy_payee)).
  - reflexivity.
  - split; [exact Hp|by vm_compute].
  - exact toy_signers.
Defined.

(** An output to the hash of a script that pays to the hash of a script is counted as
    the store's own and cannot be signed. *)
Definition nested_script : bytes := output_script (Hashed toy_payee).
Definition nested_store : CCryptoKeyStore :=
  (run store_step (toy_signer ++ [EvAddCScript nested_script]) no_keys).1.

Example nested_script_hash_not_signed :
  let script := (SetDestination (CScriptID (Hash160 nested_script))).1 in
  IsMine 3 nested_store script = Some true /\
  match SignSignature (fun i => Z.of_nat i) nested_store script sample_tx 0 SIGHASH_ALL with Some (_, ok) => ok = false | None => False end.
Proof. vm_compute. split; reflexivity. Qed.

End Signing.
