(* ===== verification/Translation.v ===== *)
(** * Translation catalogues ([src/qt/locale/], [src/qt/bitcoin.cpp])

    The elements of a catalogue file, what the program does with a translated
    text, and the conditions a translation must meet for that to be sound: the
    node hands translations to [vsnprintf] as formats, the wallet window fills in
    numbered markers and shows rich text. *)

From stdpp Require Import strings.
From Stdlib Require Import Ascii.
From S2P Require Import Prelude.

Module Translation.
Open Scope string_scope.

(** ** The elements of a catalogue *)

(** [<location filename="..." line="+n"/>]; without a file it is the file of the
    location before. *)
Record Location := { l_filename : option string; l_line : Z }.

(** [<translation>], with one text or a form for each plural class. *)
Inductive TranslationText :=
| Text (t : string)
| NumerusForms (forms : list string).

Record Message := {
  m_numerus : bool; m_locations : list Location; m_source : string;
  m_unfinished : bool; m_translation : TranslationText }.

Record Context := { c_name : string; c_messages : list Message }.
Record TS := { language : string; version : string; contexts : list Context }.

(** Two blanks of the texts, by their UTF-8 bytes: U+3000 and U+00A0. *)
Definition utf8 (codes : list nat) : string := String.string_of_list_ascii (map ascii_of_nat codes).
Definition ideographic_space : string := Eval cbv in utf8 [227; 128; 128]%nat.
Definition no_break_space : string := Eval cbv in utf8 [194; 160]%nat.

Definition file (f : string) (n : Z) : Location := {| l_filename := Some f; l_line := n |}.
Definition line (n : Z) : Location := {| l_filename := None; l_line := n |}.

Definition message (locations : list Location) (source text : string) : Message :=
  {| m_numerus := false; m_locations := locations; m_source := source;
     m_unfinished := false; m_translation := Text text |}.
(** [<translation type="unfinished"/>] *)
Definition unfinished (locations : list Location) (source : string) : Message :=
  {| m_numerus := false; m_locations := locations; m_source := source;
     m_unfinished := true; m_translation := Text EmptyString |}.
Definition forms (locations : list Location) (source : string) (texts : list string) : Message :=
  {| m_numerus := true; m_locations := locations; m_source := source;
     m_unfinished := false; m_translation := NumerusForms texts |}.
Definition unfinished_forms (locations : list Location) (source : string) (texts : list string) : Message :=
  {| m_numerus := true; m_locations := locations; m_source := source;
     m_unfinished := true; m_translation := NumerusForms texts |}.

(** ** Texts

    Texts are kept with the five predefined XML entities, as in the file. *)

Definition quote : ascii := Eval cbv in ascii_of_nat 34.

Definition entity (name : string) : option string :=
  if bool_decide (name = "lt") then Some "<"
  else if bool_decide (name = "gt") then Some ">"
  else if bool_decide (name = "amp") then Some "&"
  else if bool_decide (name = "quot") then Some (String quote EmptyString)
  else if bool_decide (name = "apos") then Some "'"
  else None.

(** [name] is the entity name read since an ampersand. *)
Fixpoint unescape_from (name : option string) (s : string) : option string :=
  match s, name with
  | EmptyString, None => Some EmptyString
  | EmptyString, Some _ => None
  | String c s', None =>
    if (c =? "&"%char)%char then unescape_from (Some EmptyString) s'
    else match unescape_from None s' with Some r => Some (String c r) | None => None end
  | String c s', Some n =>
    if (c =? ";"%char)%char then
      match entity n, unescape_from None s' with Some e, Some r => Some (e +:+ r) | _, _ => None end
    else unescape_from (Some (n +:+ String c EmptyString)) s'
  end.
Definition unescape (s : string) : option string := unescape_from None s.

Definition escape_char (c : ascii) : string :=
  if (c =? "<"%char)%char then "&lt;"
  else if (c =? ">"%char)%char then "&gt;"
  else if (c =? "&"%char)%char then "&amp;"
  else if (c =? quote)%char then "&quot;"
  else if (c =? "'"%char)%char then "&apos;"
  else String c EmptyString.
Fixpoint escape (s : string) : string :=
  match s with EmptyString => EmptyString | String c s' => escape_char c +:+ escape s' end.

Definition texts (m : Message) : list string :=
  match m_translation m with Text t => [t] | NumerusForms fs => fs end.
(** The texts that replace the source: the empty ones do not. *)
Definition used_texts (m : Message) : list string :=
  List.filter (fun t => negb (bool_decide (t = EmptyString))) (texts m).

(** ** Formats

    The conversion specifications [vsnprintf] reads in a format: a percent sign,
    flags, width, precision and length, up to the conversion character. *)

Definition spec_chars : string := "-+ #0123456789.*'hlLqjzt".
Definition in_spec (c : ascii) : bool := existsb (fun d => (d =? c)%char) (String.list_ascii_of_string spec_chars).

Fixpoint conversions_from (spec : option string) (s : string) : list string :=
  match s, spec with
  | EmptyString, None => []
  | EmptyString, Some a => [a]
  | String c s', None =>
    if (c =? "%"%char)%char then conversions_from (Some "%") s' else conversions_from None s'
  | String c s', Some a =>
    if in_spec c then conversions_from (Some (a +:+ String c EmptyString)) s'
    else (a +:+ String c EmptyString) :: conversions_from None s'
  end.

(** The specifications that consume an argument. *)
Definition arguments (s : string) : list string :=
  List.filter (fun a => negb (bool_decide (a = "%%"))) (conversions_from None s).

(** ** Place markers

    The markers [QString::arg] fills in, [%1] to [%99] or with an [L], and [%n]. *)

Definition is_digit (c : ascii) : bool :=
  let n := Ascii.nat_of_ascii c in (48 <=? n)%nat && (n <=? 57)%nat.

(** [mark] is what was read of a marker: nothing, the percent sign, one digit. *)
Inductive mark := NoMark | Percent | Digit (d : ascii).

Fixpoint markers_from (m : mark) (s : string) : list string :=
  match s, m with
  | EmptyString, Digit d => [String d EmptyString]
  | EmptyString, _ => []
  | String c s', NoMark => if (c =? "%"%char)%char then markers_from Percent s' else markers_from NoMark s'
  | String c s', Percent =>
    if (c =? "L"%char)%char then markers_from Percent s'
    else if (c =? "n"%char)%char then "n" :: markers_from NoMark s'
    else if is_digit c then markers_from (Digit c) s'
    else if (c =? "%"%char)%char then markers_from Percent s'
    else markers_from NoMark s'
  | String c s', Digit d =>
    if is_digit c then String d (String c EmptyString) :: markers_from NoMark s'
    else String d EmptyString ::
      (if (c =? "%"%char)%char then markers_from Percent s' else markers_from NoMark s')
  end.
Definition markers (s : string) : list string := markers_from NoMark s.
Definition same_markers (a b : string) : bool :=
  forallb (fun x => bool_decide (x ∈ markers b)) (markers a) &&
  forallb (fun x => bool_decide (x ∈ markers a)) (markers b).

(** ** Rich text *)

Inductive tag := Open (name : string) | Close (name : string) | Void.

Definition tag_of (s : string) : tag :=
  match s with
  | String "/" n => Close n
  | _ => if bool_decide (s = "br") || bool_decide (s = "br/") then Void else Open s
  end.

Fixpoint tags_from (inside : option string) (s : string) : list tag :=
  match s, inside with
  | EmptyString, _ => []
  | String c s', None => if (c =? "<"%char)%char then tags_from (Some EmptyString) s' else tags_from None s'
  | String c s', Some a =>
    if (c =? ">"%char)%char then tag_of a :: tags_from None s'
    else tags_from (Some (a +:+ String c EmptyString)) s'
  end.

(** Every element is closed by its own tag; [stack] holds the open ones. *)
Fixpoint balanced_from (stack : list string) (l : list tag) : bool :=
  match l with
  | [] => bool_decide (stack = [])
  | Open n :: l' => balanced_from (n :: stack) l'
  | Close n :: l' => match stack with m :: stack' => bool_decide (n = m) && balanced_from stack' l' | [] => false end
  | Void :: l' => balanced_from stack l'
  end.
Definition balanced (l : list tag) : bool := balanced_from [] l.

(** ** Checks over a catalogue *)

(** The node's own messages, translated by [_()]. *)
Definition core_context : string := "bitcoin-core".

(** The messages of the chosen contexts that have a text failing [ok], given the
    decoded source and text; a text that does not decode fails. *)
Definition failing (ctx : string -> bool) (ok : string -> string -> bool) (t : TS) : list (string * string) :=
  concat (map (fun c =>
    if ctx (c_name c) then
      map (fun m => (c_name c, m_source m))
        (List.filter (fun m => negb (forallb (fun x =>
           match unescape (m_source m), unescape x with Some s, Some y => ok s y | _, _ => false end) (used_texts m)))
           (c_messages c))
    else []) (contexts t)).

Definition is_core (c : string) : bool := bool_decide (c = core_context).
Definition bad_formats (t : TS) : list (string * string) :=
  failing is_core (fun s y => bool_decide (arguments y = arguments s)) t.

(** What identifies a message: its context and source, and where it is used. *)
Definition message_keys (t : TS) : list (string * string) :=
  concat (map (fun c => map (fun m => (c_name c, m_source m)) (c_messages c)) (contexts t)).

(** ** The translation function of the wallet

    [QCoreApplication::translate] is Qt's. *)

Class QtTranslate := qt_translate : list TS -> string -> string -> string.

(** It returns the source, or a text of a message with that context and source in
    one of the installed catalogues. *)
Class QtTranslateLaws `{QtTranslate} : Prop :=
  qt_translate_from installed context source :
    qt_translate installed context source = source \/
    exists t c m x, t ∈ installed /\ c ∈ contexts t /\ c_name c = context /\ m ∈ c_messages c /\
      unescape (m_source m) = Some source /\ x ∈ used_texts m /\
      unescape x = Some (qt_translate installed context source).

(** [Translate] ([bitcoin.cpp]), connected to the signal that [_()] raises. *)
Definition Translate `{QtTranslate} (installed : list TS) (psz : string) : string :=
  qt_translate installed core_context psz.

(** A concrete search, the last installed catalogue first. *)
Definition lookup_text (context source : string) (t : TS) : option string :=
  head (concat (map (fun c =>
    if bool_decide (c_name c = context) then
      concat (map (fun m =>
        if bool_decide (unescape (m_source m) = Some source) then omap unescape (used_texts m) else [])
        (c_messages c))
    else []) (contexts t))).
Definition search_translate : QtTranslate := fun installed context source =>
  default source (head (omap (lookup_text context source) (rev installed))).

(** * Properties *)

Lemma unescape_escape_char c s :
  unescape_from None (escape_char c +:+ s) =
  match unescape_from None s with Some r => Some (String c r) | None => None end.
Proof.
  unfold escape_char.
  repeat match goal with |- context [(c =? ?d)%char] => destruct (Ascii.eqb_spec c d) end;
    subst; try reflexivity.
  change (String c EmptyString +:+ s) with (String c s). cbn [unescape_from].
  by rewrite (proj2 (Ascii.eqb_neq c "&")).
Qed.

(** Decoding undoes encoding, for every text. *)
Lemma unescape_escape s : unescape (escape s) = Some s.
Proof.
  unfold unescape. induction s as [|c s IH]; [done|]. cbn [escape]. by rewrite unescape_escape_char, IH.
Qed.

(** Well-nested markup. *)
Inductive nested : list tag -> Prop :=
| nested_nil : nested []
| nested_void l : nested l -> nested (Void :: l)
| nested_element n l1 l2 : nested l1 -> nested l2 -> nested (Open n :: l1 ++ Close n :: l2).

Lemma balanced_nested_app l stack l' :
  nested l -> balanced_from stack (l ++ l') = balanced_from stack l'.
Proof.
  intros Hl. revert stack l'. induction Hl as [|l Hl IH|n l1 l2 H1 IH1 H2 IH2]; intros stack l'; cbn; [done|auto|].
  rewrite <-app_assoc, IH1. cbn. rewrite bool_decide_true by done. apply IH2.
Qed.

(** What is left to close the open elements, innermost first. *)
Inductive closes : list string -> list tag -> Prop :=
| closes_nil l : nested l -> closes [] l
| closes_cons n stack l1 l2 : nested l1 -> closes stack l2 -> closes (n :: stack) (l1 ++ Close n :: l2).

Lemma balanced_closes stack l : balanced_from stack l = true -> closes stack l.
Proof.
  revert stack. induction l as [|[n|n|] l IH]; intros stack; cbn [balanced_from].
  - intros ->%bool_decide_eq_true. apply closes_nil, nested_nil.
  - intros Hb%IH. inversion Hb as [|? ? l1 l2 H1 H2]; subst.
    inversion H2 as [? H3|m st l3 l4 H3 H4]; subst.
    + apply closes_nil. by apply nested_element.
    + assert (Open n :: app l1 (Close n :: app l3 (Close m :: l4)) =
        app (Open n :: app l1 (Close n :: l3)) (Close m :: l4)) as -> by (cbn; by rewrite <-app_assoc).
      apply closes_cons; [by apply nested_element|done].
  - destruct stack as [|m stack]; [done|]. intros [->%bool_decide_eq_true Hb%IH]%andb_true_iff.
    apply (closes_cons m stack [] l); [apply nested_nil|done].
  - intros Hb%IH. inversion Hb as [? H1|m st l1 l2 H1 H2]; subst.
    + by apply closes_nil, nested_void.
    + apply (closes_cons m st (Void :: l1) l2); [by apply nested_void|done].
Qed.

(** The stack machine accepts exactly the well-nested markup. *)
Lemma balanced_spec l : balanced l = true <-> nested l.
Proof.
  split.
  - intros Hb%balanced_closes. by inversion Hb.
  - intros Hl. rewrite <-(app_nil_r l). unfold balanced. by rewrite balanced_nested_app.
Qed.

Lemma failing_none ctx ok t c m x s y :
  failing ctx ok t = [] -> c ∈ contexts t -> ctx (c_name c) = true -> m ∈ c_messages c ->
  unescape (m_source m) = Some s -> x ∈ used_texts m -> unescape x = Some y -> ok s y = true.
Proof.
  intros Hf Hc Hctx Hm Hs Hx Hy. destruct (ok s y) eqn:Eok; [done|]. exfalso.
  assert ((c_name c, m_source m) ∈ failing ctx ok t) as Hin; [|rewrite Hf in Hin; by apply not_elem_of_nil in Hin].
  unfold failing. apply list_elem_of_In, in_concat. eexists. split; [by apply in_map, list_elem_of_In|].
  rewrite Hctx. apply in_map_iff. exists m. split; [done|]. apply filter_In. split; [by apply list_elem_of_In|].
  apply negb_true_iff. apply not_true_is_false. rewrite forallb_forall. intros Hall.
  specialize (Hall x (proj1 (list_elem_of_In _ _) Hx)). rewrite Hs, Hy in Hall. congruence.
Qed.

(** A catalogue without bad formats translates a format into one that reads the
    same arguments. *)
Lemma translate_arguments `{QtTranslateLaws} installed psz :
  Forall (fun t => bad_formats t = []) installed -> arguments (Translate installed psz) = arguments psz.
Proof.
  intros Hi. unfold Translate. destruct (qt_translate_from installed core_context psz) as [->|Hex]; [done|].
  destruct Hex as (t & c & m & x & Ht & Hc & Hn & Hm & Hs & Hx & Hy).
  apply Forall_forall with (x := t) in Hi; [|done].
  assert (is_core (c_name c) = true) as Hcore by (by rewrite Hn).
  pose proof (failing_none _ _ _ _ _ _ _ _ Hi Hc Hcore Hm Hs Hx Hy) as Hok. by apply bool_decide_eq_true in Hok.
Qed.

Lemma head_elem {A} (l : list A) x : head l = Some x -> x ∈ l.
Proof. destruct l; [done|]. intros [= ->]. by left. Qed.

#[export] Instance search_laws : @QtTranslateLaws search_translate.
Proof.
  intros installed context source. unfold qt_translate, search_translate.
  destruct (head _) as [y|] eqn:E; [right|by left]. cbn [default].
  apply head_elem, list_elem_of_omap in E as (t & Ht & E). unfold lookup_text in E.
  apply head_elem, list_elem_of_In, in_concat in E as (l1 & (c & <- & Hc)%in_map_iff & E).
  case_bool_decide as Hn; [|done]. apply in_concat in E as (l2 & (m & <- & Hm)%in_map_iff & E).
  case_bool_decide as Hs; [|done]. apply list_elem_of_In, list_elem_of_omap in E as (x & Hx & E).
  exists t, c, m, x. rewrite !list_elem_of_In. repeat split; try done.
  - apply in_rev. by apply list_elem_of_In.
  - by apply list_elem_of_In.
Qed.

End Translation.
