(* ===== verification/CatalogueZhCN.v ===== *)
(** * The Simplified Chinese catalogue ([src/qt/locale/bitcoin_zh_CN.ts])

    The file as data: every context with its messages in order, the texts with
    their XML entities as they are in the file. *)

From stdpp Require Import strings.
From S2P Require Import Prelude Translation.
Import Translation.

Module ZhCN.
Open Scope string_scope.

Definition AboutDialog : Context := {| c_name := "AboutDialog"; c_messages := [
  message [file "../forms/aboutdialog.ui" 14]
    "About MaryJaneCoin"
    "关于黑币";
  message [line 39]
    "&lt;b&gt;MaryJaneCoin&lt;/b&gt; version"
    "黑币客户端 版本";
  message [line 41]
    "Copyright © 2009-14 The Bitcoin developers
Copyright © 2012-14 The NovaCoin developers
Copyright © 2014-2026 The MaryJaneCoin developers"
    "版权所有 © 2009-14 比特币Bitcoin开发组
版权所有 © 2012-14 新星币Novacoin开发组
版权所有 © 2014 黑币MaryJaneCoin开发组";
  message [line 15]
    "
This is experimental software.

Distributed under the MIT/X11 software license, see the accompanying file COPYING or http://www.opensource.org/licenses/mit-license.php.

This product includes software developed by the OpenSSL Project for use in the OpenSSL Toolkit (http://www.openssl.org/) and cryptographic software written by Eric Young (eay@cryptsoft.com) and UPnP software written by Thomas Bernard."
    "
测试版软件

经MIT/X11软件授权发布, 具体参见http://www.opensource.org/licenses/mit-license.php.

本产品包括由OpenSSL Project (http://www.openssl.org/)开发的OpenSSL工具包 ，由 Eric Young (eay@cryptsoft.com) 撰写的密码学软件以及由 Thomas Bernard 撰写的UPnP软件."] |}.

Definition AddressBookPage : Context := {| c_name := "AddressBookPage"; c_messages := [
  message [file "../forms/addressbookpage.ui" 14]
    "Address Book"
    "地址簿";
  message [line 22]
    "Double-click to edit address or label"
    "双击编辑地址或标签";
  message [line 27]
    "Create a new address"
    "创建新地址";
  message [line 14]
    "Copy the currently selected address to the system clipboard"
    "复制当前选中的地址到系统剪贴板";
  message [line (-11)]
    "&amp;New"
    "新建地址(&amp;N)";
  message [line (-46)]
    "These are your MaryJaneCoin addresses for receiving payments. You may want to give a different one to each sender so you can keep track of who is paying you."
    "这是您用来接收支付的黑币地址列表。为不同的支付方建立不同的地址以便于了解支付来源。";
  message [line 60]
    "&amp;Copy Address"
    "复制地址(&amp;C)";
  message [line 11]
    "Show &amp;QR Code"
    "显示二维码(&amp;Q)";
  message [line 11]
    "Sign a message to prove you own a MaryJaneCoin address"
    "对信息进行签名以证明您对该黑币地址的所有权";
  message [line 3]
    "Sign &amp;Message"
    "签名(&amp;M)";
  message [line 25]
    "Delete the currently selected address from the list"
    "从列表中删除选中的地址";
  message [line (-14)]
    "Verify a message to ensure it was signed with a specified MaryJaneCoin address"
    "验证信息以保证其经过指定黑币地址的签名";
  message [line 3]
    "&amp;Verify Message"
    "验证消息(&amp;V)";
  message [line 14]
    "&amp;Delete"
    "删除(&amp;D)";
  message [file "../addressbookpage.cpp" 65]
    "Copy &amp;Label"
    "复制标签(&amp;L)";
  message [line 2]
    "&amp;Edit"
    "编辑(&amp;E)";
  message [line 250]
    "Export Address Book Data"
    "导出地址簿数据";
  message [line 1]
    "Comma separated file (*.csv)"
    "逗号分隔文件 (*.csv)";
  message [line 13]
    "Error exporting"
    "导出时发生错误";
  message [line 0]
    "Could not write to file %1."
    "无法写入文件 %1 。"] |}.

Definition AddressTableModel : Context := {| c_name := "AddressTableModel"; c_messages := [
  message [file "../addresstablemodel.cpp" 144]
    "Label"
    "标签";
  message [line 0]
    "Address"
    "地址";
  message [line 36]
    "(no label)"
    "(没有标签)"] |}.

Definition AskPassphraseDialog_1 : list Message := [
  message [file "../forms/askpassphrasedialog.ui" 26]
    "Passphrase Dialog"
    "密码对话框";
  message [line 21]
    "Enter passphrase"
    "输入密码";
  message [line 14]
    "New passphrase"
    "新密码";
  message [line 14]
    "Repeat new passphrase"
    "重复新密码";
  message [line 33]
    "Serves to disable the trivial sendmoney when OS account compromised. Provides no real security."
    "在系统允许的情况下用于防止sendmoney欺诈，并未提供真正的安全防护措施。";
  message [line 3]
    "For staking only"
    "仅用于权益增值";
  message [file "../askpassphrasedialog.cpp" 35]
    "Enter the new passphrase to the wallet.&lt;br/&gt;Please use a passphrase of &lt;b&gt;10 or more random characters&lt;/b&gt;, or &lt;b&gt;eight or more words&lt;/b&gt;."
    "输入钱包的新密码。&lt;br/&gt;使用的密码请至少包含&lt;b&gt;10个以上随机字符&lt;/&gt;，或者是&lt;b&gt;8个以上的单词&lt;/b&gt;。";
  message [line 1]
    "Encrypt wallet"
    "加密钱包";
  message [line 7]
    "This operation needs your wallet passphrase to unlock the wallet."
    "此操作需要您首先使用密码解锁该钱包。";
  message [line 5]
    "Unlock wallet"
    "解锁钱包";
  message [line 3]
    "This operation needs your wallet passphrase to decrypt the wallet."
    "该操作需要您首先使用密码解密钱包。";
  message [line 5]
    "Decrypt wallet"
    "解密钱包";
  message [line 3]
    "Change passphrase"
    "更改密码";
  message [line 1]
    "Enter the old and new passphrase to the wallet."
    "请输入该钱包的旧密码与新密码。";
  message [line 46]
    "Confirm wallet encryption"
    "确认加密钱包";
  message [line 1]
    "Warning: If you encrypt your wallet and lose your passphrase, you will &lt;b&gt;LOSE ALL OF YOUR COINS&lt;/b&gt;!"
    "警告：如果您丢失了加密该钱包的密码，其中所有的黑币将会丢失！";
  message [line 0]
    "Are you sure you wish to encrypt your wallet?"
    "您确定需要为钱包加密吗？";
  message [line 15]
    "IMPORTANT: Any previous backups you have made of your wallet file should be replaced with the newly generated, encrypted wallet file. For security reasons, previous backups of the unencrypted wallet file will become useless as soon as you start using the new, encrypted wallet."
    "重要提示：您以前备份的钱包文件应该替换成最新生成的加密钱包文件（重新备份）。从安全性上考虑，您以前备份的未加密的钱包文件，在您使用新的加密钱包后将无效，请重新备份。";
  message [line 103; line 24]
    "Warning: The Caps Lock key is on!"
    "警告：大写锁定键处于打开状态！";
  message [line (-133); line 60]
    "Wallet encrypted"
    "钱包已加密";
  message [line (-58)]
    "MaryJaneCoin will close now to finish the encryption process. Remember that encrypting your wallet cannot fully protect your coins from being stolen by malware infecting your computer."
    "黑币客户端即将关闭以完成加密过程。请记住，加密钱包并不能完全防止您的电子货币被入侵您计算机的木马软件盗窃。";
  message [line 13; line 7; line 44; line 6]
    "Wallet encryption failed"
    "钱包加密失败";
  message [line (-56)]
    "Wallet encryption failed due to an internal error. Your wallet was not encrypted."
    "由于一个本地错误，加密钱包的操作已经失败。您的钱包没能被加密。";
  message [line 7; line 50]
    "The supplied passphrases do not match."
    "密码不匹配。";
  message [line (-38)]
    "Wallet unlock failed"
    "钱包解锁失败";
  message [line 1; line 12; line 19]
    "The passphrase entered for the wallet decryption was incorrect."
    "用于解密钱包的密码不正确。";
  message [line (-20)]
    "Wallet decryption failed"
    "钱包解密失败。";
  message [line 14]
    "Wallet passphrase was successfully changed."
    "修改钱包密码成功。"].

Definition AskPassphraseDialog : Context := {| c_name := "AskPassphraseDialog"; c_messages := AskPassphraseDialog_1 |}.

Definition BitcoinGUI_1 : list Message := [
  message [file "../bitcoingui.cpp" 282]
    "Sign &amp;message..."
    "消息签名(&amp;M)...";
  message [line 251]
    "Synchronizing with network..."
    "正在与网络同步...";
  message [line (-319)]
    "&amp;Overview"
    "概况(&amp;O)";
  message [line 1]
    "Show general overview of wallet"
    "显示钱包概况";
  message [line 17]
    "&amp;Transactions"
    "交易记录(&amp;T)";
  message [line 1]
    "Browse transaction history"
    "查看交易历史";
  message [line 5]
    "&amp;Address Book"
    "地址簿(&amp;A)";
  message [line 1]
    "Edit the list of stored addresses and labels"
    "管理已储存的地址和标签";
  message [line (-13)]
    "&amp;Receive coins"
    "接收黑币(&amp;R)";
  message [line 1]
    "Show the list of addresses for receiving payments"
    "显示用于接收支付的地址列表";
  message [line (-7)]
    "&amp;Send coins"
    "发送货币(&amp;S)";
  message [line 35]
    "E&amp;xit"
    "退出(&amp;X)";
  message [line 1]
    "Quit application"
    "退出程序";
  message [line 6]
    "Show information about MaryJaneCoin"
    "显示关于黑币的信息";
  message [line 2]
    "About &amp;Qt"
    "关于 &amp;Qt";
  message [line 1]
    "Show information about Qt"
    "显示 Qt 相关信息";
  message [line 2]
    "&amp;Options..."
    "选项(&amp;O)...";
  message [line 4]
    "&amp;Encrypt Wallet..."
    "加密钱包(&amp;E)...";
  message [line 3]
    "&amp;Backup Wallet..."
    "备份钱包(&amp;B)...";
  message [line 2]
    "&amp;Change Passphrase..."
    "更改密码(&amp;C)...";
  forms [line 259]
    "~%n block(s) remaining"
    ["~%n 个区块未完成"];
  message [line 6]
    "Downloaded %1 of %2 blocks of transaction history (%3% done)."
    "交易记录已下载%3% (%1 / %2 个区块)";
  message [line (-256)]
    "&amp;Export..."
    "导出(&amp;E)";
  message [line (-64)]
    "Send coins to a MaryJaneCoin address"
    "向指定的地址发送黑币";
  message [line 47]
    "Modify configuration options for MaryJaneCoin"
    "更改设置选项";
  message [line 18]
    "Export the data in the current tab to a file"
    "导出当前标签页的数据";
  message [line (-14)]
    "Encrypt or decrypt wallet"
    "加密/解密钱包";
  message [line 3]
    "Backup wallet to another location"
    "备份钱包到其他文件夹";
  message [line 2]
    "Change the passphrase used for wallet encryption"
    "更改钱包加密口令"].

Definition BitcoinGUI_2 : list Message := [
  message [line 10]
    "&amp;Debug window"
    "调试窗口(&amp;D)";
  message [line 1]
    "Open debugging and diagnostic console"
    "打开调试和诊断控制台";
  message [line (-5)]
    "&amp;Verify message..."
    "验证消息(&amp;V)...";
  message [line (-202)]
    "MaryJaneCoin"
    "黑币";
  message [line 0]
    "Wallet"
    "钱包";
  message [line 180]
    "&amp;About MaryJaneCoin"
    "关于黑币(&amp;A)";
  message [line 9]
    "&amp;Show / Hide"
    "显示 / 隐藏(&amp;S)";
  message [line 9]
    "Unlock wallet"
    "解锁钱包";
  message [line 1]
    "&amp;Lock Wallet"
    "锁定钱包(&amp;L)";
  message [line 1]
    "Lock wallet"
    "锁定钱包";
  message [line 35]
    "&amp;File"
    "文件(&amp;F)";
  message [line 8]
    "&amp;Settings"
    "设置(&amp;S)";
  message [line 8]
    "&amp;Help"
    "帮助(&amp;H)";
  message [line 12]
    "Tabs toolbar"
    "分页工具栏";
  message [line 8]
    "Actions toolbar"
    "工具栏";
  message [line 13; line 9]
    "[testnet]"
    "[测试网络]";
  message [line 0; line 60]
    "MaryJaneCoin client"
    "黑币客户端";
  forms [line 75]
    "%n active connection(s) to MaryJaneCoin network"
    ["与黑币网络建立了 %n 个连接"];
  message [line 40]
    "Downloaded %1 blocks of transaction history."
    "已下载 %1 个区块的交易记录";
  message [line 413]
    "Staking.&lt;br&gt;Your weight is %1&lt;br&gt;Network weight is %2&lt;br&gt;Expected time to earn reward is %3"
    "权益增值中 &lt;br&gt;您的权重为 %1 &lt;br&gt;网络总权重为 %2&lt;br&gt;预计将在 %3 之后获得收益";
  message [line 6]
    "Not staking because wallet is locked"
    "未进行权益增值，因为钱包已锁定";
  message [line 2]
    "Not staking because wallet is offline"
    "未进行权益增值，因为钱包处于离线状态";
  message [line 2]
    "Not staking because wallet is syncing"
    "未进行权益增值，因为钱包正在同步";
  message [line 2]
    "Not staking because you don&apos;t have mature coins"
    "未进行权益增值，因为钱包中没有成熟的黑币";
  forms [line (-403)]
    "%n second(s) ago"
    ["%n 秒前"];
  message [line (-312)]
    "About MaryJaneCoin card"
    "关于黑币卡";
  message [line 1]
    "Show information about MaryJaneCoin card"
    "显示关于黑币卡的信息";
  message [line 18]
    "&amp;Unlock Wallet..."
    "解锁钱包(&amp;U)";
  forms [line 297]
    "%n minute(s) ago"
    ["%n 分钟前"]].

Definition BitcoinGUI_3 : list Message := [
  forms [line 4]
    "%n hour(s) ago"
    ["%n 小时前"];
  forms [line 4]
    "%n day(s) ago"
    ["%n 天前"];
  message [line 6]
    "Up to date"
    "已是最新";
  message [line 7]
    "Catching up..."
    "更新中...";
  message [line 10]
    "Last received block was generated %1."
    "最近生成的区块接收于%1";
  message [line 59]
    "This transaction is over the size limit.  You can still send it for a fee of %1, which goes to the nodes that process your transaction and helps to support the network.  Do you want to pay the fee?"
    "该笔交易数据量太大，需支付%1手续费给执行该笔交易的网络结点。您愿意支付吗？";
  message [line 5]
    "Confirm transaction fee"
    "手续费确认";
  message [line 27]
    "Sent transaction"
    "发送交易";
  message [line 1]
    "Incoming transaction"
    "流入交易";
  message [line 1]
    "Date: %1
Amount: %2
Type: %3
Address: %4
"
    "日期: %1
金额: %2
类别: %3
地址: %4
";
  message [line 100; line 15]
    "URI handling"
    "URI处理";
  message [line (-15); line 15]
    "URI can not be parsed! This can be caused by an invalid MaryJaneCoin address or malformed URI parameters."
    "无法解析URI：无效的黑币地址或错误的URI参数。";
  message [line 18]
    "Wallet is &lt;b&gt;encrypted&lt;/b&gt; and currently &lt;b&gt;unlocked&lt;/b&gt;"
    "钱包已被&lt;b&gt;加密&lt;/b&gt;，当前为&lt;b&gt;解锁&lt;/b&gt;状态";
  message [line 10]
    "Wallet is &lt;b&gt;encrypted&lt;/b&gt; and currently &lt;b&gt;locked&lt;/b&gt;"
    "钱包已被&lt;b&gt;加密&lt;/b&gt;，当前为&lt;b&gt;锁定&lt;/b&gt;状态";
  message [line 25]
    "Backup Wallet"
    "备份钱包";
  message [line 0]
    "Wallet Data (*.dat)"
    "钱包数据文件(*.dat)";
  message [line 3]
    "Backup Failed"
    "备份失败";
  message [line 0]
    "There was an error trying to save the wallet data to the new location."
    "试图将钱包地址保存到新位置时出现错误";
  forms [line 76]
    "%n second(s)"
    ["%n秒"];
  forms [line 4]
    "%n minute(s)"
    ["%n 分钟"];
  forms [line 4]
    "%n hour(s)"
    ["%n 小时"];
  forms [line 4]
    "%n day(s)"
    ["%n 天"];
  message [line 18]
    "Not staking"
    "未进行权益增值";
  message [file "../bitcoin.cpp" 109]
    "A fatal error occurred. MaryJaneCoin can no longer continue safely and will quit."
    "发生严重错误，黑币客户端即将关闭。"].

Definition BitcoinGUI : Context := {| c_name := "BitcoinGUI"; c_messages := BitcoinGUI_1 ++ BitcoinGUI_2 ++ BitcoinGUI_3 |}.

Definition ClientModel : Context := {| c_name := "ClientModel"; c_messages := [
  message [file "../clientmodel.cpp" 90]
    "Network Alert"
    "网络警报"] |}.

Definition CoinControlDialog_1 : list Message := [
  message [file "../forms/coincontroldialog.ui" 14]
    "Coin Control"
    "黑币控制";
  message [line 31]
    "Quantity:"
    "总量：";
  message [line 32]
    "Bytes:"
    "字节：";
  message [line 48]
    "Amount:"
    "金额：";
  message [line 32]
    "Priority:"
    "优先级：";
  message [line 48]
    "Fee:"
    "费用：";
  message [line 35]
    "Low Output:"
    "低输出";
  message [file "../coincontroldialog.cpp" 551]
    "no"
    "否";
  message [file "../forms/coincontroldialog.ui" 51]
    "After Fee:"
    "加上交易费用后:";
  message [line 35]
    "Change:"
    "变更 : ";
  message [line 69]
    "(un)select all"
    "(不)全选";
  message [line 13]
    "Tree mode"
    "树状模式";
  message [line 16]
    "List mode"
    "列表模式";
  message [line 45]
    "Amount"
    "金额";
  message [line 5]
    "Label"
    "标签";
  message [line 5]
    "Address"
    "地址";
  message [line 5]
    "Date"
    "日期";
  message [line 5]
    "Confirmations"
    "确认";
  message [line 3]
    "Confirmed"
    "已确认";
  message [line 5]
    "Priority"
    "优先级";
  message [file "../coincontroldialog.cpp" (-515)]
    "Copy address"
    "复制地址";
  message [line 1]
    "Copy label"
    "复制标签";
  message [line 1; line 26]
    "Copy amount"
    "复制金额";
  message [line (-25)]
    "Copy transaction ID"
    "复制交易编号";
  message [line 24]
    "Copy quantity"
    "复制金额";
  message [line 2]
    "Copy fee"
    "复制交易费";
  message [line 1]
    "Copy after fee"
    "复制含交易费的金额";
  message [line 1]
    "Copy bytes"
    "复制字节";
  message [line 1]
    "Copy priority"
    "复制优先级"].

Definition CoinControlDialog_2 : list Message := [
  message [line 1]
    "Copy low output"
    "复制低输出";
  message [line 1]
    "Copy change"
    "复制零钱";
  message [line 317]
    "highest"
    "最高";
  message [line 1]
    "high"
    "高";
  message [line 1]
    "medium-high"
    "中高";
  message [line 1]
    "medium"
    "中等";
  message [line 4]
    "low-medium"
    "中低";
  message [line 1]
    "low"
    "低";
  message [line 1]
    "lowest"
    "最低";
  message [line 155]
    "DUST"
    "DUST";
  message [line 0]
    "yes"
    "是";
  message [line 10]
    "This label turns red, if the transaction size is bigger than 10000 bytes.

 This means a fee of at least %1 per kb is required.

 Can vary +/- 1 Byte per input."
    "交易数据量超过10000字节时，该标签变为红色。
此时每kb数据量将会收取 %1 的手续费。
可能有+/-1字节的误差。";
  message [line 1]
    "Transactions with higher priority get more likely into a block.

This label turns red, if the priority is smaller than &quot;medium&quot;.

 This means a fee of at least %1 per kb is required."
    "优先度较高的交易有更高可能进入到区块中。
当优先度为中级以下时，该标签变为红色。
此时需要收取每kb %1 的手续费。";
  message [line 1]
    "This label turns red, if any recipient receives an amount smaller than %1.

 This means a fee of at least %2 is required. 

 Amounts below 0.546 times the minimum relay fee are shown as DUST."
    "如果收款人所收款项少于 %1，该标签变为红色。
此时需收取 %2 的手续费。
低于该手续费的0.546倍的款项将被显示为DUST。";
  message [line 1]
    "This label turns red, if the change is smaller than %1.

 This means a fee of at least %2 is required."
    "如果零钱少于 %1，该标签变为红色。
此时需收取 %2 的手续费。";
  message [line 37; line 66]
    "(no label)"
    "(没有标签)";
  message [line (-9)]
    "change from %1 (%2)"
    "来自%1的零钱 (%2)";
  message [line 1]
    "(change)"
    "(零钱)"].

Definition CoinControlDialog : Context := {| c_name := "CoinControlDialog"; c_messages := CoinControlDialog_1 ++ CoinControlDialog_2 |}.

Definition EditAddressDialog : Context := {| c_name := "EditAddressDialog"; c_messages := [
  message [file "../forms/editaddressdialog.ui" 14]
    "Edit Address"
    "编辑地址";
  message [line 11]
    "&amp;Label"
    "标签(&amp;L)";
  message [line 10]
    "The label associated with this address book entry"
    "地址簿内该项目对应的标签";
  message [line 7]
    "&amp;Address"
    "地址(&amp;A)";
  message [line 10]
    "The address associated with this address book entry. This can only be modified for sending addresses."
    "地址簿内该项目对应的地址。只有“收款人地址”分类下的地址可以修改。";
  message [file "../editaddressdialog.cpp" 20]
    "New receiving address"
    "新建接收地址";
  message [line 4]
    "New sending address"
    "新建发送地址";
  message [line 3]
    "Edit receiving address"
    "编辑接收地址";
  message [line 4]
    "Edit sending address"
    "编辑发送地址";
  message [line 76]
    "The entered address &quot;%1&quot; is already in the address book."
    "输入的地址“%1”已经存在于地址簿中。";
  message [line (-5)]
    "The entered address &quot;%1&quot; is not a valid MaryJaneCoin address."
    "“%1” 不是有效的黑币地址。";
  message [line 10]
    "Could not unlock wallet."
    "无法解锁钱包";
  message [line 5]
    "New key generation failed."
    "新的密钥生成失败。"] |}.

Definition GUIUtil_HelpMessageBox : Context := {| c_name := "GUIUtil::HelpMessageBox"; c_messages := [
  message [file "../guiutil.cpp" 420; line 12]
    "MaryJaneCoin-Qt"
    "黑币客户端MaryJaneCoin-Qt";
  message [line (-12)]
    "version"
    "版本";
  message [line 2]
    "Usage:"
    "使用";
  message [line 1]
    "command-line options"
    "命令行选项";
  message [line 4]
    "UI options"
    "用户界面选项";
  message [line 1]
    "Set language, for example &quot;de_DE&quot; (default: system locale)"
    "设定语言，例如 “de_DE&quot; (默认语言为本地操作系统语言)";
  message [line 1]
    "Start minimized"
    "启动时最小化";
  message [line 1]
    "Show splash screen on startup (default: 1)"
    "登录时显示Logo界面 (默认开启)"] |}.

Definition OptionsDialog_1 : list Message := [
  message [file "../forms/optionsdialog.ui" 14]
    "Options"
    "选项";
  message [line 16]
    "&amp;Main"
    "主要(&amp;M)";
  message [line 6]
    "Optional transaction fee per kB that helps make sure your transactions are processed quickly. Most transactions are 1 kB. Fee 0.01 recommended."
    "支付可选的交易手续费以加速交易(每kB)。大多数交易的数据量为1kB。推荐额0.01。";
  message [line 15]
    "Pay transaction &amp;fee"
    "支付交易费用(&amp;F)";
  message [line 31]
    "Reserved amount does not participate in staking and is therefore spendable at any time."
    "保留金额不参与权益累积，可以随时使用。";
  message [line 15]
    "Reserve"
    "保留";
  message [line 31]
    "Automatically start MaryJaneCoin after logging in to the system."
    "开机自动启动黑币客户端";
  message [line 3]
    "&amp;Start MaryJaneCoin on system login"
    "开机时自动启动黑币客户端(&amp;S)";
  message [line 7]
    "Detach block and address databases at shutdown. This means they can be moved to another data directory, but it slows down shutdown. The wallet is always detached."
    "关机时断开区块和地址数据连接使得它们可以被移动到其他目录。这样做会使关机速度变慢。钱包数据总是断开存储的。";
  message [line 3]
    "&amp;Detach databases at shutdown"
    "关机时断开区块和地址数据库连接(&amp;D)";
  message [line 21]
    "&amp;Network"
    "网络(&amp;N)";
  message [line 6]
    "Automatically open the MaryJaneCoin client port on the router. This only works when your router supports UPnP and it is enabled."
    "路由器自动打开黑币客户端端口。该功能仅在路由器开启UPnP支持时有效。";
  message [line 3]
    "Map port using &amp;UPnP"
    "使用 &amp;UPnP 映射端口";
  message [line 7]
    "Connect to the MaryJaneCoin network through a SOCKS proxy (e.g. when connecting through Tor)."
    "经SOCKS代理连接到黑币网络(例如使用Tor)";
  message [line 3]
    "&amp;Connect through SOCKS proxy:"
    "经SOCKS代理连接(&amp;C)";
  message [line 9]
    "Proxy &amp;IP:"
    "代理服务器 &amp;IP：";
  message [line 19]
    "IP address of the proxy (e.g. 127.0.0.1)"
    "代理地址(如：127.0.0.1)";
  message [line 7]
    "&amp;Port:"
    "端口(&amp;P)：";
  message [line 19]
    "Port of the proxy (e.g. 9050)"
    "代理端口（例如 9050）";
  message [line 7]
    "SOCKS &amp;Version:"
    "Socks 版本(&amp;V)：";
  message [line 13]
    "SOCKS version of the proxy (e.g. 5)"
    "Socks 代理版本（例如 5）";
  message [line 36]
    "&amp;Window"
    "窗口(&amp;W)";
  message [line 6]
    "Show only a tray icon after minimizing the window."
    "最小化窗口后仅显示托盘图标";
  message [line 3]
    "&amp;Minimize to the tray instead of the taskbar"
    "最小化到托盘(&amp;M)";
  message [line 7]
    "Minimize instead of exit the application when the window is closed. When this option is enabled, the application will be closed only after selecting Quit in the menu."
    "当窗口关闭时程序最小化而不是退出。当使用该选项时，程序只能通过在菜单中选择退出来关闭";
  message [line 3]
    "M&amp;inimize on close"
    "单击关闭按钮最小化(&amp;I)";
  message [line 21]
    "&amp;Display"
    "显示(&amp;D)";
  message [line 8]
    "User Interface &amp;language:"
    "用户界面语言(&amp;L)：";
  message [line 13]
    "The user interface language can be set here. This setting will take effect after restarting MaryJaneCoin."
    "在此设置用户界面语言。重启黑币客户端后设置生效。"].

Definition OptionsDialog_2 : list Message := [
  message [line 11]
    "&amp;Unit to show amounts in:"
    "黑币金额单位(&amp;U)：";
  message [line 13]
    "Choose the default subdivision unit to show in the interface and when sending coins."
    "选择黑币单位。";
  message [line 9]
    "Whether to show MaryJaneCoin addresses in the transaction list or not."
    "是否在交易列表中显示黑币地址";
  message [line 3]
    "&amp;Display addresses in transaction list"
    "在交易清单中显示黑币地址(&amp;D)";
  message [line 7]
    "Whether to show coin control features or not."
    "是否需要交易源地址控制功能。";
  message [line 3]
    "Display coin &amp;control features (experts only!)"
    "显示黑币控制选项(仅用于专家用户)";
  message [line 71]
    "&amp;OK"
    "确定(&amp;O)";
  message [line 7]
    "&amp;Cancel"
    "取消(&amp;C)";
  message [line 10]
    "&amp;Apply"
    "应用(&amp;A)";
  message [file "../optionsdialog.cpp" 55]
    "default"
    "默认";
  message [line 149; line 9]
    "Warning"
    "警告";
  message [line (-9); line 9]
    "This setting will take effect after restarting MaryJaneCoin."
    "重启客户端后设置生效";
  message [line 29]
    "The supplied proxy address is invalid."
    "提供的代理服务器地址无效。"].

Definition OptionsDialog : Context := {| c_name := "OptionsDialog"; c_messages := OptionsDialog_1 ++ OptionsDialog_2 |}.

Definition OverviewPage : Context := {| c_name := "OverviewPage"; c_messages := [
  message [file "../forms/overviewpage.ui" 14]
    "Form"
    "表单";
  message [line 33; line 231]
    "The displayed information may be out of date. Your wallet automatically synchronizes with the MaryJaneCoin network after a connection is established, but this process has not completed yet."
    "所显示的信息尚未更新，建立连接后钱包客户端会自动和网络进行同步，但目前该过程尚未完成。";
  message [line (-160)]
    "Stake:"
    "用于权益累积：";
  message [line 29]
    "Unconfirmed:"
    "未确认：";
  message [line (-107)]
    "Wallet"
    "钱包";
  message [line 49]
    "Spendable:"
    "可用金额：";
  message [line 16]
    "Your current spendable balance"
    "您当前可使用的余额";
  message [line 71]
    "Immature:"
    "未成熟的：";
  message [line 13]
    "Mined balance that has not yet matured"
    "尚未成熟的挖矿收入余额";
  message [line 20]
    "Total:"
    "总额：";
  message [line 16]
    "Your current total balance"
    "您当前的总余额";
  message [line 46]
    "&lt;b&gt;Recent transactions&lt;/b&gt;"
    "&lt;b&gt;最近交易记录&lt;/b&gt;";
  message [line (-108)]
    "Total of transactions that have yet to be confirmed, and do not yet count toward the current balance"
    "尚未确认的交易总额（不计入目前钱包余额）";
  message [line (-29)]
    "Total of coins that was staked, and do not yet count toward the current balance"
    "正在进行权益累积的货币总额（不计入目前钱包余额）";
  message [file "../overviewpage.cpp" 113; line 1]
    "out of sync"
    "数据未同步"] |}.

Definition QRCodeDialog : Context := {| c_name := "QRCodeDialog"; c_messages := [
  message [file "../forms/qrcodedialog.ui" 14]
    "QR Code Dialog"
    "QR二维码对话框";
  message [line 59]
    "Request Payment"
    "请求支付";
  message [line 56]
    "Amount:"
    "金额：";
  message [line (-44)]
    "Label:"
    "标签：";
  message [line 19]
    "Message:"
    "信息：";
  message [line 71]
    "&amp;Save As..."
    "另存为(&amp;S)...";
  message [file "../qrcodedialog.cpp" 62]
    "Error encoding URI into QR Code."
    "URI编为QR二维码时出错。";
  message [line 40]
    "The entered amount is invalid, please check."
    "输入的金额无效，请检查。";
  message [line 23]
    "Resulting URI too long, try to reduce the text for label / message."
    "生成的URI过长，请减短标签或消息的长度。";
  message [line 25]
    "Save QR Code"
    "保存QR二维码";
  message [line 0]
    "PNG Images (*.png)"
    "PNG图片(*.png)"] |}.

Definition RPCConsole : Context := {| c_name := "RPCConsole"; c_messages := [
  message [file "../forms/rpcconsole.ui" 46]
    "Client name"
    "客户端名称";
  message [line 10; line 23; line 26; line 23; line 23; line 36; line 53; line 23; line 23; file "../rpcconsole.cpp" 348]
    "N/A"
    "不可用";
  message [line (-217)]
    "Client version"
    "客户端版本";
  message [line (-45)]
    "&amp;Information"
    "信息(&amp;I)";
  message [line 68]
    "Using OpenSSL version"
    "使用 OpenSSL 版本";
  message [line 49]
    "Startup time"
    "启动时间";
  message [line 29]
    "Network"
    "网络";
  message [line 7]
    "Number of connections"
    "连接数";
  message [line 23]
    "On testnet"
    "测试网";
  message [line 23]
    "Block chain"
    "数据链";
  message [line 7]
    "Current number of blocks"
    "当前数据块数量";
  message [line 23]
    "Estimated total blocks"
    "预计数据块数量";
  message [line 23]
    "Last block time"
    "上一数据块时间";
  message [line 52]
    "&amp;Open"
    "打开(&amp;O)";
  message [line 16]
    "Command-line options"
    "命令行选项";
  message [line 7]
    "Show the MaryJaneCoin-Qt help message to get a list with possible MaryJaneCoin command-line options."
    "显示关于命令行选项的帮助信息。";
  message [line 3]
    "&amp;Show"
    "显示(&amp;S)";
  message [line 24]
    "&amp;Console"
    "控制台(&amp;C)";
  message [line (-260)]
    "Build date"
    "创建时间";
  message [line (-104)]
    "MaryJaneCoin - Debug window"
    "黑币客户端-调试窗口";
  message [line 25]
    "MaryJaneCoin Core"
    "黑币核心进程";
  message [line 279]
    "Debug log file"
    "调试日志文件";
  message [line 7]
    "Open the MaryJaneCoin debug log file from the current data directory. This can take a few seconds for large log files."
    "打开调试日志文件，对于较大的文件，这可能持续几秒钟。";
  message [line 102]
    "Clear console"
    "清空控制台";
  message [file "../rpcconsole.cpp" (-33)]
    "Welcome to the MaryJaneCoin RPC console."
    "欢迎使用黑币RPC控制台。";
  message [line 1]
    "Use up and down arrows to navigate history, and &lt;b&gt;Ctrl-L&lt;/b&gt; to clear screen."
    "使用上下方向键浏览历史,  &lt;b&gt;Ctrl-L&lt;/b&gt;清除屏幕。";
  message [line 1]
    "Type &lt;b&gt;help&lt;/b&gt; for an overview of available commands."
    "使用 &lt;b&gt;help&lt;/b&gt; 命令显示帮助信息。"] |}.

Definition SendCoinsDialog_1 : list Message := [
  message [file "../forms/sendcoinsdialog.ui" 14; file "../sendcoinsdialog.cpp" 182; line 5; line 5; line 5; line 6; line 5; line 5]
    "Send Coins"
    "发送货币";
  message [line 76]
    "Coin Control Features"
    "交易源地址控制功能";
  message [line 20]
    "Inputs..."
    "输入...";
  message [line 7]
    "automatically selected"
    "自动选择";
  message [line 19]
    "Insufficient funds!"
    "存款不足！";
  message [line 77]
    "Quantity:"
    "总量：";
  message [line 22; line 35]
    "0"
    "0";
  message [line (-19)]
    "Bytes:"
    "字节：";
  message [line 51]
    "Amount:"
    "金额：";
  message [line 22; line 86; line 86; line 32]
    "0.00 MARYJ"
    "123.456 MARYJ {0.00 ?}";
  message [line (-191)]
    "Priority:"
    "优先级：";
  message [line 19]
    "medium"
    "中等";
  message [line 32]
    "Fee:"
    "费用：";
  message [line 35]
    "Low Output:"
    "低输出";
  message [line 19]
    "no"
    "no";
  message [line 32]
    "After Fee:"
    "加上交易费用后:";
  message [line 35]
    "Change"
    "零钱";
  message [line 50]
    "custom change address"
    "自定义零钱地址";
  message [line 106]
    "Send to multiple recipients at once"
    "一次发送给多个接收者";
  message [line 3]
    "Add &amp;Recipient"
    "添加收款人(&amp;R)";
  message [line 20]
    "Remove all transaction fields"
    "删除所有交易区域";
  message [line 3]
    "Clear &amp;All"
    "清除所有(&amp;A)";
  message [line 28]
    "Balance:"
    "余额：";
  message [line 16]
    "123.456 MARYJ"
    "123.456 MARYJ";
  message [line 31]
    "Confirm the send action"
    "确认并发送货币";
  message [line 3]
    "S&amp;end"
    "发送(&amp;E)";
  message [file "../sendcoinsdialog.cpp" (-173)]
    "Enter a MaryJaneCoin address (e.g. MBDKLakRxSRw7hUB2q5DXEnDpNpLVkqGZd)"
    "输入黑币地址(例如：MBDKLakRxSRw7hUB2q5DXEnDpNpLVkqGZd)"].

Definition SendCoinsDialog_2 : list Message := [
  message [line 15]
    "Copy quantity"
    "复制金额";
  message [line 1]
    "Copy amount"
    "复制金额";
  message [line 1]
    "Copy fee"
    "复制交易费";
  message [line 1]
    "Copy after fee"
    "复制含交易费的金额";
  message [line 1]
    "Copy bytes"
    "复制字节";
  message [line 1]
    "Copy priority"
    "复制优先级";
  message [line 1]
    "Copy low output"
    "复制低输出";
  message [line 1]
    "Copy change"
    "复制零钱";
  message [line 86]
    "&lt;b&gt;%1&lt;/b&gt; to %2 (%3)"
    "&lt;b&gt;%1&lt;/b&gt; 至 %2 (%3)";
  message [line 5]
    "Confirm send coins"
    "确认发送货币";
  message [line 1]
    "Are you sure you want to send %1?"
    "确认要发送 %1 ?";
  message [line 0]
    " and "
    "和";
  message [line 29]
    "The recipient address is not valid, please recheck."
    "收款人地址不合法，请检查。";
  message [line 5]
    "The amount to pay must be larger than 0."
    "支付金额必须大于0。";
  message [line 5]
    "The amount exceeds your balance."
    "金额超出您的账上余额。";
  message [line 5]
    "The total exceeds your balance when the %1 transaction fee is included."
    "计入 %1 交易费后的金额超出您的账上余额。";
  message [line 6]
    "Duplicate address found, can only send to each address once per send operation."
    "发现重复的地址, 每次只能对同一地址发送一次。";
  message [line 5]
    "Error: Transaction creation failed."
    "错误：交易创建失败。";
  message [line 5]
    "Error: The transaction was rejected. This might happen if some of the coins in your wallet were already spent, such as if you used a copy of wallet.dat and coins were spent in the copy but not marked as spent here."
    "错误：交易被拒绝。可能由于钱包中部分金额已被使用，例如您使用了钱包数据的副本，在副本中某些金额已被使用，但在此处尚未被标记为已使用。";
  message [line 251]
    "WARNING: Invalid MaryJaneCoin address"
    "警告：无效的黑币地址";
  message [line 13]
    "(no label)"
    "(没有标签)";
  message [line 4]
    "WARNING: unknown change address"
    "警告：未知的零钱地址"].

Definition SendCoinsDialog : Context := {| c_name := "SendCoinsDialog"; c_messages := SendCoinsDialog_1 ++ SendCoinsDialog_2 |}.

Definition SendCoinsEntry : Context := {| c_name := "SendCoinsEntry"; c_messages := [
  message [file "../forms/sendcoinsentry.ui" 14]
    "Form"
    "表单";
  message [line 15]
    "A&amp;mount:"
    "金额(&amp;M)";
  message [line 13]
    "Pay &amp;To:"
    "付给(&amp;T)：";
  message [line 24; file "../sendcoinsentry.cpp" 25]
    "Enter a label for this address to add it to your address book"
    "为这个地址输入一个标签，以便将它添加到您的地址簿";
  message [line 9]
    "&amp;Label:"
    "标签(&amp;L)：";
  message [line 18]
    "The address to send the payment to  (e.g. MBDKLakRxSRw7hUB2q5DXEnDpNpLVkqGZd)"
    "收款人地址(例：MBDKLakRxSRw7hUB2q5DXEnDpNpLVkqGZd)";
  message [line 10]
    "Choose address from address book"
    "从地址簿选择地址";
  message [line 10]
    "Alt+A"
    "Alt+A";
  message [line 7]
    "Paste address from clipboard"
    "从剪贴板粘贴地址";
  message [line 10]
    "Alt+P"
    "Alt+P";
  message [line 7]
    "Remove this recipient"
    "删除收款人";
  message [file "../sendcoinsentry.cpp" 1]
    "Enter a MaryJaneCoin address (e.g. MBDKLakRxSRw7hUB2q5DXEnDpNpLVkqGZd)"
    "输入一个黑币地址 (例：MBDKLakRxSRw7hUB2q5DXEnDpNpLVkqGZd)"] |}.

Definition SignVerifyMessageDialog_1 : list Message := [
  message [file "../forms/signverifymessagedialog.ui" 14]
    "Signatures - Sign / Verify a Message"
    "签名 - 为消息签名/验证签名消息";
  message [line 13; line 124]
    "&amp;Sign Message"
    "签名消息(&amp;S)";
  message [line (-118)]
    "You can sign messages with your addresses to prove you own them. Be careful not to sign anything vague, as phishing attacks may try to trick you into signing your identity over to them. Only sign fully-detailed statements you agree to."
    "您可以用你的地址对消息进行签名，以证明您是该地址的所有人。注意不要对模棱两可的消息签名，以免遭受钓鱼式攻击。请确保消息内容准确的表达了您的真实意愿。";
  message [line 18]
    "The address to sign the message with (e.g. MBDKLakRxSRw7hUB2q5DXEnDpNpLVkqGZd)"
    "用来签名该消息的地址(例： MBDKLakRxSRw7hUB2q5DXEnDpNpLVkqGZd)";
  message [line 10; line 203]
    "Choose an address from the address book"
    "从地址簿里选择一个地址";
  message [line (-193); line 203]
    "Alt+A"
    "Alt+A";
  message [line (-193)]
    "Paste address from clipboard"
    "从剪贴板粘贴地址";
  message [line 10]
    "Alt+P"
    "Alt+P";
  message [line 12]
    "Enter the message you want to sign here"
    "请输入您要发送的签名消息";
  message [line 24]
    "Copy the current signature to the system clipboard"
    "复制当前签名至剪切板";
  message [line 21]
    "Sign the message to prove you own this MaryJaneCoin address"
    "对该消息进行签名以证明您对该黑币地址的所有权";
  message [line 17]
    "Reset all sign message fields"
    "清空所有签名消息栏";
  message [line 3; line 146]
    "Clear &amp;All"
    "清除所有(&amp;A)";
  message [line (-87); line 70]
    "&amp;Verify Message"
    "验证消息(&amp;V)";
  message [line (-64)]
    "Enter the signing address, message (ensure you copy line breaks, spaces, tabs, etc. exactly) and signature below to verify the message. Be careful not to read more into the signature than what is in the signed message itself, to avoid being tricked by a man-in-the-middle attack."
    "在下面输入签名地址，消息（请确保换行符、空格符、制表符等等一个不漏）和签名以验证消息。请确保签名信息准确，提防中间人攻击。";
  message [line 21]
    "The address the message was signed with (e.g. MBDKLakRxSRw7hUB2q5DXEnDpNpLVkqGZd)"
    "用来签名该消息的黑币地址(例： MBDKLakRxSRw7hUB2q5DXEnDpNpLVkqGZd)";
  message [line 40]
    "Verify the message to ensure it was signed with the specified MaryJaneCoin address"
    "确认该消息以保证它经由指定的黑币地址签名";
  message [line 17]
    "Reset all verify message fields"
    "清空所有验证消息栏";
  message [file "../signverifymessagedialog.cpp" 27; line 3]
    "Enter a MaryJaneCoin address (e.g. MBDKLakRxSRw7hUB2q5DXEnDpNpLVkqGZd)"
    "输入黑币地址(例： MBDKLakRxSRw7hUB2q5DXEnDpNpLVkqGZd)";
  message [line (-2)]
    "Click &quot;Sign Message&quot; to generate signature"
    "单击“签名消息“产生签名。";
  message [line 3]
    "Enter MaryJaneCoin signature"
    "输入黑币签名";
  message [line 82; line 81]
    "The entered address is invalid."
    "输入的地址非法。";
  message [line (-81); line 8; line 73; line 8]
    "Please check the address and try again."
    "请检查地址后重试。";
  message [line (-81); line 81]
    "The entered address does not refer to a key."
    "输入的地址没有关联的公私钥对。";
  message [line (-73)]
    "Wallet unlock was cancelled."
    "钱包解锁动作取消。";
  message [line 8]
    "Private key for the entered address is not available."
    "找不到输入地址关联的私钥。";
  message [line 12]
    "Message signing failed."
    "消息签名失败。"].

Definition SignVerifyMessageDialog_2 : list Message := [
  message [line 5]
    "Message signed."
    "消息已签名。";
  message [line 59]
    "The signature could not be decoded."
    "签名无法解码。";
  message [line 0; line 13]
    "Please check the signature and try again."
    "请检查签名后重试。";
  message [line 0]
    "The signature did not match the message digest."
    "签名与消息摘要不匹配。";
  message [line 7]
    "Message verification failed."
    "消息验证失败。";
  message [line 5]
    "Message verified."
    "消息验证成功。"].

Definition SignVerifyMessageDialog : Context := {| c_name := "SignVerifyMessageDialog"; c_messages := SignVerifyMessageDialog_1 ++ SignVerifyMessageDialog_2 |}.

Definition TransactionDesc_1 : list Message := [
  message [file "../transactiondesc.cpp" 19]
    "Open until %1"
    "至 %1 个数据块时开启";
  forms [line (-2)]
    "Open for %n block(s)"
    ["为 %n 个数据块开启"];
  message [line 8]
    "conflicted"
    "发现冲突";
  message [line 2]
    "%1/offline"
    "%1 / 离线";
  message [line 2]
    "%1/unconfirmed"
    "%1/未确认";
  message [line 2]
    "%1 confirmations"
    "%1 已确认";
  message [line 18]
    "Status"
    "状态";
  forms [line 7]
    ", broadcast through %n node(s)"
    ["通过 %n 个节点广播"];
  message [line 4]
    "Date"
    "日期";
  message [line 7]
    "Source"
    "源";
  message [line 0]
    "Generated"
    "生成";
  message [line 5; line 17]
    "From"
    "来自";
  message [line 1; line 22; line 58]
    "To"
    "到";
  message [line (-77); line 2]
    "own address"
    "自己的地址";
  message [line (-2)]
    "label"
    "标签";
  message [line 37; line 12; line 45; line 17; line 30]
    "Credit"
    "收入";
  forms [line (-102)]
    "matures in %n more block(s)"
    ["将在 %n 个数据块后成熟"];
  message [line 2]
    "not accepted"
    "未被接受";
  message [line 44; line 8; line 15; line 30]
    "Debit"
    "支出";
  message [line (-39)]
    "Transaction fee"
    "交易费";
  message [line 16]
    "Net amount"
    "净额";
  message [line 6]
    "Message"
    "消息";
  message [line 2]
    "Comment"
    "备注";
  message [line 2]
    "Transaction ID"
    "交易ID";
  message [line 3]
    "Generated coins must mature 510 blocks before they can be spent. When you generated this block, it was broadcast to the network to be added to the block chain. If it fails to get into the chain, its state will change to &quot;not accepted&quot; and it won&apos;t be spendable. This may occasionally happen if another node generates a block within a few seconds of yours."
    "通过权益累积获得的金额需要在510个块确认后方可使用。此数据块生成时，将被广播到网络并加入区块链。如果未能成功加入区块链，其状态会显示为“未接受”，该部分金额也不可被使用。如果其他节点在您生成区块后的几秒钟内也生成了区块，这种情况会偶尔发生。";
  message [line 7]
    "Debug information"
    "调试信息";
  message [line 8]
    "Transaction"
    "交易"].

Definition TransactionDesc_2 : list Message := [
  message [line 5]
    "Inputs"
    "输入";
  message [line 23]
    "Amount"
    "金额";
  message [line 1]
    "true"
    "正确";
  message [line 0]
    "false"
    "错误";
  message [line (-211)]
    ", has not been successfully broadcast yet"
    "，未被成功广播";
  message [line 35]
    "unknown"
    "未知"].

Definition TransactionDesc : Context := {| c_name := "TransactionDesc"; c_messages := TransactionDesc_1 ++ TransactionDesc_2 |}.

Definition TransactionDescDialog : Context := {| c_name := "TransactionDescDialog"; c_messages := [
  message [file "../forms/transactiondescdialog.ui" 14]
    "Transaction details"
    "交易细节";
  message [line 6]
    "This pane shows a detailed description of the transaction"
    "当前面板显示了交易的详细信息"] |}.

Definition TransactionTableModel : Context := {| c_name := "TransactionTableModel"; c_messages := [
  message [file "../transactiontablemodel.cpp" 226]
    "Date"
    "日期";
  message [line 0]
    "Type"
    "类型";
  message [line 0]
    "Address"
    "地址";
  message [line 0]
    "Amount"
    "数量";
  message [line 60]
    "Open until %1"
    "至 %1 个数据块时开启";
  message [line 12]
    "Confirmed (%1 confirmations)"
    "已确认 (%1 条确认信息)";
  forms [line (-15)]
    "Open for %n more block(s)"
    ["为 %n 个更多的区块开启"];
  message [line 6]
    "Offline"
    "掉线";
  message [line 3]
    "Unconfirmed"
    "未确认的 ";
  message [line 3]
    "Confirming (%1 of %2 recommended confirmations)"
    "确认中 (推荐 %2个确认，已经有 %1个确认)";
  message [line 6]
    "Conflicted"
    "冲突的";
  message [line 3]
    "Immature (%1 confirmations, will be available after %2)"
    "未成熟 (%1 个确认，将在 %2 个后可用)";
  message [line 3]
    "This block was not received by any other nodes and will probably not be accepted!"
    "此数据块未被任何其他节点接收，可能不被接受！";
  message [line 3]
    "Generated but not accepted"
    "已生成但未被接受";
  message [line 42]
    "Received with"
    "接收于";
  message [line 2]
    "Received from"
    "收款来自";
  message [line 3]
    "Sent to"
    "发送给";
  message [line 2]
    "Payment to yourself"
    "付款给自己";
  message [line 2]
    "Mined"
    "挖矿所得";
  message [line 38]
    "(n/a)"
    "（不可用）";
  message [line 190]
    "Transaction status. Hover over this field to show number of confirmations."
    "交易状态。 鼠标移到此区域可显示确认项数量。";
  message [line 2]
    "Date and time that the transaction was received."
    "接收到交易的时间";
  message [line 2]
    "Type of transaction."
    "交易类别。";
  message [line 2]
    "Destination address of transaction."
    "交易目的地址。";
  message [line 2]
    "Amount removed from or added to balance."
    "从余额添加或移除的金额。"] |}.

Definition TransactionView_1 : list Message := [
  message [file "../transactionview.cpp" 55; line 16]
    "All"
    "全部";
  message [line (-15)]
    "Today"
    "今天";
  message [line 1]
    "This week"
    "本周";
  message [line 1]
    "This month"
    "本月";
  message [line 1]
    "Last month"
    "上月";
  message [line 1]
    "This year"
    "今年";
  message [line 1]
    "Range..."
    "范围...";
  message [line 11]
    "Received with"
    "接收于";
  message [line 2]
    "Sent to"
    "发送给";
  message [line 2]
    "To yourself"
    "到自己";
  message [line 1]
    "Mined"
    "挖矿所得";
  message [line 1]
    "Other"
    "其他";
  message [line 7]
    "Enter address or label to search"
    "输入地址或标签进行搜索";
  message [line 7]
    "Min amount"
    "最小金额";
  message [line 34]
    "Copy address"
    "复制地址";
  message [line 1]
    "Copy label"
    "复制标签";
  message [line 1]
    "Copy amount"
    "复制金额";
  message [line 1]
    "Copy transaction ID"
    "复制交易编号";
  message [line 1]
    "Edit label"
    "编辑标签";
  message [line 1]
    "Show transaction details"
    "显示交易详情";
  message [line 144]
    "Export Transaction Data"
    "输出交易数据";
  message [line 1]
    "Comma separated file (*.csv)"
    "逗号分隔文件 (*.csv)";
  message [line 8]
    "Confirmed"
    "已确认";
  message [line 1]
    "Date"
    "日期";
  message [line 1]
    "Type"
    "类别";
  message [line 1]
    "Label"
    "标签";
  message [line 1]
    "Address"
    "地址";
  message [line 1]
    "Amount"
    "金额";
  message [line 1]
    "ID"
    "ID"].

Definition TransactionView_2 : list Message := [
  message [line 4]
    "Error exporting"
    "导出出现错误";
  message [line 0]
    "Could not write to file %1."
    "无法写入文件 %1 。";
  message [line 100]
    "Range:"
    "范围：";
  message [line 8]
    "to"
    "到"].

Definition TransactionView : Context := {| c_name := "TransactionView"; c_messages := TransactionView_1 ++ TransactionView_2 |}.

Definition WalletModel : Context := {| c_name := "WalletModel"; c_messages := [
  message [file "../walletmodel.cpp" 206]
    "Sending..."
    "正在发送"] |}.

Definition bitcoin_core_1 : list Message := [
  message [file "../bitcoinstrings.cpp" 33]
    "MaryJaneCoin version"
    "黑币客户端 版本";
  message [line 1]
    "Usage:"
    "使用：";
  message [line 1]
    "Send command to -server or MaryJaneCoind"
    "向-server服务器或MaryJaneCoind发送命令";
  message [line 1]
    "List commands"
    "列出命令
";
  message [line 1]
    "Get help for a command"
    "获得某条命令的帮助
";
  message [line 2]
    "Options:"
    "选项：
";
  message [line 2]
    "Specify configuration file (default: MaryJaneCoin.conf)"
    "指定配置文件(默认: MaryJaneCoin.conf)";
  message [line 1]
    "Specify pid file (default: MaryJaneCoind.pid)"
    "指定pid文件(默认: MaryJaneCoind.pid)";
  message [line 2]
    "Specify wallet file (within data directory)"
    "指定钱包文件（数据目录内）";
  message [line (-1)]
    "Specify data directory"
    "指定数据目录
";
  message [line 2]
    "Set database cache size in megabytes (default: 25)"
    "设置数据库缓冲区大小 (缺省: 25MB)";
  message [line 1]
    "Set database disk log size in megabytes (default: 100)"
    "设置数据库日志文件大小(单位MB，默认值100)";
  message [line 6]
    "Listen for connections on &lt;port&gt; (default: 15714 or testnet: 25714)"
    "监听&lt;port&gt;端口的连接 (默认: 15714 测试网: 25714)";
  message [line 1]
    "Maintain at most &lt;n&gt; connections to peers (default: 125)"
    "最大连接数 &lt;n&gt; （缺省: 125）";
  message [line 3]
    "Connect to a node to retrieve peer addresses, and disconnect"
    "连接一个节点并获取对端地址，然后断开连接";
  message [line 1]
    "Specify your own public address"
    "指定您的公共地址";
  message [line 5]
    "Bind to given address. Use [host]:port notation for IPv6"
    "以IPv6 [host]:端口绑定给定地址";
  message [line 2]
    "Stake your coins to support network and gain reward (default: 1)"
    "进行权益累积以支持黑币网络并获得报酬(默认: 1)";
  message [line 5]
    "Threshold for disconnecting misbehaving peers (default: 100)"
    "断开出现问题节点阀值（缺省: 100）";
  message [line 1]
    "Number of seconds to keep misbehaving peers from reconnecting (default: 86400)"
    "Number of seconds to keep misbehaving peers from reconnecting (缺省: 86400)";
  message [line (-44)]
    "An error occurred while setting up the RPC port %u for listening on IPv4: %s"
    "设置RPC监听端口%u时发生错误, IPv4:%s";
  message [line 51]
    "Detach block and address databases. Increases shutdown time (default: 0)"
    "离线保存区块和地址数据库. 增加关机时间。 (默认: 0)";
  message [line 109]
    "Error: The transaction was rejected.  This might happen if some of the coins in your wallet were already spent, such as if you used a copy of wallet.dat and coins were spent in the copy but not marked as spent here."
    "错误：交易被拒绝。可能由于钱包中部分金额已被使用，例如您使用了钱包数据的副本，在副本中某些金额已被使用，但在此处尚未被标记为已使用。";
  message [line (-5)]
    "Error: This transaction requires a transaction fee of at least %s because of its amount, complexity, or use of recently received funds  "
    "错误：该笔交易需至少支付 %s 的手续费。";
  message [line (-87)]
    "Listen for JSON-RPC connections on &lt;port&gt; (default: 15715 or testnet: 25715)"
    "监听 &lt;port&gt; 端口的JSON-RPC连接 (默认: 15715 测试网: 25715)";
  message [line (-11)]
    "Accept command line and JSON-RPC commands"
    "接受命令行和 JSON-RPC 命令
";
  message [line 101]
    "Error: Transaction creation failed  "
    "错误：交易创建失败。";
  message [line (-5)]
    "Error: Wallet locked, unable to create transaction  "
    "错误：钱包已锁定，无法创建交易。"].

Definition bitcoin_core_2 : list Message := [
  message [line (-8)]
    "Importing blockchain data file."
    "正在导入区块链数据文件";
  message [line 1]
    "Importing bootstrap blockchain data file."
    "正在导入高速区块链数据文件";
  message [line (-88)]
    "Run in the background as a daemon and accept commands"
    "在后台运行并接受命令

";
  message [line 1]
    "Use the test network"
    "使用测试网络
";
  message [line (-24)]
    "Accept connections from outside (default: 1 if no -proxy or -connect)"
    "接受来自外部的连接 (缺省: 如果不带 -proxy or -connect 参数设置为1)";
  message [line (-38)]
    "An error occurred while setting up the RPC port %u for listening on IPv6, falling back to IPv4: %s"
    "在IPv6模式下设置RPC监听端口 %u 失败，返回到IPv4模式: %s";
  message [line 117]
    "Error initializing database environment %s! To recover, BACKUP THAT DIRECTORY, then remove everything from it except for wallet.dat."
    "数据库环境 %s 初始化错误。要修复，备份该目录并将其下除wallet.dat以外的文件全部删除。";
  message [line (-20)]
    "Set maximum size of high-priority/low-fee transactions in bytes (default: 27000)"
    "设置高优先度/低手续费交易的最大字节数 (默认: 27000)";
  message [line 11]
    "Warning: -paytxfee is set very high! This is the transaction fee you will pay if you send a transaction."
    "警告：-paytxfee 交易费设置得太高了！每笔交易都将支付交易费。";
  message [line 61]
    "Warning: Please check that your computer&apos;s date and time are correct! If your clock is wrong MaryJaneCoin will not work properly."
    "警告：请确认您计算机的本地时间。如果时钟错误，黑币客户端将不能正常工作。";
  message [line (-31)]
    "Warning: error reading wallet.dat! All keys read correctly, but transaction data or address book entries might be missing or incorrect."
    "警告：钱包文件wallet.dat读取失败！最重要的公钥、私钥数据都没有问题，但是交易记录或地址簿数据不正确，或者存在数据丢失。";
  message [line (-18)]
    "Warning: wallet.dat corrupt, data salvaged! Original wallet.dat saved as wallet.{timestamp}.bak in %s; if your balance or transactions are incorrect you should restore from a backup."
    "警告：钱包文件wallet.dat损坏! 原始的钱包文件已经备份到%s目录下并重命名为{timestamp}.bak 。如果您的账户余额或者交易记录不正确，请使用您的钱包备份文件恢复。";
  message [line (-30)]
    "Attempt to recover private keys from a corrupt wallet.dat"
    "尝试从损坏的钱包文件wallet.dat中恢复私钥";
  message [line 4]
    "Block creation options:"
    "数据块创建选项：";
  message [line (-62)]
    "Connect only to the specified node(s)"
    "仅连接到指定节点";
  message [line 4]
    "Discover own IP address (default: 1 when listening and no -externalip)"
    "发现自己的IP地址(缺省:不带 -externalip 参数监听时设置为1)";
  message [line 94]
    "Failed to listen on any port. Use -listen=0 if you want this."
    "监听端口失败。请使用 -listen=0 参数。";
  message [line (-90)]
    "Find peers using DNS lookup (default: 1)"
    "以DNS查找方式寻找节点 (默认：1)";
  message [line 5]
    "Sync checkpoints policy (default: strict)"
    "同步检测点政策 (默认：严格)";
  message [line 83]
    "Invalid -tor address: &apos;%s&apos;"
    "无效的 -tor 地址: &apos;%s&apos;";
  message [line 4]
    "Invalid amount for -reservebalance=&lt;amount&gt;"
    "-reservebalance=&lt;amount&gt; 金额无效";
  message [line (-82)]
    "Maximum per-connection receive buffer, &lt;n&gt;*1000 bytes (default: 5000)"
    "每个连接的最大接收缓存，&lt;n&gt;*1000 字节(缺省：5000)";
  message [line 1]
    "Maximum per-connection send buffer, &lt;n&gt;*1000 bytes (default: 1000)"
    "每个连接的最大发送缓存，&lt;n&gt;*1000 字节(缺省：1000)";
  message [line (-16)]
    "Only connect to nodes in network &lt;net&gt; (IPv4, IPv6 or Tor)"
    "仅连接至指定网络的节点&lt;net&gt;(IPv4, IPv6 或者 Tor)";
  message [line 28]
    "Output extra debugging information. Implies all other -debug* options"
    "输出额外的调试信息。相当于开启了其它所有-debug选项";
  message [line 1]
    "Output extra network debugging information"
    "输出额外的网络调试信息";
  message [line 1]
    "Prepend debug output with timestamp"
    "将时间信息加入调试输出中";
  message [line 35]
    "SSL options: (see the Bitcoin Wiki for SSL setup instructions)"
    "SSL选项：(参见Bitcoin Wiki关于SSL设置栏目)";
  message [line (-74)]
    "Select the version of socks proxy to use (4-5, default: 5)"
    "选择要使用的SOCKS代理版本 (4-5, 默认 5)"].

Definition bitcoin_core_3 : list Message := [
  message [line 41]
    "Send trace/debug info to console instead of debug.log file"
    "跟踪/调试信息输出到控制台，不输出到 debug.log 文件";
  message [line 1]
    "Send trace/debug info to debugger"
    "发送跟踪/调试信息给调试者";
  message [line 28]
    "Set maximum block size in bytes (default: 250000)"
    "设置最大区块大小 (默认：250000)";
  message [line (-1)]
    "Set minimum block size in bytes (default: 0)"
    "设置最小数据块大小(缺省:0)";
  message [line (-29)]
    "Shrink debug.log file on client startup (default: 1 when no -debug)"
    "客户端启动时压缩debug.log文件(缺省：no-debug模式时为1)";
  message [line (-42)]
    "Specify connection timeout in milliseconds (default: 5000)"
    "设置连接超时时间(缺省：5000毫秒)";
  message [line 109]
    "Unable to sign checkpoint, wrong checkpointkey?
"
    "无法为记录点签名，错误的记录点密钥。";
  message [line (-80)]
    "Use UPnP to map the listening port (default: 0)"
    "使用UPnP映射监听端口 (缺省: 0)";
  message [line (-1)]
    "Use UPnP to map the listening port (default: 1 when listening)"
    "使用UPnp映射监听端口(缺省: 监听状态设为1)";
  message [line (-25)]
    "Use proxy to reach tor hidden services (default: same as -proxy)"
    "开启代理以使用隐藏服务 (默认: 和-proxy设置相同)";
  message [line 42]
    "Username for JSON-RPC connections"
    "JSON-RPC 连接用户名";
  message [line 47]
    "Verifying database integrity..."
    "正在检查数据库完整性...";
  message [line 57]
    "WARNING: syncronized checkpoint violation detected, but skipped!"
    "警告：检测到同步记录点错误，已跳过。";
  message [line 1]
    "Warning: Disk space is low!"
    "警告：磁盘空间低。";
  message [line (-2)]
    "Warning: This version is obsolete, upgrade required!"
    "警告：该软件版本已过时，请升级！";
  message [line (-48)]
    "wallet.dat corrupt, salvage failed"
    "钱包文件wallet.dat损坏，抢救备份失败";
  message [line (-54)]
    "Password for JSON-RPC connections"
    "JSON-RPC 连接密码
";
  message [line (-84)]
    "%s, you must set a rpcpassword in the configuration file:
 %s
It is recommended you use the following random password:
rpcuser=MaryJaneCoinrpc
rpcpassword=%s
(you do not need to remember this password)
The username and password MUST NOT be the same.
If the file does not exist, create it with owner-readable-only file permissions.
It is also recommended to set alertnotify so you are notified of problems;
for example: alertnotify=echo %%s | mail -s &quot;MaryJaneCoin Alert&quot; admin@foo.com
"
    "%s, 必须在配置文件里设置rpc密码:
 %s
建议使用如下的随机密码:
rpcuser=MaryJaneCoinrpc
rpcpassword=%s
(不需要记住该密码)
用户名和密码不能重复。
如果该文件不存在，请自行创建并设为用户本身只读权限。
建议创建提示以监测可能的问题，如：
alertnotify=echo %%s | mail -s &quot;MaryJaneCoin Alert&quot; admin@foo.com
";
  message [line 51]
    "Find peers using internet relay chat (default: 0)"
    "寻找使用互联网接力聊天的节点 (默认: 1) {0)?}";
  message [line 5]
    "Sync time with other nodes. Disable if time on your system is precise e.g. syncing with NTP (default: 1)"
    "自动和其它节点同步时间。如果本地计算机世界是准确的，建议关闭。(默认: 1)";
  message [line 15]
    "When creating transactions, ignore inputs with value less than this (default: 0.01)"
    "创建交易时自动忽略该值以下的数额 (默认：0.01)";
  message [line 16]
    "Allow JSON-RPC connections from specified IP address"
    "允许从指定IP接受到的 JSON-RPC 连接";
  message [line 1]
    "Send commands to node running on &lt;ip&gt; (default: 127.0.0.1)"
    "向IP地址为 &lt;ip&gt; 的节点发送指令 (缺省: 127.0.0.1)";
  message [line 1]
    "Execute command when the best block changes (%s in cmd is replaced by block hash)"
    "当最佳数据块变化时执行命令 (命令行中的 %s 会被替换成数据块哈希值)";
  message [line 3]
    "Execute command when a wallet transaction changes (%s in cmd is replaced by TxID)"
    "当最佳区块变化时执行命令 (命令行中的 %s 会被替换成区块哈希值)"].

Definition bitcoin_core_4 : list Message := [
  message [line 3]
    "Require a confirmations for change (default: 0)"
    "要求对零钱进行确认 (默认：0)";
  message [line 1]
    "Enforce transaction scripts to use canonical PUSH operators (default: 1)"
    "强制要求交易脚本使用标准PUSH算子 (默认：1)";
  message [line 2]
    "Execute command when a relevant alert is received (%s in cmd is replaced by message)"
    "收到相关提示时执行命令 (命令中的%s将被信息替换)";
  message [line 3]
    "Upgrade wallet to latest format"
    "将钱包升级到最新的格式";
  message [line 1]
    "Set key pool size to &lt;n&gt; (default: 100)"
    "设置密钥池大小为 &lt;n&gt; (缺省: 100)
";
  message [line 1]
    "Rescan the block chain for missing wallet transactions"
    "重新扫描区块链以查找遗漏的钱包交易";
  message [line 2]
    "How many blocks to check at startup (default: 2500, 0 = all)"
    "启动时检测的区块数量 (默认: 2500, 0表示检测全部)";
  message [line 1]
    "How thorough the block verification is (0-6, default: 1)"
    "区块确认的彻底程度 (0-6, 默认: 1)";
  message [line 1]
    "Imports blocks from external blk000?.dat file"
    "从外部 blk000?.dat 文件导入区块";
  message [line 8]
    "Use OpenSSL (https) for JSON-RPC connections"
    "为 JSON-RPC 连接使用 OpenSSL (https) 连接";
  message [line 1]
    "Server certificate file (default: server.cert)"
    "服务器证书 (默认为 server.cert)
";
  message [line 1]
    "Server private key (default: server.pem)"
    "服务器私钥 (默认为 server.pem)
";
  message [line 1]
    "Acceptable ciphers (default: TLSv1+HIGH:!SSLv2:!aNULL:!eNULL:!AH:!3DES:@STRENGTH)"
    "可用加密算法 (默认: TLSv1+HIGH:!SSLv2:!aNULL:!eNULL:!AH:!3DES:@STRENGTH)";
  message [line 53]
    "Error: Wallet unlocked for staking only, unable to create transaction."
    "错误：无法创建交易，已解锁的钱包仅用于权益累积。";
  message [line 18]
    "WARNING: Invalid checkpoint found! Displayed transactions may not be correct! You may need to upgrade, or notify developers."
    "警告：发现无效的记录点。所显示的交易信息未必正确！请升级客户端或联系开发者。";
  message [line (-158)]
    "This help message"
    "本帮助信息
";
  message [line 95]
    "Wallet %s resides outside data directory %s."
    "钱包 %s 位于数据目录 %s 之外.";
  message [line 1]
    "Cannot obtain a lock on data directory %s.  MaryJaneCoin is probably already running."
    "无法从数据目录 %s 获得锁定.  黑币客户端可能已在运行中.";
  message [line (-98)]
    "MaryJaneCoin"
    "黑币";
  message [line 140]
    "Unable to bind to %s on this computer (bind returned error %d, %s)"
    "无法绑定本机端口 %s  (返回错误消息 %d, %s)";
  message [line (-130)]
    "Connect through socks proxy"
    "通过socks代理连接";
  message [line 3]
    "Allow DNS lookups for -addnode, -seednode and -connect"
    "使用 -addnode, -seednode 和 -connect 选项时允许查询DNS";
  message [line 122]
    "Loading addresses..."
    "正在加载地址簿...";
  message [line (-15)]
    "Error loading blkindex.dat"
    "blkindex.dat 文件加载出错";
  message [line 2]
    "Error loading wallet.dat: Wallet corrupted"
    "wallet.dat 钱包文件加载出错：钱包损坏";
  message [line 4]
    "Error loading wallet.dat: Wallet requires newer version of MaryJaneCoin"
    "wallet.dat 钱包文件加载出错：需要新版本的客户端";
  message [line 1]
    "Wallet needed to be rewritten: restart MaryJaneCoin to complete"
    "需要重写钱包，重启客户端以完成该操作。";
  message [line 1]
    "Error loading wallet.dat"
    "wallet.dat 钱包文件加载出错"].

Definition bitcoin_core_5 : list Message := [
  message [line (-16)]
    "Invalid -proxy address: &apos;%s&apos;"
    "无效的代理地址：%s";
  message [line (-1)]
    "Unknown network specified in -onlynet: &apos;%s&apos;"
    "-onlynet 指定的是未知网络：%s";
  message [line (-1)]
    "Unknown -socks proxy version requested: %i"
    "被指定的是未知socks代理版本: %i";
  message [line 4]
    "Cannot resolve -bind address: &apos;%s&apos;"
    "无法解析 -bind 端口地址: &apos;%s&apos;";
  message [line 2]
    "Cannot resolve -externalip address: &apos;%s&apos;"
    "无法解析 -externalip 地址: &apos;%s&apos;";
  message [line (-24)]
    "Invalid amount for -paytxfee=&lt;amount&gt;: &apos;%s&apos;"
    "非法金额 -paytxfee=&lt;amount&gt;: &apos;%s&apos;";
  message [line 44]
    "Error: could not start node"
    "错误：无法启动节点";
  message [line 11]
    "Sending..."
    "正在发送";
  message [line 5]
    "Invalid amount"
    "无效金额";
  message [line 1]
    "Insufficient funds"
    "金额不足";
  message [line (-34)]
    "Loading block index..."
    "正在加载数据块索引...";
  message [line (-103)]
    "Add a node to connect to and attempt to keep the connection open"
    "添加节点并与其保持连接";
  message [line 122]
    "Unable to bind to %s on this computer. MaryJaneCoin is probably already running."
    "无法绑定到该计算机上的 %s. 黑币客户端可能已在运行中。";
  message [line (-97)]
    "Fee per KB to add to transactions you send"
    "每kB交易所支付的手续费";
  message [line 55]
    "Invalid amount for -mininput=&lt;amount&gt;: &apos;%s&apos;"
    "无效的数量。 -mininput=&lt;amount&gt;: &apos;%s&apos;";
  message [line 25]
    "Loading wallet..."
    "正在加载钱包...";
  message [line 8]
    "Cannot downgrade wallet"
    "无法降级钱包";
  message [line 1]
    "Cannot initialize keypool"
    "无法初始化密钥池。";
  message [line 1]
    "Cannot write default address"
    "无法写入默认地址";
  message [line 1]
    "Rescanning..."
    "正在重新扫描...";
  message [line 5]
    "Done loading"
    "加载完成";
  message [line (-167)]
    "To use the %s option"
    "使用 %s 选项";
  message [line 14]
    "Error"
    "错误";
  message [line 6]
    "You must set rpcpassword=&lt;password&gt; in the configuration file:
%s
If the file does not exist, create it with owner-readable-only file permissions."
    "您必须在配置文件中加入选项 rpcpassword :
 %s
如果配置文件不存在，请新建，并将文件权限设置为仅允许文件所有者读取."].

Definition bitcoin_core : Context := {| c_name := "bitcoin-core"; c_messages := bitcoin_core_1 ++ bitcoin_core_2 ++ bitcoin_core_3 ++ bitcoin_core_4 ++ bitcoin_core_5 |}.

Definition catalogue : TS := {| language := "zh_CN"; version := "2.1"; contexts := [
  AboutDialog; AddressBookPage; AddressTableModel; AskPassphraseDialog; BitcoinGUI; ClientModel; CoinControlDialog; EditAddressDialog; GUIUtil_HelpMessageBox; OptionsDialog; OverviewPage; QRCodeDialog; RPCConsole; SendCoinsDialog; SendCoinsEntry; SignVerifyMessageDialog; TransactionDesc; TransactionDescDialog; TransactionTableModel; TransactionView; WalletModel; bitcoin_core] |}.

End ZhCN.
