(* ===== verification/CatalogueJa.v ===== *)
(** * The Japanese catalogue ([src/qt/locale/bitcoin_ja.ts])

    The file as data: every context with its messages in order, the texts with
    their XML entities as they are in the file. *)

From stdpp Require Import strings.
From S2P Require Import Prelude Translation.
Import Translation.

Module Ja.
Open Scope string_scope.

Definition AboutDialog : Context := {| c_name := "AboutDialog"; c_messages := [
  message [file "../forms/aboutdialog.ui" 14]
    "About MaryJaneCoin"
    "ブラックコインについて";
  message [line 39]
    "&lt;b&gt;MaryJaneCoin&lt;/b&gt; version"
    "&lt;b&gt;ブラックコイン&lt;/b&gt;バージョン";
  message [line 41]
    "Copyright © 2009-14 The Bitcoin developers
Copyright © 2012-14 The NovaCoin developers
Copyright © 2014-2026 The MaryJaneCoin developers"
    "コピーライト © 2009-14 The Bitcoin developers
コピーライト © 2012-14 The NovaCoin developers
コピーライト © 2014-2026 The MaryJaneCoin developers";
  message [line 15]
    "
This is experimental software.

Distributed under the MIT/X11 software license, see the accompanying file COPYING or http://www.opensource.org/licenses/mit-license.php.

This product includes software developed by the OpenSSL Project for use in the OpenSSL Toolkit (http://www.openssl.org/) and cryptographic software written by Eric Young (eay@cryptsoft.com) and UPnP software written by Thomas Bernard."
    "
これは実験的なソフトウェアです。

MIT/X11 ソフトウェア ライセンスの下で配布されています。詳しくは添付の COPYING ファイルやhttp://www.opensource.org/licenses/mit-license.php を参照してください。

この製品は OpenSSL Toolkit (http://www.openssl.org/) に用いられる  Eric Young (eay@cryptsoft.com)  が開発した暗号化ソフトウェアと Thomas Bernard が開発した UPnP ソフトウェアを含んでいます。"] |}.

Definition AddressBookPage : Context := {| c_name := "AddressBookPage"; c_messages := [
  message [file "../forms/addressbookpage.ui" 14]
    "Address Book"
    "アドレス帳";
  message [line 22]
    "Double-click to edit address or label"
    "アドレスまたはラベルを編集するにはダブルクリック";
  message [line 27]
    "Create a new address"
    "新規アドレスの作成";
  message [line 14]
    "Copy the currently selected address to the system clipboard"
    "現在選択されているアドレスをシステムのクリップボードにコピーする";
  message [line (-11)]
    "&amp;New"
    "新しいアドレス";
  message [line (-46)]
    "These are your MaryJaneCoin addresses for receiving payments. You may want to give a different one to each sender so you can keep track of who is paying you."
    "これは支払いを受けるためのブラックコインのアドレス。支払い管理をするのため、各送信者へ、それぞれのアドレスを伝えたほうがいいです。";
  message [line 60]
    "&amp;Copy Address"
    "アドレスをコピー (&amp;C)";
  message [line 11]
    "Show &amp;QR Code"
    "QRコードを表す";
  message [line 11]
    "Sign a message to prove you own a MaryJaneCoin address"
    "所有権の証明するためのメサッジを署名する。";
  message [line 3]
    "Sign &amp;Message"
    "メサッジを署名する。";
  message [line 25]
    "Delete the currently selected address from the list"
    "選択されたアドレスを一覧から削除する";
  message [line (-14)]
    "Verify a message to ensure it was signed with a specified MaryJaneCoin address"
    "受け取ったメッセージの署名を確保のため、メッセージを確認する。";
  message [line 3]
    "&amp;Verify Message"
    "メッセージを確認する。";
  message [line 14]
    "&amp;Delete"
    "削除";
  message [file "../addressbookpage.cpp" 65]
    "Copy &amp;Label"
    "ラベルをコピー (&amp;L)";
  message [line 2]
    "&amp;Edit"
    "編集 (&amp;E)";
  message [line 250]
    "Export Address Book Data"
    "アドレス帳のデータを書き出す";
  message [line 1]
    "Comma separated file (*.csv)"
    "CSVファイル (*.csv)";
  message [line 13]
    "Error exporting"
    "エラーを書き出す";
  message [line 0]
    "Could not write to file %1."
    "ファイルを書き込めなかった。%1"] |}.

Definition AddressTableModel : Context := {| c_name := "AddressTableModel"; c_messages := [
  message [file "../addresstablemodel.cpp" 144]
    "Label"
    "ラベル";
  message [line 0]
    "Address"
    "アドレス";
  message [line 36]
    "(no label)"
    "（ラベル無し）"] |}.

Definition AskPassphraseDialog_1 : list Message := [
  message [file "../forms/askpassphrasedialog.ui" 26]
    "Passphrase Dialog"
    "パスフレーズ ダイアログ";
  message [line 21]
    "Enter passphrase"
    "パスフレーズを入力";
  message [line 14]
    "New passphrase"
    "新しいパスフレーズ";
  message [line 14]
    "Repeat new passphrase"
    "新しいパスフレーズをもう一度";
  message [line 33]
    "Serves to disable the trivial sendmoney when OS account compromised. Provides no real security."
    "ユーザアカウントはハッキングされたばい、瑣末のsendmoney無効にする。機密保護には効果はない。";
  message [line 3]
    "For staking only"
    "賭けるのみ";
  message [file "../askpassphrasedialog.cpp" 35]
    "Enter the new passphrase to the wallet.&lt;br/&gt;Please use a passphrase of &lt;b&gt;10 or more random characters&lt;/b&gt;, or &lt;b&gt;eight or more words&lt;/b&gt;."
    "ウォレットの新しいパスフレーズを入力してください。&lt;br/&gt;&lt;b&gt;8個以上の単語か10個以上のランダムな文字&lt;/b&gt;を使ってください。";
  message [line 1]
    "Encrypt wallet"
    "ウォレットを暗号化する";
  message [line 7]
    "This operation needs your wallet passphrase to unlock the wallet."
    "この操作はウォレットをアンロックするためにパスフレーズが必要です。";
  message [line 5]
    "Unlock wallet"
    "ウォレットをアンロックする";
  message [line 3]
    "This operation needs your wallet passphrase to decrypt the wallet."
    "この操作はウォレットの暗号化解除のためにパスフレーズが必要です。";
  message [line 5]
    "Decrypt wallet"
    "ウォレットの暗号化を解除する";
  message [line 3]
    "Change passphrase"
    "パスフレーズの変更";
  message [line 1]
    "Enter the old and new passphrase to the wallet."
    "新旧両方のパスフレーズを入力してください。";
  message [line 46]
    "Confirm wallet encryption"
    "ウォレットの暗号化を確認する";
  message [line 1]
    "Warning: If you encrypt your wallet and lose your passphrase, you will &lt;b&gt;LOSE ALL OF YOUR COINS&lt;/b&gt;!"
    "ご注意：暗号化したウォレットのパスワードを忘れたばい、b&gt;すべてのコインを失う&lt;/b&gt;!";
  message [line 0]
    "Are you sure you wish to encrypt your wallet?"
    "ウォレットを暗号化、よろしいですか?";
  message [line 15]
    "IMPORTANT: Any previous backups you have made of your wallet file should be replaced with the newly generated, encrypted wallet file. For security reasons, previous backups of the unencrypted wallet file will become useless as soon as you start using the new, encrypted wallet."
    "重要: 過去のウォレット ファイルのバックアップは、暗号化された新しいウォレット ファイルに取り替える必要があります。セキュリティ上の理由により、暗号化された新しいウォレットを使い始めると、暗号化されていないウォレット ファイルのバックアップはすぐに使えなくなります。";
  message [line 103; line 24]
    "Warning: The Caps Lock key is on!"
    "警告: Caps Lock キーがオンになっています!";
  message [line (-133); line 60]
    "Wallet encrypted"
    "ウォレットは暗号化されました";
  message [line (-58)]
    "MaryJaneCoin will close now to finish the encryption process. Remember that encrypting your wallet cannot fully protect your coins from being stolen by malware infecting your computer."
    "ただいま、暗号化手順を完成するため、ブラックコインQTは閉じます。尚、ウォレットを暗号化をされたにしても、TENDのウイルスから盗難防止の報償できないことを、ご理解をお願い足します。";
  message [line 13; line 7; line 44; line 6]
    "Wallet encryption failed"
    "ウォレットの暗号化に失敗しました";
  message [line (-56)]
    "Wallet encryption failed due to an internal error. Your wallet was not encrypted."
    "内部エラーによりウォレットの暗号化が失敗しました。ウォレットは暗号化されませんでした。";
  message [line 7; line 50]
    "The supplied passphrases do not match."
    "パスフレーズが同じではありません。";
  message [line (-38)]
    "Wallet unlock failed"
    "ウォレットのアンロックに失敗しました";
  message [line 1; line 12; line 19]
    "The passphrase entered for the wallet decryption was incorrect."
    "ウォレットの暗号化解除のパスフレーズが正しくありません。";
  message [line (-20)]
    "Wallet decryption failed"
    "ウォレットの暗号化解除に失敗しました";
  message [line 14]
    "Wallet passphrase was successfully changed."
    "ウォレットのパスフレーズの変更が成功しました。"].

Definition AskPassphraseDialog : Context := {| c_name := "AskPassphraseDialog"; c_messages := AskPassphraseDialog_1 |}.

Definition BitcoinGUI_1 : list Message := [
  message [file "../bitcoingui.cpp" 282]
    "Sign &amp;message..."
    "メッセージの署名... (&amp;m)";
  message [line 251]
    "Synchronizing with network..."
    "ネットワークに同期中……";
  message [line (-319)]
    "&amp;Overview"
    "概要(&amp;O)";
  message [line 1]
    "Show general overview of wallet"
    "ウォレットの概要を見る";
  message [line 17]
    "&amp;Transactions"
    "処理(&amp;T)";
  message [line 1]
    "Browse transaction history"
    "処理履歴を閲覧";
  message [line 5]
    "&amp;Address Book"
    "アドレス帳";
  message [line 1]
    "Edit the list of stored addresses and labels"
    "保存されたアドレスとラベルの編集";
  message [line (-13)]
    "&amp;Receive coins"
    "コインを受け取る";
  message [line 1]
    "Show the list of addresses for receiving payments"
    "支払いを受けるためのアドレスリストを表示";
  message [line (-7)]
    "&amp;Send coins"
    "コインを送る";
  message [line 35]
    "E&amp;xit"
    "終了(&amp;E)";
  message [line 1]
    "Quit application"
    "アプリケーションを終了";
  message [line 6]
    "Show information about MaryJaneCoin"
    "ブラックコインの情報を表示";
  message [line 2]
    "About &amp;Qt"
    "Qt について(&amp;Q)";
  message [line 1]
    "Show information about Qt"
    "Qt の情報を表示";
  message [line 2]
    "&amp;Options..."
    "オプション... (&amp;O)";
  message [line 4]
    "&amp;Encrypt Wallet..."
    "ウォレットの暗号化... (&amp;E)";
  message [line 3]
    "&amp;Backup Wallet..."
    "ウォレットのバックアップ... (&amp;B)";
  message [line 2]
    "&amp;Change Passphrase..."
    "パスフレーズの変更... (&amp;C)";
  forms [line 259]
    "~%n block(s) remaining"
    ["~%n ブロックが残っている"];
  message [line 6]
    "Downloaded %1 of %2 blocks of transaction history (%3% done)."
    "処理の履歴の%1 / %2 ブロックをダウンロードしました。(%3% 完成）";
  message [line (-256)]
    "&amp;Export..."
    "(&amp;E)書き出す...";
  message [line (-64)]
    "Send coins to a MaryJaneCoin address"
    "ブラックコインアドレスへコインを送る";
  message [line 47]
    "Modify configuration options for MaryJaneCoin"
    "ブラックコインの設定を変化する";
  message [line 18]
    "Export the data in the current tab to a file"
    "現在のタブのデータをファイルへ書き出す";
  message [line (-14)]
    "Encrypt or decrypt wallet"
    "ウォレットを暗号化か暗号化を解除する";
  message [line 3]
    "Backup wallet to another location"
    "ウォレットを他の場所にバックアップ";
  message [line 2]
    "Change the passphrase used for wallet encryption"
    "ウォレット暗号化用パスフレーズの変更"].

Definition BitcoinGUI_2 : list Message := [
  message [line 10]
    "&amp;Debug window"
    "デバッグ ウインドウ (&amp;D)";
  message [line 1]
    "Open debugging and diagnostic console"
    "デバッグと診断コンソールを開く";
  message [line (-5)]
    "&amp;Verify message..."
    "メッセージの検証... (&amp;V)";
  message [line (-202)]
    "MaryJaneCoin"
    "ブラックコイン";
  message [line 0]
    "Wallet"
    "ウォレット";
  message [line 180]
    "&amp;About MaryJaneCoin"
    "ブラックコインについて";
  message [line 9]
    "&amp;Show / Hide"
    "見る/隠す (&amp;S)";
  message [line 9]
    "Unlock wallet"
    "ウォレットをアンロックする";
  message [line 1]
    "&amp;Lock Wallet"
    "(&amp;L)ウォレットをロックする";
  message [line 1]
    "Lock wallet"
    "ウォレットをロックする";
  message [line 35]
    "&amp;File"
    "ファイル(&amp;F)";
  message [line 8]
    "&amp;Settings"
    "設定(&amp;S)";
  message [line 8]
    "&amp;Help"
    "ヘルプ(&amp;H)";
  message [line 12]
    "Tabs toolbar"
    "タブツールバー";
  message [line 8]
    "Actions toolbar"
    "活動ツールバー";
  message [line 13; line 9]
    "[testnet]"
    "[testnet]";
  message [line 0; line 60]
    "MaryJaneCoin client"
    "ブラックコインクライアントソフトウェア";
  forms [line 75]
    "%n active connection(s) to MaryJaneCoin network"
    ["ブラックコインネットワークへの%n アクティブな接続"];
  message [line 40]
    "Downloaded %1 blocks of transaction history."
    "処理履歴の%1ブロックをダウンロードしました。";
  message [line 413]
    "Staking.&lt;br&gt;Your weight is %1&lt;br&gt;Network weight is %2&lt;br&gt;Expected time to earn reward is %3"
    "賭けている。&lt;br&gt;重さは%1&lt;br&gt;ネットワークの重さは%2&lt;br&gt;報酬をもらう時間の推測は%3";
  message [line 6]
    "Not staking because wallet is locked"
    "ウォレットをロックされたため、賭けていません";
  message [line 2]
    "Not staking because wallet is offline"
    "ウォレットはオフラインで、賭けていません";
  message [line 2]
    "Not staking because wallet is syncing"
    "ウォレットは同期最中ため、賭けていません。";
  message [line 2]
    "Not staking because you don&apos;t have mature coins"
    "コインはまだ成長できていないため、賭けていません。";
  forms [line (-403)]
    "%n second(s) ago"
    ["%n 秒前"];
  message [line (-312)]
    "About MaryJaneCoin card"
    "ブラックコインカードについて";
  message [line 1]
    "Show information about MaryJaneCoin card"
    "バラックコインカードの情報を表示する";
  message [line 18]
    "&amp;Unlock Wallet..."
    "&amp;ウォレットをアンロック...";
  forms [line 297]
    "%n minute(s) ago"
    ["%n 分前"]].

Definition BitcoinGUI_3 : list Message := [
  forms [line 4]
    "%n hour(s) ago"
    ["%n 時間前"];
  forms [line 4]
    "%n day(s) ago"
    ["%n 日間前"];
  message [line 6]
    "Up to date"
    "バージョンは最新です";
  message [line 7]
    "Catching up..."
    "追跡中...";
  message [line 10]
    "Last received block was generated %1."
    "最新ブロックは%1に生成されました。";
  message [line 59]
    "This transaction is over the size limit.  You can still send it for a fee of %1, which goes to the nodes that process your transaction and helps to support the network.  Do you want to pay the fee?"
    "この処理は大きさの制限を超えている。%1料金を払ったばい、通信可能性です。料金は手続きをするノードへ支払って、ネットワークのサッポートになります。料金を払いますか。";
  message [line 5]
    "Confirm transaction fee"
    "処理手数料を確認する";
  message [line 27]
    "Sent transaction"
    "送金処理";
  message [line 1]
    "Incoming transaction"
    "着金処理";
  message [line 1]
    "Date: %1
Amount: %2
Type: %3
Address: %4
"
    "日付: %1
総額: %2
種類: %3
アドレス: %4";
  message [line 100; line 15]
    "URI handling"
    "URIの取り扱い";
  message [line (-15); line 15]
    "URI can not be parsed! This can be caused by an invalid MaryJaneCoin address or malformed URI parameters."
    "URIのパーズができませんでした！。原因は無効なブラックコインアドレスか不正なURIパラメータ。";
  message [line 18]
    "Wallet is &lt;b&gt;encrypted&lt;/b&gt; and currently &lt;b&gt;unlocked&lt;/b&gt;"
    "ウォレットは&lt;b&gt;暗号化されて、アンロックされています&lt;/b&gt;";
  message [line 10]
    "Wallet is &lt;b&gt;encrypted&lt;/b&gt; and currently &lt;b&gt;locked&lt;/b&gt;"
    "ウォレットは&lt;b&gt;暗号化されて、ロックされています&lt;/b&gt;";
  message [line 25]
    "Backup Wallet"
    "ウォレットのバックアップ";
  message [line 0]
    "Wallet Data (*.dat)"
    "ウォレットのデータ (*.dat)";
  message [line 3]
    "Backup Failed"
    "バックアップは失敗しました";
  message [line 0]
    "There was an error trying to save the wallet data to the new location."
    "ウォレットのデータが新しい場所へ保存するにはエラーになりました。";
  forms [line 76]
    "%n second(s)"
    ["%n 秒"];
  forms [line 4]
    "%n minute(s)"
    ["%n 分"];
  forms [line 4]
    "%n hour(s)"
    ["%n 時間"];
  forms [line 4]
    "%n day(s)"
    ["%n 日間"];
  message [line 18]
    "Not staking"
    "賭けていません";
  message [file "../bitcoin.cpp" 109]
    "A fatal error occurred. MaryJaneCoin can no longer continue safely and will quit."
    "致命的エラー。安全に続きができないため、バラックコインQTは閉じます。"].

Definition BitcoinGUI : Context := {| c_name := "BitcoinGUI"; c_messages := BitcoinGUI_1 ++ BitcoinGUI_2 ++ BitcoinGUI_3 |}.

Definition ClientModel : Context := {| c_name := "ClientModel"; c_messages := [
  message [file "../clientmodel.cpp" 90]
    "Network Alert"
    "ネットワーク警告"] |}.

Definition CoinControlDialog_1 : list Message := [
  message [file "../forms/coincontroldialog.ui" 14]
    "Coin Control"
    "コインのコントロール";
  message [line 31]
    "Quantity:"
    "数量：";
  message [line 32]
    "Bytes:"
    "バイト";
  message [line 48]
    "Amount:"
    "総額:";
  message [line 32]
    "Priority:"
    "優先:";
  message [line 48]
    "Fee:"
    "料金:";
  message [line 35]
    "Low Output:"
    "アウトプット低い:";
  message [file "../coincontroldialog.cpp" 551]
    "no"
    "いいえ";
  message [file "../forms/coincontroldialog.ui" 51]
    "After Fee:"
    "料金の後";
  message [line 35]
    "Change:"
    "お釣り:";
  message [line 69]
    "(un)select all"
    "すべてを選択か選択を解除";
  message [line 13]
    "Tree mode"
    "木モード";
  message [line 16]
    "List mode"
    "リストモード";
  message [line 45]
    "Amount"
    "総額";
  message [line 5]
    "Label"
    "レベル";
  message [line 5]
    "Address"
    "アドレス";
  message [line 5]
    "Date"
    "日付";
  message [line 5]
    "Confirmations"
    "検証済みの数";
  message [line 3]
    "Confirmed"
    "検証済";
  message [line 5]
    "Priority"
    "優先";
  message [file "../coincontroldialog.cpp" (-515)]
    "Copy address"
    "アドレスをコピー";
  message [line 1]
    "Copy label"
    "ラベルをコピー";
  message [line 1; line 26]
    "Copy amount"
    "総額のコピー";
  message [line (-25)]
    "Copy transaction ID"
    "処理のIDをコピー";
  message [line 24]
    "Copy quantity"
    "数量をコピー";
  message [line 2]
    "Copy fee"
    "料金をコピー";
  message [line 1]
    "Copy after fee"
    "料金の後をコピー";
  message [line 1]
    "Copy bytes"
    "バイトをコピー";
  message [line 1]
    "Copy priority"
    "優先をコピー"].

Definition CoinControlDialog_2 : list Message := [
  message [line 1]
    "Copy low output"
    "アウトプット低いをコピー";
  message [line 1]
    "Copy change"
    "お釣りをコピー";
  message [line 317]
    "highest"
    "最高";
  message [line 1]
    "high"
    "高い";
  message [line 1]
    "medium-high"
    "中高";
  message [line 1]
    "medium"
    "中";
  message [line 4]
    "low-medium"
    "中低";
  message [line 1]
    "low"
    "低い";
  message [line 1]
    "lowest"
    "最低";
  message [line 155]
    "DUST"
    "ほこり";
  message [line 0]
    "yes"
    "はい";
  message [line 10]
    "This label turns red, if the transaction size is bigger than 10000 bytes.

 This means a fee of at least %1 per kb is required.

 Can vary +/- 1 Byte per input."
    "このラベルが赤くなったら、処理の大きさは10000バイトより大きいです。

少なくとも%1 KBあたりの料金は必要となります。

入力データによって、料金の+/-1 バイトが可能です。";
  message [line 1]
    "Transactions with higher priority get more likely into a block.

This label turns red, if the priority is smaller than &quot;medium&quot;.

 This means a fee of at least %1 per kb is required."
    "高い優先ありの処理の方はブロックに書き込み可能性が高い。

このラベルは優先の設定は中より低いです。

少なくとも%1 KBあたりの料金は必要となります。";
  message [line 1]
    "This label turns red, if any recipient receives an amount smaller than %1.

 This means a fee of at least %2 is required. 

 Amounts below 0.546 times the minimum relay fee are shown as DUST."
    ("任意の受信者は%1より少ない額をもらったばい、このラベルは赤くなる。

少なくとも%2の料金は必要となります。

最小なリレー料金" +:+ ideographic_space +:+ "x" +:+ ideographic_space +:+ "0.546より下の額は、ほこりになります。");
  message [line 1]
    "This label turns red, if the change is smaller than %1.

 This means a fee of at least %2 is required."
    "このラベルが赤くなたら、お釣りは%1より少ない。

少なくとも%2の料金は必要となります。";
  message [line 37; line 66]
    "(no label)"
    "（ラベル無し）";
  message [line (-9)]
    "change from %1 (%2)"
    "%1 (%2)からお釣り";
  message [line 1]
    "(change)"
    "(お釣り)"].

Definition CoinControlDialog : Context := {| c_name := "CoinControlDialog"; c_messages := CoinControlDialog_1 ++ CoinControlDialog_2 |}.

Definition EditAddressDialog : Context := {| c_name := "EditAddressDialog"; c_messages := [
  message [file "../forms/editaddressdialog.ui" 14]
    "Edit Address"
    "アドレスの編集";
  message [line 11]
    "&amp;Label"
    "ラベル(&amp;L)";
  message [line 10]
    "The label associated with this address book entry"
    "このアドレス帳の入力のラベル";
  message [line 7]
    "&amp;Address"
    "アドレス帳 (&amp;A)";
  message [line 10]
    "The address associated with this address book entry. This can only be modified for sending addresses."
    "このアドレス帳の入力のアドレス。通信アドレスした変更ができない。";
  message [file "../editaddressdialog.cpp" 20]
    "New receiving address"
    "新しい受信アドレス";
  message [line 4]
    "New sending address"
    "新しい送信アドレス";
  message [line 3]
    "Edit receiving address"
    "受信アドレスを編集";
  message [line 4]
    "Edit sending address"
    "送信アドレスを編集";
  message [line 76]
    "The entered address &quot;%1&quot; is already in the address book."
    "入力されたアドレス &quot;%1&quot; は既にアドレス帳にあります。";
  message [line (-5)]
    "The entered address &quot;%1&quot; is not a valid MaryJaneCoin address."
    "入力されたアドレス &quot;%1&quot; 、有効なブラックコインアドレスではない。";
  message [line 10]
    "Could not unlock wallet."
    "ウォレットをアンロックできませんでした。";
  message [line 5]
    "New key generation failed."
    "新しいキーの生成に失敗しました。"] |}.

Definition GUIUtil_HelpMessageBox : Context := {| c_name := "GUIUtil::HelpMessageBox"; c_messages := [
  message [file "../guiutil.cpp" 420; line 12]
    "MaryJaneCoin-Qt"
    "ブラックコインQT";
  message [line (-12)]
    "version"
    "バージョン";
  message [line 2]
    "Usage:"
    "使用法";
  message [line 1]
    "command-line options"
    "コマンドラインのオプション";
  message [line 4]
    "UI options"
    "UIのオプション";
  message [line 1]
    "Set language, for example &quot;de_DE&quot; (default: system locale)"
    "言語の設定、例: &quot;de_DE&quot; (デフォルト:システムのロケール)";
  message [line 1]
    "Start minimized"
    "最小化でスタート";
  message [line 1]
    "Show splash screen on startup (default: 1)"
    "スタートでスプラッシュスクリーンを表示(デフォルト:１)"] |}.

Definition OptionsDialog_1 : list Message := [
  message [file "../forms/optionsdialog.ui" 14]
    "Options"
    "設定";
  message [line 16]
    "&amp;Main"
    "メイン (&amp;M)";
  message [line 6]
    "Optional transaction fee per kB that helps make sure your transactions are processed quickly. Most transactions are 1 kB. Fee 0.01 recommended."
    "手続きを早めるためのオプショナル料金。だいたいの処理は1KB。料金の0.01が勧めです。";
  message [line 15]
    "Pay transaction &amp;fee"
    "支払う取引手数料 (&amp;f)";
  message [line 31]
    "Reserved amount does not participate in staking and is therefore spendable at any time."
    "貯金は賭ける参加しないため、いつでも支出できる。";
  message [line 15]
    "Reserve"
    "貯金";
  message [line 31]
    "Automatically start MaryJaneCoin after logging in to the system."
    "システムのログイン次第、自動的にブラックコインをスタート。";
  message [line 3]
    "&amp;Start MaryJaneCoin on system login"
    "システムログイン次第、ブラックコインをスタート";
  message [line 7]
    "Detach block and address databases at shutdown. This means they can be moved to another data directory, but it slows down shutdown. The wallet is always detached."
    "シャットダウンするとき、ブロックとアドレスのデータベースを切り離す。すると、別のディレクトリへ移動できますが、シャットダウンは少し遅れます。ウォレットはいつも切り離します。";
  message [line 3]
    "&amp;Detach databases at shutdown"
    "シャットダウンするとき、データベースを切り離す";
  message [line 21]
    "&amp;Network"
    "ネットワーク (&amp;N)";
  message [line 6]
    "Automatically open the MaryJaneCoin client port on the router. This only works when your router supports UPnP and it is enabled."
    "自動的にルーターでブラックコインクライエントソフトウェアのポートを開く。ルーターはUPnPのサポートあり、UPnPを有効にするならできる。";
  message [line 3]
    "Map port using &amp;UPnP"
    "UPnP を使ってポートを割り当てる (&amp;U)";
  message [line 7]
    "Connect to the MaryJaneCoin network through a SOCKS proxy (e.g. when connecting through Tor)."
    "ブラックコインのネットワークへSOCKSプロキシで接続する（例：TORで接続するばい）";
  message [line 3]
    "&amp;Connect through SOCKS proxy:"
    "SOCKSプロキシで接続する";
  message [line 9]
    "Proxy &amp;IP:"
    "プロキシの IP (&amp;I) :";
  message [line 19]
    "IP address of the proxy (e.g. 127.0.0.1)"
    "プロキシのIPアドレス （例：127.0.0.1）";
  message [line 7]
    "&amp;Port:"
    "ポート (&amp;P) :";
  message [line 19]
    "Port of the proxy (e.g. 9050)"
    "プロキシのポート番号 (例 9050)";
  message [line 7]
    "SOCKS &amp;Version:"
    "SOCKS バージョン (&amp;V) :";
  message [line 13]
    "SOCKS version of the proxy (e.g. 5)"
    "SOCKS プロキシのバージョン (例 5)";
  message [line 36]
    "&amp;Window"
    "ウインドウ (&amp;W)";
  message [line 6]
    "Show only a tray icon after minimizing the window."
    "ウインドウを最小化したあとトレイ アイコンだけを表示する。";
  message [line 3]
    "&amp;Minimize to the tray instead of the taskbar"
    "タスクバーの代わりにトレイに最小化 (&amp;M)";
  message [line 7]
    "Minimize instead of exit the application when the window is closed. When this option is enabled, the application will be closed only after selecting Quit in the menu."
    "ウインドウが閉じられる時アプリケーションを終了せずに最小化します。このオプションが有効な時にアプリケーションを終了するにはメニューから終了を選択します。";
  message [line 3]
    "M&amp;inimize on close"
    "閉じる時に最小化 (&amp;i)";
  message [line 21]
    "&amp;Display"
    "表示 (&amp;D)";
  message [line 8]
    "User Interface &amp;language:"
    "ユーザインターフェースの言語 (&amp;l) :";
  message [line 13]
    "The user interface language can be set here. This setting will take effect after restarting MaryJaneCoin."
    "ユーザのインターフェースの言語の設定です。リスタートの後、有効します。"].

Definition OptionsDialog_2 : list Message := [
  message [line 11]
    "&amp;Unit to show amounts in:"
    "額を表示する単位 (&amp;U) :";
  message [line 13]
    "Choose the default subdivision unit to show in the interface and when sending coins."
    "インターフェース上の表示とコインの送信で使用する単位を選択します。";
  message [line 9]
    "Whether to show MaryJaneCoin addresses in the transaction list or not."
    "処理の歴史でブラックコインのアドレスを表示する／しない。";
  message [line 3]
    "&amp;Display addresses in transaction list"
    "処理の履歴にアドレスを表示 (&amp;D)";
  message [line 7]
    "Whether to show coin control features or not."
    "コインコントロールを表示する／しない。";
  message [line 3]
    "Display coin &amp;control features (experts only!)"
    "コインコントロールの設定を表示する(有識者のみ！)";
  message [line 71]
    "&amp;OK"
    "&amp;OK";
  message [line 7]
    "&amp;Cancel"
    "キャンセル (&amp;C)";
  message [line 10]
    "&amp;Apply"
    "適用する";
  message [file "../optionsdialog.cpp" 55]
    "default"
    "初期値";
  message [line 149; line 9]
    "Warning"
    "警告";
  message [line (-9); line 9]
    "This setting will take effect after restarting MaryJaneCoin."
    "この設定はブラックコインをリスタートした後に有効する。";
  message [line 29]
    "The supplied proxy address is invalid."
    "プロキシアドレスが無効です。"].

Definition OptionsDialog : Context := {| c_name := "OptionsDialog"; c_messages := OptionsDialog_1 ++ OptionsDialog_2 |}.

Definition OverviewPage : Context := {| c_name := "OverviewPage"; c_messages := [
  message [file "../forms/overviewpage.ui" 14]
    "Form"
    "フォーム";
  message [line 33; line 231]
    "The displayed information may be out of date. Your wallet automatically synchronizes with the MaryJaneCoin network after a connection is established, but this process has not completed yet."
    "表示されている情報は時間遅れている。接続したら、ウォレットは自動的にブラックコインネットワークと同期しますが過程は完了してません。";
  message [line (-160)]
    "Stake:"
    "賭け金：";
  message [line 29]
    "Unconfirmed:"
    "未検証：";
  message [line (-107)]
    "Wallet"
    "ウォレット";
  message [line 49]
    "Spendable:"
    "支出可能：";
  message [line 16]
    "Your current spendable balance"
    "あなたの利用可能残高";
  message [line 71]
    "Immature:"
    "未完成:";
  message [line 13]
    "Mined balance that has not yet matured"
    "完成していない採掘された残高";
  message [line 20]
    "Total:"
    "合計:";
  message [line 16]
    "Your current total balance"
    "あなたの現在の残高";
  message [line 46]
    "&lt;b&gt;Recent transactions&lt;/b&gt;"
    "&lt;b&gt;最近の処理&lt;/b&gt;";
  message [line (-108)]
    "Total of transactions that have yet to be confirmed, and do not yet count toward the current balance"
    "未確認の合計で、まだ現在の残高に含まれていない。";
  message [line (-29)]
    "Total of coins that was staked, and do not yet count toward the current balance"
    "賭けているコインの合計で、まだ現在の残高に含まれていない。";
  message [file "../overviewpage.cpp" 113; line 1]
    "out of sync"
    "同期していない"] |}.

Definition QRCodeDialog : Context := {| c_name := "QRCodeDialog"; c_messages := [
  message [file "../forms/qrcodedialog.ui" 14]
    "QR Code Dialog"
    "QRコードのダイアログ";
  message [line 59]
    "Request Payment"
    "支払いを要請する";
  message [line 56]
    "Amount:"
    "総額:";
  message [line (-44)]
    "Label:"
    "レベル";
  message [line 19]
    "Message:"
    "メッセージ:";
  message [line 71]
    "&amp;Save As..."
    "&amp;S名前を付けて保存...";
  message [file "../qrcodedialog.cpp" 62]
    "Error encoding URI into QR Code."
    "URIからQRコードにエンコードするエラー。";
  message [line 40]
    "The entered amount is invalid, please check."
    "入力された額は無効です。確認してください。";
  message [line 23]
    "Resulting URI too long, try to reduce the text for label / message."
    "URIは長過ぎて、ラベル文字の長さを短くしてください。";
  message [line 25]
    "Save QR Code"
    "QRコードを保存";
  message [line 0]
    "PNG Images (*.png)"
    "PNG イメージ (*.png)"] |}.

Definition RPCConsole : Context := {| c_name := "RPCConsole"; c_messages := [
  message [file "../forms/rpcconsole.ui" 46]
    "Client name"
    "クライアント名";
  message [line 10; line 23; line 26; line 23; line 23; line 36; line 53; line 23; line 23; file "../rpcconsole.cpp" 348]
    "N/A"
    "N/A";
  message [line (-217)]
    "Client version"
    "クライアントのバージョン";
  message [line (-45)]
    "&amp;Information"
    "情報 (&amp;I)";
  message [line 68]
    "Using OpenSSL version"
    "使用中の OpenSSL のバージョン";
  message [line 49]
    "Startup time"
    "起動した日時";
  message [line 29]
    "Network"
    "ネットワーク";
  message [line 7]
    "Number of connections"
    "接続数";
  message [line 23]
    "On testnet"
    "testnetで";
  message [line 23]
    "Block chain"
    "ブロック チェーン";
  message [line 7]
    "Current number of blocks"
    "現在のブロック数";
  message [line 23]
    "Estimated total blocks"
    "推定総ブロック数";
  message [line 23]
    "Last block time"
    "最終ブロックの日時";
  message [line 52]
    "&amp;Open"
    "開く (&amp;O)";
  message [line 16]
    "Command-line options"
    "コマンドラインのオプション";
  message [line 7]
    "Show the MaryJaneCoin-Qt help message to get a list with possible MaryJaneCoin command-line options."
    "ブラックコインQTのコマンドラインのヘルプ情報を表示する。";
  message [line 3]
    "&amp;Show"
    "(&amp;S)表示";
  message [line 24]
    "&amp;Console"
    "コンソール (&amp;C)";
  message [line (-260)]
    "Build date"
    "ビルドの日付";
  message [line (-104)]
    "MaryJaneCoin - Debug window"
    "ブラックコイン：デバッグウインドウ";
  message [line 25]
    "MaryJaneCoin Core"
    "ブラックコインコア";
  message [line 279]
    "Debug log file"
    "デバッグ用ログファイル";
  message [line 7]
    "Open the MaryJaneCoin debug log file from the current data directory. This can take a few seconds for large log files."
    "現行のディレクトリからデバッグログファイルを開く。大きなファイルのばい、少し時間かかる。";
  message [line 102]
    "Clear console"
    "コンソールをクリア";
  message [file "../rpcconsole.cpp" (-33)]
    "Welcome to the MaryJaneCoin RPC console."
    "ブラックコインRPCコンソールへようこそ。";
  message [line 1]
    "Use up and down arrows to navigate history, and &lt;b&gt;Ctrl-L&lt;/b&gt; to clear screen."
    "上下の矢印で履歴をたどれます。 &lt;b&gt;Ctrl-L&lt;/b&gt; でスクリーンを消去できます。";
  message [line 1]
    "Type &lt;b&gt;help&lt;/b&gt; for an overview of available commands."
    "使用可能なコマンドを見るには &lt;b&gt;help&lt;/b&gt; と入力します。"] |}.

Definition SendCoinsDialog_1 : list Message := [
  message [file "../forms/sendcoinsdialog.ui" 14; file "../sendcoinsdialog.cpp" 182; line 5; line 5; line 5; line 6; line 5; line 5]
    "Send Coins"
    "コインを送る";
  message [line 76]
    "Coin Control Features"
    "コインのコントロールの設定";
  message [line 20]
    "Inputs..."
    "入力...";
  message [line 7]
    "automatically selected"
    "自動的に選択";
  message [line 19]
    "Insufficient funds!"
    "資金不足！";
  message [line 77]
    "Quantity:"
    "数量：";
  message [line 22; line 35]
    "0"
    "0";
  message [line (-19)]
    "Bytes:"
    "バイト";
  message [line 51]
    "Amount:"
    "総額:";
  message [line 22; line 86; line 86; line 32]
    "0.00 MARYJ"
    "123.456 MARYJ {0.00 ?}";
  message [line (-191)]
    "Priority:"
    "優先:";
  message [line 19]
    "medium"
    "中";
  message [line 32]
    "Fee:"
    "料金:";
  message [line 35]
    "Low Output:"
    "アウトプット低い:";
  message [line 19]
    "no"
    "いいえ";
  message [line 32]
    "After Fee:"
    "料金の後";
  message [line 35]
    "Change"
    "お釣り:";
  message [line 50]
    "custom change address"
    "カスタムのお釣りのアドレス";
  message [line 106]
    "Send to multiple recipients at once"
    "一度に複数の人に送る";
  message [line 3]
    "Add &amp;Recipient"
    "受取人を追加 (&amp;R)";
  message [line 20]
    "Remove all transaction fields"
    "全分の処理欄を削除する";
  message [line 3]
    "Clear &amp;All"
    "すべてクリア (&amp;A)";
  message [line 28]
    "Balance:"
    "残高:";
  message [line 16]
    "123.456 MARYJ"
    "123.456 MARYJ";
  message [line 31]
    "Confirm the send action"
    "送る操作を確認する";
  message [line 3]
    "S&amp;end"
    "送る (&amp;e)";
  message [file "../sendcoinsdialog.cpp" (-173)]
    "Enter a MaryJaneCoin address (e.g. MBDKLakRxSRw7hUB2q5DXEnDpNpLVkqGZd)"
    "ブラックコインアドレスの入力 (例；MBDKLakRxSRw7hUB2q5DXEnDpNpLVkqGZd)"].

Definition SendCoinsDialog_2 : list Message := [
  message [line 15]
    "Copy quantity"
    "数量をコピー";
  message [line 1]
    "Copy amount"
    "総額のコピー";
  message [line 1]
    "Copy fee"
    "料金をコピー";
  message [line 1]
    "Copy after fee"
    "料金の後をコピー";
  message [line 1]
    "Copy bytes"
    "バイトをコピー";
  message [line 1]
    "Copy priority"
    "優先をコピー";
  message [line 1]
    "Copy low output"
    "アウトプット低いをコピー";
  message [line 1]
    "Copy change"
    "お釣りをコピー";
  message [line 86]
    "&lt;b&gt;%1&lt;/b&gt; to %2 (%3)"
    "&lt;b&gt;%1&lt;/b&gt; から %2 (%3)に";
  message [line 5]
    "Confirm send coins"
    "コインを送る確認";
  message [line 1]
    "Are you sure you want to send %1?"
    "%1送付、よろしいですか?";
  message [line 0]
    " and "
    "と";
  message [line 29]
    "The recipient address is not valid, please recheck."
    "受取人のアドレスが不正です。再確認してください。";
  message [line 5]
    "The amount to pay must be larger than 0."
    "支払額は0より大きくないといけません。";
  message [line 5]
    "The amount exceeds your balance."
    "額が残高を超えています。";
  message [line 5]
    "The total exceeds your balance when the %1 transaction fee is included."
    "%1 の処理手数料を含めると額が残高を超えています。";
  message [line 6]
    "Duplicate address found, can only send to each address once per send operation."
    "重複しているアドレスが見つかりました。1回の送信で同じアドレスに送ることは出来ません。";
  message [line 5]
    "Error: Transaction creation failed."
    "エラー：処理を失敗しました。";
  message [line 5]
    "Error: The transaction was rejected. This might happen if some of the coins in your wallet were already spent, such as if you used a copy of wallet.dat and coins were spent in the copy but not marked as spent here."
    "エラー：処理は拒否されました。ウォレットのコインをすでに費やした可能性で、wallet.datのコピーで費やしたが、現行のwallet.datとはアップデートされていない。";
  message [line 251]
    "WARNING: Invalid MaryJaneCoin address"
    "警告：無効なブラックコインアドレス";
  message [line 13]
    "(no label)"
    "（ラベル無し）";
  message [line 4]
    "WARNING: unknown change address"
    "警告：不明なお釣りのアドレス"].

Definition SendCoinsDialog : Context := {| c_name := "SendCoinsDialog"; c_messages := SendCoinsDialog_1 ++ SendCoinsDialog_2 |}.

Definition SendCoinsEntry : Context := {| c_name := "SendCoinsEntry"; c_messages := [
  message [file "../forms/sendcoinsentry.ui" 14]
    "Form"
    "フォーム";
  message [line 15]
    "A&amp;mount:"
    "金額(&amp;A):";
  message [line 13]
    "Pay &amp;To:"
    "送り先(&amp;T):";
  message [line 24; file "../sendcoinsentry.cpp" 25]
    "Enter a label for this address to add it to your address book"
    "アドレス帳に追加するには、このアドレスのラベルを入力します";
  message [line 9]
    "&amp;Label:"
    "ラベル(&amp;L):";
  message [line 18]
    "The address to send the payment to  (e.g. MBDKLakRxSRw7hUB2q5DXEnDpNpLVkqGZd)"
    "支払いへ送るアドレス (例：MBDKLakRxSRw7hUB2q5DXEnDpNpLVkqGZd)";
  message [line 10]
    "Choose address from address book"
    "アドレス帳からアドレスを選択する";
  message [line 10]
    "Alt+A"
    "Alt+A";
  message [line 7]
    "Paste address from clipboard"
    "クリップボードからアドレスを貼付ける";
  message [line 10]
    "Alt+P"
    "Alt+P";
  message [line 7]
    "Remove this recipient"
    "この受信者を外す";
  message [file "../sendcoinsentry.cpp" 1]
    "Enter a MaryJaneCoin address (e.g. MBDKLakRxSRw7hUB2q5DXEnDpNpLVkqGZd)"
    "ブラックコインアドレスの入力 (例；MBDKLakRxSRw7hUB2q5DXEnDpNpLVkqGZd)"] |}.

Definition SignVerifyMessageDialog_1 : list Message := [
  message [file "../forms/signverifymessagedialog.ui" 14]
    "Signatures - Sign / Verify a Message"
    "署名 - メッセージの署名/検証";
  message [line 13; line 124]
    "&amp;Sign Message"
    "メッセージの署名 (&amp;S)";
  message [line (-118)]
    "You can sign messages with your addresses to prove you own them. Be careful not to sign anything vague, as phishing attacks may try to trick you into signing your identity over to them. Only sign fully-detailed statements you agree to."
    "あなた自身を立証するためにあなたのアドレスでメッセージに署名することができます。フィッシング攻撃によってあなたを騙して署名を譲渡させようとするかもしれないので、不明確なものは絶対に署名しないように注意してください。あなたが同意する完全に詳細な声明にだけ署名してください。";
  message [line 18]
    "The address to sign the message with (e.g. MBDKLakRxSRw7hUB2q5DXEnDpNpLVkqGZd)"
    "メッセージの署名するアドレス(例：MBDKLakRxSRw7hUB2q5DXEnDpNpLVkqGZd)";
  message [line 10; line 203]
    "Choose an address from the address book"
    "アドレス帳からアドレスを選ぶ";
  message [line (-193); line 203]
    "Alt+A"
    "Alt+A";
  message [line (-193)]
    "Paste address from clipboard"
    "クリップボードからアドレスを貼付ける";
  message [line 10]
    "Alt+P"
    "Alt+P";
  message [line 12]
    "Enter the message you want to sign here"
    "ここにあなたが署名するメッセージを入力します";
  message [line 24]
    "Copy the current signature to the system clipboard"
    "現在の署名をシステムのクリップボードにコピーする";
  message [line 21]
    "Sign the message to prove you own this MaryJaneCoin address"
    "所有権の証明するためこのメサッジを署名する";
  message [line 17]
    "Reset all sign message fields"
    "メッセージ署名の内容をすべて消去します";
  message [line 3; line 146]
    "Clear &amp;All"
    "すべてクリア (&amp;A)";
  message [line (-87); line 70]
    "&amp;Verify Message"
    "メッセージの検証 (&amp;V)";
  message [line (-64)]
    "Enter the signing address, message (ensure you copy line breaks, spaces, tabs, etc. exactly) and signature below to verify the message. Be careful not to read more into the signature than what is in the signed message itself, to avoid being tricked by a man-in-the-middle attack."
    "メッセージを検証するために、署名するアドレスとメッセージ(改行、スペース、タブなどを正確にコピーしてください)、そして署名を入力します。中間者攻撃によってだまされることを避けるために、署名されたメッセージそのものよりも、署名を読み取られないように注意してください。";
  message [line 21]
    "The address the message was signed with (e.g. MBDKLakRxSRw7hUB2q5DXEnDpNpLVkqGZd)"
    "メッセージの署名するアドレス(例：MBDKLakRxSRw7hUB2q5DXEnDpNpLVkqGZd)";
  message [line 40]
    "Verify the message to ensure it was signed with the specified MaryJaneCoin address"
    "受け取ったメッセージの署名を確保のため、メッセージを確認する。";
  message [line 17]
    "Reset all verify message fields"
    "入力項目の内容をすべて消去します";
  message [file "../signverifymessagedialog.cpp" 27; line 3]
    "Enter a MaryJaneCoin address (e.g. MBDKLakRxSRw7hUB2q5DXEnDpNpLVkqGZd)"
    "ブラックコインのアドレスを入力(例：MBDKLakRxSRw7hUB2q5DXEnDpNpLVkqGZd)";
  message [line (-2)]
    "Click &quot;Sign Message&quot; to generate signature"
    "署名を作成するには&quot;メッセージの署名&quot;をクリック";
  message [line 3]
    "Enter MaryJaneCoin signature"
    "ブラックコインのデジタル署名を入力";
  message [line 82; line 81]
    "The entered address is invalid."
    "不正なアドレスが入力されました。";
  message [line (-81); line 8; line 73; line 8]
    "Please check the address and try again."
    "アドレスを確かめてからもう一度試してください。";
  message [line (-81); line 81]
    "The entered address does not refer to a key."
    "入力されたアドレスに関連するキーがありません。";
  message [line (-73)]
    "Wallet unlock was cancelled."
    "ウォレットのアンロックはキャンセルされました。";
  message [line 8]
    "Private key for the entered address is not available."
    "入力されたアドレスのプライベート キーが無効です。";
  message [line 12]
    "Message signing failed."
    "メッセージの署名に失敗しました。"].

Definition SignVerifyMessageDialog_2 : list Message := [
  message [line 5]
    "Message signed."
    "メッセージに署名しました。";
  message [line 59]
    "The signature could not be decoded."
    "署名がデコードできません。";
  message [line 0; line 13]
    "Please check the signature and try again."
    "署名を確認してからもう一度試してください。";
  message [line 0]
    "The signature did not match the message digest."
    "署名はメッセージ ダイジェストと一致しませんでした。";
  message [line 7]
    "Message verification failed."
    "メッセージの検証に失敗しました。";
  message [line 5]
    "Message verified."
    "メッセージは検証されました。"].

Definition SignVerifyMessageDialog : Context := {| c_name := "SignVerifyMessageDialog"; c_messages := SignVerifyMessageDialog_1 ++ SignVerifyMessageDialog_2 |}.

Definition TransactionDesc_1 : list Message := [
  message [file "../transactiondesc.cpp" 19]
    "Open until %1"
    "ユニット %1 を開く";
  forms [line (-2)]
    "Open for %n block(s)"
    ["%n ブロックに開いている"];
  message [line 8]
    "conflicted"
    "相違";
  message [line 2]
    "%1/offline"
    "%1/オフライン";
  message [line 2]
    "%1/unconfirmed"
    "%1/未検証";
  message [line 2]
    "%1 confirmations"
    "%1 確認";
  message [line 18]
    "Status"
    "ステータス";
  forms [line 7]
    ", broadcast through %n node(s)"
    ["%n ノードにブロードキャスト"];
  message [line 4]
    "Date"
    "日付";
  message [line 7]
    "Source"
    "ソース";
  message [line 0]
    "Generated"
    "生成された";
  message [line 5; line 17]
    "From"
    "送信";
  message [line 1; line 22; line 58]
    "To"
    "受信";
  message [line (-77); line 2]
    "own address"
    "自分のアドレス";
  message [line (-2)]
    "label"
    "ラベル";
  message [line 37; line 12; line 45; line 17; line 30]
    "Credit"
    "クレジット";
  forms [line (-102)]
    "matures in %n more block(s)"
    ["%n 以上のブロックが満期"];
  message [line 2]
    "not accepted"
    "承認されなかった";
  message [line 44; line 8; line 15; line 30]
    "Debit"
    "引き落とし額";
  message [line (-39)]
    "Transaction fee"
    "処理の手数料";
  message [line 16]
    "Net amount"
    "正味金額";
  message [line 6]
    "Message"
    "メッセージ";
  message [line 2]
    "Comment"
    "コメント";
  message [line 2]
    "Transaction ID"
    "処理のID";
  message [line 3]
    "Generated coins must mature 510 blocks before they can be spent. When you generated this block, it was broadcast to the network to be added to the block chain. If it fails to get into the chain, its state will change to &quot;not accepted&quot; and it won&apos;t be spendable. This may occasionally happen if another node generates a block within a few seconds of yours."
    "コインを費やす前に発現されたコインは510ブロック間成熟しなければなりません。このブロックを発現させたときに、ブロックチェインに足すためにネットワークへ放送しました。ブロックチェインに追加失敗したばい、レベルは「受け入られていない」に変わって、費やせられない状況になります。自分のノードと他のノードと同時に新しいブロックを発現させたときに、時折に起こること。";
  message [line 7]
    "Debug information"
    "デバッグ情報";
  message [line 8]
    "Transaction"
    "処理"].

Definition TransactionDesc_2 : list Message := [
  message [line 5]
    "Inputs"
    "入力";
  message [line 23]
    "Amount"
    "総額";
  message [line 1]
    "true"
    "正しい";
  message [line 0]
    "false"
    "正しくない";
  message [line (-211)]
    ", has not been successfully broadcast yet"
    "まだブロードキャストが成功していません";
  message [line 35]
    "unknown"
    "未確認"].

Definition TransactionDesc : Context := {| c_name := "TransactionDesc"; c_messages := TransactionDesc_1 ++ TransactionDesc_2 |}.

Definition TransactionDescDialog : Context := {| c_name := "TransactionDescDialog"; c_messages := [
  message [file "../forms/transactiondescdialog.ui" 14]
    "Transaction details"
    "処理の詳細";
  message [line 6]
    "This pane shows a detailed description of the transaction"
    "ここでは処理の詳細を表示しています"] |}.

Definition TransactionTableModel : Context := {| c_name := "TransactionTableModel"; c_messages := [
  message [file "../transactiontablemodel.cpp" 226]
    "Date"
    "日付";
  message [line 0]
    "Type"
    "タイプ";
  message [line 0]
    "Address"
    "Helbidea";
  message [line 0]
    "Amount"
    "総額";
  message [line 60]
    "Open until %1"
    "ユニット %1 を開く";
  message [line 12]
    "Confirmed (%1 confirmations)"
    "検証されました (%1 検証済み)";
  forms [line (-15)]
    "Open for %n more block(s)"
    ["%n 以上のブロックを開く"];
  message [line 6]
    "Offline"
    "オフライン";
  message [line 3]
    "Unconfirmed"
    "未検証";
  message [line 3]
    "Confirming (%1 of %2 recommended confirmations)"
    "検証最中 (%1 / %2 の進めている検証済み)";
  message [line 6]
    "Conflicted"
    "相違";
  message [line 3]
    "Immature (%1 confirmations, will be available after %2)"
    "未熟 (%1 検証,%2の後可用ができる)";
  message [line 3]
    "This block was not received by any other nodes and will probably not be accepted!"
    "このブロックは他のどのノードによっても受け取られないで、多分受け入れられないでしょう！";
  message [line 3]
    "Generated but not accepted"
    "生成されましたが承認されませんでした";
  message [line 42]
    "Received with"
    "受信元";
  message [line 2]
    "Received from"
    "送り主";
  message [line 3]
    "Sent to"
    "送り先";
  message [line 2]
    "Payment to yourself"
    "自分自身への支払い";
  message [line 2]
    "Mined"
    "発掘した";
  message [line 38]
    "(n/a)"
    "(n/a)";
  message [line 190]
    "Transaction status. Hover over this field to show number of confirmations."
    "処理の状況。この欄の上にカーソルを置くと検証の数を表示します。";
  message [line 2]
    "Date and time that the transaction was received."
    "処理を受信した日時。";
  message [line 2]
    "Type of transaction."
    "処理の種類。";
  message [line 2]
    "Destination address of transaction."
    "処理の宛先アドレス。";
  message [line 2]
    "Amount removed from or added to balance."
    "残高に追加または削除された総額。"] |}.

Definition TransactionView_1 : list Message := [
  message [file "../transactionview.cpp" 55; line 16]
    "All"
    "すべて";
  message [line (-15)]
    "Today"
    "今日";
  message [line 1]
    "This week"
    "今週";
  message [line 1]
    "This month"
    "今月";
  message [line 1]
    "Last month"
    "先月";
  message [line 1]
    "This year"
    "今年";
  message [line 1]
    "Range..."
    "期間...";
  message [line 11]
    "Received with"
    "送り主";
  message [line 2]
    "Sent to"
    "送り先";
  message [line 2]
    "To yourself"
    "自分自身";
  message [line 1]
    "Mined"
    "発掘した";
  message [line 1]
    "Other"
    "その他";
  message [line 7]
    "Enter address or label to search"
    "検索するアドレスまたはラベルを入力";
  message [line 7]
    "Min amount"
    "最小の額";
  message [line 34]
    "Copy address"
    "アドレスをコピーする";
  message [line 1]
    "Copy label"
    "ラベルをコピーする";
  message [line 1]
    "Copy amount"
    "総額のコピー";
  message [line 1]
    "Copy transaction ID"
    "処理IDをコピー";
  message [line 1]
    "Edit label"
    "ラベルの編集";
  message [line 1]
    "Show transaction details"
    "処理の詳細を表示";
  message [line 144]
    "Export Transaction Data"
    "処理のデータを書き出す";
  message [line 1]
    "Comma separated file (*.csv)"
    "テキスト CSV (*.csv)";
  message [line 8]
    "Confirmed"
    "検証済み";
  message [line 1]
    "Date"
    "日付";
  message [line 1]
    "Type"
    "タイプ";
  message [line 1]
    "Label"
    "ラベル";
  message [line 1]
    "Address"
    "Helbidea";
  message [line 1]
    "Amount"
    "総額";
  message [line 1]
    "ID"
    "ID"].

Definition TransactionView_2 : list Message := [
  message [line 4]
    "Error exporting"
    "エラーを書き出す";
  message [line 0]
    "Could not write to file %1."
    "ファイルを書き込めなかった。%1";
  message [line 100]
    "Range:"
    "期間:";
  message [line 8]
    "to"
    "から"].

Definition TransactionView : Context := {| c_name := "TransactionView"; c_messages := TransactionView_1 ++ TransactionView_2 |}.

Definition WalletModel : Context := {| c_name := "WalletModel"; c_messages := [
  message [file "../walletmodel.cpp" 206]
    "Sending..."
    "通信中..."] |}.

Definition bitcoin_core_1 : list Message := [
  message [file "../bitcoinstrings.cpp" 33]
    "MaryJaneCoin version"
    "ブラックコインバージョン";
  message [line 1]
    "Usage:"
    "使用法:";
  message [line 1]
    "Send command to -server or MaryJaneCoind"
    "-server か MaryJaneCoindへコマンドを送る。";
  message [line 1]
    "List commands"
    "コマンド一覧";
  message [line 1]
    "Get help for a command"
    "コマンドのヘルプ";
  message [line 2]
    "Options:"
    "オプション:";
  message [line 2]
    "Specify configuration file (default: MaryJaneCoin.conf)"
    "設定ファイルを特定する (デファルト: MaryJaneCoin.conf)";
  message [line 1]
    "Specify pid file (default: MaryJaneCoind.pid)"
    "pid ファイルを特定する (デフォルト: MaryJaneCoind.pid)";
  message [line 2]
    "Specify wallet file (within data directory)"
    ("ウォレットのファイルを指定" +:+ ideographic_space +:+ "(データ・ディレクトリの中に)");
  message [line (-1)]
    "Specify data directory"
    "データ ディレクトリの指定";
  message [line 2]
    "Set database cache size in megabytes (default: 25)"
    "データベースのキャッシュサイズをメガバイトで設定 (初期値: 25)";
  message [line 1]
    "Set database disk log size in megabytes (default: 100)"
    "メガバイトでのデータベースのログザイズの大きさの設定(デファルト：100)";
  message [line 6]
    "Listen for connections on &lt;port&gt; (default: 15714 or testnet: 25714)"
    "&lt;port&gt; で 接続をリスン (デフォルト: 15714かtestnet は 25714)";
  message [line 1]
    "Maintain at most &lt;n&gt; connections to peers (default: 125)"
    "ピアの最大接続数 (初期値: 125)";
  message [line 3]
    "Connect to a node to retrieve peer addresses, and disconnect"
    "ピア アドレスを取得するためにノードに接続し、そして切断します";
  message [line 1]
    "Specify your own public address"
    "あなた自身のパブリックなアドレスを指定";
  message [line 5]
    "Bind to given address. Use [host]:port notation for IPv6"
    "アドレスに結ぶ。IPv6のばい、[host]:port 表記法を使ってください。";
  message [line 2]
    "Stake your coins to support network and gain reward (default: 1)"
    "褒奨金をもらうためと、ブラックコインネットワークをサッポートするために、コインを賭ける(デファルト：1)";
  message [line 5]
    "Threshold for disconnecting misbehaving peers (default: 100)"
    "不正なピアを切断するためのしきい値 (初期値: 100)";
  message [line 1]
    "Number of seconds to keep misbehaving peers from reconnecting (default: 86400)"
    "不正なピアを再接続するまでの秒数 (初期値: 86400)";
  message [line (-44)]
    "An error occurred while setting up the RPC port %u for listening on IPv4: %s"
    "IPv4 でリスンする RPC ポート %u の設定中にエラーが発生しました: %s";
  message [line 51]
    "Detach block and address databases. Increases shutdown time (default: 0)"
    "ブロックとアドレスのデータベースを切り離す。この設定はシャットダウンの時間を伸ばさせます。(デファルト：0)";
  message [line 109]
    "Error: The transaction was rejected.  This might happen if some of the coins in your wallet were already spent, such as if you used a copy of wallet.dat and coins were spent in the copy but not marked as spent here."
    "エラー：処理は拒否されました。ウォレットのコインをすでに費やした可能性で、wallet.datのコピーで費やしたが、現行のwallet.datとはアップデートされていない。";
  message [line (-5)]
    "Error: This transaction requires a transaction fee of at least %s because of its amount, complexity, or use of recently received funds  "
    "エラー：額,複雑,最近もらった資金、どれかの理由で処理は少なくとも %sの料金が必要です。";
  message [line (-87)]
    "Listen for JSON-RPC connections on &lt;port&gt; (default: 15715 or testnet: 25715)"
    "&lt;port&gt; で JSON-RPC 接続をリスン (デフォルト: 15715かtestnet は 25715)";
  message [line (-11)]
    "Accept command line and JSON-RPC commands"
    "コマンドラインと JSON-RPC コマンドを許可";
  message [line 101]
    "Error: Transaction creation failed  "
    "エラー：処理を失敗しました。";
  message [line (-5)]
    "Error: Wallet locked, unable to create transaction  "
    "エラー：ウォレットはロックされたために、処理を作られなかった。";
  message [line (-8)]
    "Importing blockchain data file."
    "ブロックチェインのファイルを読み込んでいる。"].

Definition bitcoin_core_2 : list Message := [
  message [line 1]
    "Importing bootstrap blockchain data file."
    "ブートストラップなブロックチェインのファイルを読み込んでいる。";
  message [line (-88)]
    "Run in the background as a daemon and accept commands"
    "デーモンとしてバックグランドで実行しコマンドを許可";
  message [line 1]
    "Use the test network"
    "テストのためのネットワークを使用";
  message [line (-24)]
    "Accept connections from outside (default: 1 if no -proxy or -connect)"
    "外部からの接続を許可 (初期値:  -proxy または -connect を使用していない場合は1)";
  message [line (-38)]
    "An error occurred while setting up the RPC port %u for listening on IPv6, falling back to IPv4: %s"
    "IPv6 でリスンする RPC ポート %u の設定中にエラーが発生したので IPv4 に切り替えます: %s";
  message [line 117]
    "Error initializing database environment %s! To recover, BACKUP THAT DIRECTORY, then remove everything from it except for wallet.dat."
    "データベース%sを初期化するにエラーになりました。直すためにディレクトリをバックアップして、そしてwallet.dat意外のファイルを取り除いてください。";
  message [line (-20)]
    "Set maximum size of high-priority/low-fee transactions in bytes (default: 27000)"
    "バイトで、最優先、低料金の処理の最大サイズの設定(デファルト：27000)";
  message [line 11]
    "Warning: -paytxfee is set very high! This is the transaction fee you will pay if you send a transaction."
    "警告: -paytxfee が非常に高く設定されています! これは処理を送信する場合に支払う取引手数料です。";
  message [line 61]
    "Warning: Please check that your computer&apos;s date and time are correct! If your clock is wrong MaryJaneCoin will not work properly."
    (no_break_space +:+ "警告：コンピュータの日付と時間を調べてください。時間ずらしかったばい、ブラックコイン QTは正しく行動しない。");
  message [line (-31)]
    "Warning: error reading wallet.dat! All keys read correctly, but transaction data or address book entries might be missing or incorrect."
    "警告: wallet.dat の読み込みエラー! すべてのキーは正しく読み取れますが、処理のデータやアドレス帳のエントリが失われたか、正しくない可能性があります。";
  message [line (-18)]
    "Warning: wallet.dat corrupt, data salvaged! Original wallet.dat saved as wallet.{timestamp}.bak in %s; if your balance or transactions are incorrect you should restore from a backup."
    "警告: wallet.dat のデータはの汚染で、でデータを復旧しました！ オリジナルの wallet.dat は wallet.{timestamp}.bak として %s に保存されました; もしもあなたの残高や処理が正しくないばい、バックアップから復元してください。";
  message [line (-30)]
    "Attempt to recover private keys from a corrupt wallet.dat"
    "壊れた wallet.dat から秘密鍵を復旧することを試す";
  message [line 4]
    "Block creation options:"
    "ブロック作成オプション:";
  message [line (-62)]
    "Connect only to the specified node(s)"
    "指定したノードだけに接続";
  message [line 4]
    "Discover own IP address (default: 1 when listening and no -externalip)"
    "自分の IP アドレスを発見 (初期値:  リスン中と -externalip を使用していない場合は1)";
  message [line 94]
    "Failed to listen on any port. Use -listen=0 if you want this."
    "ポートのリスンに失敗しました。必要であれば -listen=0 を使用してください。";
  message [line (-90)]
    "Find peers using DNS lookup (default: 1)"
    "DNSルックアップでピーアを探す(デファルト：1)";
  message [line 5]
    "Sync checkpoints policy (default: strict)"
    "同期チェックポイント方針(デファルト：厳しい)";
  message [line 83]
    "Invalid -tor address: &apos;%s&apos;"
    "無効なTORアドレス: &apos;%s&apos;";
  message [line 4]
    "Invalid amount for -reservebalance=&lt;amount&gt;"
    "-reservebalance=&lt;amount&gt;の額は無効です";
  message [line (-82)]
    "Maximum per-connection receive buffer, &lt;n&gt;*1000 bytes (default: 5000)"
    "接続毎の最大受信バッファ &lt;n&gt;*1000 バイト (初期値: 5000)";
  message [line 1]
    "Maximum per-connection send buffer, &lt;n&gt;*1000 bytes (default: 1000)"
    "接続毎の最大送信バッファ &lt;n&gt;*1000 バイト (初期値: 1000)";
  message [line (-16)]
    "Only connect to nodes in network &lt;net&gt; (IPv4, IPv6 or Tor)"
    "&lt;net&gt; (IPv4, IPv6, Tor) ネットワーク内のノードだけに接続する";
  message [line 28]
    "Output extra debugging information. Implies all other -debug* options"
    "余分なデバッグ情報を出力する。この設定はすべてのdebug* の設定を有効にする。";
  message [line 1]
    "Output extra network debugging information"
    "余分なネットワークのデバッグ情報を出力する";
  message [line 1]
    "Prepend debug output with timestamp"
    "デバッグのアウトプットはタイムスタンプで先頭に追加する";
  message [line 35]
    "SSL options: (see the Bitcoin Wiki for SSL setup instructions)"
    "SSL オプション: (SSLのセットアップ手順は Bitcoin Wiki をご覧下さい)";
  message [line (-74)]
    "Select the version of socks proxy to use (4-5, default: 5)"
    "SOCKSプロクシーのバージョンを選択する (4-5、 デファルト: 5)";
  message [line 41]
    "Send trace/debug info to console instead of debug.log file"
    "トレース/デバッグ情報を debug.log ファイルの代わりにコンソールへ送る"].

Definition bitcoin_core_3 : list Message := [
  message [line 1]
    "Send trace/debug info to debugger"
    "デバッガへ追跡とデバッグ情報を送る。";
  message [line 28]
    "Set maximum block size in bytes (default: 250000)"
    "最大ブロックサイズをバイトで設定 (初期値: 250000)";
  message [line (-1)]
    "Set minimum block size in bytes (default: 0)"
    "最小ブロックサイズをバイトで設定 (初期値: 0)";
  message [line (-29)]
    "Shrink debug.log file on client startup (default: 1 when no -debug)"
    "クライアント起動時に debug.log ファイルを縮小 (初期値: -debug オプションを指定しない場合は1)";
  message [line (-42)]
    "Specify connection timeout in milliseconds (default: 5000)"
    "接続のタイムアウトをミリセコンドで指定 (初期値: 5000)";
  message [line 109]
    "Unable to sign checkpoint, wrong checkpointkey?
"
    "チェックポイントを署名できません。checkpointkeyは違いますか。
";
  message [line (-80)]
    "Use UPnP to map the listening port (default: 0)"
    "リスン ポートの割当に UPnP を使用 (初期値: 0)";
  message [line (-1)]
    "Use UPnP to map the listening port (default: 1 when listening)"
    "リスン ポートの割当に UPnP を使用 (初期値: リスン中は1)";
  message [line (-25)]
    "Use proxy to reach tor hidden services (default: same as -proxy)"
    "プロクシーでTORヒドゥンサービス(TOR Hidden Services)を接続する(デファルト：-proxyと同じ)";
  message [line 42]
    "Username for JSON-RPC connections"
    "JSON-RPC 接続のユーザー名";
  message [line 47]
    "Verifying database integrity..."
    "データベースの保全性を確認最中...";
  message [line 57]
    "WARNING: syncronized checkpoint violation detected, but skipped!"
    "警告：シンクロナイズドチェックポイント違反を検出したが、チェックポイントを飛ばした。";
  message [line 1]
    "Warning: Disk space is low!"
    "警告：ディスクの空き領域は少ない！";
  message [line (-2)]
    "Warning: This version is obsolete, upgrade required!"
    "警告: このバージョンは古いのでアップグレードが必要です!";
  message [line (-48)]
    "wallet.dat corrupt, salvage failed"
    "wallet.dat が壊れ、復旧に失敗しました";
  message [line (-54)]
    "Password for JSON-RPC connections"
    "JSON-RPC 接続のパスワード";
  message [line (-84)]
    "%s, you must set a rpcpassword in the configuration file:
 %s
It is recommended you use the following random password:
rpcuser=MaryJaneCoinrpc
rpcpassword=%s
(you do not need to remember this password)
The username and password MUST NOT be the same.
If the file does not exist, create it with owner-readable-only file permissions.
It is also recommended to set alertnotify so you are notified of problems;
for example: alertnotify=echo %%s | mail -s &quot;MaryJaneCoin Alert&quot; admin@foo.com
"
    "%s, 設定ファイル：%sでrpcpasswordのパスワードを入力しなければならい

このランダムパスワードのおすすめです：
rpcuser=MaryJaneCoinrpc
rpcpassword=%s
(このパサワードを覚えなくても大丈夫です)
ユーザ名とパスワードは同じであってはなりません。
ファイルは存在しないばいは、所有者が読み取り可能な専用のファイルを作成してください。
問題のことを知らせるために、alertnotifyの設定を有効にしたほうがいいです。
例：alertnotify=echo %%s | mail -s &quot;ブラックコイン警告&quot; admin@foo.com
";
  message [line 51]
    "Find peers using internet relay chat (default: 0)"
    "インターネットリレーチャット(IRC)でピアアを探す。(デファルト:1 {0}?)";
  message [line 5]
    "Sync time with other nodes. Disable if time on your system is precise e.g. syncing with NTP (default: 1)"
    "他のノードと時刻の同期する。確な時刻のコンピューターのばい、無効する。例：NTP同期設定有効ある(デファルト：1)";
  message [line 15]
    "When creating transactions, ignore inputs with value less than this (default: 0.01)"
    "処理を作ると、この額より少ない数字を無視する (デファルト：0.01)";
  message [line 16]
    "Allow JSON-RPC connections from specified IP address"
    "指定した IP アドレスからの JSON-RPC 接続を許可";
  message [line 1]
    "Send commands to node running on &lt;ip&gt; (default: 127.0.0.1)"
    "&lt;ip&gt; (初期値: 127.0.0.1) で実行中のノードにコマンドを送信";
  message [line 1]
    "Execute command when the best block changes (%s in cmd is replaced by block hash)"
    "最良のブロックに変更する際にコマンドを実行 (cmd の %s はブロック ハッシュに置換される)";
  message [line 3]
    "Execute command when a wallet transaction changes (%s in cmd is replaced by TxID)"
    "ウォレットの処理を変更する際にコマンドを実行 (cmd の %s は TxID に置換される)";
  message [line 3]
    "Require a confirmations for change (default: 0)"
    "変更するために、確認を必要とする (デファルト：0)"].

Definition bitcoin_core_4 : list Message := [
  message [line 1]
    "Enforce transaction scripts to use canonical PUSH operators (default: 1)"
    "処理のスクリプトコマンドで標準的なPUSHオペレータを施行する(デファルト：1)";
  message [line 2]
    "Execute command when a relevant alert is received (%s in cmd is replaced by message)"
    "関連した警告をもらったら、コマンドを実行する (cmdの中で%sにメッセージを交換される)";
  message [line 3]
    "Upgrade wallet to latest format"
    "ウォレットを最新のフォーマットにアップグレード";
  message [line 1]
    "Set key pool size to &lt;n&gt; (default: 100)"
    "key pool のサイズを &lt;n&gt; (初期値: 100) にセット";
  message [line 1]
    "Rescan the block chain for missing wallet transactions"
    "失ったウォレットの処理のブロック チェーンを再スキャン";
  message [line 2]
    "How many blocks to check at startup (default: 2500, 0 = all)"
    ("スタートのときに、いくつのブロックを調べます" +:+ ideographic_space +:+ "(デファルト：2500、 0 = すべて )");
  message [line 1]
    "How thorough the block verification is (0-6, default: 1)"
    ("ブロック検証の徹底の程度" +:+ ideographic_space +:+ "(0-6 、デファルト：1)");
  message [line 1]
    "Imports blocks from external blk000?.dat file"
    "外部 blk000?.dat ファイルからブロックを読み込む。";
  message [line 8]
    "Use OpenSSL (https) for JSON-RPC connections"
    "JSON-RPC 接続に OpenSSL (https) を使用";
  message [line 1]
    "Server certificate file (default: server.cert)"
    "サーバ証明書ファイル (初期値: server.cert)";
  message [line 1]
    "Server private key (default: server.pem)"
    "サーバの秘密鍵 (初期値: server.pem)";
  message [line 1]
    "Acceptable ciphers (default: TLSv1+HIGH:!SSLv2:!aNULL:!eNULL:!AH:!3DES:@STRENGTH)"
    "許容可能な暗号 (デフォルト： TLSv1+HIGH:!SSLv2:!aNULL:!eNULL:!AH:!3DES:@STRENGTH)";
  message [line 53]
    "Error: Wallet unlocked for staking only, unable to create transaction."
    "エラー：アンロックされたウォレットは賭けるためだけで、処理を作られない。";
  message [line 18]
    "WARNING: Invalid checkpoint found! Displayed transactions may not be correct! You may need to upgrade, or notify developers."
    "警告：無効なチェックポイントを見つかりました！表示された処理は正しくない可能性がある！アップグレードするか、デベロッパーに報告する必要があります。";
  message [line (-158)]
    "This help message"
    "このヘルプ メッセージ";
  message [line 95]
    "Wallet %s resides outside data directory %s."
    "%sウォレットはディレクトリ%sの外にあります。";
  message [line 1]
    "Cannot obtain a lock on data directory %s.  MaryJaneCoin is probably already running."
    "%sディレクトリにをロックオンできない。ブラックコインQTは、もう発行してるでしょう。";
  message [line (-98)]
    "MaryJaneCoin"
    "ブラックコイン";
  message [line 140]
    "Unable to bind to %s on this computer (bind returned error %d, %s)"
    "このコンピュータの %s にバインドすることができません (バインドが返したエラーは %d, %s)";
  message [line (-130)]
    "Connect through socks proxy"
    "SOCKSプロキシで接続する";
  message [line 3]
    "Allow DNS lookups for -addnode, -seednode and -connect"
    "-addnode, -seednode と -connect で DNS ルックアップを許可する";
  message [line 122]
    "Loading addresses..."
    "アドレスを読み込んでいます...";
  message [line (-15)]
    "Error loading blkindex.dat"
    "blkindex.dat 読み込みエラー";
  message [line 2]
    "Error loading wallet.dat: Wallet corrupted"
    "wallet.dat 読み込みエラー: ウォレットが壊れました";
  message [line 4]
    "Error loading wallet.dat: Wallet requires newer version of MaryJaneCoin"
    ("wallet.dat 読み込みエラー: " +:+ ideographic_space +:+ "ブラックコインQTの最新バージョンが必要です");
  message [line 1]
    "Wallet needed to be rewritten: restart MaryJaneCoin to complete"
    "ウォレットのデータをリライトしなければならい：ブラックコインQTをリスタートしてください";
  message [line 1]
    "Error loading wallet.dat"
    "wallet.dat 読み込みエラー";
  message [line (-16)]
    "Invalid -proxy address: &apos;%s&apos;"
    "無効な -proxy アドレス: &apos;%s&apos;";
  message [line (-1)]
    "Unknown network specified in -onlynet: &apos;%s&apos;"
    "-onlynet で指定された &apos;%s&apos; は未知のネットワークです"].

Definition bitcoin_core_5 : list Message := [
  message [line (-1)]
    "Unknown -socks proxy version requested: %i"
    "-socks で指定された %i は未知のバージョンです";
  message [line 4]
    "Cannot resolve -bind address: &apos;%s&apos;"
    "-bind のアドレス &apos;%s&apos; を解決できません";
  message [line 2]
    "Cannot resolve -externalip address: &apos;%s&apos;"
    "-externalip のアドレス &apos;%s&apos; を解決できません";
  message [line (-24)]
    "Invalid amount for -paytxfee=&lt;amount&gt;: &apos;%s&apos;"
    "-paytxfee=&lt;amount&gt; の額 &apos;%s&apos; が無効です";
  message [line 44]
    "Error: could not start node"
    "エラー：ノードの開始ができなった";
  message [line 11]
    "Sending..."
    "通信中...";
  message [line 5]
    "Invalid amount"
    "無効な総額";
  message [line 1]
    "Insufficient funds"
    "残高不足";
  message [line (-34)]
    "Loading block index..."
    "ブロック インデックスを読み込んでいます...";
  message [line (-103)]
    "Add a node to connect to and attempt to keep the connection open"
    "接続するノードを追加し接続を持続するように試します";
  message [line 122]
    "Unable to bind to %s on this computer. MaryJaneCoin is probably already running."
    "このコンピューターで%sに結ぶことができなかった。ブラックコインQTは、もう発行してるでしょう。";
  message [line (-97)]
    "Fee per KB to add to transactions you send"
    "送る処理を足して、KBあたりの料金";
  message [line 55]
    "Invalid amount for -mininput=&lt;amount&gt;: &apos;%s&apos;"
    "-mininput=&lt;amount&gt;: &apos;%s&apos;の額は無効です";
  message [line 25]
    "Loading wallet..."
    "ウォレットを読み込んでいます...";
  message [line 8]
    "Cannot downgrade wallet"
    "ウォレットのダウングレードはできません";
  message [line 1]
    "Cannot initialize keypool"
    "キースペースをイニシャライズをする";
  message [line 1]
    "Cannot write default address"
    "初期値のアドレスを書き込むことができません";
  message [line 1]
    "Rescanning..."
    "再スキャン中...";
  message [line 5]
    "Done loading"
    "読み込み完了";
  message [line (-167)]
    "To use the %s option"
    "%s オプションを使うには";
  message [line 14]
    "Error"
    "エラー";
  message [line 6]
    "You must set rpcpassword=&lt;password&gt; in the configuration file:
%s
If the file does not exist, create it with owner-readable-only file permissions."
    "rpcpassword=&lt;password&gt; を設定ファイルでセットしてください:
%s
ファイルが無い場合は、オーナーだけが読み取れる権限でファイルを作成してください。"].

Definition bitcoin_core : Context := {| c_name := "bitcoin-core"; c_messages := bitcoin_core_1 ++ bitcoin_core_2 ++ bitcoin_core_3 ++ bitcoin_core_4 ++ bitcoin_core_5 |}.

Definition catalogue : TS := {| language := "ja"; version := "2.1"; contexts := [
  AboutDialog; AddressBookPage; AddressTableModel; AskPassphraseDialog; BitcoinGUI; ClientModel; CoinControlDialog; EditAddressDialog; GUIUtil_HelpMessageBox; OptionsDialog; OverviewPage; QRCodeDialog; RPCConsole; SendCoinsDialog; SendCoinsEntry; SignVerifyMessageDialog; TransactionDesc; TransactionDescDialog; TransactionTableModel; TransactionView; WalletModel; bitcoin_core] |}.

End Ja.
