(* ===== verification/CatalogueKa.v ===== *)
(** * The Georgian catalogue ([src/qt/locale/bitcoin_ka.ts])

    The file as data: every context with its messages in order, the texts with
    their XML entities as they are in the file. *)

From stdpp Require Import strings.
From S2P Require Import Prelude Translation.
Import Translation.

Module Ka.
Open Scope string_scope.

Definition AboutDialog : Context := {| c_name := "AboutDialog"; c_messages := [
  unfinished [file "../forms/aboutdialog.ui" 14]
    "About MaryJaneCoin";
  unfinished [line 39]
    "&lt;b&gt;MaryJaneCoin&lt;/b&gt; version";
  unfinished [line 41]
    "Copyright © 2009-14 The Bitcoin developers
Copyright © 2012-14 The NovaCoin developers
Copyright © 2014-2026 The MaryJaneCoin developers";
  message [line 15]
    "
This is experimental software.

Distributed under the MIT/X11 software license, see the accompanying file COPYING or http://www.opensource.org/licenses/mit-license.php.

This product includes software developed by the OpenSSL Project for use in the OpenSSL Toolkit (http://www.openssl.org/) and cryptographic software written by Eric Young (eay@cryptsoft.com) and UPnP software written by Thomas Bernard."
    "
პროგრამა ექსპერიმენტულია.

ვრცელდება MIT/X11 ლიცენზიით, იხილე თანდართული ფაილი COPYING ან http://www.opensource.org/licenses/mit-license.php.

პროდუქტი შეიცავს OpenSSL პროექტის ფარგლებში შემუშავებულ პროგრამულ უზრუნველყოფას OpenSSL Toolkit-ში გამოყენებისათვის (http://www.openssl.org/), კრიპტოგრაფიულ პროგრამას, ავტორი ერიქ იანგი (Eric Young, eay@cryptsoft.com) და UPnP-პროგრამას, ავტორი თომას ბერნარდი (Thomas Bernard)."] |}.

Definition AddressBookPage : Context := {| c_name := "AddressBookPage"; c_messages := [
  unfinished [file "../forms/addressbookpage.ui" 14]
    "Address Book";
  message [line 22]
    "Double-click to edit address or label"
    "დააკლიკეთ ორჯერ მისამართის ან ნიშნულის შესაცვლელად";
  message [line 27]
    "Create a new address"
    "ახალი მისამართის შექმნა";
  message [line 14]
    "Copy the currently selected address to the system clipboard"
    "მონიშნული მისამართის კოპირება სისტემურ კლიპბორდში";
  unfinished [line (-11)]
    "&amp;New";
  unfinished [line (-46)]
    "These are your MaryJaneCoin addresses for receiving payments. You may want to give a different one to each sender so you can keep track of who is paying you.";
  message [line 60]
    "&amp;Copy Address"
    "&amp;მისამართის კოპირება";
  unfinished [line 11]
    "Show &amp;QR Code";
  unfinished [line 11]
    "Sign a message to prove you own a MaryJaneCoin address";
  unfinished [line 3]
    "Sign &amp;Message";
  message [line 25]
    "Delete the currently selected address from the list"
    "მონიშნული მისამართის წაშლა სიიდან";
  unfinished [line (-14)]
    "Verify a message to ensure it was signed with a specified MaryJaneCoin address";
  unfinished [line 3]
    "&amp;Verify Message";
  message [line 14]
    "&amp;Delete"
    "&amp;წაშლა";
  message [file "../addressbookpage.cpp" 65]
    "Copy &amp;Label"
    "ნიშნუ&amp;ლის კოპირება";
  message [line 2]
    "&amp;Edit"
    "რ&amp;ედაქტირება";
  unfinished [line 250]
    "Export Address Book Data";
  message [line 1]
    "Comma separated file (*.csv)"
    "CSV-ფაილი (*.csv)";
  unfinished [line 13]
    "Error exporting";
  unfinished [line 0]
    "Could not write to file %1."] |}.

Definition AddressTableModel : Context := {| c_name := "AddressTableModel"; c_messages := [
  message [file "../addresstablemodel.cpp" 144]
    "Label"
    "ნიშნული";
  message [line 0]
    "Address"
    "მისამართი";
  message [line 36]
    "(no label)"
    "(არ არის ნიშნული)"] |}.

Definition AskPassphraseDialog_1 : list Message := [
  message [file "../forms/askpassphrasedialog.ui" 26]
    "Passphrase Dialog"
    "ფრაზა-პაროლის დიალოგი";
  message [line 21]
    "Enter passphrase"
    "შეიყვანეთ ფრაზა-პაროლი";
  message [line 14]
    "New passphrase"
    "ახალი ფრაზა-პაროლი";
  message [line 14]
    "Repeat new passphrase"
    "გაიმეორეთ ახალი ფრაზა-პაროლი";
  unfinished [line 33]
    "Serves to disable the trivial sendmoney when OS account compromised. Provides no real security.";
  unfinished [line 3]
    "For staking only";
  message [file "../askpassphrasedialog.cpp" 35]
    "Enter the new passphrase to the wallet.&lt;br/&gt;Please use a passphrase of &lt;b&gt;10 or more random characters&lt;/b&gt;, or &lt;b&gt;eight or more words&lt;/b&gt;."
    "შეიყვანეთ საფულის ახალი ფრაზა-პაროლი.&lt;br/&gt;ფრაზა-პაროლი შეადგინეთ &lt;b&gt;არანაკლებ 10 შემთხვევითი სიმბოლოსაგან&lt;/b&gt;, ან &lt;b&gt;რვა და მეტი სიტყვისაგან&lt;/b&gt;.";
  message [line 1]
    "Encrypt wallet"
    "საფულის დაშიფრვა";
  message [line 7]
    "This operation needs your wallet passphrase to unlock the wallet."
    "ეს ოპერაცია მოითხოვს თქვენი საფულის ფრაზა-პაროლს საფულის განსაბლოკად.";
  message [line 5]
    "Unlock wallet"
    "საფულის განბლოკვა";
  message [line 3]
    "This operation needs your wallet passphrase to decrypt the wallet."
    "ეს ოპერაცია მოითხოვს თქვენი საფულის ფრაზა-პაროლს საფულის გასაშიფრად.";
  message [line 5]
    "Decrypt wallet"
    "საფულის გაშიფრვა";
  message [line 3]
    "Change passphrase"
    "ფრაზა-პაროლის შეცვლა";
  message [line 1]
    "Enter the old and new passphrase to the wallet."
    "შეიყვანეთ საფულის ძველი და ახალი ფრაზა-პაროლი.";
  message [line 46]
    "Confirm wallet encryption"
    "დაადასტურეთ საფულის დაშიფრვა";
  unfinished [line 1]
    "Warning: If you encrypt your wallet and lose your passphrase, you will &lt;b&gt;LOSE ALL OF YOUR COINS&lt;/b&gt;!";
  message [line 0]
    "Are you sure you wish to encrypt your wallet?"
    "დარწმუნებული ხართ, რომ გინდათ საფულის დაშიფრვა?";
  message [line 15]
    "IMPORTANT: Any previous backups you have made of your wallet file should be replaced with the newly generated, encrypted wallet file. For security reasons, previous backups of the unencrypted wallet file will become useless as soon as you start using the new, encrypted wallet."
    "მნიშვნელოვანია: თქვენი საფულის ყველა ადრინდელი არქივი შეიცვლება ახლადგენერირებული დაშიფრული საფულის ფაილით. უსაფრთხოების მოსაზრებებით დაუშიფრავი საფულის ძველი არქივები ძალას დაკარგავს, როგორც კი დაიწყებთ ახალი, დაშიფრული საფულის გამოყენებას.";
  message [line 103; line 24]
    "Warning: The Caps Lock key is on!"
    "ყურადღება: ჩართულია Caps Lock რეჟიმი!";
  message [line (-133); line 60]
    "Wallet encrypted"
    "საფულე დაშიფრულია";
  unfinished [line (-58)]
    "MaryJaneCoin will close now to finish the encryption process. Remember that encrypting your wallet cannot fully protect your coins from being stolen by malware infecting your computer.";
  message [line 13; line 7; line 44; line 6]
    "Wallet encryption failed"
    "ვერ მოხერხდა საფულის დაშიფრვა";
  message [line (-56)]
    "Wallet encryption failed due to an internal error. Your wallet was not encrypted."
    "საფულის დაშიფრვა ვერ მოხერხდა სისტემაში შეცდომის გამო. თქვენი საფულე არ არის დაშფრული.";
  message [line 7; line 50]
    "The supplied passphrases do not match."
    "ფრაზა-პაროლები არ ემთხვევა ერთმანეთს.";
  message [line (-38)]
    "Wallet unlock failed"
    "საფულის განბლოკვა ვერ მოხერხდა";
  message [line 1; line 12; line 19]
    "The passphrase entered for the wallet decryption was incorrect."
    "საფულის განშიფრვის ფრაზა-პაროლი არაწორია";
  message [line (-20)]
    "Wallet decryption failed"
    "საფულის განშიფრვა ვერ მოხერხდა";
  message [line 14]
    "Wallet passphrase was successfully changed."
    "საფულის ფრაზა-პაროლი შეცვლილია."].

Definition AskPassphraseDialog : Context := {| c_name := "AskPassphraseDialog"; c_messages := AskPassphraseDialog_1 |}.

Definition BitcoinGUI_1 : list Message := [
  message [file "../bitcoingui.cpp" 282]
    "Sign &amp;message..."
    "ხელ&amp;მოწერა";
  message [line 251]
    "Synchronizing with network..."
    "ქსელთან სინქრონიზება...";
  message [line (-319)]
    "&amp;Overview"
    "მიმ&amp;ოხილვა";
  message [line 1]
    "Show general overview of wallet"
    "საფულის ზოგადი მიმოხილვა";
  message [line 17]
    "&amp;Transactions"
    "&amp;ტრანსაქციები";
  message [line 1]
    "Browse transaction history"
    "ტრანსაქციების ისტორიის დათვალიერება";
  unfinished [line 5]
    "&amp;Address Book";
  unfinished [line 1]
    "Edit the list of stored addresses and labels";
  unfinished [line (-13)]
    "&amp;Receive coins";
  unfinished [line 1]
    "Show the list of addresses for receiving payments";
  unfinished [line (-7)]
    "&amp;Send coins";
  message [line 35]
    "E&amp;xit"
    "&amp;გასვლა";
  message [line 1]
    "Quit application"
    "გასვლა";
  unfinished [line 6]
    "Show information about MaryJaneCoin";
  message [line 2]
    "About &amp;Qt"
    "&amp;Qt-ს შესახებ";
  message [line 1]
    "Show information about Qt"
    "ინფორმაცია Qt-ს შესახებ";
  message [line 2]
    "&amp;Options..."
    "&amp;ოპციები";
  message [line 4]
    "&amp;Encrypt Wallet..."
    "საფულის &amp;დაშიფრვა";
  message [line 3]
    "&amp;Backup Wallet..."
    "საფულის &amp;არქივირება";
  message [line 2]
    "&amp;Change Passphrase..."
    "ფრაზა-პაროლის შე&amp;ცვლა";
  unfinished_forms [line 259]
    "~%n block(s) remaining"
    [EmptyString];
  unfinished [line 6]
    "Downloaded %1 of %2 blocks of transaction history (%3% done).";
  unfinished [line (-256)]
    "&amp;Export...";
  unfinished [line (-64)]
    "Send coins to a MaryJaneCoin address";
  unfinished [line 47]
    "Modify configuration options for MaryJaneCoin";
  unfinished [line 18]
    "Export the data in the current tab to a file";
  unfinished [line (-14)]
    "Encrypt or decrypt wallet";
  message [line 3]
    "Backup wallet to another location"
    "საფულის არქივირება სხვა ადგილზე";
  message [line 2]
    "Change the passphrase used for wallet encryption"
    "საფულის დაშიფრვის ფრაზა-პაროლის შეცვლა"].

Definition BitcoinGUI_2 : list Message := [
  message [line 10]
    "&amp;Debug window"
    "და&amp;ხვეწის ფანჯარა";
  message [line 1]
    "Open debugging and diagnostic console"
    "დახვეწისა და გიაგნოსტიკის კონსოლის გაშვება";
  message [line (-5)]
    "&amp;Verify message..."
    "&amp;ვერიფიკაცია";
  unfinished [line (-202)]
    "MaryJaneCoin";
  message [line 0]
    "Wallet"
    "საფულე";
  unfinished [line 180]
    "&amp;About MaryJaneCoin";
  message [line 9]
    "&amp;Show / Hide"
    "&amp;ჩვენება/დაფარვა";
  unfinished [line 9]
    "Unlock wallet";
  unfinished [line 1]
    "&amp;Lock Wallet";
  unfinished [line 1]
    "Lock wallet";
  message [line 35]
    "&amp;File"
    "&amp;ფაილი";
  message [line 8]
    "&amp;Settings"
    "&amp;პარამეტრები";
  message [line 8]
    "&amp;Help"
    "&amp;დახმარება";
  message [line 12]
    "Tabs toolbar"
    "ბარათების პანელი";
  unfinished [line 8]
    "Actions toolbar";
  message [line 13; line 9]
    "[testnet]"
    "[testnet]";
  unfinished [line 0; line 60]
    "MaryJaneCoin client";
  unfinished_forms [line 75]
    "%n active connection(s) to MaryJaneCoin network"
    [EmptyString];
  unfinished [line 40]
    "Downloaded %1 blocks of transaction history.";
  unfinished [line 413]
    "Staking.&lt;br&gt;Your weight is %1&lt;br&gt;Network weight is %2&lt;br&gt;Expected time to earn reward is %3";
  unfinished [line 6]
    "Not staking because wallet is locked";
  unfinished [line 2]
    "Not staking because wallet is offline";
  unfinished [line 2]
    "Not staking because wallet is syncing";
  unfinished [line 2]
    "Not staking because you don&apos;t have mature coins";
  unfinished_forms [line (-403)]
    "%n second(s) ago"
    [EmptyString];
  unfinished [line (-312)]
    "About MaryJaneCoin card";
  unfinished [line 1]
    "Show information about MaryJaneCoin card";
  unfinished [line 18]
    "&amp;Unlock Wallet...";
  unfinished_forms [line 297]
    "%n minute(s) ago"
    [EmptyString]].

Definition BitcoinGUI_3 : list Message := [
  unfinished_forms [line 4]
    "%n hour(s) ago"
    [EmptyString];
  unfinished_forms [line 4]
    "%n day(s) ago"
    [EmptyString];
  message [line 6]
    "Up to date"
    "განახლებულია";
  message [line 7]
    "Catching up..."
    "ჩართვა...";
  unfinished [line 10]
    "Last received block was generated %1.";
  unfinished [line 59]
    "This transaction is over the size limit.  You can still send it for a fee of %1, which goes to the nodes that process your transaction and helps to support the network.  Do you want to pay the fee?";
  unfinished [line 5]
    "Confirm transaction fee";
  message [line 27]
    "Sent transaction"
    "გაგზავნილი ტრანსაქციები";
  message [line 1]
    "Incoming transaction"
    "მიღებული ტრანსაქციები";
  message [line 1]
    "Date: %1
Amount: %2
Type: %3
Address: %4
"
    "თარიღი: %1
თანხა: %2
ტიპი: %3
მისამართი: %4
";
  unfinished [line 100; line 15]
    "URI handling";
  unfinished [line (-15); line 15]
    "URI can not be parsed! This can be caused by an invalid MaryJaneCoin address or malformed URI parameters.";
  message [line 18]
    "Wallet is &lt;b&gt;encrypted&lt;/b&gt; and currently &lt;b&gt;unlocked&lt;/b&gt;"
    "საფულე &lt;b&gt;დაშიფრულია&lt;/b&gt; და ამჟამად &lt;b&gt;განბლოკილია&lt;/b&gt;";
  message [line 10]
    "Wallet is &lt;b&gt;encrypted&lt;/b&gt; and currently &lt;b&gt;locked&lt;/b&gt;"
    "საფულე &lt;b&gt;დაშიფრულია&lt;/b&gt; და ამჟამად &lt;b&gt;დაბლოკილია&lt;/b&gt;";
  unfinished [line 25]
    "Backup Wallet";
  unfinished [line 0]
    "Wallet Data (*.dat)";
  unfinished [line 3]
    "Backup Failed";
  unfinished [line 0]
    "There was an error trying to save the wallet data to the new location.";
  unfinished_forms [line 76]
    "%n second(s)"
    [EmptyString];
  unfinished_forms [line 4]
    "%n minute(s)"
    [EmptyString];
  unfinished_forms [line 4]
    "%n hour(s)"
    [EmptyString];
  unfinished_forms [line 4]
    "%n day(s)"
    [EmptyString];
  unfinished [line 18]
    "Not staking";
  unfinished [file "../bitcoin.cpp" 109]
    "A fatal error occurred. MaryJaneCoin can no longer continue safely and will quit."].

Definition BitcoinGUI : Context := {| c_name := "BitcoinGUI"; c_messages := BitcoinGUI_1 ++ BitcoinGUI_2 ++ BitcoinGUI_3 |}.

Definition ClientModel : Context := {| c_name := "ClientModel"; c_messages := [
  message [file "../clientmodel.cpp" 90]
    "Network Alert"
    "ქსელური განგაში"] |}.

Definition CoinControlDialog_1 : list Message := [
  unfinished [file "../forms/coincontroldialog.ui" 14]
    "Coin Control";
  message [line 31]
    "Quantity:"
    "რაოდენობა:";
  message [line 32]
    "Bytes:"
    "ბაიტები:";
  message [line 48]
    "Amount:"
    "თანხა:";
  message [line 32]
    "Priority:"
    "პრიორიტეტი:";
  message [line 48]
    "Fee:"
    "საკომისიო:";
  message [line 35]
    "Low Output:"
    "ქვედა ზღვარი:";
  message [file "../coincontroldialog.cpp" 551]
    "no"
    "არა";
  message [file "../forms/coincontroldialog.ui" 51]
    "After Fee:"
    "დამატებითი საკომისიო:";
  message [line 35]
    "Change:"
    "ხურდა:";
  message [line 69]
    "(un)select all"
    "ყველას მონიშვნა/(მოხსნა)";
  message [line 13]
    "Tree mode"
    "განტოტვილი";
  message [line 16]
    "List mode"
    "სია";
  message [line 45]
    "Amount"
    "რაოდენობა";
  unfinished [line 5]
    "Label";
  message [line 5]
    "Address"
    "მისამართი";
  message [line 5]
    "Date"
    "თარიღი";
  message [line 5]
    "Confirmations"
    "დადასტურება";
  message [line 3]
    "Confirmed"
    "დადასტურებულია";
  message [line 5]
    "Priority"
    "პრიორიტეტი";
  message [file "../coincontroldialog.cpp" (-515)]
    "Copy address"
    "მისამართის კოპირება";
  message [line 1]
    "Copy label"
    "ნიშნულის კოპირება";
  message [line 1; line 26]
    "Copy amount"
    "თანხის კოპირება";
  message [line (-25)]
    "Copy transaction ID"
    "ტრანსაქციის ID-ს კოპირება";
  message [line 24]
    "Copy quantity"
    "რაოდენობის კოპირება";
  message [line 2]
    "Copy fee"
    "საკომისიოს კოპირება";
  message [line 1]
    "Copy after fee"
    "დამატებითი საკომისიოს კოპირება";
  message [line 1]
    "Copy bytes"
    "ბაიტების კოპირება";
  message [line 1]
    "Copy priority"
    "პრიორიტეტის კოპირება"].

Definition CoinControlDialog_2 : list Message := [
  message [line 1]
    "Copy low output"
    "ქვედა ზღვრის კოპირება";
  message [line 1]
    "Copy change"
    "ხურდის კოპირება";
  message [line 317]
    "highest"
    "უმაღლესი";
  message [line 1]
    "high"
    "მაღალი";
  message [line 1]
    "medium-high"
    "საშუალოზე მაღალი";
  message [line 1]
    "medium"
    "საშუალო";
  message [line 4]
    "low-medium"
    "საშუალოზე დაბალი";
  message [line 1]
    "low"
    "დაბალი";
  message [line 1]
    "lowest"
    "უდაბლესი";
  unfinished [line 155]
    "DUST";
  message [line 0]
    "yes"
    "კი";
  unfinished [line 10]
    "This label turns red, if the transaction size is bigger than 10000 bytes.

 This means a fee of at least %1 per kb is required.

 Can vary +/- 1 Byte per input.";
  unfinished [line 1]
    "Transactions with higher priority get more likely into a block.

This label turns red, if the priority is smaller than &quot;medium&quot;.

 This means a fee of at least %1 per kb is required.";
  unfinished [line 1]
    "This label turns red, if any recipient receives an amount smaller than %1.

 This means a fee of at least %2 is required. 

 Amounts below 0.546 times the minimum relay fee are shown as DUST.";
  unfinished [line 1]
    "This label turns red, if the change is smaller than %1.

 This means a fee of at least %2 is required.";
  message [line 37; line 66]
    "(no label)"
    "(არ არის ნიშნული)";
  message [line (-9)]
    "change from %1 (%2)"
    "ხურდა %1-დან (%2)";
  message [line 1]
    "(change)"
    "(ხურდა)"].

Definition CoinControlDialog : Context := {| c_name := "CoinControlDialog"; c_messages := CoinControlDialog_1 ++ CoinControlDialog_2 |}.

Definition EditAddressDialog : Context := {| c_name := "EditAddressDialog"; c_messages := [
  message [file "../forms/editaddressdialog.ui" 14]
    "Edit Address"
    "მისამართის შეცვლა";
  message [line 11]
    "&amp;Label"
    "ნიშნუ&amp;ლი";
  unfinished [line 10]
    "The label associated with this address book entry";
  message [line 7]
    "&amp;Address"
    "მის&amp;ამართი";
  unfinished [line 10]
    "The address associated with this address book entry. This can only be modified for sending addresses.";
  message [file "../editaddressdialog.cpp" 20]
    "New receiving address"
    "ახალი მიღების მისამართი";
  message [line 4]
    "New sending address"
    "ახალი გაგზავნის მისამართი";
  message [line 3]
    "Edit receiving address"
    "მიღების მისამართის შეცვლა";
  message [line 4]
    "Edit sending address"
    "გაგზავნის მისამართის შეცვლა";
  message [line 76]
    "The entered address &quot;%1&quot; is already in the address book."
    "მისამართი &quot;%1&quot; უკვე არის მისამართების წიგნში.";
  unfinished [line (-5)]
    "The entered address &quot;%1&quot; is not a valid MaryJaneCoin address.";
  message [line 10]
    "Could not unlock wallet."
    "საფულის განბლოკვა ვერ მოხერხდა.";
  message [line 5]
    "New key generation failed."
    "ახალი გასაღების გენერირება ვერ მოხერხდა"] |}.

Definition GUIUtil_HelpMessageBox : Context := {| c_name := "GUIUtil::HelpMessageBox"; c_messages := [
  unfinished [file "../guiutil.cpp" 420; line 12]
    "MaryJaneCoin-Qt";
  unfinished [line (-12)]
    "version";
  unfinished [line 2]
    "Usage:";
  unfinished [line 1]
    "command-line options";
  unfinished [line 4]
    "UI options";
  unfinished [line 1]
    "Set language, for example &quot;de_DE&quot; (default: system locale)";
  unfinished [line 1]
    "Start minimized";
  unfinished [line 1]
    "Show splash screen on startup (default: 1)"] |}.

Definition OptionsDialog_1 : list Message := [
  message [file "../forms/optionsdialog.ui" 14]
    "Options"
    "ოპციები";
  message [line 16]
    "&amp;Main"
    "&amp;მთავარი";
  unfinished [line 6]
    "Optional transaction fee per kB that helps make sure your transactions are processed quickly. Most transactions are 1 kB. Fee 0.01 recommended.";
  message [line 15]
    "Pay transaction &amp;fee"
    "ტრანსაქციის სა&amp;ფასურის გადახდა";
  unfinished [line 31]
    "Reserved amount does not participate in staking and is therefore spendable at any time.";
  unfinished [line 15]
    "Reserve";
  unfinished [line 31]
    "Automatically start MaryJaneCoin after logging in to the system.";
  unfinished [line 3]
    "&amp;Start MaryJaneCoin on system login";
  unfinished [line 7]
    "Detach block and address databases at shutdown. This means they can be moved to another data directory, but it slows down shutdown. The wallet is always detached.";
  unfinished [line 3]
    "&amp;Detach databases at shutdown";
  message [line 21]
    "&amp;Network"
    "&amp;ქსელი";
  unfinished [line 6]
    "Automatically open the MaryJaneCoin client port on the router. This only works when your router supports UPnP and it is enabled.";
  message [line 3]
    "Map port using &amp;UPnP"
    "პორტის გადამისამართება &amp;UPnP-ით";
  unfinished [line 7]
    "Connect to the MaryJaneCoin network through a SOCKS proxy (e.g. when connecting through Tor).";
  unfinished [line 3]
    "&amp;Connect through SOCKS proxy:";
  message [line 9]
    "Proxy &amp;IP:"
    "პროქსის &amp;IP:";
  unfinished [line 19]
    "IP address of the proxy (e.g. 127.0.0.1)";
  message [line 7]
    "&amp;Port:"
    "&amp;პორტი";
  message [line 19]
    "Port of the proxy (e.g. 9050)"
    "პროქსის პორტი (მაგ.: 9050)";
  message [line 7]
    "SOCKS &amp;Version:"
    "SOCKS &amp;ვერსია:";
  message [line 13]
    "SOCKS version of the proxy (e.g. 5)"
    "პროქსის SOCKS-ვერსია (მაგ.: 5)";
  message [line 36]
    "&amp;Window"
    "&amp;ფანჯარა";
  message [line 6]
    "Show only a tray icon after minimizing the window."
    "ფანჯრის მინიმიზებისას მხოლოდ იკონა სისტემურ ზონაში";
  message [line 3]
    "&amp;Minimize to the tray instead of the taskbar"
    "&amp;მინიმიზება სისტემურ ზონაში პროგრამების პანელის ნაცვლად";
  message [line 7]
    "Minimize instead of exit the application when the window is closed. When this option is enabled, the application will be closed only after selecting Quit in the menu."
    "პროგრამის მინიმიზება ფანჯრის დახურვისას. ოპციის ჩართვის შემდეგ პროგრამის დახურვა შესაძლებელი იქნება მხოლოდ მენიუდან - პუნქტი &quot;გასვლა&quot;.";
  message [line 3]
    "M&amp;inimize on close"
    "მ&amp;ინიმიზება დახურვისას";
  message [line 21]
    "&amp;Display"
    "&amp;ჩვენება";
  message [line 8]
    "User Interface &amp;language:"
    "სამომხმარებ&amp;ლო ენა:";
  unfinished [line 13]
    "The user interface language can be set here. This setting will take effect after restarting MaryJaneCoin."].

Definition OptionsDialog_2 : list Message := [
  message [line 11]
    "&amp;Unit to show amounts in:"
    "ერთეუ&amp;ლი:";
  message [line 13]
    "Choose the default subdivision unit to show in the interface and when sending coins."
    "აირჩიეთ გასაგზავნი თანხის ნაგულისხმევი ერთეული.";
  unfinished [line 9]
    "Whether to show MaryJaneCoin addresses in the transaction list or not.";
  message [line 3]
    "&amp;Display addresses in transaction list"
    "მისამართების &amp;ჩვენება სიაში";
  message [line 7]
    "Whether to show coin control features or not."
    "ვაჩვენოთ თუ არა მონეტების მართვის პარამეტრები.";
  unfinished [line 3]
    "Display coin &amp;control features (experts only!)";
  message [line 71]
    "&amp;OK"
    "&amp;OK";
  message [line 7]
    "&amp;Cancel"
    "&amp;გაუქმება";
  unfinished [line 10]
    "&amp;Apply";
  message [file "../optionsdialog.cpp" 55]
    "default"
    "ნაგულისხმევი";
  unfinished [line 149; line 9]
    "Warning";
  unfinished [line (-9); line 9]
    "This setting will take effect after restarting MaryJaneCoin.";
  message [line 29]
    "The supplied proxy address is invalid."
    "პროქსის მისამართი არასწორია."].

Definition OptionsDialog : Context := {| c_name := "OptionsDialog"; c_messages := OptionsDialog_1 ++ OptionsDialog_2 |}.

Definition OverviewPage : Context := {| c_name := "OverviewPage"; c_messages := [
  message [file "../forms/overviewpage.ui" 14]
    "Form"
    "ფორმა";
  unfinished [line 33; line 231]
    "The displayed information may be out of date. Your wallet automatically synchronizes with the MaryJaneCoin network after a connection is established, but this process has not completed yet.";
  unfinished [line (-160)]
    "Stake:";
  message [line 29]
    "Unconfirmed:"
    "დაუდასტურებელია:";
  message [line (-107)]
    "Wallet"
    "საფულე";
  unfinished [line 49]
    "Spendable:";
  message [line 16]
    "Your current spendable balance"
    "თქვენი ხელმისაწვდომი ნაშთი";
  message [line 71]
    "Immature:"
    "მოუმზადებელია:";
  message [line 13]
    "Mined balance that has not yet matured"
    "მოპოვებული თანხა, რომელიც ჯერ არ არის მზადყოფნაში";
  message [line 20]
    "Total:"
    "სულ:";
  message [line 16]
    "Your current total balance"
    "თქვენი სრული მიმდინარე ბალანსი";
  message [line 46]
    "&lt;b&gt;Recent transactions&lt;/b&gt;"
    "&lt;b&gt;ბოლო ტრანსაქციები&lt;/b&gt;";
  unfinished [line (-108)]
    "Total of transactions that have yet to be confirmed, and do not yet count toward the current balance";
  unfinished [line (-29)]
    "Total of coins that was staked, and do not yet count toward the current balance";
  message [file "../overviewpage.cpp" 113; line 1]
    "out of sync"
    "არ არის სინქრონიზებული"] |}.

Definition QRCodeDialog : Context := {| c_name := "QRCodeDialog"; c_messages := [
  unfinished [file "../forms/qrcodedialog.ui" 14]
    "QR Code Dialog";
  unfinished [line 59]
    "Request Payment";
  unfinished [line 56]
    "Amount:";
  unfinished [line (-44)]
    "Label:";
  unfinished [line 19]
    "Message:";
  unfinished [line 71]
    "&amp;Save As...";
  unfinished [file "../qrcodedialog.cpp" 62]
    "Error encoding URI into QR Code.";
  unfinished [line 40]
    "The entered amount is invalid, please check.";
  unfinished [line 23]
    "Resulting URI too long, try to reduce the text for label / message.";
  unfinished [line 25]
    "Save QR Code";
  unfinished [line 0]
    "PNG Images (*.png)"] |}.

Definition RPCConsole : Context := {| c_name := "RPCConsole"; c_messages := [
  message [file "../forms/rpcconsole.ui" 46]
    "Client name"
    "კლიენტი";
  message [line 10; line 23; line 26; line 23; line 23; line 36; line 53; line 23; line 23; file "../rpcconsole.cpp" 348]
    "N/A"
    "მიუწვდ.";
  message [line (-217)]
    "Client version"
    "კლიენტის ვერსია";
  message [line (-45)]
    "&amp;Information"
    "&amp;ინფორმაცია";
  message [line 68]
    "Using OpenSSL version"
    "OpenSSL-ის ვერსია";
  message [line 49]
    "Startup time"
    "სტარტის დრო";
  message [line 29]
    "Network"
    "ქსელი";
  message [line 7]
    "Number of connections"
    "შეერთებების რაოდენობა";
  unfinished [line 23]
    "On testnet";
  message [line 23]
    "Block chain"
    "ბლოკთა ჯაჭვი";
  message [line 7]
    "Current number of blocks"
    "ბლოკების მიმდინარე რაოდენობა";
  message [line 23]
    "Estimated total blocks"
    "ბლოკების სავარაუდო რაოდენობა";
  message [line 23]
    "Last block time"
    "ბოლო ბლოკის დრო";
  message [line 52]
    "&amp;Open"
    "&amp;შექმნა";
  unfinished [line 16]
    "Command-line options";
  unfinished [line 7]
    "Show the MaryJaneCoin-Qt help message to get a list with possible MaryJaneCoin command-line options.";
  unfinished [line 3]
    "&amp;Show";
  message [line 24]
    "&amp;Console"
    "&amp;კონსოლი";
  message [line (-260)]
    "Build date"
    "შექმნის დრო";
  unfinished [line (-104)]
    "MaryJaneCoin - Debug window";
  unfinished [line 25]
    "MaryJaneCoin Core";
  message [line 279]
    "Debug log file"
    "დახვეწის ლოგ-ფაილი";
  unfinished [line 7]
    "Open the MaryJaneCoin debug log file from the current data directory. This can take a few seconds for large log files.";
  message [line 102]
    "Clear console"
    "კონსოლის გასუფთავება";
  unfinished [file "../rpcconsole.cpp" (-33)]
    "Welcome to the MaryJaneCoin RPC console.";
  message [line 1]
    "Use up and down arrows to navigate history, and &lt;b&gt;Ctrl-L&lt;/b&gt; to clear screen."
    "კლავიშები &quot;ზევით&quot; და &quot;ქვევით&quot; - ისტორიაში მოძრაობა, &lt;b&gt;Ctrl-L&lt;/b&gt; - ეკრანის გასუფთავება.";
  message [line 1]
    "Type &lt;b&gt;help&lt;/b&gt; for an overview of available commands."
    "აკრიფეთ &lt;b&gt;help&lt;/b&gt; ფაშვებული ბრძანებების სანახავად."] |}.

Definition SendCoinsDialog_1 : list Message := [
  message [file "../forms/sendcoinsdialog.ui" 14; file "../sendcoinsdialog.cpp" 182; line 5; line 5; line 5; line 6; line 5; line 5]
    "Send Coins"
    "მონეტების გაგზავნა";
  message [line 76]
    "Coin Control Features"
    "მონეტების კონტროლის პარამეტრები";
  message [line 20]
    "Inputs..."
    "ხარჯები...";
  message [line 7]
    "automatically selected"
    "არჩეულია ავტომატურად";
  message [line 19]
    "Insufficient funds!"
    "არ არის საკმარისი თანხა!";
  message [line 77]
    "Quantity:"
    "რაოდენობა:";
  unfinished [line 22; line 35]
    "0";
  message [line (-19)]
    "Bytes:"
    "ბაიტები:";
  message [line 51]
    "Amount:"
    "თანხა:";
  unfinished [line 22; line 86; line 86; line 32]
    "0.00 MARYJ";
  message [line (-191)]
    "Priority:"
    "პრიორიტეტი:";
  unfinished [line 19]
    "medium";
  message [line 32]
    "Fee:"
    "საკომისიო:";
  message [line 35]
    "Low Output:"
    "ქვედა ზღვარი:";
  unfinished [line 19]
    "no";
  message [line 32]
    "After Fee:"
    "დამატებითი საკომისიო:";
  unfinished [line 35]
    "Change";
  unfinished [line 50]
    "custom change address";
  message [line 106]
    "Send to multiple recipients at once"
    "გაგზავნა რამდენიმე რეციპიენტთან ერთდროულად";
  message [line 3]
    "Add &amp;Recipient"
    "&amp;რეციპიენტის დამატება";
  unfinished [line 20]
    "Remove all transaction fields";
  message [line 3]
    "Clear &amp;All"
    "გ&amp;ასუფთავება";
  message [line 28]
    "Balance:"
    "ბალანსი:";
  unfinished [line 16]
    "123.456 MARYJ";
  message [line 31]
    "Confirm the send action"
    "გაგზავნის დადასტურება";
  message [line 3]
    "S&amp;end"
    "გაგ&amp;ზავნა";
  unfinished [file "../sendcoinsdialog.cpp" (-173)]
    "Enter a MaryJaneCoin address (e.g. MBDKLakRxSRw7hUB2q5DXEnDpNpLVkqGZd)"].

Definition SendCoinsDialog_2 : list Message := [
  message [line 15]
    "Copy quantity"
    "რაოდენობის კოპირება";
  message [line 1]
    "Copy amount"
    "თანხის კოპირება";
  message [line 1]
    "Copy fee"
    "საკომისიოს კოპირება";
  message [line 1]
    "Copy after fee"
    "დამატებითი საკომისიოს კოპირება";
  message [line 1]
    "Copy bytes"
    "ბაიტების კოპირება";
  message [line 1]
    "Copy priority"
    "პრიორიტეტის კოპირება";
  message [line 1]
    "Copy low output"
    "ქვედა ზღვრის კოპირება";
  message [line 1]
    "Copy change"
    "ხურდის კოპირება";
  unfinished [line 86]
    "&lt;b&gt;%1&lt;/b&gt; to %2 (%3)";
  message [line 5]
    "Confirm send coins"
    "მონეტების გაგზავნის დადასტურება";
  unfinished [line 1]
    "Are you sure you want to send %1?";
  unfinished [line 0]
    " and ";
  message [line 29]
    "The recipient address is not valid, please recheck."
    "მიმღების მისამართი არასწორია, შეამოწმეთ.";
  message [line 5]
    "The amount to pay must be larger than 0."
    "გადახდის მოცულობა 0-ზე მეტი უნდა იყოს";
  message [line 5]
    "The amount exceeds your balance."
    "თანხა აღემატება თქვენს ბალანსს";
  message [line 5]
    "The total exceeds your balance when the %1 transaction fee is included."
    "საკომისიო 1%-ის დამატების შემდეგ თანხა აჭარბებს თქვენს ბალანსს";
  message [line 6]
    "Duplicate address found, can only send to each address once per send operation."
    "მისამართები დუბლირებულია, დაშვებულია ერთ ჯერზე თითო მისამართზე ერთხელ გაგზავნა.";
  unfinished [line 5]
    "Error: Transaction creation failed.";
  unfinished [line 5]
    "Error: The transaction was rejected. This might happen if some of the coins in your wallet were already spent, such as if you used a copy of wallet.dat and coins were spent in the copy but not marked as spent here.";
  unfinished [line 251]
    "WARNING: Invalid MaryJaneCoin address";
  message [line 13]
    "(no label)"
    "(არ არის ნიშნული)";
  unfinished [line 4]
    "WARNING: unknown change address"].

Definition SendCoinsDialog : Context := {| c_name := "SendCoinsDialog"; c_messages := SendCoinsDialog_1 ++ SendCoinsDialog_2 |}.

Definition SendCoinsEntry : Context := {| c_name := "SendCoinsEntry"; c_messages := [
  unfinished [file "../forms/sendcoinsentry.ui" 14]
    "Form";
  message [line 15]
    "A&amp;mount:"
    "&amp;რაოდენობა";
  message [line 13]
    "Pay &amp;To:"
    "ადრესა&amp;ტი:";
  message [line 24; file "../sendcoinsentry.cpp" 25]
    "Enter a label for this address to add it to your address book"
    "შეიყვანეთ ამ მისამართის ნიშნული მისამართების წიგნში დასამატებლად";
  message [line 9]
    "&amp;Label:"
    "ნიშნუ&amp;ლი:";
  unfinished [line 18]
    "The address to send the payment to  (e.g. MBDKLakRxSRw7hUB2q5DXEnDpNpLVkqGZd)";
  unfinished [line 10]
    "Choose address from address book";
  message [line 10]
    "Alt+A"
    "Alt+A";
  message [line 7]
    "Paste address from clipboard"
    "მისამართის ჩასმა კლიპბორდიდან";
  message [line 10]
    "Alt+P"
    "Alt+P";
  unfinished [line 7]
    "Remove this recipient";
  unfinished [file "../sendcoinsentry.cpp" 1]
    "Enter a MaryJaneCoin address (e.g. MBDKLakRxSRw7hUB2q5DXEnDpNpLVkqGZd)"] |}.

Definition SignVerifyMessageDialog_1 : list Message := [
  message [file "../forms/signverifymessagedialog.ui" 14]
    "Signatures - Sign / Verify a Message"
    "ხელმოწერები - მესიჯის ხელმოწერა/ვერიფიკაცია";
  message [line 13; line 124]
    "&amp;Sign Message"
    "მე&amp;სიჯის ხელმოწერა";
  message [line (-118)]
    "You can sign messages with your addresses to prove you own them. Be careful not to sign anything vague, as phishing attacks may try to trick you into signing your identity over to them. Only sign fully-detailed statements you agree to."
    "ხელმოწერით თქვენ ადასტურებთ, რომ მესიჯი თქვენია. ფრთხილად - არ მოაწეროთ ხელი რაიმე საეჭვოს: ფიშინგური ხრიკებით შეიძლება ის თქვენს მესიჯად გაასაღონ. მოაწერეთ ხელი მხოლოდ იმას, რასაც ყველა წვრილმანში ეთანხმებით.";
  unfinished [line 18]
    "The address to sign the message with (e.g. MBDKLakRxSRw7hUB2q5DXEnDpNpLVkqGZd)";
  unfinished [line 10; line 203]
    "Choose an address from the address book";
  message [line (-193); line 203]
    "Alt+A"
    "Alt+A";
  message [line (-193)]
    "Paste address from clipboard"
    "მისამართის ჩასმა კლიპბორდიდან";
  message [line 10]
    "Alt+P"
    "Alt+P";
  message [line 12]
    "Enter the message you want to sign here"
    "აკრიფეთ ხელმოსაწერი მესიჯი";
  message [line 24]
    "Copy the current signature to the system clipboard"
    "მიმდინარე ხელმოწერის კოპირება კლიპბორდში";
  unfinished [line 21]
    "Sign the message to prove you own this MaryJaneCoin address";
  message [line 17]
    "Reset all sign message fields"
    "ხელმოწერის ყველა ველის წაშლა";
  message [line 3; line 146]
    "Clear &amp;All"
    "გ&amp;ასუფთავება";
  message [line (-87); line 70]
    "&amp;Verify Message"
    "მესიჯის &amp;ვერიფიკაცია";
  message [line (-64)]
    "Enter the signing address, message (ensure you copy line breaks, spaces, tabs, etc. exactly) and signature below to verify the message. Be careful not to read more into the signature than what is in the signed message itself, to avoid being tricked by a man-in-the-middle attack."
    "შეიყვანეთ ხელმოწერის მისამართი, მესიჯი (დაუკვირდით, რომ ზუსტად იყოს კოპირებული სტრიქონის გადატანები, ჰარები, ტაბულაციები და სხვ) და ხელმოწერა მესიჯის ვერიფიკაციისათვის. მიაქციეთ ყურადღება, რომ რაიმე ზედმეტი არ გაგყვეთ კოპირებისას, რათა არ გახდეთ &quot;man-in-the-middle&quot; შეტევის ობიექტი.";
  unfinished [line 21]
    "The address the message was signed with (e.g. MBDKLakRxSRw7hUB2q5DXEnDpNpLVkqGZd)";
  unfinished [line 40]
    "Verify the message to ensure it was signed with the specified MaryJaneCoin address";
  message [line 17]
    "Reset all verify message fields"
    "ვერიფიკაციის ყველა ველის წაშლა";
  unfinished [file "../signverifymessagedialog.cpp" 27; line 3]
    "Enter a MaryJaneCoin address (e.g. MBDKLakRxSRw7hUB2q5DXEnDpNpLVkqGZd)";
  message [line (-2)]
    "Click &quot;Sign Message&quot; to generate signature"
    "ხელმოწერის გენერირებისათვის დააჭირეთ &quot;მესიჯის ხელმოწერა&quot;-ს";
  unfinished [line 3]
    "Enter MaryJaneCoin signature";
  message [line 82; line 81]
    "The entered address is invalid."
    "შეყვანილი მისამართი არასწორია.";
  message [line (-81); line 8; line 73; line 8]
    "Please check the address and try again."
    "შეამოწმეთ მისამართი და სცადეთ ხელახლა.";
  message [line (-81); line 81]
    "The entered address does not refer to a key."
    "შეყვანილი მისამართი არ არის კავშირში გასაღებთან.";
  message [line (-73)]
    "Wallet unlock was cancelled."
    "საფულის განბლოკვა შეწყვეტილია.";
  message [line 8]
    "Private key for the entered address is not available."
    "ამ მისამართისათვის პირადი გასაღები მიუწვდომელია.";
  message [line 12]
    "Message signing failed."
    "ვერ მოხერხდა მესიჯის ხელმოწერა."].

Definition SignVerifyMessageDialog_2 : list Message := [
  message [line 5]
    "Message signed."
    "მესიჯი ხელმოწერილია.";
  message [line 59]
    "The signature could not be decoded."
    "ხელმოწერის დეკოდირება ვერ ხერხდება.";
  message [line 0; line 13]
    "Please check the signature and try again."
    "შეამოწმეთ ხელმოწერა და სცადეთ ხელახლა.";
  message [line 0]
    "The signature did not match the message digest."
    "ხელმოწერა არ შეესაბამება მესიჯის დაიჯესტს.";
  message [line 7]
    "Message verification failed."
    "მესიჯის ვერიფიკაცია ვერ მოხერხდა.";
  message [line 5]
    "Message verified."
    "მესიჯი ვერიფიცირებულია."].

Definition SignVerifyMessageDialog : Context := {| c_name := "SignVerifyMessageDialog"; c_messages := SignVerifyMessageDialog_1 ++ SignVerifyMessageDialog_2 |}.

Definition TransactionDesc_1 : list Message := [
  message [file "../transactiondesc.cpp" 19]
    "Open until %1"
    "ღია იქნება სანამ %1";
  unfinished_forms [line (-2)]
    "Open for %n block(s)"
    [EmptyString];
  unfinished [line 8]
    "conflicted";
  message [line 2]
    "%1/offline"
    "%1/გათიშულია";
  message [line 2]
    "%1/unconfirmed"
    "%1/დაუდასტურებელია";
  message [line 2]
    "%1 confirmations"
    "%1 დადასტურებულია";
  message [line 18]
    "Status"
    "სტატუსი";
  unfinished_forms [line 7]
    ", broadcast through %n node(s)"
    [EmptyString];
  message [line 4]
    "Date"
    "თარიღი";
  message [line 7]
    "Source"
    "წყარო";
  message [line 0]
    "Generated"
    "გენერირებულია";
  message [line 5; line 17]
    "From"
    "გამგზავნი";
  message [line 1; line 22; line 58]
    "To"
    "მიმღები";
  message [line (-77); line 2]
    "own address"
    "საკუთარი მისამართი";
  message [line (-2)]
    "label"
    "ნიშნული";
  message [line 37; line 12; line 45; line 17; line 30]
    "Credit"
    "კრედიტი";
  unfinished_forms [line (-102)]
    "matures in %n more block(s)"
    [EmptyString];
  message [line 2]
    "not accepted"
    "უარყოფილია";
  message [line 44; line 8; line 15; line 30]
    "Debit"
    "დებიტი";
  message [line (-39)]
    "Transaction fee"
    "ტრანსაქციის საფასური - საკომისიო";
  message [line 16]
    "Net amount"
    "სუფთა თანხა";
  message [line 6]
    "Message"
    "მესიჯი";
  message [line 2]
    "Comment"
    "შენიშვნა";
  message [line 2]
    "Transaction ID"
    "ტრანსაქციის ID";
  unfinished [line 3]
    "Generated coins must mature 510 blocks before they can be spent. When you generated this block, it was broadcast to the network to be added to the block chain. If it fails to get into the chain, its state will change to &quot;not accepted&quot; and it won&apos;t be spendable. This may occasionally happen if another node generates a block within a few seconds of yours.";
  message [line 7]
    "Debug information"
    "დახვეწის ინფორმაცია";
  message [line 8]
    "Transaction"
    "ტრანსაქცია"].

Definition TransactionDesc_2 : list Message := [
  message [line 5]
    "Inputs"
    "ხარჯები";
  message [line 23]
    "Amount"
    "თანხა";
  message [line 1]
    "true"
    "ჭეშმარიტი";
  message [line 0]
    "false"
    "მცდარი";
  message [line (-211)]
    ", has not been successfully broadcast yet"
    ", დაგზავნა არ არის წარმატებით დასრულებული";
  message [line 35]
    "unknown"
    "უცნობია"].

Definition TransactionDesc : Context := {| c_name := "TransactionDesc"; c_messages := TransactionDesc_1 ++ TransactionDesc_2 |}.

Definition TransactionDescDialog : Context := {| c_name := "TransactionDescDialog"; c_messages := [
  message [file "../forms/transactiondescdialog.ui" 14]
    "Transaction details"
    "ტრანსაქციის დეტალები";
  message [line 6]
    "This pane shows a detailed description of the transaction"
    "ტრანსაქციის დაწვრილებითი აღწერილობა"] |}.

Definition TransactionTableModel : Context := {| c_name := "TransactionTableModel"; c_messages := [
  message [file "../transactiontablemodel.cpp" 226]
    "Date"
    "თარიღი";
  message [line 0]
    "Type"
    "ტიპი";
  message [line 0]
    "Address"
    "მისამართი";
  message [line 0]
    "Amount"
    "რაოდენობა";
  message [line 60]
    "Open until %1"
    "ღია იქნება სანამ %1";
  message [line 12]
    "Confirmed (%1 confirmations)"
    "დადასტურებულია (%1დასტური)";
  unfinished_forms [line (-15)]
    "Open for %n more block(s)"
    [EmptyString];
  unfinished [line 6]
    "Offline";
  unfinished [line 3]
    "Unconfirmed";
  unfinished [line 3]
    "Confirming (%1 of %2 recommended confirmations)";
  unfinished [line 6]
    "Conflicted";
  message [line 3]
    "Immature (%1 confirmations, will be available after %2)"
    "არ არის მომწიფებული (%1 დასტური, საჭიროა სულ %2)";
  message [line 3]
    "This block was not received by any other nodes and will probably not be accepted!"
    "ეს ბლოკი არ არის მიღებული არცერთი კვანძის მიერ და სავარაუდოდ უარყოფილია!";
  message [line 3]
    "Generated but not accepted"
    "გენერირებულია, მაგრამ უარყოფილია";
  message [line 42]
    "Received with"
    "მიღებულია";
  message [line 2]
    "Received from"
    "გამომგზავნი";
  message [line 3]
    "Sent to"
    "გაგზავნილია ადრესატთან";
  message [line 2]
    "Payment to yourself"
    "გადახდილია საკუთარი თავისათვის";
  message [line 2]
    "Mined"
    "მოპოვებულია";
  message [line 38]
    "(n/a)"
    "(მიუწვდ.)";
  message [line 190]
    "Transaction status. Hover over this field to show number of confirmations."
    "ტრანსაქციის სტატუსი. ველზე კურსორის შეყვანისას გამოჩნდება დასტურების რაოდენობა.";
  message [line 2]
    "Date and time that the transaction was received."
    "ტრანსაქციის მიღების თარიღი და დრო.";
  message [line 2]
    "Type of transaction."
    "ტრანსაქციის ტიპი.";
  message [line 2]
    "Destination address of transaction."
    "ტრანსაქიის დანიშნულების მისამართი.";
  message [line 2]
    "Amount removed from or added to balance."
    "ბალანსიდან მოხსნილი ან დამატებული თანხა."] |}.

Definition TransactionView_1 : list Message := [
  message [file "../transactionview.cpp" 55; line 16]
    "All"
    "ყველა";
  message [line (-15)]
    "Today"
    "დღეს";
  message [line 1]
    "This week"
    "ამ კვირის";
  message [line 1]
    "This month"
    "ამ თვის";
  message [line 1]
    "Last month"
    "ბოლო თვის";
  message [line 1]
    "This year"
    "ამ წლის";
  message [line 1]
    "Range..."
    "შუალედი...";
  message [line 11]
    "Received with"
    "შემოსულია";
  message [line 2]
    "Sent to"
    "გაგზავნილია";
  message [line 2]
    "To yourself"
    "საკუთარი თავისათვის";
  message [line 1]
    "Mined"
    "მოპოვებულია";
  message [line 1]
    "Other"
    "სხვა";
  message [line 7]
    "Enter address or label to search"
    "შეიყვანეთ საძებნი მისამართი ან ნიშნული";
  message [line 7]
    "Min amount"
    "მინ. თანხა";
  message [line 34]
    "Copy address"
    "მისამართის კოპირება";
  message [line 1]
    "Copy label"
    "ნიშნულის კოპირება";
  message [line 1]
    "Copy amount"
    "თანხის კოპირება";
  message [line 1]
    "Copy transaction ID"
    "ტრანსაქციის ID-ს კოპირება";
  message [line 1]
    "Edit label"
    "ნიშნულის რედაქტირება";
  message [line 1]
    "Show transaction details"
    "ტრანსაქციის დეტალების ჩვენება";
  unfinished [line 144]
    "Export Transaction Data";
  message [line 1]
    "Comma separated file (*.csv)"
    "CSV-ფაილი (*.csv)";
  message [line 8]
    "Confirmed"
    "დადასტურებულია";
  message [line 1]
    "Date"
    "თარიღი";
  message [line 1]
    "Type"
    "ტიპი";
  message [line 1]
    "Label"
    "ნიშნული";
  message [line 1]
    "Address"
    "მისამართი";
  message [line 1]
    "Amount"
    "თანხა";
  message [line 1]
    "ID"
    "ID"].

Definition TransactionView_2 : list Message := [
  unfinished [line 4]
    "Error exporting";
  unfinished [line 0]
    "Could not write to file %1.";
  message [line 100]
    "Range:"
    "შუალედი:";
  message [line 8]
    "to"
    "-"].

Definition TransactionView : Context := {| c_name := "TransactionView"; c_messages := TransactionView_1 ++ TransactionView_2 |}.

Definition WalletModel : Context := {| c_name := "WalletModel"; c_messages := [
  unfinished [file "../walletmodel.cpp" 206]
    "Sending..."] |}.

Definition bitcoin_core_1 : list Message := [
  unfinished [file "../bitcoinstrings.cpp" 33]
    "MaryJaneCoin version";
  message [line 1]
    "Usage:"
    "გამოყენება:";
  unfinished [line 1]
    "Send command to -server or MaryJaneCoind";
  message [line 1]
    "List commands"
    "ბრძანებები";
  message [line 1]
    "Get help for a command"
    "ბრძანების აღწერილობა";
  message [line 2]
    "Options:"
    "ოპციები:";
  unfinished [line 2]
    "Specify configuration file (default: MaryJaneCoin.conf)";
  unfinished [line 1]
    "Specify pid file (default: MaryJaneCoind.pid)";
  message [line 2]
    "Specify wallet file (within data directory)"
    "მიუთითეთ საფულის ფაილი (კატალოგში)";
  message [line (-1)]
    "Specify data directory"
    "მიუთითეთ მონაცემთა კატალოგი";
  message [line 2]
    "Set database cache size in megabytes (default: 25)"
    "მონაცემთა ბაზის ქეშის ზომა მეგაბაიტებში (ნაგულისხმევია 25)";
  unfinished [line 1]
    "Set database disk log size in megabytes (default: 100)";
  unfinished [line 6]
    "Listen for connections on &lt;port&gt; (default: 15714 or testnet: 25714)";
  message [line 1]
    "Maintain at most &lt;n&gt; connections to peers (default: 125)"
    "არაუმეტეს &lt;n&gt; შეერთებისა პირებზე (ნაგულისხმევი: 125)";
  message [line 3]
    "Connect to a node to retrieve peer addresses, and disconnect"
    "მიერთება კვანძთან, პირების მისამართების მიღება და გათიშვა";
  message [line 1]
    "Specify your own public address"
    "მიუთითეთ თქვენი საჯარო მისამართი";
  unfinished [line 5]
    "Bind to given address. Use [host]:port notation for IPv6";
  unfinished [line 2]
    "Stake your coins to support network and gain reward (default: 1)";
  message [line 5]
    "Threshold for disconnecting misbehaving peers (default: 100)"
    "არასწორად მოქმედი პირების გათიშვის ზღვარი (ნაგულისხმევი:100)";
  message [line 1]
    "Number of seconds to keep misbehaving peers from reconnecting (default: 86400)"
    "არასწორად მოქმედი პირების ბლოკირების დრო წამებში (ნაგულისხმევი: 86400)";
  message [line (-44)]
    "An error occurred while setting up the RPC port %u for listening on IPv4: %s"
    "შეცდომა %u RPC-პორტის მიყურადების ჩართვისას IPv4 მისამართზე: %s";
  unfinished [line 51]
    "Detach block and address databases. Increases shutdown time (default: 0)";
  unfinished [line 109]
    "Error: The transaction was rejected.  This might happen if some of the coins in your wallet were already spent, such as if you used a copy of wallet.dat and coins were spent in the copy but not marked as spent here.";
  unfinished [line (-5)]
    "Error: This transaction requires a transaction fee of at least %s because of its amount, complexity, or use of recently received funds  ";
  unfinished [line (-87)]
    "Listen for JSON-RPC connections on &lt;port&gt; (default: 15715 or testnet: 25715)";
  message [line (-11)]
    "Accept command line and JSON-RPC commands"
    "საკომანდო სტრიქონისა და JSON-RPC-კომამდების ნებართვა";
  unfinished [line 101]
    "Error: Transaction creation failed  ";
  unfinished [line (-5)]
    "Error: Wallet locked, unable to create transaction  ";
  unfinished [line (-8)]
    "Importing blockchain data file."].

Definition bitcoin_core_2 : list Message := [
  unfinished [line 1]
    "Importing bootstrap blockchain data file.";
  message [line (-88)]
    "Run in the background as a daemon and accept commands"
    "რეზიდენტულად გაშვება და კომანდების მიღება";
  message [line 1]
    "Use the test network"
    "სატესტო ქსელის გამოყენება";
  message [line (-24)]
    "Accept connections from outside (default: 1 if no -proxy or -connect)"
    "გარედან შეერთებების დაშვება (ნაგულისხმევი: 1 თუ არ გამოიყენება -proxy ან -connect)";
  message [line (-38)]
    "An error occurred while setting up the RPC port %u for listening on IPv6, falling back to IPv4: %s"
    "შეცდომა %u RPC-პორტის მიყურადების ჩართვისას IPv6 მისამართზე, ვბრუნდებით IPv4-ზე : %s";
  unfinished [line 117]
    "Error initializing database environment %s! To recover, BACKUP THAT DIRECTORY, then remove everything from it except for wallet.dat.";
  unfinished [line (-20)]
    "Set maximum size of high-priority/low-fee transactions in bytes (default: 27000)";
  message [line 11]
    "Warning: -paytxfee is set very high! This is the transaction fee you will pay if you send a transaction."
    "ყურადღება:  ძალიან მაღალია -paytxfee - საკომისო, რომელსაც თქვენ გადაიხდით ამ ტრანსაქციის გაგზავნის საფასურად.";
  unfinished [line 61]
    "Warning: Please check that your computer&apos;s date and time are correct! If your clock is wrong MaryJaneCoin will not work properly.";
  message [line (-31)]
    "Warning: error reading wallet.dat! All keys read correctly, but transaction data or address book entries might be missing or incorrect."
    "ყურადღება: არ იკითხება wallet.dat! ყველა გასაღები წაკითხულია, მაგრამ გამორჩენილი ან არასწორია ტრანსაქციის თარიღი ან ჩანაწერები მისამართების წიგნში.";
  message [line (-18)]
    "Warning: wallet.dat corrupt, data salvaged! Original wallet.dat saved as wallet.{timestamp}.bak in %s; if your balance or transactions are incorrect you should restore from a backup."
    "ყურადღება: wallet.dat დაზიანებულია! ორიგინალური wallet.dat შენახულია როგორც wallet.{timestamp}.bak %s-ში; თუ შეამჩნიეთ უზუსტობა ნაშთში ან ტრანსაქციებში, აღადგინეთ არქივიდან.";
  message [line (-30)]
    "Attempt to recover private keys from a corrupt wallet.dat"
    "პირადი გასაღებების აღდგენის მცდელობა wallet.dat-იდან";
  message [line 4]
    "Block creation options:"
    "ბლოკის შექმნის ოპციები:";
  message [line (-62)]
    "Connect only to the specified node(s)"
    "შეერთება მხოლოდ მითითებულ კვანძ(ებ)თან";
  message [line 4]
    "Discover own IP address (default: 1 when listening and no -externalip)"
    "საკუთარი IP-მისამართის განსაზღვრა (ნაგულისხმევი: 1 თუ ჩართულია მიყურადება და არ გამოიყენება -externalip)";
  message [line 94]
    "Failed to listen on any port. Use -listen=0 if you want this."
    "ვერ ხერხდება პორტების მიყურადება. თუ გსურთ, გამოიყენეთ -listen=0.";
  unfinished [line (-90)]
    "Find peers using DNS lookup (default: 1)";
  unfinished [line 5]
    "Sync checkpoints policy (default: strict)";
  unfinished [line 83]
    "Invalid -tor address: &apos;%s&apos;";
  unfinished [line 4]
    "Invalid amount for -reservebalance=&lt;amount&gt;";
  message [line (-82)]
    "Maximum per-connection receive buffer, &lt;n&gt;*1000 bytes (default: 5000)"
    "მიღების ბუფერის მაქსიმალური ზომა შეერთებაზე, &lt;n&gt;*1000 ბაიტი (ნაგულისხმევი: 5000)";
  message [line 1]
    "Maximum per-connection send buffer, &lt;n&gt;*1000 bytes (default: 1000)"
    "გაგზავნის ბუფერის მაქსიმალური ზომა შეერთებაზე, &lt;n&gt;*1000 ბაიტი (ნაგულისხმევი: 5000)";
  message [line (-16)]
    "Only connect to nodes in network &lt;net&gt; (IPv4, IPv6 or Tor)"
    "შეერთება მხოლოდ &lt;net&gt; ქსელის კვანძებთან (IPv4, IPv6 ან Tor)";
  unfinished [line 28]
    "Output extra debugging information. Implies all other -debug* options";
  unfinished [line 1]
    "Output extra network debugging information";
  unfinished [line 1]
    "Prepend debug output with timestamp";
  message [line 35]
    "SSL options: (see the Bitcoin Wiki for SSL setup instructions)"
    "SSL ოპციები: (იხილე Bitcoin Wiki-ში  SSL-ს მოწყობის ინსტრუქციები)";
  unfinished [line (-74)]
    "Select the version of socks proxy to use (4-5, default: 5)";
  message [line 41]
    "Send trace/debug info to console instead of debug.log file"
    "ტრასირების/დახვეწის ინფოს გაგზავნა კონსოლზე debug.log ფაილის ნაცვლად"].

Definition bitcoin_core_3 : list Message := [
  unfinished [line 1]
    "Send trace/debug info to debugger";
  unfinished [line 28]
    "Set maximum block size in bytes (default: 250000)";
  message [line (-1)]
    "Set minimum block size in bytes (default: 0)"
    "დააყენეთ ბლოკის მინიმალური ზომა ბაიტებში (ნაგულისხმევი: 0)";
  message [line (-29)]
    "Shrink debug.log file on client startup (default: 1 when no -debug)"
    "debug.log ფაილის შეკუმშვა გაშვებისას (ნაგულისხმევია: 1 როცა არ აყენია -debug)";
  message [line (-42)]
    "Specify connection timeout in milliseconds (default: 5000)"
    "მიუთითეთ შეერთების ტაიმაუტი მილიწამებში (ნაგულისხმევი: 5000)";
  unfinished [line 109]
    "Unable to sign checkpoint, wrong checkpointkey?
";
  message [line (-80)]
    "Use UPnP to map the listening port (default: 0)"
    "გამოიყენეთ UPnP მისაყურადებელი პორტის გადასამისამართებლად (ნაგულისხმევი: 0)";
  message [line (-1)]
    "Use UPnP to map the listening port (default: 1 when listening)"
    "გამოიყენეთ UPnP მისაყურადებელი პორტის გადასამისამართებლად (ნაგულისხმევი: 1 როცა ჩართულია მიყურადება)";
  unfinished [line (-25)]
    "Use proxy to reach tor hidden services (default: same as -proxy)";
  message [line 42]
    "Username for JSON-RPC connections"
    "მომხმარებლის სახელი JSON-RPC-შეერთებისათვის";
  unfinished [line 47]
    "Verifying database integrity...";
  unfinished [line 57]
    "WARNING: syncronized checkpoint violation detected, but skipped!";
  unfinished [line 1]
    "Warning: Disk space is low!";
  message [line (-2)]
    "Warning: This version is obsolete, upgrade required!"
    "ყურადღება: ვერსია მოძველებულია, საჭიროა განახლება!";
  message [line (-48)]
    "wallet.dat corrupt, salvage failed"
    "wallet.dat დაზიანებულია, აღდგენა ვერ მოხერხდა";
  message [line (-54)]
    "Password for JSON-RPC connections"
    "პაროლი JSON-RPC-შეერთებისათვის";
  unfinished [line (-84)]
    "%s, you must set a rpcpassword in the configuration file:
 %s
It is recommended you use the following random password:
rpcuser=MaryJaneCoinrpc
rpcpassword=%s
(you do not need to remember this password)
The username and password MUST NOT be the same.
If the file does not exist, create it with owner-readable-only file permissions.
It is also recommended to set alertnotify so you are notified of problems;
for example: alertnotify=echo %%s | mail -s &quot;MaryJaneCoin Alert&quot; admin@foo.com
";
  unfinished [line 51]
    "Find peers using internet relay chat (default: 0)";
  unfinished [line 5]
    "Sync time with other nodes. Disable if time on your system is precise e.g. syncing with NTP (default: 1)";
  unfinished [line 15]
    "When creating transactions, ignore inputs with value less than this (default: 0.01)";
  message [line 16]
    "Allow JSON-RPC connections from specified IP address"
    "JSON-RPC-შეერთების ნებართვა მითითებული IP მისამართიდან";
  message [line 1]
    "Send commands to node running on &lt;ip&gt; (default: 127.0.0.1)"
    "კომანდის გაგზავნა კვანძისათვის, რომელიც გაშვებულია მისამართზე &lt;ip&gt; (ნაგულისხმევი: 127.0.0.1)";
  message [line 1]
    "Execute command when the best block changes (%s in cmd is replaced by block hash)"
    "კომანდის შესრულება უკეთესი ბლოკის გამოჩენისას (%s კომანდაში ჩანაცვლდება ბლოკის ჰეშით)";
  message [line 3]
    "Execute command when a wallet transaction changes (%s in cmd is replaced by TxID)"
    "კომანდის შესრულება საფულის ტრანსაქციის ცვლილებისას (%s კომანდაში ჩანაცვლდება TxID-ით)";
  unfinished [line 3]
    "Require a confirmations for change (default: 0)";
  unfinished [line 1]
    "Enforce transaction scripts to use canonical PUSH operators (default: 1)";
  unfinished [line 2]
    "Execute command when a relevant alert is received (%s in cmd is replaced by message)"].

Definition bitcoin_core_4 : list Message := [
  message [line 3]
    "Upgrade wallet to latest format"
    "საფულის ფორმატის განახლება";
  message [line 1]
    "Set key pool size to &lt;n&gt; (default: 100)"
    "გასაღების პულის ზომა იქნება &lt;n&gt; (ნაგულისხმევი: 100)";
  message [line 1]
    "Rescan the block chain for missing wallet transactions"
    "ბლოკების ჯაჭვის გადამოწმება საფულეში გამორჩენილ ტრანსაქციებზე";
  unfinished [line 2]
    "How many blocks to check at startup (default: 2500, 0 = all)";
  unfinished [line 1]
    "How thorough the block verification is (0-6, default: 1)";
  unfinished [line 1]
    "Imports blocks from external blk000?.dat file";
  message [line 8]
    "Use OpenSSL (https) for JSON-RPC connections"
    "OpenSSL-ის (https) გამოყენება JSON-RPC-შეერთებებისათვის";
  message [line 1]
    "Server certificate file (default: server.cert)"
    "სერვერის სერტიფიკატის ფაილი (ნაგულისხმევი: server.cert)";
  message [line 1]
    "Server private key (default: server.pem)"
    "სერვერის პირადი გასაღები (ნაგულისხმევი: server.pem)";
  unfinished [line 1]
    "Acceptable ciphers (default: TLSv1+HIGH:!SSLv2:!aNULL:!eNULL:!AH:!3DES:@STRENGTH)";
  unfinished [line 53]
    "Error: Wallet unlocked for staking only, unable to create transaction.";
  unfinished [line 18]
    "WARNING: Invalid checkpoint found! Displayed transactions may not be correct! You may need to upgrade, or notify developers.";
  message [line (-158)]
    "This help message"
    "ეს ტექსტი";
  unfinished [line 95]
    "Wallet %s resides outside data directory %s.";
  unfinished [line 1]
    "Cannot obtain a lock on data directory %s.  MaryJaneCoin is probably already running.";
  unfinished [line (-98)]
    "MaryJaneCoin";
  message [line 140]
    "Unable to bind to %s on this computer (bind returned error %d, %s)"
    "ვერ ხერხდება მიბმა %s-თან ამ კომპიუტერზე (მიღებულია შეცდომა %d, %s)";
  unfinished [line (-130)]
    "Connect through socks proxy";
  message [line 3]
    "Allow DNS lookups for -addnode, -seednode and -connect"
    "DNS-ძებნის დაშვება -addnode, -seednode და -connect-სათვის";
  message [line 122]
    "Loading addresses..."
    "მისამართების ჩატვირთვა...";
  unfinished [line (-15)]
    "Error loading blkindex.dat";
  message [line 2]
    "Error loading wallet.dat: Wallet corrupted"
    "არ იტვირთება wallet.dat: საფულე დაზიანებულია";
  unfinished [line 4]
    "Error loading wallet.dat: Wallet requires newer version of MaryJaneCoin";
  unfinished [line 1]
    "Wallet needed to be rewritten: restart MaryJaneCoin to complete";
  message [line 1]
    "Error loading wallet.dat"
    "არ იტვირთება wallet.dat";
  message [line (-16)]
    "Invalid -proxy address: &apos;%s&apos;"
    "არასწორია მისამართი -proxy: &apos;%s&apos;";
  message [line (-1)]
    "Unknown network specified in -onlynet: &apos;%s&apos;"
    "-onlynet-ში მითითებულია უცნობი ქსელი: &apos;%s&apos;";
  message [line (-1)]
    "Unknown -socks proxy version requested: %i"
    "მოთხოვნილია -socks პროქსის უცნობი ვერსია: %i";
  message [line 4]
    "Cannot resolve -bind address: &apos;%s&apos;"
    "ვერ ხერხდება -bind მისამართის გარკვევა: &apos;%s&apos;"].

Definition bitcoin_core_5 : list Message := [
  message [line 2]
    "Cannot resolve -externalip address: &apos;%s&apos;"
    "ვერ ხერხდება -externalip მისამართის გარკვევა: &apos;%s&apos;";
  message [line (-24)]
    "Invalid amount for -paytxfee=&lt;amount&gt;: &apos;%s&apos;"
    "დაუშვებელი მნიშვნელობა -paytxfee=&lt;amount&gt;: &apos;%s&apos;";
  unfinished [line 44]
    "Error: could not start node";
  unfinished [line 11]
    "Sending...";
  message [line 5]
    "Invalid amount"
    "დაუშვებელი თანხა";
  message [line 1]
    "Insufficient funds"
    "არ არის საკმარისი თანხა";
  message [line (-34)]
    "Loading block index..."
    "ბლოკების ინდექსის ჩატვირთვა...";
  message [line (-103)]
    "Add a node to connect to and attempt to keep the connection open"
    "მისაერთებელი კვანძის დამატება და მიერთების შეძლებისდაგვარად შენარჩუნება";
  unfinished [line 122]
    "Unable to bind to %s on this computer. MaryJaneCoin is probably already running.";
  unfinished [line (-97)]
    "Fee per KB to add to transactions you send";
  unfinished [line 55]
    "Invalid amount for -mininput=&lt;amount&gt;: &apos;%s&apos;";
  message [line 25]
    "Loading wallet..."
    "საფულის ჩატვირთვა...";
  message [line 8]
    "Cannot downgrade wallet"
    "საფულის ძველ ვერსიაზე გადაყვანა შეუძლებელია";
  unfinished [line 1]
    "Cannot initialize keypool";
  message [line 1]
    "Cannot write default address"
    "ვერ ხერხდება ნაგულისხმევი მისამართის ჩაწერა";
  message [line 1]
    "Rescanning..."
    "სკანირება...";
  message [line 5]
    "Done loading"
    "ჩატვირთვა დასრულებულია";
  message [line (-167)]
    "To use the %s option"
    "%s ოპციის გამოსაყენებლად";
  message [line 14]
    "Error"
    "შეცდომა";
  message [line 6]
    "You must set rpcpassword=&lt;password&gt; in the configuration file:
%s
If the file does not exist, create it with owner-readable-only file permissions."
    "უნდა დააყენოთ rpcpassword=&lt;password&gt; საკონფიგურაციო ფაილში:
%s
თუ ეს ფაილი არ არსებობს, შექმენით იგი უფლებებით owner-readable-only."].

Definition bitcoin_core : Context := {| c_name := "bitcoin-core"; c_messages := bitcoin_core_1 ++ bitcoin_core_2 ++ bitcoin_core_3 ++ bitcoin_core_4 ++ bitcoin_core_5 |}.

Definition catalogue : TS := {| language := "ka"; version := "2.1"; contexts := [
  AboutDialog; AddressBookPage; AddressTableModel; AskPassphraseDialog; BitcoinGUI; ClientModel; CoinControlDialog; EditAddressDialog; GUIUtil_HelpMessageBox; OptionsDialog; OverviewPage; QRCodeDialog; RPCConsole; SendCoinsDialog; SendCoinsEntry; SignVerifyMessageDialog; TransactionDesc; TransactionDescDialog; TransactionTableModel; TransactionView; WalletModel; bitcoin_core] |}.

End Ka.
