(* ===== verification/Catalogues.v ===== *)
(** * What the catalogues satisfy

    The catalogues of [CatalogueZhCN], [CatalogueJa] and
    [CatalogueKa] checked against the conditions of [Translation]: which messages
    they hold, which translated formats are safe to print with, and the
    translations whose place markers or markup are broken. *)

From stdpp Require Import strings.
From S2P Require Import Prelude Translation CatalogueZhCN CatalogueJa CatalogueKa.
Import Translation.

Module Catalogues.
Open Scope string_scope.

Definition sound_catalogues : list TS := [ZhCN.catalogue; Ja.catalogue; Ka.catalogue].

(** Outside the node's own messages: the texts with other place markers than
    their source, and those whose markup is not well nested. *)
Definition bad_markers (t : TS) : list (string * string) :=
  failing (fun c => negb (is_core c)) same_markers t.
Definition bad_markup (t : TS) : list (string * string) :=
  failing (fun c => negb (is_core c)) (fun _ y => balanced (tags_from None y)) t.

(** Texts with the canonical encoding of their entities. *)
Definition canonical_text (x : string) : bool :=
  match unescape x with Some y => bool_decide (escape y = x) | None => false end.
Definition message_canonical (m : Message) : bool :=
  canonical_text (m_source m) && forallb canonical_text (texts m).
Definition all_messages (t : TS) : list Message := concat (map c_messages (contexts t)).

Definition same_key (a b : string * string) : bool := String.eqb a.2 b.2 && String.eqb a.1 b.1.
Fixpoint distinct (l : list (string * string)) : bool :=
  match l with [] => true | k :: l' => negb (existsb (same_key k) l') && distinct l' end.

Lemma distinct_NoDup l : distinct l = true -> NoDup l.
Proof.
  induction l as [|k l IH]; cbn; [constructor|]. intros [Hk%negb_true_iff Hl]%andb_true_iff.
  constructor; [|by apply IH]. intros Hin. apply not_true_iff_false in Hk. apply Hk, existsb_exists.
  exists k. split; [by apply list_elem_of_In|]. unfold same_key. by rewrite !String.eqb_refl.
Qed.

#[local] Instance location_eq_dec : EqDecision Location.
Proof. solve_decision. Defined.

(** An equality of data decided by evaluation. *)
Ltac computed := apply (bool_decide_unpack _); vm_compute; exact I.

(** The three catalogues translate the same messages: the same contexts and
    sources in the same order, used at the same places, each once. *)
Theorem same_messages :
  message_keys Ja.catalogue = message_keys ZhCN.catalogue /\
  message_keys Ka.catalogue = message_keys ZhCN.catalogue /\
  map m_locations (all_messages Ja.catalogue) = map m_locations (all_messages ZhCN.catalogue) /\
  map m_locations (all_messages Ka.catalogue) = map m_locations (all_messages ZhCN.catalogue) /\
  length (message_keys ZhCN.catalogue) = 623%nat /\ NoDup (message_keys ZhCN.catalogue).
Proof.
  do 4 (split; [computed|]). split; [vm_compute; reflexivity|].
  apply distinct_NoDup. vm_compute. reflexivity.
Qed.

Lemma formats_ok : Forall (fun t => bad_formats t = []) sound_catalogues.
Proof. unfold sound_catalogues. repeat constructor; vm_compute; reflexivity. Qed.

(** C40. A translated format reads the same arguments as the format it replaces,
    whichever of the Chinese, Japanese and Georgian catalogues are installed, by the
    documented behaviour of Qt: [strprintf(_(...), ...)] is as safe in these languages
    as in English. *)
Theorem translated_format_safe `{QtTranslateLaws} installed psz :
  Forall (fun t => t ∈ sound_catalogues) installed -> arguments (Translate installed psz) = arguments psz.
Proof.
  intros Hi. apply translate_arguments. eapply Forall_impl; [exact Hi|]. intros t Ht.
  by apply (proj1 (Forall_forall _ _) formats_ok).
Qed.

(** Every translation keeps the place markers of its source, but for one: the
    Georgian text of the fee warning has [1%] for [%1], so the fee is not shown. *)
Theorem markers_kept :
  bad_markers ZhCN.catalogue = [] /\ bad_markers Ja.catalogue = [] /\
  bad_markers Ka.catalogue =
    [("SendCoinsDialog", "The total exceeds your balance when the %1 transaction fee is included.")].
Proof. split; [|split]; vm_compute; reflexivity. Qed.

(** The rich text of every translation is well nested, but for two: the
    passphrase prompt in Chinese and the encryption warning in Japanese. *)
Theorem markup_nested :
  bad_markup ZhCN.catalogue =
    [("AskPassphraseDialog", "Enter the new passphrase to the wallet.&lt;br/&gt;Please use a passphrase of &lt;b&gt;10 or more random characters&lt;/b&gt;, or &lt;b&gt;eight or more words&lt;/b&gt;.")] /\
  bad_markup Ja.catalogue =
    [("AskPassphraseDialog", "Warning: If you encrypt your wallet and lose your passphrase, you will &lt;b&gt;LOSE ALL OF YOUR COINS&lt;/b&gt;!")] /\
  bad_markup Ka.catalogue = [].
Proof. split; [|split]; vm_compute; reflexivity. Qed.

Lemma canonical_text_true x : canonical_text x = true -> exists y, unescape x = Some y /\ x = escape y.
Proof.
  unfold canonical_text. destruct (unescape x) as [y|]; [|done]. intros <-%bool_decide_eq_true. by exists y.
Qed.

Lemma sound_catalogues_canonical : Forall (fun t => forallb message_canonical (all_messages t) = true) sound_catalogues.
Proof. unfold sound_catalogues. repeat constructor; vm_compute; reflexivity. Qed.

(** Every text of the catalogues is the canonical encoding of a text, the one
    it decodes to: no entity is unknown or unfinished and no character that needs
    an entity stands by itself. *)
Theorem texts_canonical :
  Forall (fun t => Forall (fun m => Forall (fun x => exists y, unescape x = Some y /\ x = escape y)
    (m_source m :: texts m)) (all_messages t)) sound_catalogues.
Proof.
  eapply Forall_impl; [exact sound_catalogues_canonical|]. cbv beta. intros t Ht. rewrite forallb_forall in Ht.
  apply Forall_forall. intros m Hm%list_elem_of_In%Ht. unfold message_canonical in Hm.
  apply andb_true_iff in Hm as [Hs Hx]. rewrite forallb_forall in Hx.
  constructor; [by apply canonical_text_true|]. apply Forall_forall. intros x Hin%list_elem_of_In.
  by apply canonical_text_true, Hx.
Qed.

(** The format of the bind error, in Japanese. *)
Lemma translated_format_safe_witness :
  arguments (@Translate search_translate [Ka.catalogue; Ja.catalogue]
    "Unable to bind to %s on this computer (bind returned error %d, %s)") = ["%s"; "%d"; "%s"] /\
  @Translate search_translate [Ka.catalogue; Ja.catalogue]
    "Unable to bind to %s on this computer (bind returned error %d, %s)" <>
    "Unable to bind to %s on this computer (bind returned error %d, %s)".
Proof.
  split.
  - rewrite (@translated_format_safe search_translate search_laws).
    + vm_compute. reflexivity.
    + unfold sound_catalogues. constructor; [right; right; left|constructor; [right; left|constructor]].
  - vm_compute. discriminate.
Defined.

End Catalogues.
